(* ===== verification/_CoqProject ===== *)
-Q . S2P
Prelude.v
FlatBook.v
Spsc.v
Ring.v
Varlen.v
Double.v
Common.v
Oms.v
Risk.v
Bytes.v
Itch.v
ItchBook.v
Ouch.v
Soup.v
OuchTracker.v
Gap.v
Multicast.v
Meters.v
Text.v
Fix.v
FixSession.v
FixOrders.v
Router.v
LadderTypes.v
LadderTrades.v
LadderSamples.v
Ladder.v
LadderOps.v
LadderViews.v
LadderInv.v
LadderKeep.v
LadderMatch.v
LadderSubmit.v
LadderStep.v
LadderReach.v
LadderFifo.v
LadderHidden.v
LadderProps.v
LadderWire.v
Mpmc.v
Sequencer.v
Waitable.v
Strategy.v
MatchEngine.v
Generator.v
Pipeline.v
PipelineProps.v
ExecAlgo.v
WebSocket.v
Cluster.v
Persist.v
Indicators.v
SignalTools.v
Config.v
