(* ===== verification/Prelude.v ===== *)
(** * hft-infra-lab: a verification development

    The repository is a header-only C++ laboratory of the parts of a trading
    system: market-data feed handlers, order books, an order management system
    (OMS), a pre-trade risk manager, exchange protocols and the lock-free queues
    that join them.  This development models those parts as executable
    functions and proves what makes each of them correct.

    ** How the program is put together

    A feed (multicast, ITCH, a WebSocket) is sequenced and gap-filled, parsed
    and applied to a book: the flat array book, the ITCH book, or the full
    ladder book, of which a cluster keeps one per symbol.  A strategy reads the
    book, the router chooses venues, the risk manager
    ([RiskManager::check_order]) and then the OMS ([OMS::submit_order]) accept
    an order; it leaves through a protocol session (OUCH over SoupBinTCP, FIX),
    and fills come back through the session to the OMS, the risk manager's
    positions and the profit and loss.  Threads talk through bounded lock-free
    rings.  The simulator composes generator, parser, strategy, router, market
    makers, risk manager, OMS and ladder book into one run.

    ** The files

    - [Prelude] (this file): machine integers as wrapped [Z], record update,
      arrays, case-analysis tactics, sums over lists and maps, modular sums.
    - [Ring]: an array read clockwise, shared by the ring buffers.
    - [Double]: C++ [double] as IEEE binary64 (the Standard Library's
      [SpecFloat]) and its conversions to integers.
    - [Common]: [common/types.hpp], [symbol_key.hpp], [ring_counter.hpp], and
      [HashOrder], the unspecified iteration order of a hash map.
    - [FlatBook]: [orderbook/orderbook_flat.hpp], the array book with occupancy
      bitmaps, against an abstract price-level book.
    - [Spsc]: [lockfree/spsc_queue.hpp], as calls and as a step relation over
      which producer and consumer interleave.
    - [Varlen]: [lockfree/varlen_ring.hpp], the byte ring of framed messages.
    - [Oms]: [oms/oms.hpp], orders, positions, fills, cancel/replace, queries.
    - [Risk]: [risk/risk_manager.hpp], checks, exposure, kill switch, queries.
    - [Bytes]: buffers, partial reads and big-endian integers of the wire
      protocols.
    - [Itch]: [itch-parser/itch_parser.hpp], the message parser, and the wire
      format it inverts.
    - [ItchBook]: [itch-parser/itch_book.hpp], the book rebuilt from the feed.
    - [Ouch]: [ouch-protocol/ouch_protocol.hpp], encoders, parsers, validation.
    - [Soup]: [ouch-protocol/soupbin.hpp] and [soupbin_session.hpp], framing,
      the session client and the exchange mock.
    - [OuchTracker]: [ouch-protocol/ouch_order_state.hpp], the client's orders.
    - [Gap]: [multicast/gap_recovery.hpp], gap recovery, A/B arbitration,
      reordering, duplicate windows, snapshots, retransmit requests.
    - [Multicast]: [multicast/multicast.hpp], messages, MoldUDP64 packets and the
      sequence tracker.
    - [Meters]: the measuring structures of [multicast/gap_recovery.hpp].
    - [Text]: the C library's number conversions; [Fix]: [fix-protocol/
      fix_parser.hpp], parser, validation, builder; [FixSession]:
      [fix_session.hpp], session, builders, typed parsers; [FixOrders]:
      [fix_order_state.hpp], the client's orders.
    - [LadderTypes], [LadderTrades], [LadderSamples]: the data of the full order
      book ([orderbook/orderbook_pro_types.hpp]), what a trade feeds and the
      samplers ([orderbook/orderbook_pro.hpp]).
    - [Ladder]: [FullOrderBook]: pool, levels, matching, [submit], [cancel].
      [LadderOps]: [modify], stops, pegs, auctions, sessions, formats, settings.
      [LadderViews]: its queries.
    - [LadderInv]: the invariant of the book, and the primitive changes that keep
      it; [LadderKeep], [LadderMatch], [LadderSubmit], [LadderStep]: cancelling,
      matching, submitting and the other operations keep it, and end;
      [LadderReach]: the books that can be reached.
    - [LadderFifo], [LadderHidden], [LadderProps], [LadderWire]: priority, the
      match that never ends, what is promised, formats and the auction price.
    - [Mpmc]: [lockfree/mpmc_queue.hpp] and [mpsc_queue.hpp], threads that take
      one atomic step at a time; [Sequencer]: [lockfree/sequencer.hpp];
      [Waitable]: [lockfree/waitable_mpsc.hpp] over the steps of [Mpmc].
    - [Strategy]: [strategy/market_maker.hpp] and [mean_reversion.hpp].
    - [Generator], [MatchEngine]: the synthetic feed and the matching engine
      adapter of [simulator/market_sim.hpp].
    - [Pipeline], [PipelineProps]: [run_pipeline] of [simulator/market_sim.hpp],
      the composition of feed, parser, strategy, router, makers, risk manager,
      OMS and book.
    - [ExecAlgo]: [strategy/exec_algo.hpp], slicing a parent order.
    - [WebSocket]: [feed/ws_client.hpp], the handshake and the frames.
    - [Cluster]: [orderbook/orderbook_pro_cluster.hpp], a book per symbol.
    - [Persist]: the state files of [fix_session.hpp] and [risk_manager.hpp].
    - [Indicators]: [strategy/momentum.hpp], [bollinger.hpp], [donchian.hpp],
      [rsi.hpp] and [ma_crossover.hpp], five instances of one interface.
    - [SignalTools]: [strategy/pov_algo.hpp], [signal_throttle.hpp],
      [trailing_stop.hpp], [ensemble.hpp].
    - [Config]: [config/config_loader.hpp], filling the [HFTConfig] of the
      simulator.

    ** Conventions

    A class is a [Record] with the source's field names; a method is a
    definition with the method's name from state to state (paired with the
    result).  An integer is a [Z] followed by [u64], [i32], ... wherever the
    code's type could wrap; signed overflow, undefined in C++, is given its
    two's complement value, and theorems that need its absence say so.  A C
    array is a list read and written by [aget] and [aset], whose indices the
    code's own guards keep in range.  Clock readings, and what the operating
    system returned, are arguments.  Loops that are not structural carry fuel:
    [try_match] has two units per price level, and each turn empties a level;
    [evict] has as many as the ring has slots; the bit scans run over the words
    left.  Statements about a loop's result therefore hold for the loop itself.

    ** What the theorems show

    - [FlatBook]: adding an order refines the abstract book that trades best
      against best (refinement), every reachable book has exact bitmaps and
      best prices and is uncrossed (invariant), the bit scans are exact,
      matching conserves quantity and respects price priority, [cancel] and
      [modify] on every branch.
    - [Spsc]: FIFO order and freedom from slot races in every interleaving, and
      the sequential queue specification.  [Varlen]: messages come out as they
      went in, across the end of the buffer, and nothing is lost on failure.
    - [Oms]: reachable systems have consistent orders, pending exposure and
      positions; profit and loss are conserved by fills up to rounding; limits
      hold after accepted orders; [cancel_all] leaves nothing working.
    - [Risk]: the denormalised exposure is exact; an allowed order respects all
      limits; the kill switch latches; the rate window; the headroom query.
    - [Common]: symbol keys round-trip; the timestamp ring is a sliding window.
    - [Itch]: the parser reads only its buffer and inverts the wire format.
      [ItchBook]: from wire bytes to book, the levels stay the totals of the
      resting orders and the self-check passes; quotes of fills are exact.
    - [Ouch]: responses and orders survive the wire; the validation accepts what
      it documents.  [Soup]: the client does not depend on how the stream is cut;
      a whole session ends with every order filled.  [OuchTracker]: shares
      ordered, filled, open, cancelled and busted balance.
    - [Gap]: the missing set is exact; two redundant lines deliver each number
      once; the reorder buffer releases the longest in-order prefix at once, and
      the contiguous tracker agrees with it.  [Multicast]: packets come back as
      written; received and lost messages account for every number.
    - [Fix]: messages come back field by field and a changed byte is caught.
      [FixSession]: gaps are reported exactly over a lossy link.  [FixOrders]: an
      execution report sent over the wire sets exactly its order.
    - [Ladder*]: every reachable book is well formed and passes its own audit
      unless a level outgrows 32 bits; matching is first come first served at a
      level; a submission ends ([LadderSubmit.match_fuel] turns and one for each
      bracket) when no hidden order rests in the book, and may not when one does;
      no self-trades under a cancelling policy; a refused order changes nothing;
      the auction price trades most; snapshot records read back.  The examples
      at the end of [LadderProps] show where the book differs from its comments.
    - [Mpmc]: exactly once and in order for any number of threads, no data
      races, the sequential specification; the single-consumer queue is a
      special case.  [Sequencer]: every consumer sees everything.  [Waitable]:
      no wake-up is lost if the flag is seen at once, one can be if not.
    - [Strategy]: the market maker's inventory stays within its limit plus one
      quote, signals depend on a symbol's own prices only.  [Generator]: the
      synthetic feed parses.  [MatchEngine]: every match returns.
    - [PipelineProps]: the whole simulator returns for every feed; OMS and risk
      manager agree, the limits hold in the OMS, the makers' inventories are the
      OMS's positions; the total it reports is always zero (a finding).
    - [ExecAlgo]: slicing after a profile never sends more than the order and
      sends all of it by the last slot; equal slicing is exact on schedule, and
      not off it (findings).
    - [WebSocket]: frames are read and answered however the stream is cut, texts
      round-trip between clients, the handshake leaves the frames behind it.
    - [Cluster]: symbols have books of their own, the snapshot's frame reads back,
      crossed pairs are found exactly.
    - [Persist]: a crash at any point of saving leaves the old state or the new;
      the kill switch survives a restart; a full disk loses it (a finding).
    - [Indicators]: every symbol has its own window, whatever the indicator; a
      moving-average crossover signals exactly the crossings.
    - [SignalTools]: participation never exceeds the order, signals let through
      are a cooldown apart, a stop only tightens, a vote is a strict majority.
    - [Config]: a written configuration loads as what it says.

    ** What is not modelled

    - Some sixty technical indicators of [strategy/] that only the demos and
      tests call, five of which need [exp], [log] or [cos]; these functions are why
      [pnl_expected_shortfall] of the risk manager is left out.
    - The backtest's statistics, the reader of replay files, and the fill
      simulator, which draws from distributions whose algorithms the C++
      standard leaves to the library.
    - The loggers, the TLS client, the network server, the monitor, the
      kernel-bypass timing simulation:
      operating-system I/O around code that is modelled where it decides
      anything.  Opening and configuring multicast sockets, and printing, are
      left out of the parts that are modelled.
    - [run_pipeline_threaded], the generator and the parser at the two ends of
      an [SPSCQueue], and the timing statistics of [run_pipeline].
    - Demos, tests, benchmarks, the earlier order books, the Python bindings.
    - [clear] and [load_snapshot] of the ladder book are modelled but are not
      among the operations over which its invariant is proved: they trust their
      input, and a snapshot with orders that no book could hold is loaded.
    - Memory orders weaker than sequential consistency are modelled only where a
      theorem is about them ([Waitable]): elsewhere the steps of the threads
      interleave, and what is shown is which slots they touch and when. *)
From stdpp Require Export base tactics gmap strings list fin_maps numbers relations.
From Stdlib Require Export Lia.

Declare Scope hft_scope.
Delimit Scope hft_scope with hft.
#[export] Set Default Goal Selector "!".
#[global] Open Scope Z_scope.

(** ** Machine integers

    A [w]-bit unsigned value is a [Z] in [0, 2^w); arithmetic that the code
    performs at that width is followed by [wrapu w] (unsigned, defined to wrap)
    or [wraps w] (two's complement). *)

Definition wrapu (w z : Z) : Z := z mod 2 ^ w.
Definition wraps (w z : Z) : Z := (z + 2 ^ (w - 1)) mod 2 ^ w - 2 ^ (w - 1).

Abbreviation u8 := (wrapu 8).
Abbreviation u16 := (wrapu 16).
Abbreviation u32 := (wrapu 32).
Abbreviation u64 := (wrapu 64).
Abbreviation i32 := (wraps 32).
Abbreviation i64 := (wraps 64).

Definition INT32_MAX : Z := 2147483647.
Definition INT32_MIN : Z := -2147483648.
Definition INT64_MAX : Z := 9223372036854775807.
Definition INT64_MIN : Z := -9223372036854775808.
Definition UINT64_MAX : Z := 18446744073709551615.

Lemma wrapu_small w z : 0 <= z < 2 ^ w -> wrapu w z = z.
Proof. intros H. unfold wrapu. by apply Z.mod_small. Qed.

Lemma wrapu_range w z : 0 <= w -> 0 <= wrapu w z < 2 ^ w.
Proof. intros H. unfold wrapu. apply Z.mod_pos_bound. by apply Z.pow_pos_nonneg. Qed.

Lemma wraps_small w z :
  0 < w -> - 2 ^ (w - 1) <= z < 2 ^ (w - 1) -> wraps w z = z.
Proof.
  intros Hw H. unfold wraps.
  assert (2 ^ w = 2 * 2 ^ (w - 1)) as E.
  { rewrite <- Z.pow_succ_r by lia. f_equal. lia. }
  rewrite E, Z.mod_small by lia. lia.
Qed.

Lemma wraps_range w z :
  0 < w -> - 2 ^ (w - 1) <= wraps w z < 2 ^ (w - 1).
Proof.
  intros Hw. unfold wraps.
  assert (2 ^ w = 2 * 2 ^ (w - 1)) as E.
  { rewrite <- Z.pow_succ_r by lia. f_equal. lia. }
  pose proof (Z.mod_pos_bound (z + 2 ^ (w - 1)) (2 ^ w)) as B.
  assert (0 < 2 ^ (w - 1)) by (apply Z.pow_pos_nonneg; lia). lia.
Qed.

(** The widths used by the components, with the powers of two evaluated so
    that [lia] closes the side conditions. *)
Lemma u64_small z : 0 <= z < 18446744073709551616 -> u64 z = z.
Proof. intros. by apply wrapu_small. Qed.
Lemma u32_small z : 0 <= z < 4294967296 -> u32 z = z.
Proof. intros. by apply wrapu_small. Qed.
Lemma u16_small z : 0 <= z < 65536 -> u16 z = z.
Proof. intros. by apply wrapu_small. Qed.
Lemma u8_small z : 0 <= z < 256 -> u8 z = z.
Proof. intros. by apply wrapu_small. Qed.
Lemma i32_small z : -2147483648 <= z <= 2147483647 -> i32 z = z.
Proof. intros. apply wraps_small; simpl; lia. Qed.
Lemma i64_small z : -9223372036854775808 <= z <= 9223372036854775807 -> i64 z = z.
Proof. intros. apply wraps_small; simpl; lia. Qed.
Lemma u64_range z : 0 <= u64 z < 18446744073709551616.
Proof. apply (wrapu_range 64); lia. Qed.
Lemma u32_range z : 0 <= u32 z < 4294967296.
Proof. apply (wrapu_range 32); lia. Qed.
Lemma u16_range z : 0 <= u16 z < 65536.
Proof. apply (wrapu_range 16); lia. Qed.
Lemma u8_range z : 0 <= u8 z < 256.
Proof. apply (wrapu_range 8); lia. Qed.
Lemma i32_range z : -2147483648 <= i32 z <= 2147483647.
Proof. pose proof (wraps_range 32 z). simpl in *. lia. Qed.
Lemma i64_range z : -9223372036854775808 <= i64 z <= 9223372036854775807.
Proof. pose proof (wraps_range 64 z). simpl in *. lia. Qed.

Create HintDb hft discriminated.
Create Rewrite HintDb hft.
#[export] Hint Resolve u64_range u32_range u16_range u8_range i32_range i64_range : hft.
#[export] Hint Rewrite u64_small u32_small u16_small u8_small i32_small i64_small
  using lia : hft.

(** ** Record update

    [r <| f := v |>] and [r <| f ::= g |>] update one field of a record whose
    type has a [Settable] instance, the eta expansion of its constructor. *)

Class Settable (R : Type) := eta_expand : R -> R.
#[export] Hint Mode Settable ! : typeclass_instances.
Class Setter {R T : Type} (proj : R -> T) := set_field : (T -> T) -> R -> R.
Arguments set_field {R T} proj {_} _ _ /.

Ltac find_setter :=
  lazymatch goal with
  | |- @Setter ?R ?T ?proj =>
      let s := constr:(_ : Settable R) in
      let s := eval hnf in s in
      lazymatch eval pattern proj in s with
      | ?k _ => let f := eval cbv beta in (fun (g : T -> T) => k (fun r => g (proj r))) in
                exact f
      end
  end.
#[export] Hint Extern 1 (Setter _) => find_setter : typeclass_instances.

Notation "r <| f ::= g |>" := (set_field f g r)
  (at level 12, f at next level, g at level 200, left associativity,
   format "r  <| f  ::=  g |>") : hft_scope.
Notation "r <| f := v |>" := (set_field f (fun _ => v) r)
  (at level 12, f at next level, v at level 200, left associativity,
   format "r  <| f  :=  v |>") : hft_scope.
#[global] Open Scope hft_scope.

(** ** Arrays

    A C array of integers is a list; [aget] reads an element by a [Z] index and
    [aset] writes one.  The code's own guards keep every index in range; the
    lemmas carry the range as a side condition. *)

Definition aget (l : list Z) (i : Z) : Z := default 0 (l !! Z.to_nat i).
Definition aset (l : list Z) (i v : Z) : list Z := <[Z.to_nat i := v]> l.
Definition alen {A} (l : list A) : Z := Z.of_nat (length l).

Lemma alen_nonneg {A} (l : list A) : 0 <= alen l.
Proof. unfold alen. lia. Qed.
Lemma alen_app {A} (l1 l2 : list A) : alen (l1 ++ l2) = alen l1 + alen l2.
Proof. unfold alen. rewrite length_app. lia. Qed.
Lemma aget_aset_eq l i v : 0 <= i < alen l -> aget (aset l i v) i = v.
Proof.
  unfold aget, aset, alen. intros H. rewrite list_lookup_insert_eq by lia. done.
Qed.
Lemma aget_aset_ne l i j v : 0 <= i -> 0 <= j -> i <> j -> aget (aset l i v) j = aget l j.
Proof.
  unfold aget, aset. intros Hi Hj H. rewrite list_lookup_insert_ne by lia. done.
Qed.
Lemma alen_aset l i v : alen (aset l i v) = alen l.
Proof. unfold alen, aset. by rewrite length_insert. Qed.
Lemma aget_aset l i j v :
  0 <= i < alen l -> 0 <= j ->
  aget (aset l i v) j = if j =? i then v else aget l j.
Proof.
  intros Hi Hj. destruct (Z.eqb_spec j i) as [->|N].
  - by apply aget_aset_eq.
  - apply aget_aset_ne; lia.
Qed.
Lemma aget_replicate n v i : 0 <= i < Z.of_nat n -> aget (replicate n v) i = v.
Proof. unfold aget. intros H. by rewrite lookup_replicate_2 by lia. Qed.
Lemma aget_Forall (P : Z -> Prop) l i : 0 <= i < alen l -> Forall P l -> P (aget l i).
Proof.
  unfold aget, alen. intros Hi HP.
  destruct (lookup_lt_is_Some_2 l (Z.to_nat i)) as [x Hx]; [lia|].
  rewrite Hx. simpl. by eapply Forall_lookup_1.
Qed.
#[export] Hint Rewrite alen_aset : hft.

(** ** Tactics *)

(** Case analysis on the boolean comparisons of [Z] that a goal or a
    hypothesis branches on. *)
Ltac zcase_term c :=
  lazymatch c with
  | (?a <? ?b) => destruct (Z.ltb_spec a b)
  | (?a <=? ?b) => destruct (Z.leb_spec a b)
  | (?a =? ?b) => destruct (Z.eqb_spec a b)
  | (?a >? ?b) => rewrite (Z.gtb_ltb a b) in *; destruct (Z.ltb_spec b a)
  | (?a >=? ?b) => rewrite (Z.geb_leb a b) in *; destruct (Z.leb_spec b a)
  end.
Ltac zcase :=
  match goal with
  | |- context [?a <? ?b] => zcase_term (a <? b)
  | |- context [?a <=? ?b] => zcase_term (a <=? b)
  | |- context [?a =? ?b] => zcase_term (a =? b)
  | |- context [?a >? ?b] => zcase_term (a >? b)
  | |- context [?a >=? ?b] => zcase_term (a >=? b)
  end.
Ltac zcases := repeat (zcase; simpl; try lia).
Ltac bsplit :=
  repeat match goal with
  | H : (_ && _)%bool = true |- _ => apply andb_true_iff in H as [? ?]
  | H : (_ || _)%bool = false |- _ => apply orb_false_iff in H as [? ?]
  | H : negb _ = true |- _ => apply negb_true_iff in H
  | H : negb _ = false |- _ => apply negb_false_iff in H
  | H : (_ <? _) = true |- _ => apply Z.ltb_lt in H
  | H : (_ <? _) = false |- _ => apply Z.ltb_ge in H
  | H : (_ <=? _) = true |- _ => apply Z.leb_le in H
  | H : (_ <=? _) = false |- _ => apply Z.leb_gt in H
  | H : (_ =? _) = true |- _ => apply Z.eqb_eq in H
  | H : (_ =? _) = false |- _ => apply Z.eqb_neq in H
  end.
Ltac hft := autorewrite with hft in *; auto with hft.

(** [cbn] that also runs record updates. *)
Ltac upd := unfold set_field; cbn [fst snd] in *.

(** ** List facts shared by the components *)

Lemma sum_list_Z_app (l1 l2 : list Z) :
  foldr Z.add 0 (l1 ++ l2) = foldr Z.add 0 l1 + foldr Z.add 0 l2.
Proof. induction l1; simpl; lia. Qed.

Lemma take_drop_slice {A} (l : list A) (n m : nat) :
  take m (drop n l) ++ drop (n + m) l = drop n l.
Proof. rewrite <- drop_drop. apply take_drop. Qed.

(** [sumf f l] adds [f] over an array: counting and conservation arguments are
    about how one write changes it. *)
Definition sumf {A} (f : A -> Z) (l : list A) : Z := foldr (fun x acc => f x + acc) 0 l.

Lemma sumf_cons {A} (f : A -> Z) x l : sumf f (x :: l) = f x + sumf f l.
Proof. done. Qed.
Lemma sumf_app {A} (f : A -> Z) l1 l2 : sumf f (l1 ++ l2) = sumf f l1 + sumf f l2.
Proof. induction l1 as [|x l1 IH]; simpl; [done|]. rewrite IH. lia. Qed.

Lemma sumf_insert {A} (f : A -> Z) l i x y :
  l !! i = Some x -> sumf f (<[i := y]> l) = sumf f l - f x + f y.
Proof.
  revert i. induction l as [|z l IH]; intros [|i] H; simplify_eq/=; [lia|].
  rewrite (IH i) by done. lia.
Qed.

Lemma sumf_aset (f : Z -> Z) l i v :
  0 <= i < alen l -> sumf f (aset l i v) = sumf f l - f (aget l i) + f v.
Proof.
  unfold alen, aget, aset. intros Hi.
  destruct (lookup_lt_is_Some_2 l (Z.to_nat i)) as [x Hx]; [lia|].
  rewrite Hx. by apply sumf_insert.
Qed.

Lemma sumf_bounds {A} (f : A -> Z) l lo hi :
  (forall x, x ∈ l -> lo <= f x <= hi) -> lo * alen l <= sumf f l <= hi * alen l.
Proof.
  unfold alen. induction l as [|x l IH]; intros H; simpl; [lia|].
  pose proof (H x ltac:(left)). destruct IH; [intros; apply H; by right|]. lia.
Qed.

(** ** Bits: packing fields that do not overlap *)

Lemma lor_shiftl_add a b n :
  0 <= n -> 0 <= a < 2 ^ n -> Z.lor a (Z.shiftl b n) = a + 2 ^ n * b.
Proof.
  intros Hn Ha. rewrite (Z.mul_comm (2 ^ n)), <- Z.shiftl_mul_pow2 by done.
  assert (Z.land a (Z.shiftl b n) = 0) as L.
  { apply Z.bits_inj'. intros i Hi. rewrite Z.land_spec, Z.bits_0.
    destruct (Z.lt_ge_cases i n).
    - rewrite Z.shiftl_spec_low by done. by rewrite andb_false_r.
    - destruct (Z.eq_dec a 0) as [->|]; [by rewrite Z.bits_0|].
      rewrite (Z.bits_above_log2 a) by (try apply Z.lt_le_trans with n; try apply Z.log2_lt_pow2; lia).
      done. }
  rewrite <- Z.lxor_lor by done. by rewrite Z.add_nocarry_lxor by done.
Qed.

Lemma land_ones_mod z n : 0 <= n -> Z.land z (2 ^ n - 1) = z mod 2 ^ n.
Proof. intros. rewrite Z.sub_1_r, <- Z.ones_equiv. by apply Z.land_ones. Qed.

(** ** Modular sums

    Machine sums wrap; as they do so at every step or once at the end to the
    same effect, an invariant may state a counter as the wrap of an exact sum. *)

Lemma wraps_eqm w a b : 0 < w -> wraps w a = wraps w b <-> a mod 2 ^ w = b mod 2 ^ w.
Proof.
  intros Hw. unfold wraps. assert (0 < 2 ^ w) by (apply Z.pow_pos_nonneg; lia).
  split; intros E.
  - assert (((a + 2 ^ (w - 1)) mod 2 ^ w - 2 ^ (w - 1)) mod 2 ^ w =
            ((b + 2 ^ (w - 1)) mod 2 ^ w - 2 ^ (w - 1)) mod 2 ^ w) as E' by congruence.
    rewrite !Zminus_mod_idemp_l in E'.
    replace (a + 2 ^ (w - 1) - 2 ^ (w - 1)) with a in E' by lia.
    by replace (b + 2 ^ (w - 1) - 2 ^ (w - 1)) with b in E' by lia.
  - by rewrite (Zplus_mod a), E, <- Zplus_mod.
Qed.

Lemma wraps_mod w a : 0 < w -> wraps w a mod 2 ^ w = a mod 2 ^ w.
Proof.
  intros Hw. unfold wraps. rewrite Zminus_mod_idemp_l. f_equal. lia.
Qed.

Lemma wraps_add_l w a b : 0 < w -> wraps w (wraps w a + b) = wraps w (a + b).
Proof. intros Hw. apply wraps_eqm; [done|]. by rewrite Zplus_mod, wraps_mod, <- Zplus_mod by done. Qed.
Lemma wraps_add_r w a b : 0 < w -> wraps w (a + wraps w b) = wraps w (a + b).
Proof. intros Hw. rewrite (Z.add_comm a), wraps_add_l by done. f_equal. lia. Qed.
Lemma wraps_sub_l w a b : 0 < w -> wraps w (wraps w a - b) = wraps w (a - b).
Proof. intros Hw. by apply (wraps_add_l w a (- b)). Qed.
Lemma wraps_opp w a : 0 < w -> wraps w (- wraps w a) = wraps w (- a).
Proof.
  intros Hw. apply wraps_eqm; [done|]. rewrite <- !(Z.sub_0_l).
  by rewrite Zminus_mod, wraps_mod, <- Zminus_mod by done.
Qed.
Lemma wraps_sub_r w a b : 0 < w -> wraps w (a - wraps w b) = wraps w (a - b).
Proof.
  intros Hw. unfold Z.sub. rewrite <- (wraps_add_r w a (- wraps w b)), wraps_opp by done.
  by apply wraps_add_r.
Qed.
Lemma wraps_wraps w a : 0 < w -> wraps w (wraps w a) = wraps w a.
Proof. intros Hw. apply wraps_eqm; [done|]. by apply wraps_mod. Qed.
Lemma wrapu_add_l w a b : wrapu w (wrapu w a + b) = wrapu w (a + b).
Proof. unfold wrapu. apply Zplus_mod_idemp_l. Qed.
Lemma wrapu_add_r w a b : wrapu w (a + wrapu w b) = wrapu w (a + b).
Proof. unfold wrapu. apply Zplus_mod_idemp_r. Qed.

Lemma wraps_add_add w a b c : 0 < w -> wraps w (wraps w a + b + c) = wraps w (a + b + c).
Proof. intros Hw. by rewrite <- !Z.add_assoc, wraps_add_l by done. Qed.
Lemma wraps_sub_add w a b c : 0 < w -> wraps w (wraps w a - b + c) = wraps w (a - b + c).
Proof. intros Hw. by apply (wraps_add_add w a (- b) c). Qed.
Lemma wraps_add_sub w a b c : 0 < w -> wraps w (wraps w a + b - c) = wraps w (a + b - c).
Proof. intros Hw. by apply (wraps_add_add w a b (- c)). Qed.

Lemma wraps_mul_r w a b : 0 < w -> wraps w (a * wraps w b) = wraps w (a * b).
Proof. intros Hw. apply wraps_eqm; [done|]. by rewrite Zmult_mod, wraps_mod, <- Zmult_mod by done. Qed.
Lemma wraps_mul_u w a b : 0 < w -> wraps w (a * wrapu w b) = wraps w (a * b).
Proof. intros Hw. apply wraps_eqm; [done|]. unfold wrapu. apply Zmult_mod_idemp_r. Qed.

(** Normalises a 32- or 64-bit expression to one wrap around an exact one. *)
Ltac wrap_norm :=
  repeat first [ rewrite wraps_add_l by lia | rewrite wraps_add_r by lia
               | rewrite wraps_sub_l by lia | rewrite wraps_sub_r by lia
               | rewrite wraps_opp by lia | rewrite wraps_wraps by lia
               | rewrite wraps_add_add by lia | rewrite wraps_sub_add by lia
               | rewrite wraps_add_sub by lia | rewrite wrapu_add_l | rewrite wrapu_add_r ].

(** ** Sums over a map

    [msum f m] adds [f k v] over the entries of [m]; the lemmas say how one
    write changes it, and that the order of iteration does not matter. *)
Definition msum {K} {eqK : EqDecision K} {cK : Countable K} {V} (f : K -> V -> Z) (m : gmap K V) : Z := map_fold (fun k v acc => f k v + acc) 0 m.

Lemma msum_empty {K} {eqK : EqDecision K} {cK : Countable K} {V} (f : K -> V -> Z) : msum f (∅ : gmap K V) = 0.
Proof. done. Qed.
Lemma msum_insert_new {K} {eqK : EqDecision K} {cK : Countable K} {V} (f : K -> V -> Z) (m : gmap K V) i x :
  m !! i = None -> msum f (<[i := x]> m) = f i x + msum f m.
Proof. intros H. unfold msum. rewrite (map_fold_insert_L _ _ i x m) by (done || intros; lia). done. Qed.
Lemma msum_delete {K} {eqK : EqDecision K} {cK : Countable K} {V} (f : K -> V -> Z) (m : gmap K V) i x :
  m !! i = Some x -> msum f (delete i m) = msum f m - f i x.
Proof.
  intros H. unfold msum. rewrite (map_fold_delete_L _ _ i x m) by (done || intros; lia). lia.
Qed.
Lemma msum_insert {K} {eqK : EqDecision K} {cK : Countable K} {V} (f : K -> V -> Z) (m : gmap K V) i x y :
  m !! i = Some x -> msum f (<[i := y]> m) = msum f m - f i x + f i y.
Proof.
  intros H. rewrite <- insert_delete_eq, msum_insert_new by apply lookup_delete_eq.
  rewrite (msum_delete f m i x) by done. lia.
Qed.
Lemma sumf_perm {A} (f : A -> Z) l l' : l ≡ₚ l' -> sumf f l = sumf f l'.
Proof. induction 1; simpl; lia. Qed.
Lemma msum_list {K} {eqK : EqDecision K} {cK : Countable K} {V} (f : K -> V -> Z) (m : gmap K V) :
  msum f m = sumf (fun kv => f kv.1 kv.2) (map_to_list m).
Proof.
  induction m as [|i x m Hi IH] using map_ind.
  - by rewrite map_to_list_empty.
  - rewrite msum_insert_new, IH by done.
    assert (P : map_to_list (<[i := x]> m) ≡ₚ (i, x) :: map_to_list m) by by apply map_to_list_insert.
    by rewrite (sumf_perm _ _ _ P).
Qed.
Lemma sumf_fmap {A B} (f : B -> Z) (g : A -> B) l : sumf f (g <$> l) = sumf (fun x => f (g x)) l.
Proof. induction l as [|x l IH]; simpl; [done|]. f_equal. exact IH. Qed.
Lemma sumf_ext {A} (f g : A -> Z) l : (forall x, x ∈ l -> f x = g x) -> sumf f l = sumf g l.
Proof.
  induction l as [|x l IH]; intros H; simpl; [done|].
  rewrite (H x) by left. f_equal. apply IH. intros y Hy. apply H. by right.
Qed.
Lemma msum_ext {K} {eqK : EqDecision K} {cK : Countable K} {V} (f g : K -> V -> Z) (m : gmap K V) :
  (forall i x, m !! i = Some x -> f i x = g i x) -> msum f m = msum g m.
Proof.
  intros H. rewrite !msum_list. apply sumf_ext. intros [i x] Hx. apply H.
  by apply elem_of_map_to_list.
Qed.
Lemma msum_zero {K} {eqK : EqDecision K} {cK : Countable K} {V} (f : K -> V -> Z) (m : gmap K V) :
  (forall i x, m !! i = Some x -> f i x = 0) -> msum f m = 0.
Proof.
  intros H. rewrite (msum_ext f (fun _ _ => 0)) by done. rewrite msum_list.
  induction (map_to_list m); simpl; lia.
Qed.

Lemma sumf_nonneg {A} (f : A -> Z) l : (forall x, x ∈ l -> 0 <= f x) -> 0 <= sumf f l.
Proof.
  intros H. induction l as [|x l IH]; [done|]. rewrite sumf_cons.
  assert (0 <= f x) by (apply H; constructor). assert (0 <= sumf f l); [|lia].
  apply IH. intros y Hy. apply H. by constructor.
Qed.
Lemma sumf_nonneg_zero {A} (f : A -> Z) l :
  (forall x, x ∈ l -> 0 <= f x) -> sumf f l <= 0 -> forall x, x ∈ l -> f x = 0.
Proof.
  induction l as [|y l IH]; intros Hf Hs x Hx; [by apply elem_of_nil in Hx|]. rewrite sumf_cons in Hs.
  assert (forall z, z ∈ l -> 0 <= f z) as Hl by (intros; apply Hf; by constructor).
  pose proof (Hf y (list_elem_of_here _ _)). pose proof (sumf_nonneg f l Hl).
  apply elem_of_cons in Hx as [->|Hx]; [lia|]. apply IH; [done|lia|done].
Qed.
Lemma sumf_le {A} (f g : A -> Z) l : (forall x, x ∈ l -> f x <= g x) -> sumf f l <= sumf g l.
Proof.
  induction l as [|x l IH]; intros H; simpl; [done|]. pose proof (H x ltac:(left)).
  destruct (Z.le_gt_cases (sumf f l) (sumf g l)) as [|G]; [lia|].
  assert (sumf f l <= sumf g l) by (apply IH; intros; apply H; by right). lia.
Qed.
Lemma msum_le {K} {eqK : EqDecision K} {cK : Countable K} {V} (f g : K -> V -> Z) (m : gmap K V) :
  (forall i x, m !! i = Some x -> f i x <= g i x) -> msum f m <= msum g m.
Proof.
  intros H. rewrite !msum_list. apply sumf_le. intros [i x] Hx. apply H. by apply elem_of_map_to_list.
Qed.
Lemma msum_nonneg {K} {eqK : EqDecision K} {cK : Countable K} {V} (f : K -> V -> Z) (m : gmap K V) : (forall i x, m !! i = Some x -> 0 <= f i x) -> 0 <= msum f m.
Proof. intros H. rewrite <- (msum_zero (fun _ _ => 0) m) by done. by apply msum_le. Qed.
(** One entry is at most the sum when no entry is negative. *)
Lemma msum_entry {K} {eqK : EqDecision K} {cK : Countable K} {V} (f : K -> V -> Z) (m : gmap K V) i x :
  (forall i x, m !! i = Some x -> 0 <= f i x) -> m !! i = Some x -> f i x <= msum f m.
Proof.
  intros H Hi. assert (0 <= msum f (delete i m)) as N.
  { apply msum_nonneg. intros j y [_ Hy]%lookup_delete_Some. by apply (H j). }
  rewrite (msum_delete f m i x Hi) in N. lia.
Qed.

Lemma alter_insert_lookup {K} {eqK : EqDecision K} {cK : Countable K} {V} (f : V -> V) (m : gmap K V) i x :
  m !! i = Some x -> alter f i m = <[i := f x]> m.
Proof.
  intros H. apply map_eq. intros j. destruct (decide (j = i)) as [->|N].
  - by rewrite lookup_alter_eq, lookup_insert_eq, H.
  - by rewrite lookup_alter_ne, lookup_insert_ne by done.
Qed.

(** Sums over duplicate-free key lists: changing one point. *)
Lemma sumf_update (f g : Z -> Z) ks i :
  NoDup ks -> (forall k, k <> i -> g k = f k) ->
  sumf g ks = sumf f ks + (if decide (i ∈ ks) then g i - f i else 0).
Proof.
  intros Hn H. induction Hn as [|k ks Hk Hn IH]; [by destruct (decide _) as [?%elem_of_nil|]|].
  rewrite !sumf_cons, IH. destruct (decide (k = i)) as [->|N].
  - destruct (decide (i ∈ ks)); [done|]. rewrite decide_True by by left. lia.
  - rewrite H by done. destruct (decide (i ∈ ks)).
    + rewrite decide_True by by right. lia.
    + rewrite decide_False; [lia|]. intros [?|?]%elem_of_cons; congruence.
Qed.

Lemma sumf_zero {A} (f : A -> Z) l : (forall x, x ∈ l -> f x = 0) -> sumf f l = 0.
Proof. intros H. rewrite (sumf_ext f (fun _ => 0)) by done. induction l; simpl; [done|]. apply IHl. intros. apply H. by right. Qed.

(** A sum over the entries of a map, from any list that covers its support. *)
Lemma sumf_lookup {V} (f : V -> Z) (m : gmap Z V) : forall ks,
  NoDup ks -> (forall k v, k ∉ ks -> m !! k = Some v -> f v = 0) ->
  sumf (fun k => match m !! k with Some v => f v | None => 0 end) ks = msum (fun _ => f) m.
Proof.
  induction m as [|i x m Hi IH] using map_ind; intros ks Hn Hc.
  - rewrite msum_empty. apply sumf_zero. intros k _. by rewrite lookup_empty.
  - rewrite msum_insert_new by done.
    rewrite (sumf_update (fun k => match m !! k with Some v => f v | None => 0 end) _ ks i Hn)
      by (intros k N; by rewrite lookup_insert_ne by done).
    rewrite lookup_insert_eq, Hi, IH; [|done|].
    + destruct (decide (i ∈ ks)) as [|No]; [lia|]. rewrite (Hc i x No) by apply lookup_insert_eq. lia.
    + intros k v Hk Hv. apply (Hc k v Hk). rewrite lookup_insert_ne by congruence. done.
Qed.
