(* ===== verification/FlatBook.v ===== *)
(** * FlatBook: the flat-array order book

    [orderbook/orderbook_flat.hpp]: quantities per price level in two arrays,
    one occupancy bit per level in 64-bit words, two cursors, and an optional
    table of orders by id.  [NWORDS] is the template's [WORDS]; [LEVELS] is
    [64 * NWORDS].

    The first part translates the class.  The second proves the word scans
    correct, the third the representation invariant and what every operation
    does to the two sides, and the last the refinement of an abstract book
    that knows only quantities per price. *)
From S2P Require Import Prelude.

(** ** Compiler builtins on 64-bit words

    [__builtin_clzll] and [__builtin_ctzll], which are defined on non-zero
    arguments only. *)
Definition clzll (w : Z) : Z := 63 - Z.log2 w.
Fixpoint ctz_pos (p : positive) : Z :=
  match p with xO q => 1 + ctz_pos q | _ => 0 end.
Definition ctzll (w : Z) : Z := match w with Zpos p => ctz_pos p | _ => 0 end.
(** [~0ULL] and [~x] at 64 bits. *)
Definition ones64 : Z := Z.ones 64.
Definition not64 (x : Z) : Z := Z.lxor x ones64.

Section flat_book.
Context (NWORDS : nat).

Definition LEVELS : Z := 64 * Z.of_nat NWORDS.
Definition NO_BID : Z := -1.
Definition NO_ASK : Z := LEVELS.

Record OrderRef := mkOrderRef { ref_price : Z; ref_qty : Z; ref_is_buy : bool }.

Record FlatOrderBook := mkFlat {
  bid_qty_ : list Z;
  ask_qty_ : list Z;
  bid_bits_ : list Z;
  ask_bits_ : list Z;
  best_bid_ : Z;
  best_ask_ : Z;
  trades_ : Z;
  orders_by_id_ : gmap Z OrderRef
}.
#[local] Instance eta_flat : Settable FlatOrderBook := fun b =>
  mkFlat (bid_qty_ b) (ask_qty_ b) (bid_bits_ b) (ask_bits_ b)
         (best_bid_ b) (best_ask_ b) (trades_ b) (orders_by_id_ b).

Definition empty_book : FlatOrderBook :=
  mkFlat (replicate (64 * NWORDS) 0) (replicate (64 * NWORDS) 0)
         (replicate NWORDS 0) (replicate NWORDS 0) NO_BID NO_ASK 0 ∅.

(** *** Occupancy-bitmap primitives *)

Definition set_bit (bits : list Z) (p : Z) : list Z :=
  aset bits (Z.shiftr p 6)
    (Z.lor (aget bits (Z.shiftr p 6)) (Z.shiftl 1 (Z.land p 63))).

Definition clear_bit (bits : list Z) (p : Z) : list Z :=
  aset bits (Z.shiftr p 6)
    (Z.land (aget bits (Z.shiftr p 6)) (not64 (Z.shiftl 1 (Z.land p 63)))).

Fixpoint scan_down_loop (bits : list Z) (w : nat) (word : Z) : Z :=
  if word =? 0 then
    match w with
    | O => NO_BID
    | S w' => scan_down_loop bits w' (aget bits (Z.of_nat w'))
    end
  else Z.shiftl (Z.of_nat w) 6 + (63 - clzll word).

Definition scan_down (bits : list Z) (from : Z) : Z :=
  if from <? 0 then NO_BID else
  let w := Z.shiftr from 6 in
  let word := Z.land (aget bits w) (Z.shiftr ones64 (63 - Z.land from 63)) in
  scan_down_loop bits (Z.to_nat w) word.

(** The upward loop runs [w] up to [WORDS]; [left] counts the words after
    [w], so the loop ends exactly where the code's [++w == WORDS] test does. *)
Fixpoint scan_up_loop (bits : list Z) (left : nat) (w : Z) (word : Z) : Z :=
  if word =? 0 then
    match left with
    | O => NO_ASK
    | S left' => scan_up_loop bits left' (w + 1) (aget bits (w + 1))
    end
  else Z.shiftl w 6 + ctzll word.

Definition scan_up (bits : list Z) (from : Z) : Z :=
  if LEVELS <=? from then NO_ASK else
  let w := Z.shiftr from 6 in
  let word := Z.land (aget bits w) (Z.land (Z.shiftl ones64 (Z.land from 63)) ones64) in
  scan_up_loop bits (NWORDS - 1 - Z.to_nat w) w word.

(** *** Matching *)

Definition match_once (b : FlatOrderBook) : FlatOrderBook :=
  let fill := Z.min (aget (bid_qty_ b) (best_bid_ b)) (aget (ask_qty_ b) (best_ask_ b)) in
  let b := b <| bid_qty_ ::= fun l => aset l (best_bid_ b) (aget l (best_bid_ b) - fill) |>
             <| ask_qty_ ::= fun l => aset l (best_ask_ b) (aget l (best_ask_ b) - fill) |>
             <| trades_ ::= fun t => u64 (t + 1) |> in
  let b := if aget (bid_qty_ b) (best_bid_ b) =? 0 then
             let bits := clear_bit (bid_bits_ b) (best_bid_ b) in
             b <| bid_bits_ := bits |> <| best_bid_ := scan_down bits (best_bid_ b) |>
           else b in
  if aget (ask_qty_ b) (best_ask_ b) =? 0 then
    let bits := clear_bit (ask_bits_ b) (best_ask_ b) in
    b <| ask_bits_ := bits |> <| best_ask_ := scan_up bits (best_ask_ b) |>
  else b.

Definition crossed (b : FlatOrderBook) : bool :=
  negb (best_bid_ b =? NO_BID) && negb (best_ask_ b =? NO_ASK)
  && (best_ask_ b <=? best_bid_ b).

Fixpoint try_match_fuel (n : nat) (b : FlatOrderBook) : FlatOrderBook :=
  match n with
  | O => b
  | S n' => if crossed b then try_match_fuel n' (match_once b) else b
  end.

(** Every iteration empties a level, and there are [2 * LEVELS] levels. *)
Definition try_match (b : FlatOrderBook) : FlatOrderBook :=
  try_match_fuel (2 * (64 * NWORDS)) b.

(** *** Public operations *)

Definition bad_input (price qty : Z) : bool :=
  (price <? 0) || (LEVELS <=? price) || (qty <=? 0).

Definition put_bid (b : FlatOrderBook) (price qty : Z) : FlatOrderBook :=
  let bits := if aget (bid_qty_ b) price =? 0 then set_bit (bid_bits_ b) price
              else bid_bits_ b in
  b <| bid_bits_ := bits |>
    <| bid_qty_ ::= fun l => aset l price (i32 (aget l price + qty)) |>
    <| best_bid_ := if best_bid_ b <? price then price else best_bid_ b |>.

Definition put_ask (b : FlatOrderBook) (price qty : Z) : FlatOrderBook :=
  let bits := if aget (ask_qty_ b) price =? 0 then set_bit (ask_bits_ b) price
              else ask_bits_ b in
  b <| ask_bits_ := bits |>
    <| ask_qty_ ::= fun l => aset l price (i32 (aget l price + qty)) |>
    <| best_ask_ := if price <? best_ask_ b then price else best_ask_ b |>.

Definition add_buy (b : FlatOrderBook) (price qty : Z) : FlatOrderBook * bool :=
  if bad_input price qty then (b, false)
  else (try_match (put_bid b price qty), true).

Definition add_sell (b : FlatOrderBook) (price qty : Z) : FlatOrderBook * bool :=
  if bad_input price qty then (b, false)
  else (try_match (put_ask b price qty), true).

Definition submit_with_id (b : FlatOrderBook) (id price qty : Z) (is_buy : bool)
  : FlatOrderBook * bool :=
  if bad_input price qty then (b, false) else
  match orders_by_id_ b !! id with
  | Some _ => (b, false)
  | None =>
      let b := b <| orders_by_id_ ::= <[id := mkOrderRef price qty is_buy]> |> in
      (try_match (if is_buy then put_bid b price qty else put_ask b price qty), true)
  end.

Definition cancel (b : FlatOrderBook) (id : Z) : FlatOrderBook * bool :=
  match orders_by_id_ b !! id with
  | None => (b, false)
  | Some ref =>
      let b := b <| orders_by_id_ ::= delete id |> in
      let p := ref_price ref in
      if ref_is_buy ref then
        let drop := Z.min (ref_qty ref) (aget (bid_qty_ b) p) in
        let q := aget (bid_qty_ b) p - drop in
        let bits := if q =? 0 then clear_bit (bid_bits_ b) p else bid_bits_ b in
        (b <| bid_qty_ ::= fun l => aset l p q |> <| bid_bits_ := bits |>
           <| best_bid_ := scan_down bits (best_bid_ b) |>, true)
      else
        let drop := Z.min (ref_qty ref) (aget (ask_qty_ b) p) in
        let q := aget (ask_qty_ b) p - drop in
        let bits := if q =? 0 then clear_bit (ask_bits_ b) p else ask_bits_ b in
        (b <| ask_qty_ ::= fun l => aset l p q |> <| ask_bits_ := bits |>
           <| best_ask_ := scan_up bits (best_ask_ b) |>, true)
  end.

Definition modify (b : FlatOrderBook) (id new_price new_qty : Z) : FlatOrderBook * bool :=
  match orders_by_id_ b !! id with
  | None => (b, false)
  | Some ref => submit_with_id (cancel b id).1 id new_price new_qty (ref_is_buy ref)
  end.

Definition empty (b : FlatOrderBook) : bool :=
  (best_bid_ b =? NO_BID) && (best_ask_ b =? NO_ASK).
Definition out_of_grid (p : Z) : bool := (p <? 0) || (LEVELS <=? p).
Definition bid_qty_at (b : FlatOrderBook) (p : Z) : Z :=
  if out_of_grid p then 0 else aget (bid_qty_ b) p.
Definition ask_qty_at (b : FlatOrderBook) (p : Z) : Z :=
  if out_of_grid p then 0 else aget (ask_qty_ b) p.
Definition tracked_orders (b : FlatOrderBook) : Z := Z.of_nat (size (orders_by_id_ b)).
End flat_book.

(** ** The occupancy scans *)

(** The bit of level [p]. *)
Definition occ (bits : list Z) (p : Z) : bool := Z.testbit (aget bits (p / 64)) (p mod 64).
Definition words_ok (n : nat) (bits : list Z) : Prop :=
  alen bits = Z.of_nat n /\ Forall (fun w => 0 <= w < 2 ^ 64) bits.

Lemma shiftr6 p : Z.shiftr p 6 = p / 64.
Proof. by rewrite Z.shiftr_div_pow2 by lia. Qed.
Lemma land63 p : Z.land p 63 = p mod 64.
Proof. change 63 with (Z.ones 6). by rewrite Z.land_ones by lia. Qed.
Lemma shiftl6 p : Z.shiftl p 6 = p * 64.
Proof. by rewrite Z.shiftl_mul_pow2 by lia. Qed.
Create Rewrite HintDb flat.
#[local] Hint Rewrite shiftr6 land63 shiftl6 : flat.

Lemma level_word p n : 0 <= p < 64 * Z.of_nat n -> 0 <= p / 64 < Z.of_nat n /\ 0 <= p mod 64 < 64.
Proof.
  intros. pose proof (Z.mod_pos_bound p 64). split; [|lia].
  split; [apply Z.div_pos; lia | apply Z.div_lt_upper_bound; lia].
Qed.

Lemma level_eq p q : p / 64 = q / 64 -> p mod 64 = q mod 64 -> p = q.
Proof. intros E1 E2. rewrite (Z.div_mod p 64), (Z.div_mod q 64) by lia. lia. Qed.

Lemma testbit_pow2 k i : 0 <= k -> 0 <= i -> Z.testbit (Z.shiftl 1 k) i = (k =? i).
Proof. intros. rewrite Z.shiftl_1_l. by apply Z.pow2_bits_eqb. Qed.

Lemma word_range_of_bits w :
  0 <= w -> (forall i, 64 <= i -> Z.testbit w i = false) -> 0 <= w < 2 ^ 64.
Proof.
  intros H0 H. split; [done|].
  destruct (Z.eq_dec w 0) as [->|N]; [lia|].
  apply Z.log2_lt_pow2; [lia|].
  destruct (Z_lt_le_dec (Z.log2 w) 64) as [|G]; [done|].
  specialize (H _ G). rewrite Z.bit_log2 in H; [done|lia].
Qed.

Lemma word_high_bits w i : 0 <= w < 2 ^ 64 -> 64 <= i -> Z.testbit w i = false.
Proof.
  intros Hw Hi. destruct (Z.eq_dec w 0) as [->|N]; [apply Z.bits_0|].
  apply Z.bits_above_log2; [lia|].
  assert (Z.log2 w < 64) by (apply Z.log2_lt_pow2; lia). lia.
Qed.

Section flat_bits.
Context (n : nat) (bits : list Z) (Hok : words_ok n bits).

Lemma word_ok w : 0 <= w < Z.of_nat n -> 0 <= aget bits w < 2 ^ 64.
Proof. destruct Hok as [Hl HF]. intros. by apply (aget_Forall (fun w => 0 <= w < 2 ^ 64)); [lia|]. Qed.

Lemma occ_set_bit p q :
  0 <= p < 64 * Z.of_nat n -> 0 <= q < 64 * Z.of_nat n ->
  occ (set_bit bits p) q = (p =? q) || occ bits q.
Proof.
  intros Hp Hq. destruct Hok as [Hl _].
  destruct (level_word p n Hp), (level_word q n Hq).
  unfold occ, set_bit. autorewrite with flat.
  rewrite aget_aset by lia. destruct (Z.eqb_spec (q / 64) (p / 64)) as [E|N].
  - rewrite Z.lor_spec, testbit_pow2, E by lia.
    destruct (Z.eqb_spec (p mod 64) (q mod 64)), (Z.eqb_spec p q); subst; rewrite ?orb_true_r, ?orb_false_r; try done.
    exfalso. eauto using level_eq.
  - destruct (Z.eqb_spec p q); [congruence|done].
Qed.

Lemma occ_clear_bit p q :
  0 <= p < 64 * Z.of_nat n -> 0 <= q < 64 * Z.of_nat n ->
  occ (clear_bit bits p) q = negb (p =? q) && occ bits q.
Proof.
  intros Hp Hq. destruct Hok as [Hl _].
  destruct (level_word p n Hp), (level_word q n Hq).
  unfold occ, clear_bit. autorewrite with flat.
  rewrite aget_aset by lia. destruct (Z.eqb_spec (q / 64) (p / 64)) as [E|N].
  - unfold not64, ones64. rewrite Z.land_spec, Z.lxor_spec, testbit_pow2, E by lia.
    rewrite Z.ones_spec_low by lia.
    destruct (Z.eqb_spec (p mod 64) (q mod 64)), (Z.eqb_spec p q); subst;
      rewrite ?andb_true_r, ?andb_false_r; try done.
    exfalso. eauto using level_eq.
  - destruct (Z.eqb_spec p q); [congruence|done].
Qed.

Lemma set_bit_ok p : 0 <= p < 64 * Z.of_nat n -> words_ok n (set_bit bits p).
Proof.
  intros Hp. destruct (level_word p n Hp). destruct Hok as [Hl HF].
  unfold set_bit, words_ok. autorewrite with flat hft. split; [done|].
  apply Forall_insert; [done|]. pose proof (word_ok (p / 64)).
  apply word_range_of_bits.
  - apply Z.lor_nonneg. split; [lia|]. rewrite Z.shiftl_1_l. apply Z.pow_nonneg. lia.
  - intros i Hi. rewrite Z.lor_spec, testbit_pow2, word_high_bits by lia. simpl. lia.
Qed.

Lemma clear_bit_ok p : 0 <= p < 64 * Z.of_nat n -> words_ok n (clear_bit bits p).
Proof.
  intros Hp. destruct (level_word p n Hp). destruct Hok as [Hl HF].
  unfold clear_bit, words_ok. autorewrite with flat hft. split; [done|].
  apply Forall_insert; [done|]. pose proof (word_ok (p / 64)).
  apply word_range_of_bits.
  - apply Z.land_nonneg. left. lia.
  - intros i Hi. by rewrite Z.land_spec, word_high_bits by lia.
Qed.

(** The bit of level [p] when the word of index [w] has been masked to
    [word]: what the loops look at. *)
Definition seen (w word p : Z) : bool :=
  Z.testbit (if p / 64 =? w then word else aget bits (p / 64)) (p mod 64).

Lemma seen_word w word i : 0 <= i < 64 -> seen w word (w * 64 + i) = Z.testbit word i.
Proof.
  intros Hi. unfold seen.
  rewrite Z.div_add_l, Z.div_small, Z.add_0_r, Z.eqb_refl by lia.
  by rewrite Z.add_comm, Z_mod_plus_full, Z.mod_small by lia.
Qed.

Lemma in_word w p : w * 64 <= p < (w + 1) * 64 -> p / 64 = w.
Proof. intros. symmetry. apply (Z.div_unique p 64 w (p - w * 64)); lia. Qed.

Lemma seen_in_word w word p : w * 64 <= p < (w + 1) * 64 -> seen w word p = Z.testbit word (p - w * 64).
Proof. intros H. rewrite <- (seen_word w) by lia. f_equal. lia. Qed.

Lemma seen_other w word p : p / 64 <> w -> seen w word p = occ bits p.
Proof. intros. unfold seen, occ. by destruct (Z.eqb_spec (p / 64) w). Qed.

Lemma seen_next w w' word p :
  p / 64 <> w -> seen w' (aget bits w') p = seen w word p.
Proof.
  intros N. rewrite (seen_other w) by done. unfold seen, occ.
  by destruct (Z.eqb_spec (p / 64) w') as [<-|].
Qed.

Lemma log2_word word : 0 < word < 2 ^ 64 -> 0 <= Z.log2 word < 64.
Proof. intros. split; [apply Z.log2_nonneg|]. apply Z.log2_lt_pow2; lia. Qed.

Lemma scan_down_loop_spec w word :
  Z.of_nat w < Z.of_nat n -> 0 <= word < 2 ^ 64 ->
  let r := scan_down_loop bits w word in
  (r = NO_BID /\ forall p, 0 <= p < (Z.of_nat w + 1) * 64 -> seen (Z.of_nat w) word p = false) \/
  (0 <= r < (Z.of_nat w + 1) * 64 /\ seen (Z.of_nat w) word r = true /\
   forall p, r < p < (Z.of_nat w + 1) * 64 -> seen (Z.of_nat w) word p = false).
Proof.
  revert word. induction w as [|w IH]; intros word Hw Hword; cbn [scan_down_loop].
  all: destruct (Z.eqb_spec word 0) as [->|N].
  - left. split; [done|]. intros p Hp. rewrite seen_in_word by lia. apply Z.bits_0.
  - right. unfold clzll. rewrite shiftl6. pose proof (log2_word word).
    repeat split; [lia|lia| |].
    + rewrite seen_in_word by lia. replace (_ - _) with (Z.log2 word) by lia. apply Z.bit_log2. lia.
    + intros p Hp. rewrite seen_in_word by lia. apply Z.bits_above_log2; lia.
  - destruct (IH (aget bits (Z.of_nat w))) as [[-> H]|[Hr [Hs H]]]; [lia|apply word_ok; lia| |].
    + left. split; [done|]. intros p Hp.
      destruct (Z_lt_le_dec p ((Z.of_nat w + 1) * 64)).
      * rewrite <- (seen_next _ (Z.of_nat w)); [apply H; lia|].
        pose proof (Z.div_lt_upper_bound p 64 (Z.of_nat w + 1)). lia.
      * rewrite seen_in_word by lia. apply Z.bits_0.
    + right. set (r := scan_down_loop _ _ _) in *. repeat split; [lia|lia| |].
      * rewrite <- (seen_next _ (Z.of_nat w)); [done|].
        pose proof (Z.div_lt_upper_bound r 64 (Z.of_nat w + 1)). lia.
      * intros p Hp. destruct (Z_lt_le_dec p ((Z.of_nat w + 1) * 64)).
        -- rewrite <- (seen_next _ (Z.of_nat w)); [apply H; lia|].
           pose proof (Z.div_lt_upper_bound p 64 (Z.of_nat w + 1)). lia.
        -- rewrite seen_in_word by lia. apply Z.bits_0.
  - right. unfold clzll. rewrite shiftl6. pose proof (log2_word word).
    repeat split; [lia|lia| |].
    + rewrite seen_in_word by lia. replace (_ - _) with (Z.log2 word) by lia. apply Z.bit_log2. lia.
    + intros p Hp. rewrite seen_in_word by lia. apply Z.bits_above_log2; lia.
Qed.

Lemma ctz_pos_spec q : 0 <= ctz_pos q /\ Z.testbit (Zpos q) (ctz_pos q) = true /\
  forall i, 0 <= i < ctz_pos q -> Z.testbit (Zpos q) i = false.
Proof.
  induction q as [q _|q IH|]; cbn [ctz_pos]; [repeat split; done || (intros; lia)| |repeat split; done || (intros; lia)].
  destruct IH as (H1 & H2 & H3). rewrite Pos2Z.inj_xO. repeat split; [lia| |].
  - rewrite Z.double_bits. by replace (Z.pred _) with (ctz_pos q) by lia.
  - intros i Hi. rewrite Z.double_bits.
    destruct (Z.eq_dec i 0) as [->|]; [done|]. apply H3. lia.
Qed.

Lemma ctzll_spec word : 0 < word < 2 ^ 64 ->
  0 <= ctzll word < 64 /\ Z.testbit word (ctzll word) = true /\
  forall i, 0 <= i < ctzll word -> Z.testbit word i = false.
Proof.
  intros H. destruct word as [|q|q]; [lia| |lia]. cbn [ctzll].
  destruct (ctz_pos_spec q) as (H1 & H2 & H3). repeat split; [lia| |done|done].
  destruct (Z_lt_le_dec (ctz_pos q) 64) as [|G]; [done|].
  rewrite word_high_bits in H2; [done|lia|lia].
Qed.

Lemma scan_up_loop_spec left w word :
  0 <= w -> w + Z.of_nat left + 1 = Z.of_nat n -> 0 <= word < 2 ^ 64 ->
  let r := scan_up_loop n bits left w word in
  (r = NO_ASK n /\ forall p, w * 64 <= p < LEVELS n -> seen w word p = false) \/
  (w * 64 <= r < LEVELS n /\ seen w word r = true /\
   forall p, w * 64 <= p < r -> seen w word p = false).
Proof.
  unfold NO_ASK, LEVELS. revert w word. induction left as [|left IH]; intros w word H0 Hw Hword;
    cbn [scan_up_loop].
  all: destruct (Z.eqb_spec word 0) as [->|N].
  1: { left. split; [done|]. intros p Hp. rewrite seen_in_word by lia. apply Z.bits_0. }
  2: { destruct (IH (w + 1) (aget bits (w + 1))) as [[-> H]|[Hr [Hs H]]]; [lia|lia|apply word_ok; lia| |].
    - left. split; [done|]. intros p Hp. destruct (Z_lt_le_dec p ((w + 1) * 64)).
      + rewrite seen_in_word by lia. apply Z.bits_0.
      + rewrite <- (seen_next _ (w + 1)); [apply H; lia|].
        pose proof (Z.div_le_lower_bound p 64 (w + 1)). lia.
    - right. set (r := scan_up_loop _ _ _ _ _) in *. repeat split; [lia|lia| |].
      + rewrite <- (seen_next _ (w + 1)); [done|].
        pose proof (Z.div_le_lower_bound r 64 (w + 1)). lia.
      + intros p Hp. destruct (Z_lt_le_dec p ((w + 1) * 64)).
        * rewrite seen_in_word by lia. apply Z.bits_0.
        * rewrite <- (seen_next _ (w + 1)); [apply H; lia|].
          pose proof (Z.div_le_lower_bound p 64 (w + 1)). lia. }
  all: right; rewrite shiftl6; destruct (ctzll_spec word) as (C1 & C2 & C3); [lia|].
  all: repeat split; [lia|lia| |].
  1, 3: rewrite seen_in_word by lia; by replace (_ - _) with (ctzll word) by lia.
  all: intros p Hp; rewrite seen_in_word by lia; apply C3; lia.
Qed.
End flat_bits.

Section flat_proofs.
Context (n : nat).
Implicit Types (bits qty : list Z) (b : FlatOrderBook).
#[local] Existing Instance eta_flat.

Definition in_grid (p : Z) : Prop := 0 <= p < LEVELS n.

Lemma scan_down_spec bits from :
  words_ok n bits -> from < LEVELS n ->
  let r := scan_down bits from in
  (r = NO_BID /\ forall p, 0 <= p <= from -> occ bits p = false) \/
  (0 <= r <= from /\ occ bits r = true /\ forall p, r < p <= from -> occ bits p = false).
Proof.
  unfold LEVELS. intros Hok Hf. cbv zeta. unfold scan_down.
  destruct (Z.ltb_spec from 0) as [L|L]; [left; split; [done|intros; lia]|].
  destruct (level_word from n) as [Hw Hm]; [lia|].
  rewrite shiftr6, land63. pose proof (Z.div_mod from 64 ltac:(lia)) as E.
  set (w := from / 64) in *. set (word := Z.land _ _).
  assert (S : forall p, 0 <= p < (w + 1) * 64 -> seen bits w word p = (p <=? from) && occ bits p).
  { intros p Hp. destruct (Z.eq_dec (p / 64) w) as [Ep|Np].
    - assert (w * 64 <= p) by (rewrite <- Ep; pose proof (Z.mul_div_le p 64); lia).
      rewrite seen_in_word by lia. unfold word, occ. rewrite Ep.
      replace (p mod 64) with (p - w * 64) by (rewrite Z.mod_eq by lia; lia).
      rewrite Z.land_spec, Z.shiftr_spec, andb_comm by lia. f_equal.
      destruct (Z.leb_spec p from); [apply Z.ones_spec_low|apply Z.ones_spec_high]; lia.
    - rewrite seen_other by done. replace (p <=? from) with true; [done|].
      symmetry. apply Z.leb_le. assert (p / 64 < w + 1) by (apply Z.div_lt_upper_bound; lia).
      pose proof (Z.div_mod p 64 ltac:(lia)). pose proof (Z.mod_pos_bound p 64). lia. }
  assert (0 <= word < 2 ^ 64) as Hword.
  { pose proof (word_ok n bits Hok w Hw). apply word_range_of_bits.
    - apply Z.land_nonneg. left. lia.
    - intros i Hi. unfold word. by rewrite Z.land_spec, word_high_bits by lia. }
  pose proof (scan_down_loop_spec n bits Hok (Z.to_nat w) word) as Spec.
  rewrite Z2Nat.id in Spec by lia.
  destruct Spec as [[-> H]|[Hr [Hs H]]]; [lia|lia| |].
  - left. split; [done|]. intros p Hp. specialize (H p ltac:(lia)).
    rewrite S in H by lia. replace (p <=? from) with true in H by lia. done.
  - right. rewrite S in Hs by lia. bsplit. repeat split; [lia|lia|done|].
    intros p Hp. specialize (H p ltac:(lia)). rewrite S in H by lia.
    replace (p <=? from) with true in H by lia. done.
Qed.

Lemma scan_up_spec bits from :
  words_ok n bits -> 0 <= from ->
  let r := scan_up n bits from in
  (r = NO_ASK n /\ forall p, from <= p < LEVELS n -> occ bits p = false) \/
  (from <= r < LEVELS n /\ occ bits r = true /\ forall p, from <= p < r -> occ bits p = false).
Proof.
  intros Hok Hf. cbv zeta. unfold scan_up.
  destruct (Z.leb_spec (LEVELS n) from) as [L|L]; [left; split; [done|intros; lia]|].
  unfold LEVELS in L. destruct (level_word from n) as [Hw Hm]; [lia|].
  rewrite shiftr6, land63. pose proof (Z.div_mod from 64 ltac:(lia)) as E.
  set (w := from / 64) in *. set (word := Z.land _ _).
  assert (S : forall p, w * 64 <= p < LEVELS n -> seen bits w word p = (from <=? p) && occ bits p).
  { unfold LEVELS. intros p Hp. pose proof (Z.div_mod p 64 ltac:(lia)). pose proof (Z.mod_pos_bound p 64).
    assert (w <= p / 64) by (apply Z.div_le_lower_bound; lia).
    destruct (Z.eq_dec (p / 64) w) as [Ep|Np].
    - rewrite seen_in_word by lia. unfold word, occ. rewrite Ep.
      replace (p mod 64) with (p - w * 64) by lia.
      rewrite !Z.land_spec, Z.shiftl_spec, andb_comm by lia. f_equal.
      unfold ones64. rewrite (Z.ones_spec_low 64 (p - w * 64)), andb_true_r by lia.
      destruct (Z.leb_spec from p); [apply Z.ones_spec_low; lia|apply Z.testbit_neg_r; lia].
    - rewrite seen_other by done. replace (from <=? p) with true; [done|]. lia. }
  assert (0 <= word < 2 ^ 64) as Hword.
  { pose proof (word_ok n bits Hok w Hw). apply word_range_of_bits.
    - apply Z.land_nonneg. left. lia.
    - intros i Hi. unfold word. by rewrite Z.land_spec, word_high_bits by lia. }
  pose proof (scan_up_loop_spec n bits Hok (n - 1 - Z.to_nat w) w word) as Spec.
  destruct Spec as [[-> H]|[Hr [Hs H]]]; [lia|lia|lia| |].
  - left. split; [done|]. intros p Hp. specialize (H p ltac:(lia)).
    rewrite S in H by lia. replace (from <=? p) with true in H by lia. done.
  - right. rewrite S in Hs by lia. bsplit. repeat split; [lia|lia|done|].
    intros p Hp. specialize (H p ltac:(lia)). rewrite S in H by lia.
    replace (from <=? p) with true in H by lia. done.
Qed.

(** ** The representation invariant *)

(** One side: quantities in range, and the bit of a level set exactly when
    its quantity is positive (the header's "bit p set iff qty > 0"). *)
Record side_ok (qty bits : list Z) : Prop := {
  side_len : alen qty = LEVELS n;
  side_words : words_ok n bits;
  side_range : forall p, in_grid p -> 0 <= aget qty p <= INT32_MAX;
  side_occ : forall p, in_grid p -> occ bits p = (0 <? aget qty p)
}.

(** The cursor is the best non-empty level, or the sentinel. *)
Definition best_bid_ok (qty : list Z) (best : Z) : Prop :=
  (best = NO_BID \/ in_grid best /\ 0 < aget qty best) /\
  forall p, in_grid p -> best < p -> aget qty p = 0.
Definition best_ask_ok (qty : list Z) (best : Z) : Prop :=
  (best = NO_ASK n \/ in_grid best /\ 0 < aget qty best) /\
  forall p, in_grid p -> p < best -> aget qty p = 0.

Record flat_inv (b : FlatOrderBook) : Prop := {
  inv_bid : side_ok (bid_qty_ b) (bid_bits_ b);
  inv_ask : side_ok (ask_qty_ b) (ask_bits_ b);
  inv_best_bid : best_bid_ok (bid_qty_ b) (best_bid_ b);
  inv_best_ask : best_ask_ok (ask_qty_ b) (best_ask_ b)
}.

#[local] Ltac flia := unfold in_grid, NO_ASK, NO_BID, LEVELS, INT32_MAX in *; lia.

Lemma side_put qty bits p v :
  side_ok qty bits -> in_grid p -> 0 < v -> aget qty p + v <= INT32_MAX ->
  side_ok (aset qty p (i32 (aget qty p + v)))
          (if aget qty p =? 0 then set_bit bits p else bits).
Proof.
  intros [Hl Hw Hr Ho] Hp Hv Hmax. unfold in_grid, LEVELS, INT32_MAX in *.
  pose proof (Hr p Hp). rewrite i32_small by lia.
  split.
  - by rewrite alen_aset.
  - destruct (_ =? 0); [by apply set_bit_ok|done].
  - intros q Hq. rewrite aget_aset by flia. destruct (Z.eqb_spec q p); [flia|]. by apply Hr.
  - intros q Hq. rewrite aget_aset by flia.
    destruct (Z.eqb_spec (aget qty p) 0) as [E|N].
    + rewrite (occ_set_bit n) by done. destruct (Z.eqb_spec p q), (Z.eqb_spec q p); subst; try flia.
      by apply Ho.
    + destruct (Z.eqb_spec q p) as [->|]; rewrite Ho by done; [flia|done].
Qed.

Lemma side_take qty bits p v :
  side_ok qty bits -> in_grid p -> 0 <= v <= aget qty p ->
  side_ok (aset qty p (aget qty p - v))
          (if aget qty p - v =? 0 then clear_bit bits p else bits).
Proof.
  intros [Hl Hw Hr Ho] Hp Hv. unfold in_grid, LEVELS in *. pose proof (Hr p Hp).
  split.
  - by rewrite alen_aset.
  - destruct (_ =? 0); [by apply clear_bit_ok|done].
  - intros q Hq. rewrite aget_aset by flia. destruct (Z.eqb_spec q p); [flia|]. by apply Hr.
  - intros q Hq. rewrite aget_aset by flia.
    destruct (Z.eqb_spec (aget qty p - v) 0) as [E|N].
    + rewrite (occ_clear_bit n) by done. destruct (Z.eqb_spec p q), (Z.eqb_spec q p); subst; try flia.
      by apply Ho.
    + destruct (Z.eqb_spec q p) as [->|]; rewrite Ho by done; [flia|done].
Qed.

Lemma best_bid_scan qty bits from :
  side_ok qty bits -> NO_BID <= from < LEVELS n ->
  (forall p, in_grid p -> from < p -> aget qty p = 0) ->
  best_bid_ok qty (scan_down bits from).
Proof.
  intros [Hl Hw Hr Ho] Hf Ha. unfold best_bid_ok.
  destruct (scan_down_spec bits from Hw) as [[-> H]|(H1 & H2 & H)]; [flia| |].
  all: split; [|intros p Hp Hlt; destruct (Z_lt_le_dec from p); [by apply Ha|]].
  - by left.
  - specialize (H p). rewrite Ho in H by done. pose proof (Hr p Hp). flia.
  - right. assert (in_grid (scan_down bits from)) by flia.
    split; [done|]. rewrite Ho in H2 by done. flia.
  - specialize (H p). rewrite Ho in H by done. pose proof (Hr p Hp). flia.
Qed.

Lemma best_ask_scan qty bits from :
  side_ok qty bits -> 0 <= from ->
  (forall p, in_grid p -> p < from -> aget qty p = 0) ->
  best_ask_ok qty (scan_up n bits from).
Proof.
  intros [Hl Hw Hr Ho] Hf Ha. unfold best_ask_ok.
  destruct (scan_up_spec bits from Hw Hf) as [[-> H]|(H1 & H2 & H)].
  all: split; [|intros p Hp Hlt; destruct (Z_lt_le_dec p from); [by apply Ha|]].
  - by left.
  - specialize (H p). rewrite Ho in H by done. pose proof (Hr p Hp). flia.
  - right. assert (in_grid (scan_up n bits from)) by flia.
    split; [done|]. rewrite Ho in H2 by done. flia.
  - specialize (H p). rewrite Ho in H by done. pose proof (Hr p Hp). flia.
Qed.
End flat_proofs.

(** ** The abstract book

    What the class promises: a quantity per price on each side.  Adding raises
    one level; then, while the highest bid is at or above the lowest ask, the
    smaller of the two quantities trades. *)

Record abook := mkAbook { a_bid : Z -> Z; a_ask : Z -> Z }.
#[export] Instance abook_equiv : Equiv abook := fun a a' =>
  forall p, a_bid a p = a_bid a' p /\ a_ask a p = a_ask a' p.
#[export] Instance abook_equivalence : Equivalence (≡@{abook}).
Proof.
  split.
  - intros a p. done.
  - intros a a' H p. by destruct (H p).
  - intros a a' a'' H H' p. destruct (H p), (H' p). split; congruence.
Qed.

Definition raise (f : Z -> Z) (p q : Z) : Z -> Z := fun x => if x =? p then f x + q else f x.
Definition a_trade (a : abook) (pb pa : Z) : abook :=
  let fill := Z.min (a_bid a pb) (a_ask a pa) in
  mkAbook (raise (a_bid a) pb (- fill)) (raise (a_ask a) pa (- fill)).
Definition highest_bid (a : abook) (p : Z) : Prop := 0 < a_bid a p /\ forall q, p < q -> a_bid a q = 0.
Definition lowest_ask (a : abook) (p : Z) : Prop := 0 < a_ask a p /\ forall q, q < p -> a_ask a q = 0.
Definition uncrossed (a : abook) : Prop := forall p q, 0 < a_bid a p -> 0 < a_ask a q -> p < q.

(** [settles a a' k]: matching leads from [a] to the uncrossed [a'] in [k] trades. *)
Inductive settles : abook -> abook -> Z -> Prop :=
| settles_done a a' : a ≡ a' -> uncrossed a -> settles a a' 0
| settles_trade a a' k pb pa :
    highest_bid a pb -> lowest_ask a pa -> pa <= pb ->
    settles (a_trade a pb pa) a' k -> settles a a' (k + 1).

#[export] Instance highest_bid_proper : Proper ((≡@{abook}) ==> eq ==> iff) highest_bid.
Proof.
  intros a a' H p ? <-. unfold highest_bid. destruct (H p) as [-> _].
  split; intros [? Hq]; split; auto; intros q Hlt; destruct (H q); rewrite <- (Hq q) by done; congruence.
Qed.
#[export] Instance lowest_ask_proper : Proper ((≡@{abook}) ==> eq ==> iff) lowest_ask.
Proof.
  intros a a' H p ? <-. unfold lowest_ask. destruct (H p) as [_ ->].
  split; intros [? Hq]; split; auto; intros q Hlt; destruct (H q); rewrite <- (Hq q) by done; congruence.
Qed.
#[export] Instance uncrossed_proper : Proper ((≡@{abook}) ==> iff) uncrossed.
Proof.
  intros a a' H. unfold uncrossed.
  split; intros U p q; destruct (H p), (H q); intros; apply U; congruence.
Qed.
#[export] Instance a_trade_proper : Proper ((≡@{abook}) ==> eq ==> eq ==> (≡)) a_trade.
Proof.
  intros a a' H pb ? <- pa ? <- x. unfold a_trade, raise. simpl.
  destruct (H x) as [-> ->], (H pb) as [-> _], (H pa) as [_ ->]. done.
Qed.

Lemma settles_equiv a1 a2 a' k : a1 ≡ a2 -> settles a1 a' k -> settles a2 a' k.
Proof.
  intros E S. revert a2 E. induction S as [a a' E' U|a a' k pb pa H1 H2 H3 _ IH]; intros a2 E.
  - apply settles_done; [by rewrite <- E|by rewrite <- E].
  - apply (settles_trade _ _ _ pb pa); [by rewrite <- E|by rewrite <- E|done|].
    apply IH. by rewrite E.
Qed.

Lemma highest_bid_unique a p q : highest_bid a p -> highest_bid a q -> p = q.
Proof.
  intros [Hp Hp'] [Hq Hq']. destruct (Z.lt_trichotomy p q) as [L|[E|L]]; [|done|].
  - rewrite Hp' in Hq; lia.
  - rewrite Hq' in Hp; lia.
Qed.
Lemma lowest_ask_unique a p q : lowest_ask a p -> lowest_ask a q -> p = q.
Proof.
  intros [Hp Hp'] [Hq Hq']. destruct (Z.lt_trichotomy p q) as [L|[E|L]]; [|done|].
  - rewrite Hq' in Hp; lia.
  - rewrite Hp' in Hq; lia.
Qed.

(** The specification is deterministic: the matched book and the number of
    trades are functions of the book before matching. *)
Lemma settles_deterministic a a1 a2 k1 k2 :
  settles a a1 k1 -> settles a a2 k2 -> a1 ≡ a2 /\ k1 = k2.
Proof.
  intros S1. revert a2 k2. induction S1 as [a a' E U|a a' k pb pa H1 H2 H3 _ IH]; intros a2 k2 S2.
  - inversion S2 as [? ? E2 U2|? ? ? pb pa H1 H2 H3 _]; subst; [by rewrite <- E, E2|].
    pose proof (U _ _ (proj1 H1) (proj1 H2)). lia.
  - inversion S2 as [? ? E2 U2|? ? k' pb' pa' H1' H2' H3' S']; subst.
    + pose proof (U2 _ _ (proj1 H1) (proj1 H2)). lia.
    + rewrite (highest_bid_unique _ _ _ H1' H1), (lowest_ask_unique _ _ _ H2' H2) in S'.
      destruct (IH _ _ S') as [? ->]. done.
Qed.

(** Price priority: a level that lost quantity has no unfilled level ahead of it. *)
Lemma settles_priority a a' k :
  settles a a' k ->
  (forall p q, p < q -> a_bid a' p < a_bid a p -> a_bid a' q = 0) /\
  (forall p q, q < p -> a_ask a' p < a_ask a p -> a_ask a' q = 0).
Proof.
  induction 1 as [a a' E U|a a' k pb pa [H1 H1'] [H2 H2'] H3 S [IH1 IH2]].
  { split; intros p q _ H; destruct (E p); lia. }
  assert (Mono : forall a a' k, settles a a' k ->
            forall p, (0 <= a_bid a p -> 0 <= a_bid a' p <= a_bid a p)
                   /\ (0 <= a_ask a p -> 0 <= a_ask a' p <= a_ask a p)).
  { clear. induction 1 as [a a' E U|a a' k pb pa [H1 H1'] [H2 H2'] H3 S IH]; intros p.
    - destruct (E p). lia.
    - specialize (IH p). unfold a_trade, raise in IH. simpl in IH.
      destruct (Z.eqb_spec p pb), (Z.eqb_spec p pa); subst; lia. }
  split; intros p q Hlt Hd.
  - destruct (Z.eq_dec p pb) as [->|N].
    + destruct (Mono _ _ _ S q) as [M _]. unfold a_trade, raise in M. simpl in M.
      destruct (Z.eqb_spec q pb); [lia|]. rewrite H1' in M by lia. lia.
    + apply (IH1 p q Hlt). unfold a_trade, raise. simpl. destruct (Z.eqb_spec p pb); lia.
  - destruct (Z.eq_dec p pa) as [->|N].
    + destruct (Mono _ _ _ S q) as [_ M]. unfold a_trade, raise in M. simpl in M.
      destruct (Z.eqb_spec q pa); [lia|]. rewrite H2' in M by lia. lia.
    + apply (IH2 p q Hlt). unfold a_trade, raise. simpl. destruct (Z.eqb_spec p pa); lia.
Qed.

Section flat_ops.
Context (n : nat).
Implicit Types (bits qty : list Z) (b : FlatOrderBook).
#[local] Existing Instance eta_flat.
#[local] Ltac flia := unfold in_grid, NO_ASK, NO_BID, LEVELS, INT32_MAX in *; lia.
#[local] Abbreviation flat_inv := (flat_inv n).

Definition abs (b : FlatOrderBook) : abook := mkAbook (bid_qty_at n b) (ask_qty_at n b).

Definition busy (b : FlatOrderBook) : Z :=
  let one q := if 0 <? q then 1 else 0 in sumf one (bid_qty_ b) + sumf one (ask_qty_ b).

Lemma grid_dec p : in_grid n p \/ out_of_grid n p = true.
Proof. unfold in_grid, out_of_grid. lia. Qed.
Lemma bid_at b p : in_grid n p -> bid_qty_at n b p = aget (bid_qty_ b) p.
Proof. unfold in_grid, bid_qty_at, out_of_grid. intros. by replace (_ || _) with false by lia. Qed.
Lemma ask_at b p : in_grid n p -> ask_qty_at n b p = aget (ask_qty_ b) p.
Proof. unfold in_grid, ask_qty_at, out_of_grid. intros. by replace (_ || _) with false by lia. Qed.
Lemma at_out b p : out_of_grid n p = true -> bid_qty_at n b p = 0 /\ ask_qty_at n b p = 0.
Proof. unfold bid_qty_at, ask_qty_at. by intros ->. Qed.
Lemma bid_pos_grid b p : 0 < bid_qty_at n b p -> in_grid n p.
Proof. intros. destruct (grid_dec p) as [|O]; [done|]. destruct (at_out b p O). lia. Qed.
Lemma ask_pos_grid b p : 0 < ask_qty_at n b p -> in_grid n p.
Proof. intros. destruct (grid_dec p) as [|O]; [done|]. destruct (at_out b p O). lia. Qed.

Lemma match_once_eq b :
  flat_inv b -> crossed n b = true ->
  let bb := best_bid_ b in let ba := best_ask_ b in
  let qb := aget (bid_qty_ b) bb in let qa := aget (ask_qty_ b) ba in
  let fill := Z.min qb qa in
  let nb := if qb - fill =? 0 then clear_bit (bid_bits_ b) bb else bid_bits_ b in
  let na := if qa - fill =? 0 then clear_bit (ask_bits_ b) ba else ask_bits_ b in
  match_once n b =
  mkFlat (aset (bid_qty_ b) bb (qb - fill)) (aset (ask_qty_ b) ba (qa - fill)) nb na
         (if qb - fill =? 0 then scan_down nb bb else bb)
         (if qa - fill =? 0 then scan_up n na ba else ba)
         (u64 (trades_ b + 1)) (orders_by_id_ b)
  /\ in_grid n bb /\ in_grid n ba /\ 0 < fill.
Proof.
  intros [[Hbl _ Hbr _] [Hal _ Har _] [Hbb _] [Hba _]] Hc.
  unfold crossed in Hc. bsplit. cbv zeta.
  destruct Hbb as [|[Gb Pb]]; [done|]. destruct Hba as [|[Ga Pa]]; [done|].
  split; [|split; [done|split; [done|lia]]].
  destruct b as [bq aq bbits abits bb ba tr ob]. unfold match_once.
  cbn in *.
  set (fill := Z.min _ _). rewrite (aget_aset_eq bq) by flia.
  destruct (aget bq bb - fill =? 0);
    cbn [bid_qty_ ask_qty_ bid_bits_ ask_bits_ best_bid_ best_ask_ trades_ orders_by_id_];
    rewrite aget_aset_eq by flia; by destruct (aget aq ba - fill =? 0).
Qed.

Lemma best_bid_take qty bits bb v :
  side_ok n qty bits -> in_grid n bb -> 0 <= v <= aget qty bb -> best_bid_ok n qty bb ->
  let q := aget qty bb - v in
  let nb := if q =? 0 then clear_bit bits bb else bits in
  best_bid_ok n (aset qty bb q) (if q =? 0 then scan_down nb bb else bb).
Proof.
  intros Hs Hg Hv [Hb Ha]. cbv zeta. pose proof (side_take _ _ _ _ _ Hs Hg Hv) as Hs'.
  destruct Hs as [Hl _ _ _].
  assert (Above : forall p, in_grid n p -> bb < p -> aget (aset qty bb (aget qty bb - v)) p = 0).
  { intros p Hp Hlt. rewrite aget_aset_ne by flia. by apply Ha. }
  destruct (Z.eqb_spec (aget qty bb - v) 0) as [E|N]; [apply best_bid_scan; [done|flia|done]|].
  split; [|done]. right. split; [done|]. rewrite aget_aset_eq by flia. lia.
Qed.

Lemma best_ask_take qty bits ba v :
  side_ok n qty bits -> in_grid n ba -> 0 <= v <= aget qty ba -> best_ask_ok n qty ba ->
  let q := aget qty ba - v in
  let na := if q =? 0 then clear_bit bits ba else bits in
  best_ask_ok n (aset qty ba q) (if q =? 0 then scan_up n na ba else ba).
Proof.
  intros Hs Hg Hv [Hb Ha]. cbv zeta. pose proof (side_take _ _ _ _ _ Hs Hg Hv) as Hs'.
  destruct Hs as [Hl _ _ _].
  assert (Below : forall p, in_grid n p -> p < ba -> aget (aset qty ba (aget qty ba - v)) p = 0).
  { intros p Hp Hlt. rewrite aget_aset_ne by flia. by apply Ha. }
  destruct (Z.eqb_spec (aget qty ba - v) 0) as [E|N]; [apply best_ask_scan; [done|flia|done]|].
  split; [|done]. right. split; [done|]. rewrite aget_aset_eq by flia. lia.
Qed.

Lemma match_once_inv b : flat_inv b -> crossed n b = true -> flat_inv (match_once n b).
Proof.
  intros Hi Hc. destruct (match_once_eq b Hi Hc) as (-> & Gb & Ga & Hf).
  destruct Hi as [Hsb Hsa Hbb Hba].
  split; cbn [bid_qty_ ask_qty_ bid_bits_ ask_bits_ best_bid_ best_ask_].
  - apply side_take; [done|done|lia].
  - apply side_take; [done|done|lia].
  - apply best_bid_take; [done|done|lia|done].
  - apply best_ask_take; [done|done|lia|done].
Qed.

Lemma abs_highest b : flat_inv b -> in_grid n (best_bid_ b) -> highest_bid (abs b) (best_bid_ b).
Proof.
  intros [_ _ [Hbb Hab] _] G. split; simpl.
  - rewrite bid_at by done. destruct Hbb; [flia|tauto].
  - intros q Hq. destruct (grid_dec q) as [Gq|O]; [rewrite bid_at by done; by apply Hab|].
    by destruct (at_out b q O).
Qed.
Lemma abs_lowest b : flat_inv b -> in_grid n (best_ask_ b) -> lowest_ask (abs b) (best_ask_ b).
Proof.
  intros [_ _ _ [Hba Hbe]] G. split; simpl.
  - rewrite ask_at by done. destruct Hba; [flia|tauto].
  - intros q Hq. destruct (grid_dec q) as [Gq|O]; [rewrite ask_at by done; by apply Hbe|].
    by destruct (at_out b q O).
Qed.

Lemma abs_aset_bid b b' p v :
  in_grid n p -> alen (bid_qty_ b) = LEVELS n ->
  bid_qty_ b' = aset (bid_qty_ b) p (aget (bid_qty_ b) p + v) ->
  forall x, bid_qty_at n b' x = raise (bid_qty_at n b) p v x.
Proof.
  intros Hp Hl E x. unfold raise. destruct (grid_dec x) as [G|O].
  - rewrite !bid_at, E, aget_aset by (done || flia). by destruct (Z.eqb_spec x p) as [->|].
  - destruct (at_out b x O), (at_out b' x O). destruct (Z.eqb_spec x p) as [->|]; [|lia].
    exfalso. unfold out_of_grid in O. flia.
Qed.
Lemma abs_aset_ask b b' p v :
  in_grid n p -> alen (ask_qty_ b) = LEVELS n ->
  ask_qty_ b' = aset (ask_qty_ b) p (aget (ask_qty_ b) p + v) ->
  forall x, ask_qty_at n b' x = raise (ask_qty_at n b) p v x.
Proof.
  intros Hp Hl E x. unfold raise. destruct (grid_dec x) as [G|O].
  - rewrite !ask_at, E, aget_aset by (done || flia). by destruct (Z.eqb_spec x p) as [->|].
  - destruct (at_out b x O), (at_out b' x O). destruct (Z.eqb_spec x p) as [->|]; [|lia].
    exfalso. unfold out_of_grid in O. flia.
Qed.

Lemma match_once_abs b :
  flat_inv b -> crossed n b = true ->
  abs (match_once n b) ≡ a_trade (abs b) (best_bid_ b) (best_ask_ b).
Proof.
  intros Hi Hc. destruct (match_once_eq b Hi Hc) as (E & Gb & Ga & Hf). destruct Hi as [[Hbl _ _ _] [Hal _ _ _] _ _].
  intros x. unfold a_trade, abs. simpl. rewrite (bid_at b (best_bid_ b)), (ask_at b (best_ask_ b)) by done.
  split; [apply abs_aset_bid|apply abs_aset_ask]; (done || by rewrite E).
Qed.

Lemma match_once_busy b : flat_inv b -> crossed n b = true -> busy (match_once n b) < busy b.
Proof.
  intros Hi Hc. destruct (match_once_eq b Hi Hc) as (-> & Gb & Ga & Hf). destruct Hi as [[Hbl _ _ _] [Hal _ _ _] _ _].
  unfold busy. cbn [bid_qty_ ask_qty_]. rewrite !sumf_aset by flia.
  repeat match goal with |- context [0 <? ?x] => destruct (Z.ltb_spec 0 x) end; lia.
Qed.

Lemma busy_bounds b : flat_inv b -> 0 <= busy b <= 2 * LEVELS n.
Proof.
  intros [[Hbl _ _ _] [Hal _ _ _] _ _]. unfold busy.
  assert (forall l, alen l = LEVELS n -> 0 <= sumf (fun q => if 0 <? q then 1 else 0) l <= LEVELS n) as B.
  { intros l <-. pose proof (sumf_bounds (fun q => if 0 <? q then 1 else 0) l 0 1) as B.
    destruct B; [|lia]. intros q _. by destruct (0 <? q). }
  pose proof (B _ Hbl). pose proof (B _ Hal). lia.
Qed.

Lemma not_crossed_abs b : flat_inv b -> crossed n b = false -> uncrossed (abs b).
Proof.
  intros Hi Hc p q Hp Hq. simpl in *.
  pose proof (bid_pos_grid _ _ Hp) as Gp. pose proof (ask_pos_grid _ _ Hq) as Gq.
  rewrite bid_at in Hp by done. rewrite ask_at in Hq by done.
  destruct Hi as [_ _ [Hbb Hb] [Hba Ha]].
  destruct (Z_lt_le_dec (best_bid_ b) p) as [L|L]; [rewrite Hb in Hp by done; lia|].
  destruct (Z_lt_le_dec q (best_ask_ b)) as [L'|L']; [rewrite Ha in Hq by done; lia|].
  unfold crossed in Hc. destruct (Z.eqb_spec (best_bid_ b) NO_BID), (Z.eqb_spec (best_ask_ b) (NO_ASK n)); simpl in Hc; flia.
Qed.

Lemma try_match_fuel_spec k b :
  flat_inv b -> busy b <= Z.of_nat k ->
  let b' := try_match_fuel n k b in
  flat_inv b' /\ crossed n b' = false /\ orders_by_id_ b' = orders_by_id_ b /\
  exists m, 0 <= m /\ settles (abs b) (abs b') m /\ u64 (trades_ b') = u64 (trades_ b + m).
Proof.
  revert b. induction k as [|k IH]; intros b Hi Hk; cbn [try_match_fuel].
  - pose proof (busy_bounds b Hi). destruct (crossed n b) eqn:Hc.
    { pose proof (match_once_busy b Hi Hc). pose proof (busy_bounds _ (match_once_inv b Hi Hc)). lia. }
    split; [done|split; [done|split; [done|]]]. exists 0. rewrite Z.add_0_r.
    split; [done|split; [|done]]. constructor; [done|]. by apply not_crossed_abs.
  - destruct (crossed n b) eqn:Hc.
    + pose proof (match_once_busy b Hi Hc). pose proof (match_once_abs b Hi Hc) as Ha.
      destruct (match_once_eq b Hi Hc) as (E & Gb & Ga & Hf).
      destruct (IH (match_once n b)) as (I' & C' & O' & m & Hm & S' & T'); [by apply match_once_inv|lia|].
      split; [done|split; [done|split; [by rewrite O', E|]]]. exists (m + 1). split; [lia|split].
      * apply (settles_trade _ _ _ (best_bid_ b) (best_ask_ b)).
        -- by apply abs_highest.
        -- by apply abs_lowest.
        -- unfold crossed in Hc. bsplit. done.
        -- by apply (settles_equiv _ _ _ _ Ha).
      * rewrite T', E. cbn [trades_]. unfold wrapu. rewrite Zplus_mod_idemp_l. f_equal. lia.
    + split; [done|split; [done|split; [done|]]]. exists 0. rewrite Z.add_0_r.
      split; [done|split; [|done]]. constructor; [done|]. by apply not_crossed_abs.
Qed.

Lemma try_match_spec b :
  flat_inv b ->
  let b' := try_match n b in
  flat_inv b' /\ crossed n b' = false /\ orders_by_id_ b' = orders_by_id_ b /\
  exists m, 0 <= m /\ settles (abs b) (abs b') m /\ u64 (trades_ b') = u64 (trades_ b + m).
Proof.
  intros Hi. apply try_match_fuel_spec; [done|].
  pose proof (busy_bounds b Hi). unfold LEVELS in *. lia.
Qed.
End flat_ops.

Section flat_theorems.
Context (n : nat).
Implicit Types (b : FlatOrderBook).
#[local] Existing Instance eta_flat.
#[local] Ltac flia := unfold in_grid, NO_ASK, NO_BID, LEVELS, INT32_MAX in *; lia.

(** The invariant of a live book: the representation invariant, an uncrossed
    market, and tracked orders with a valid price and quantity. *)
Definition order_ok (r : OrderRef) : Prop := in_grid n (ref_price r) /\ 0 < ref_qty r.
Record flat_ok (b : FlatOrderBook) : Prop := {
  ok_inv : flat_inv n b;
  ok_uncrossed : crossed n b = false;
  ok_orders : map_Forall (fun _ r => order_ok r) (orders_by_id_ b)
}.

Lemma good_input p q : bad_input n p q = false -> in_grid n p /\ 0 < q.
Proof. unfold bad_input. intros. bsplit. flia. Qed.

Lemma put_bid_inv b p q :
  flat_inv n b -> in_grid n p -> 0 < q -> bid_qty_at n b p + q <= INT32_MAX ->
  flat_inv n (put_bid b p q) /\
  abs n (put_bid b p q) ≡ mkAbook (raise (bid_qty_at n b) p q) (ask_qty_at n b) /\
  orders_by_id_ (put_bid b p q) = orders_by_id_ b /\ trades_ (put_bid b p q) = trades_ b.
Proof.
  intros [Hsb Hsa [Hbb Hab] Hba] Hp Hq Hm. rewrite bid_at in Hm by done.
  pose proof (side_put _ _ _ _ _ Hsb Hp Hq Hm) as Hsb'.
  destruct Hsb as [Hl _ Hr _]. pose proof (Hr p Hp) as Rp.
  split; [|split; [|done]].
  - split; simpl; [done|done| |done].
    rewrite i32_small in * by flia. split.
    + right. destruct (Z.ltb_spec (best_bid_ b) p).
      * split; [done|]. rewrite aget_aset_eq by flia. lia.
      * destruct Hbb as [|[Hg Hpos]]; [flia|]. split; [done|].
        rewrite aget_aset by flia. destruct (Z.eqb_spec (best_bid_ b) p); flia.
    + intros x Hx Hlt. rewrite aget_aset_ne; [|flia|flia|].
      * apply Hab; [done|]. destruct (Z.ltb_spec (best_bid_ b) p); lia.
      * destruct (Z.ltb_spec (best_bid_ b) p); lia.
  - intros x. split; [|done]. simpl. apply abs_aset_bid; [done|done|]. simpl. rewrite i32_small by flia. done.
Qed.

Lemma put_ask_inv b p q :
  flat_inv n b -> in_grid n p -> 0 < q -> ask_qty_at n b p + q <= INT32_MAX ->
  flat_inv n (put_ask b p q) /\
  abs n (put_ask b p q) ≡ mkAbook (bid_qty_at n b) (raise (ask_qty_at n b) p q) /\
  orders_by_id_ (put_ask b p q) = orders_by_id_ b /\ trades_ (put_ask b p q) = trades_ b.
Proof.
  intros [Hsb Hsa Hbb [Hba Hab]] Hp Hq Hm. rewrite ask_at in Hm by done.
  pose proof (side_put _ _ _ _ _ Hsa Hp Hq Hm) as Hsa'.
  destruct Hsa as [Hl _ Hr _]. pose proof (Hr p Hp) as Rp.
  split; [|split; [|done]].
  - split; simpl; [done|done|done|].
    rewrite i32_small in * by flia. split.
    + right. destruct (Z.ltb_spec p (best_ask_ b)).
      * split; [done|]. rewrite aget_aset_eq by flia. lia.
      * destruct Hba as [|[Hg Hpos]]; [flia|]. split; [done|].
        rewrite aget_aset by flia. destruct (Z.eqb_spec (best_ask_ b) p); flia.
    + intros x Hx Hlt. rewrite aget_aset_ne; [|flia|flia|].
      * apply Hab; [done|]. destruct (Z.ltb_spec p (best_ask_ b)); lia.
      * destruct (Z.ltb_spec p (best_ask_ b)); lia.
  - intros x. split; [done|]. simpl. apply abs_aset_ask; [done|done|]. simpl. rewrite i32_small by flia. done.
Qed.

Lemma flat_inv_orders b o : flat_inv n b -> flat_inv n (b <| orders_by_id_ := o |>).
Proof. by intros [? ? ? ?]. Qed.

(** What one accepted order does: [a] is the abstract book with its quantity
    added, [b'] the book after matching. *)
Definition settled_from (b : FlatOrderBook) (a : abook) (b' : FlatOrderBook) : Prop :=
  exists k, 0 <= k /\ settles a (abs n b') k /\ u64 (trades_ b') = u64 (trades_ b + k).

Lemma try_match_from b b1 a :
  flat_inv n b1 -> abs n b1 ≡ a -> trades_ b1 = trades_ b ->
  map_Forall (fun _ r => order_ok r) (orders_by_id_ b1) ->
  flat_ok (try_match n b1) /\ settled_from b a (try_match n b1)
  /\ orders_by_id_ (try_match n b1) = orders_by_id_ b1.
Proof.
  intros Hi Ha Ht Ho. destruct (try_match_spec n b1 Hi) as (I & C & O & k & Hk & S & T).
  split; [split; [done|done|by rewrite O]|split; [|done]].
  exists k. rewrite <- Ht. split; [done|split; [|done]]. by apply (settles_equiv _ _ _ _ Ha).
Qed.

Lemma add_buy_correct b p q :
  flat_ok b -> bad_input n p q = false -> bid_qty_at n b p + q <= INT32_MAX ->
  let '(b', ok) := add_buy n b p q in
  ok = true /\ flat_ok b' /\
  settled_from b (mkAbook (raise (bid_qty_at n b) p q) (ask_qty_at n b)) b'.
Proof.
  intros [Hi Hc Ho] Hg Hm. destruct (good_input _ _ Hg) as [Hp Hq].
  unfold add_buy. rewrite Hg. destruct (put_bid_inv b p q) as (I & A & O & T); [done..|].
  destruct (try_match_from b (put_bid b p q) _ I A T) as (F & S & _); [by rewrite O|]. done.
Qed.

Lemma add_sell_correct b p q :
  flat_ok b -> bad_input n p q = false -> ask_qty_at n b p + q <= INT32_MAX ->
  let '(b', ok) := add_sell n b p q in
  ok = true /\ flat_ok b' /\
  settled_from b (mkAbook (bid_qty_at n b) (raise (ask_qty_at n b) p q)) b'.
Proof.
  intros [Hi Hc Ho] Hg Hm. destruct (good_input _ _ Hg) as [Hp Hq].
  unfold add_sell. rewrite Hg. destruct (put_ask_inv b p q) as (I & A & O & T); [done..|].
  destruct (try_match_from b (put_ask b p q) _ I A T) as (F & S & _); [by rewrite O|]. done.
Qed.

Lemma submit_correct b id p q (is_buy : bool) :
  flat_ok b -> bad_input n p q = false -> orders_by_id_ b !! id = None ->
  (if is_buy then bid_qty_at n b p else ask_qty_at n b p) + q <= INT32_MAX ->
  let '(b', ok) := submit_with_id n b id p q is_buy in
  ok = true /\ flat_ok b' /\
  settled_from b (if is_buy then mkAbook (raise (bid_qty_at n b) p q) (ask_qty_at n b)
                  else mkAbook (bid_qty_at n b) (raise (ask_qty_at n b) p q)) b' /\
  orders_by_id_ b' = <[id := mkOrderRef p q is_buy]> (orders_by_id_ b).
Proof.
  intros [Hi Hc Ho] Hg Hn Hm. destruct (good_input _ _ Hg) as [Hp Hq].
  unfold submit_with_id. rewrite Hg, Hn.
  assert (Ho' : map_Forall (fun _ r => order_ok r) (<[id := mkOrderRef p q is_buy]> (orders_by_id_ b))).
  { by apply map_Forall_insert_2. }
  pose proof (flat_inv_orders b (<[id := mkOrderRef p q is_buy]> (orders_by_id_ b)) Hi) as Hi'.
  destruct is_buy.
  - destruct (put_bid_inv _ p q Hi' Hp Hq Hm) as (I & A & O & T).
    destruct (try_match_from b _ _ I A T) as (F & S & E); [by rewrite O|].
    split; [done|split; [exact F|split; [exact S|by etrans]]].
  - destruct (put_ask_inv _ p q Hi' Hp Hq Hm) as (I & A & O & T).
    destruct (try_match_from b _ _ I A T) as (F & S & E); [by rewrite O|].
    split; [done|split; [exact F|split; [exact S|by etrans]]].
Qed.

Lemma crossed_abs b : flat_inv n b -> crossed n b = false <-> uncrossed (abs n b).
Proof.
  intros Hi. split; [by apply not_crossed_abs|]. intros U.
  destruct (crossed n b) eqn:Hc; [|done]. exfalso.
  destruct (match_once_eq n b Hi Hc) as (_ & Gb & Ga & Hf).
  unfold crossed in Hc. bsplit.
  pose proof (U (best_bid_ b) (best_ask_ b) (proj1 (abs_highest n b Hi Gb)) (proj1 (abs_lowest n b Hi Ga))). lia.
Qed.

(** A book whose quantities only shrank is still uncrossed. *)
Lemma shrink_uncrossed b b' :
  flat_inv n b -> flat_inv n b' -> crossed n b = false ->
  (forall x, bid_qty_at n b' x <= bid_qty_at n b x /\ ask_qty_at n b' x <= ask_qty_at n b x) ->
  crossed n b' = false.
Proof.
  intros Hi Hi' Hc Hle. apply crossed_abs; [done|]. apply crossed_abs in Hc; [|done].
  intros p q Hp Hq. simpl in *. apply Hc; simpl; [destruct (Hle p)|destruct (Hle q)]; lia.
Qed.

(** The quantity at a level, written as the code writes it in [cancel]. *)
Lemma cancel_bid_inv b p v :
  flat_inv n b -> in_grid n p -> 0 <= v <= aget (bid_qty_ b) p ->
  let q := aget (bid_qty_ b) p - v in
  let bits := if q =? 0 then clear_bit (bid_bits_ b) p else bid_bits_ b in
  flat_inv n (b <| bid_qty_ ::= fun l => aset l p q |> <| bid_bits_ := bits |>
                <| best_bid_ := scan_down bits (best_bid_ b) |>).
Proof.
  intros [Hsb Hsa [Hbb Hab] Hba] Hp Hv. cbv zeta.
  pose proof (side_take _ _ _ _ _ Hsb Hp Hv) as Hsb'. destruct Hsb as [Hl _ Hr _].
  split; simpl; [done|done| |done]. apply best_bid_scan; [done|flia|].
  intros x Hx Hlt. rewrite aget_aset by flia.
  destruct (Z.eqb_spec x p) as [->|]; [rewrite Hab in * by done; lia|by apply Hab].
Qed.

Lemma cancel_ask_inv b p v :
  flat_inv n b -> in_grid n p -> 0 <= v <= aget (ask_qty_ b) p ->
  let q := aget (ask_qty_ b) p - v in
  let bits := if q =? 0 then clear_bit (ask_bits_ b) p else ask_bits_ b in
  flat_inv n (b <| ask_qty_ ::= fun l => aset l p q |> <| ask_bits_ := bits |>
                <| best_ask_ := scan_up n bits (best_ask_ b) |>).
Proof.
  intros [Hsb Hsa Hbb [Hba Hab]] Hp Hv. cbv zeta.
  pose proof (side_take _ _ _ _ _ Hsa Hp Hv) as Hsa'. destruct Hsa as [Hl _ Hr _].
  split; simpl; [done|done|done|]. apply best_ask_scan; [done|flia|].
  intros x Hx Hlt. rewrite aget_aset by flia.
  destruct (Z.eqb_spec x p) as [->|]; [rewrite Hab in * by done; lia|by apply Hab].
Qed.

Definition cut (f : Z -> Z) (r : OrderRef) : Z -> Z :=
  raise f (ref_price r) (- Z.min (ref_qty r) (f (ref_price r))).

Lemma cut_le f r x : 0 < ref_qty r -> 0 <= f (ref_price r) -> cut f r x <= f x.
Proof. intros. unfold cut, raise. destruct (_ =? _); lia. Qed.

Lemma cancel_correct b id r :
  flat_ok b -> orders_by_id_ b !! id = Some r ->
  let '(b', ok) := cancel n b id in
  ok = true /\ flat_ok b' /\ trades_ b' = trades_ b /\
  orders_by_id_ b' = delete id (orders_by_id_ b) /\
  abs n b' ≡ (if ref_is_buy r then mkAbook (cut (bid_qty_at n b) r) (ask_qty_at n b)
              else mkAbook (bid_qty_at n b) (cut (ask_qty_at n b) r)).
Proof.
  intros [Hi Hc Ho] Hr. pose proof (Ho id r Hr) as [Hp Hq].
  assert (Ho' : map_Forall (fun _ r => order_ok r) (delete id (orders_by_id_ b))) by by apply map_Forall_delete.
  pose proof (side_range _ _ _ (inv_bid _ _ Hi) _ Hp) as Rb.
  pose proof (side_range _ _ _ (inv_ask _ _ Hi) _ Hp) as Ra.
  pose proof (flat_inv_orders b (delete id (orders_by_id_ b)) Hi) as Hi1.
  unfold cancel. rewrite Hr. destruct (ref_is_buy r); cbv zeta.
  - set (v := Z.min (ref_qty r) _). pose proof (cancel_bid_inv _ _ v Hi1 Hp ltac:(simpl in *; lia)) as Hi'.
    set (b' := set_field best_bid_ _ _) in *.
    assert (A : abs n b' ≡ mkAbook (cut (bid_qty_at n b) r) (ask_qty_at n b)).
    { intros x. split; [|done]. unfold cut. rewrite (bid_at n b (ref_price r)) by done.
      apply abs_aset_bid; [done|apply Hi|done]. }
    split; [done|split; [split; [done| |done]|done]].
    apply (shrink_uncrossed b); [done..|]. intros x. destruct (A x) as [Eb Ea]. simpl in Eb, Ea. rewrite Eb, Ea.
    split; [apply cut_le; rewrite ?bid_at by done; lia|lia].
  - set (v := Z.min (ref_qty r) _). pose proof (cancel_ask_inv _ _ v Hi1 Hp ltac:(simpl in *; lia)) as Hi'.
    set (b' := set_field best_ask_ _ _) in *.
    assert (A : abs n b' ≡ mkAbook (bid_qty_at n b) (cut (ask_qty_at n b) r)).
    { intros x. split; [done|]. unfold cut. rewrite (ask_at n b (ref_price r)) by done.
      apply abs_aset_ask; [done|apply Hi|done]. }
    split; [done|split; [split; [done| |done]|done]].
    apply (shrink_uncrossed b); [done..|]. intros x. destruct (A x) as [Eb Ea]. simpl in Eb, Ea. rewrite Eb, Ea.
    split; [lia|apply cut_le; rewrite ?ask_at by done; lia].
Qed.
End flat_theorems.

(** ** Properties of the flat book *)

Section flat_properties.
Context (n : nat).
Implicit Types (b : FlatOrderBook).
#[local] Existing Instance eta_flat.
#[local] Ltac flia := unfold in_grid, NO_ASK, NO_BID, LEVELS, INT32_MAX in *; lia.

(** The operations of the class, and the books they can reach from a new one.
    [op_fits] excludes the additions that overflow the 32-bit quantity of a
    level, which the code does not guard and C++ leaves undefined. *)
Inductive flat_op :=
| OpBuy (p q : Z) | OpSell (p q : Z) | OpSubmit (id p q : Z) (is_buy : bool)
| OpCancel (id : Z) | OpModify (id p q : Z).

Definition exec_op (b : FlatOrderBook) (o : flat_op) : FlatOrderBook * bool :=
  match o with
  | OpBuy p q => add_buy n b p q
  | OpSell p q => add_sell n b p q
  | OpSubmit id p q is_buy => submit_with_id n b id p q is_buy
  | OpCancel id => cancel n b id
  | OpModify id p q => modify n b id p q
  end.

Definition level_fits (b : FlatOrderBook) (p q : Z) (is_buy : bool) : bool :=
  (if is_buy then bid_qty_at n b p else ask_qty_at n b p) + q <=? INT32_MAX.
Definition op_fits (b : FlatOrderBook) (o : flat_op) : bool :=
  match o with
  | OpBuy p q => level_fits b p q true
  | OpSell p q => level_fits b p q false
  | OpSubmit _ p q is_buy => level_fits b p q is_buy
  | OpCancel _ => true
  | OpModify id p q =>
      match orders_by_id_ b !! id with
      | Some r => level_fits (cancel n b id).1 p q (ref_is_buy r)
      | None => true
      end
  end.

Inductive reachable : FlatOrderBook -> Prop :=
| reach_empty : reachable (empty_book n)
| reach_op b o : reachable b -> op_fits b o = true -> reachable (exec_op b o).1.

Lemma empty_book_ok : flat_ok n (empty_book n).
Proof.
  assert (Hz : forall p, in_grid n p -> aget (replicate (64 * n) 0) p = 0).
  { intros p Hp. apply aget_replicate. flia. }
  assert (Hs : side_ok n (replicate (64 * n) 0) (replicate n 0)).
  { split.
    - unfold alen, LEVELS. rewrite length_replicate. lia.
    - split; [unfold alen; by rewrite length_replicate|]. apply Forall_replicate. lia.
    - intros p Hp. rewrite Hz by done. unfold INT32_MAX. lia.
    - intros p Hp. rewrite Hz by done. unfold occ.
      destruct (level_word p n) as [Hw _]; [flia|]. rewrite aget_replicate by lia. apply Z.bits_0. }
  split; [|done|apply map_Forall_empty].
  split; [done|done| |]; split; [by left|by auto|by left|by auto].
Qed.

Lemma submit_ok b id p q is_buy :
  flat_ok n b -> level_fits b p q is_buy = true -> flat_ok n (submit_with_id n b id p q is_buy).1.
Proof.
  intros Hok Hf. unfold level_fits in Hf. bsplit.
  pose proof (submit_correct n b id p q is_buy Hok) as S.
  unfold submit_with_id in *. destruct (bad_input n p q); [done|].
  destruct (orders_by_id_ b !! id); [done|]. by apply S.
Qed.

Lemma cancel_ok b id : flat_ok n b -> flat_ok n (cancel n b id).1.
Proof.
  intros Hok. destruct (orders_by_id_ b !! id) as [r|] eqn:E.
  - pose proof (cancel_correct n b id r Hok E) as C. destruct (cancel n b id). by apply C.
  - unfold cancel. by rewrite E.
Qed.

Lemma exec_op_ok b o : flat_ok n b -> op_fits b o = true -> flat_ok n (exec_op b o).1.
Proof.
  intros Hok Hf. destruct o as [p q|p q|id p q is_buy|id|id p q]; simpl in *.
  - unfold level_fits in Hf. bsplit. pose proof (add_buy_correct n b p q Hok) as A.
    unfold add_buy in *. destruct (bad_input n p q); [done|]. by apply A.
  - unfold level_fits in Hf. bsplit. pose proof (add_sell_correct n b p q Hok) as A.
    unfold add_sell in *. destruct (bad_input n p q); [done|]. by apply A.
  - by apply submit_ok.
  - by apply cancel_ok.
  - unfold modify. destruct (orders_by_id_ b !! id) as [r|] eqn:E; [|done].
    apply submit_ok; [by apply cancel_ok|done].
Qed.

(** C28: the flat book refines the abstract book.  An accepted [add_buy] or
    [add_sell] leads to the book in which the quantity was added to its level
    and the two sides then traded best against best until uncrossed; the trade
    counter advances by exactly the number of those trades. *)
Theorem flat_add_refines b p q :
  flat_ok n b -> bad_input n p q = false ->
  bid_qty_at n b p + q <= INT32_MAX -> ask_qty_at n b p + q <= INT32_MAX ->
  (exists k, (add_buy n b p q).2 = true /\ 0 <= k /\
     settles (mkAbook (raise (bid_qty_at n b) p q) (ask_qty_at n b)) (abs n (add_buy n b p q).1) k /\
     u64 (trades_ (add_buy n b p q).1) = u64 (trades_ b + k)) /\
  (exists k, (add_sell n b p q).2 = true /\ 0 <= k /\
     settles (mkAbook (bid_qty_at n b) (raise (ask_qty_at n b) p q)) (abs n (add_sell n b p q).1) k /\
     u64 (trades_ (add_sell n b p q).1) = u64 (trades_ b + k)).
Proof.
  intros Hok Hg Hb Ha. split.
  - pose proof (add_buy_correct n b p q Hok Hg Hb) as A.
    destruct (add_buy n b p q) as [b' ok]. destruct A as (-> & _ & k & Hk & S & T). by exists k.
  - pose proof (add_sell_correct n b p q Hok Hg Ha) as A.
    destruct (add_sell n b p q) as [b' ok]. destruct A as (-> & _ & k & Hk & S & T). by exists k.
Qed.

(** every book reachable by the five operations satisfies the
    representation invariant (bit set iff the level is non-empty, cursors at
    the best non-empty level, quantities in range), is uncrossed, and tracks
    only orders with a valid price and quantity. *)
Lemma flat_reachable_ok b : reachable b -> flat_ok n b.
Proof. induction 1 as [|b o _ IH Hf]; [apply empty_book_ok|by apply exec_op_ok]. Qed.

(** the word scans are exact: [scan_down] returns the highest occupied
    level at or below its start and [scan_up] the lowest at or above it, or
    the sentinel when there is none. *)
Lemma flat_scans_exact bits from :
  words_ok n bits -> 0 <= from < LEVELS n ->
  (match scan_down bits from with
   | -1 => forall p, 0 <= p <= from -> occ bits p = false
   | r => 0 <= r <= from /\ occ bits r = true /\ forall p, r < p <= from -> occ bits p = false
   end) /\
  (let r := scan_up n bits from in
   if r =? NO_ASK n then forall p, from <= p < LEVELS n -> occ bits p = false
   else from <= r < LEVELS n /\ occ bits r = true /\ forall p, from <= p < r -> occ bits p = false).
Proof.
  intros Hw Hf. split.
  - destruct (scan_down_spec n bits from Hw) as [[-> H]|(H1 & H2 & H)]; [lia|done|].
    destruct (scan_down bits from) as [|?|[?|?|]]; done || lia.
  - cbv zeta. destruct (scan_up_spec n bits from Hw) as [[-> H]|(H1 & H2 & H)]; [lia|by rewrite Z.eqb_refl|].
    destruct (Z.eqb_spec (scan_up n bits from) (NO_ASK n)) as [E|]; [unfold NO_ASK in E; lia|done].
Qed.

Definition net_qty (b : FlatOrderBook) : Z :=
  sumf (fun q => q) (bid_qty_ b) - sumf (fun q => q) (ask_qty_ b).

Lemma match_once_net b : flat_inv n b -> crossed n b = true -> net_qty (match_once n b) = net_qty b.
Proof.
  intros Hi Hc. destruct (match_once_eq n b Hi Hc) as (-> & Gb & Ga & _).
  destruct Hi as [[Hbl _ _ _] [Hal _ _ _] _ _]. unfold net_qty. simpl. rewrite !sumf_aset by flia. lia.
Qed.

Lemma try_match_net b : flat_inv n b -> net_qty (try_match n b) = net_qty b.
Proof.
  unfold try_match. generalize (2 * (64 * n))%nat as k. intros k. revert b.
  induction k as [|k IH]; intros b Hi; simpl; [done|].
  destruct (crossed n b) eqn:Hc; [|done].
  rewrite IH by by apply match_once_inv. by apply match_once_net.
Qed.

(** matching trades equal quantities on both sides and respects price
    priority: an order changes the difference of the two sides' totals by its
    own quantity, and if a bid level lost quantity, no bid above it is left
    unfilled (and symmetrically for asks below). *)
Lemma flat_match_conserves_prioritises b p q :
  flat_ok n b -> bad_input n p q = false -> bid_qty_at n b p + q <= INT32_MAX ->
  let b' := (add_buy n b p q).1 in
  net_qty b' = net_qty b + q /\
  (forall x y, x < y -> bid_qty_at n b' x < bid_qty_at n b x -> bid_qty_at n b' y = 0) /\
  (forall x y, y < x -> ask_qty_at n b' x < ask_qty_at n b x -> ask_qty_at n b' y = 0).
Proof.
  intros Hok Hg Hm. destruct (good_input n p q Hg) as [Hp Hq].
  pose proof (add_buy_correct n b p q Hok Hg Hm) as A. cbv zeta.
  unfold add_buy in *. rewrite Hg in *. cbn [fst].
  destruct A as (_ & _ & k & _ & S & _). destruct (settles_priority _ _ _ S) as [P1 P2]. simpl in P1, P2.
  split; [|split].
  - destruct Hok as [Hi _ _]. destruct (put_bid_inv n b p q Hi Hp Hq Hm) as (I & _).
    rewrite try_match_net by done. rewrite bid_at in Hm by done.
    destruct Hi as [[Hl _ Hr _] _ _ _]. pose proof (Hr p Hp). unfold net_qty. simpl.
    rewrite sumf_aset, i32_small by flia. lia.
  - intros x y Hlt Hd. apply (P1 x y Hlt). unfold raise. destruct (Z.eqb_spec x p); lia.
  - exact P2.
Qed.

(** [modify] is cancel-and-resubmit on the same side: with a valid new
    price and quantity it succeeds and tracks the new order; with an invalid
    one it reports failure, but the original order is already cancelled. *)
Lemma flat_modify_cancels_first b id r p q :
  flat_ok n b -> orders_by_id_ b !! id = Some r ->
  if bad_input n p q then
    modify n b id p q = ((cancel n b id).1, false) /\
    orders_by_id_ (modify n b id p q).1 !! id = None
  else
    level_fits (cancel n b id).1 p q (ref_is_buy r) = true ->
    (modify n b id p q).2 = true /\ flat_ok n (modify n b id p q).1 /\
    orders_by_id_ (modify n b id p q).1 !! id = Some (mkOrderRef p q (ref_is_buy r)).
Proof.
  intros Hok E. pose proof (cancel_correct n b id r Hok E) as C. pose proof (cancel_ok b id Hok) as Hok'.
  unfold modify. rewrite E. destruct (cancel n b id) as [b1 ok1]. cbn [fst] in *.
  destruct C as (_ & _ & _ & D & _).
  assert (N : orders_by_id_ b1 !! id = None) by (rewrite D; apply lookup_delete_eq).
  destruct (bad_input n p q) eqn:Hg.
  - unfold submit_with_id. by rewrite Hg.
  - intros Hf. unfold level_fits in Hf. bsplit.
    pose proof (submit_correct n b1 id p q (ref_is_buy r) Hok' Hg N Hf) as S.
    destruct (submit_with_id n b1 id p q (ref_is_buy r)) as [b2 ok2].
    destruct S as (-> & F & _ & O). cbn [fst snd]. rewrite O, lookup_insert_eq. done.
Qed.

(** [cancel] of a tracked order lowers its level by the order's quantity,
    capped at what the level still holds, on its own side only, and keeps the
    invariant, the trade count and every other tracked order; an unknown id
    changes nothing. *)
Lemma flat_cancel_effect b id :
  flat_ok n b ->
  match orders_by_id_ b !! id with
  | None => cancel n b id = (b, false)
  | Some r =>
      let b' := (cancel n b id).1 in
      (cancel n b id).2 = true /\ flat_ok n b' /\ trades_ b' = trades_ b /\
      orders_by_id_ b' = delete id (orders_by_id_ b) /\
      forall x,
        bid_qty_at n b' x = (if ref_is_buy r then cut (bid_qty_at n b) r x else bid_qty_at n b x) /\
        ask_qty_at n b' x = (if ref_is_buy r then ask_qty_at n b x else cut (ask_qty_at n b) r x)
  end.
Proof.
  intros Hok. destruct (orders_by_id_ b !! id) as [r|] eqn:E.
  - pose proof (cancel_correct n b id r Hok E) as C. cbv zeta. destruct (cancel n b id) as [b' ok].
    cbn [fst snd]. destruct C as (-> & F & T & O & A). do 4 (split; [done|]).
    intros x. destruct (A x) as [A1 A2]. by destruct (ref_is_buy r).
  - unfold cancel. by rewrite E.
Qed.
End flat_properties.

(** ** The properties at concrete books (64 levels) *)

Definition demo_book : FlatOrderBook :=
  (exec_op 1 (exec_op 1 (exec_op 1 (empty_book 1) (OpSell 20 5)).1 (OpSubmit 7 12 4 true)).1 (OpBuy 10 9)).1.

Lemma demo_book_ok : flat_ok 1 demo_book.
Proof. repeat (apply exec_op_ok; [|by vm_compute]). apply empty_book_ok. Qed.

Lemma flat_add_refines_witness :
  exists k, settles (mkAbook (raise (bid_qty_at 1 demo_book) 25 7) (ask_qty_at 1 demo_book))
                    (abs 1 (add_buy 1 demo_book 25 7).1) k.
Proof.
  destruct (flat_add_refines 1 demo_book 25 7 demo_book_ok eq_refl ltac:(by vm_compute) ltac:(by vm_compute))
    as [(k & _ & _ & S & _) _]. by exists k.
Defined.

Lemma flat_reachable_ok_witness :
  flat_ok 1 (add_buy 1 (empty_book 1) 25 7).1.
Proof.
  apply (flat_reachable_ok 1).
  apply (reach_op 1 (empty_book 1) (OpBuy 25 7)); [constructor|by vm_compute].
Defined.

Lemma flat_scans_exact_witness :
  match scan_down (bid_bits_ demo_book) 15 with
  | -1 => forall p, 0 <= p <= 15 -> occ (bid_bits_ demo_book) p = false
  | r => 0 <= r <= 15 /\ occ (bid_bits_ demo_book) r = true /\
         forall p, r < p <= 15 -> occ (bid_bits_ demo_book) p = false
  end.
Proof.
  refine (proj1 (flat_scans_exact 1 (bid_bits_ demo_book) 15 _ _)).
  - split; [by vm_compute|]. apply Forall_singleton. vm_compute. by split.
  - vm_compute. by split.
Defined.

Lemma flat_match_conserves_prioritises_witness :
  net_qty (add_buy 1 demo_book 25 7).1 = net_qty demo_book + 7.
Proof.
  refine (proj1 (flat_match_conserves_prioritises 1 demo_book 25 7 demo_book_ok _ _)); [done|by vm_compute].
Defined.

Lemma flat_modify_cancels_first_witness :
  modify 1 demo_book 7 99 4 = ((cancel 1 demo_book 7).1, false) /\
  orders_by_id_ (modify 1 demo_book 7 99 4).1 !! 7 = None.
Proof. apply (flat_modify_cancels_first 1 demo_book 7 (mkOrderRef 12 4 true) 99 4); [apply demo_book_ok|done]. Defined.

Lemma flat_cancel_effect_witness :
  orders_by_id_ (cancel 1 demo_book 7).1 = delete 7 (orders_by_id_ demo_book).
Proof. apply (flat_cancel_effect 1 demo_book 7 demo_book_ok). Defined.
