(* ===== verification/Spsc.v ===== *)
(** * Spsc: the single-producer single-consumer ring

    [lockfree/spsc_queue.hpp].  The class is given twice: as the sequential
    functions [push], [pop], [size] ..., and as two threads whose atomic loads,
    stores and buffer accesses interleave step by step.  Steps interleave
    sequentially consistently; each load of the other side's counter is the
    acquire of the release store it reads, so the counter it sees is one the
    other thread published, which is what the interleaving gives it.

    [SIZE] is [2 ^ k], the power of two the class asserts. *)
From S2P Require Import Prelude.

Section spsc.
Context {T : Type} (k : nat).

Definition SIZE : Z := 2 ^ Z.of_nat k.

Record SPSCQueue := mkSpsc { buffer_ : list T; head_ : Z; tail_ : Z }.
#[local] Instance eta_spsc : Settable SPSCQueue := fun q => mkSpsc (buffer_ q) (head_ q) (tail_ q).

(** [(i + 1) & (SIZE - 1)] *)
Definition next_slot (i : Z) : Z := Z.land (i + 1) (SIZE - 1).
Definition put_slot (q : SPSCQueue) (i : Z) (x : T) : SPSCQueue :=
  q <| buffer_ ::= <[Z.to_nat i := x]> |>.
Definition get_slot (q : SPSCQueue) (i : Z) : option T := buffer_ q !! Z.to_nat i.

Definition push (q : SPSCQueue) (item : T) : SPSCQueue * bool :=
  let h := head_ q in
  let next := next_slot h in
  if next =? tail_ q then (q, false)
  else (put_slot q h item <| head_ := next |>, true).

(** The popped value; [None] is the code's [false]. *)
Definition pop (q : SPSCQueue) : SPSCQueue * option T :=
  let t := tail_ q in
  if t =? head_ q then (q, None)
  else (q <| tail_ := next_slot t |>, get_slot q t).

Definition empty (q : SPSCQueue) : bool := tail_ q =? head_ q.
Definition full (q : SPSCQueue) : bool := next_slot (head_ q) =? tail_ q.
Definition size (q : SPSCQueue) : Z := Z.land (head_ q - tail_ q) (SIZE - 1).
Definition capacity : Z := SIZE - 1.

(** ** The two threads

    The producer's program counter inside [push], the consumer's inside
    [pop]; [sent] and [recv] log the items whose [push] and [pop] completed. *)
Inductive producer :=
| P_idle
| P_loaded (item : T) (h : Z)            (* own counter loaded *)
| P_write (item : T) (h next : Z)        (* ring seen not full *)
| P_publish (item : T) (h next : Z).     (* slot written *)
Inductive consumer :=
| C_idle
| C_loaded (t : Z)
| C_read (t : Z)                         (* ring seen not empty *)
| C_publish (t : Z) (v : T).             (* slot read *)

Record config := mkConfig {
  ring : SPSCQueue; prod : producer; cons_ : consumer; sent : list T; recv : list T
}.

Inductive step : config -> config -> Prop :=
| push_load item q c s r :
    step (mkConfig q P_idle c s r) (mkConfig q (P_loaded item (head_ q)) c s r)
| push_full item h q c s r :
    next_slot h = tail_ q ->
    step (mkConfig q (P_loaded item h) c s r) (mkConfig q P_idle c s r)
| push_room item h q c s r :
    next_slot h <> tail_ q ->
    step (mkConfig q (P_loaded item h) c s r) (mkConfig q (P_write item h (next_slot h)) c s r)
| push_write item h next q c s r :
    step (mkConfig q (P_write item h next) c s r)
         (mkConfig (put_slot q h item) (P_publish item h next) c s r)
| push_store item h next q c s r :
    step (mkConfig q (P_publish item h next) c s r)
         (mkConfig (q <| head_ := next |>) P_idle c (s ++ [item]) r)
| pop_load q p s r :
    step (mkConfig q p C_idle s r) (mkConfig q p (C_loaded (tail_ q)) s r)
| pop_empty t q p s r :
    t = head_ q -> step (mkConfig q p (C_loaded t) s r) (mkConfig q p C_idle s r)
| pop_some t q p s r :
    t <> head_ q -> step (mkConfig q p (C_loaded t) s r) (mkConfig q p (C_read t) s r)
| pop_read t v q p s r :
    get_slot q t = Some v -> step (mkConfig q p (C_read t) s r) (mkConfig q p (C_publish t v) s r)
| pop_store t v q p s r :
    step (mkConfig q p (C_publish t v) s r)
         (mkConfig (q <| tail_ := next_slot t |>) p C_idle s (r ++ [v])).

Definition initial (buf : list T) : config := mkConfig (mkSpsc buf 0 0) P_idle C_idle [] [].

(** ** Ring arithmetic: slots are the items' indices modulo [SIZE] *)

Definition slot (i : nat) : Z := Z.of_nat i mod SIZE.

Lemma SIZE_pos : 0 < SIZE.
Proof. unfold SIZE. apply Z.pow_pos_nonneg; lia. Qed.
#[local] Hint Resolve SIZE_pos : hft.

Lemma land_SIZE i : Z.land i (SIZE - 1) = i mod SIZE.
Proof.
  unfold SIZE. rewrite Z.sub_1_r, <- Z.ones_equiv. apply Z.land_ones. lia.
Qed.
Lemma slot_range i : 0 <= slot i < SIZE.
Proof. apply Z.mod_pos_bound, SIZE_pos. Qed.
Lemma next_slot_succ i : next_slot (slot i) = slot (S i).
Proof. unfold next_slot, slot. rewrite land_SIZE, Zplus_mod_idemp_l. f_equal. lia. Qed.

(** Two indices closer than [SIZE] share a slot only when they are equal. *)
Lemma slot_inj i j :
  (i <= j)%nat -> Z.of_nat j - Z.of_nat i < SIZE -> slot i = slot j -> i = j.
Proof.
  unfold slot. intros Hle Hlt E. pose proof SIZE_pos.
  pose proof (Z.div_mod (Z.of_nat i) SIZE ltac:(lia)) as Di.
  pose proof (Z.div_mod (Z.of_nat j) SIZE ltac:(lia)) as Dj.
  rewrite E in Di. apply Nat2Z.inj.
  assert (Z.of_nat j / SIZE = Z.of_nat i / SIZE); [|congruence].
  assert (SIZE * (Z.of_nat j / SIZE - Z.of_nat i / SIZE) < SIZE) by lia.
  assert (0 <= SIZE * (Z.of_nat j / SIZE - Z.of_nat i / SIZE)) by lia. nia.
Qed.

(** ** The invariant of the interleaved execution *)

(** The ring holds the items sent and not yet received, in order. *)
Record ring_ok (q : SPSCQueue) (s r : list T) : Prop := {
  ring_len : Z.of_nat (length (buffer_ q)) = SIZE;
  ring_head : head_ q = slot (length s);
  ring_tail : tail_ q = slot (length r);
  ring_prefix : r `prefix_of` s;
  ring_count : Z.of_nat (length s) - Z.of_nat (length r) <= capacity;
  ring_items : forall i, (length r <= i < length s)%nat -> get_slot q (slot i) = s !! i
}.

(** What each thread knows at its program counter, stable under the steps of
    the other thread. *)
Definition producer_ok (q : SPSCQueue) (s r : list T) (p : producer) : Prop :=
  match p with
  | P_idle => True
  | P_loaded _ h => h = slot (length s)
  | P_write _ h next =>
      h = slot (length s) /\ next = slot (S (length s)) /\
      Z.of_nat (length s) - Z.of_nat (length r) < capacity
  | P_publish item h next =>
      h = slot (length s) /\ next = slot (S (length s)) /\
      Z.of_nat (length s) - Z.of_nat (length r) < capacity /\ get_slot q h = Some item
  end.
Definition consumer_ok (s r : list T) (c : consumer) : Prop :=
  match c with
  | C_idle => True
  | C_loaded t => t = slot (length r)
  | C_read t => t = slot (length r) /\ (length r < length s)%nat
  | C_publish t v => t = slot (length r) /\ s !! length r = Some v
  end.
Definition config_ok (c : config) : Prop :=
  ring_ok (ring c) (sent c) (recv c) /\
  producer_ok (ring c) (sent c) (recv c) (prod c) /\ consumer_ok (sent c) (recv c) (cons_ c).

Lemma prefix_length_le (s r : list T) : r `prefix_of` s -> (length r <= length s)%nat.
Proof. apply prefix_length. Qed.

Lemma full_iff q s r :
  ring_ok q s r ->
  next_slot (head_ q) = tail_ q <-> Z.of_nat (length s) - Z.of_nat (length r) = capacity.
Proof.
  intros [Hl Hh Ht Hp Hc _]. unfold capacity in *. pose proof (prefix_length_le _ _ Hp).
  rewrite Hh, Ht, next_slot_succ. split.
  - intros E. destruct (Z.eq_dec (Z.of_nat (length s) - Z.of_nat (length r)) (SIZE - 1)) as [|N]; [done|].
    symmetry in E. apply slot_inj in E; lia.
  - intros E. unfold slot. replace (Z.of_nat (S (length s))) with (Z.of_nat (length r) + 1 * SIZE) by lia.
    apply Z_mod_plus_full.
Qed.

Lemma empty_iff q s r : ring_ok q s r -> tail_ q = head_ q <-> length s = length r.
Proof.
  intros [Hl Hh Ht Hp Hc _]. unfold capacity in *. pose proof (prefix_length_le _ _ Hp).
  rewrite Hh, Ht. split; [intros E|by intros ->]. apply slot_inj in E; lia.
Qed.

Lemma get_put_eq q i x :
  0 <= i < Z.of_nat (length (buffer_ q)) -> get_slot (put_slot q i x) i = Some x.
Proof. intros H. unfold get_slot, put_slot. simpl. apply list_lookup_insert_eq. lia. Qed.
Lemma get_put_ne q i j x :
  0 <= i -> 0 <= j -> i <> j -> get_slot (put_slot q i x) j = get_slot q j.
Proof. intros. unfold get_slot, put_slot. simpl. apply list_lookup_insert_ne. lia. Qed.

(** Writing the producer's slot leaves every unread item in place. *)
Lemma write_ok q s r item :
  ring_ok q s r -> Z.of_nat (length s) - Z.of_nat (length r) < capacity ->
  ring_ok (put_slot q (slot (length s)) item) s r /\
  get_slot (put_slot q (slot (length s)) item) (slot (length s)) = Some item.
Proof.
  intros [Hl Hh Ht Hp Hc Hi] Hroom. pose proof (slot_range (length s)).
  unfold capacity in *. split; [split|].
  - simpl. by rewrite length_insert.
  - done.
  - done.
  - done.
  - done.
  - intros i Hir. rewrite get_put_ne; [by apply Hi|lia|apply slot_range|].
    intros E. symmetry in E. apply slot_inj in E; lia.
  - apply get_put_eq. lia.
Qed.

Lemma publish_ok q s r item :
  ring_ok q s r -> Z.of_nat (length s) - Z.of_nat (length r) < capacity ->
  get_slot q (slot (length s)) = Some item ->
  ring_ok (q <| head_ := slot (S (length s)) |>) (s ++ [item]) r.
Proof.
  intros [Hl Hh Ht Hp Hc Hi] Hroom Hg. split; simpl; try done.
  - rewrite length_app. simpl. f_equal. lia.
  - by apply prefix_app_r.
  - rewrite length_app. simpl. lia.
  - intros i. rewrite length_app. simpl. intros Hir.
    destruct (decide (i = length s)) as [->|N].
    + by rewrite lookup_app_r, Nat.sub_diag.
    + rewrite lookup_app_l by lia. apply Hi. lia.
Qed.

Lemma consume_ok q s r v :
  ring_ok q s r -> s !! length r = Some v ->
  ring_ok (q <| tail_ := slot (S (length r)) |>) s (r ++ [v]).
Proof.
  intros [Hl Hh Ht Hp Hc Hi] Hv. split; simpl; try done.
  - rewrite length_app. simpl. f_equal. lia.
  - destruct Hp as [w ->]. rewrite lookup_app_r, Nat.sub_diag in Hv by lia.
    destruct w as [|v' w]; simplify_eq/=. exists w. by rewrite <- app_assoc.
  - rewrite length_app. simpl. lia.
  - intros i. rewrite length_app. simpl. intros Hir. apply Hi. lia.
Qed.

Lemma step_ok c c' : step c c' -> config_ok c -> config_ok c'.
Proof.
  destruct 1 as [item q c s r|item h q c s r E|item h q c s r E|item h next q c s r|item h next q c s r
    |q p s r|t q p s r E|t q p s r E|t v q p s r E|t v q p s r];
    intros (R & P & C); unfold config_ok; simpl in *.
  - split; [done|split; [apply R|done]].
  - done.
  - split; [done|split; [|done]]. subst h. pose proof (full_iff _ _ _ R) as F.
    rewrite (ring_head _ _ _ R), next_slot_succ in F. rewrite next_slot_succ in *.
    split; [done|split; [done|]]. pose proof (ring_count _ _ _ R).
    destruct (Z.eq_dec (Z.of_nat (length s) - Z.of_nat (length r)) capacity); [|lia].
    by apply F in e.
  - destruct P as (-> & -> & Hroom). destruct (write_ok q s r item R Hroom). done.
  - destruct P as (-> & -> & Hroom & Hg). split; [by apply publish_ok|split; [done|]].
    destruct c; simpl in *; rewrite ?length_app; simpl; try done.
    + split; [tauto|lia].
    + destruct C as [-> C]. split; [done|]. rewrite lookup_app_l; [done|]. by eapply lookup_lt_Some.
  - split; [done|split; [done|apply R]].
  - done.
  - split; [done|split; [done|]]. split; [done|]. subst t.
    pose proof (empty_iff _ _ _ R) as F. rewrite <- (ring_tail _ _ _ R) in E.
    pose proof (prefix_length_le _ _ (ring_prefix _ _ _ R)).
    destruct (decide (length s = length r)) as [e|]; [|lia]. by apply F in e.
  - destruct C as [-> Hlt]. split; [done|split; [done|split; [done|]]].
    rewrite (ring_items _ _ _ R) in E by lia. done.
  - destruct C as [-> Hv]. rewrite next_slot_succ. split; [by apply consume_ok|split; [|done]].
    destruct p; simpl in *; rewrite ?length_app; simpl; try done; destruct P as (? & ? & ?); repeat split; lia || tauto.
Qed.

Lemma initial_ok buf : Z.of_nat (length buf) = SIZE -> config_ok (initial buf).
Proof.
  intros Hl. split; [|done]. pose proof SIZE_pos. split; simpl.
  - done.
  - unfold slot. by rewrite Z.mod_0_l by lia.
  - unfold slot. by rewrite Z.mod_0_l by lia.
  - done.
  - unfold capacity. lia.
  - intros i Hi. lia.
Qed.

Lemma reachable_ok buf c :
  Z.of_nat (length buf) = SIZE -> rtc step (initial buf) c -> config_ok c.
Proof.
  intros Hl. generalize (initial_ok buf Hl). generalize (initial buf). intros c0 H0 R.
  induction R as [|c0 c1 c S R IH]; [done|]. apply IH. by eapply step_ok.
Qed.

(** C29: under every interleaving of the producer's and the consumer's steps the
    ring is a bounded FIFO: what has been received is a prefix of what has been
    sent, and at most [capacity] items are in between. *)
Theorem spsc_fifo buf c :
  Z.of_nat (length buf) = SIZE -> rtc step (initial buf) c ->
  recv c `prefix_of` sent c /\
  Z.of_nat (length (sent c)) - Z.of_nat (length (recv c)) <= capacity.
Proof. intros Hl R. destruct (reachable_ok buf c Hl R) as ([] & _). done. Qed.

(** The slots a thread is about to access without synchronisation. *)
Definition writing (p : producer) : option Z :=
  match p with P_write _ h _ => Some h | _ => None end.
Definition reading (c : consumer) : option Z :=
  match c with C_read t => Some t | _ => None end.

(** the slot accesses never race: the producer never writes a slot that the
    consumer is about to read, and the consumer's read always finds an item,
    the oldest one not yet received. *)
Lemma spsc_race_free buf c :
  Z.of_nat (length buf) = SIZE -> rtc step (initial buf) c ->
  (forall h t, writing (prod c) = Some h -> reading (cons_ c) = Some t -> h <> t) /\
  (forall t, reading (cons_ c) = Some t ->
     exists v, get_slot (ring c) t = Some v /\ sent c !! length (recv c) = Some v).
Proof.
  intros Hl Hr. destruct (reachable_ok buf c Hl Hr) as (R & P & C).
  destruct c as [q p k' s r]. simpl in *. split.
  - intros h t Hw Hrd. destruct p, k'; simplify_eq/=.
    destruct P as (-> & _ & Hroom), C as (-> & Hlt). unfold capacity in Hroom.
    intros E. symmetry in E. apply slot_inj in E; lia.
  - intros t Hrd. destruct k'; simplify_eq/=. destruct C as (-> & Hlt).
    rewrite (ring_items _ _ _ R) by lia.
    destruct (lookup_lt_is_Some_2 s (length r) Hlt) as [v Hv]. by exists v.
Qed.

(** the sequential [push] and [pop] implement a bounded queue: [push]
    appends unless [capacity] items are pending, [pop] takes the oldest item
    unless none is, and [size], [empty] and [full] report the pending count. *)
Lemma spsc_sequential_queue q (s r : list T) item :
  ring_ok q s r ->
  let n := Z.of_nat (length s) - Z.of_nat (length r) in
  (if n =? capacity then push q item = (q, false)
   else (push q item).2 = true /\ ring_ok (push q item).1 (s ++ [item]) r) /\
  (match s !! length r with
   | None => pop q = (q, None)
   | Some v => (pop q).2 = Some v /\ ring_ok (pop q).1 s (r ++ [v])
   end) /\
  size q = n /\ empty q = (n =? 0) /\ full q = (n =? capacity).
Proof.
  intros R. cbv zeta. pose proof (full_iff _ _ _ R) as F. pose proof (empty_iff _ _ _ R) as Em.
  pose proof (prefix_length_le _ _ (ring_prefix _ _ _ R)) as Hle. pose proof (ring_count _ _ _ R) as Hc.
  set (n := Z.of_nat (length s) - Z.of_nat (length r)) in *. split; [|split; [|split; [|split]]].
  - unfold push. destruct (Z.eqb_spec (next_slot (head_ q)) (tail_ q)) as [E|N], (Z.eqb_spec n capacity); try tauto.
    split; [done|]. cbn [fst]. rewrite (ring_head _ _ _ R), next_slot_succ.
    destruct (write_ok q s r item R) as [R' Hg]; [lia|]. apply publish_ok; [done|lia|done].
  - unfold pop. destruct (Z.eqb_spec (tail_ q) (head_ q)) as [E|N].
    + rewrite (proj2 (lookup_ge_None _ _)); [done|]. apply Em in E. lia.
    + destruct (lookup_lt_is_Some_2 s (length r)) as [v Hv].
      { destruct (decide (length s = length r)) as [e|]; [|lia]. by apply Em in e. }
      rewrite Hv. cbn [fst snd]. rewrite (ring_tail _ _ _ R), next_slot_succ.
      split; [|by apply consume_ok]. rewrite (ring_items _ _ _ R); [done|].
      split; [done|]. by eapply lookup_lt_Some.
  - unfold size. rewrite land_SIZE, (ring_head _ _ _ R), (ring_tail _ _ _ R). unfold slot.
    rewrite <- Zminus_mod. apply Z.mod_small. unfold capacity in *. lia.
  - unfold empty. destruct (Z.eqb_spec (tail_ q) (head_ q)), (Z.eqb_spec n 0); tauto || (exfalso; lia).
  - unfold full. destruct (Z.eqb_spec (next_slot (head_ q)) (tail_ q)), (Z.eqb_spec n capacity); tauto.
Qed.
End spsc.

(** ** Concrete instances: a ring of four slots *)

Definition demo_ring : SPSCQueue (T := Z) := mkSpsc [10; 0; 0; 0] 1 0.
Lemma demo_ring_ok : ring_ok 2 demo_ring [10] [].
Proof. split; try done; [by exists [10]|]. intros [|i] Hi; simpl in *; [done|lia]. Qed.

Lemma spsc_fifo_witness :
  let c := mkConfig demo_ring P_idle C_idle [10] ([] : list Z) in
  recv c `prefix_of` sent c /\ Z.of_nat (length (sent c)) - Z.of_nat (length (recv c)) <= capacity 2.
Proof.
  apply (spsc_fifo 2 [0; 0; 0; 0]); [done|].
  eapply rtc_l; [apply (push_load 2 10)|]. eapply rtc_l; [by apply push_room|].
  eapply rtc_l; [apply push_write|]. eapply rtc_l; [apply push_store|]. apply rtc_refl.
Defined.

Lemma spsc_race_free_witness :
  let c := mkConfig (mkSpsc [10; 0; 0; 0] 1 0) (P_write 11 1 2) (C_read 0) [10] ([] : list Z) in
  1 <> 0 /\ exists v, get_slot (ring c) 0 = Some v /\ sent c !! length (recv c) = Some v.
Proof.
  intros c. unshelve refine (match spsc_race_free 2 [0; 0; 0; 0] c eq_refl _ with
    conj A B => conj (A 1 0 eq_refl eq_refl) (B 0 eq_refl) end).
  eapply rtc_l; [apply (push_load 2 10)|]. eapply rtc_l; [by apply push_room|].
  eapply rtc_l; [apply push_write|]. eapply rtc_l; [apply push_store|].
  eapply rtc_l; [apply (push_load 2 11)|]. eapply rtc_l; [by apply push_room|].
  eapply rtc_l; [apply pop_load|]. eapply rtc_l; [by apply pop_some|]. apply rtc_refl.
Defined.

Lemma spsc_sequential_queue_witness :
  (push 2 demo_ring 11).2 = true /\ ring_ok 2 (push 2 demo_ring 11).1 [10; 11] [].
Proof. exact (proj1 (spsc_sequential_queue 2 demo_ring [10] [] 11 demo_ring_ok)). Defined.
