(* ===== verification/Ring.v ===== *)
(** * Ring: an array read as a circle

    The slice of an array of [N] elements that starts at a position and runs
    clockwise, shared by the ring buffers of [Varlen] and [Common]. *)
From S2P Require Import Prelude.

Section ring.
Context (N : Z).

(** [n] elements clockwise from position [pos]. *)
Definition ring_slice (buf : list Z) (pos n : Z) : list Z :=
  (fun i => aget buf ((pos + i) mod N)) <$> seqZ 0 n.

Lemma length_ring_slice buf pos n : 0 <= n -> alen (ring_slice buf pos n) = n.
Proof. intros. unfold alen, ring_slice. rewrite length_fmap, length_seqZ. lia. Qed.

Lemma lookup_ring_slice buf pos n i :
  0 <= i < n -> ring_slice buf pos n !! Z.to_nat i = Some (aget buf ((pos + i) mod N)).
Proof.
  intros H. unfold ring_slice. rewrite list_lookup_fmap, lookup_seqZ_lt by lia.
  simpl. do 3 f_equal. lia.
Qed.

Lemma ring_slice_app buf pos n m :
  0 <= n -> 0 <= m -> ring_slice buf pos (n + m) = ring_slice buf pos n ++ ring_slice buf (pos + n) m.
Proof.
  intros Hn Hm. unfold ring_slice. rewrite seqZ_app, fmap_app by lia. f_equal.
  rewrite Z.add_0_l. apply list_eq. intros i. rewrite !list_lookup_fmap.
  destruct (decide (Z.of_nat i < m)) as [L|G].
  - rewrite !lookup_seqZ_lt by lia. simpl. do 3 f_equal. lia.
  - rewrite !lookup_seqZ_ge by lia. done.
Qed.

Lemma ring_slice_mod buf pos n : ring_slice buf (pos mod N) n = ring_slice buf pos n.
Proof. unfold ring_slice. apply list_fmap_ext. intros. by rewrite Zplus_mod_idemp_l. Qed.

Lemma ring_slice_ext buf buf' pos n :
  (forall i, 0 <= i < n -> aget buf ((pos + i) mod N) = aget buf' ((pos + i) mod N)) ->
  ring_slice buf pos n = ring_slice buf' pos n.
Proof.
  intros H. unfold ring_slice. apply list_fmap_ext. intros i x Hx. apply H.
  apply lookup_seqZ in Hx. lia.
Qed.

(** Writing one element changes a slice only where the slice holds it. *)
Lemma ring_slice_aset_out buf pos n i v :
  0 < N -> alen buf = N -> 0 <= n -> n <= i < N ->
  ring_slice (aset buf ((pos + i) mod N) v) pos n = ring_slice buf pos n.
Proof.
  intros HN Hb Hn Hi. apply ring_slice_ext. intros j Hj.
  apply aget_aset_ne; try (apply Z.mod_pos_bound; lia). intros E.
  assert (((pos + i) - (pos + j)) mod N = 0) as M.
  { rewrite Zminus_mod, E, Z.sub_diag. done. }
  replace (pos + i - (pos + j)) with (i - j) in M by lia. rewrite Z.mod_small in M by lia. lia.
Qed.
End ring.
Arguments length_ring_slice {N}.
Arguments lookup_ring_slice {N}.
Arguments ring_slice_app {N}.
Arguments ring_slice_mod {N}.
Arguments ring_slice_ext {N}.
Arguments ring_slice_aset_out {N}.
