(* ===== verification/Varlen.v ===== *)
(** * Varlen: the variable-length message ring

    [lockfree/varlen_ring.hpp]: a byte ring of [SIZE = 2 ^ k] bytes in which a
    record is a 4-byte length in native (little-endian) order followed by the
    payload, each copied in one or two pieces around the end of the buffer.
    The calls of [write] and [read] are modelled as atomic; the two counters
    follow the same release/acquire discipline as the ring of [Spsc]. *)
From S2P Require Import Prelude Ring.

Record VarlenRingBuffer := mkVarlen { vbuffer_ : list Z; vhead_ : Z; vtail_ : Z }.
#[export] Instance eta_varlen : Settable VarlenRingBuffer := fun q =>
  mkVarlen (vbuffer_ q) (vhead_ q) (vtail_ q).

Section varlen.
Context (k : nat).

Definition SIZE : Z := 2 ^ Z.of_nat k.
Definition HDR : Z := 4.
Definition MASK : Z := SIZE - 1.

Definition free_space (h t : Z) : Z := Z.land (t - h - 1) MASK.
Definition available (h t : Z) : Z := Z.land (h - t) MASK.

(** [memcpy] of [src] over an array at [pos], and of [n] bytes out of it. *)
Definition copy_in (buf : list Z) (pos : Z) (src : list Z) : list Z :=
  take (Z.to_nat pos) buf ++ src ++ drop (Z.to_nat pos + length src) buf.
Definition copy_out (buf : list Z) (pos n : Z) : list Z :=
  take (Z.to_nat n) (drop (Z.to_nat pos) buf).

Definition write_at (buf : list Z) (pos : Z) (src : list Z) : list Z :=
  if pos + alen src <=? SIZE then copy_in buf pos src
  else
    let first := SIZE - pos in
    copy_in (copy_in buf pos (take (Z.to_nat first) src)) 0 (drop (Z.to_nat first) src).
Definition read_at (buf : list Z) (pos n : Z) : list Z :=
  if pos + n <=? SIZE then copy_out buf pos n
  else
    let first := SIZE - pos in
    copy_out buf pos first ++ copy_out buf 0 (n - first).

(** A [uint32_t] in native byte order. *)
Definition len_bytes (len : Z) : list Z :=
  [len mod 256; len / 256 mod 256; len / 65536 mod 256; len / 16777216 mod 256].
Definition bytes_len (bs : list Z) : Z :=
  aget bs 0 + 256 * aget bs 1 + 65536 * aget bs 2 + 16777216 * aget bs 3.

Definition write (q : VarlenRingBuffer) (payload : list Z) : VarlenRingBuffer * bool :=
  let len := alen payload in
  if (len =? 0) || (SIZE - 1 <? len + HDR) then (q, false) else
  let h := vhead_ q in
  let t := vtail_ q in
  if free_space h t <? len + HDR then (q, false) else
  let buf := write_at (vbuffer_ q) h (len_bytes len) in
  let buf := write_at buf (Z.land (h + HDR) MASK) payload in
  (q <| vbuffer_ := buf |> <| vhead_ := Z.land (h + HDR + len) MASK |>, true).

(** The payload read; its length is the code's result, so [[]] is 0. *)
Definition read (q : VarlenRingBuffer) (max_len : Z) : VarlenRingBuffer * list Z :=
  let t := vtail_ q in
  let h := vhead_ q in
  if available h t <? HDR then (q, []) else
  let len := bytes_len (read_at (vbuffer_ q) t HDR) in
  if (len =? 0) || (available h t <? HDR + len) then (q, []) else
  if max_len <? len then (q, []) else
  let out := read_at (vbuffer_ q) (Z.land (t + HDR) MASK) len in
  (q <| vtail_ := Z.land (t + HDR + len) MASK |>, out).

Definition empty (q : VarlenRingBuffer) : bool := vtail_ q =? vhead_ q.
Definition bytes_used (q : VarlenRingBuffer) : Z := available (vhead_ q) (vtail_ q).
Definition capacity : Z := SIZE - 1.
Definition new_ring : VarlenRingBuffer := mkVarlen (replicate (Z.to_nat SIZE) 0) 0 0.

(** ** The buffer as a circle of bytes *)

Lemma ring_SIZE_pos : 0 < SIZE.
Proof. unfold SIZE. apply Z.pow_pos_nonneg; lia. Qed.
Lemma land_MASK i : Z.land i MASK = i mod SIZE.
Proof. unfold MASK, SIZE. rewrite Z.sub_1_r, <- Z.ones_equiv. apply Z.land_ones. lia. Qed.

(** [n] bytes clockwise from position [pos]. *)
#[local] Abbreviation ring_bytes := (ring_slice SIZE).

Lemma aget_copy_in buf pos src j :
  0 <= pos -> pos + alen src <= alen buf -> 0 <= j ->
  aget (copy_in buf pos src) j =
  if (pos <=? j) && (j <? pos + alen src) then aget src (j - pos) else aget buf j.
Proof.
  unfold aget, copy_in, alen. intros Hp Hl Hj.
  destruct (Z.leb_spec pos j) as [L|L]; simpl; [destruct (Z.ltb_spec j (pos + Z.of_nat (length src))) as [L'|L']|].
  - rewrite lookup_app_r by (rewrite length_take; lia). rewrite length_take.
    rewrite lookup_app_l by lia. do 2 f_equal. lia.
  - rewrite lookup_app_r by (rewrite length_take; lia). rewrite length_take.
    rewrite lookup_app_r by lia. rewrite lookup_drop. do 2 f_equal. lia.
  - rewrite lookup_app_l by (rewrite length_take; lia). by rewrite lookup_take_lt by lia.
Qed.

Lemma alen_copy_in buf pos src :
  0 <= pos -> pos + alen src <= alen buf -> alen (copy_in buf pos src) = alen buf.
Proof. unfold alen, copy_in. intros. rewrite !length_app, length_take, length_drop. lia. Qed.

Lemma alen_take (l : list Z) n : 0 <= n <= alen l -> alen (take (Z.to_nat n) l) = n.
Proof. unfold alen. intros. rewrite length_take. lia. Qed.
Lemma alen_drop (l : list Z) n : 0 <= n <= alen l -> alen (drop (Z.to_nat n) l) = alen l - n.
Proof. unfold alen. intros. rewrite length_drop. lia. Qed.
Lemma aget_take (l : list Z) n i : 0 <= i < n -> aget (take (Z.to_nat n) l) i = aget l i.
Proof. intros. unfold aget. by rewrite lookup_take_lt by lia. Qed.
Lemma aget_drop (l : list Z) n i : 0 <= n -> 0 <= i -> aget (drop (Z.to_nat n) l) i = aget l (n + i).
Proof. intros. unfold aget. rewrite lookup_drop. do 2 f_equal. lia. Qed.

Lemma alen_write_at buf pos src :
  alen buf = SIZE -> 0 <= pos < SIZE -> alen src <= SIZE -> alen (write_at buf pos src) = SIZE.
Proof.
  intros Hb Hp Hs. pose proof (alen_nonneg src).
  unfold write_at. destruct (Z.leb_spec (pos + alen src) SIZE).
  - rewrite alen_copy_in; lia.
  - rewrite !alen_copy_in; rewrite ?alen_copy_in; rewrite ?alen_take, ?alen_drop; lia.
Qed.

(** Both copies together write [src] clockwise from [pos] and nothing else. *)
Lemma aget_write_at buf pos src i :
  alen buf = SIZE -> 0 <= pos < SIZE -> alen src <= SIZE -> 0 <= i < SIZE ->
  aget (write_at buf pos src) ((pos + i) mod SIZE) =
  if i <? alen src then aget src i else aget buf ((pos + i) mod SIZE).
Proof.
  intros Hb Hp Hs Hi.
  assert (E : (pos + i) mod SIZE = if pos + i <? SIZE then pos + i else pos + i - SIZE).
  { destruct (Z.ltb_spec (pos + i) SIZE); [apply Z.mod_small; lia|].
    symmetry. apply (Z.mod_unique _ _ 1); lia. }
  rewrite E. unfold write_at. destruct (Z.leb_spec (pos + alen src) SIZE).
  - rewrite aget_copy_in by (destruct (Z.ltb_spec (pos + i) SIZE); lia).
    destruct (Z.ltb_spec (pos + i) SIZE), (Z.ltb_spec i (alen src)); try lia.
    + replace (_ && _) with true by lia. f_equal. lia.
    + replace (_ && _) with false by lia. done.
    + replace (_ && _) with false by lia. done.
  - pose proof (alen_take src (SIZE - pos)) as T. pose proof (alen_drop src (SIZE - pos)) as D.
    pose proof (alen_copy_in buf pos (take (Z.to_nat (SIZE - pos)) src)) as C.
    rewrite T in C by lia.
    assert (0 <= if pos + i <? SIZE then pos + i else pos + i - SIZE)
      by (destruct (Z.ltb_spec (pos + i) SIZE); lia).
    rewrite aget_copy_in by (rewrite ?C, ?D; lia). rewrite D by lia.
    rewrite aget_copy_in by (rewrite ?T; lia). rewrite T by lia.
    destruct (Z.ltb_spec (pos + i) SIZE), (Z.ltb_spec i (alen src)); try lia.
    + replace ((0 <=? pos + i) && _) with false by lia. replace (_ && _) with true by lia.
      rewrite aget_take by lia. f_equal. lia.
    + replace (_ && _) with true by lia. rewrite aget_drop by lia. f_equal. lia.
    + replace ((0 <=? pos + i - SIZE) && _) with false by lia. replace (_ && _) with false by lia. done.
Qed.

Lemma read_at_bytes buf pos n :
  alen buf = SIZE -> 0 <= pos < SIZE -> 0 <= n <= SIZE -> read_at buf pos n = ring_bytes buf pos n.
Proof.
  intros Hb Hp Hn. unfold read_at.
  assert (C : forall p m, 0 <= p -> 0 <= m -> p + m <= SIZE -> copy_out buf p m = ring_bytes buf p m).
  { intros p m H1 H2 H3. apply list_eq. intros i. unfold copy_out.
    destruct (decide (Z.of_nat i < m)) as [L|G].
    - pose proof (lookup_ring_slice (N := SIZE) buf p m (Z.of_nat i)) as R. rewrite Nat2Z.id in R. rewrite R by lia.
      rewrite lookup_take_lt by lia. rewrite lookup_drop, Z.mod_small by lia.
      unfold aget, alen in *. replace (Z.to_nat p + i)%nat with (Z.to_nat (p + Z.of_nat i)) by lia.
      destruct (lookup_lt_is_Some_2 buf (Z.to_nat (p + Z.of_nat i))) as [x ->]; [lia|done].
    - pose proof (length_ring_slice (N := SIZE) buf p m). unfold alen in *.
      transitivity (@None Z); [|symmetry]; apply lookup_ge_None_2; rewrite ?length_take; lia. }
  destruct (Z.leb_spec (pos + n) SIZE); [apply C; lia|]. rewrite !C by lia.
  replace n with ((SIZE - pos) + (n - (SIZE - pos))) at 2 by lia.
  rewrite ring_slice_app by lia. f_equal.
  rewrite <- (ring_slice_mod (N := SIZE) _ (pos + (SIZE - pos))). replace (pos + (SIZE - pos)) with (0 + 1 * SIZE) by lia.
  by rewrite Z_mod_plus_full, Z.mod_0_l by lia.
Qed.

Lemma ring_bytes_write buf pos src :
  alen buf = SIZE -> 0 <= pos < SIZE -> alen src <= SIZE ->
  ring_bytes (write_at buf pos src) pos (alen src) = src.
Proof.
  intros Hb Hp Hs. apply list_eq. intros i.
  destruct (decide (Z.of_nat i < alen src)) as [L|G].
  - pose proof (lookup_ring_slice (N := SIZE) (write_at buf pos src) pos (alen src) (Z.of_nat i)) as R.
    rewrite Nat2Z.id in R. rewrite R by lia. rewrite aget_write_at by lia.
    destruct (Z.ltb_spec (Z.of_nat i) (alen src)); [|lia]. unfold aget, alen in *. rewrite Nat2Z.id.
    destruct (lookup_lt_is_Some_2 src i) as [x ->]; [lia|done].
  - pose proof (length_ring_slice (N := SIZE) (write_at buf pos src) pos (alen src)). unfold alen in *.
    transitivity (@None Z); [|symmetry]; apply lookup_ge_None_2; lia.
Qed.

(** ** The ring as a queue of messages *)

Definition frame (m : list Z) : list Z := len_bytes (alen m) ++ m.
Definition msg_ok (m : list Z) : Prop := 1 <= alen m /\ alen m + HDR <= capacity.

Record ring_ok (q : VarlenRingBuffer) (msgs : list (list Z)) : Prop := {
  vr_len : alen (vbuffer_ q) = SIZE;
  vr_head : 0 <= vhead_ q < SIZE;
  vr_tail : 0 <= vtail_ q < SIZE;
  vr_msgs : Forall msg_ok msgs;
  vr_bytes : ring_bytes (vbuffer_ q) (vtail_ q) (bytes_used q) = concat (frame <$> msgs)
}.

Lemma alen_frame m : alen (frame m) = HDR + alen m.
Proof. unfold frame. by rewrite alen_app. Qed.

Lemma bytes_len_frame len rest :
  0 <= len < 2 ^ 32 -> bytes_len (take 4 (len_bytes len ++ rest)) = len.
Proof.
  intros H. unfold len_bytes, bytes_len, aget. simpl.
  Z.div_mod_to_equations. lia.
Qed.

(** Used and free space partition the [SIZE - 1] usable bytes. *)
Lemma used_free q :
  0 <= vhead_ q < SIZE -> 0 <= vtail_ q < SIZE ->
  0 <= bytes_used q /\ bytes_used q + free_space (vhead_ q) (vtail_ q) = capacity /\
  vhead_ q = (vtail_ q + bytes_used q) mod SIZE.
Proof.
  intros Hh Ht. unfold bytes_used, available, free_space, capacity. rewrite !land_MASK.
  rewrite Zplus_mod_idemp_r. replace (vtail_ q + (vhead_ q - vtail_ q)) with (vhead_ q) by lia.
  rewrite (Z.mod_small (vhead_ q)) by lia. pose proof ring_SIZE_pos.
  destruct (Z_lt_le_dec (vhead_ q) (vtail_ q)).
  - rewrite <- (Z.mod_unique (vhead_ q - vtail_ q) SIZE (-1) (vhead_ q - vtail_ q + SIZE)) by lia.
    rewrite (Z.mod_small (_ - 1)) by lia. lia.
  - rewrite (Z.mod_small (vhead_ q - vtail_ q)) by lia.
    rewrite <- (Z.mod_unique (vtail_ q - vhead_ q - 1) SIZE (-1) (vtail_ q - vhead_ q - 1 + SIZE)) by lia. lia.
Qed.

(** Writing a frame at the head appends its bytes to the used region. *)
Lemma frame_written buf pos m :
  alen buf = SIZE -> 0 <= pos < SIZE -> alen m + HDR <= SIZE ->
  let buf' := write_at (write_at buf pos (len_bytes (alen m))) ((pos + HDR) mod SIZE) m in
  alen buf' = SIZE /\ ring_bytes buf' pos (HDR + alen m) = frame m /\
  forall i, HDR + alen m <= i < SIZE -> aget buf' ((pos + i) mod SIZE) = aget buf ((pos + i) mod SIZE).
Proof.
  intros Hb Hp Hm. cbv zeta. pose proof ring_SIZE_pos.
  assert (L4 : alen (len_bytes (alen m)) = HDR) by done. unfold HDR in *.
  assert (0 <= alen m) by (unfold alen; lia).
  assert (P : 0 <= (pos + 4) mod SIZE < SIZE) by (apply Z.mod_pos_bound; lia).
  set (b1 := write_at buf pos _). assert (Hb1 : alen b1 = SIZE) by (apply alen_write_at; lia).
  set (b2 := write_at b1 _ m). assert (Hb2 : alen b2 = SIZE) by (apply alen_write_at; lia).
  assert (Same : forall i, 0 <= i < SIZE -> (i < 4 \/ 4 + alen m <= i) ->
                 aget b2 ((pos + i) mod SIZE) = aget b1 ((pos + i) mod SIZE)).
  { intros i Hi Hd. unfold b2.
    pose (j := if i <? 4 then i - 4 + SIZE else i - 4).
    assert (0 <= j < SIZE /\ alen m <= j) as [Hj Hj'] by (unfold j; destruct (Z.ltb_spec i 4); lia).
    assert (E : (pos + i) mod SIZE = ((pos + 4) mod SIZE + j) mod SIZE).
    { rewrite Zplus_mod_idemp_l. unfold j. destruct (Z.ltb_spec i 4); [|f_equal; lia].
      replace (pos + 4 + (i - 4 + SIZE)) with (pos + i + 1 * SIZE) by lia. by rewrite Z_mod_plus_full. }
    rewrite E, aget_write_at by lia. destruct (Z.ltb_spec j (alen m)); [lia|done]. }
  split; [done|split].
  - rewrite ring_slice_app by lia. unfold frame. f_equal.
    + rewrite (ring_slice_ext b2 b1) by (intros; apply Same; lia). by apply ring_bytes_write; lia.
    + rewrite <- ring_slice_mod. by apply ring_bytes_write; lia.
  - intros i Hi. rewrite Same by lia. unfold b1. rewrite aget_write_at by lia.
    rewrite L4. destruct (Z.ltb_spec i 4); [lia|done].
Qed.

Lemma new_ring_ok : ring_ok new_ring [].
Proof.
  pose proof ring_SIZE_pos. split; simpl; try lia.
  - unfold alen, new_ring. simpl. rewrite length_replicate. lia.
  - constructor.
  - done.
Qed.

Lemma varlen_write_ok q msgs m :
  ring_ok q msgs -> msg_ok m -> HDR + alen m <= free_space (vhead_ q) (vtail_ q) ->
  (write q m).2 = true /\ ring_ok (write q m).1 (msgs ++ [m]).
Proof.
  intros [Hl Hh Ht Hm Hb] [M1 M2] Hf. pose proof ring_SIZE_pos. unfold capacity in *.
  destruct (used_free q Hh Ht) as (U0 & U1 & U2). unfold capacity in U1.
  unfold write. replace (_ || _) with false by lia. replace (_ <? _) with false by lia.
  split; [done|]. cbn [fst]. rewrite !land_MASK.
  destruct (frame_written (vbuffer_ q) (vhead_ q) m Hl Hh) as (F1 & F2 & F3); [lia|].
  set (b2 := write_at _ _ m) in *.
  assert (U : bytes_used (q <| vbuffer_ := b2 |> <| vhead_ := (vhead_ q + HDR + alen m) mod SIZE |>)
              = bytes_used q + (HDR + alen m)).
  { unfold bytes_used, available in *. simpl. rewrite !land_MASK in *. rewrite Zminus_mod_idemp_l.
    rewrite <- Z.add_assoc, Z.add_sub_swap, <- Zplus_mod_idemp_l. unfold HDR in *. apply Z.mod_small. lia. }
  match type of U with bytes_used ?x = _ => change (ring_ok x (msgs ++ [m])); set (q' := x) in * end.
  split; [done|apply Z.mod_pos_bound; lia|done| |].
  - apply Forall_app. split; [done|]. by apply Forall_singleton.
  - change (vbuffer_ q') with b2. change (vtail_ q') with (vtail_ q).
    rewrite U, ring_slice_app, fmap_app, concat_app by (unfold HDR in *; lia). f_equal.
    + rewrite <- Hb. apply ring_slice_ext. intros i Hi.
      pose (j := i - bytes_used q + SIZE).
      assert (E : (vtail_ q + i) mod SIZE = (vhead_ q + j) mod SIZE).
      { rewrite U2, Zplus_mod_idemp_l. unfold j.
        replace (_ + _ + _) with (vtail_ q + i + 1 * SIZE) by lia. by rewrite Z_mod_plus_full. }
      rewrite E. apply F3. unfold j, HDR in *. lia.
    + cbn [fmap list_fmap concat]. by rewrite app_nil_r, <- F2, U2, ring_slice_mod.
Qed.

Lemma concat_frames m ms :
  concat (frame <$> m :: ms) = frame m ++ concat (frame <$> ms).
Proof. done. Qed.

Lemma used_frame q m ms : ring_ok q (m :: ms) -> HDR + alen m <= bytes_used q.
Proof.
  intros [Hl Hh Ht Hm Hb]. destruct (used_free q Hh Ht) as (U0 & _).
  apply (f_equal alen) in Hb. rewrite length_ring_slice, concat_frames, alen_app, alen_frame in Hb by lia.
  pose proof (alen_nonneg (concat (frame <$> ms))). lia.
Qed.

Lemma head_frame q m ms :
  ring_ok q (m :: ms) -> alen m < 2 ^ 32 ->
  HDR + alen m <= bytes_used q /\
  bytes_len (read_at (vbuffer_ q) (vtail_ q) HDR) = alen m /\
  read_at (vbuffer_ q) ((vtail_ q + HDR) mod SIZE) (alen m) = m /\
  ring_bytes (vbuffer_ q) (vtail_ q + (HDR + alen m)) (bytes_used q - (HDR + alen m)) = concat (frame <$> ms).
Proof.
  intros R Hlen. pose proof (used_frame q m ms R) as L. destruct R as [Hl Hh Ht Hm Hb]. apply Forall_cons in Hm as [[M1 M2] Hm]. pose proof ring_SIZE_pos.
  destruct (used_free q Hh Ht) as (U0 & U1 & U2). unfold capacity, HDR in *.
  unfold HDR in *. split; [done|].
  replace (bytes_used q) with (4 + (alen m + (bytes_used q - (4 + alen m)))) in Hb by lia.
  rewrite !ring_slice_app, concat_frames in Hb by lia. unfold frame in Hb at 1. rewrite <- app_assoc in Hb.
  apply app_inj_1 in Hb as [E1 Hb].
  2: { pose proof (length_ring_slice (N := SIZE) (vbuffer_ q) (vtail_ q) 4). unfold alen in *. simpl. lia. }
  apply app_inj_1 in Hb as [E2 E3].
  2: { pose proof (length_ring_slice (N := SIZE) (vbuffer_ q) (vtail_ q + 4) (alen m)). unfold alen in *. lia. }
  split; [|split].
  - rewrite read_at_bytes by lia. rewrite E1. rewrite <- (app_nil_r (len_bytes _)).
    by rewrite <- (bytes_len_frame (alen m) []) at 2 by lia.
  - rewrite read_at_bytes by (try apply Z.mod_pos_bound; lia). by rewrite ring_slice_mod.
  - replace (vtail_ q + (4 + alen m)) with (vtail_ q + 4 + alen m) by lia. exact E3.
Qed.

Lemma varlen_read_ok q m ms :
  ring_ok q (m :: ms) -> ring_ok (q <| vtail_ := Z.land (vtail_ q + HDR + alen m) MASK |>) ms.
Proof.
  intros R. pose proof (used_frame q m ms R) as L. destruct R as [Hl Hh Ht Hm Hb].
  apply Forall_cons in Hm as [[M1 M2] Hm]. pose proof ring_SIZE_pos.
  destruct (used_free q Hh Ht) as (U0 & U1 & U2). unfold capacity, HDR in *.
  rewrite land_MASK. set (q' := set_field vtail_ _ q).
  assert (U : bytes_used q' = bytes_used q - (4 + alen m)).
  { unfold q', bytes_used, available in *. simpl. rewrite !land_MASK in *. rewrite Zminus_mod_idemp_r.
    replace (vhead_ q - _) with (vhead_ q - vtail_ q - (4 + alen m)) by lia.
    pose proof (Z.mod_pos_bound (vhead_ q - vtail_ q) SIZE).
    rewrite <- Zminus_mod_idemp_l. apply Z.mod_small. lia. }
  split; [done|done|apply Z.mod_pos_bound; lia|done|]. rewrite U. simpl. rewrite ring_slice_mod.
  replace (bytes_used q) with ((4 + alen m) + (bytes_used q - (4 + alen m))) in Hb by lia.
  rewrite ring_slice_app, concat_frames in Hb by lia. rewrite <- Z.add_assoc.
  apply app_inj_1 in Hb as [_ E]; [done|].
  pose proof (length_ring_slice (N := SIZE) (vbuffer_ q) (vtail_ q) (4 + alen m)).
  pose proof (alen_frame m). unfold alen, HDR in *. lia.
Qed.

(** [write] appends a message exactly when it is non-empty and its frame
    fits the free bytes, and otherwise leaves the ring unchanged. *)
Lemma varlen_write_queue q msgs m :
  ring_ok q msgs ->
  if (1 <=? alen m) && (HDR + alen m <=? capacity - alen (concat (frame <$> msgs)))
  then (write q m).2 = true /\ ring_ok (write q m).1 (msgs ++ [m])
  else write q m = (q, false).
Proof.
  intros R. pose proof R as [Hl Hh Ht Hm Hb]. destruct (used_free q Hh Ht) as (U0 & U1 & U2).
  rewrite <- Hb, length_ring_slice by lia. unfold capacity in U1.
  destruct (Z.leb_spec 1 (alen m)), (Z.leb_spec (HDR + alen m) (capacity - bytes_used q)); cbn [andb].
  - unfold capacity in *. apply varlen_write_ok; [done|split; unfold capacity; lia|lia].
  - unfold capacity in *. unfold write. destruct (_ || _); [done|]. by replace (_ <? _) with true by lia.
  - unfold write. by replace (_ =? 0) with true by (unfold alen in *; lia).
  - unfold write. by replace (_ =? 0) with true by (unfold alen in *; lia).
Qed.

(** [read] returns the oldest message, byte for byte and across the end
    of the buffer, and removes it; when the ring is empty or the caller's
    buffer is too small it returns nothing and consumes nothing. *)
Lemma varlen_read_queue q msgs max_len :
  SIZE <= 2 ^ 32 -> ring_ok q msgs ->
  match msgs with
  | [] => read q max_len = (q, [])
  | m :: ms =>
      if alen m <=? max_len
      then (read q max_len).2 = m /\ ring_ok (read q max_len).1 ms
      else read q max_len = (q, [])
  end.
Proof.
  intros HS R. pose proof R as [Hl Hh Ht Hm Hb]. pose proof ring_SIZE_pos. destruct msgs as [|m ms].
  - pose proof (f_equal alen Hb) as E. destruct (used_free q Hh Ht) as (U0 & _).
    rewrite length_ring_slice in E by lia. simpl in E. unfold bytes_used in E.
    unfold read. replace (_ <? HDR) with true; [done|]. rewrite E. done.
  - apply Forall_cons in Hm as [[M1 M2] _]. unfold capacity in M2.
    destruct (head_frame q m ms R) as (L & E1 & E2 & _); [unfold HDR in *; lia|].
    unfold read. fold (bytes_used q). rewrite E1, !land_MASK.
    replace (_ <? HDR) with false by (unfold HDR in *; lia).
    replace (_ || _) with false by (unfold HDR in *; lia).
    destruct (Z.leb_spec (alen m) max_len); [|by replace (_ <? _) with true by lia].
    replace (_ <? _) with false by lia. cbn [fst snd]. rewrite E2. split; [done|].
    rewrite <- land_MASK. by apply varlen_read_ok.
Qed.
End varlen.

(** ** A ring of 64 bytes whose second message wraps around the end *)

Definition demo_varlen : VarlenRingBuffer :=
  (read 6 (write 6 (new_ring 6) (replicate 50 7)).1 64).1.
Lemma demo_varlen_ok : ring_ok 6 demo_varlen [].
Proof.
  pose (q := (write 6 (new_ring 6) (replicate 50 7)).1).
  change (ring_ok 6 (q <| vtail_ := Z.land (vtail_ q + HDR + alen (replicate 50 7)) (MASK 6) |>) []).
  apply (varlen_read_ok 6 _ (replicate 50 7) []).
  apply (varlen_write_ok 6 (new_ring 6) []); [apply new_ring_ok|split; by vm_compute|by vm_compute].
Qed.

Lemma varlen_write_queue_witness :
  (write 6 demo_varlen (seqZ 1 20)).2 = true /\ ring_ok 6 (write 6 demo_varlen (seqZ 1 20)).1 [seqZ 1 20].
Proof. exact (varlen_write_queue 6 demo_varlen [] (seqZ 1 20) demo_varlen_ok). Defined.

Lemma demo_varlen_full : ring_ok 6 (write 6 demo_varlen (seqZ 1 20)).1 [seqZ 1 20].
Proof. apply (varlen_write_ok 6 demo_varlen []); [apply demo_varlen_ok|split; by vm_compute|by vm_compute]. Qed.

Lemma varlen_read_queue_witness :
  (read 6 (write 6 demo_varlen (seqZ 1 20)).1 32).2 = seqZ 1 20 /\
  ring_ok 6 (read 6 (write 6 demo_varlen (seqZ 1 20)).1 32).1 [].
Proof.
  refine (varlen_read_queue 6 _ [seqZ 1 20] 32 _ demo_varlen_full). by vm_compute.
Defined.
