(* ===== verification/Double.v ===== *)
(** * Double: the C++ [double]

    IEEE 754 binary64 values and operations, from the Standard Library's
    executable specification [SpecFloat] at precision 53 and maximal exponent
    1024 (round to nearest, ties to even), and the conversions between [double]
    and the integer types the code uses.  A conversion to an integer truncates
    towards zero.  C++ leaves an out-of-range or NaN conversion undefined; the
    model gives the value of the x86-64 instruction the compiler emits,
    [INT64_MIN]. *)
From Stdlib Require Export SpecFloat.
From S2P Require Import Prelude.

Abbreviation double := spec_float.

Definition dbl_of_Z (z : Z) : double := binary_normalize 53 1024 z 0 false.
Definition d_zero : double := dbl_of_Z 0.
Definition d_one : double := dbl_of_Z 1.
Definition d_half : double := S754_finite false 4503599627370496 (-53).
Definition d_inf : double := S754_infinity false.
Definition dadd : double -> double -> double := SFadd 53 1024.
Definition dsub : double -> double -> double := SFsub 53 1024.
Definition dmul : double -> double -> double := SFmul 53 1024.
Definition ddiv : double -> double -> double := SFdiv 53 1024.
Definition dlt : double -> double -> bool := SFltb.
Definition dle : double -> double -> bool := SFleb.
Definition dgt (x y : double) : bool := SFltb y x.
Definition dge (x y : double) : bool := SFleb y x.
Definition dmax (x y : double) : double := if dlt x y then y else x.
Definition dabs : double -> double := SFabs.
Definition is_nan (x : double) : bool := match x with S754_nan => true | _ => false end.

(** The integer part, sign kept. *)
Definition dbl_trunc (x : double) : Z :=
  match x with
  | S754_finite s m e =>
      let a := if 0 <=? e then Z.pos m * 2 ^ e else Z.pos m / 2 ^ (- e) in
      if s then - a else a
  | _ => 0
  end.
Definition dbl_to_i64 (x : double) : Z :=
  match x with
  | S754_nan | S754_infinity _ => INT64_MIN
  | _ => let t := dbl_trunc x in
         if (INT64_MIN <=? t) && (t <=? INT64_MAX) then t else INT64_MIN
  end.

(** [n / d] for literals such as 150.25, which is [dratio 15025 100]. *)
Definition dratio (n d : Z) : double := ddiv (dbl_of_Z n) (dbl_of_Z d).

(** The ratio of two counters, 0.0 when the second is zero: the shape of most
    of the statistics the components report. *)
Definition ratio (n d : Z) : double :=
  if d =? 0 then d_zero else ddiv (dbl_of_Z n) (dbl_of_Z d).

Lemma dbl_to_i64_range x : INT64_MIN <= dbl_to_i64 x <= INT64_MAX.
Proof.
  assert (C : forall t, INT64_MIN <= (if (INT64_MIN <=? t) && (t <=? INT64_MAX) then t else INT64_MIN) <= INT64_MAX).
  { intros t. destruct (_ && _) eqn:E; bsplit; unfold INT64_MIN, INT64_MAX in *; lia. }
  unfold dbl_to_i64. destruct x; cbv zeta; [apply C| | |apply C]; done.
Qed.
Definition dsqrt : double -> double := SFsqrt 53 1024.
Definition dneg : double -> double := SFopp.

(** ** The order of doubles

    Comparison of two values that are not NaN is the lexicographic order of
    [(sign, exponent, significand)]; with NaN every comparison is false.  So
    [dlt] is a strict order, on which the components' searches for a best price
    rely, NaN included. *)
Definition dkey (x : double) : Z * Z * Z :=
  match x with
  | S754_zero _ | S754_nan => (0, 0, 0)
  | S754_infinity s => (if s then -2 else 2, 0, 0)
  | S754_finite s m e => if s then (-1, - e, Z.neg m) else (1, e, Z.pos m)
  end.
Definition key_lt (a b : Z * Z * Z) : Prop :=
  a.1.1 < b.1.1 \/ a.1.1 = b.1.1 /\ (a.1.2 < b.1.2 \/ a.1.2 = b.1.2 /\ a.2 < b.2).

Lemma dlt_key x y :
  dlt x y = true <-> is_nan x = false /\ is_nan y = false /\ key_lt (dkey x) (dkey y).
Proof.
  unfold dlt, SFltb, SFcompare, key_lt.
  destruct x as [[]|[]| |[] m e], y as [[]|[]| |[] m' e'];
    cbn [dkey is_nan fst snd]; try (split; intuition (discriminate || lia)).
  all: destruct (Z.compare_spec e e'); try (split; intuition (discriminate || lia)).
  all: change (Pos.compare_cont Eq m m') with (Pos.compare m m');
    destruct (Pos.compare_spec m m'); cbn [CompOpp]; split; intuition (discriminate || lia).
Qed.
Lemma dlt_trans x y z : dlt x y = true -> dlt y z = true -> dlt x z = true.
Proof. rewrite !dlt_key. unfold key_lt. intuition lia. Qed.
Lemma dlt_irrefl x : dlt x x = false.
Proof. apply not_true_is_false. rewrite dlt_key. unfold key_lt. intuition lia. Qed.
