(* ===== verification/Common.v ===== *)
(** * Common: the types and containers the components share

    [common/types.hpp] (the side of an order), [common/symbol_key.hpp] (a
    symbol of up to 8 characters packed into a [uint64_t], the key of every
    per-symbol map) and [common/ring_counter.hpp] (the sliding window of
    timestamps behind the rate limits).  [HashOrder] stands for the iteration
    order of a [std::unordered_map], which the language leaves unspecified. *)
From S2P Require Import Prelude Ring.

(** ** Sides *)

Inductive Side := BUY | SELL.
#[export] Instance side_eq_dec : EqDecision Side.
Proof. solve_decision. Defined.
Definition is_buy_side (s : Side) : bool := match s with BUY => true | SELL => false end.
Definition side_str (s : Side) : string := match s with BUY => "BUY" | SELL => "SELL" end.

(** ** C strings

    A [const char*] is the list of its bytes before the terminator. *)

Abbreviation cstr := (list Z).
Definition c_string (s : cstr) : Prop := Forall (fun c => 0 < c < 256) s.

(** [None] is the null pointer; 'B' and 'b' are 66 and 98. *)
Definition side_from_str (s : option cstr) : Side :=
  match s with
  | Some (c :: _) => if (c =? 66) || (c =? 98) then BUY else SELL
  | _ => SELL
  end.

(** [strncpy(dst, sym, 8)] into a [char[9]]. *)
Definition copy_sym (sym : cstr) : cstr := take 8 sym.

(** ** Symbol keys *)

Fixpoint sym_key_loop (i : Z) (sym : cstr) (key : Z) : Z :=
  match sym with
  | [] => key
  | c :: sym' => sym_key_loop (i + 1) sym' (Z.lor key (Z.shiftl c (i * 8)))
  end.
Definition sym_to_key (sym : cstr) : Z := sym_key_loop 0 (take 8 sym) 0.

Fixpoint key_sym_loop (left : nat) (n : Z) (key : Z) : cstr :=
  match left with
  | O => []
  | S left' =>
      let c := Z.land (Z.shiftr key (n * 8)) 255 in
      if c =? 0 then [] else c :: key_sym_loop left' (n + 1) key
  end.
Definition key_to_sym (key : Z) : cstr := key_sym_loop 8 0 key.

(** ** A sliding window of timestamps: [TimestampRing<N>], N a power of two *)

Record TimestampRing := mkTsRing { ts_ : list Z; ts_head_ : Z; ts_tail_ : Z }.
#[export] Instance eta_tsring : Settable TimestampRing := fun r =>
  mkTsRing (ts_ r) (ts_head_ r) (ts_tail_ r).

Section timestamp_ring.
Context (k : nat).
Definition TS_N : Z := 2 ^ Z.of_nat k.
Definition TS_MASK : Z := TS_N - 1.

Definition ts_new : TimestampRing := mkTsRing (replicate (Z.to_nat TS_N) 0) 0 0.
Definition ts_stale (r : TimestampRing) (cutoff_ns : Z) : bool :=
  negb (ts_head_ r =? ts_tail_ r) && (aget (ts_ r) (ts_head_ r) <=? cutoff_ns).
Fixpoint evict_loop (fuel : nat) (r : TimestampRing) (cutoff_ns : Z) : TimestampRing :=
  match fuel with
  | O => r
  | S fuel' =>
      if ts_stale r cutoff_ns
      then evict_loop fuel' (r <| ts_head_ := Z.land (ts_head_ r + 1) TS_MASK |>) cutoff_ns
      else r
  end.
(** The ring holds at most [N - 1] timestamps, so [N] turns end the loop. *)
Definition evict (r : TimestampRing) (cutoff_ns : Z) : TimestampRing :=
  evict_loop (Z.to_nat TS_N) r cutoff_ns.
Definition ts_push (r : TimestampRing) (now_ns : Z) : TimestampRing :=
  let r := r <| ts_ ::= fun l => aset l (ts_tail_ r) now_ns |>
             <| ts_tail_ := Z.land (ts_tail_ r + 1) TS_MASK |> in
  if ts_tail_ r =? ts_head_ r then r <| ts_head_ := Z.land (ts_head_ r + 1) TS_MASK |> else r.
Definition ts_count (r : TimestampRing) : Z := Z.land (ts_tail_ r - ts_head_ r + TS_N) TS_MASK.
Definition ts_empty (r : TimestampRing) : bool := ts_head_ r =? ts_tail_ r.
Definition ts_reset (r : TimestampRing) : TimestampRing := r <| ts_head_ := 0 |> <| ts_tail_ := 0 |>.
End timestamp_ring.

(** ** Iteration over a hash map

    A range-for over a [std::unordered_map] visits every entry once, in an
    order the library chooses.  What the code computes by such a loop is
    modelled over [entries m], for any order. *)

Class HashOrder := {
  entries : forall `{Countable K} {V : Type}, gmap K V -> list (K * V);
  entries_perm : forall `{Countable K} (V : Type) (m : gmap K V), entries m ≡ₚ map_to_list m
}.
#[export] Instance map_order : HashOrder := {|
  entries := fun _ _ _ _ m => map_to_list m;
  entries_perm := fun _ _ _ _ _ => reflexivity _
|}.

(** Accumulating over the values of a map: a [size_t] count, an [int64_t] sum. *)
Definition values `{HashOrder} {K} {eqK : EqDecision K} {cK : Countable K} {V} (m : gmap K V) : list V := (entries m).*2.
Definition count_if {A} (p : A -> bool) (l : list A) : Z := sumf (fun x => if p x then 1 else 0) l.
Definition sum64 {A} (f : A -> Z) (l : list A) : Z := foldl (fun s x => i64 (s + f x)) 0 l.

(** ** The packed symbol key *)

(** The value of bytes in little-endian order. *)
Fixpoint le_value (s : list Z) : Z := match s with [] => 0 | c :: s' => c + 256 * le_value s' end.

Lemma le_value_range s : Forall (fun c => 0 <= c < 256) s -> 0 <= le_value s < 2 ^ (8 * alen s).
Proof.
  unfold alen. induction 1 as [|c s Hc Hs IH]; [done|]. cbn [le_value length].
  replace (8 * Z.of_nat (S (length s))) with (8 + 8 * Z.of_nat (length s)) by lia.
  rewrite Z.pow_add_r by lia. change (2 ^ 8) with 256. nia.
Qed.

Lemma c_string_bytes s : c_string s -> Forall (fun c => 0 <= c < 256) s.
Proof. intros H. eapply Forall_impl; [exact H|]. simpl. lia. Qed.
Lemma c_string_take n s : c_string s -> c_string (take n s).
Proof. apply Forall_take. Qed.

Lemma sym_key_loop_value s : forall i key,
  Forall (fun c => 0 <= c < 256) s -> 0 <= i -> 0 <= key < 2 ^ (i * 8) ->
  sym_key_loop i s key = key + 2 ^ (i * 8) * le_value s.
Proof.
  induction s as [|c s IH]; intros i key Hs Hi Hk; cbn [sym_key_loop le_value]; [lia|].
  apply Forall_cons in Hs as [Hc Hs].
  assert (E : 2 ^ ((i + 1) * 8) = 2 ^ (i * 8) * 256).
  { replace ((i + 1) * 8) with (i * 8 + 8) by lia. by rewrite Z.pow_add_r by lia. }
  rewrite lor_shiftl_add by lia. rewrite IH; [rewrite E; lia|done|lia|rewrite E; nia].
Qed.

Lemma sym_to_key_value s : c_string s -> sym_to_key s = le_value (take 8 s).
Proof.
  intros H. unfold sym_to_key. rewrite sym_key_loop_value; [change (2 ^ (0 * 8)) with 1; lia| |lia|done].
  by apply c_string_bytes, c_string_take.
Qed.

Lemma key_sym_loop_value s : forall left n key,
  c_string s -> (length s <= left)%nat -> 0 <= n ->
  Z.shiftr key (n * 8) = le_value s -> key_sym_loop left n key = s.
Proof.
  induction s as [|c s IH]; intros left n key Hs Hl Hn Hk.
  - destruct left; [done|]. cbn [key_sym_loop]. by rewrite Hk.
  - apply Forall_cons in Hs as [Hc Hs]. destruct left as [|left]; [simpl in Hl; lia|].
    cbn [key_sym_loop]. rewrite Hk, (land_ones_mod _ 8) by lia. change (2 ^ 8) with 256. cbn [le_value].
    rewrite (Z.mul_comm 256), Z_mod_plus_full, Z.mod_small by lia.
    destruct (Z.eqb_spec c 0); [lia|]. f_equal. apply IH; [done|simpl in Hl; lia|lia|].
    replace ((n + 1) * 8) with (n * 8 + 8) by lia. rewrite <- Z.shiftr_shiftr, Hk by lia.
    rewrite Z.shiftr_div_pow2 by lia. cbn [le_value]. change (2 ^ 8) with 256.
    rewrite (Z.mul_comm 256), Z.div_add, Z.div_small by lia. lia.
Qed.

(** unpacking a packed symbol gives back its first 8 characters, so two
    symbols share a key exactly when they agree on their first 8 characters;
    the key fits a [uint64_t]. *)
Lemma symbol_key_roundtrip s t :
  c_string s -> c_string t ->
  key_to_sym (sym_to_key s) = take 8 s /\
  (sym_to_key s = sym_to_key t <-> copy_sym s = copy_sym t) /\
  0 <= sym_to_key s < 2 ^ 64.
Proof.
  assert (R : forall s, c_string s -> key_to_sym (sym_to_key s) = take 8 s).
  { intros u Hu. rewrite sym_to_key_value by done.
    apply key_sym_loop_value; [by apply c_string_take|rewrite length_take; lia|lia|apply Z.shiftr_0_r]. }
  intros Hs Ht. split; [by apply R|split; [split|]].
  - intros E. unfold copy_sym. by rewrite <- (R s), <- (R t), E.
  - intros E. unfold copy_sym in E. by rewrite !sym_to_key_value, E.
  - rewrite sym_to_key_value by done.
    pose proof (le_value_range _ (c_string_bytes _ (c_string_take 8 s Hs))) as B.
    assert (2 ^ (8 * alen (take 8 s)) <= 2 ^ 64).
    { apply Z.pow_le_mono_r; [lia|]. unfold alen. rewrite length_take. lia. }
    lia.
Qed.

Lemma symbol_key_roundtrip_witness :
  key_to_sym (sym_to_key [65; 65; 80; 76]) = take 8 [65; 65; 80; 76] /\
  (sym_to_key [65; 65; 80; 76] = sym_to_key [77; 83; 70; 84] <-> copy_sym [65; 65; 80; 76] = copy_sym [77; 83; 70; 84]) /\
  0 <= sym_to_key [65; 65; 80; 76] < 2 ^ 64.
Proof. apply symbol_key_roundtrip; repeat constructor; lia. Defined.

(** Keys of copied symbols, for the maps of the components. *)
Lemma sym_to_key_copy s : sym_to_key (copy_sym s) = sym_to_key s.
Proof. unfold sym_to_key, copy_sym. by rewrite take_take. Qed.

(** ** The timestamp window *)

Section ts_proofs.
Context (k : nat).
#[local] Abbreviation N := (TS_N k).

Lemma TS_N_pos : 0 < N.
Proof. unfold TS_N. apply Z.pow_pos_nonneg; lia. Qed.
Lemma land_TS_MASK i : Z.land i (TS_MASK k) = i mod N.
Proof. apply land_ones_mod. lia. Qed.

(** The ring holds the timestamps [l], oldest first. *)
Record ts_rep (r : TimestampRing) (l : list Z) : Prop := {
  tr_len : alen (ts_ r) = N;
  tr_head : 0 <= ts_head_ r < N;
  tr_tail : ts_tail_ r = (ts_head_ r + alen l) mod N;
  tr_fit : alen l < N;
  tr_items : ring_slice N (ts_ r) (ts_head_ r) (alen l) = l
}.

Fixpoint drop_while (p : Z -> bool) (l : list Z) : list Z :=
  match l with [] => [] | x :: l' => if p x then drop_while p l' else l end.

Lemma ts_head_item r x l :
  ts_rep r (x :: l) -> aget (ts_ r) (ts_head_ r) = x /\ ts_head_ r <> ts_tail_ r /\
  ts_rep (r <| ts_head_ := Z.land (ts_head_ r + 1) (TS_MASK k) |>) l.
Proof.
  intros [H1 H2 H3 H4 H5]. pose proof TS_N_pos. pose proof (alen_nonneg l).
  assert (L : alen (x :: l) = 1 + alen l) by (unfold alen; simpl; lia). rewrite L in *.
  rewrite ring_slice_app in H5 by lia. unfold ring_slice at 1 in H5. simpl in H5.
  rewrite Z.add_0_r, Z.mod_small in H5 by lia. injection H5 as H5 H6.
  split; [done|split].
  - rewrite H3. intros E. destruct (Z_lt_le_dec (ts_head_ r + (1 + alen l)) N).
    + rewrite Z.mod_small in E by lia. lia.
    + rewrite <- (Z.mod_unique _ N 1 (ts_head_ r + (1 + alen l) - N)) in E by lia. lia.
  - rewrite land_TS_MASK. split; simpl; [done|apply Z.mod_pos_bound; lia| |lia|].
    + rewrite H3, Zplus_mod_idemp_l. f_equal. lia.
    + by rewrite ring_slice_mod.
Qed.

Lemma evict_loop_rep fuel : forall r l c,
  ts_rep r l -> (length l <= fuel)%nat ->
  ts_rep (evict_loop k fuel r c) (drop_while (fun t => t <=? c) l).
Proof.
  induction fuel as [|fuel IH]; intros r l c R Hf.
  - by destruct l; [|simpl in Hf; lia].
  - cbn [evict_loop]. unfold ts_stale. destruct l as [|x l].
    + pose proof (tr_tail _ _ R) as E. unfold alen in E. simpl in E. rewrite Z.add_0_r in E.
      rewrite E, Z.mod_small, Z.eqb_refl by apply (tr_head _ _ R). done.
    + destruct (ts_head_item _ _ _ R) as (Hx & Hne & R'). rewrite Hx.
      apply Z.eqb_neq in Hne. rewrite Hne. cbn [negb andb drop_while].
      destruct (x <=? c); [|done]. apply IH; [done|simpl in Hf; lia].
Qed.

Lemma ts_push_rep r l t :
  ts_rep r l -> ts_rep (ts_push k r t) (if alen l =? N - 1 then tail (l ++ [t]) else l ++ [t]).
Proof.
  intros [H1 H2 H3 H4 H5]. pose proof TS_N_pos. pose proof (alen_nonneg l).
  assert (L : alen (l ++ [t]) = alen l + 1) by (rewrite alen_app; done).
  assert (T : 0 <= ts_tail_ r < N) by (rewrite H3; apply Z.mod_pos_bound; lia).
  pose (r1 := r <| ts_ ::= fun l => aset l (ts_tail_ r) t |> <| ts_tail_ := Z.land (ts_tail_ r + 1) (TS_MASK k) |>).
  assert (I : ring_slice N (ts_ r1) (ts_head_ r1) (alen (l ++ [t])) = l ++ [t]).
  { rewrite L, ring_slice_app by lia. simpl. rewrite H3, ring_slice_aset_out, H5 by lia. f_equal.
    unfold ring_slice. simpl. by rewrite Z.add_0_r, aget_aset_eq by (rewrite H1; apply Z.mod_pos_bound; lia). }
  assert (E1 : ts_tail_ r1 = (ts_head_ r + alen (l ++ [t])) mod N).
  { simpl. rewrite land_TS_MASK, H3, L, Zplus_mod_idemp_l. f_equal. lia. }
  unfold ts_push. fold r1. destruct (Z.eqb_spec (alen l) (N - 1)) as [F|F].
  - rewrite L, F in E1. replace (ts_head_ r + (N - 1 + 1)) with (ts_head_ r + 1 * N) in E1 by lia.
    rewrite Z_mod_plus_full, Z.mod_small in E1 by lia.
    change (ts_head_ r1) with (ts_head_ r) in *. rewrite E1, Z.eqb_refl, land_TS_MASK.
    destruct (l ++ [t]) as [|x l'] eqn:El; [by destruct l|]. cbn [tail].
    assert (L' : alen (x :: l') = 1 + alen l') by (unfold alen; simpl; lia).
    rewrite L' in I, L. rewrite ring_slice_app in I by (pose proof (alen_nonneg l'); lia).
    injection I as _ I. split; simpl; [by rewrite alen_aset|apply Z.mod_pos_bound; lia| |lia|].
    + rewrite land_TS_MASK, H3, !Zplus_mod_idemp_l. f_equal. lia.
    + by rewrite ring_slice_mod.
  - destruct (Z.eqb_spec (ts_tail_ r1) (ts_head_ r1)) as [E|E].
    + rewrite E1 in E. simpl in E. exfalso. destruct (Z_lt_le_dec (ts_head_ r + alen (l ++ [t])) N).
      * rewrite Z.mod_small in E by lia. lia.
      * rewrite <- (Z.mod_unique _ N 1 (ts_head_ r + alen (l ++ [t]) - N)) in E by lia. lia.
    + split; [simpl; by rewrite alen_aset|done|done|lia|done].
Qed.

Lemma ts_count_rep r l : ts_rep r l -> ts_count k r = alen l /\ ts_empty r = (alen l =? 0).
Proof.
  intros [H1 H2 H3 H4 H5]. pose proof TS_N_pos. pose proof (alen_nonneg l). split.
  - unfold ts_count. rewrite land_TS_MASK, H3.
    replace ((ts_head_ r + alen l) mod N - ts_head_ r + N) with ((ts_head_ r + alen l) mod N + (N - ts_head_ r)) by lia.
    rewrite Zplus_mod_idemp_l. replace (_ + _) with (alen l + 1 * N) by lia.
    rewrite Z_mod_plus_full. apply Z.mod_small. lia.
  - unfold ts_empty. rewrite H3. destruct (Z.eqb_spec (alen l) 0) as [->|].
    + rewrite Z.add_0_r, Z.mod_small by lia. apply Z.eqb_refl.
    + apply Z.eqb_neq. destruct (Z_lt_le_dec (ts_head_ r + alen l) N).
      * rewrite Z.mod_small by lia. lia.
      * rewrite <- (Z.mod_unique _ N 1 (ts_head_ r + alen l - N)) by lia. lia.
Qed.

Lemma ts_new_rep : ts_rep (ts_new k) [].
Proof.
  pose proof TS_N_pos. split; simpl; [|lia|by rewrite Z.add_0_r, Z.mod_small by lia|done|done].
  unfold alen. rewrite length_replicate. lia.
Qed.

(** the timestamp ring is a sliding window of at most [N - 1] events:
    [evict] removes exactly the leading events at or before the cutoff, [push]
    appends one and, when the window is full, drops the oldest; [count] is the
    number of events held. *)
Lemma timestamp_ring_window r l now cutoff :
  ts_rep r l ->
  ts_rep (evict k r cutoff) (drop_while (fun t => t <=? cutoff) l) /\
  ts_rep (ts_push k r now) (if alen l =? N - 1 then tail (l ++ [now]) else l ++ [now]) /\
  ts_count k r = alen l /\ ts_empty r = (alen l =? 0).
Proof.
  intros R. split; [|split; [by apply ts_push_rep|by apply ts_count_rep]].
  apply evict_loop_rep; [done|]. pose proof (tr_fit _ _ R). unfold alen in *. lia.
Qed.
End ts_proofs.

Lemma timestamp_ring_window_witness :
  let r := ts_push 2 (ts_push 2 (ts_push 2 (ts_new 2) 10) 20) 30 in
  ts_rep 2 (evict 2 r 15) [20; 30] /\ ts_rep 2 (ts_push 2 r 40) [20; 30; 40] /\
  ts_count 2 r = 3 /\ ts_empty r = false.
Proof.
  intros r. refine (timestamp_ring_window 2 r [10; 20; 30] 40 15 _).
  apply (ts_push_rep 2 _ [10; 20]), (ts_push_rep 2 _ [10]), (ts_push_rep 2 _ []), ts_new_rep.
Defined.

(** Sums in [int64_t] wrap once, and do not depend on the iteration order. *)
Lemma sum64_sumf {A} (f : A -> Z) l : sum64 f l = i64 (sumf f l).
Proof.
  unfold sum64. assert (G : forall s, foldl (fun s x => i64 (s + f x)) (i64 s) l = i64 (s + sumf f l)).
  { induction l as [|x l IH]; intros s; cbn [foldl]; [simpl; by rewrite Z.add_0_r|].
    rewrite sumf_cons, wraps_add_l, IH by lia. f_equal. lia. }
  exact (G 0).
Qed.
Lemma sumf_values `{HashOrder} {K} {eqK : EqDecision K} {cK : Countable K} {V} (f : V -> Z) (m : gmap K V) : sumf f (values m) = msum (fun _ => f) m.
Proof. unfold values. rewrite sumf_fmap, msum_list. apply sumf_perm, entries_perm. Qed.
