(* ===== verification/Oms.v ===== *)
(** * Oms: the order management system

    [oms/oms.hpp].  [OMS] keeps the orders by id and the positions by symbol
    key; an order reserves its signed quantity as pending exposure of its
    symbol when it is submitted, fills move it to the net position, and cancel,
    replace and amend give the rest back.  Prices are fixed-point integers with
    [PRICE_SCALE] units to the dollar; the arguments the callers pass are
    [double]s.  The clock readings of an operation are arguments; console
    output is not modelled.  A returned [Order*] is the order's id. *)
From S2P Require Import Prelude Double Common.

Definition PRICE_SCALE : Z := 10000.
Definition to_fixed (price : double) : Z :=
  dbl_to_i64 (dadd (dmul price (dbl_of_Z PRICE_SCALE)) d_half).
Definition to_float (fixed_price : Z) : double := ddiv (dbl_of_Z fixed_price) (dbl_of_Z PRICE_SCALE).

Inductive OrderStatus := NEW | SENT | FILLED | PARTIAL | CANCELLED | REJECTED.
#[export] Instance order_status_eq_dec : EqDecision OrderStatus.
Proof. solve_decision. Defined.
Definition status_str (s : OrderStatus) : string :=
  match s with
  | NEW => "NEW" | SENT => "SENT" | FILLED => "FILLED"
  | PARTIAL => "PARTIAL" | CANCELLED => "CANCELLED" | REJECTED => "REJECTED"
  end.

Inductive OMSReject := R_NONE | INVALID_INPUT | ORDER_VALUE | POSITION_LIMIT.
Definition reject_index (r : OMSReject) : Z :=
  match r with R_NONE => 0 | INVALID_INPUT => 1 | ORDER_VALUE => 2 | POSITION_LIMIT => 3 end.
Definition oms_reject_str (r : OMSReject) : string :=
  match r with
  | R_NONE => "NONE" | INVALID_INPUT => "INVALID_INPUT"
  | ORDER_VALUE => "ORDER_VALUE" | POSITION_LIMIT => "POSITION_LIMIT"
  end.

Record Order := mkOrder {
  order_id : Z; symbol : cstr; side : Side; price : Z; quantity : Z; filled_qty : Z;
  status : OrderStatus; created_ns : Z; sent_ns : Z; filled_ns : Z; fill_notional : Z;
  expire_ns : Z; fill_count : Z; cancelled_ns : Z
}.
#[export] Instance eta_order : Settable Order := fun o =>
  mkOrder (order_id o) (symbol o) (side o) (price o) (quantity o) (filled_qty o) (status o)
    (created_ns o) (sent_ns o) (filled_ns o) (fill_notional o) (expire_ns o) (fill_count o)
    (cancelled_ns o).
Definition new_order (id : Z) (sym : cstr) (s : Side) (px qty : Z) : Order :=
  mkOrder id (copy_sym sym) s px qty 0 NEW 0 0 0 0 0 0 0.
Definition avg_fill_price (o : Order) : Z :=
  if 0 <? filled_qty o then Z.quot (fill_notional o) (filled_qty o) else 0.

Record Position := mkPosition {
  p_symbol : cstr; net_qty : Z; pending_qty : Z; avg_price : Z; realized_pnl : Z;
  total_cost : Z; fees : Z; p_round_trips : Z
}.
#[export] Instance eta_position : Settable Position := fun p =>
  mkPosition (p_symbol p) (net_qty p) (pending_qty p) (avg_price p) (realized_pnl p)
    (total_cost p) (fees p) (p_round_trips p).
Definition new_position (sym : cstr) : Position := mkPosition (copy_sym sym) 0 0 0 0 0 0 0.
Definition net_pnl (p : Position) : Z := i64 (realized_pnl p - fees p).
Definition unrealized_pnl (p : Position) (mark_price : Z) : Z :=
  i64 (net_qty p * (mark_price - avg_price p)).
Definition total_pnl (p : Position) (mark_price : Z) : Z :=
  i64 (realized_pnl p + unrealized_pnl p mark_price - fees p).

Record OMS := mkOMS {
  orders_ : gmap Z Order; positions_ : gmap Z Position; next_id_ : Z;
  max_position_ : Z; max_order_value_ : Z; commission_fp_ : Z; total_fees_ : Z;
  last_reject_ : OMSReject; reject_counts_ : list Z;
  total_submitted_ : Z; total_fills_ : Z; total_cancels_ : Z; total_replaces_ : Z;
  total_ordered_shares_ : Z; total_filled_shares_ : Z;
  total_traded_notional_ : double; total_submitted_notional_ : double;
  max_submitted_notional_ : double; price_improvement_fp_ : Z; round_trips_ : Z
}.
#[export] Instance eta_oms : Settable OMS := fun o =>
  mkOMS (orders_ o) (positions_ o) (next_id_ o) (max_position_ o) (max_order_value_ o)
    (commission_fp_ o) (total_fees_ o) (last_reject_ o) (reject_counts_ o) (total_submitted_ o)
    (total_fills_ o) (total_cancels_ o) (total_replaces_ o) (total_ordered_shares_ o)
    (total_filled_shares_ o) (total_traded_notional_ o) (total_submitted_notional_ o)
    (max_submitted_notional_ o) (price_improvement_fp_ o) (round_trips_ o).

Definition fixed_commission (per_share : double) : Z := to_fixed per_share.
Definition new_oms (max_pos : Z) (max_val commission_per_share : double) : OMS :=
  mkOMS ∅ ∅ 1 max_pos (dbl_to_i64 max_val) (fixed_commission commission_per_share) 0
    R_NONE [0; 0; 0; 0] 0 0 0 0 0 0 d_zero d_zero d_zero 0 0.

(** ** Helpers *)

(** [static_cast<int32_t>] of a [uint32_t] quantity, negated for a sale. *)
Definition signed_qty (s : Side) (qty : Z) : Z :=
  match s with BUY => i32 qty | SELL => i32 (- i32 qty) end.
Definition working (o : Order) : bool :=
  match status o with SENT | PARTIAL => true | _ => false end.
Definition net_of (p : option Position) : Z := match p with Some p => net_qty p | None => 0 end.
Definition pend_of (p : option Position) : Z := match p with Some p => pending_qty p | None => 0 end.
Definition position_or_new (p : option Position) (sym : cstr) : Position :=
  default (new_position sym) p.

Definition apply_fill_to_position (pos : Position) (signed_fill fill_qty fill_price : Z) : Position :=
  let old_net := net_qty pos in
  let new_net := i32 (old_net + signed_fill) in
  let same_dir := (old_net =? 0) || eqb (0 <? old_net) (0 <? signed_fill) in
  let pos :=
    if same_dir then
      let old_abs := i32 (Z.abs old_net) in
      let tot_abs := i64 (old_abs + fill_qty) in
      pos <| avg_price := Z.quot (i64 (avg_price pos * old_abs + fill_price * fill_qty + Z.quot tot_abs 2)) tot_abs |>
          <| net_qty := new_net |>
    else
      let close_qty := Z.min (i32 (Z.abs old_net)) fill_qty in
      let pos := pos <| realized_pnl ::= fun r =>
        i64 (r + close_qty * (if 0 <? old_net then fill_price - avg_price pos else avg_price pos - fill_price)) |>
        <| net_qty := new_net |> in
      if new_net =? 0 then pos <| avg_price := 0 |>
      else if negb (eqb (0 <? old_net) (0 <? new_net)) then pos <| avg_price := fill_price |>
      else pos in
  pos <| total_cost := i64 (avg_price pos * i32 (Z.abs (net_qty pos))) |>.

(** ** Operations *)

Definition reject (o : OMS) (r : OMSReject) : OMS :=
  o <| last_reject_ := r |>
    <| reject_counts_ ::= fun c => aset c (reject_index r) (u64 (aget c (reject_index r) + 1)) |>.

Definition order_value (price quantity : Z) : Z := i64 (Z.quot price PRICE_SCALE * quantity).

Definition bad_submit (symbol : option cstr) (price_f : double) (quantity : Z) : bool :=
  is_nan price_f || (to_fixed price_f <=? 0) || (quantity =? 0)
  || match symbol with None | Some [] => true | Some _ => false end.

Definition submit_order (o : OMS) (symbol : option cstr) (side : Side) (price_f : double)
    (quantity expire t_created t_sent : Z) : OMS * option Z :=
  let price := to_fixed price_f in
  if bad_submit symbol price_f quantity then (reject o INVALID_INPUT, None) else
  let sym := default [] symbol in
  if max_order_value_ o <? order_value price quantity then (reject o ORDER_VALUE, None) else
  let key := sym_to_key sym in
  let signed_n := signed_qty side quantity in
  let pos := positions_ o !! key in
  if max_position_ o <? i32 (Z.abs (i32 (net_of pos + pend_of pos + signed_n)))
  then (reject o POSITION_LIMIT, None) else
  let id := next_id_ o in
  let order := new_order id sym side price quantity
    <| created_ns := t_created |> <| sent_ns := t_sent |>
    <| status := SENT |> <| expire_ns := expire |> in
  let pos := position_or_new pos sym in
  let notional := dmul price_f (dbl_of_Z quantity) in
  (o <| last_reject_ := R_NONE |>
     <| next_id_ := u64 (id + 1) |>
     <| orders_ ::= <[id := order]> |>
     <| positions_ ::= <[key := pos <| pending_qty ::= fun q => i32 (q + signed_n) |>]> |>
     <| total_submitted_ ::= fun n => u64 (n + 1) |>
     <| total_ordered_shares_ ::= fun n => u64 (n + quantity) |>
     <| total_submitted_notional_ ::= fun d => dadd d notional |>
     <| max_submitted_notional_ ::= fun d => if dgt notional d then notional else d |>, Some id).

Definition remaining (o : Order) : Z :=
  if filled_qty o <? quantity o then u32 (quantity o - filled_qty o) else 0.

(** The part of [fill_order] after its guards, for the clamped quantity. *)
Definition record_fill (o : OMS) (id : Z) (order : Order) (fill_qty : Z) (fill_price_f : double) (now : Z) : OMS :=
  let fill_price := to_fixed fill_price_f in
  let filled := u32 (filled_qty order + fill_qty) in
  let improvement :=
    (match side order with BUY => price order - fill_price | SELL => fill_price - price order end) * fill_qty in
  let order' := order
    <| filled_qty := filled |>
    <| fill_notional ::= fun n => i64 (n + fill_qty * fill_price) |>
    <| fill_count ::= fun n => u32 (n + 1) |>
    <| status := if quantity order <=? filled then FILLED else PARTIAL |>
    <| filled_ns := now |> in
  let key := sym_to_key (symbol order) in
  let pos := position_or_new (positions_ o !! key) (symbol order) in
  let signed_fill := signed_qty (side order) fill_qty in
  let pos1 := pos <| pending_qty ::= fun q => i32 (q - signed_fill) |> in
  let net_before := net_qty pos1 in
  let pos2 := apply_fill_to_position pos1 signed_fill fill_qty fill_price in
  let closed := negb (net_before =? 0)
    && ((net_qty pos2 =? 0) || negb (eqb (0 <? net_before) (0 <? net_qty pos2))) in
  let pos3 := if closed then pos2 <| p_round_trips ::= fun n => u32 (n + 1) |> else pos2 in
  let fee := i64 (fill_qty * commission_fp_ o) in
  let pos4 := if commission_fp_ o =? 0 then pos3 else pos3 <| fees ::= fun f => i64 (f + fee) |> in
  o <| orders_ ::= <[id := order']> |>
    <| total_fills_ ::= fun n => u64 (n + 1) |>
    <| total_filled_shares_ ::= fun n => u64 (n + fill_qty) |>
    <| total_traded_notional_ ::= fun d => dadd d (dmul (dbl_of_Z fill_qty) fill_price_f) |>
    <| price_improvement_fp_ ::= fun n => i64 (n + improvement) |>
    <| positions_ ::= <[key := pos4]> |>
    <| round_trips_ ::= fun n => if closed then u64 (n + 1) else n |>
    <| total_fees_ ::= fun f => if commission_fp_ o =? 0 then f else i64 (f + fee) |>.

(** Returns the quantity applied. *)
Definition fill_order (o : OMS) (id fill_qty : Z) (fill_price_f : double) (now : Z) : OMS * Z :=
  if fill_qty =? 0 then (o, 0) else
  match orders_ o !! id with
  | None => (o, 0)
  | Some order =>
      if negb (working order) then (o, 0) else
      let fill_qty := Z.min fill_qty (remaining order) in
      if fill_qty =? 0 then (o, 0) else
      (record_fill o id order fill_qty fill_price_f now, fill_qty)
  end.

Definition cancel_order (o : OMS) (id now : Z) : OMS :=
  match orders_ o !! id with
  | None => o
  | Some order =>
      if negb (working order) then o else
      let remaining := i32 (i32 (quantity order) - i32 (filled_qty order)) in
      let signed_remaining := signed_qty (side order) (u32 remaining) in
      let key := sym_to_key (symbol order) in
      o <| positions_ ::= alter (fun p => p <| pending_qty ::= fun q => i32 (q - signed_remaining) |>) key |>
        <| orders_ ::= <[id := order <| status := CANCELLED |> <| cancelled_ns := now |>]> |>
        <| total_cancels_ ::= fun n => u64 (n + 1) |>
  end.

Definition status_after (filled quantity : Z) : OrderStatus :=
  if quantity <=? filled then FILLED else if 0 <? filled then PARTIAL else SENT.

Definition replace_order (o : OMS) (id : Z) (new_price_f : double) (new_quantity : Z) : OMS * bool :=
  match orders_ o !! id with
  | None => (o, false)
  | Some order =>
      if negb (working order) then (o, false) else
      let new_price := to_fixed new_price_f in
      if is_nan new_price_f || (new_price <=? 0) || (new_quantity =? 0) || (new_quantity <? filled_qty order)
      then (o, false) else
      if max_order_value_ o <? order_value new_price new_quantity then (o, false) else
      let key := sym_to_key (symbol order) in
      let old_remaining := i32 (i32 (quantity order) - i32 (filled_qty order)) in
      let new_remaining := i32 (i32 new_quantity - i32 (filled_qty order)) in
      let old_pend := signed_qty (side order) (u32 old_remaining) in
      let new_pend := signed_qty (side order) (u32 new_remaining) in
      let pos := positions_ o !! key in
      let projected := i32 (net_of pos + (pend_of pos - old_pend + new_pend)) in
      if max_position_ o <? i32 (Z.abs projected) then (o, false) else
      (o <| positions_ ::= alter (fun p => p <| pending_qty ::= fun q => i32 (q + (new_pend - old_pend)) |>) key |>
         <| orders_ ::= <[id := order <| price := new_price |> <| quantity := new_quantity |>
                                      <| status := status_after (filled_qty order) new_quantity |>]> |>
         <| total_replaces_ ::= fun n => u64 (n + 1) |>, true)
  end.

Definition amend_quantity (o : OMS) (id new_quantity : Z) : OMS * bool :=
  match orders_ o !! id with
  | None => (o, false)
  | Some order =>
      if negb (working order) then (o, false) else
      if quantity order <=? new_quantity then (o, false) else
      if new_quantity <? filled_qty order then (o, false) else
      replace_order o id (to_float (price order)) new_quantity
  end.

Section oms_loops.
Context `{HashOrder}.

(** The loops over [orders_] and [positions_]. *)
Definition order_list (o : OMS) : list Order := values (orders_ o).
Definition position_list (o : OMS) : list Position := values (positions_ o).

(** A range-for that cancels the orders satisfying a test, read when the loop
    reaches them; [clock id] is the clock reading taken for that order. *)
Definition cancel_where (test : Order -> bool) (clock : Z -> Z) (o : OMS) : OMS * Z :=
  foldl (fun acc id =>
      match orders_ acc.1 !! id with
      | Some order => if test order then (cancel_order acc.1 id (clock id), acc.2 + 1) else acc
      | None => acc
      end) (o, 0) (entries (orders_ o)).*1.

Definition cancel_all (clock : Z -> Z) (o : OMS) : OMS * Z := cancel_where working clock o.
Definition expired (now_ns : Z) (o : Order) : bool :=
  working o && (0 <? expire_ns o) && (expire_ns o <=? now_ns).
Definition purge_expired (now_ns : Z) (clock : Z -> Z) (o : OMS) : OMS * Z :=
  cancel_where (expired now_ns) clock o.
Definition working_symbol (key : Z) (o : Order) : bool := working o && (sym_to_key (symbol o) =? key).
Definition cancel_all_symbol (sym : cstr) (clock : Z -> Z) (o : OMS) : OMS * Z :=
  cancel_where (working_symbol (sym_to_key sym)) clock o.

Definition order_notional (o : Order) : double := dmul (to_float (price o)) (dbl_of_Z (remaining o)).
Definition notional_where (test : Order -> bool) (o : OMS) : double :=
  foldl (fun sum x => if test x then dadd sum (order_notional x) else sum) d_zero (order_list o).
Definition open_order_notional (o : OMS) : double := notional_where working o.
Definition open_order_notional_symbol (o : OMS) (sym : cstr) : double :=
  notional_where (working_symbol (sym_to_key sym)) o.

(** *** Positions *)

Definition has_net (p : Position) : bool := negb (net_qty p =? 0).
Definition abs_net (p : Position) : Z := Z.abs (net_qty p).
Definition pos_value (p : Position) : Z := i64 (abs_net p * avg_price p).
Definition max_of {A} (f : A -> Z) (l : list A) : Z :=
  foldl (fun m x => if m <? f x then f x else m) 0 l.

Definition open_position_count (o : OMS) : Z := count_if has_net (position_list o).
Definition gross_position_shares (o : OMS) : Z := sum64 abs_net (position_list o).
Definition largest_position (o : OMS) : Z := max_of (fun p => i32 (Z.abs (net_qty p))) (position_list o).
Definition inventory_value (o : OMS) : Z := sum64 pos_value (position_list o).
Definition net_position_shares (o : OMS) : Z := sum64 net_qty (position_list o).
Definition net_inventory_value (o : OMS) : Z :=
  sum64 (fun p => i64 (net_qty p * avg_price p)) (position_list o).
Definition largest_position_notional (o : OMS) : Z := max_of pos_value (position_list o).

(** The loops that remember the best entry seen: the first one that passes the
    test, then each one strictly better. *)
Definition best_by {A} (test : A -> bool) (better : A -> A -> bool) (l : list A) : option A :=
  foldl (fun who x =>
    if test x then
      match who with
      | None => Some x
      | Some y => if better x y then Some x else who
      end
    else who) None l.
Definition named (f : Position -> Z) (who : option Position) : cstr * double :=
  match who with Some p => (p_symbol p, to_float (f p)) | None => ([], d_zero) end.

Definition largest_position_symbol (o : OMS) : cstr * double :=
  named pos_value (best_by has_net (fun x y => pos_value y <? pos_value x) (position_list o)).
Definition pending_buy_shares (o : OMS) : Z :=
  sum64 (fun p => if 0 <? pending_qty p then pending_qty p else 0) (position_list o).
Definition pending_sell_shares (o : OMS) : Z :=
  sum64 (fun p => if pending_qty p <? 0 then i32 (- pending_qty p) else 0) (position_list o).
Definition is_flat (o : OMS) : bool :=
  (open_position_count o =? 0) && forallb (fun x => negb (working x)) (order_list o).

Definition get_order (o : OMS) (id : Z) : option Order := orders_ o !! id.
Definition get_position (o : OMS) (sym : cstr) : option Position := positions_ o !! sym_to_key sym.
Definition realized_pnl_symbol (o : OMS) (sym : cstr) : double :=
  match get_position o sym with Some p => to_float (realized_pnl p) | None => d_zero end.
Definition net_pnl_symbol (o : OMS) (sym : cstr) : double :=
  match get_position o sym with Some p => to_float (net_pnl p) | None => d_zero end.
Definition order_count (o : OMS) : Z := Z.of_nat (size (orders_ o)).
Definition position_count (o : OMS) : Z := Z.of_nat (size (positions_ o)).
Definition count_by_status (o : OMS) (st : OrderStatus) : Z :=
  count_if (fun x => bool_decide (status x = st)) (order_list o).
Definition working_order_count (o : OMS) : Z := count_if working (order_list o).
Definition done_order (o : Order) : bool :=
  match status o with FILLED | CANCELLED | REJECTED => true | _ => false end.
Definition done_order_count (o : OMS) : Z := count_if done_order (order_list o).

(** *** Ages and latencies *)

Definition oldest_working (o : OMS) : option Order :=
  best_by working (fun x y => sent_ns x <? sent_ns y) (order_list o).
Definition oldest_working_order_age_ns (o : OMS) (now_ns : Z) : Z :=
  match oldest_working o with
  | Some x => if sent_ns x <? now_ns then i64 (now_ns - sent_ns x) else 0
  | None => 0
  end.
Definition oldest_working_order_id (o : OMS) : Z :=
  match best_by (fun kv => working kv.2) (fun x y => sent_ns x.2 <? sent_ns y.2) (entries (orders_ o)) with
  | Some kv => kv.1
  | None => 0
  end.
Definition quot_or_zero (sum n : Z) : Z := if 0 <? n then Z.quot sum n else 0.
Definition avg_working_order_age_ns (o : OMS) (now_ns : Z) : Z :=
  quot_or_zero
    (sum64 (fun x => if working x && (sent_ns x <? now_ns) then i64 (now_ns - sent_ns x) else 0) (order_list o))
    (working_order_count o).

Definition was_filled (o : Order) : bool := bool_decide (status o = FILLED) && (sent_ns o <? filled_ns o).
Definition time_to_fill (o : Order) : Z := i64 (filled_ns o - sent_ns o).
Definition was_cancelled (o : Order) : bool :=
  bool_decide (status o = CANCELLED) && (sent_ns o <? cancelled_ns o).
Definition time_to_cancel (o : Order) : Z := i64 (cancelled_ns o - sent_ns o).
Definition avg_where {A} (p : A -> bool) (f : A -> Z) (l : list A) : Z :=
  quot_or_zero (sum64 (fun x => if p x then f x else 0) l) (count_if p l).
Definition max_where {A} (p : A -> bool) (f : A -> Z) (l : list A) : Z :=
  max_of (fun x => if p x then f x else 0) l.
Definition min_where {A} (p : A -> bool) (f : A -> Z) (l : list A) : Z :=
  match best_by p (fun x y => f x <? f y) l with Some x => f x | None => 0 end.
Definition avg_time_to_fill_ns (o : OMS) : Z := avg_where was_filled time_to_fill (order_list o).
Definition max_time_to_fill_ns (o : OMS) : Z := max_where was_filled time_to_fill (order_list o).
Definition min_time_to_fill_ns (o : OMS) : Z := min_where was_filled time_to_fill (order_list o).
Definition avg_time_to_cancel_ns (o : OMS) : Z := avg_where was_cancelled time_to_cancel (order_list o).
Definition max_time_to_cancel_ns (o : OMS) : Z := max_where was_cancelled time_to_cancel (order_list o).
Definition min_time_to_cancel_ns (o : OMS) : Z := min_where was_cancelled time_to_cancel (order_list o).

(** *** Fees, profit and loss *)

Definition avg_commission_per_share (o : OMS) : double :=
  if 0 <? total_filled_shares_ o
  then ddiv (to_float (total_fees_ o)) (dbl_of_Z (total_filled_shares_ o)) else d_zero.
Definition fee_bps_of_turnover (o : OMS) : double :=
  if dgt (total_traded_notional_ o) d_zero
  then dmul (ddiv (to_float (total_fees_ o)) (total_traded_notional_ o)) (dbl_of_Z 10000) else d_zero.
Definition set_commission (o : OMS) (per_share : double) : OMS :=
  o <| commission_fp_ := fixed_commission per_share |>.
Definition commission_per_share (o : OMS) : double := to_float (commission_fp_ o).

Definition winner (p : Position) : bool := 0 <? realized_pnl p.
Definition loser (p : Position) : bool := realized_pnl p <? 0.
Definition total_realized_pnl (o : OMS) : Z := sum64 realized_pnl (position_list o).
Definition total_net_pnl (o : OMS) : Z := sum64 net_pnl (position_list o).
Definition winning_symbols (o : OMS) : Z := count_if winner (position_list o).
Definition losing_symbols (o : OMS) : Z := count_if loser (position_list o).
Definition symbol_win_rate (o : OMS) : double :=
  ratio (winning_symbols o) (winning_symbols o + losing_symbols o).
Definition gross_profit (o : OMS) : Z :=
  sum64 (fun p => if winner p then realized_pnl p else 0) (position_list o).
Definition gross_loss (o : OMS) : Z :=
  sum64 (fun p => if loser p then - realized_pnl p else 0) (position_list o).
Definition best_realized_symbol (o : OMS) : cstr * double :=
  named realized_pnl (best_by (fun p => negb (realized_pnl p =? 0))
    (fun x y => realized_pnl y <? realized_pnl x) (position_list o)).
Definition worst_realized_symbol (o : OMS) : cstr * double :=
  named realized_pnl (best_by (fun p => negb (realized_pnl p =? 0))
    (fun x y => realized_pnl x <? realized_pnl y) (position_list o)).
Definition largest_win (o : OMS) : Z := max_of realized_pnl (position_list o).
Definition largest_loss (o : OMS) : Z :=
  max_of (fun p => if loser p then i64 (- realized_pnl p) else 0) (position_list o).
Definition profit_concentration (o : OMS) : double :=
  if 0 <? gross_profit o then ddiv (dbl_of_Z (largest_win o)) (dbl_of_Z (gross_profit o)) else d_zero.
Definition loss_concentration (o : OMS) : double :=
  if 0 <? gross_loss o then ddiv (dbl_of_Z (largest_loss o)) (dbl_of_Z (gross_loss o)) else d_zero.
Definition profit_factor (o : OMS) : double :=
  if 0 <? gross_loss o then ddiv (dbl_of_Z (gross_profit o)) (dbl_of_Z (gross_loss o))
  else if 0 <? gross_profit o then d_inf else d_zero.
Definition per_count (x : double) (n : Z) : double := if 0 <? n then ddiv x (dbl_of_Z n) else d_zero.
Definition avg_win_per_symbol (o : OMS) : double := per_count (to_float (gross_profit o)) (winning_symbols o).
Definition avg_loss_per_symbol (o : OMS) : double := per_count (to_float (gross_loss o)) (losing_symbols o).
Definition expectancy_per_symbol (o : OMS) : double :=
  per_count (dsub (to_float (gross_profit o)) (to_float (gross_loss o))) (winning_symbols o + losing_symbols o).

(** *** Session counters *)

Definition reject_count (o : OMS) (r : OMSReject) : Z := aget (reject_counts_ o) (reject_index r).
Definition total_rejects (o : OMS) : Z :=
  u64 (aget (reject_counts_ o) 1 + aget (reject_counts_ o) 2 + aget (reject_counts_ o) 3).
Definition reject_share (o : OMS) (r : OMSReject) : double :=
  if reject_index r =? 0 then d_zero else ratio (reject_count o r) (total_rejects o).
Definition most_common_reject (o : OMS) : OMSReject :=
  (foldl (fun best r => if best.2 <? reject_count o r then (r, reject_count o r) else best)
     (R_NONE, 0) [INVALID_INPUT; ORDER_VALUE; POSITION_LIMIT]).1.
Definition submit_reject_rate (o : OMS) : double :=
  ratio (total_rejects o) (u64 (total_submitted_ o + total_rejects o)).
Definition avg_fill_size (o : OMS) : double := ratio (total_filled_shares_ o) (total_fills_ o).
Definition cancel_to_fill_ratio (o : OMS) : double := ratio (total_cancels_ o) (total_fills_ o).
Definition avg_submitted_size (o : OMS) : double := ratio (total_ordered_shares_ o) (total_submitted_ o).
Definition total_price_improvement (o : OMS) : double := to_float (price_improvement_fp_ o).
Definition avg_price_improvement_per_share (o : OMS) : double :=
  per_count (to_float (price_improvement_fp_ o)) (total_filled_shares_ o).
Definition avg_pnl_per_round_trip (o : OMS) : double := per_count (to_float (total_realized_pnl o)) (round_trips_ o).
Definition avg_net_pnl_per_round_trip (o : OMS) : double := per_count (to_float (total_net_pnl o)) (round_trips_ o).
Definition realized_pnl_per_share (o : OMS) : double :=
  per_count (to_float (total_realized_pnl o)) (total_filled_shares_ o).
Definition net_pnl_per_share (o : OMS) : double := per_count (to_float (total_net_pnl o)) (total_filled_shares_ o).
Definition symbol_round_trips (o : OMS) (sym : cstr) : Z :=
  match positions_ o !! sym_to_key sym with Some p => p_round_trips p | None => 0 end.
Definition order_fill_count (o : OMS) (id : Z) : Z :=
  match orders_ o !! id with Some x => fill_count x | None => 0 end.
Definition max_order_fill_count (o : OMS) : Z := max_of fill_count (order_list o).
Definition most_fragmented_order_id (o : OMS) : Z :=
  (foldl (fun best kv => if best.1 <? fill_count kv.2 then (fill_count kv.2, kv.1) else best)
     (0, 0) (entries (orders_ o))).2.
Definition order_fill_rate (o : OMS) : double := ratio (count_by_status o FILLED) (total_submitted_ o).
Definition cancel_rate (o : OMS) : double := ratio (total_cancels_ o) (total_submitted_ o).
Definition replace_rate (o : OMS) : double := ratio (total_replaces_ o) (total_submitted_ o).
Definition notional_fill_ratio (o : OMS) : double :=
  if dgt (total_submitted_notional_ o) d_zero
  then ddiv (total_traded_notional_ o) (total_submitted_notional_ o) else d_zero.
Definition avg_submitted_notional (o : OMS) : double := per_count (total_submitted_notional_ o) (total_submitted_ o).
Definition avg_trade_price (o : OMS) : double := per_count (total_traded_notional_ o) (total_filled_shares_ o).
Definition fill_ratio (o : OMS) : double := ratio (total_filled_shares_ o) (total_ordered_shares_ o).
Definition reset_session_counters (o : OMS) : OMS :=
  o <| total_submitted_ := 0 |> <| total_fills_ := 0 |> <| total_cancels_ := 0 |> <| total_replaces_ := 0 |>
    <| total_ordered_shares_ := 0 |> <| total_filled_shares_ := 0 |>
    <| total_traded_notional_ := d_zero |> <| total_submitted_notional_ := d_zero |>
    <| max_submitted_notional_ := d_zero |> <| price_improvement_fp_ := 0 |> <| round_trips_ := 0 |>
    <| reject_counts_ := [0; 0; 0; 0] |>.
End oms_loops.

(** ** Requests *)

Inductive oms_op :=
  | Submit (sym : option cstr) (s : Side) (px : double) (qty expire t0 t1 : Z)
  | Fill (id qty : Z) (px : double) (now : Z)
  | Cancel (id now : Z)
  | Replace (id : Z) (px : double) (qty : Z)
  | Amend (id qty : Z)
  | CancelAll (clock : Z -> Z)
  | CancelSymbol (sym : cstr) (clock : Z -> Z)
  | Purge (now : Z) (clock : Z -> Z)
  | SetCommission (per_share : double)
  | ResetCounters.

Definition oms_exec `{HashOrder} (o : OMS) (op : oms_op) : OMS :=
  match op with
  | Submit sym s px qty expire t0 t1 => (submit_order o sym s px qty expire t0 t1).1
  | Fill id qty px now => (fill_order o id qty px now).1
  | Cancel id now => cancel_order o id now
  | Replace id px qty => (replace_order o id px qty).1
  | Amend id qty => (amend_quantity o id qty).1
  | CancelAll clock => (cancel_all clock o).1
  | CancelSymbol sym clock => (cancel_all_symbol sym clock o).1
  | Purge now clock => (purge_expired now clock o).1
  | SetCommission c => set_commission o c
  | ResetCounters => reset_session_counters o
  end.

(** Quantities arrive as [uint32_t]. *)
Definition op_typed (op : oms_op) : Prop :=
  match op with
  | Submit _ _ _ qty _ _ _ | Fill _ qty _ _ | Replace _ _ qty | Amend _ qty => 0 <= qty < 2 ^ 32
  | _ => True
  end.

(** ** The invariant *)

Definition sgn (s : Side) : Z := match s with BUY => 1 | SELL => -1 end.
(** What an order still reserves of, and has executed in, the symbol of [key]. *)
Definition open_signed (key : Z) (x : Order) : Z :=
  if working_symbol key x then sgn (side x) * (quantity x - filled_qty x) else 0.
Definition exec_signed (key : Z) (x : Order) : Z :=
  if sym_to_key (symbol x) =? key then sgn (side x) * filled_qty x else 0.
Definition open_total (key : Z) (os : gmap Z Order) : Z := msum (fun _ => open_signed key) os.
Definition exec_total (key : Z) (os : gmap Z Order) : Z := msum (fun _ => exec_signed key) os.

Definition status_ok (x : Order) : Prop :=
  match status x with
  | SENT => filled_qty x = 0
  | PARTIAL => 0 < filled_qty x < quantity x
  | FILLED => filled_qty x = quantity x
  | CANCELLED => filled_qty x < quantity x
  | NEW | REJECTED => False
  end.
Record order_ok (next id : Z) (x : Order) : Prop := {
  oo_id : order_id x = id;
  oo_range : 1 <= id < next;
  oo_quantity : 0 < quantity x < 2 ^ 32;
  oo_filled : 0 <= filled_qty x <= quantity x;
  oo_status : status_ok x
}.

Record book_ok (os : gmap Z Order) (ps : gmap Z Position) (next : Z) : Prop := {
  bo_orders : forall id x, os !! id = Some x -> order_ok next id x /\ is_Some (ps !! sym_to_key (symbol x));
  bo_positions : forall key p, ps !! key = Some p ->
    sym_to_key (p_symbol p) = key /\
    pending_qty p = i32 (open_total key os) /\ net_qty p = i32 (exec_total key os)
}.
Definition oms_ok (o : OMS) : Prop := book_ok (orders_ o) (positions_ o) (next_id_ o).

Lemma signed_qty_wrap s q : signed_qty s q = i32 (sgn s * q).
Proof. destruct s; unfold signed_qty, sgn; wrap_norm; f_equal; lia. Qed.

Lemma open_signed_other key x : sym_to_key (symbol x) <> key -> open_signed key x = 0.
Proof.
  intros N. unfold open_signed, working_symbol. apply Z.eqb_neq in N. by rewrite N, andb_false_r.
Qed.
Lemma exec_signed_other key x : sym_to_key (symbol x) <> key -> exec_signed key x = 0.
Proof. intros N. unfold exec_signed. apply Z.eqb_neq in N. by rewrite N. Qed.
Lemma open_signed_own x :
  open_signed (sym_to_key (symbol x)) x = if working x then sgn (side x) * (quantity x - filled_qty x) else 0.
Proof. unfold open_signed, working_symbol. by rewrite Z.eqb_refl, andb_true_r. Qed.
Lemma exec_signed_own x : exec_signed (sym_to_key (symbol x)) x = sgn (side x) * filled_qty x.
Proof. unfold exec_signed. by rewrite Z.eqb_refl. Qed.

Lemma order_ok_weaken next next' id x : order_ok next id x -> next <= next' -> order_ok next' id x.
Proof. intros [] ?. split; try done. lia. Qed.

(** One order and the position of its symbol change together. *)
Lemma book_update os ps next id x x' p p' :
  book_ok os ps next -> os !! id = Some x -> order_ok next id x' -> symbol x' = symbol x ->
  let key := sym_to_key (symbol x) in
  ps !! key = Some p -> p_symbol p' = p_symbol p ->
  pending_qty p' = i32 (pending_qty p - open_signed key x + open_signed key x') ->
  net_qty p' = i32 (net_qty p - exec_signed key x + exec_signed key x') ->
  book_ok (<[id := x']> os) (<[key := p']> ps) next.
Proof.
  intros [Ho Hp] Hx Hx' Hs key Hk Hps Hpd Hnt. split.
  - intros i y Hy. destruct (decide (i = id)) as [->|N].
    + rewrite lookup_insert_eq in Hy. injection Hy as <-. split; [done|]. rewrite Hs.
      rewrite lookup_insert_eq. by eexists.
    + rewrite lookup_insert_ne in Hy by done. destruct (Ho i y Hy) as [H1 [q Hq]]. split; [done|].
      destruct (decide (key = sym_to_key (symbol y))) as [<-|]; [rewrite lookup_insert_eq|rewrite lookup_insert_ne by done];
        by eexists.
  - intros k q Hq. unfold open_total, exec_total. rewrite !(msum_insert _ os id x x') by done.
    fold (open_total k os) (exec_total k os). destruct (decide (k = key)) as [->|N].
    + rewrite lookup_insert_eq in Hq. injection Hq as <-. destruct (Hp key p Hk) as (H1 & H2 & H3).
      rewrite Hps, Hpd, Hnt, H2, H3. split; [done|]. by split; wrap_norm.
    + rewrite lookup_insert_ne in Hq by done. destruct (Hp k q Hq) as (H1 & H2 & H3).
      rewrite !open_signed_other, !exec_signed_other by (rewrite ?Hs; done).
      rewrite H2, H3. split; [done|]. by split; f_equal; lia.
Qed.

(** A new order of a symbol, whose position may be new too. *)
Lemma book_new os ps next x p' :
  book_ok os ps next -> order_ok (next + 1) next x -> filled_qty x = 0 ->
  let key := sym_to_key (symbol x) in
  let p := position_or_new (ps !! key) (symbol x) in
  p_symbol p' = p_symbol p -> net_qty p' = net_qty p ->
  pending_qty p' = i32 (pending_qty p + open_signed key x) ->
  book_ok (<[next := x]> os) (<[key := p']> ps) (next + 1).
Proof.
  intros [Ho Hp] Hx Hf key p Hps Hnt Hpd.
  assert (Fresh : os !! next = None).
  { destruct (os !! next) as [y|] eqn:E; [|done]. destruct (Ho _ _ E) as [[_ R _ _ _] _]. lia. }
  assert (P : sym_to_key (p_symbol p) = key /\ pending_qty p = i32 (open_total key os) /\
              net_qty p = i32 (exec_total key os)).
  { unfold p. destruct (ps !! key) as [q|] eqn:E; simpl; [by apply Hp|].
    rewrite sym_to_key_copy. split; [done|]. unfold open_total, exec_total.
    rewrite !msum_zero; [done|..]; intros i y Hy; destruct (Ho i y Hy) as [_ [q Hq]];
      (apply open_signed_other || apply exec_signed_other); congruence. }
  split.
  - intros i y Hy. destruct (decide (i = next)) as [->|N].
    + rewrite lookup_insert_eq in Hy. injection Hy as <-. split; [done|].
      rewrite lookup_insert_eq. by eexists.
    + rewrite lookup_insert_ne in Hy by done. destruct (Ho i y Hy) as [H1 [q Hq]].
      split; [apply (order_ok_weaken next); [done|lia]|].
      destruct (decide (key = sym_to_key (symbol y))) as [<-|]; [rewrite lookup_insert_eq|rewrite lookup_insert_ne by done];
        by eexists.
  - intros k q Hq. unfold open_total, exec_total. rewrite !msum_insert_new by done.
    fold (open_total k os) (exec_total k os). destruct (decide (k = key)) as [->|N].
    + rewrite lookup_insert_eq in Hq. injection Hq as <-. destruct P as (P1 & P2 & P3).
      assert (X : exec_signed key x = 0) by (unfold key; rewrite exec_signed_own, Hf; lia).
      rewrite X, Hps, Hpd, Hnt, P2, P3.
      split; [done|]. split; wrap_norm; f_equal; lia.
    + rewrite lookup_insert_ne in Hq by done. destruct (Hp k q Hq) as (H1 & H2 & H3).
      rewrite open_signed_other, exec_signed_other by done. by rewrite H2, H3.
Qed.

(** ** Every operation preserves the invariant *)

Lemma working_status x : status_ok x -> working x = true -> filled_qty x < quantity x \/ quantity x <= 0.
Proof. unfold status_ok, working. destruct (status x); try done; lia. Qed.

Lemma signed_remaining s q f : signed_qty s (u32 (i32 (i32 q - i32 f))) = i32 (sgn s * (q - f)).
Proof. rewrite signed_qty_wrap, wraps_mul_u, wraps_mul_r, <- wraps_mul_r by lia. wrap_norm. apply wraps_mul_r. lia. Qed.

Lemma apply_fill_fields pos s fq fp :
  let pos' := apply_fill_to_position pos s fq fp in
  net_qty pos' = i32 (net_qty pos + s) /\ pending_qty pos' = pending_qty pos /\
  p_symbol pos' = p_symbol pos /\ fees pos' = fees pos /\ p_round_trips pos' = p_round_trips pos.
Proof. unfold apply_fill_to_position. by repeat case_match. Qed.

Lemma submit_order_ok o sym s px qty expire t0 t1 :
  oms_ok o -> 1 <= next_id_ o < 2 ^ 64 - 1 -> 0 <= qty < 2 ^ 32 ->
  let o' := (submit_order o sym s px qty expire t0 t1).1 in
  oms_ok o' /\ next_id_ o <= next_id_ o' <= next_id_ o + 1.
Proof.
  intros Ho Hn Hq. unfold submit_order. destruct (bad_submit _ _ _) eqn:B; [split; [done|simpl; lia]|].
  destruct (_ <? _); [split; [done|simpl; lia]|]. destruct (_ <? _); [split; [done|simpl; lia]|].
  unfold oms_ok. simpl. rewrite u64_small by lia. split; [|lia].
  set (sm := default [] sym). unfold bad_submit in B. bsplit.
  set (x := mkOrder _ _ _ _ _ _ _ _ _ _ _ _ _ _).
  rewrite <- (sym_to_key_copy sm). change (copy_sym sm) with (symbol x).
  apply book_new; [done| |done| | |].
  - split; simpl; try done; lia.
  - unfold position_or_new. simpl. destruct (positions_ o !! _); simpl; [done|].
    unfold copy_sym. by rewrite take_take.
  - by destruct (positions_ o !! _).
  - rewrite open_signed_own. simpl. rewrite Z.sub_0_r. rewrite signed_qty_wrap.
    destruct (positions_ o !! _); simpl; by wrap_norm.
Qed.

(** A fill of [0 < q <= quantity - filled] shares of a working order. *)
Lemma record_fill_ok o id x q px now :
  oms_ok o -> orders_ o !! id = Some x -> working x = true -> 0 < q <= quantity x - filled_qty x ->
  let o' := record_fill o id x q px now in
  oms_ok o' /\ next_id_ o' = next_id_ o.
Proof.
  intros Ho Hx Hw Hq. cbv zeta. split; [|done]. unfold oms_ok, record_fill.
  destruct (bo_orders _ _ _ Ho id x Hx) as [[H1 H2 H3 H4 H5] [p Hp]]. rewrite Hp. cbv zeta.
  change (position_or_new (Some p) (symbol x)) with p.
  pose (p1 := p <| pending_qty ::= fun q0 => i32 (q0 - signed_qty (side x) q) |>). fold p1.
  destruct (apply_fill_fields p1 (signed_qty (side x) q) q (to_fixed px)) as (F1 & F2 & F3 & _).
  set (pos2 := apply_fill_to_position p1 _ _ _) in *. clearbody pos2. simpl in *. rewrite !u32_small by lia.
  set (x' := mkOrder _ _ _ _ _ _ _ _ _ _ _ _ _ _).
  assert (Open : open_signed (sym_to_key (symbol x)) x' = sgn (side x) * (quantity x - (filled_qty x + q))).
  { change (symbol x) with (symbol x'). rewrite open_signed_own. unfold working. simpl.
    destruct (Z.leb_spec (quantity x) (filled_qty x + q)); [|done].
    replace (quantity x - (filled_qty x + q)) with 0 by lia. lia. }
  assert (Exec : exec_signed (sym_to_key (symbol x)) x' = sgn (side x) * (filled_qty x + q))
    by exact (exec_signed_own x').
  apply (book_update _ _ _ id x x' p); [done|done| |done|done|transitivity (p_symbol pos2); [by repeat case_match|exact F3]| |].
  - split; simpl; try done; [lia|]. unfold status_ok. simpl.
    destruct (Z.leb_spec (quantity x) (filled_qty x + q)); simpl; lia.
  - transitivity (pending_qty pos2); [by repeat case_match|]. rewrite F2, signed_qty_wrap, Open, open_signed_own, Hw.
    wrap_norm. f_equal. lia.
  - transitivity (net_qty pos2); [by repeat case_match|]. rewrite F1, signed_qty_wrap, Exec, exec_signed_own.
    wrap_norm. f_equal. lia.
Qed.

Lemma remaining_exact next id x : order_ok next id x -> remaining x = quantity x - filled_qty x.
Proof.
  intros [_ _ ? ? _]. unfold remaining. destruct (Z.ltb_spec (filled_qty x) (quantity x)); [|lia].
  by rewrite u32_small by lia.
Qed.

Lemma fill_order_ok o id q px now :
  oms_ok o -> 0 <= q < 2 ^ 32 ->
  let o' := (fill_order o id q px now).1 in oms_ok o' /\ next_id_ o' = next_id_ o.
Proof.
  intros Ho Hq. unfold fill_order. destruct (Z.eqb_spec q 0); [done|].
  destruct (orders_ o !! id) as [x|] eqn:Hx; [|done]. destruct (working x) eqn:Hw; [|done].
  destruct (bo_orders _ _ _ Ho id x Hx) as [Hok _]. rewrite (remaining_exact _ _ _ Hok). cbn [negb].
  destruct (Z.eqb_spec (q `min` (quantity x - filled_qty x)) 0); [done|].
  destruct Hok. apply record_fill_ok; try done. lia.
Qed.

Lemma cancel_order_ok o id now :
  oms_ok o -> let o' := cancel_order o id now in oms_ok o' /\ next_id_ o' = next_id_ o.
Proof.
  intros Ho. unfold cancel_order. destruct (orders_ o !! id) as [x|] eqn:Hx; [|done].
  destruct (working x) eqn:Hw; [|done]. cbn [negb]. split; [|done].
  destruct (bo_orders _ _ _ Ho id x Hx) as [[H1 H2 H3 H4 H5] [p Hp]].
  unfold oms_ok. simpl. rewrite (alter_insert_lookup _ _ _ _ Hp), signed_remaining.
  set (x' := mkOrder _ _ _ _ _ _ _ _ _ _ _ _ _ _).
  apply (book_update _ _ _ id x x' p); [done|done| |done|done|done| |].
  - split; simpl; try done. unfold status_ok, working in *. simpl. destruct (status x); try done; lia.
  - change (symbol x) with (symbol x') at 2. rewrite !open_signed_own, Hw. simpl. wrap_norm. f_equal. lia.
  - change (symbol x) with (symbol x') at 2. rewrite !exec_signed_own. simpl.
    destruct (bo_positions _ _ _ Ho _ _ Hp) as (_ & _ & ->). wrap_norm. f_equal. lia.
Qed.

Lemma replace_order_ok o id px q :
  oms_ok o -> 0 <= q < 2 ^ 32 ->
  let o' := (replace_order o id px q).1 in oms_ok o' /\ next_id_ o' = next_id_ o.
Proof.
  intros Ho Hq. unfold replace_order. destruct (orders_ o !! id) as [x|] eqn:Hx; [|done].
  destruct (working x) eqn:Hw; [|done]. cbn [negb]. destruct (_ || _) eqn:B; [done|].
  destruct (max_order_value_ o <? _); [done|]. cbv zeta. destruct (max_position_ o <? _); [done|]. split; [|done]. bsplit.
  destruct (bo_orders _ _ _ Ho id x Hx) as [[O1 O2 O3 O4 O5] [p Hp]].
  unfold oms_ok. simpl. rewrite (alter_insert_lookup _ _ _ _ Hp), !signed_remaining.
  set (x' := mkOrder _ _ _ _ _ _ _ _ _ _ _ _ _ _).
  apply (book_update _ _ _ id x x' p); [done|done| |done|done|done| |].
  - split; simpl; try done; [lia|lia|]. unfold status_ok. simpl. unfold status_after. destruct (Z.leb_spec q (filled_qty x)), (Z.ltb_spec 0 (filled_qty x)); simpl; lia.
  - change (symbol x) with (symbol x') at 2. rewrite !open_signed_own, Hw.
    assert (E : (if working x' then sgn (side x') * (quantity x' - filled_qty x') else 0) = sgn (side x) * (q - filled_qty x)).
    { unfold working. simpl. unfold status_after. destruct (Z.leb_spec q (filled_qty x)).
      - replace (q - filled_qty x) with 0 by lia. simpl. lia.
      - by destruct (0 <? filled_qty x). }
    rewrite E. cbn [pending_qty set_field]. rewrite Z.add_sub_assoc, (Z.add_comm _ (i32 _)).
    wrap_norm. f_equal. lia.
  - change (symbol x) with (symbol x') at 2. rewrite !exec_signed_own. simpl.
    destruct (bo_positions _ _ _ Ho _ _ Hp) as (_ & _ & ->). wrap_norm. f_equal. lia.
Qed.

Lemma amend_quantity_ok o id q :
  oms_ok o -> 0 <= q < 2 ^ 32 ->
  let o' := (amend_quantity o id q).1 in oms_ok o' /\ next_id_ o' = next_id_ o.
Proof.
  intros Ho Hq. unfold amend_quantity. destruct (orders_ o !! id); [|done].
  destruct (negb _); [done|]. destruct (_ <=? _); [done|]. destruct (_ <? _); [done|]. by apply replace_order_ok.
Qed.

Section oms_proofs.
Context `{HashOrder}.

Lemma cancel_where_ok test clock o :
  oms_ok o -> let o' := (cancel_where test clock o).1 in oms_ok o' /\ next_id_ o' = next_id_ o.
Proof.
  intros Ho. cbv zeta. unfold cancel_where.
  assert (G : forall ids acc, oms_ok acc.1 -> let acc' := foldl (fun acc id =>
      match orders_ acc.1 !! id with
      | Some order => if test order then (cancel_order acc.1 id (clock id), acc.2 + 1) else acc
      | None => acc
      end) acc ids in oms_ok acc'.1 /\ next_id_ acc'.1 = next_id_ acc.1).
  { induction ids as [|id ids IH]; intros [a n] Ha; cbn [foldl]; [done|]. cbn [fst snd] in *.
    destruct (orders_ a !! id) as [x|]; [|by apply (IH (a, n))]. destruct (test x); [|by apply (IH (a, n))].
    destruct (cancel_order_ok a id (clock id) Ha) as [C1 C2].
    destruct (IH (cancel_order a id (clock id), n + 1) C1) as [I1 I2]. split; [done|]. rewrite I2. exact C2. }
  by apply (G _ (o, 0)).
Qed.

Lemma oms_exec_ok o op :
  oms_ok o -> op_typed op -> 1 <= next_id_ o < 2 ^ 64 - 1 ->
  oms_ok (oms_exec o op) /\ next_id_ o <= next_id_ (oms_exec o op) <= next_id_ o + 1.
Proof.
  intros Ho Ht Hn.
  assert (K : forall o', oms_ok o' /\ next_id_ o' = next_id_ o ->
    oms_ok o' /\ next_id_ o <= next_id_ o' <= next_id_ o + 1) by (intros o' [? ->]; split; [done|lia]).
  destruct op; cbn [oms_exec op_typed] in *; [|apply K ..].
  - by apply submit_order_ok.
  - by apply fill_order_ok.
  - by apply cancel_order_ok.
  - by apply replace_order_ok.
  - by apply amend_quantity_ok.
  - by apply cancel_where_ok.
  - by apply cancel_where_ok.
  - by apply cancel_where_ok.
  - done.
  - done.
Qed.

Lemma oms_run_ok ops : forall o n,
  oms_ok o -> Forall op_typed ops -> 1 <= next_id_ o <= 1 + n -> n + Z.of_nat (length ops) < 2 ^ 64 - 2 ->
  oms_ok (foldl oms_exec o ops).
Proof.
  induction ops as [|op ops IH]; intros o n Ho Ht Hn Hb; [done|]. apply Forall_cons in Ht as [Ht1 Ht2].
  simpl in Hb. destruct (oms_exec_ok o op) as [E1 E2]; [done|done|lia|].
  apply (IH _ (n + 1)); [done|done|lia|lia].
Qed.

Lemma new_oms_ok max_pos max_val c : oms_ok (new_oms max_pos max_val c).
Proof. split; intros i x E; cbn [new_oms orders_ positions_] in E; by rewrite lookup_empty in E. Qed.
End oms_proofs.

(** ** Facts about single operations *)

Lemma wrap_abs32 z : - 2 ^ 31 < z < 2 ^ 31 -> i32 (Z.abs z) = Z.abs z.
Proof. intros. apply i32_small. lia. Qed.

(** Rounding to the nearest: the average entry price of a leg grown from
    [oa] shares at [avg] by [q] shares at [fp]. *)
Lemma average_rounds avg oa fp q :
  0 <= avg -> 0 <= oa -> 0 <= fp -> 0 < q ->
  let tot := oa + q in
  let avg' := Z.quot (avg * oa + fp * q + Z.quot tot 2) tot in
  2 * Z.abs (tot * avg' - (avg * oa + fp * q)) <= tot /\ Z.min avg fp <= avg' <= Z.max avg fp.
Proof.
  intros Ha Ho Hf Hq tot avg'.
  assert (0 < tot) by (unfold tot; lia).
  assert (E : avg' = (avg * oa + fp * q + tot / 2) / tot).
  { unfold avg'. rewrite (Z.quot_div_nonneg tot 2) by lia. apply Z.quot_div_nonneg; [|lia].
    pose proof (Z.div_pos tot 2). nia. }
  pose proof (Z.div_mod (avg * oa + fp * q + tot / 2) tot) as D. rewrite <- E in D.
  pose proof (Z.mod_pos_bound (avg * oa + fp * q + tot / 2) tot) as B.
  pose proof (Z.div_mod tot 2) as D2. pose proof (Z.mod_pos_bound tot 2) as B2.
  set (N := avg * oa + fp * q) in *. split; [lia|].
  assert (Z.min avg fp * tot <= N <= Z.max avg fp * tot) by (unfold N, tot; nia). nia.
Qed.

Lemma same_direction_pnl pos s q fp m :
  0 <= avg_price pos < 2 ^ 31 -> 0 <= fp < 2 ^ 31 -> 0 < q -> Z.abs (net_qty pos) + q < 2 ^ 31 ->
  (net_qty pos =? 0) || eqb (0 <? net_qty pos) (0 <? sgn s * q) = true ->
  let pos' := apply_fill_to_position pos (sgn s * q) q fp in
  net_qty pos' = net_qty pos + sgn s * q /\ realized_pnl pos' = realized_pnl pos /\
  Z.min (avg_price pos) fp <= avg_price pos' <= Z.max (avg_price pos) fp /\
  2 * Z.abs (net_qty pos' * (m - avg_price pos') - (net_qty pos * (m - avg_price pos) + sgn s * q * (m - fp)))
    <= Z.abs (net_qty pos').
Proof.
  intros Ha Hf Hq Hn Hd. unfold apply_fill_to_position. rewrite Hd. cbv zeta. cbn -[Z.mul Z.add Z.quot Z.abs Z.min Z.max].
  rewrite wrap_abs32 by lia. rewrite (i64_small (Z.abs _ + q)) by lia.
  pose proof (average_rounds (avg_price pos) (Z.abs (net_qty pos)) fp q) as [R1 R2]; try lia. cbv zeta in *.
  rewrite (Z.quot_div_nonneg (_ + q) 2) in * by lia.
  pose proof (Z.div_pos (Z.abs (net_qty pos) + q) 2). pose proof (Z.div_le_upper_bound (Z.abs (net_qty pos) + q) 2 (Z.abs (net_qty pos) + q)).
  rewrite i64_small by nia.
  set (avg' := Z.quot _ _) in *.
  assert (Sg : sgn s = 1 \/ sgn s = -1) by (destruct s; auto).
  rewrite i32_small by (destruct Sg as [-> | ->]; lia).
  split; [done|split; [done|split; [done|]]].
  assert (D : (net_qty pos = 0 \/ (0 < net_qty pos <-> 0 < sgn s * q))).
  { apply orb_true_iff in Hd as [Hd|Hd]; [left; lia|right].
    apply eqb_prop in Hd. destruct (Z.ltb_spec 0 (net_qty pos)), (Z.ltb_spec 0 (sgn s * q)); try done; lia. }
  assert (A : Z.abs (net_qty pos + sgn s * q) = Z.abs (net_qty pos) + q) by (destruct Sg as [S|S]; rewrite S in *; lia).
  rewrite A. destruct Sg as [S|S]; rewrite S in *; [rewrite (Z.abs_eq (net_qty pos)) in *|rewrite (Z.abs_neq (net_qty pos)) in *]; try lia.
Qed.

Lemma opposite_pnl pos s q fp m :
  0 <= avg_price pos < 2 ^ 31 -> 0 <= fp < 2 ^ 31 -> 0 < q -> Z.abs (net_qty pos) + q < 2 ^ 31 ->
  Z.abs (realized_pnl pos) < 2 ^ 62 ->
  (net_qty pos =? 0) || eqb (0 <? net_qty pos) (0 <? sgn s * q) = false ->
  let pos' := apply_fill_to_position pos (sgn s * q) q fp in
  net_qty pos' = net_qty pos + sgn s * q /\ 0 <= avg_price pos' < 2 ^ 31 /\
  realized_pnl pos' + net_qty pos' * (m - avg_price pos') =
  realized_pnl pos + net_qty pos * (m - avg_price pos) + sgn s * q * (m - fp).
Proof.
  intros Ha Hf Hq Hn Hr Hd. unfold apply_fill_to_position. rewrite Hd. cbv zeta.
  apply orb_false_iff in Hd as [H0 Hd]. apply Z.eqb_neq in H0. apply eqb_false_iff in Hd.
  assert (Sg : sgn s = 1 /\ net_qty pos < 0 \/ sgn s = -1 /\ 0 < net_qty pos).
  { destruct (Z.ltb_spec 0 (net_qty pos)), (Z.ltb_spec 0 (sgn s * q)), s; simpl sgn in *; (done || lia). }
  cbn -[Z.mul Z.add Z.abs Z.min]. rewrite wrap_abs32, (i32_small (net_qty pos + sgn s * q)) by lia.
  assert (G : (0 <? net_qty pos) = (sgn s =? -1)) by (destruct Sg as [[-> ?]|[-> ?]]; simpl; lia).
  rewrite G. rewrite i64_small.
  2: { destruct Sg as [[-> ?]|[-> ?]]; cbn [Z.eqb Pos.eqb]; nia. }
  destruct (Z.eqb_spec (net_qty pos + sgn s * q) 0) as [Ez|Nz]; [|destruct (negb _) eqn:Fl];
    cbn -[Z.mul Z.add Z.abs Z.min]; (split; [done|split; [lia|]]);
    destruct Sg as [[S ?]|[S ?]]; rewrite S in *; cbn [Z.eqb Pos.eqb] in *.
  - rewrite Z.min_l by lia. rewrite Z.abs_neq by lia. replace (net_qty pos + 1 * q) with 0 by lia. nia.
  - rewrite Z.min_l by lia. rewrite Z.abs_eq by lia. replace (net_qty pos + -1 * q) with 0 by lia. nia.
  - rewrite Z.min_l by (apply negb_true_iff, eqb_false_iff in Fl; destruct (Z.ltb_spec 0 (net_qty pos + 1 * q)); (done || lia)).
    rewrite Z.abs_neq by lia. nia.
  - rewrite Z.min_l by (apply negb_true_iff, eqb_false_iff in Fl; destruct (Z.ltb_spec 0 (net_qty pos + -1 * q)); (done || lia)).
    rewrite Z.abs_eq by lia. nia.
  - rewrite Z.min_r by (apply negb_false_iff, eqb_prop in Fl; lia). nia.
  - rewrite Z.min_r by (apply negb_false_iff, eqb_prop in Fl; lia). nia.
Qed.

Lemma working_open next id x : order_ok next id x -> working x = true -> 0 <= filled_qty x < quantity x.
Proof. intros [_ _ ? ? S]. unfold status_ok, working in *. destruct (status x); (done || lia). Qed.

Lemma record_fill_effect o id x a px now :
  oms_ok o -> orders_ o !! id = Some x -> 0 < a <= quantity x - filled_qty x ->
  let key := sym_to_key (symbol x) in
  let o' := record_fill o id x a px now in
  (exists x', orders_ o' = <[id := x']> (orders_ o) /\ filled_qty x' = filled_qty x + a /\
     quantity x' = quantity x /\ price x' = price x /\
     status x' = if filled_qty x + a =? quantity x then FILLED else PARTIAL) /\
  (exists p p', positions_ o !! key = Some p /\ positions_ o' = <[key := p']> (positions_ o) /\
     net_qty p' = i32 (net_qty p + sgn (side x) * a) /\
     i32 (net_qty p' + pending_qty p') = i32 (net_qty p + pending_qty p)).
Proof.
  intros Ho Hx Ha. cbv zeta. destruct (bo_orders _ _ _ Ho id x Hx) as [[H1 H2 H3 H4 H5] [p Hp]].
  unfold record_fill. rewrite Hp. cbv zeta. change (position_or_new (Some p) (symbol x)) with p.
  pose (p1 := p <| pending_qty ::= fun q0 => i32 (q0 - signed_qty (side x) a) |>). fold p1.
  destruct (apply_fill_fields p1 (signed_qty (side x) a) a (to_fixed px)) as (F1 & F2 & F3 & _).
  set (pos2 := apply_fill_to_position p1 _ _ _) in *. clearbody pos2. simpl in *. split.
  - eexists. split; [reflexivity|]. simpl. rewrite u32_small by lia. split; [done|split; [done|split; [done|]]].
    destruct (Z.leb_spec (quantity x) (filled_qty x + a)), (Z.eqb_spec (filled_qty x + a) (quantity x)); done || lia.
  - exists p. eexists. split; [done|split; [reflexivity|]].
    match goal with |- net_qty ?P = _ /\ _ => assert (E : net_qty P = net_qty pos2 /\ pending_qty P = pending_qty pos2)
      by by repeat case_match end.
    destruct E as [-> ->]. rewrite F1, F2, signed_qty_wrap. split; wrap_norm; [done|].
    rewrite (Z.add_comm (_ + _)). wrap_norm. f_equal. lia.
Qed.

(** C11: every run of requests from an empty system keeps the books consistent:
    each order's status agrees with its filled quantity, which never exceeds
    the quantity; each symbol's pending exposure is the signed open quantity of
    its working orders and its net position the signed sum of the executed
    quantities, as 32-bit integers. *)
Theorem oms_reachable_ok `{HashOrder} max_pos max_val c ops :
  Forall op_typed ops -> Z.of_nat (length ops) < 2 ^ 64 - 2 ->
  oms_ok (foldl oms_exec (new_oms max_pos max_val c) ops).
Proof. intros Ht Hl. apply (oms_run_ok ops _ 0); [apply new_oms_ok|done|by vm_compute|done]. Qed.

(** [fill_order] applies the requested quantity clamped to what is open: the
    order's filled quantity grows by it and the order is FILLED exactly when
    nothing remains; the symbol's exposure moves from pending to net with their
    sum unchanged; nothing else changes.  Unknown, inactive and empty fills are
    ignored. *)
Lemma oms_fill_effect o id q px now :
  oms_ok o -> 0 <= q < 2 ^ 32 ->
  match orders_ o !! id with
  | Some x =>
      if working x && (0 <? q) then
        let a := Z.min q (quantity x - filled_qty x) in
        let key := sym_to_key (symbol x) in
        let o' := (fill_order o id q px now).1 in
        (fill_order o id q px now).2 = a /\ 0 < a /\
        (exists x', orders_ o' = <[id := x']> (orders_ o) /\ filled_qty x' = filled_qty x + a /\
           quantity x' = quantity x /\ price x' = price x /\
           status x' = if filled_qty x + a =? quantity x then FILLED else PARTIAL) /\
        (exists p p', positions_ o !! key = Some p /\ positions_ o' = <[key := p']> (positions_ o) /\
           net_qty p' = i32 (net_qty p + sgn (side x) * a) /\
           i32 (net_qty p' + pending_qty p') = i32 (net_qty p + pending_qty p))
      else fill_order o id q px now = (o, 0)
  | None => fill_order o id q px now = (o, 0)
  end.
Proof.
  intros Ho Hq. unfold fill_order. destruct (orders_ o !! id) as [x|] eqn:Hx; [|by destruct (q =? 0)].
  destruct (bo_orders _ _ _ Ho id x Hx) as [Hok _]. rewrite (remaining_exact _ _ _ Hok).
  destruct (Z.eqb_spec q 0) as [->|]; [by rewrite andb_false_r|]. replace (0 <? q) with true by lia.
  destruct (working x) eqn:Hw; [|done]. cbn [andb negb]. destruct (working_open _ _ _ Hok Hw).
  destruct (Z.eqb_spec (q `min` (quantity x - filled_qty x)) 0); [lia|]. cbv zeta. cbn [fst snd].
  split; [done|split; [lia|]]. apply record_fill_effect; [done|done|lia].
Qed.

(** C12: profit and loss are conserved: marked at any price [m], a fill of [q]
    shares at [fp] changes realized plus unrealized profit by the signed
    quantity times [m - fp]: exactly when it reduces, closes or flips the
    position, and within half a price unit per share held when it opens or
    grows it, where the average entry price is rounded and stays between the
    old average and the fill price. *)
Theorem oms_pnl_conserved pos s q fp m :
  0 <= avg_price pos < 2 ^ 31 -> 0 <= fp < 2 ^ 31 -> 0 < q -> Z.abs (net_qty pos) + q < 2 ^ 31 ->
  Z.abs (realized_pnl pos) < 2 ^ 62 ->
  let pos' := apply_fill_to_position pos (sgn s * q) q fp in
  let before := realized_pnl pos + net_qty pos * (m - avg_price pos) in
  let after := realized_pnl pos' + net_qty pos' * (m - avg_price pos') in
  net_qty pos' = net_qty pos + sgn s * q /\
  (if (net_qty pos =? 0) || eqb (0 <? net_qty pos) (0 <? sgn s * q)
   then 2 * Z.abs (after - (before + sgn s * q * (m - fp))) <= Z.abs (net_qty pos') /\
        Z.min (avg_price pos) fp <= avg_price pos' <= Z.max (avg_price pos) fp
   else after = before + sgn s * q * (m - fp)).
Proof.
  intros Ha Hf Hq Hn Hr. cbv zeta. destruct (_ || _) eqn:D.
  - destruct (same_direction_pnl pos s q fp m Ha Hf Hq Hn D) as (E1 & E2 & E3 & E4). split; [done|split; [|done]].
    rewrite E2. etransitivity; [|exact E4]. apply Z.eq_le_incl. do 2 f_equal. lia.
  - by destruct (opposite_pnl pos s q fp m Ha Hf Hq Hn Hr D) as (E1 & E2 & E3).
Qed.


(** the value limit does not see orders priced below one dollar: their
    price in whole dollars is zero, so an order of any size passes it. *)
Lemma oms_penny_orders_unlimited o sym s px qty expire t0 t1 :
  0 < to_fixed px < PRICE_SCALE -> 0 <= max_order_value_ o -> last_reject_ o <> ORDER_VALUE ->
  order_value (to_fixed px) qty = 0 /\
  last_reject_ (submit_order o sym s px qty expire t0 t1).1 <> ORDER_VALUE.
Proof.
  intros Hp Hm Hl.
  assert (V : order_value (to_fixed px) qty = 0) by (unfold order_value; by rewrite Z.quot_small by lia).
  split; [done|]. unfold submit_order. rewrite V. destruct (bad_submit _ _ _); [done|].
  replace (max_order_value_ o <? 0) with false by lia. by destruct (_ <? _).
Qed.

Section oms_cancel_all.
Context `{HashOrder}.

Definition cancel_step (test : Order -> bool) (clock : Z -> Z) (acc : OMS * Z) (id : Z) : OMS * Z :=
  match orders_ acc.1 !! id with
  | Some order => if test order then (cancel_order acc.1 id (clock id), acc.2 + 1) else acc
  | None => acc
  end.
Definition is_working (os : gmap Z Order) (id : Z) : Z :=
  match os !! id with Some x => if working x then 1 else 0 | None => 0 end.

Lemma cancel_order_effect o id now x :
  orders_ o !! id = Some x -> working x = true ->
  (exists x', orders_ (cancel_order o id now) = <[id := x']> (orders_ o) /\ working x' = false) /\
  forall key, net_qty <$> positions_ (cancel_order o id now) !! key = net_qty <$> positions_ o !! key.
Proof.
  intros Hx Hw. unfold cancel_order. rewrite Hx, Hw. simpl. split; [by eexists|].
  intros key. destruct (decide (key = sym_to_key (symbol x))) as [->|].
  - rewrite lookup_alter_eq. by destruct (positions_ o !! _).
  - by rewrite lookup_alter_ne by done.
Qed.

Lemma cancel_fold clock ids : forall acc, NoDup ids ->
  let r := foldl (cancel_step working clock) acc ids in
  (forall j, j ∉ ids -> orders_ r.1 !! j = orders_ acc.1 !! j) /\
  (forall j x, j ∈ ids -> orders_ r.1 !! j = Some x -> working x = false) /\
  r.2 = acc.2 + sumf (is_working (orders_ acc.1)) ids /\
  forall key, net_qty <$> positions_ r.1 !! key = net_qty <$> positions_ acc.1 !! key.
Proof.
  induction ids as [|id ids IH]; intros acc Hn; cbn [foldl sumf foldr].
  - split; [done|split; [by intros ?? ?%elem_of_nil|split; [lia|done]]].
  - apply NoDup_cons in Hn as [Hid Hn]. destruct (IH (cancel_step working clock acc id) Hn) as (I1 & I2 & I3 & I4).
    set (r := foldl _ _ ids) in *. clearbody r.
    assert (S : (forall j, j <> id -> orders_ (cancel_step working clock acc id).1 !! j = orders_ acc.1 !! j) /\
      (forall x, orders_ (cancel_step working clock acc id).1 !! id = Some x -> working x = false) /\
      (cancel_step working clock acc id).2 = acc.2 + is_working (orders_ acc.1) id /\
      forall key, net_qty <$> positions_ (cancel_step working clock acc id).1 !! key = net_qty <$> positions_ acc.1 !! key).
    { unfold cancel_step, is_working. destruct (orders_ acc.1 !! id) as [x|] eqn:Hx.
      - destruct (working x) eqn:Hw; cbn [fst snd].
        + destruct (cancel_order_effect acc.1 id (clock id) x Hx Hw) as [[x' [E W]] N]. rewrite E.
          split; [intros j Hj; by rewrite lookup_insert_ne by done|split; [|done]].
          intros y. rewrite lookup_insert_eq. by intros [= <-].
        + split; [done|split; [congruence|split; [lia|done]]].
      - split; [done|split; [congruence|split; [lia|done]]]. }
    destruct S as (S1 & S2 & S3 & S4). split; [|split; [|split]].
    + intros j Hj. rewrite I1, S1; [done|..]; intros ?; apply Hj; [subst; by left|by right].
    + intros j x [->|Hj]%elem_of_cons Hx; [|by eapply I2]. rewrite I1 in Hx by done. by apply S2.
    + rewrite I3, S3. unfold sumf. cbn [foldr]. rewrite <- Z.add_assoc. do 2 f_equal.
      apply sumf_ext. intros j Hj. unfold is_working. by rewrite S1 by set_solver.
    + intros key. by rewrite I4, S4.
Qed.

Lemma entries_lookup {V} (m : gmap Z V) k v : (k, v) ∈ entries m <-> m !! k = Some v.
Proof. rewrite (entries_perm V m). apply elem_of_map_to_list. Qed.
Lemma entries_keys {V} (m : gmap Z V) : NoDup (entries m).*1 /\ forall k, k ∈ (entries m).*1 <-> is_Some (m !! k).
Proof.
  split; [rewrite (entries_perm V m); apply NoDup_fst_map_to_list|].
  intros k. rewrite list_elem_of_fmap. split.
  - intros ([k' v] & -> & Hin). exists v. by apply entries_lookup.
  - intros [v Hv]. exists (k, v). split; [done|]. by apply entries_lookup.
Qed.

(** [cancel_all] leaves no working order and no pending exposure in any
    symbol, keeps every net position, and returns how many orders were
    working, whatever order the hash table visits them in. *)
Lemma oms_cancel_all_clears o clock :
  oms_ok o ->
  let r := cancel_all clock o in
  r.2 = working_order_count o /\
  (forall id x, orders_ r.1 !! id = Some x -> working x = false) /\
  forall key, match positions_ r.1 !! key with
              | Some p => pending_qty p = 0 /\ exists p0, positions_ o !! key = Some p0 /\ net_qty p = net_qty p0
              | None => positions_ o !! key = None
              end.
Proof.
  intros Ho. destruct (entries_keys (orders_ o)) as [Nd Keys].
  destruct (cancel_fold clock (entries (orders_ o)).*1 (o, 0) Nd) as (F1 & F2 & F3 & F4).
  destruct (cancel_where_ok working clock o Ho) as [Hok _].
  fold (cancel_step working clock) in Hok. cbv zeta. unfold cancel_all, cancel_where in *. fold (cancel_step working clock) in *.
  set (r := foldl _ _ _) in *. cbn [fst snd] in *. clearbody r.
  assert (W : forall id x, orders_ r.1 !! id = Some x -> working x = false).
  { intros id x Hx. destruct (decide (id ∈ (entries (orders_ o)).*1)) as [Hin|Hout]; [by eapply F2|].
    rewrite F1 in Hx by done. exfalso. apply Hout, Keys. by eexists. }
  split; [|split; [done|]].
  - rewrite F3. unfold working_order_count, count_if, order_list, values. rewrite !sumf_fmap, Z.add_0_l.
    apply sumf_ext. intros [k x] Hin. apply entries_lookup in Hin. unfold is_working. cbn [fst snd]. by rewrite Hin.
  - intros key. specialize (F4 key). destruct (positions_ r.1 !! key) as [p|] eqn:Hp; simpl in F4.
    + destruct (positions_ o !! key) as [p0|]; [|done]. injection F4 as F4. split; [|by exists p0].
      destruct (bo_positions _ _ _ Hok key p Hp) as (_ & -> & _). unfold open_total. rewrite msum_zero; [done|].
      intros i x Hx. unfold open_signed, working_symbol. by rewrite (W i x Hx).
    + by destruct (positions_ o !! key).
Qed.
End oms_cancel_all.

(** ** A session: buy 100 AAPL at 150.25, 40 filled at 150.00, offer 30 *)

Definition AAPL : cstr := [65; 65; 80; 76].
Definition demo_ops : list oms_op :=
  [ Submit (Some AAPL) BUY (dratio 15025 100) 100 0 10 11; Fill 1 40 (dratio 150 1) 20;
    Submit (Some AAPL) SELL (dratio 151 1) 30 0 30 31 ].
Definition demo_oms : OMS := foldl oms_exec (new_oms 1000 (dbl_of_Z 100000) d_zero) demo_ops.
Lemma demo_oms_ok : oms_ok demo_oms.
Proof. apply (oms_run_ok demo_ops _ 0); [apply new_oms_ok|repeat constructor; lia|by vm_compute|by vm_compute]. Qed.

Lemma oms_reachable_ok_witness :
  oms_ok (foldl oms_exec (new_oms 1000 (dbl_of_Z 100000) d_zero) demo_ops).
Proof. apply oms_reachable_ok; [repeat constructor; lia|by vm_compute]. Defined.

Definition demo_order : Order :=
  Eval vm_compute in default (new_order 0 [] BUY 0 0) (orders_ demo_oms !! 1).
Lemma oms_fill_effect_witness : (fill_order demo_oms 1 100 (dratio 150 1) 40).2 = 60.
Proof.
  pose proof (oms_fill_effect demo_oms 1 100 (dratio 150 1) 40 demo_oms_ok ltac:(lia)) as W.
  assert (E : orders_ demo_oms !! 1 = Some demo_order) by by vm_compute.
  rewrite E in W. exact (proj1 W).
Defined.

Lemma oms_pnl_conserved_witness :
  let pos := new_position AAPL <| net_qty := 40 |> <| avg_price := 1500000 |> in
  net_qty (apply_fill_to_position pos (sgn SELL * 100) 100 1510000) = 40 + sgn SELL * 100.
Proof.
  intros pos. refine (proj1 (oms_pnl_conserved pos SELL 100 1510000 0 _ _ _ _ _)); simpl; lia.
Defined.


(** 4294967295 shares at $0.99 pass both limits of a default account: the value
    limit sees 0 dollars and the position limit sees the quantity as -1. *)
Lemma oms_penny_orders_unlimited_witness :
  let o := new_oms 1000 (dbl_of_Z 100000) d_zero in
  let r := submit_order o (Some AAPL) BUY (dratio 99 100) 4294967295 0 0 0 in
  order_value (to_fixed (dratio 99 100)) 4294967295 = 0 /\ last_reject_ r.1 <> ORDER_VALUE /\ r.2 = Some 1.
Proof.
  intros o r.
  destruct (oms_penny_orders_unlimited o (Some AAPL) BUY (dratio 99 100) 4294967295 0 0 0) as [W1 W2];
    [by vm_compute|by vm_compute|done|].
  split; [exact W1|split; [exact W2|by vm_compute]].
Defined.

Lemma oms_cancel_all_clears_witness :
  (cancel_all (fun _ => 50) demo_oms).2 = working_order_count demo_oms /\ working_order_count demo_oms = 2.
Proof.
  split; [exact (proj1 (oms_cancel_all_clears demo_oms (fun _ => 50) demo_oms_ok))|by vm_compute].
Defined.
