(* ===== verification/Risk.v ===== *)
(** * Risk: the pre-trade risk manager

    [risk/risk_manager.hpp].  [RiskManager] keeps realized and pending
    quantities per symbol, the portfolio exposure denormalised from them, the
    day's profit and loss, a kill switch with the reason it tripped, a
    one-second rate window and the day's statistics.  [check_order] runs the
    checks in order and reports the first that fails; the other operations
    record what happened to the order.

    The clock readings of a call are arguments.  Persistence is file I/O: the
    write is left out and [load_persisted_state] takes what [fscanf] read.
    [pnl_expected_shortfall] needs [exp] of the C library and is left out. *)
From S2P Require Import Prelude Double Ring Common.

Inductive RiskAction := ALLOW | REJECT | KILL.
Definition action_str (a : RiskAction) : string :=
  match a with ALLOW => "ALLOW" | REJECT => "REJECT" | KILL => "KILL" end.
Inductive KillReason := KR_NONE | MANUAL | CIRCUIT_BREAKER | DRAWDOWN | CONSECUTIVE_LOSSES.
Definition kill_index (r : KillReason) : Z :=
  match r with KR_NONE => 0 | MANUAL => 1 | CIRCUIT_BREAKER => 2 | DRAWDOWN => 3 | CONSECUTIVE_LOSSES => 4 end.
Definition kill_reason_str (r : KillReason) : string :=
  match r with
  | KR_NONE => "NONE" | MANUAL => "MANUAL" | CIRCUIT_BREAKER => "CIRCUIT_BREAKER"
  | DRAWDOWN => "DRAWDOWN" | CONSECUTIVE_LOSSES => "CONSECUTIVE_LOSSES"
  end.

Record RiskCheckResult := mkResult { action : RiskAction; reason : string; latency_ns : Z }.

Record RiskLimits := mkLimits {
  max_position_per_symbol : Z; max_portfolio_exposure : Z; max_daily_loss : Z;
  max_orders_per_second : Z; max_order_value : Z; max_drawdown_pct : double;
  max_price_band_pct : double; max_shares_per_order : Z; max_short_per_symbol : Z;
  max_consecutive_losses : Z; max_daily_traded_notional : double; min_price : double;
  max_symbol_notional : double
}.
Definition default_limits : RiskLimits :=
  mkLimits 5000 50000 100000 1000 500000 (dbl_of_Z 5) (dbl_of_Z 20) 100000 0 0 d_zero d_zero d_zero.

Record RiskManager := mkRisk {
  limits_ : RiskLimits;
  positions_ : gmap Z Z; pending_ : gmap Z Z; total_abs_exposure_ : Z;
  daily_pnl_ : double; peak_pnl_ : double; max_drawdown_dollars_ : double;
  consec_losses_ : Z; consec_wins_ : Z; max_consec_losses_ : Z;
  winning_updates_ : Z; losing_updates_ : Z; win_pnl_sum_ : double; loss_pnl_sum_ : double;
  pnl_sum_ : double; pnl_sumsq_ : double; pnl_sumcube_ : double; pnl_sumquart_ : double;
  pnl_updates_ : Z; loss_sumsq_ : double; max_gain_ : double; max_loss_ : double;
  underwater_updates_ : Z; max_underwater_updates_ : Z; total_underwater_updates_ : Z;
  dd_sumsq_ : double; max_consec_wins_ : Z; kill_activations_ : Z; kill_counts_ : list Z;
  traded_notional_ : double; kill_switch_active_ : bool; kill_reason_ : KillReason;
  persist_path_ : cstr; ref_price_ : gmap Z double; restricted_ : gset Z;
  symbol_pos_limit_ : gmap Z Z; rate_ring_ : TimestampRing;
  total_checks_ : Z; total_rejects_ : Z; total_latency_ns_ : Z
}.
#[export] Instance eta_risk : Settable RiskManager := fun r =>
  mkRisk (limits_ r) (positions_ r) (pending_ r) (total_abs_exposure_ r) (daily_pnl_ r) (peak_pnl_ r)
    (max_drawdown_dollars_ r) (consec_losses_ r) (consec_wins_ r) (max_consec_losses_ r)
    (winning_updates_ r) (losing_updates_ r) (win_pnl_sum_ r) (loss_pnl_sum_ r) (pnl_sum_ r)
    (pnl_sumsq_ r) (pnl_sumcube_ r) (pnl_sumquart_ r) (pnl_updates_ r) (loss_sumsq_ r) (max_gain_ r)
    (max_loss_ r) (underwater_updates_ r) (max_underwater_updates_ r) (total_underwater_updates_ r)
    (dd_sumsq_ r) (max_consec_wins_ r) (kill_activations_ r) (kill_counts_ r) (traded_notional_ r)
    (kill_switch_active_ r) (kill_reason_ r) (persist_path_ r) (ref_price_ r) (restricted_ r)
    (symbol_pos_limit_ r) (rate_ring_ r) (total_checks_ r) (total_rejects_ r) (total_latency_ns_ r).

(** [TimestampRing<4096>]. *)
Definition RATE_BITS : nat := 12.
Definition new_risk (l : RiskLimits) : RiskManager :=
  mkRisk l ∅ ∅ 0 d_zero d_zero d_zero 0 0 0 0 0 d_zero d_zero d_zero d_zero d_zero d_zero 0 d_zero
    d_zero d_zero 0 0 0 d_zero 0 0 [0; 0; 0; 0; 0] d_zero false KR_NONE [] ∅ ∅ ∅ (ts_new RATE_BITS) 0 0 0.

(** ** Helpers *)

Definition signed_qty (s : Side) (qty : Z) : Z := match s with BUY => qty | SELL => i32 (- qty) end.
Definition lookup_qty (m : gmap Z Z) (key : Z) : Z := default 0 (m !! key).
Definition adjust_pending (r : RiskManager) (key delta : Z) : RiskManager :=
  let pos := lookup_qty (positions_ r) key in
  let old_pend := lookup_qty (pending_ r) key in
  let new_pend := i32 (old_pend + delta) in
  r <| pending_ ::= <[key := new_pend]> |>
    <| total_abs_exposure_ ::= fun t =>
         i64 (t + i32 (i32 (Z.abs (i32 (pos + new_pend))) - i32 (Z.abs (i32 (pos + old_pend))))) |>.

Definition latch_kill_switch (r : RiskManager) (why : KillReason) : RiskManager :=
  let r := if kill_switch_active_ r then r else
    r <| kill_activations_ ::= fun n => u64 (n + 1) |>
      <| kill_counts_ ::= fun c => aset c (kill_index why) (u64 (aget c (kill_index why) + 1)) |> in
  r <| kill_switch_active_ := true |> <| kill_reason_ := why |>.

Definition make_reject (r : RiskManager) (why : string) (t0 t1 : Z) : RiskManager * RiskCheckResult :=
  let elapsed := i64 (t1 - t0) in
  (r <| total_rejects_ ::= fun n => u64 (n + 1) |> <| total_latency_ns_ ::= fun n => u64 (n + elapsed) |>,
   mkResult REJECT why elapsed).

Definition drawdown_pct (r : RiskManager) : double :=
  dmul (ddiv (dsub (peak_pnl_ r) (daily_pnl_ r)) (peak_pnl_ r)) (dbl_of_Z 100).
Definition check_pnl_breakers (r : RiskManager) : RiskManager * option string :=
  if dlt (daily_pnl_ r) (dneg (dbl_of_Z (max_daily_loss (limits_ r))))
  then (latch_kill_switch r CIRCUIT_BREAKER, Some "Circuit breaker: daily loss limit"%string) else
  if dgt (peak_pnl_ r) d_zero && dgt (drawdown_pct r) (max_drawdown_pct (limits_ r))
  then (latch_kill_switch r DRAWDOWN, Some "Drawdown limit exceeded"%string)
  else (r, None).

Definition ONE_SECOND : Z := 1000000000.
Definition check_rate_limit (r : RiskManager) (now : Z) : RiskManager * bool :=
  let r := r <| rate_ring_ ::= fun q => evict RATE_BITS q (i64 (now - ONE_SECOND)) |> in
  if max_orders_per_second (limits_ r) <=? i32 (ts_count RATE_BITS (rate_ring_ r)) then (r, false)
  else (r <| rate_ring_ ::= fun q => ts_push RATE_BITS q now |>, true).

Definition long_cap (r : RiskManager) (key : Z) : Z :=
  default (max_position_per_symbol (limits_ r)) (symbol_pos_limit_ r !! key).
Definition short_cap (r : RiskManager) (key : Z) : Z :=
  if 0 <? max_short_per_symbol (limits_ r) then max_short_per_symbol (limits_ r) else long_cap r key.
Definition exposure_at (r : RiskManager) (key : Z) : Z :=
  i32 (lookup_qty (positions_ r) key + lookup_qty (pending_ r) key).
Definition projected_at (r : RiskManager) (key : Z) (s : Side) (quantity : Z) : Z :=
  i32 (exposure_at r key + signed_qty s quantity).
Definition d_int (z : Z) : double := dbl_of_Z z.
Definition band_breach (r : RiskManager) (key : Z) (price : double) : bool :=
  dgt (max_price_band_pct (limits_ r)) d_zero &&
  match ref_price_ r !! key with
  | Some rp => dgt rp d_zero &&
      dgt (dmul (ddiv (dabs (dsub price rp)) rp) (dbl_of_Z 100)) (max_price_band_pct (limits_ r))
  | None => false
  end.
Definition symbol_notional_breach (r : RiskManager) (projected : Z) (price : double) : bool :=
  dgt (max_symbol_notional (limits_ r)) d_zero &&
  dgt (dmul (d_int (i32 (Z.abs projected))) price) (max_symbol_notional (limits_ r)).

(** The checks of [check_order] up to the portfolio exposure, in its order;
    they do not change the state. *)
Definition static_failure (r : RiskManager) (symbol : cstr) (s : Side) (price : double) (quantity : Z)
    : option string :=
  let key := sym_to_key symbol in
  let l := limits_ r in
  if kill_switch_active_ r then Some "Kill switch active"%string else
  if bool_decide (key ∈ restricted_ r) then Some "Symbol restricted"%string else
  if max_order_value l <? dbl_to_i64 (dmul price (d_int quantity)) then Some "Order value exceeds limit"%string else
  if (0 <? max_shares_per_order l) && (max_shares_per_order l <? quantity)
  then Some "Order quantity exceeds limit"%string else
  if dgt (min_price l) d_zero && dlt price (min_price l) then Some "Price below minimum (penny stock)"%string else
  if band_breach r key price then Some "Price band breach (fat-finger)"%string else
  if dgt (max_daily_traded_notional l) d_zero && dge (traded_notional_ r) (max_daily_traded_notional l)
  then Some "Daily traded notional limit"%string else
  let projected := projected_at r key s quantity in
  if (0 <=? projected) && (long_cap r key <? projected) then Some "Position limit exceeded"%string else
  if (projected <? 0) && (short_cap r key <? i32 (- projected)) then Some "Short position limit exceeded"%string else
  if symbol_notional_breach r projected price then Some "Symbol notional limit"%string else
  if max_portfolio_exposure l <?
     i64 (total_abs_exposure_ r - i32 (Z.abs (exposure_at r key)) + i32 (Z.abs projected))
  then Some "Portfolio exposure exceeded"%string
  else None.

(** [t0] is the first clock reading, [now] the one of the rate check and [t1]
    the one the latency is measured at. *)
Definition check_order (r : RiskManager) (symbol : cstr) (s : Side) (price : double) (quantity : Z)
    (t0 now t1 : Z) : RiskManager * RiskCheckResult :=
  let r := r <| total_checks_ ::= fun n => u64 (n + 1) |> in
  match static_failure r symbol s price quantity with
  | Some why => make_reject r why t0 t1
  | None =>
      match check_pnl_breakers r with
      | (r, Some why) => make_reject r why t0 t1
      | (r, None) =>
          let '(r, within_rate) := check_rate_limit r now in
          if negb within_rate then make_reject r "Rate limit exceeded" t0 t1 else
          let elapsed := i64 (t1 - t0) in
          (r <| total_latency_ns_ ::= fun n => u64 (n + elapsed) |>,
           mkResult ALLOW "All checks passed" elapsed)
      end
  end.

(** ** Recording what happened to an order *)

Definition on_order_sent (r : RiskManager) (symbol : cstr) (s : Side) (quantity : Z) : RiskManager :=
  adjust_pending r (sym_to_key symbol) (signed_qty s quantity).
Definition on_order_cancelled (r : RiskManager) (symbol : cstr) (s : Side) (remaining : Z) : RiskManager :=
  adjust_pending r (sym_to_key symbol) (i32 (- signed_qty s remaining)).
Definition update_position (r : RiskManager) (symbol : cstr) (s : Side) (quantity : Z) : RiskManager :=
  let signed_q := signed_qty s quantity in
  let key := sym_to_key symbol in
  r <| positions_ ::= fun m => <[key := i32 (lookup_qty m key + signed_q)]> m |>
    <| pending_ ::= fun m => <[key := i32 (lookup_qty m key - signed_q)]> m |>.

Definition dincr (x d : double) : double := dadd x d.
Definition record_drawdown (r : RiskManager) : RiskManager :=
  let dd_now := dsub (peak_pnl_ r) (daily_pnl_ r) in
  let r := r <| max_drawdown_dollars_ ::= fun m => if dgt dd_now m then dd_now else m |>
             <| dd_sumsq_ ::= fun x => dadd x (dmul dd_now dd_now) |> in
  if dlt (daily_pnl_ r) (peak_pnl_ r) then
    let n := i32 (underwater_updates_ r + 1) in
    r <| underwater_updates_ := n |>
      <| total_underwater_updates_ ::= fun t => u64 (t + 1) |>
      <| max_underwater_updates_ ::= fun m => if m <? n then n else m |>
  else r <| underwater_updates_ := 0 |>.
Definition record_loss (r : RiskManager) (pnl_change : double) : RiskManager :=
  let n := i32 (consec_losses_ r + 1) in
  let loss := dneg pnl_change in
  let r := r <| consec_losses_ := n |> <| consec_wins_ := 0 |>
    <| losing_updates_ ::= fun x => u64 (x + 1) |>
    <| loss_pnl_sum_ ::= fun x => dsub x pnl_change |>
    <| loss_sumsq_ ::= fun x => dadd x (dmul pnl_change pnl_change) |>
    <| max_loss_ ::= fun m => if dgt loss m then loss else m |>
    <| max_consec_losses_ ::= fun m => if m <? n then n else m |> in
  if (0 <? max_consecutive_losses (limits_ r)) && (max_consecutive_losses (limits_ r) <=? n)
  then latch_kill_switch r CONSECUTIVE_LOSSES else r.
Definition record_win (r : RiskManager) (pnl_change : double) : RiskManager :=
  let n := i32 (consec_wins_ r + 1) in
  r <| consec_losses_ := 0 |> <| consec_wins_ := n |>
    <| winning_updates_ ::= fun x => u64 (x + 1) |>
    <| win_pnl_sum_ ::= fun x => dadd x pnl_change |>
    <| max_gain_ ::= fun m => if dgt pnl_change m then pnl_change else m |>
    <| max_consec_wins_ ::= fun m => if m <? n then n else m |>.
Definition update_pnl (r : RiskManager) (pnl_change : double) : RiskManager :=
  let sq := dmul pnl_change pnl_change in
  let r := r <| pnl_sum_ ::= fun x => dadd x pnl_change |> <| pnl_sumsq_ ::= fun x => dadd x sq |>
             <| pnl_sumcube_ ::= fun x => dadd x (dmul sq pnl_change) |>
             <| pnl_sumquart_ ::= fun x => dadd x (dmul sq sq) |>
             <| pnl_updates_ ::= fun n => u64 (n + 1) |>
             <| daily_pnl_ ::= fun x => dadd x pnl_change |> in
  let r := r <| peak_pnl_ ::= fun p => if dgt (daily_pnl_ r) p then daily_pnl_ r else p |> in
  let r := record_drawdown r in
  if dlt pnl_change d_zero then record_loss r pnl_change
  else if dgt pnl_change d_zero then record_win r pnl_change
  else r.

(** ** Controls *)

Definition update_reference_price (r : RiskManager) (symbol : cstr) (price : double) : RiskManager :=
  if dgt price d_zero then r <| ref_price_ ::= <[sym_to_key symbol := price]> |> else r.
Definition add_traded_notional (r : RiskManager) (notional : double) : RiskManager :=
  if dgt notional d_zero then r <| traded_notional_ ::= fun x => dadd x notional |> else r.
Definition set_symbol_position_limit (r : RiskManager) (symbol : cstr) (limit : Z) : RiskManager :=
  let k := sym_to_key symbol in
  r <| symbol_pos_limit_ ::= fun m => if 0 <? limit then <[k := limit]> m else delete k m |>.
Definition restrict_symbol (r : RiskManager) (symbol : cstr) : RiskManager :=
  r <| restricted_ ::= fun s => {[sym_to_key symbol]} ∪ s |>.
Definition allow_symbol (r : RiskManager) (symbol : cstr) : RiskManager :=
  r <| restricted_ ::= fun s => s ∖ {[sym_to_key symbol]} |>.
Definition is_restricted (r : RiskManager) (symbol : cstr) : bool :=
  bool_decide (sym_to_key symbol ∈ restricted_ r).
Definition clear_restricted (r : RiskManager) : RiskManager := r <| restricted_ := ∅ |>.
Definition activate_kill_switch (r : RiskManager) : RiskManager := latch_kill_switch r MANUAL.
Definition deactivate_kill_switch (r : RiskManager) : RiskManager :=
  r <| kill_switch_active_ := false |> <| kill_reason_ := KR_NONE |>.
Definition set_limits (r : RiskManager) (l : RiskLimits) : RiskManager := r <| limits_ := l |>.
Definition set_persist_path (r : RiskManager) (path : option cstr) : RiskManager :=
  r <| persist_path_ := default [] path |>.
(** [file] is what [fscanf] returned: the number of fields read, [active] and
    [last_pnl]; [None] when the file cannot be opened. *)
Definition load_persisted_state (r : RiskManager) (file : option (Z * Z * double)) : RiskManager * bool :=
  match persist_path_ r, file with
  | [], _ | _, None => (r, false)
  | _, Some (n, active, pnl) =>
      if n <? 1 then (r, false) else
      let r := r <| kill_switch_active_ := negb (active =? 0) |> in
      ((if 2 <=? n then r <| daily_pnl_ := pnl |> else r), true)
  end.
Definition reset_daily `{HashOrder} (r : RiskManager) : RiskManager :=
  r <| daily_pnl_ := d_zero |> <| peak_pnl_ := d_zero |> <| max_drawdown_dollars_ := d_zero |>
    <| consec_losses_ := 0 |> <| consec_wins_ := 0 |> <| max_consec_losses_ := 0 |>
    <| winning_updates_ := 0 |> <| losing_updates_ := 0 |> <| win_pnl_sum_ := d_zero |>
    <| loss_pnl_sum_ := d_zero |> <| pnl_sum_ := d_zero |> <| pnl_sumsq_ := d_zero |>
    <| pnl_sumcube_ := d_zero |> <| pnl_sumquart_ := d_zero |> <| pnl_updates_ := 0 |>
    <| loss_sumsq_ := d_zero |> <| max_gain_ := d_zero |> <| max_loss_ := d_zero |>
    <| underwater_updates_ := 0 |> <| max_underwater_updates_ := 0 |> <| total_underwater_updates_ := 0 |>
    <| dd_sumsq_ := d_zero |> <| max_consec_wins_ := 0 |> <| kill_activations_ := 0 |>
    <| kill_counts_ := [0; 0; 0; 0; 0] |> <| traded_notional_ := d_zero |>
    <| rate_ring_ ::= ts_reset |> <| pending_ := ∅ |>
    <| kill_switch_active_ := false |> <| kill_reason_ := KR_NONE |>
    <| total_abs_exposure_ := sum64 (fun v => i32 (Z.abs v)) (values (positions_ r)) |>.

(** ** Queries *)

Definition pct (x limit : double) : double := dmul (ddiv x limit) (dbl_of_Z 100).
Definition floor0 (x : double) : double := if dgt x d_zero then x else d_zero.

Definition daily_turnover_pct (r : RiskManager) : double :=
  if dle (max_daily_traded_notional (limits_ r)) d_zero then d_zero
  else pct (traded_notional_ r) (max_daily_traded_notional (limits_ r)).
Definition kill_count (r : RiskManager) (k : KillReason) : Z := aget (kill_counts_ r) (kill_index k).
Definition most_common_kill_reason (r : RiskManager) : KillReason :=
  (foldl (fun best k => if best.2 <? kill_count r k then (k, kill_count r k) else best)
     (KR_NONE, 0) [MANUAL; CIRCUIT_BREAKER; DRAWDOWN; CONSECUTIVE_LOSSES]).1.
Definition get_position (r : RiskManager) (symbol : cstr) : Z := lookup_qty (positions_ r) (sym_to_key symbol).
Definition get_pending (r : RiskManager) (symbol : cstr) : Z := lookup_qty (pending_ r) (sym_to_key symbol).
Definition get_exposure (r : RiskManager) (symbol : cstr) : Z := i32 (Z.abs (exposure_at r (sym_to_key symbol))).

Section risk_loops.
Context `{HashOrder}.
Definition total_pending_exposure (r : RiskManager) : Z := sum64 (fun v => i32 (Z.abs v)) (values (pending_ r)).
Definition net_exposure (r : RiskManager) : Z :=
  foldl (fun s v => i64 (s + v)) (sum64 id (values (positions_ r))) (values (pending_ r)).
Definition long_exposure (r : RiskManager) : Z := Z.quot (i64 (total_abs_exposure_ r + net_exposure r)) 2.
Definition short_exposure (r : RiskManager) : Z := Z.quot (i64 (total_abs_exposure_ r - net_exposure r)) 2.
Definition portfolio_skew (r : RiskManager) : double :=
  if 0 <? total_abs_exposure_ r then ddiv (dbl_of_Z (net_exposure r)) (dbl_of_Z (total_abs_exposure_ r)) else d_zero.

(** The two loops of [largest_symbol_exposure]: the best exposure so far and
    its key. *)
Definition symbol_exposures (r : RiskManager) : list (Z * Z) :=
  ((fun kv => (kv.1, Z.abs (kv.2 + lookup_qty (pending_ r) kv.1))) <$> entries (positions_ r)) ++
  ((fun kv => (kv.1, Z.abs kv.2)) <$>
     filter (fun kv => positions_ r !! kv.1 = None) (entries (pending_ r))).
Definition largest_exposure (r : RiskManager) : Z * Z :=
  foldl (fun best ke => if best.2 <? ke.2 then ke else best) (0, 0) (symbol_exposures r).
Definition largest_symbol_exposure (r : RiskManager) : Z := (largest_exposure r).2.
Definition largest_exposure_symbol (r : RiskManager) : cstr * Z :=
  let '(mkey, m) := largest_exposure r in (if 0 <? m then key_to_sym mkey else [], m).
Definition exposure_concentration (r : RiskManager) : double :=
  if 0 <? total_abs_exposure_ r
  then ddiv (dbl_of_Z (largest_symbol_exposure r)) (dbl_of_Z (total_abs_exposure_ r)) else d_zero.
End risk_loops.

Definition exposure_utilization_pct (r : RiskManager) : double :=
  if max_portfolio_exposure (limits_ r) <=? 0 then d_zero
  else pct (dbl_of_Z (total_abs_exposure_ r)) (dbl_of_Z (max_portfolio_exposure (limits_ r))).
Definition exposure_headroom (r : RiskManager) : Z :=
  let cap := max_portfolio_exposure (limits_ r) in
  if cap <=? 0 then 0 else if total_abs_exposure_ r <? cap then i64 (cap - total_abs_exposure_ r) else 0.
Definition is_near_position_limit (r : RiskManager) (symbol : cstr) (warn_pct : double) : bool :=
  let cap := long_cap r (sym_to_key symbol) in
  if cap <=? 0 then false
  else dge (dbl_of_Z (get_exposure r symbol)) (ddiv (dmul (dbl_of_Z cap) warn_pct) (dbl_of_Z 100)).
Definition position_utilization_pct (r : RiskManager) (symbol : cstr) : double :=
  let cap := long_cap r (sym_to_key symbol) in
  if cap <=? 0 then d_zero else pct (dbl_of_Z (get_exposure r symbol)) (dbl_of_Z cap).
Definition projected_exposure (r : RiskManager) (symbol : cstr) (s : Side) (qty : Z) : Z :=
  i32 (Z.abs (projected_at r (sym_to_key symbol) s qty)).
Definition would_breach_position (r : RiskManager) (symbol : cstr) (s : Side) (qty : Z) : bool :=
  let k := sym_to_key symbol in
  if long_cap r k <=? 0 then false else
  let projected := projected_at r k s qty in
  if 0 <=? projected then long_cap r k <? projected else short_cap r k <? i32 (- projected).
Definition rate_limit_headroom (r : RiskManager) (now_ns : Z) : RiskManager * Z :=
  if max_orders_per_second (limits_ r) <=? 0 then (r, -1) else
  let r := r <| rate_ring_ ::= fun q => evict RATE_BITS q (i64 (now_ns - ONE_SECOND)) |> in
  let room := i32 (max_orders_per_second (limits_ r) - i32 (ts_count RATE_BITS (rate_ring_ r))) in
  (r, if 0 <? room then room else 0).
Definition would_breach_price_band (r : RiskManager) (symbol : cstr) (price : double) : bool :=
  band_breach r (sym_to_key symbol) price.
Definition would_breach_symbol_notional (r : RiskManager) (symbol : cstr) (s : Side) (qty : Z) (price : double) : bool :=
  symbol_notional_breach r (projected_at r (sym_to_key symbol) s qty) price.
Definition would_breach_exposure (r : RiskManager) (symbol : cstr) (s : Side) (qty : Z) : bool :=
  let k := sym_to_key symbol in
  if max_portfolio_exposure (limits_ r) <=? 0 then false
  else max_portfolio_exposure (limits_ r) <?
       i64 (total_abs_exposure_ r - i32 (Z.abs (exposure_at r k)) + i32 (Z.abs (projected_at r k s qty))).
Definition headroom_shares (r : RiskManager) (symbol : cstr) (s : Side) : Z :=
  let k := sym_to_key symbol in
  if long_cap r k <=? 0 then 0 else
  let room := match s with
              | BUY => i32 (long_cap r k - exposure_at r k)
              | SELL => i32 (short_cap r k + exposure_at r k)
              end in
  if 0 <? room then room else 0.
Definition get_position_notional (r : RiskManager) (symbol : cstr) : double :=
  match ref_price_ r !! sym_to_key symbol with
  | Some rp => if dle rp d_zero then d_zero else dmul (dbl_of_Z (get_exposure r symbol)) rp
  | None => d_zero
  end.
Definition symbol_notional_utilization_pct (r : RiskManager) (symbol : cstr) : double :=
  if dle (max_symbol_notional (limits_ r)) d_zero then d_zero
  else pct (get_position_notional r symbol) (max_symbol_notional (limits_ r)).

Definition current_drawdown_pct (r : RiskManager) : double :=
  if dle (peak_pnl_ r) d_zero then d_zero else drawdown_pct r.
Definition drawdown_headroom_pct (r : RiskManager) : double :=
  if dle (max_drawdown_pct (limits_ r)) d_zero then d_zero
  else floor0 (dsub (max_drawdown_pct (limits_ r)) (current_drawdown_pct r)).
Definition remaining_turnover_budget (r : RiskManager) : double :=
  if dle (max_daily_traded_notional (limits_ r)) d_zero then dbl_of_Z (-1)
  else floor0 (dsub (max_daily_traded_notional (limits_ r)) (traded_notional_ r)).
Definition current_drawdown_dollars (r : RiskManager) : double := floor0 (dsub (peak_pnl_ r) (daily_pnl_ r)).
Definition decided (r : RiskManager) : Z := u64 (winning_updates_ r + losing_updates_ r).
Definition pnl_win_rate (r : RiskManager) : double := ratio (winning_updates_ r) (decided r).
Definition over (x : double) (n : Z) : double := if 0 <? n then ddiv x (dbl_of_Z n) else d_zero.
Definition avg_pnl_win (r : RiskManager) : double := over (win_pnl_sum_ r) (winning_updates_ r).
Definition avg_pnl_loss (r : RiskManager) : double := over (loss_pnl_sum_ r) (losing_updates_ r).
Definition pnl_payoff_ratio (r : RiskManager) : double :=
  if dgt (avg_pnl_win r) d_zero && dgt (avg_pnl_loss r) d_zero then ddiv (avg_pnl_win r) (avg_pnl_loss r) else d_zero.
Definition kelly_fraction (r : RiskManager) : double :=
  let b := pnl_payoff_ratio r in
  if dle b d_zero then d_zero else
  let w := pnl_win_rate r in dsub w (ddiv (dsub (dbl_of_Z 1) w) b).
Definition pnl_n (r : RiskManager) : double := dbl_of_Z (pnl_updates_ r).
Definition pnl_mean (r : RiskManager) : double := ddiv (pnl_sum_ r) (pnl_n r).
Definition pnl_var (r : RiskManager) : double :=
  dsub (ddiv (pnl_sumsq_ r) (pnl_n r)) (dmul (pnl_mean r) (pnl_mean r)).
Definition pnl_std_dev (r : RiskManager) : double :=
  if pnl_updates_ r <? 2 then d_zero
  else if dgt (pnl_var r) d_zero then dsqrt (pnl_var r) else d_zero.
Definition pnl_skewness (r : RiskManager) : double :=
  if pnl_updates_ r <? 2 then d_zero else
  if dle (pnl_var r) d_zero then d_zero else
  let mean := pnl_mean r in
  let m2 := ddiv (pnl_sumsq_ r) (pnl_n r) in
  let sd := dsqrt (pnl_var r) in
  let central3 := dadd (dsub (ddiv (pnl_sumcube_ r) (pnl_n r)) (dmul (dmul (dbl_of_Z 3) mean) m2))
                       (dmul (dmul (dmul (dbl_of_Z 2) mean) mean) mean) in
  ddiv central3 (dmul (dmul sd sd) sd).
Definition pnl_kurtosis (r : RiskManager) : double :=
  if pnl_updates_ r <? 2 then d_zero else
  if dle (pnl_var r) d_zero then d_zero else
  let mean := pnl_mean r in
  let m2 := ddiv (pnl_sumsq_ r) (pnl_n r) in
  let m3 := ddiv (pnl_sumcube_ r) (pnl_n r) in
  let m4 := ddiv (pnl_sumquart_ r) (pnl_n r) in
  let mu2 := dmul mean mean in
  let central4 := dsub (dadd (dsub m4 (dmul (dmul (dbl_of_Z 4) mean) m3)) (dmul (dmul (dbl_of_Z 6) mu2) m2))
                       (dmul (dmul (dbl_of_Z 3) mu2) mu2) in
  dsub (ddiv central4 (dmul (pnl_var r) (pnl_var r))) (dbl_of_Z 3).
Definition pnl_value_at_risk (r : RiskManager) (z : double) : double :=
  if dle (pnl_std_dev r) d_zero then d_zero else floor0 (dsub (dmul z (pnl_std_dev r)) (pnl_mean r)).
Definition pnl_recovery_factor (r : RiskManager) : double :=
  if dgt (max_drawdown_dollars_ r) d_zero then ddiv (daily_pnl_ r) (max_drawdown_dollars_ r) else d_zero.
Definition pnl_pain_index (r : RiskManager) : double :=
  if 0 <? pnl_updates_ r then dsqrt (ddiv (dd_sumsq_ r) (pnl_n r)) else d_zero.
Definition pnl_martin_ratio (r : RiskManager) : double :=
  if dgt (pnl_pain_index r) d_zero then ddiv (daily_pnl_ r) (pnl_pain_index r) else d_zero.
Definition pnl_sharpe (r : RiskManager) : double :=
  if dle (pnl_std_dev r) d_zero || (pnl_updates_ r =? 0) then d_zero else ddiv (pnl_mean r) (pnl_std_dev r).
Definition d_share (x total : double) : double := if dgt total d_zero then ddiv x total else d_zero.
Definition pnl_gain_concentration (r : RiskManager) : double := d_share (max_gain_ r) (win_pnl_sum_ r).
Definition pnl_loss_concentration (r : RiskManager) : double := d_share (max_loss_ r) (loss_pnl_sum_ r).
Definition pnl_tail_ratio (r : RiskManager) : double := d_share (max_gain_ r) (max_loss_ r).
Definition pnl_downside_dev (r : RiskManager) : double :=
  if pnl_updates_ r =? 0 then d_zero else
  let dd := ddiv (loss_sumsq_ r) (pnl_n r) in if dgt dd d_zero then dsqrt dd else d_zero.
Definition pnl_sortino (r : RiskManager) : double :=
  if dle (pnl_downside_dev r) d_zero || (pnl_updates_ r =? 0) then d_zero
  else ddiv (pnl_mean r) (pnl_downside_dev r).
Definition pnl_profit_factor (r : RiskManager) : double := d_share (win_pnl_sum_ r) (loss_pnl_sum_ r).
Definition pnl_expectancy (r : RiskManager) : double := over (dsub (win_pnl_sum_ r) (loss_pnl_sum_ r)) (decided r).
Definition underwater_fraction (r : RiskManager) : double := ratio (total_underwater_updates_ r) (pnl_updates_ r).
Definition consecutive_losses_remaining (r : RiskManager) : Z :=
  if max_consecutive_losses (limits_ r) <=? 0 then -1 else
  let rem := i32 (max_consecutive_losses (limits_ r) - consec_losses_ r) in if 0 <? rem then rem else 0.
Definition remaining_loss_budget (r : RiskManager) : double :=
  floor0 (dadd (dbl_of_Z (max_daily_loss (limits_ r))) (daily_pnl_ r)).
Definition loss_budget_runway (r : RiskManager) : double :=
  if max_daily_loss (limits_ r) <=? 0 then dbl_of_Z (-1) else
  if dle (avg_pnl_loss r) d_zero then dbl_of_Z (-1) else ddiv (remaining_loss_budget r) (avg_pnl_loss r).
Definition loss_budget_utilization_pct (r : RiskManager) : double :=
  if max_daily_loss (limits_ r) <=? 0 then d_zero else
  let consumed := if dlt (daily_pnl_ r) d_zero then dneg (daily_pnl_ r) else d_zero in
  let p := pct consumed (dbl_of_Z (max_daily_loss (limits_ r))) in
  if dgt p (dbl_of_Z 100) then dbl_of_Z 100 else p.
Definition check_reject_rate (r : RiskManager) : double := ratio (total_rejects_ r) (total_checks_ r).

(** ** Requests *)

Inductive risk_op :=
  | CheckOrder (symbol : cstr) (s : Side) (price : double) (quantity t0 now t1 : Z)
  | OrderSent (symbol : cstr) (s : Side) (quantity : Z)
  | OrderCancelled (symbol : cstr) (s : Side) (remaining : Z)
  | PositionFilled (symbol : cstr) (s : Side) (quantity : Z)
  | PnlChange (pnl : double)
  | ReferencePrice (symbol : cstr) (price : double)
  | TradedNotional (notional : double)
  | PositionLimit (symbol : cstr) (limit : Z)
  | Restrict (symbol : cstr) | Allow (symbol : cstr) | ClearRestricted
  | SetLimits (l : RiskLimits)
  | ProbeRate (now : Z)
  | ActivateKill | DeactivateKill
  | LoadState (file : option (Z * Z * double))
  | ResetDaily.

Definition risk_exec `{HashOrder} (r : RiskManager) (op : risk_op) : RiskManager :=
  match op with
  | CheckOrder symbol s price quantity t0 now t1 => (check_order r symbol s price quantity t0 now t1).1
  | OrderSent symbol s q => on_order_sent r symbol s q
  | OrderCancelled symbol s q => on_order_cancelled r symbol s q
  | PositionFilled symbol s q => update_position r symbol s q
  | PnlChange p => update_pnl r p
  | ReferencePrice symbol p => update_reference_price r symbol p
  | TradedNotional n => add_traded_notional r n
  | PositionLimit symbol l => set_symbol_position_limit r symbol l
  | Restrict symbol => restrict_symbol r symbol
  | Allow symbol => allow_symbol r symbol
  | ClearRestricted => clear_restricted r
  | SetLimits l => set_limits r l
  | ProbeRate now => (rate_limit_headroom r now).1
  | ActivateKill => activate_kill_switch r
  | DeactivateKill => deactivate_kill_switch r
  | LoadState file => (load_persisted_state r file).1
  | ResetDaily => reset_daily r
  end.

(** ** The exposure invariant *)

Definition in32 (z : Z) : Prop := - 2147483647 <= z <= 2147483647.
#[export] Instance in32_dec z : Decision (in32 z).
Proof. unfold in32. apply _. Defined.
Definition net (r : RiskManager) (k : Z) : Z := lookup_qty (positions_ r) k + lookup_qty (pending_ r) k.
Definition covers (r : RiskManager) (ks : list Z) : Prop := NoDup ks /\ forall k, k ∉ ks -> net r k = 0.

Record risk_ok (r : RiskManager) : Prop := {
  rk_range : forall k, in32 (lookup_qty (positions_ r) k) /\ in32 (lookup_qty (pending_ r) k) /\ in32 (net r k);
  rk_exposure : forall ks, covers r ks -> total_abs_exposure_ r = i64 (sumf (fun k => Z.abs (net r k)) ks)
}.

(** A request keeps the 32-bit quantities of its symbol in range. *)
Definition op_fits (r : RiskManager) (op : risk_op) : Prop :=
  let moves symbol d := in32 (lookup_qty (pending_ r) (sym_to_key symbol) + d) /\
                        in32 (net r (sym_to_key symbol) + d) in
  match op with
  | OrderSent symbol s q => in32 q /\ moves symbol (signed_qty s q)
  | OrderCancelled symbol s q => in32 q /\ moves symbol (- signed_qty s q)
  | PositionFilled symbol s q =>
      in32 q /\ in32 (lookup_qty (positions_ r) (sym_to_key symbol) + signed_qty s q) /\
      in32 (lookup_qty (pending_ r) (sym_to_key symbol) - signed_qty s q)
  | _ => True
  end.
#[export] Instance op_fits_dec r op : Decision (op_fits r op).
Proof. destruct op; apply _. Defined.

Lemma in32_i32 z : in32 z -> i32 z = z.
Proof. intros H. apply i32_small. unfold in32 in H. lia. Qed.
Lemma in32_abs z : in32 z -> i32 (Z.abs z) = Z.abs z.
Proof. intros H. apply i32_small. unfold in32 in H. lia. Qed.
Lemma signed_in32 s q : in32 q -> in32 (signed_qty s q) /\ signed_qty s q = match s with BUY => q | SELL => - q end.
Proof.
  intros H. destruct s; simpl; [done|]. rewrite in32_i32 by (unfold in32 in *; lia).
  split; [unfold in32 in *; lia|done].
Qed.
Lemma lookup_qty_insert m k v j : lookup_qty (<[k := v]> m) j = if j =? k then v else lookup_qty m j.
Proof.
  unfold lookup_qty. destruct (Z.eqb_spec j k) as [->|]; [by rewrite lookup_insert_eq|by rewrite lookup_insert_ne by done].
Qed.

(** Moving one symbol's exposure from [old] to [new] moves the total with it. *)
Lemma exposure_moves r r' key :
  risk_ok r -> (forall k, k <> key -> net r' k = net r k) ->
  total_abs_exposure_ r' = i64 (total_abs_exposure_ r + (Z.abs (net r' key) - Z.abs (net r key))) ->
  forall ks, covers r' ks -> total_abs_exposure_ r' = i64 (sumf (fun k => Z.abs (net r' k)) ks).
Proof.
  intros [_ He] Hne Ht ks [Hn Hc]. rewrite Ht.
  destruct (decide (key ∈ ks)) as [Hin|Hout].
  - rewrite (He ks). 2: { split; [done|]. intros k Hk. rewrite <- Hne by congruence. by apply Hc. }
    rewrite (sumf_update (fun k => Z.abs (net r k)) (fun k => Z.abs (net r' k)) ks key Hn) by (intros k N; cbv beta; by rewrite Hne by done).
    rewrite decide_True by done. wrap_norm. done.
  - rewrite (He (key :: ks)).
    2: { split; [by constructor|]. intros k Hk. rewrite <- Hne; [apply Hc|]; intros ?; apply Hk; [by right|subst; by left]. }
    rewrite sumf_cons, (sumf_update (fun k => Z.abs (net r k)) (fun k => Z.abs (net r' k)) ks key Hn) by (intros k N; cbv beta; by rewrite Hne by done).
    rewrite decide_False, (Hc key Hout) by done. wrap_norm. f_equal. lia.
Qed.

Lemma adjust_pending_ok r key d :
  risk_ok r -> in32 (lookup_qty (pending_ r) key + d) -> in32 (net r key + d) ->
  risk_ok (adjust_pending r key d) /\ net (adjust_pending r key d) key = net r key + d /\
  (forall k, k <> key -> net (adjust_pending r key d) k = net r k) /\
  total_abs_exposure_ (adjust_pending r key d) =
    i64 (total_abs_exposure_ r + (Z.abs (net r key + d) - Z.abs (net r key))).
Proof.
  intros Hr Hd Hn. destruct (rk_range _ Hr key) as (R1 & R2 & R3).
  assert (Pend : forall k, lookup_qty (pending_ (adjust_pending r key d)) k =
                           if k =? key then lookup_qty (pending_ r) key + d else lookup_qty (pending_ r) k).
  { intros k. unfold adjust_pending. simpl. by rewrite lookup_qty_insert, (in32_i32 (_ + d)) by done. }
  assert (Net : forall k, net (adjust_pending r key d) k = if k =? key then net r key + d else net r k).
  { intros k. unfold net. rewrite Pend. unfold adjust_pending. simpl.
    destruct (Z.eqb_spec k key) as [->|]; lia. }
  assert (Tot : total_abs_exposure_ (adjust_pending r key d) =
                i64 (total_abs_exposure_ r + (Z.abs (net r key + d) - Z.abs (net r key)))).
  { unfold adjust_pending. simpl. rewrite (in32_i32 (lookup_qty (pending_ r) key + d)) by done.
    rewrite Z.add_assoc. fold (net r key). rewrite (in32_i32 (net r key + d)), (in32_i32 (net r key)), !in32_abs by done.
    rewrite (i32_small (_ - _)) by (unfold in32 in *; lia). done. }
  split; [split|split; [by rewrite Net, Z.eqb_refl|split; [|done]]].
  - intros k. rewrite Pend, Net. destruct (Z.eqb_spec k key) as [->|]; [done|]. by apply (rk_range r Hr).
  - apply (exposure_moves r _ key Hr).
    + intros k N. rewrite Net. apply Z.eqb_neq in N. by rewrite N.
    + by rewrite Net, Z.eqb_refl.
  - intros k N. rewrite Net. apply Z.eqb_neq in N. by rewrite N.
Qed.

Lemma update_position_ok r symbol s q :
  risk_ok r -> op_fits r (PositionFilled symbol s q) ->
  risk_ok (update_position r symbol s q) /\ forall k, net (update_position r symbol s q) k = net r k.
Proof.
  intros Hr (Hq & Hp & Hd). set (key := sym_to_key symbol) in *. set (d := signed_qty s q) in *.
  assert (Pos : forall k, lookup_qty (positions_ (update_position r symbol s q)) k =
                          if k =? key then lookup_qty (positions_ r) key + d else lookup_qty (positions_ r) k).
  { intros k. unfold update_position. simpl. fold key d. by rewrite lookup_qty_insert, in32_i32 by done. }
  assert (Pend : forall k, lookup_qty (pending_ (update_position r symbol s q)) k =
                           if k =? key then lookup_qty (pending_ r) key - d else lookup_qty (pending_ r) k).
  { intros k. unfold update_position. simpl. fold key d. by rewrite lookup_qty_insert, in32_i32 by done. }
  assert (Net : forall k, net (update_position r symbol s q) k = net r k).
  { intros k. unfold net. rewrite Pos, Pend. destruct (Z.eqb_spec k key) as [->|]; lia. }
  split; [|done]. destruct Hr as [Hr He]. split.
  - intros k. rewrite Net, Pos, Pend. destruct (Hr k) as (? & ? & ?). by destruct (Z.eqb_spec k key) as [->|].
  - intros ks [Hn Hc]. rewrite (sumf_ext _ (fun k => Z.abs (net r k))) by (intros; by rewrite Net).
    change (total_abs_exposure_ (update_position r symbol s q)) with (total_abs_exposure_ r). apply He.
    split; [done|]. intros k Hk. rewrite <- Net. by apply Hc.
Qed.

(** The fields the invariant reads. *)
Definition same_books (r r' : RiskManager) : Prop :=
  positions_ r' = positions_ r /\ pending_ r' = pending_ r /\ total_abs_exposure_ r' = total_abs_exposure_ r.
Lemma same_books_ok r r' : same_books r r' -> risk_ok r -> risk_ok r'.
Proof.
  intros (E1 & E2 & E3) [H1 H2].
  assert (N : forall k, net r' k = net r k) by (intros k; unfold net; by rewrite E1, E2).
  split.
  - intros k. rewrite N, E1, E2. apply H1.
  - intros ks [Hn Hc]. rewrite E3, (H2 ks) by (split; [done|]; intros k Hk; rewrite <- N; by apply Hc).
    f_equal. apply sumf_ext. intros k _. by rewrite N.
Qed.

Lemma latch_books r why : same_books r (latch_kill_switch r why).
Proof. unfold latch_kill_switch, same_books. by destruct (kill_switch_active_ r). Qed.
Lemma breakers_books r : same_books r (check_pnl_breakers r).1.
Proof. unfold check_pnl_breakers. destruct (dlt _ _); [apply latch_books|]. by destruct (_ && _); [apply latch_books|]. Qed.
Lemma rate_books r now : same_books r (check_rate_limit r now).1.
Proof. unfold check_rate_limit. cbv zeta. by destruct (_ <=? _). Qed.
Lemma same_books_trans r1 r2 r3 : same_books r1 r2 -> same_books r2 r3 -> same_books r1 r3.
Proof. unfold same_books. intuition congruence. Qed.

Lemma check_order_books r symbol s price q t0 now t1 :
  same_books r (check_order r symbol s price q t0 now t1).1.
Proof.
  unfold check_order. set (r0 := r <| total_checks_ ::= _ |>).
  assert (B0 : same_books r r0) by done. destruct (static_failure _ _ _ _ _); [done|].
  pose proof (breakers_books r0) as B1. destruct (check_pnl_breakers r0) as [r1 [why|]]; cbn [fst] in B1;
    [by apply (same_books_trans _ r0)|].
  pose proof (rate_books r1 now) as B2. destruct (check_rate_limit r1 now) as [r2 ok]. cbn [fst] in B2.
  assert (same_books r r2) by (eapply same_books_trans; [exact B0|by eapply same_books_trans]).
  by destruct ok.
Qed.

(** One field written after another: peel the updates off. *)
Ltac peel_books :=
  lazymatch goal with
  | |- same_books ?r ?r => by split
  | |- same_books ?r (set_field ?f ?g ?x) =>
      apply (same_books_trans r x); [peel_books|generalize x; intros; split; [|split]; reflexivity]
  | |- same_books ?r (if ?c then ?x else ?y) => destruct c; peel_books
  | |- same_books ?r (latch_kill_switch ?x ?w) => apply (same_books_trans r x); [peel_books|apply latch_books]
  end.

Lemma record_drawdown_books r : same_books r (record_drawdown r).
Proof. unfold record_drawdown. cbv zeta. peel_books. Qed.
Lemma record_loss_books r p : same_books r (record_loss r p).
Proof. unfold record_loss. cbv zeta. peel_books. Qed.
Lemma record_win_books r p : same_books r (record_win r p).
Proof. unfold record_win. cbv zeta. peel_books. Qed.

Lemma update_pnl_books r p : same_books r (update_pnl r p).
Proof.
  unfold update_pnl. cbv zeta. set (r1 := set_field peak_pnl_ _ _).
  assert (B1 : same_books r r1) by (unfold r1; peel_books). clearbody r1.
  apply (same_books_trans r r1); [done|]. apply (same_books_trans r1 (record_drawdown r1)); [apply record_drawdown_books|].
  generalize (record_drawdown r1). intros r2.
  destruct (dlt p d_zero); [apply record_loss_books|]. destruct (dgt p d_zero); [apply record_win_books|by split].
Qed.

Lemma static_count r f symbol s price q :
  static_failure (set_field total_checks_ f r) symbol s price q = static_failure r symbol s price q.
Proof. destruct r. reflexivity. Qed.

Section risk_invariant.
Context `{HashOrder}.

Lemma reset_daily_ok r : risk_ok r -> risk_ok (reset_daily r).
Proof.
  intros [Hr He]. assert (L : forall k, lookup_qty (∅ : gmap Z Z) k = 0) by (intros; unfold lookup_qty; by rewrite lookup_empty).
  assert (N : forall k, net (reset_daily r) k = lookup_qty (positions_ r) k).
  { intros k. unfold net, reset_daily. simpl. rewrite L. lia. }
  split.
  - intros k. rewrite N. unfold reset_daily. simpl. rewrite L. destruct (Hr k) as (? & ? & ?). split; [done|split; [unfold in32; lia|done]].
  - intros ks [Hn Hc]. unfold reset_daily at 1. simpl. rewrite sum64_sumf, sumf_values. f_equal.
    rewrite <- (sumf_lookup _ _ ks Hn).
    + apply sumf_ext. intros k _. rewrite N. unfold lookup_qty.
      destruct (positions_ r !! k) as [v|] eqn:E; simpl; [|done].
      destruct (Hr k) as (R & _). unfold lookup_qty in R. rewrite E in R. by apply in32_abs.
    + intros k v Hk Hv. specialize (Hc k Hk). rewrite N in Hc. unfold lookup_qty in Hc. rewrite Hv in Hc.
      simpl in Hc. by rewrite Hc.
Qed.

Lemma risk_exec_ok r op : risk_ok r -> op_fits r op -> risk_ok (risk_exec r op).
Proof.
  intros Hr Hf. destruct op; cbn [risk_exec op_fits] in *.
  - eapply same_books_ok; [apply check_order_books|done].
  - destruct Hf as (? & ? & ?). by apply adjust_pending_ok.
  - destruct Hf as (Hq & H1 & H2). destruct (signed_in32 s remaining Hq) as [S _].
    unfold on_order_cancelled. rewrite (in32_i32 (- _)) by (unfold in32 in *; lia). by apply adjust_pending_ok.
  - by apply update_position_ok.
  - eapply same_books_ok; [apply update_pnl_books|done].
  - apply (same_books_ok r); [|done]. unfold update_reference_price. by destruct (dgt _ _).
  - apply (same_books_ok r); [|done]. unfold add_traded_notional. by destruct (dgt _ _).
  - by apply (same_books_ok r).
  - by apply (same_books_ok r).
  - by apply (same_books_ok r).
  - by apply (same_books_ok r).
  - by apply (same_books_ok r).
  - apply (same_books_ok r); [|done]. unfold rate_limit_headroom. by destruct (_ <=? _).
  - eapply same_books_ok; [apply latch_books|done].
  - by apply (same_books_ok r).
  - apply (same_books_ok r); [|done]. unfold load_persisted_state.
    destruct (persist_path_ r), file as [[[n a] p]|]; try done. destruct (n <? 1); [done|]. by destruct (2 <=? n).
  - by apply reset_daily_ok.
Qed.

(** Every state reached from a fresh manager by requests whose quantities fit. *)
Inductive risk_reachable : RiskManager -> Prop :=
  | risk_start l : risk_reachable (new_risk l)
  | risk_step r op : risk_reachable r -> op_fits r op -> risk_reachable (risk_exec r op).

Lemma new_risk_ok l : risk_ok (new_risk l).
Proof.
  assert (L : forall k, lookup_qty (∅ : gmap Z Z) k = 0) by (intros; unfold lookup_qty; by rewrite lookup_empty).
  split; intros; unfold net in *; simpl; rewrite ?L; [done|]. rewrite sumf_zero; [done|].
  intros k _. by rewrite !L.
Qed.

Lemma risk_reachable_inv r : risk_reachable r -> risk_ok r.
Proof. induction 1; [apply new_risk_ok|by apply risk_exec_ok]. Qed.
End risk_invariant.

(** ** Properties *)

(** C14: in every state reached by requests whose quantities fit 32 bits, the
    denormalised portfolio exposure is the sum of |position + pending| over all
    symbols. *)
Theorem risk_exposure_exact `{HashOrder} r :
  risk_reachable r ->
  total_abs_exposure_ r =
    i64 (sumf (fun k => Z.abs (lookup_qty (positions_ r) k + lookup_qty (pending_ r) k))
              (elements (dom (positions_ r) ∪ dom (pending_ r)))).
Proof.
  intros R. destruct (risk_reachable_inv r R) as [_ He]. apply He. split; [apply NoDup_elements|].
  intros k Hk. rewrite elem_of_elements, elem_of_union, !elem_of_dom in Hk. unfold net, lookup_qty.
  destruct (positions_ r !! k), (pending_ r !! k); simpl; try done; exfalso; apply Hk; eauto.
Qed.

Lemma breakers_cases r : check_pnl_breakers r = (r, None) \/ exists why, (check_pnl_breakers r).2 = Some why.
Proof.
  unfold check_pnl_breakers. destruct (dlt _ _); [right; by eexists|].
  destruct (_ && _); [right; by eexists|by left].
Qed.
(** The breakers and the rate check do not read the statistics. *)
Lemma breakers_count r f : (check_pnl_breakers (set_field total_checks_ f r)).2 = (check_pnl_breakers r).2.
Proof.
  unfold check_pnl_breakers. change (drawdown_pct (set_field total_checks_ f r)) with (drawdown_pct r). simpl.
  destruct (dlt _ _); [done|]. by destruct (_ && _).
Qed.
Lemma rate_count r f now : (check_rate_limit (set_field total_checks_ f r) now).2 = (check_rate_limit r now).2.
Proof. unfold check_rate_limit. cbv zeta. simpl. by destruct (_ <=? _). Qed.

Lemma allow_passes r symbol s price q t0 now t1 :
  action (check_order r symbol s price q t0 now t1).2 = ALLOW ->
  static_failure r symbol s price q = None /\ (check_pnl_breakers r).2 = None /\
  (check_rate_limit r now).2 = true.
Proof.
  unfold check_order. rewrite <- (breakers_count r (fun n => u64 (n + 1))), <- (rate_count r (fun n => u64 (n + 1))).
  set (r0 := r <| total_checks_ ::= _ |>).
  unfold r0. rewrite static_count. fold r0.
  destruct (static_failure r symbol s price q) as [?|]; [done|]. cbv zeta.
  destruct (breakers_cases r0) as [->|[why E]].
  - destruct (check_rate_limit r0 now) as [r2 ok]. by destruct ok.
  - destruct (check_pnl_breakers r0) as [r1 o]. simpl in E. by subst.
Qed.


(** What turns the kill switch off. *)
Definition clears_kill (op : risk_op) : bool :=
  match op with DeactivateKill | ResetDaily | LoadState _ => true | _ => false end.

Lemma latch_active r why : kill_switch_active_ (latch_kill_switch r why) = true.
Proof. unfold latch_kill_switch. by destruct (kill_switch_active_ r). Qed.

Lemma kill_check r symbol s price q t0 now t1 :
  kill_switch_active_ r = true ->
  let c := check_order r symbol s price q t0 now t1 in
  action c.2 = REJECT /\ reason c.2 = "Kill switch active"%string /\ kill_switch_active_ c.1 = true.
Proof. intros Hk. unfold check_order, static_failure. cbv zeta. simpl. by rewrite Hk. Qed.

Lemma kill_kept `{HashOrder} r op :
  kill_switch_active_ r = true -> clears_kill op = false -> kill_switch_active_ (risk_exec r op) = true.
Proof.
  intros Hk Hc. destruct op; try done; cbn [risk_exec].
  - by apply kill_check.
  - unfold update_pnl. cbv zeta. set (r1 := set_field peak_pnl_ _ _).
    assert (K : kill_switch_active_ (record_drawdown r1) = true)
      by (unfold record_drawdown; cbv zeta; by destruct (dlt _ _)).
    destruct (dlt pnl d_zero).
    + unfold record_loss. cbv zeta. destruct (_ && _); [apply latch_active|exact K].
    + destruct (dgt pnl d_zero); [exact K|exact K].
  - unfold update_reference_price. by destruct (dgt _ _).
  - unfold add_traded_notional. by destruct (dgt _ _).
  - unfold rate_limit_headroom. by destruct (_ <=? _).
Qed.

(** the daily-loss breaker latches: an order that reaches it is rejected
    with the switch on and the reason recorded; and once the kill switch is on
    it stays on, and every order is rejected, through any sequence of requests
    that does not deactivate it, reset the day or load a saved state. *)
Lemma risk_kill_latched `{HashOrder} r :
  (forall symbol s price q t0 now t1,
     static_failure r symbol s price q = None ->
     dlt (daily_pnl_ r) (dneg (dbl_of_Z (max_daily_loss (limits_ r)))) = true ->
     let c := check_order r symbol s price q t0 now t1 in
     action c.2 = REJECT /\ kill_switch_active_ c.1 = true /\ kill_reason_ c.1 = CIRCUIT_BREAKER) /\
  (kill_switch_active_ r = true ->
   forall ops, Forall (fun op => clears_kill op = false) ops ->
   let r' := foldl risk_exec r ops in
   kill_switch_active_ r' = true /\
   forall symbol s price q t0 now t1,
     action (check_order r' symbol s price q t0 now t1).2 = REJECT).
Proof.
  split.
  - intros symbol s price q t0 now t1 S D. unfold check_order. cbv zeta.
    rewrite static_count, S. unfold check_pnl_breakers. simpl. rewrite D. split; [done|]. simpl.
    unfold latch_kill_switch. simpl. by destruct (kill_switch_active_ r).
  - intros Hk ops Hops. cbv zeta.
    assert (K : kill_switch_active_ (foldl risk_exec r ops) = true).
    { revert r Hk. induction Hops as [|op ops Hop Hops IH]; intros r Hk; [done|].
      cbn [foldl]. apply IH. by apply kill_kept. }
    split; [done|]. intros. by apply kill_check.
Qed.

(** the rate check allows an order exactly when fewer than the limit were
    allowed within the last second, and then counts it; it rejects everything
    when the limit is not positive, and, because the window holds at most 4095
    timestamps, it never rejects when the limit is 4096 or more. *)
Lemma risk_rate_window r now l :
  ts_rep RATE_BITS (rate_ring_ r) l -> INT64_MIN + ONE_SECOND <= now <= INT64_MAX ->
  let recent := drop_while (fun t => t <=? now - ONE_SECOND) l in
  let '(r', ok) := check_rate_limit r now in
  ok = (alen recent <? max_orders_per_second (limits_ r)) /\
  ts_rep RATE_BITS (rate_ring_ r')
    (if ok then if alen recent =? 4095 then tail (recent ++ [now]) else recent ++ [now] else recent) /\
  (max_orders_per_second (limits_ r) <= 0 -> ok = false) /\
  (4096 <= max_orders_per_second (limits_ r) -> ok = true).
Proof.
  intros R Hn recent. unfold check_rate_limit.
  assert (R1 : ts_rep RATE_BITS (evict RATE_BITS (rate_ring_ r) (i64 (now - ONE_SECOND))) recent).
  { rewrite i64_small by (unfold INT64_MIN, INT64_MAX, ONE_SECOND in *; lia).
    apply evict_loop_rep; [done|]. pose proof (tr_fit _ _ _ R). unfold alen in *. lia. }
  cbv zeta. simpl. set (q := evict _ _ _) in *. clearbody q.
  destruct (ts_count_rep _ _ _ R1) as [-> _]. pose proof (tr_fit _ _ _ R1) as F. change (TS_N RATE_BITS) with 4096 in F.
  pose proof (alen_nonneg recent). rewrite i32_small by lia.
  destruct (Z.leb_spec (max_orders_per_second (limits_ r)) (alen recent)).
  - split; [symmetry; apply Z.ltb_ge; lia|split; [done|split; [done|lia]]].
  - split; [symmetry; apply Z.ltb_lt; lia|split; [|split; [lia|done]]].
    change 4095 with (TS_N RATE_BITS - 1). by apply ts_push_rep.
Qed.

(** with the symbol's exposure within its caps and a positive cap,
    [headroom_shares] is the largest order that does not breach the position
    limit, [would_breach_position] is the position check of [check_order], and
    an order within the headroom is never rejected for its position. *)
Lemma risk_headroom_exact r symbol s q price :
  risk_ok r -> 0 < q -> op_fits r (OrderSent symbol s q) ->
  let key := sym_to_key symbol in
  0 < long_cap r key -> in32 (long_cap r key - net r key) -> in32 (short_cap r key + net r key) ->
  - short_cap r key <= net r key <= long_cap r key ->
  (would_breach_position r symbol s q = true <-> headroom_shares r symbol s < q) /\
  (would_breach_position r symbol s q = false ->
   static_failure r symbol s price q <> Some "Position limit exceeded"%string /\
   static_failure r symbol s price q <> Some "Short position limit exceeded"%string).
Proof.
  intros Hr Hq (Hq32 & Hd & Hn) key Hl Hs Hb Hc. fold key in Hd, Hn.
  destruct (signed_in32 s q Hq32) as [_ Sg].
  assert (E : exposure_at r key = net r key) by (apply in32_i32, (rk_range r Hr)).
  assert (P : projected_at r key s q = net r key + signed_qty s q) by (unfold projected_at; rewrite E; by apply in32_i32).
  assert (W : would_breach_position r symbol s q =
    if 0 <=? net r key + signed_qty s q then long_cap r key <? net r key + signed_qty s q
    else short_cap r key <? - (net r key + signed_qty s q)).
  { unfold would_breach_position. fold key. rewrite P. replace (long_cap r key <=? 0) with false by lia.
    by rewrite (in32_i32 (- _)) by (unfold in32 in *; lia). }
  assert (0 < short_cap r key) by (unfold short_cap; destruct (Z.ltb_spec 0 (max_short_per_symbol (limits_ r))); lia).
  rewrite W. split.
  - unfold headroom_shares. fold key. rewrite E. replace (long_cap r key <=? 0) with false by lia.
    cbv zeta. rewrite !in32_i32 by done.
    destruct s; rewrite Sg; [destruct (Z.leb_spec 0 (net r key + q)), (Z.ltb_spec 0 (long_cap r key - net r key))
                            |destruct (Z.leb_spec 0 (net r key + - q)), (Z.ltb_spec 0 (short_cap r key + net r key))]; rewrite ?Z.ltb_lt; lia.
  - intros F. unfold static_failure. fold key. cbv zeta. rewrite P, (in32_i32 (- _)) by (unfold in32 in *; lia).
    set (p := net r key + signed_qty s q) in *.
    replace ((0 <=? p) && (long_cap r key <? p)) with false by (destruct (0 <=? p); [by rewrite F|done]).
    replace ((p <? 0) && (short_cap r key <? - p)) with false
      by (destruct (Z.leb_spec 0 p), (Z.ltb_spec p 0); rewrite ?F; (done || lia)).
    split; repeat case_match; congruence.
Qed.

(** ** A day: 100 AAPL sent, 40 filled, 30 MSFT sold short *)

Definition AAPL : cstr := [65; 65; 80; 76].
Definition MSFT : cstr := [77; 83; 70; 84].
Definition demo_day : list risk_op :=
  [OrderSent AAPL BUY 100; PositionFilled AAPL BUY 40; OrderSent MSFT SELL 30; PnlChange (dbl_of_Z (-50))].
Definition demo_risk : RiskManager := foldl risk_exec (new_risk default_limits) demo_day.
Lemma demo_risk_reachable : risk_reachable demo_risk.
Proof.
  unfold demo_risk, demo_day. cbn [foldl].
  repeat (apply risk_step; [|apply (bool_decide_unpack _); by vm_compute]). apply risk_start.
Qed.
Lemma demo_risk_ok : risk_ok demo_risk.
Proof. apply risk_reachable_inv, demo_risk_reachable. Qed.

Lemma risk_exposure_exact_witness :
  total_abs_exposure_ demo_risk =
    i64 (sumf (fun k => Z.abs (lookup_qty (positions_ demo_risk) k + lookup_qty (pending_ demo_risk) k))
              (elements (dom (positions_ demo_risk) ∪ dom (pending_ demo_risk)))).
Proof. apply risk_exposure_exact, demo_risk_reachable. Defined.


Lemma risk_rate_window_witness :
  (check_rate_limit (new_risk default_limits) 2000000000).2 = true.
Proof.
  pose proof (risk_rate_window (new_risk default_limits) 2000000000 [] (ts_new_rep _)) as W.
  destruct (check_rate_limit (new_risk default_limits) 2000000000) as [r' ok].
  destruct W as [-> _]; [unfold INT64_MIN, INT64_MAX, ONE_SECOND; lia|done].
Defined.

Lemma risk_headroom_exact_witness :
  would_breach_position demo_risk AAPL BUY 4901 = true <-> headroom_shares demo_risk AAPL BUY < 4901.
Proof.
  assert (F : op_fits demo_risk (OrderSent AAPL BUY 4901)) by (apply (bool_decide_unpack _); by vm_compute).
  refine (proj1 (risk_headroom_exact demo_risk AAPL BUY 4901 d_zero demo_risk_ok eq_refl F _ _ _ _));
    [by vm_compute|by vm_compute|by vm_compute|by vm_compute].
Defined.

Lemma risk_kill_latched_witness :
  let r := activate_kill_switch demo_risk in
  kill_switch_active_ (foldl risk_exec r demo_day) = true.
Proof.
  intros r. refine (proj1 (proj2 (risk_kill_latched r) _ demo_day _)); [done|repeat constructor].
Defined.
