(* ===== verification/Bytes.v ===== *)
(** * Bytes: buffers and big-endian integers

    Shared by the wire protocols.  A buffer is the list of its bytes; [slice]
    and [byte_at] read it and are [None] outside of it, so that a parser that
    reads past the end of its input has no result. *)
From S2P Require Import Prelude.

Definition is_byte (b : Z) : Prop := 0 <= b < 256.
Definition bytes_ok (l : list Z) : Prop := Forall is_byte l.

Definition slice (off n : nat) (l : list Z) : option (list Z) :=
  if decide (off + n <= length l)%nat then Some (take n (drop off l)) else None.
Definition byte_at (off : nat) (l : list Z) : option Z := l !! off.

(** [be64toh] and its like, and the inverse that writes an integer. *)
Definition be_value (l : list Z) : Z := foldl (fun acc b => 256 * acc + b) 0 l.
Fixpoint be_bytes (n : nat) (v : Z) : list Z :=
  match n with O => [] | S n' => be_bytes n' (v / 256) ++ [v mod 256] end.

(** Stepping through a parser without evaluating what it reads. *)
Lemma bind_some {A B} (x : A) (f : A -> option B) : (Some x ≫= f) = f x.
Proof. done. Qed.

Lemma be_value_app l b : be_value (l ++ [b]) = 256 * be_value l + b.
Proof. unfold be_value. by rewrite foldl_app. Qed.

Lemma length_be_bytes n : forall v, length (be_bytes n v) = n.
Proof. induction n as [|n IH]; intros v; simpl; [done|]. rewrite length_app, IH. simpl. lia. Qed.

Lemma bytes_ok_be_bytes n : forall v, bytes_ok (be_bytes n v).
Proof.
  induction n as [|n IH]; intros v; [constructor|]. apply Forall_app. split; [apply IH|].
  apply Forall_singleton. apply Z.mod_pos_bound. lia.
Qed.

Lemma be_value_bytes n : forall v, be_value (be_bytes n v) = v mod 256 ^ Z.of_nat n.
Proof.
  induction n as [|n IH]; intros v; [by rewrite Z.mod_1_r|].
  cbn [be_bytes]. rewrite be_value_app, IH, Nat2Z.inj_succ, Z.pow_succ_r by lia.
  rewrite (Z.rem_mul_r v 256) by (try apply Z.pow_pos_nonneg; lia). lia.
Qed.
Lemma be_value_small n v : 0 <= v < 256 ^ Z.of_nat n -> be_value (be_bytes n v) = v.
Proof. intros H. rewrite be_value_bytes. by apply Z.mod_small. Qed.

Lemma be_value_range l : bytes_ok l -> 0 <= be_value l < 256 ^ alen l.
Proof.
  unfold alen. induction l as [|b l IH] using rev_ind; intros H; [done|].
  apply Forall_app in H as [H1 H2]. apply Forall_cons in H2 as [H2 _]. specialize (IH H1).
  rewrite be_value_app, length_app. simpl. rewrite Nat.add_1_r, Nat2Z.inj_succ, Z.pow_succ_r by lia.
  unfold is_byte in H2. nia.
Qed.

Lemma slice_some off n l : (off + n <= length l)%nat -> slice off n l = Some (take n (drop off l)).
Proof. intros H. unfold slice. by rewrite decide_True by done. Qed.
Lemma slice_here n x l : length x = n -> slice 0 n (x ++ l) = Some x.
Proof.
  intros H. rewrite slice_some by (rewrite length_app; lia). by rewrite drop_0, take_app_length'.
Qed.
Lemma slice_skip off n x l : (length x <= off)%nat -> slice off n (x ++ l) = slice (off - length x) n l.
Proof.
  intros H. unfold slice. rewrite length_app, drop_app_ge by done.
  destruct (decide (off + n <= length x + length l)%nat), (decide (off - length x + n <= length l)%nat); done || lia.
Qed.
Lemma slice_end off n x : length x = n -> off = 0%nat -> slice off n x = Some x.
Proof. intros H ->. rewrite <- (app_nil_r x) at 1. by apply slice_here. Qed.
Lemma byte_at_skip off x l : (length x <= off)%nat -> byte_at off (x ++ l) = byte_at (off - length x) l.
Proof. intros H. unfold byte_at. by apply lookup_app_r. Qed.
Lemma byte_at_some off l : (off < length l)%nat -> exists b, byte_at off l = Some b.
Proof. intros H. by apply lookup_lt_is_Some_2. Qed.

Lemma slice_skip_n off n x l k off' :
  length x = k -> off = (k + off')%nat -> slice off n (x ++ l) = slice off' n l.
Proof. intros <- ->. rewrite slice_skip by lia. f_equal. lia. Qed.
Lemma byte_at_skip_n off x l k off' :
  length x = k -> off = (k + off')%nat -> byte_at off (x ++ l) = byte_at off' l.
Proof. intros <- ->. rewrite byte_at_skip by lia. f_equal. lia. Qed.

(** Reading a field of a concatenation of fields of known lengths: skip the
    fields before it. *)
Ltac length_of x :=
  lazymatch x with
  | be_bytes ?n _ => n
  | [_] => constr:(1%nat)
  | _ => lazymatch goal with H : length x = ?k |- _ => k end
  end.
Ltac len := first [apply length_be_bytes | reflexivity | assumption].
Ltac skip_field :=
  lazymatch goal with
  | |- context [slice ?o ?n (?x ++ ?l)] =>
      let k := length_of x in
      let b := eval vm_compute in (Nat.leb k o) in
      lazymatch b with true => let o' := eval vm_compute in (o - k)%nat in
        rewrite (slice_skip_n o n x l k o') by (len || reflexivity) end
  | |- context [byte_at ?o (?x ++ ?l)] =>
      let k := length_of x in
      let b := eval vm_compute in (Nat.leb k o) in
      lazymatch b with true => let o' := eval vm_compute in (o - k)%nat in
        rewrite (byte_at_skip_n o x l k o') by (len || reflexivity) end
  end.
Ltac read_field :=
  repeat skip_field;
  lazymatch goal with
  | |- slice _ _ (_ ++ _) = _ => apply slice_here; len
  | |- slice _ _ _ = _ => apply slice_end; [len|reflexivity]
  | |- _ => reflexivity
  end.
