(* ===== verification/Itch.v ===== *)
(** * Itch: the ITCH 5.0 message parser

    [itch-parser/itch_parser.hpp].  [parse] dispatches on the type byte, checks
    the length of the buffer and reads the fields at their offsets.  Every read
    is partial, so that [parse] has a result only if no read leaves the
    buffer.  A [char] is its byte; [char[9]] and [char[5]] hold the 8 and 4
    bytes copied from the wire. *)
From S2P Require Import Prelude Double Bytes.

Definition read_be64 (p : list Z) (off : nat) : option Z := v ← slice off 8 p; Some (i64 (be_value v)).
Definition read_be32 (p : list Z) (off : nat) : option Z := v ← slice off 4 p; Some (be_value v).

Record AddOrderMsg := mkAdd {
  add_timestamp_ns : Z; add_order_ref : Z; add_side : Z; add_shares : Z; add_stock : list Z; add_price : double }.
Record AddOrderMpidMsg := mkAddMpid { mpid_order : AddOrderMsg; mpid : list Z }.
Record DeleteOrderMsg := mkDelete { del_timestamp_ns : Z; del_order_ref : Z }.
Record ReplaceOrderMsg := mkReplace {
  rep_timestamp_ns : Z; orig_order_ref : Z; new_order_ref : Z; new_shares : Z; new_price : double }.
Record OrderExecutedMsg := mkExecuted {
  exe_timestamp_ns : Z; exe_order_ref : Z; exec_shares : Z; exe_match_number : Z }.
Record OrderCancelledMsg := mkCancelled { can_timestamp_ns : Z; can_order_ref : Z; cancelled_shares : Z }.
Record TradeMsg := mkTrade { trade_order : AddOrderMsg; match_number : Z }.
Record SystemEventMsg := mkEvent { evt_timestamp_ns : Z; event_code : Z }.
Record StockDirectoryMsg := mkDirectory { dir_timestamp_ns : Z; dir_stock : list Z; market_category : Z }.

(** The tagged union. *)
Inductive ParsedMessage :=
  | ADD_ORDER (m : AddOrderMsg)
  | ADD_ORDER_MPID (m : AddOrderMpidMsg)
  | DELETE_ORDER (m : DeleteOrderMsg)
  | REPLACE_ORDER (m : ReplaceOrderMsg)
  | ORDER_EXECUTED (m : OrderExecutedMsg)
  | ORDER_CANCELLED (m : OrderCancelledMsg)
  | TRADE (m : TradeMsg)
  | SYSTEM_EVENT (m : SystemEventMsg)
  | STOCK_DIRECTORY (m : StockDirectoryMsg)
  | UNKNOWN
  | ERROR.

Record Stats := mkStats {
  total_parsed : Z; add_orders : Z; delete_orders : Z; replace_orders : Z; executions : Z;
  cancels : Z; trades : Z; system_events : Z; unknowns : Z }.
#[export] Instance eta_stats : Settable Stats := fun s =>
  mkStats (total_parsed s) (add_orders s) (delete_orders s) (replace_orders s) (executions s)
    (cancels s) (trades s) (system_events s) (unknowns s).
Definition reset_stats : Stats := mkStats 0 0 0 0 0 0 0 0 0.

Definition wire_price (v : Z) : double := ddiv (dbl_of_Z v) (dbl_of_Z 10000).

(** The fields shared by 'A', 'F' and 'P'. *)
Definition read_order (d : list Z) : option AddOrderMsg :=
  ts ← read_be64 d 1; ref ← read_be64 d 9; side ← byte_at 17 d; shares ← read_be32 d 18;
  stock ← slice 22 8 d; px ← read_be32 d 30;
  Some (mkAdd ts ref side shares stock (wire_price px)).

Definition parse_add_order (d : list Z) : option ParsedMessage :=
  if alen d <? 34 then Some ERROR else m ← read_order d; Some (ADD_ORDER m).
Definition parse_add_order_mpid (d : list Z) : option ParsedMessage :=
  if alen d <? 38 then Some ERROR else
  m ← read_order d; id ← slice 34 4 d; Some (ADD_ORDER_MPID (mkAddMpid m id)).
Definition parse_delete_order (d : list Z) : option ParsedMessage :=
  if alen d <? 17 then Some ERROR else
  ts ← read_be64 d 1; ref ← read_be64 d 9; Some (DELETE_ORDER (mkDelete ts ref)).
Definition parse_replace_order (d : list Z) : option ParsedMessage :=
  if alen d <? 33 then Some ERROR else
  ts ← read_be64 d 1; orig ← read_be64 d 9; new ← read_be64 d 17; shares ← read_be32 d 25;
  px ← read_be32 d 29; Some (REPLACE_ORDER (mkReplace ts orig new shares (wire_price px))).
Definition parse_order_executed (d : list Z) : option ParsedMessage :=
  if alen d <? 29 then Some ERROR else
  ts ← read_be64 d 1; ref ← read_be64 d 9; shares ← read_be32 d 17; number ← read_be64 d 21;
  Some (ORDER_EXECUTED (mkExecuted ts ref shares number)).
Definition parse_order_cancelled (d : list Z) : option ParsedMessage :=
  if alen d <? 21 then Some ERROR else
  ts ← read_be64 d 1; ref ← read_be64 d 9; shares ← read_be32 d 17;
  Some (ORDER_CANCELLED (mkCancelled ts ref shares)).
Definition parse_trade (d : list Z) : option ParsedMessage :=
  if alen d <? 42 then Some ERROR else
  m ← read_order d; number ← read_be64 d 34; Some (TRADE (mkTrade m number)).
Definition parse_system_event (d : list Z) : option ParsedMessage :=
  if alen d <? 10 then Some ERROR else
  ts ← read_be64 d 1; code ← byte_at 9 d; Some (SYSTEM_EVENT (mkEvent ts code)).
Definition parse_stock_directory (d : list Z) : option ParsedMessage :=
  if alen d <? 18 then Some ERROR else
  ts ← read_be64 d 1; stock ← slice 9 8 d; cat ← byte_at 17 d;
  Some (STOCK_DIRECTORY (mkDirectory ts stock cat)).

Definition incr (n : Z) : Z := u64 (n + 1).
(** The type bytes: A F D U E C P S R. *)
Definition parse (st : Stats) (d : list Z) : option (Stats * ParsedMessage) :=
  if alen d <? 1 then Some (st, ERROR) else
  msg_type ← byte_at 0 d;
  let st := st <| total_parsed ::= incr |> in
  if msg_type =? 65 then m ← parse_add_order d; Some (st <| add_orders ::= incr |>, m) else
  if msg_type =? 70 then m ← parse_add_order_mpid d; Some (st <| add_orders ::= incr |>, m) else
  if msg_type =? 68 then m ← parse_delete_order d; Some (st <| delete_orders ::= incr |>, m) else
  if msg_type =? 85 then m ← parse_replace_order d; Some (st <| replace_orders ::= incr |>, m) else
  if msg_type =? 69 then m ← parse_order_executed d; Some (st <| executions ::= incr |>, m) else
  if msg_type =? 67 then m ← parse_order_cancelled d; Some (st <| cancels ::= incr |>, m) else
  if msg_type =? 80 then m ← parse_trade d; Some (st <| trades ::= incr |>, m) else
  if msg_type =? 83 then m ← parse_system_event d; Some (st <| system_events ::= incr |>, m) else
  if msg_type =? 82 then m ← parse_stock_directory d; Some (st, m) else
  Some (st <| unknowns ::= incr |>, UNKNOWN).

(** ** The wire format

    The layout of the nine message types, from the header of the file: a
    message as its fields, its type byte and length, and its bytes. *)

Inductive wire :=
  | WAdd (ts ref side shares : Z) (stock : list Z) (px : Z)
  | WAddMpid (ts ref side shares : Z) (stock : list Z) (px : Z) (id : list Z)
  | WDelete (ts ref : Z)
  | WReplace (ts orig new shares px : Z)
  | WExecuted (ts ref shares number : Z)
  | WCancelled (ts ref shares : Z)
  | WTrade (ts ref side shares : Z) (stock : list Z) (px number : Z)
  | WEvent (ts code : Z)
  | WDirectory (ts : Z) (stock : list Z) (cat : Z).

Definition type_byte (w : wire) : Z :=
  match w with
  | WAdd _ _ _ _ _ _ => 65 | WAddMpid _ _ _ _ _ _ _ => 70 | WDelete _ _ => 68 | WReplace _ _ _ _ _ => 85
  | WExecuted _ _ _ _ => 69 | WCancelled _ _ _ => 67 | WTrade _ _ _ _ _ _ _ => 80 | WEvent _ _ => 83
  | WDirectory _ _ _ => 82
  end.
Definition expected_length (t : Z) : option Z :=
  if t =? 65 then Some 34 else if t =? 70 then Some 38 else if t =? 68 then Some 17 else
  if t =? 85 then Some 33 else if t =? 69 then Some 29 else if t =? 67 then Some 21 else
  if t =? 80 then Some 42 else if t =? 83 then Some 10 else if t =? 82 then Some 18 else None.

Definition order_bytes (ts ref side shares : Z) (stock : list Z) (px : Z) (rest : list Z) : list Z :=
  be_bytes 8 ts ++ be_bytes 8 ref ++ [side] ++ be_bytes 4 shares ++ stock ++ be_bytes 4 px ++ rest.
(** The fields after the type byte, followed by whatever comes next. *)
Definition wire_fields (w : wire) (rest : list Z) : list Z :=
  match w with
  | WAdd ts ref side shares stock px => order_bytes ts ref side shares stock px rest
  | WAddMpid ts ref side shares stock px id => order_bytes ts ref side shares stock px (id ++ rest)
  | WDelete ts ref => be_bytes 8 ts ++ be_bytes 8 ref ++ rest
  | WReplace ts orig new shares px =>
      be_bytes 8 ts ++ be_bytes 8 orig ++ be_bytes 8 new ++ be_bytes 4 shares ++ be_bytes 4 px ++ rest
  | WExecuted ts ref shares number =>
      be_bytes 8 ts ++ be_bytes 8 ref ++ be_bytes 4 shares ++ be_bytes 8 number ++ rest
  | WCancelled ts ref shares => be_bytes 8 ts ++ be_bytes 8 ref ++ be_bytes 4 shares ++ rest
  | WTrade ts ref side shares stock px number => order_bytes ts ref side shares stock px (be_bytes 8 number ++ rest)
  | WEvent ts code => be_bytes 8 ts ++ [code] ++ rest
  | WDirectory ts stock cat => be_bytes 8 ts ++ stock ++ [cat] ++ rest
  end.
Definition wire_bytes (w : wire) (rest : list Z) : list Z := [type_byte w] ++ wire_fields w rest.

Definition stock_of (w : wire) : list Z :=
  match w with
  | WAdd _ _ _ _ s _ | WAddMpid _ _ _ _ s _ _ | WTrade _ _ _ _ s _ _ | WDirectory _ s _ => s
  | _ => replicate 8 0
  end.
Definition mpid_of (w : wire) : list Z := match w with WAddMpid _ _ _ _ _ _ i => i | _ => replicate 4 0 end.
(** Field widths: 64-bit values as [int64_t], 32-bit ones unsigned. *)
Definition i64_ok (z : Z) : Prop := INT64_MIN <= z <= INT64_MAX.
Definition u32_ok (z : Z) : Prop := 0 <= z < 2 ^ 32.
Definition wire_ok (w : wire) : Prop :=
  length (stock_of w) = 8%nat /\ length (mpid_of w) = 4%nat /\
  match w with
  | WAdd ts ref _ shares _ px | WAddMpid ts ref _ shares _ px _ =>
      i64_ok ts /\ i64_ok ref /\ u32_ok shares /\ u32_ok px
  | WTrade ts ref _ shares _ px number =>
      i64_ok ts /\ i64_ok ref /\ u32_ok shares /\ u32_ok px /\ i64_ok number
  | WDelete ts ref => i64_ok ts /\ i64_ok ref
  | WReplace ts orig new shares px =>
      i64_ok ts /\ i64_ok orig /\ i64_ok new /\ u32_ok shares /\ u32_ok px
  | WExecuted ts ref shares number => i64_ok ts /\ i64_ok ref /\ u32_ok shares /\ i64_ok number
  | WCancelled ts ref shares => i64_ok ts /\ i64_ok ref /\ u32_ok shares
  | WEvent ts _ => i64_ok ts
  | WDirectory ts _ _ => i64_ok ts
  end.
(** The message a record stands for. *)
Definition meaning (w : wire) : ParsedMessage :=
  match w with
  | WAdd ts ref side shares stock px => ADD_ORDER (mkAdd ts ref side shares stock (wire_price px))
  | WAddMpid ts ref side shares stock px id =>
      ADD_ORDER_MPID (mkAddMpid (mkAdd ts ref side shares stock (wire_price px)) id)
  | WDelete ts ref => DELETE_ORDER (mkDelete ts ref)
  | WReplace ts orig new shares px => REPLACE_ORDER (mkReplace ts orig new shares (wire_price px))
  | WExecuted ts ref shares number => ORDER_EXECUTED (mkExecuted ts ref shares number)
  | WCancelled ts ref shares => ORDER_CANCELLED (mkCancelled ts ref shares)
  | WTrade ts ref side shares stock px number =>
      TRADE (mkTrade (mkAdd ts ref side shares stock (wire_price px)) number)
  | WEvent ts code => SYSTEM_EVENT (mkEvent ts code)
  | WDirectory ts stock cat => STOCK_DIRECTORY (mkDirectory ts stock cat)
  end.

(** ** Proofs *)

Lemma read_be64_some p off : (off + 8 <= length p)%nat -> exists v, read_be64 p off = Some v.
Proof. intros H. unfold read_be64. rewrite slice_some by done. simpl. by eexists. Qed.
Lemma read_be32_some p off : (off + 4 <= length p)%nat -> exists v, read_be32 p off = Some v.
Proof. intros H. unfold read_be32. rewrite slice_some by done. simpl. by eexists. Qed.

Lemma read_be64_field p off v : i64_ok v -> slice off 8 p = Some (be_bytes 8 v) -> read_be64 p off = Some v.
Proof.
  intros Hv Hs. unfold read_be64. rewrite Hs. change (Some (i64 (be_value (be_bytes 8 v))) = Some v). f_equal.
  rewrite be_value_bytes. change (256 ^ Z.of_nat 8) with (2 ^ 64).
  transitivity (i64 v); [|apply i64_small; exact Hv]. apply wraps_eqm; [lia|].
  by rewrite Zmod_mod.
Qed.
Lemma read_be32_field p off v : u32_ok v -> slice off 4 p = Some (be_bytes 4 v) -> read_be32 p off = Some v.
Proof. intros Hv Hs. unfold read_be32. rewrite Hs. change (Some (be_value (be_bytes 4 v)) = Some v). by rewrite be_value_small. Qed.

(** Each read of a buffer that is long enough succeeds. *)
Ltac read_ok := repeat first
  [ rewrite bind_some
  | match goal with
    | |- context [read_be64 ?p ?o] => destruct (read_be64_some p o) as [? ->]; [lia|]
    | |- context [read_be32 ?p ?o] => destruct (read_be32_some p o) as [? ->]; [lia|]
    | |- context [byte_at ?o ?p] => destruct (byte_at_some o p) as [? ->]; [lia|]
    | |- context [slice ?o ?n ?p] => rewrite (slice_some o n p) by lia
    end ].

Lemma read_order_some d : (34 <= length d)%nat -> exists m, read_order d = Some m.
Proof. intros H. unfold read_order. read_ok. by eexists. Qed.

(** [parse] never reads outside of its buffer, whatever the bytes: it
    always returns.  A known type yields ERROR exactly when the buffer is
    shorter than that type's length, an empty buffer yields ERROR and is not
    counted, and an unknown type yields UNKNOWN. *)
Lemma itch_parse_safe st d :
  exists st' m, parse st d = Some (st', m) /\
    match d with
    | [] => m = ERROR /\ st' = st
    | t :: _ =>
        total_parsed st' = u64 (total_parsed st + 1) /\
        match expected_length t with
        | Some n => m <> UNKNOWN /\ (m = ERROR <-> alen d < n)
        | None => m = UNKNOWN
        end
    end.
Proof.
  destruct d as [|t d]; [by exists st, ERROR|].
  unfold parse. replace (alen (t :: d) <? 1) with false by (unfold alen; rewrite length_cons; symmetry; apply Z.ltb_ge; lia).
  simpl mbind at 1. cbv zeta. set (l := t :: d). unfold expected_length.
  assert (L : alen l = Z.of_nat (length l)) by done. clearbody l.
  repeat (case_match; [
    unfold parse_add_order, parse_add_order_mpid, parse_delete_order, parse_replace_order, parse_order_executed,
      parse_order_cancelled, parse_trade, parse_system_event, parse_stock_directory;
    match goal with |- context [alen l <? ?n] => destruct (Z.ltb_spec (alen l) n) end;
    [simpl; eexists _, _; by split|
     try (destruct (read_order_some l) as [? ->]; [lia|]; rewrite bind_some); read_ok; rewrite ?bind_some;
     eexists _, _; split; [reflexivity|]; split; [done|]; split; [done|]; split; [done|lia]]|]).
  eexists _, _. by split.
Qed.

(** The fields of an order, at their offsets after any type byte. *)
Lemma read_order_field t ts ref side shares stock px rest :
  i64_ok ts -> i64_ok ref -> u32_ok shares -> u32_ok px -> length stock = 8%nat ->
  read_order ([t] ++ order_bytes ts ref side shares stock px rest) =
    Some (mkAdd ts ref side shares stock (wire_price px)).
Proof.
  intros H1 H2 H3 H4 Hs. unfold read_order, order_bytes. set (d := [t] ++ _).
  rewrite (read_be64_field d 1 ts) by (done || unfold d; read_field). rewrite bind_some.
  rewrite (read_be64_field d 9 ref) by (done || unfold d; read_field). rewrite bind_some.
  replace (byte_at 17 d) with (Some side) by (symmetry; unfold d; read_field). rewrite bind_some.
  rewrite (read_be32_field d 18 shares) by (done || unfold d; read_field). rewrite bind_some.
  replace (slice 22 8 d) with (Some stock) by (symmetry; unfold d; read_field). rewrite bind_some.
  by rewrite (read_be32_field d 30 px) by (done || unfold d; read_field).
Qed.

Lemma order_bytes_length t ts ref side shares stock px rest :
  length stock = 8%nat -> alen ([t] ++ order_bytes ts ref side shares stock px rest) = 34 + alen rest.
Proof. intros H. unfold order_bytes. rewrite !alen_app. unfold alen. rewrite !length_be_bytes, H. simpl. lia. Qed.

Ltac field64 off v := erewrite (read_be64_field _ off v); [rewrite bind_some|done|read_field].
Ltac field32 off v := erewrite (read_be32_field _ off v); [rewrite bind_some|done|read_field].
Ltac fits := symmetry; apply Z.ltb_ge; rewrite !alen_app; unfold alen; rewrite ?length_be_bytes;
  repeat match goal with H : length ?x = _ |- _ => rewrite H end; cbn [length]; lia.
Ltac no_error := match goal with |- context [?a <? ?n] => replace (a <? n) with false
  by (match goal with |- context [alen ?r] => pose proof (alen_nonneg r) end;
      unfold alen in *; symmetry; apply Z.ltb_ge; lia) end.

(** The parser of each type on its own layout. *)
Section layouts.
Context (t : Z) (rest : list Z).

Lemma add_order_layout ts ref side shares stock px :
  i64_ok ts -> i64_ok ref -> u32_ok shares -> u32_ok px -> length stock = 8%nat ->
  parse_add_order ([t] ++ order_bytes ts ref side shares stock px rest) =
    Some (ADD_ORDER (mkAdd ts ref side shares stock (wire_price px))).
Proof.
  intros. unfold parse_add_order. rewrite order_bytes_length by done. no_error. by rewrite read_order_field by done.
Qed.
Lemma add_order_mpid_layout ts ref side shares stock px id :
  i64_ok ts -> i64_ok ref -> u32_ok shares -> u32_ok px -> length stock = 8%nat -> length id = 4%nat ->
  parse_add_order_mpid ([t] ++ order_bytes ts ref side shares stock px (id ++ rest)) =
    Some (ADD_ORDER_MPID (mkAddMpid (mkAdd ts ref side shares stock (wire_price px)) id)).
Proof.
  intros ? ? ? ? ? Hm. unfold parse_add_order_mpid. rewrite order_bytes_length, alen_app by done. no_error.
  rewrite read_order_field by done. rewrite bind_some.
  by replace (slice 34 4 _) with (Some id) by (symmetry; unfold order_bytes; read_field).
Qed.
Lemma trade_layout ts ref side shares stock px number :
  i64_ok ts -> i64_ok ref -> u32_ok shares -> u32_ok px -> length stock = 8%nat -> i64_ok number ->
  parse_trade ([t] ++ order_bytes ts ref side shares stock px (be_bytes 8 number ++ rest)) =
    Some (TRADE (mkTrade (mkAdd ts ref side shares stock (wire_price px)) number)).
Proof.
  intros. unfold parse_trade. rewrite order_bytes_length, alen_app by done.
  replace (_ <? 42) with false by (pose proof (alen_nonneg rest); unfold alen in *; rewrite length_be_bytes; symmetry; apply Z.ltb_ge; lia).
  rewrite read_order_field by done. rewrite bind_some.
  by erewrite (read_be64_field _ 34 number); [|done|unfold order_bytes; read_field].
Qed.
Lemma delete_order_layout ts ref :
  i64_ok ts -> i64_ok ref ->
  parse_delete_order ([t] ++ be_bytes 8 ts ++ be_bytes 8 ref ++ rest) = Some (DELETE_ORDER (mkDelete ts ref)).
Proof.
  intros. unfold parse_delete_order. replace (_ <? 17) with false by fits. field64 1%nat ts. by field64 9%nat ref.
Qed.
Lemma replace_order_layout ts orig new shares px :
  i64_ok ts -> i64_ok orig -> i64_ok new -> u32_ok shares -> u32_ok px ->
  parse_replace_order ([t] ++ be_bytes 8 ts ++ be_bytes 8 orig ++ be_bytes 8 new ++ be_bytes 4 shares ++ be_bytes 4 px ++ rest) =
    Some (REPLACE_ORDER (mkReplace ts orig new shares (wire_price px))).
Proof.
  intros. unfold parse_replace_order. replace (_ <? 33) with false by fits.
  field64 1%nat ts. field64 9%nat orig. field64 17%nat new. field32 25%nat shares. by field32 29%nat px.
Qed.
Lemma order_executed_layout ts ref shares number :
  i64_ok ts -> i64_ok ref -> u32_ok shares -> i64_ok number ->
  parse_order_executed ([t] ++ be_bytes 8 ts ++ be_bytes 8 ref ++ be_bytes 4 shares ++ be_bytes 8 number ++ rest) =
    Some (ORDER_EXECUTED (mkExecuted ts ref shares number)).
Proof.
  intros. unfold parse_order_executed. replace (_ <? 29) with false by fits.
  field64 1%nat ts. field64 9%nat ref. field32 17%nat shares. by field64 21%nat number.
Qed.
Lemma order_cancelled_layout ts ref shares :
  i64_ok ts -> i64_ok ref -> u32_ok shares ->
  parse_order_cancelled ([t] ++ be_bytes 8 ts ++ be_bytes 8 ref ++ be_bytes 4 shares ++ rest) =
    Some (ORDER_CANCELLED (mkCancelled ts ref shares)).
Proof.
  intros. unfold parse_order_cancelled. replace (_ <? 21) with false by fits.
  field64 1%nat ts. field64 9%nat ref. by field32 17%nat shares.
Qed.
Lemma system_event_layout ts code :
  i64_ok ts -> parse_system_event ([t] ++ be_bytes 8 ts ++ [code] ++ rest) = Some (SYSTEM_EVENT (mkEvent ts code)).
Proof.
  intros. unfold parse_system_event. replace (_ <? 10) with false by fits. field64 1%nat ts.
  by replace (byte_at 9 _) with (Some code) by (symmetry; read_field).
Qed.
Lemma stock_directory_layout ts stock cat :
  i64_ok ts -> length stock = 8%nat ->
  parse_stock_directory ([t] ++ be_bytes 8 ts ++ stock ++ [cat] ++ rest) =
    Some (STOCK_DIRECTORY (mkDirectory ts stock cat)).
Proof.
  intros ? Hs. unfold parse_stock_directory. replace (_ <? 18) with false by fits. field64 1%nat ts.
  replace (slice 9 8 _) with (Some stock) by (symmetry; read_field). rewrite bind_some.
  by replace (byte_at 17 _) with (Some cat) by (symmetry; read_field).
Qed.
End layouts.

(** [parse] inverts the wire format: for each of the nine message types,
    the bytes of a message, at their offsets and in big-endian order, parse to
    that message whatever follows them in the buffer. *)
Lemma itch_parse_wire st w rest :
  wire_ok w -> exists st', parse st (wire_bytes w rest) = Some (st', meaning w).
Proof.
  intros (Hs & Hm & Hw). unfold parse, wire_bytes.
  replace (alen _ <? 1) with false by (symmetry; apply Z.ltb_ge; rewrite alen_app; unfold alen; simpl; lia).
  change (byte_at 0 ([type_byte w] ++ wire_fields w rest)) with (Some (type_byte w)). rewrite bind_some.
  destruct w; cbn [type_byte wire_fields stock_of mpid_of meaning] in *; cbv zeta; cbn [Z.eqb Pos.eqb]; eexists.
  - by rewrite add_order_layout by intuition.
  - by rewrite add_order_mpid_layout by intuition.
  - by rewrite delete_order_layout by intuition.
  - by rewrite replace_order_layout by intuition.
  - by rewrite order_executed_layout by intuition.
  - by rewrite order_cancelled_layout by intuition.
  - by rewrite trade_layout by intuition.
  - by rewrite system_event_layout by intuition.
  - by rewrite stock_directory_layout by intuition.
Qed.

Definition demo_wire : wire := WExecuted 34200000000001 77 250 9001.
Lemma itch_parse_wire_witness :
  exists st', parse reset_stats (wire_bytes demo_wire [1; 2; 3]) = Some (st', ORDER_EXECUTED (mkExecuted 34200000000001 77 250 9001)).
Proof. exact (itch_parse_wire reset_stats demo_wire [1; 2; 3] ltac:(by vm_compute)). Defined.
