(* ===== verification/ItchBook.v ===== *)
(** * ItchBook: the order book rebuilt from ITCH messages

    [itch-parser/itch_book.hpp].  [ITCHOrderBook] keeps the resting orders by
    reference number and, per side, the total resting shares of every price
    level in ticks of one cent; a message changes an order and its level
    together.  The trade tape statistics are updated by executions.  A
    [std::map] is a [gmap]; its iteration is over the keys in ascending order. *)
From stdpp Require Import sorting.
From S2P Require Import Prelude Double Common Bytes Itch.

Record Resting := mkResting { side : Z; price_ticks : Z; shares : Z }.
#[export] Instance eta_resting : Settable Resting := fun r => mkResting (side r) (price_ticks r) (shares r).

Record ITCHOrderBook := mkBook {
  orders_ : gmap Z Resting; bids_ : gmap Z Z; asks_ : gmap Z Z;
  adds_ : Z; executes_ : Z; cancels_ : Z; deletes_ : Z; replaces_ : Z; orphans_ : Z;
  exec_shares_sum_ : Z; exec_notional_ticks_ : Z; exec_against_bid_ : Z; exec_against_ask_ : Z;
  max_cum_delta_ : Z; min_cum_delta_ : Z; exec_notional_bid_ticks_ : Z; exec_notional_ask_ticks_ : Z;
  pulled_bid_ : Z; pulled_ask_ : Z; buy_prints_ : Z; sell_prints_ : Z;
  reprice_ticks_sum_ : Z; repriced_ : Z; max_reprice_ticks_ : Z; exec_prints_ : Z; largest_print_ : Z;
  last_trade_ticks_ : Z; last_trade_buy_ : bool; last_tick_dir_ : Z; aggressor_run_ : Z;
  max_buy_run_ : Z; max_sell_run_ : Z
}.
#[export] Instance eta_book : Settable ITCHOrderBook := fun b =>
  mkBook (orders_ b) (bids_ b) (asks_ b) (adds_ b) (executes_ b) (cancels_ b) (deletes_ b) (replaces_ b)
    (orphans_ b) (exec_shares_sum_ b) (exec_notional_ticks_ b) (exec_against_bid_ b) (exec_against_ask_ b)
    (max_cum_delta_ b) (min_cum_delta_ b) (exec_notional_bid_ticks_ b) (exec_notional_ask_ticks_ b)
    (pulled_bid_ b) (pulled_ask_ b) (buy_prints_ b) (sell_prints_ b) (reprice_ticks_sum_ b) (repriced_ b)
    (max_reprice_ticks_ b) (exec_prints_ b) (largest_print_ b) (last_trade_ticks_ b) (last_trade_buy_ b)
    (last_tick_dir_ b) (aggressor_run_ b) (max_buy_run_ b) (max_sell_run_ b).
(** The initial book and the effect of [clear]. *)
Definition clear : ITCHOrderBook :=
  mkBook ∅ ∅ ∅ 0 0 0 0 0 0 0 0 0 0 0 0 0 0 0 0 0 0 0 0 0 0 0 0 false 0 0 0 0.

Definition ch_B : Z := 66.
Definition ch_S : Z := 83.
Definition is_bid (side : Z) : bool := side =? ch_B.

Definition to_ticks (price : double) : Z :=
  dbl_to_i64 (dadd (dmul price (dbl_of_Z 100)) (if dge price d_zero then d_half else dneg d_half)).
Definition side_book (b : ITCHOrderBook) (side : Z) : gmap Z Z := if is_bid side then bids_ b else asks_ b.
Definition set_side_book (b : ITCHOrderBook) (side : Z) (f : gmap Z Z -> gmap Z Z) : ITCHOrderBook :=
  if is_bid side then b <| bids_ ::= f |> else b <| asks_ ::= f |>.

(** Taking [dec] shares off a level removes a level that has none left. *)
Definition level_take (px dec : Z) (m : gmap Z Z) : gmap Z Z :=
  match m !! px with
  | Some q => if i64 (q - dec) <=? 0 then delete px m else <[px := i64 (q - dec)]> m
  | None => m
  end.
Definition level_add (px qty : Z) (m : gmap Z Z) : gmap Z Z := <[px := i64 (default 0 (m !! px) + qty)]> m.

Definition reduce_ (b : ITCHOrderBook) (ref qty : Z) : ITCHOrderBook :=
  match orders_ b !! ref with
  | None => b <| orphans_ ::= incr |>
  | Some r =>
      let dec := if qty <? shares r then qty else shares r in
      let left := u32 (shares r - dec) in
      let b := set_side_book b (side r) (level_take (price_ticks r) dec) in
      if left =? 0 then b <| orders_ ::= delete ref |>
      else b <| orders_ ::= <[ref := r <| shares := left |>]> |>
  end.

Definition on_add (b : ITCHOrderBook) (ref side : Z) (price : double) (shares : Z) : ITCHOrderBook :=
  if shares =? 0 then b else
  let px := to_ticks price in
  let b := b <| orders_ ::= <[ref := mkResting side px shares]> |> in
  set_side_book b side (level_add px shares) <| adds_ ::= incr |>.

(** The trade tape: what [on_execute] records of an execution of [dec] shares
    against the resting order [r]. *)
Definition record_flow (b : ITCHOrderBook) (r : Resting) (dec : Z) : ITCHOrderBook :=
  let notional := i64 (dec * price_ticks r) in
  let b := b <| exec_shares_sum_ ::= fun n => i64 (n + dec) |>
             <| exec_notional_ticks_ ::= fun n => i64 (n + notional) |> in
  let b := if is_bid (side r)
    then b <| exec_against_bid_ ::= fun n => i64 (n + dec) |>
           <| exec_notional_bid_ticks_ ::= fun n => i64 (n + notional) |> <| sell_prints_ ::= incr |>
    else b <| exec_against_ask_ ::= fun n => i64 (n + dec) |>
           <| exec_notional_ask_ticks_ ::= fun n => i64 (n + notional) |> <| buy_prints_ ::= incr |> in
  let cd := i64 (exec_against_ask_ b - exec_against_bid_ b) in
  b <| max_cum_delta_ ::= fun m => if m <? cd then cd else m |>
    <| min_cum_delta_ ::= fun m => if cd <? m then cd else m |>
    <| exec_prints_ ::= incr |>
    <| largest_print_ ::= fun m => if m <? dec then dec else m |>.
Definition record_print (b : ITCHOrderBook) (r : Resting) : ITCHOrderBook :=
  let new_px := price_ticks r in
  let last := last_trade_ticks_ b in
  let buy := side r =? ch_S in
  let run := aggressor_run_ b in
  let run := if (0 <? run) && buy then i32 (run + 1)
             else if (run <? 0) && negb buy then i32 (run - 1)
             else if buy then 1 else -1 in
  let b := b <| last_tick_dir_ ::= fun d =>
                  if last =? 0 then d else if last <? new_px then 1 else if new_px <? last then -1 else d |>
             <| last_trade_ticks_ := new_px |> <| last_trade_buy_ := buy |> <| aggressor_run_ := run |> in
  if max_buy_run_ b <? run then b <| max_buy_run_ := run |>
  else if max_sell_run_ b <? i32 (- run) then b <| max_sell_run_ := i32 (- run) |>
  else b.
Definition on_execute (b : ITCHOrderBook) (ref exec_shares : Z) : ITCHOrderBook :=
  let b := match orders_ b !! ref with
           | Some r =>
               let dec := if exec_shares <? shares r then exec_shares else shares r in
               record_print (record_flow b r dec) r
           | None => b
           end in
  reduce_ b ref exec_shares <| executes_ ::= incr |>.

Definition record_pull (b : ITCHOrderBook) (r : Resting) (dec : Z) : ITCHOrderBook :=
  if is_bid (side r) then b <| pulled_bid_ ::= fun n => i64 (n + dec) |>
  else b <| pulled_ask_ ::= fun n => i64 (n + dec) |>.
Definition on_cancel (b : ITCHOrderBook) (ref cancelled_shares : Z) : ITCHOrderBook :=
  let b := match orders_ b !! ref with
           | Some r => record_pull b r (if cancelled_shares <? shares r then cancelled_shares else shares r)
           | None => b
           end in
  reduce_ b ref cancelled_shares <| cancels_ ::= incr |>.
Definition on_delete (b : ITCHOrderBook) (ref : Z) : ITCHOrderBook :=
  match orders_ b !! ref with
  | None => b <| orphans_ ::= incr |> <| deletes_ ::= incr |>
  | Some r => reduce_ (record_pull b r (shares r)) ref (shares r) <| deletes_ ::= incr |>
  end.
Definition on_replace (b : ITCHOrderBook) (orig_ref new_ref : Z) (new_price : double) (new_shares : Z) : ITCHOrderBook :=
  match orders_ b !! orig_ref with
  | None => b <| orphans_ ::= incr |> <| replaces_ ::= incr |>
  | Some r =>
      let old_px := price_ticks r in
      let new_px := to_ticks new_price in
      let move := if old_px <? new_px then i64 (new_px - old_px) else i64 (old_px - new_px) in
      let b := b <| reprice_ticks_sum_ ::= fun n => i64 (n + move) |>
                 <| max_reprice_ticks_ ::= fun m => if m <? move then move else m |>
                 <| repriced_ ::= incr |> in
      let b := reduce_ b orig_ref (shares r) in
      on_add b new_ref (side r) new_price new_shares
        <| adds_ ::= fun n => u64 (n - 1) |> <| replaces_ ::= incr |>
  end.

Definition apply_message (b : ITCHOrderBook) (pm : ParsedMessage) : ITCHOrderBook :=
  match pm with
  | ADD_ORDER m => on_add b (add_order_ref m) (add_side m) (add_price m) (add_shares m)
  | ADD_ORDER_MPID m =>
      let m := mpid_order m in on_add b (add_order_ref m) (add_side m) (add_price m) (add_shares m)
  | ORDER_EXECUTED m => on_execute b (exe_order_ref m) (exec_shares m)
  | ORDER_CANCELLED m => on_cancel b (can_order_ref m) (cancelled_shares m)
  | DELETE_ORDER m => on_delete b (del_order_ref m)
  | REPLACE_ORDER m => on_replace b (orig_order_ref m) (new_order_ref m) (new_price m) (new_shares m)
  | _ => b
  end.

(** ** Iteration over the levels *)

Definition px_le (x y : Z * Z) : Prop := x.1 <= y.1.
#[export] Instance px_le_dec x y : Decision (px_le x y).
Proof. unfold px_le. apply _. Defined.
Definition asc (m : gmap Z Z) : list (Z * Z) := merge_sort px_le (map_to_list m).
Definition desc (m : gmap Z Z) : list (Z * Z) := reverse (asc m).
(** A side best level first: bids downwards, asks upwards. *)
Definition best_first (b : ITCHOrderBook) (side : Z) : list (Z * Z) :=
  if is_bid side then desc (bids_ b) else asc (asks_ b).
(** What an order of [side] trades against. *)
Definition against (b : ITCHOrderBook) (side : Z) : list (Z * Z) :=
  if is_bid side then asc (asks_ b) else desc (bids_ b).
Definition nlevels {A} (n : Z) (l : list A) : list A := take (Z.to_nat n) l.

Definition dollars (px : Z) : double := ddiv (dbl_of_Z px) (dbl_of_Z 100).
Definition level_notional (l : Z * Z) : double := dmul (dollars l.1) (dbl_of_Z l.2).
Definition dsum {A} (f : A -> double) (l : list A) : double := foldl (fun s x => dadd s (f x)) d_zero l.
Definition qty_sum (l : list (Z * Z)) : Z := sum64 snd l.
(** [b - a] over [b + a], 0.0 unless the sum is positive. *)
Definition skew (b a : Z) : double :=
  let tot := i64 (b + a) in
  if 0 <? tot then ddiv (dbl_of_Z (i64 (b - a))) (dbl_of_Z tot) else d_zero.
Definition per (x y : Z) : double := if 0 <? y then ddiv (dbl_of_Z x) (dbl_of_Z y) else d_zero.
Definition both_pos (x y : double) : bool := dgt x d_zero && dgt y d_zero.

Definition best_bid (b : ITCHOrderBook) : double :=
  match desc (bids_ b) with [] => d_zero | l :: _ => dollars l.1 end.
Definition best_ask (b : ITCHOrderBook) : double :=
  match asc (asks_ b) with [] => d_zero | l :: _ => dollars l.1 end.
Definition one_sided (b : ITCHOrderBook) : bool :=
  match desc (bids_ b), asc (asks_ b) with _ :: _, _ :: _ => false | _, _ => true end.
Definition spread (b : ITCHOrderBook) : double := if one_sided b then d_zero else dsub (best_ask b) (best_bid b).
Definition mid_price (b : ITCHOrderBook) : double :=
  if one_sided b then d_zero else ddiv (dadd (best_bid b) (best_ask b)) (dbl_of_Z 2).
Definition spread_bps (b : ITCHOrderBook) : double :=
  if dgt (mid_price b) d_zero then dmul (ddiv (spread b) (mid_price b)) (dbl_of_Z 10000) else d_zero.
Definition spread_ticks (b : ITCHOrderBook) : Z :=
  match desc (bids_ b), asc (asks_ b) with x :: _, y :: _ => i64 (y.1 - x.1) | _, _ => 0 end.
Definition is_marketable (b : ITCHOrderBook) (side : Z) (limit_price : double) : bool :=
  if is_bid side then dgt (best_ask b) d_zero && dge limit_price (best_ask b)
  else dgt (best_bid b) d_zero && dle limit_price (best_bid b).
Definition first_qty (l : list (Z * Z)) : Z := match l with [] => 0 | x :: _ => x.2 end.
Definition best_bid_qty (b : ITCHOrderBook) : Z := first_qty (desc (bids_ b)).
Definition best_ask_qty (b : ITCHOrderBook) : Z := first_qty (asc (asks_ b)).
Definition imbalance (b : ITCHOrderBook) : double := skew (best_bid_qty b) (best_ask_qty b).

(** The levels within [ticks] of the best one. *)
Definition levels_near (b : ITCHOrderBook) (side ticks : Z) : list (Z * Z) :=
  let l := best_first b side in
  match l with
  | [] => []
  | best :: _ =>
      fst (foldl (fun acc x => if acc.2 && (if is_bid side then i64 (best.1 - ticks) <=? x.1 else x.1 <=? i64 (best.1 + ticks))
                              then (acc.1 ++ [x], true) else (acc.1, false)) ([], true) l)
  end.
Definition liquidity_within (b : ITCHOrderBook) (side ticks : Z) : Z :=
  if ticks <? 0 then 0 else qty_sum (levels_near b side ticks).
Definition notional_within (b : ITCHOrderBook) (side ticks : Z) : double :=
  if ticks <? 0 then d_zero else dsum level_notional (levels_near b side ticks).
Definition levels_within (b : ITCHOrderBook) (side ticks : Z) : Z :=
  if ticks <? 0 then 0 else alen (levels_near b side ticks).

(** The loops that consume the opposite side, level after level. *)
Fixpoint fillable_loop (buy : bool) (lim : Z) (l : list (Z * Z)) (sum : Z) : Z :=
  match l with
  | [] => sum
  | x :: l' => if (if buy then lim <? x.1 else x.1 <? lim) then sum else fillable_loop buy lim l' (i64 (sum + x.2))
  end.
Definition fillable_shares (b : ITCHOrderBook) (side : Z) (limit_price : double) : Z :=
  fillable_loop (is_bid side) (to_ticks limit_price) (against b side) 0.
Fixpoint fill_loop (l : list (Z * Z)) (remaining : Z) (levels : Z) : option (Z * Z) :=
  match l with
  | [] => None
  | x :: l' =>
      let remaining := i64 (remaining - x.2) in
      if remaining <=? 0 then Some (x.1, levels + 1) else fill_loop l' remaining (levels + 1)
  end.
Definition price_to_fill (b : ITCHOrderBook) (side shares : Z) : double :=
  if shares <=? 0 then d_zero else
  match fill_loop (against b side) shares 0 with Some (px, _) => dollars px | None => d_zero end.
Definition levels_to_fill (b : ITCHOrderBook) (side shares : Z) : Z :=
  if shares <=? 0 then 0 else
  match fill_loop (against b side) shares 0 with Some (_, n) => n | None => -1 end.
Definition spread_at_size (b : ITCHOrderBook) (shares : Z) : double :=
  let buy := price_to_fill b ch_B shares in
  let sell := price_to_fill b ch_S shares in
  if both_pos buy sell then dsub buy sell else d_zero.
Fixpoint expected_loop (l : list (Z * Z)) (remaining filled : Z) (notional : double) : Z * double :=
  match l with
  | [] => (filled, notional)
  | x :: l' =>
      if 0 <? remaining then
        let take := Z.min remaining x.2 in
        expected_loop l' (i64 (remaining - take)) (i64 (filled + take))
          (dadd notional (dmul (dbl_of_Z x.1) (dbl_of_Z take)))
      else (filled, notional)
  end.
(** The shares filled and [out_vwap]. *)
Definition expected_fill (b : ITCHOrderBook) (side shares : Z) : Z * double :=
  if shares <=? 0 then (0, d_zero) else
  let '(filled, notional) := expected_loop (against b side) shares 0 d_zero in
  (filled, if 0 <? filled then ddiv (ddiv notional (dbl_of_Z filled)) (dbl_of_Z 100) else d_zero).
Definition slippage_bps (b : ITCHOrderBook) (side shares : Z) : double :=
  let '(filled, vwap) := expected_fill b side shares in
  let m := mid_price b in
  if (filled <=? 0) || dle m d_zero || dle vwap d_zero then d_zero else
  dmul (ddiv (if is_bid side then dsub vwap m else dsub m vwap) m) (dbl_of_Z 10000).
Definition round_trip_cost_bps (b : ITCHOrderBook) (shares : Z) : double :=
  dadd (slippage_bps b ch_B shares) (slippage_bps b ch_S shares).
Definition fill_shortfall (b : ITCHOrderBook) (side shares : Z) : Z :=
  if shares <=? 0 then 0 else i64 (shares - (expected_fill b side shares).1).

Definition total_shares (b : ITCHOrderBook) (side : Z) : Z := qty_sum (asc (side_book b side)).
Definition total_notional (b : ITCHOrderBook) (side : Z) : double := dsum level_notional (asc (side_book b side)).
Definition level_count (b : ITCHOrderBook) (side : Z) : Z := Z.of_nat (size (side_book b side)).
Definition is_locked (b : ITCHOrderBook) : bool :=
  match desc (bids_ b), asc (asks_ b) with x :: _, y :: _ => x.1 =? y.1 | _, _ => false end.
Definition is_crossed (b : ITCHOrderBook) : bool :=
  match desc (bids_ b), asc (asks_ b) with x :: _, y :: _ => y.1 <? x.1 | _, _ => false end.
Definition vwap_depth (b : ITCHOrderBook) (side n : Z) : double :=
  if n <=? 0 then d_zero else
  let l := nlevels n (best_first b side) in
  if 0 <? qty_sum l then ddiv (dsum level_notional l) (dbl_of_Z (qty_sum l)) else d_zero.
Definition depth_weighted_spread (b : ITCHOrderBook) (n : Z) : double :=
  let vb := vwap_depth b ch_B n in
  let va := vwap_depth b ch_S n in
  if both_pos vb va then dsub va vb else d_zero.
Definition depth_weighted_mid (b : ITCHOrderBook) (n : Z) : double :=
  let bv := vwap_depth b ch_B n in
  let av := vwap_depth b ch_S n in
  if both_pos bv av then ddiv (dadd bv av) (dbl_of_Z 2) else d_zero.
Definition depth_imbalance (b : ITCHOrderBook) (n : Z) : double :=
  if n <=? 0 then d_zero
  else skew (qty_sum (nlevels n (best_first b ch_B))) (qty_sum (nlevels n (best_first b ch_S))).
Definition notional_imbalance (b : ITCHOrderBook) (n : Z) : double :=
  if n <=? 0 then d_zero else
  let x := dsum level_notional (nlevels n (best_first b ch_B)) in
  let y := dsum level_notional (nlevels n (best_first b ch_S)) in
  if dgt (dadd x y) d_zero then ddiv (dsub x y) (dadd x y) else d_zero.
Definition liquidity_imbalance_within (b : ITCHOrderBook) (ticks : Z) : double :=
  skew (liquidity_within b ch_B ticks) (liquidity_within b ch_S ticks).
Definition microprice (b : ITCHOrderBook) : double :=
  if one_sided b then d_zero else
  let qb := best_bid_qty b in
  let qa := best_ask_qty b in
  let tot := i64 (qb + qa) in
  if tot <=? 0 then d_zero else
  ddiv (dadd (dmul (best_ask b) (dbl_of_Z qb)) (dmul (best_bid b) (dbl_of_Z qa))) (dbl_of_Z tot).
Definition microprice_skew (b : ITCHOrderBook) : double :=
  if both_pos (microprice b) (mid_price b) then dsub (microprice b) (mid_price b) else d_zero.
Definition imbalance_signal (b : ITCHOrderBook) (threshold : double) : Z :=
  if dgt (imbalance b) threshold then 1 else if dlt (imbalance b) (dneg threshold) then -1 else 0.
Definition qty_at (b : ITCHOrderBook) (side : Z) (price : double) : Z :=
  default 0 (side_book b side !! to_ticks price).
(** The prices and quantities written to the caller's arrays. *)
Definition top_levels (b : ITCHOrderBook) (side n : Z) : list (double * Z) :=
  (fun l => (dollars l.1, l.2)) <$> nlevels n (best_first b side).
Definition nth_level_price (b : ITCHOrderBook) (side n : Z) : double :=
  if n <? 0 then d_zero else
  match best_first b side !! Z.to_nat n with Some l => dollars l.1 | None => d_zero end.
Definition nth_level_qty (b : ITCHOrderBook) (side n : Z) : Z :=
  if n <? 0 then 0 else match best_first b side !! Z.to_nat n with Some l => l.2 | None => 0 end.
Definition cumulative_qty (b : ITCHOrderBook) (side n : Z) : Z :=
  if n <=? 0 then 0 else qty_sum (nlevels n (best_first b side)).
Definition depth_concentration (b : ITCHOrderBook) (side n : Z) : double := per (cumulative_qty b side n) (total_shares b side).
Definition depth_notional (b : ITCHOrderBook) (side n : Z) : double :=
  if n <=? 0 then d_zero else dsum level_notional (nlevels n (best_first b side)).
Definition queue_ahead (b : ITCHOrderBook) (side : Z) (price : double) : Z := qty_at b side price.
Fixpoint gap_loop (bid : bool) (prev : option Z) (l : list (Z * Z)) (maxgap : Z) : Z :=
  match l with
  | [] => maxgap
  | x :: l' =>
      let maxgap := match prev with
        | Some p => let g := i64 (if bid then p - x.1 else x.1 - p) in if maxgap <? g then g else maxgap
        | None => maxgap
        end in
      gap_loop bid (Some x.1) l' maxgap
  end.
Definition largest_level_gap (b : ITCHOrderBook) (side n : Z) : Z :=
  if n <=? 1 then 0 else gap_loop (is_bid side) None (nlevels n (best_first b side)) 0.
Definition book_slope (b : ITCHOrderBook) (side n : Z) : double :=
  if n <=? 1 then d_zero else
  let l := nlevels n (best_first b side) in
  match head l, last l with
  | Some x, Some y =>
      if alen l <? 2 then d_zero else
      let span := i64 (if is_bid side then x.1 - y.1 else y.1 - x.1) in
      if span <=? 0 then d_zero else ddiv (dbl_of_Z (qty_sum l)) (dbl_of_Z span)
  | _, _ => d_zero
  end.
Definition book_slope_imbalance (b : ITCHOrderBook) (n : Z) : double :=
  let bs := book_slope b ch_B n in
  let as_ := book_slope b ch_S n in
  if dgt (dadd bs as_) d_zero then ddiv (dsub bs as_) (dadd bs as_) else d_zero.
Definition bid_levels (b : ITCHOrderBook) : Z := Z.of_nat (size (bids_ b)).
Definition ask_levels (b : ITCHOrderBook) : Z := Z.of_nat (size (asks_ b)).
Definition resting_orders (b : ITCHOrderBook) : Z := Z.of_nat (size (orders_ b)).
Definition total_bid_qty (b : ITCHOrderBook) : Z := qty_sum (asc (bids_ b)).
Definition total_ask_qty (b : ITCHOrderBook) : Z := qty_sum (asc (asks_ b)).

(** ** Tape statistics *)

Definition vwap_of (notional_ticks shares : Z) : double :=
  if 0 <? shares then ddiv (ddiv (dbl_of_Z notional_ticks) (dbl_of_Z shares)) (dbl_of_Z 100) else d_zero.
Definition executed_vwap (b : ITCHOrderBook) : double := vwap_of (exec_notional_ticks_ b) (exec_shares_sum_ b).
Definition last_trade_price (b : ITCHOrderBook) : double := dollars (last_trade_ticks_ b).
Definition is_uptick (b : ITCHOrderBook) : bool := 0 <? last_tick_dir_ b.
Definition avg_trade_size (b : ITCHOrderBook) : double := per (exec_shares_sum_ b) (exec_prints_ b).
Definition buy_vwap (b : ITCHOrderBook) : double := vwap_of (exec_notional_ask_ticks_ b) (exec_against_ask_ b).
Definition sell_vwap (b : ITCHOrderBook) : double := vwap_of (exec_notional_bid_ticks_ b) (exec_against_bid_ b).
Definition pulled_shares (b : ITCHOrderBook) (side : Z) : Z := if is_bid side then pulled_bid_ b else pulled_ask_ b.
Definition pull_to_take_ratio (b : ITCHOrderBook) (side : Z) : double :=
  per (pulled_shares b side) (if is_bid side then exec_against_bid_ b else exec_against_ask_ b).
Definition pull_imbalance (b : ITCHOrderBook) : double := skew (pulled_bid_ b) (pulled_ask_ b).
Definition mid_vs_vwap_bps (b : ITCHOrderBook) : double :=
  if both_pos (executed_vwap b) (mid_price b)
  then dmul (ddiv (dsub (mid_price b) (executed_vwap b)) (executed_vwap b)) (dbl_of_Z 10000) else d_zero.
Definition tape_effective_spread (b : ITCHOrderBook) : double :=
  if (0 <? exec_against_ask_ b) && (0 <? exec_against_bid_ b) then dsub (buy_vwap b) (sell_vwap b) else d_zero.
Definition cumulative_delta (b : ITCHOrderBook) : Z := i64 (exec_against_ask_ b - exec_against_bid_ b).
Definition tape_imbalance (b : ITCHOrderBook) : double := skew (exec_against_ask_ b) (exec_against_bid_ b).
Definition count_skew (x y : Z) : double :=
  let tot := u64 (x + y) in
  if 0 <? tot then ddiv (dsub (dbl_of_Z x) (dbl_of_Z y)) (dbl_of_Z tot) else d_zero.
Definition print_imbalance (b : ITCHOrderBook) : double := count_skew (buy_prints_ b) (sell_prints_ b).
Definition avg_reprice_ticks (b : ITCHOrderBook) : double := per (reprice_ticks_sum_ b) (repriced_ b).
Definition ref_event_count (b : ITCHOrderBook) : Z := u64 (executes_ b + cancels_ b + deletes_ b + replaces_ b).
Definition orphan_rate (b : ITCHOrderBook) : double := per (orphans_ b) (ref_event_count b).
Definition cancel_to_add_ratio (b : ITCHOrderBook) : double := per (cancels_ b) (adds_ b).
Definition execute_to_add_ratio (b : ITCHOrderBook) : double := per (executes_ b) (adds_ b).
Definition order_to_trade_ratio (b : ITCHOrderBook) : double :=
  per (u64 (adds_ b + cancels_ b + deletes_ b + replaces_ b)) (exec_prints_ b).

(** ** Loops over the resting orders *)

Section book_loops.
Context `{HashOrder}.
Definition on_side (s : Z) (r : Resting) : bool := side r =? s.
Definition resting_order_count (b : ITCHOrderBook) (s : Z) : Z := count_if (on_side s) (values (orders_ b)).
Definition participant_imbalance (b : ITCHOrderBook) : double :=
  count_skew (resting_order_count b ch_B) (resting_order_count b ch_S).
Definition order_count_at (b : ITCHOrderBook) (s : Z) (price : double) : Z :=
  count_if (fun r => on_side s r && (price_ticks r =? to_ticks price)) (values (orders_ b)).
(** The size and, when there is one, the price of the largest. *)
Definition largest_resting_order (b : ITCHOrderBook) (s : Z) : Z * Z :=
  foldl (fun best r => if on_side s r && (best.1 <? shares r) then (shares r, price_ticks r) else best)
    (0, 0) (values (orders_ b)).
Definition largest_level (b : ITCHOrderBook) (s : Z) : Z * Z :=
  foldl (fun best l => if best.1 <? l.2 then (l.2, l.1) else best) (0, 0) (asc (side_book b s)).
Definition avg_resting_order_size (b : ITCHOrderBook) (s : Z) : double :=
  per (sum64 (fun r => if on_side s r then shares r else 0) (values (orders_ b))) (resting_order_count b s).

(** The self-check: 0 when every level is positive and the levels are exactly
    the totals of the resting orders. *)
Fixpoint rebuild (l : list Resting) (b a : gmap Z Z) : option (gmap Z Z * gmap Z Z) :=
  match l with
  | [] => Some (b, a)
  | r :: l' =>
      if shares r =? 0 then None
      else if is_bid (side r) then rebuild l' (level_add (price_ticks r) (shares r) b) a
      else rebuild l' b (level_add (price_ticks r) (shares r) a)
  end.
Definition audit_book (b : ITCHOrderBook) : Z :=
  if existsb (fun l => l.2 <=? 0) (asc (bids_ b)) then 1 else
  if existsb (fun l => l.2 <=? 0) (asc (asks_ b)) then 2 else
  match rebuild (values (orders_ b)) ∅ ∅ with
  | None => 5
  | Some (bb, aa) =>
      if negb (bool_decide (bb = bids_ b)) then 3
      else if negb (bool_decide (aa = asks_ b)) then 4 else 0
  end.
End book_loops.

(** ** The feed handler: buffers in, book out *)

Definition feed_step (s : Stats * ITCHOrderBook) (d : list Z) : Stats * ITCHOrderBook :=
  match parse s.1 d with
  | Some (st, m) => (st, apply_message s.2 m)
  | None => s
  end.
Definition feed (bufs : list (list Z)) : Stats * ITCHOrderBook := foldl feed_step (reset_stats, clear) bufs.

(** A message does not reuse the reference of a resting order: the condition
    under which the exchange's own book and this one stay equal. *)
Definition fresh_ref (b : ITCHOrderBook) (m : ParsedMessage) : bool :=
  match m with
  | ADD_ORDER m => (add_shares m =? 0) || bool_decide (orders_ b !! add_order_ref m = None)
  | ADD_ORDER_MPID m =>
      (add_shares (mpid_order m) =? 0) || bool_decide (orders_ b !! add_order_ref (mpid_order m) = None)
  | REPLACE_ORDER m =>
      (new_order_ref m =? orig_order_ref m) || bool_decide (orders_ b !! new_order_ref m = None)
  | _ => true
  end.
Fixpoint fresh_feed (s : Stats * ITCHOrderBook) (bufs : list (list Z)) : bool :=
  match bufs with
  | [] => true
  | d :: bufs' =>
      match parse s.1 d with Some (_, m) => fresh_ref s.2 m | None => true end &&
      fresh_feed (feed_step s d) bufs'
  end.

(** ** The levels are the totals of the resting orders *)

(** The shares resting on the bid side ([bid] true) or the ask side at [px]. *)
Definition at_level (bid : bool) (px : Z) (r : Resting) : Z :=
  if Bool.eqb (is_bid (side r)) bid && (price_ticks r =? px) then shares r else 0.
Definition total_at (o : gmap Z Resting) (bid : bool) (px : Z) : Z := msum (fun _ => at_level bid px) o.
Definition level_of (t : Z) : option Z := if t =? 0 then None else Some t.
Definition levels (b : ITCHOrderBook) (bid : bool) : gmap Z Z := if bid then bids_ b else asks_ b.
Definition MAX_SHARES : Z := 4294967295.

(** [n] orders have been added so far. *)
Record book_inv (n : Z) (b : ITCHOrderBook) : Prop := {
  bi_shares : forall ref r, orders_ b !! ref = Some r -> 0 < shares r <= MAX_SHARES;
  bi_levels : forall bid px, levels b bid !! px = level_of (total_at (orders_ b) bid px);
  bi_size : msum (fun _ => shares) (orders_ b) <= n * MAX_SHARES
}.

(** What the invariant looks at. *)
Definition core (b : ITCHOrderBook) : gmap Z Resting * gmap Z Z * gmap Z Z := (orders_ b, bids_ b, asks_ b).
Lemma book_inv_core n b b' : core b = core b' -> book_inv n b -> book_inv n b'.
Proof.
  unfold core. intros E [H1 H2 H3]. injection E as Eo Eb Ea.
  split; unfold levels in *; rewrite <- ?Eo, <- ?Eb, <- ?Ea; done.
Qed.
Lemma core_set_side b s f : core (set_side_book b s f) =
  (orders_ b, if is_bid s then f (bids_ b) else bids_ b, if is_bid s then asks_ b else f (asks_ b)).
Proof. unfold set_side_book. by destruct (is_bid s). Qed.
Lemma core_flow b r d : core (record_flow b r d) = core b.
Proof. unfold record_flow. by destruct (is_bid (side r)). Qed.
Lemma core_print b r : core (record_print b r) = core b.
Proof. unfold record_print. cbv zeta. by repeat case_match. Qed.
Lemma core_pull b r d : core (record_pull b r d) = core b.
Proof. unfold record_pull. by destruct (is_bid (side r)). Qed.
Lemma core_orders b b' : core b = core b' -> orders_ b = orders_ b'.
Proof. unfold core. congruence. Qed.
Lemma levels_set_side b s f bid :
  levels (set_side_book b s f) bid = if Bool.eqb (is_bid s) bid then f (levels b bid) else levels b bid.
Proof. unfold set_side_book, levels. by destruct (is_bid s), bid. Qed.
Lemma orders_set_side b s f : orders_ (set_side_book b s f) = orders_ b.
Proof. unfold set_side_book. by destruct (is_bid s). Qed.

Lemma total_at_bounds n b bid px :
  book_inv n b -> 0 <= total_at (orders_ b) bid px <= n * MAX_SHARES.
Proof.
  intros [H1 _ H3]. unfold total_at. split.
  - apply msum_nonneg. intros i r Hr. apply H1 in Hr. unfold at_level. case_match; lia.
  - etrans; [|exact H3]. apply msum_le. intros i r Hr. apply H1 in Hr. unfold at_level. case_match; lia.
Qed.
Lemma at_level_own r : at_level (is_bid (side r)) (price_ticks r) r = shares r.
Proof. unfold at_level. by rewrite Bool.eqb_reflx, Z.eqb_refl. Qed.
Lemma own_total n b ref r :
  book_inv n b -> orders_ b !! ref = Some r ->
  shares r <= total_at (orders_ b) (is_bid (side r)) (price_ticks r).
Proof.
  intros [H1 _ _] Hr. rewrite <- (at_level_own r) at 1.
  apply (msum_entry (fun _ => at_level _ _) _ ref r); [|done].
  intros i x Hx. apply H1 in Hx. unfold at_level. case_match; lia.
Qed.

Lemma level_take_spec m px t dec px' :
  m !! px = level_of t -> 0 <= dec <= t -> t <= INT64_MAX ->
  level_take px dec m !! px' = if px' =? px then level_of (t - dec) else m !! px'.
Proof.
  unfold level_take, level_of, INT64_MAX. intros E H Hm. rewrite E. destruct (Z.eqb_spec t 0) as [->|N].
  - replace (0 - dec) with 0 by lia. simpl.
    destruct (Z.eqb_spec px' px) as [->|]; [|done].
    done.
  - rewrite i64_small by lia. destruct (Z.leb_spec (t - dec) 0).
    + replace (t - dec) with 0 by lia. destruct (Z.eqb_spec px' px) as [->|]; [apply lookup_delete_eq|].
      by rewrite lookup_delete_ne.
    + destruct (Z.eqb_spec px' px) as [->|]; [rewrite lookup_insert_eq|by rewrite lookup_insert_ne].
      by destruct (Z.eqb_spec (t - dec) 0); [lia|].
Qed.
Lemma level_add_spec m px t qty px' :
  m !! px = level_of t -> 0 <= t -> 0 < qty -> t + qty <= INT64_MAX ->
  level_add px qty m !! px' = if px' =? px then level_of (t + qty) else m !! px'.
Proof.
  unfold level_add, level_of, INT64_MAX. intros E Ht Hq Hm. rewrite E.
  replace (default 0 (if t =? 0 then None else Some t)) with t by (by destruct (Z.eqb_spec t 0)).
  rewrite i64_small by lia. destruct (Z.eqb_spec px' px) as [->|]; [rewrite lookup_insert_eq|by rewrite lookup_insert_ne].
  by destruct (Z.eqb_spec (t + qty) 0); [lia|].
Qed.

(** Changing the orders and one level together keeps the two in step: [d]
    shares are added to the level of [r] ([f]) and to the orders. *)
Lemma book_inv_step n n' b b' r f d :
  book_inv n b ->
  (forall bid, levels b' bid = if Bool.eqb (is_bid (side r)) bid then f (levels b bid) else levels b bid) ->
  (forall m px', m !! price_ticks r = level_of (total_at (orders_ b) (is_bid (side r)) (price_ticks r)) ->
     f m !! px' = if px' =? price_ticks r
                  then level_of (total_at (orders_ b) (is_bid (side r)) (price_ticks r) + d) else m !! px') ->
  (forall bid px, total_at (orders_ b') bid px =
     total_at (orders_ b) bid px + if Bool.eqb (is_bid (side r)) bid && (price_ticks r =? px) then d else 0) ->
  (forall ref x, orders_ b' !! ref = Some x -> 0 < shares x <= MAX_SHARES) ->
  msum (fun _ => shares) (orders_ b') <= n' * MAX_SHARES ->
  book_inv n' b'.
Proof.
  intros I Hl Hf Ht H1 H3. split; [done| |done]. intros bid px. rewrite Hl, Ht.
  destruct (Bool.eqb (is_bid (side r)) bid) eqn:E; simpl; [|by rewrite Z.add_0_r; apply (bi_levels n b I)].
  apply Bool.eqb_prop in E. subst bid. rewrite Hf by apply (bi_levels n b I).
  rewrite (Z.eqb_sym px). destruct (Z.eqb_spec (price_ticks r) px) as [->|]; [done|].
  rewrite Z.add_0_r. apply (bi_levels n b I).
Qed.

Lemma at_level_shares bid px r q : at_level bid px (r <| shares := q |>) =
  if Bool.eqb (is_bid (side r)) bid && (price_ticks r =? px) then q else 0.
Proof. done. Qed.

Lemma reduce_inv n b ref qty :
  0 <= qty -> n * MAX_SHARES <= INT64_MAX -> book_inv n b -> book_inv n (reduce_ b ref qty).
Proof.
  intros Hq Hn I. unfold reduce_. destruct (orders_ b !! ref) as [r|] eqn:Hr; [|by apply (book_inv_core n b)].
  set (dec := if qty <? shares r then qty else shares r).
  pose proof (bi_shares _ _ I _ _ Hr) as Hs. pose proof (own_total n b ref r I Hr).
  pose proof (total_at_bounds n b (is_bid (side r)) (price_ticks r) I).
  assert (0 <= dec <= shares r) as Hd by (unfold dec; zcases). cbv zeta.
  pose proof (bi_size _ _ I). unfold MAX_SHARES in *.
  assert (forall m px', m !! price_ticks r = level_of (total_at (orders_ b) (is_bid (side r)) (price_ticks r)) ->
    level_take (price_ticks r) dec m !! px' = if px' =? price_ticks r
      then level_of (total_at (orders_ b) (is_bid (side r)) (price_ticks r) + - dec) else m !! px') as F.
  { intros m px' Hm. rewrite (level_take_spec _ _ _ _ _ Hm); [done|lia|lia]. }
  rewrite u32_small by lia. destruct (Z.eqb_spec (shares r - dec) 0).
  - eapply (book_inv_step n n b _ r _ (- dec) I); [|exact F|..]; unfold set_field; cbn [orders_].
    + intros bid. apply levels_set_side.
    + intros bid px. rewrite orders_set_side. unfold total_at. rewrite (msum_delete _ _ _ r) by done.
      unfold at_level at 2. case_match; lia.
    + rewrite orders_set_side. intros j x [_ Hx]%lookup_delete_Some. by apply (bi_shares _ _ I j).
    + rewrite orders_set_side, (msum_delete _ _ _ r) by done. unfold MAX_SHARES. lia.
  - eapply (book_inv_step n n b _ r _ (- dec) I); [|exact F|..]; unfold set_field; cbn [orders_].
    + intros bid. apply levels_set_side.
    + intros bid px. rewrite orders_set_side. unfold total_at. rewrite (msum_insert _ _ _ r) by done.
      unfold at_level at 2 3. cbn [side price_ticks shares]. case_match; lia.
    + rewrite orders_set_side. intros j x [[_ <-]|[_ Hx]]%lookup_insert_Some; [unfold MAX_SHARES; simpl; lia|].
      by apply (bi_shares _ _ I j).
    + rewrite orders_set_side, (msum_insert _ _ _ r) by done. unfold MAX_SHARES. simpl. lia.
Qed.

Lemma on_add_inv n b ref s price q :
  0 <= q <= MAX_SHARES -> (n + 1) * MAX_SHARES <= INT64_MAX ->
  q = 0 \/ orders_ b !! ref = None -> book_inv n b -> book_inv (n + 1) (on_add b ref s price q).
Proof.
  intros Hq Hn Hf I. pose proof (bi_size _ _ I). unfold MAX_SHARES in *. unfold on_add.
  destruct (Z.eqb_spec q 0); [by destruct I; split; unfold MAX_SHARES in *; [..|lia]|].
  destruct Hf as [|Hf]; [lia|].
  pose proof (total_at_bounds n b (is_bid s) (to_ticks price) I) as B. unfold MAX_SHARES in B.
  eapply (book_inv_step n (n + 1) b _ (mkResting s (to_ticks price) q) _ q I); unfold set_field; cbn [orders_ side price_ticks shares].
  - intros bid. exact (levels_set_side _ _ _ bid).
  - intros m px' Hm. rewrite (level_add_spec _ _ _ _ _ Hm); [done|lia..].
  - intros bid px. rewrite orders_set_side. unfold total_at. simpl. rewrite msum_insert_new by done.
    unfold at_level at 1. cbn [side price_ticks shares]. lia.
  - rewrite orders_set_side. cbn [orders_]. intros j x [[_ <-]|[_ Hx]]%lookup_insert_Some; [unfold MAX_SHARES; simpl; lia|].
    by apply (bi_shares _ _ I j).
  - rewrite orders_set_side. simpl. rewrite msum_insert_new by done. unfold MAX_SHARES. simpl. lia.
Qed.

Lemma book_inv_mono n n' b : n <= n' -> book_inv n b -> book_inv n' b.
Proof. intros H [H1 H2 H3]. split; [done..|]. unfold MAX_SHARES in *. nia. Qed.
Lemma reduce_all b ref r : orders_ b !! ref = Some r -> orders_ (reduce_ b ref (shares r)) = delete ref (orders_ b).
Proof.
  intros H. unfold reduce_. rewrite H, Z.ltb_irrefl, Z.sub_diag. cbv zeta.
  change (u32 0 =? 0) with true. cbv iota. unfold set_field. cbn [orders_]. by rewrite orders_set_side.
Qed.

(** The shares a message carries fit the field they come from. *)
Definition msg_ok (m : ParsedMessage) : Prop :=
  match m with
  | ADD_ORDER m => 0 <= add_shares m <= MAX_SHARES
  | ADD_ORDER_MPID m => 0 <= add_shares (mpid_order m) <= MAX_SHARES
  | ORDER_EXECUTED m => 0 <= exec_shares m
  | ORDER_CANCELLED m => 0 <= cancelled_shares m
  | REPLACE_ORDER m => 0 <= new_shares m <= MAX_SHARES
  | _ => True
  end.

(** A counter does not enter the invariant. *)
Ltac peel_counter := repeat match goal with
  |- book_inv ?n (set_field _ _ ?x) => apply (book_inv_core n x); [reflexivity|] end.

Lemma execute_inv n b ref q :
  0 <= q -> n * MAX_SHARES <= INT64_MAX -> book_inv n b -> book_inv n (on_execute b ref q).
Proof.
  intros Hq Hn I. unfold on_execute. peel_counter. apply reduce_inv; [done..|].
  eapply book_inv_core; [|exact I]. case_match; [|done]. by rewrite core_print, core_flow.
Qed.
Lemma cancel_inv n b ref q :
  0 <= q -> n * MAX_SHARES <= INT64_MAX -> book_inv n b -> book_inv n (on_cancel b ref q).
Proof.
  intros Hq Hn I. unfold on_cancel. peel_counter. apply reduce_inv; [done..|].
  eapply book_inv_core; [|exact I]. case_match; [|done]. by rewrite core_pull.
Qed.
Lemma delete_inv n b ref :
  n * MAX_SHARES <= INT64_MAX -> book_inv n b -> book_inv n (on_delete b ref).
Proof.
  intros Hn I. unfold on_delete. destruct (orders_ b !! ref) as [r|] eqn:E; [|by apply (book_inv_core n b)].
  peel_counter. apply reduce_inv; [by apply (bi_shares _ _ I) in E; lia|done|].
  eapply book_inv_core; [|exact I]. by rewrite core_pull.
Qed.
Lemma replace_inv n b orig new px q :
  0 <= q <= MAX_SHARES -> (n + 1) * MAX_SHARES <= INT64_MAX -> new = orig \/ orders_ b !! new = None ->
  book_inv n b -> book_inv (n + 1) (on_replace b orig new px q).
Proof.
  intros Hq Hn Hf I. unfold on_replace. destruct (orders_ b !! orig) as [r|] eqn:E.
  - cbv zeta. set (b1 := b <| reprice_ticks_sum_ ::= _ |> <| max_reprice_ticks_ ::= _ |> <| repriced_ ::= incr |>).
    assert (I1 : book_inv n b1) by by apply (book_inv_core n b).
    assert (E1 : orders_ b1 !! orig = Some r) by done.
    peel_counter. apply on_add_inv; [done..| |].
    + right. rewrite (reduce_all b1 orig r E1). destruct Hf as [->|Hf]; [apply lookup_delete_eq|].
      apply lookup_delete_None. by right.
    + apply reduce_inv; [by apply (bi_shares _ _ I) in E; lia|unfold MAX_SHARES in *; lia|done].
  - apply (book_inv_mono n); [lia|]. by apply (book_inv_core n b).
Qed.

Lemma apply_inv n b m :
  msg_ok m -> fresh_ref b m = true -> (n + 1) * MAX_SHARES <= INT64_MAX ->
  book_inv n b -> book_inv (n + 1) (apply_message b m).
Proof.
  intros Hm Hf Hn I. assert (Hn' : n * MAX_SHARES <= INT64_MAX) by (unfold MAX_SHARES in *; lia).
  pose proof (book_inv_mono n (n + 1)) as M. destruct m as [m|m|m|m|m|m|m|m|m| |]; simpl in *;
    try (apply M; [lia|done]).
  - apply on_add_inv; [done..| |done]. apply orb_true_iff in Hf as [?%Z.eqb_eq|?%bool_decide_eq_true]; auto.
  - apply on_add_inv; [done..| |done]. apply orb_true_iff in Hf as [?%Z.eqb_eq|?%bool_decide_eq_true]; auto.
  - apply M, delete_inv; done || lia.
  - apply replace_inv; [done..| |done]. apply orb_true_iff in Hf as [?%Z.eqb_eq|?%bool_decide_eq_true]; auto.
  - apply M, execute_inv; done || lia.
  - apply M, cancel_inv; done || lia.
Qed.

(** ** The self-check *)

Lemma asc_perm m : asc m ≡ₚ map_to_list m.
Proof. apply merge_sort_Permutation. Qed.
Lemma elem_of_asc m px q : (px, q) ∈ asc m <-> m !! px = Some q.
Proof. rewrite asc_perm. apply elem_of_map_to_list. Qed.

Lemma level_of_some t q : level_of t = Some q -> q = t /\ t <> 0.
Proof. unfold level_of. intros H. destruct (Z.eqb_spec t 0); [done|]. by injection H. Qed.

Lemma levels_positive n b bid :
  book_inv n b -> existsb (fun l => l.2 <=? 0) (asc (levels b bid)) = false.
Proof.
  intros I. apply not_true_iff_false. intros ([px q] & Hin & Hq)%existsb_exists.
  apply list_elem_of_In, elem_of_asc in Hin. rewrite (bi_levels n b I) in Hin.
  apply level_of_some in Hin as [-> Hn]. pose proof (total_at_bounds n b bid px I). simpl in Hq. bsplit. lia.
Qed.

Section audit.
Context `{HashOrder}.

Lemma rebuild_totals l : forall (t : bool -> Z -> Z) b a,
  Forall (fun r => 0 < shares r) l ->
  (forall bid px, 0 <= t bid px /\ t bid px + sumf (at_level bid px) l <= INT64_MAX) ->
  (forall px, b !! px = level_of (t true px)) -> (forall px, a !! px = level_of (t false px)) ->
  exists b' a', rebuild l b a = Some (b', a') /\
    (forall px, b' !! px = level_of (t true px + sumf (at_level true px) l)) /\
    (forall px, a' !! px = level_of (t false px + sumf (at_level false px) l)).
Proof.
  induction l as [|r l IH]; intros t b a Hl Ht Hb Ha.
  - exists b, a. simpl. split; [done|]. split; intros px; by rewrite Z.add_0_r.
  - apply Forall_cons in Hl as [Hr Hl]. cbn [rebuild].
    destruct (Z.eqb_spec (shares r) 0); [lia|].
    pose (t' bid px := t bid px + at_level bid px r).
    assert (B : forall bid px, 0 <= at_level bid px r) by (intros; unfold at_level; case_match; lia).
    assert (L : forall bid px, 0 <= sumf (at_level bid px) l).
    { intros bid px. clear -Hl. induction Hl; simpl; [lia|]. unfold at_level at 1. case_match; lia. }
    assert (T' : forall bid px, 0 <= t' bid px /\ t' bid px + sumf (at_level bid px) l <= INT64_MAX).
    { intros bid px. unfold t'. specialize (Ht bid px). specialize (B bid px). rewrite sumf_cons in Ht. lia. }
    assert (A : forall bid (m : gmap Z Z), (forall px, m !! px = level_of (t bid px)) -> is_bid (side r) = bid ->
      forall px, level_add (price_ticks r) (shares r) m !! px = level_of (t' bid px)).
    { intros bid m Hm E px. specialize (Ht bid (price_ticks r)). specialize (L bid (price_ticks r)).
      rewrite sumf_cons in Ht. assert (O := at_level_own r). rewrite E in O. rewrite O in Ht.
      rewrite (level_add_spec _ _ _ _ _ (Hm _)) by lia. unfold t', at_level. rewrite E, Bool.eqb_reflx, Z.eqb_sym.
      destruct (Z.eqb_spec (price_ticks r) px) as [->|]; [done|]. by rewrite Hm, Z.add_0_r. }
    assert (N : forall bid (m : gmap Z Z), (forall px, m !! px = level_of (t bid px)) -> is_bid (side r) <> bid ->
      forall px, m !! px = level_of (t' bid px)).
    { intros bid m Hm E px. unfold t', at_level. rewrite (proj2 (eqb_false_iff _ _) E). simpl. by rewrite Z.add_0_r. }
    destruct (is_bid (side r)) eqn:E.
    + destruct (IH t' (level_add (price_ticks r) (shares r) b) a) as (b' & a' & E' & H1 & H2);
        [done|done|by apply A|by apply N|].
      exists b', a'. split; [done|]. split; intros px; rewrite ?H1, ?H2, sumf_cons; unfold t'; f_equal; lia.
    + destruct (IH t' b (level_add (price_ticks r) (shares r) a)) as (b' & a' & E' & H1 & H2);
        [done|done|by apply N|by apply A|].
      exists b', a'. split; [done|]. split; intros px; rewrite ?H1, ?H2, sumf_cons; unfold t'; f_equal; lia.
Qed.

Lemma audit_of_inv n b : n * MAX_SHARES <= INT64_MAX -> book_inv n b -> audit_book b = 0.
Proof.
  intros Hn I. unfold audit_book.
  pose proof (levels_positive n b true I) as P1. pose proof (levels_positive n b false I) as P2.
  unfold levels in P1, P2. rewrite P1, P2.
  destruct (rebuild_totals (values (orders_ b)) (fun _ _ => 0) ∅ ∅) as (bb & aa & E & Hb & Ha).
  - unfold values. apply Forall_fmap, Forall_forall. intros [ref r] Hr. simpl.
    rewrite entries_perm in Hr. apply elem_of_map_to_list, (bi_shares n b I) in Hr. lia.
  - intros bid px. rewrite sumf_values. pose proof (total_at_bounds n b bid px I). unfold total_at in *. lia.
  - done.
  - done.
  - rewrite E. rewrite !bool_decide_eq_true_2; [done| |].
    + apply map_eq. intros px. rewrite Ha, sumf_values. symmetry. apply (bi_levels n b I false).
    + apply map_eq. intros px. rewrite Hb, sumf_values. symmetry. apply (bi_levels n b I true).
Qed.
End audit.

(** ** From the wire to the book *)

Lemma slice_bytes off n l v : bytes_ok l -> slice off n l = Some v -> bytes_ok v /\ alen v = Z.of_nat n.
Proof.
  unfold slice. intros Hl H. destruct (decide _); [|done]. injection H as <-.
  split; [by apply Forall_take, Forall_drop|]. unfold alen. rewrite length_take, length_drop. lia.
Qed.
Lemma read_be32_range p off v : bytes_ok p -> read_be32 p off = Some v -> 0 <= v <= MAX_SHARES.
Proof.
  unfold read_be32. intros Hp (x & Hx & Hv)%bind_Some. injection Hv as <-.
  destruct (slice_bytes _ _ _ _ Hp Hx) as [B L]. pose proof (be_value_range x B) as R.
  rewrite L in R. unfold MAX_SHARES. change (256 ^ Z.of_nat 4) with 4294967296 in R. lia.
Qed.
Lemma read_order_shares d m : bytes_ok d -> read_order d = Some m -> 0 <= add_shares m <= MAX_SHARES.
Proof.
  unfold read_order. intros Hd (? & _ & (? & _ & (? & _ & (sh & Hs & (? & _ & (? & _ & E)%bind_Some)%bind_Some)%bind_Some)%bind_Some)%bind_Some)%bind_Some.
  injection E as <-. by apply (read_be32_range d 18).
Qed.

(** Follows a parser that succeeded, read by read. *)
Ltac unparse H :=
  repeat (apply bind_Some in H as (? & ? & H)); injection H as <- || injection H as <- <-.
Lemma parse_msg_ok st d st' m : bytes_ok d -> parse st d = Some (st', m) -> msg_ok m.
Proof.
  unfold parse. intros Hd H. case_match; [by injection H as <- <-|].
  apply bind_Some in H as (t & _ & H). cbv zeta in H.
  repeat (case_match; [apply bind_Some in H as (m' & Hm & H); injection H as <- <-;
    unfold parse_add_order, parse_add_order_mpid, parse_delete_order, parse_replace_order, parse_order_executed,
      parse_order_cancelled, parse_trade, parse_system_event, parse_stock_directory in Hm;
    destruct (alen d <? _) in Hm; [by injection Hm as <-|]; unparse Hm; simpl; try done;
    try (eapply read_order_shares; eassumption);
    match goal with Hr : read_be32 d _ = Some ?x |- context [?x] => apply read_be32_range in Hr; [lia|done] end|]).
  by injection H as <- <-.
Qed.

Lemma feed_loop_inv bufs : forall n s,
  Forall bytes_ok bufs -> fresh_feed s bufs = true -> (n + alen bufs) * MAX_SHARES <= INT64_MAX ->
  book_inv n s.2 -> book_inv (n + alen bufs) (foldl feed_step s bufs).2.
Proof.
  induction bufs as [|d bufs IH]; intros n s Hb Hf Hn I; [by rewrite Z.add_0_r|].
  apply Forall_cons in Hb as [Hd Hb]. cbn [fresh_feed foldl] in *. apply andb_true_iff in Hf as [Hf Hf'].
  assert (L : alen (d :: bufs) = 1 + alen bufs) by (unfold alen; simpl; lia). rewrite L in *.
  pose proof (alen_nonneg bufs). replace (n + (1 + alen bufs)) with (n + 1 + alen bufs) in * by lia.
  apply IH; [done..|]. unfold feed_step. destruct (parse s.1 d) as [[st m]|] eqn:P.
  - apply apply_inv; [by eapply parse_msg_ok|done|unfold MAX_SHARES in *; lia|done].
  - apply (book_inv_mono n); [lia|done].
Qed.
Lemma clear_inv : book_inv 0 clear.
Proof. split; [done| |done]. intros [] px; done. Qed.

(** C27: the book rebuilt from the wire is consistent.  Feed any buffers of
    bytes (fewer than 2^31) in which no message reuses the reference of an order
    still resting: every price level holds exactly the total of the orders
    resting there, levels without orders are absent, and [audit_book], which
    walks the orders in whatever order the hash map yields them, returns 0. *)
Theorem itch_feed_audit `{HashOrder} bufs :
  Forall bytes_ok bufs -> alen bufs < 2 ^ 31 -> fresh_feed (reset_stats, clear) bufs = true ->
  let b := (feed bufs).2 in
  (forall s px, side_book b s !! px = level_of (total_at (orders_ b) (is_bid s) px)) /\
  (forall ref r, orders_ b !! ref = Some r -> 0 < shares r <= MAX_SHARES) /\
  audit_book b = 0.
Proof.
  intros Hb Hn Hf b. assert (M : (0 + alen bufs) * MAX_SHARES <= INT64_MAX).
  { unfold MAX_SHARES, INT64_MAX. change (2 ^ 31) with 2147483648 in Hn. lia. }
  assert (I : book_inv (0 + alen bufs) b) by (apply feed_loop_inv; [done..|apply clear_inv]).
  split; [|split].
  - intros s px. apply (bi_levels _ _ I (is_bid s)).
  - apply (bi_shares _ _ I).
  - by apply (audit_of_inv (0 + alen bufs)).
Qed.

(** A bid of 300 at 100.00, half executed, then moved to 99.00 and an ask. *)
Definition demo_feed : list (list Z) := (fun w => wire_bytes w []) <$>
  [WAdd 1 7 ch_B 300 (replicate 8 32) 1000000; WExecuted 2 7 150 1;
   WReplace 3 7 8 100 990000; WAdd 4 9 ch_S 50 (replicate 8 32) 1010000; WCancelled 5 9 20].
Lemma itch_feed_audit_witness :
  let b := (feed demo_feed).2 in
  (forall s px, side_book b s !! px = level_of (total_at (orders_ b) (is_bid s) px)) /\
  (forall ref r, orders_ b !! ref = Some r -> 0 < shares r <= MAX_SHARES) /\
  audit_book b = 0.
Proof.
  apply itch_feed_audit; [|by vm_compute|by vm_compute].
  repeat constructor; by vm_compute.
Defined.

(** ** Quoting an order against the book *)

Lemma asc_sorted m : StronglySorted px_le (asc m).
Proof.
  unfold asc. apply StronglySorted_merge_sort.
  - intros x y z. unfold px_le. lia.
  - intros x y. unfold px_le. lia.
Qed.

(** Shares on the levels of the first [n] of a list. *)
Definition qty_upto (n : nat) (l : list (Z * Z)) : Z := sumf snd (take n l).

Lemma fill_loop_levels l : forall shares k,
  Forall (fun x => 0 < x.2) l -> 0 < shares <= INT64_MAX -> sumf snd l <= INT64_MAX ->
  match fill_loop l shares k with
  | Some (px, n) =>
      exists i q, n = k + Z.of_nat i + 1 /\ l !! i = Some (px, q) /\
                  qty_upto i l < shares <= qty_upto (S i) l
  | None => sumf snd l < shares
  end.
Proof.
  induction l as [|x l IH]; intros sh k Hl Hs Ht; [simpl; lia|].
  apply Forall_cons in Hl as [Hx Hl]. rewrite sumf_cons in Ht. cbn [fill_loop].
  assert (0 <= sumf snd l) by (clear -Hl; induction Hl; simpl; lia).
  unfold INT64_MAX in *. rewrite i64_small by lia. cbv zeta. destruct (Z.leb_spec (sh - x.2) 0).
  - exists 0%nat, x.2. destruct x as [px q]. unfold qty_upto. simpl in *. repeat split; lia.
  - specialize (IH (sh - x.2) (k + 1) Hl ltac:(lia) ltac:(lia)).
    destruct (fill_loop l (sh - x.2) (k + 1)) as [[px n]|].
    + destruct IH as (i & q & -> & Hi & Hq). exists (S i), q. unfold qty_upto in *.
      change (take (S (S i)) (x :: l)) with (x :: take (S i) l). change (take (S i) (x :: l)) with (x :: take i l).
      rewrite !sumf_cons. repeat split; [lia|done|lia|lia].
    + rewrite sumf_cons. lia.
Qed.

Lemma expected_loop_filled l : forall remaining filled notional,
  Forall (fun x => 0 < x.2) l -> 0 <= remaining -> 0 <= filled -> filled + remaining <= INT64_MAX ->
  (expected_loop l remaining filled notional).1 = filled + Z.min remaining (sumf snd l).
Proof.
  induction l as [|x l IH]; intros remaining filled notional Hl Hr Hf Hm; [simpl; lia|].
  apply Forall_cons in Hl as [Hx Hl]. assert (0 <= sumf snd l) by (clear -Hl; induction Hl; simpl; lia).
  cbn [expected_loop]. rewrite sumf_cons. destruct (Z.ltb_spec 0 remaining); [|simpl; lia].
  unfold INT64_MAX in *. cbv zeta. rewrite !i64_small by lia. rewrite IH by (done || lia). lia.
Qed.

(** The levels of a side at or better than a limit, in any order. *)
Definition within_limit (buy : bool) (lim : Z) (x : Z * Z) : Z :=
  if (if buy then lim <? x.1 else x.1 <? lim) then 0 else x.2.
Lemma fillable_loop_sum buy lim l : forall sum,
  StronglySorted (fun x y => if buy : bool then px_le x y else px_le y x) l ->
  Forall (fun x => 0 < x.2) l -> 0 <= sum -> sum + sumf snd l <= INT64_MAX ->
  fillable_loop buy lim l sum = sum + sumf (within_limit buy lim) l.
Proof.
  induction l as [|x l IH]; intros sum Hs Hl H0 Hm; [simpl; lia|].
  apply Forall_cons in Hl as [Hx Hl]. apply StronglySorted_inv in Hs as [Hs Ha]. rewrite sumf_cons in *.
  assert (0 <= sumf snd l) by (clear -Hl; induction Hl; simpl; lia).
  cbn [fillable_loop]. unfold within_limit at 1. destruct (if buy then lim <? x.1 else x.1 <? lim) eqn:E.
  - rewrite sumf_zero; [lia|]. intros y Hy. rewrite Forall_forall in Ha. specialize (Ha y Hy).
    unfold within_limit, px_le in *. destruct buy; bsplit.
    + by destruct (Z.ltb_spec lim y.1); [|lia].
    + by destruct (Z.ltb_spec y.1 lim); [|lia].
  - unfold INT64_MAX in *. rewrite i64_small, IH by (done || lia). lia.
Qed.

(** The levels an order of [side] trades against, unordered. *)
Definition opposite (b : ITCHOrderBook) (side : Z) : gmap Z Z := if is_bid side then asks_ b else bids_ b.
Lemma against_perm b side : against b side ≡ₚ map_to_list (opposite b side).
Proof. unfold against, opposite, desc. destruct (is_bid side); [apply asc_perm|]. by rewrite reverse_Permutation, asc_perm. Qed.
Lemma against_sorted b side :
  StronglySorted (fun x y => if is_bid side then px_le x y else px_le y x) (against b side).
Proof.
  unfold against, desc. destruct (is_bid side); [apply asc_sorted|].
  assert (Transitive (flip px_le)) by (intros x y z; unfold flip, px_le; lia).
  change (StronglySorted (flip px_le) (reverse (asc (bids_ b)))).
  apply Sorted_StronglySorted; [done|]. apply Sorted_reverse, StronglySorted_Sorted, asc_sorted.
Qed.

(** quoting an order against the book, for a book whose levels are
    positive and whose side fits [int64_t].  The levels are walked best price
    first.  [expected_fill] fills the smaller of the order and the side;
    [fill_shortfall] is the rest; [levels_to_fill] is the least number of best
    levels that cover the order, -1 (and price 0.0) when the side cannot, and
    [price_to_fill] is the price of the last of them; [fillable_shares] is the
    total of the levels at the limit or better. *)
Lemma itch_fill_quote b side shares limit :
  let l := against b side in
  let total := msum (fun _ q => q) (opposite b side) in
  Forall (fun x => 0 < x.2) l -> total <= INT64_MAX -> 0 < shares <= INT64_MAX ->
  (expected_fill b side shares).1 = Z.min shares total /\
  fill_shortfall b side shares = shares - Z.min shares total /\
  (if shares <=? total then
     exists i px q, l !! i = Some (px, q) /\ levels_to_fill b side shares = Z.of_nat i + 1 /\
       price_to_fill b side shares = dollars px /\ qty_upto i l < shares <= qty_upto (S i) l
   else levels_to_fill b side shares = -1 /\ price_to_fill b side shares = d_zero) /\
  fillable_shares b side limit =
    msum (fun px q => within_limit (is_bid side) (to_ticks limit) (px, q)) (opposite b side).
Proof.
  intros l total Hl Ht Hs. assert (T : total = sumf snd l).
  { unfold total. rewrite msum_list. symmetry. apply sumf_perm, against_perm. }
  assert (0 <= sumf snd l) by (clear -Hl; induction Hl; simpl; lia).
  assert (E : (expected_fill b side shares).1 = Z.min shares total).
  { unfold expected_fill. destruct (Z.leb_spec shares 0); [lia|].
    rewrite (surjective_pairing (expected_loop _ _ _ _)). cbn [fst].
    rewrite expected_loop_filled by (done || lia). rewrite T. fold l. lia. }
  split; [done|split; [|split]].
  - unfold fill_shortfall. destruct (Z.leb_spec shares 0); [lia|]. rewrite E.
    apply i64_small. unfold INT64_MAX in *. lia.
  - unfold levels_to_fill, price_to_fill. destruct (Z.leb_spec shares 0); [lia|]. fold l.
    pose proof (fill_loop_levels l shares 0 Hl Hs ltac:(lia)) as F.
    destruct (fill_loop l shares 0) as [[px n]|].
    + destruct F as (i & q & -> & Hi & Hq). assert (qty_upto (S i) l <= sumf snd l).
      { unfold qty_upto. rewrite <- (take_drop (S i) l) at 2. rewrite sumf_app.
        assert (Forall (fun x => 0 < x.2) (drop (S i) l)) as D by by apply Forall_drop.
        clear -D. induction D; simpl in *; lia. }
      destruct (Z.leb_spec shares total); [|lia]. exists i, px, q. repeat split; [done|lia|lia].
    + by destruct (Z.leb_spec shares total); [lia|].
  - unfold fillable_shares. fold l. rewrite fillable_loop_sum; [|apply against_sorted|done|lia|lia].
    rewrite msum_list, Z.add_0_l. rewrite <- (sumf_perm _ _ _ (against_perm b side)).
    apply sumf_ext. by intros [px q] _.
Qed.

Definition demo_book : ITCHOrderBook := Eval vm_compute in (feed demo_feed).2.
Lemma itch_fill_quote_witness :
  (expected_fill demo_book ch_S 250).1 = 100 /\ fill_shortfall demo_book ch_S 250 = 150 /\
  (levels_to_fill demo_book ch_S 250 = -1 /\ price_to_fill demo_book ch_S 250 = d_zero) /\
  fillable_shares demo_book ch_S (dratio 99 1) = 100.
Proof.
  refine (itch_fill_quote demo_book ch_S 250 (dratio 99 1) _ _ _); [|done|done].
  repeat constructor; by vm_compute.
Defined.
