(* ===== verification/Ouch.v ===== *)
(** * Ouch: the OUCH order-entry protocol

    [ouch-protocol/ouch_protocol.hpp].  The client's and the exchange's
    encoders, the parser of responses and of orders, the splitter of a buffer
    of concatenated responses, and the order validation.  A buffer is the list
    of its bytes; a [char[n]] that holds a C string is the bytes before its
    terminator; [reason[2]] is its first byte. *)
From stdpp Require Import pretty.
From S2P Require Import Prelude Double Common Bytes.

(** ** Fields *)

Definition write_u32_be (v : Z) : list Z :=
  let v := u32 v in
  [Z.land (Z.shiftr v 24) 255; Z.land (Z.shiftr v 16) 255; Z.land (Z.shiftr v 8) 255; Z.land v 255].
Definition read_u32_be (off : nat) (d : list Z) : option Z :=
  b ← slice off 4 d;
  Some (Z.lor (Z.lor (Z.lor (Z.shiftl (aget b 0) 24) (Z.shiftl (aget b 1) 16)) (Z.shiftl (aget b 2) 8)) (aget b 3)).
Definition write_u64_be (v : Z) : list Z :=
  (fun i => Z.land (Z.shiftr (u64 v) (i * 8)) 255) <$> [7; 6; 5; 4; 3; 2; 1; 0].
Definition read_u64_be (off : nat) (d : list Z) : option Z :=
  b ← slice off 8 d; Some (foldl (fun val c => Z.lor (u64 (Z.shiftl val 8)) c) 0 b).
Definition SPACE : Z := 32.
Definition write_padded (src : cstr) (len : nat) : list Z :=
  take len src ++ replicate (len - length src) SPACE.

(** What a [char] array holds as a C string. *)
Fixpoint c_str (l : list Z) : cstr :=
  match l with [] => [] | c :: l' => if c =? 0 then [] else c :: c_str l' end.
Fixpoint rstrip (l : list Z) : list Z :=
  match l with
  | [] => []
  | c :: l' => match rstrip l' with [] => if c =? SPACE then [] else [c] | r => c :: r end
  end.
Definition strip_padding (off len : nat) (d : list Z) : option cstr := b ← slice off len d; Some (c_str (rstrip b)).
(** [static_cast<uint32_t>(price * 10000)]. *)
Definition price_field (price : double) : Z := u32 (dbl_to_i64 (dmul price (dbl_of_Z 10000))).
Definition field_price (v : Z) : double := ddiv (dbl_of_Z v) (dbl_of_Z 10000).

(** ** Messages *)

Record OUCHResponse := mkResponse {
  rtype : string; token : cstr; rside : string; rshares : Z; stock : cstr; rprice : double;
  order_ref : Z; match_number : Z; reason : Z; error_msg : string; prev_token : cstr }.
#[export] Instance eta_response : Settable OUCHResponse := fun r =>
  mkResponse (rtype r) (token r) (rside r) (rshares r) (stock r) (rprice r) (order_ref r) (match_number r)
    (reason r) (error_msg r) (prev_token r).
Definition new_response : OUCHResponse := mkResponse "" [] "" 0 [] d_zero 0 0 0 "" [].

Record OUCHOrder := mkOrder {
  otype : Z; otoken : cstr; new_token : cstr; oside : Z; oshares : Z; ostock : cstr; oprice : double; tif : Z; valid : bool }.
#[export] Instance eta_order : Settable OUCHOrder := fun o =>
  mkOrder (otype o) (otoken o) (new_token o) (oside o) (oshares o) (ostock o) (oprice o) (tif o) (valid o).
Definition ch_A : Z := 65.
Definition ch_B : Z := 66.
Definition ch_C : Z := 67.
Definition ch_D : Z := 68.
Definition ch_E : Z := 69.
Definition ch_I : Z := 73.
Definition ch_J : Z := 74.
Definition ch_M : Z := 77.
Definition ch_O : Z := 79.
Definition ch_P : Z := 80.
Definition ch_R : Z := 82.
Definition ch_S : Z := 83.
Definition ch_U : Z := 85.
Definition ch_X : Z := 88.
Definition new_order : OUCHOrder := mkOrder ch_E [] [] SPACE 0 [] d_zero SPACE false.

(** ** Encoders: the bytes written to [buf] *)

Definition enter_order (token : cstr) (side shares : Z) (stock : cstr) (price : double) (tif : Z) : list Z :=
  [ch_O] ++ write_padded token 14 ++ [u8 side] ++ write_u32_be shares ++ write_padded stock 8 ++
  write_u32_be (price_field price) ++ [u8 tif].
Definition cancel_order (token : cstr) (shares : Z) : list Z :=
  [ch_X] ++ write_padded token 14 ++ write_u32_be shares.
Definition replace_order (existing_token new_token : cstr) (shares : Z) (price : double) : list Z :=
  [ch_U] ++ write_padded existing_token 14 ++ write_padded new_token 14 ++ write_u32_be shares ++
  write_u32_be (price_field price).
Definition modify_order (token : cstr) (new_shares : Z) : list Z :=
  [ch_M] ++ write_padded token 14 ++ write_u32_be new_shares.

Definition encode_accepted (token : cstr) (side shares : Z) (stock : cstr) (price : double) (order_ref tif : Z) : list Z :=
  [ch_A] ++ write_padded token 14 ++ [u8 side] ++ write_u32_be shares ++ write_padded stock 8 ++
  write_u32_be (price_field price) ++ [u8 tif] ++ write_u64_be order_ref.
Definition encode_executed (token : cstr) (shares : Z) (price : double) (match_number : Z) : list Z :=
  [ch_E] ++ write_padded token 14 ++ write_u32_be shares ++ write_u32_be (price_field price) ++ write_u64_be match_number.
Definition encode_cancelled (token : cstr) (shares reason : Z) : list Z :=
  [ch_C] ++ write_padded token 14 ++ write_u32_be shares ++ [u8 reason].
Definition encode_rejected (token : cstr) (reason : Z) : list Z := [ch_J] ++ write_padded token 14 ++ [u8 reason].
Definition encode_cancel_reject (token : cstr) (reason : Z) : list Z := [ch_I] ++ write_padded token 14 ++ [u8 reason].
Definition encode_cancel_pending (token : cstr) : list Z := [ch_P] ++ write_padded token 14.
Definition encode_aiq_canceled (token : cstr) (decrement_shares reason : Z) : list Z :=
  [ch_D] ++ write_padded token 14 ++ write_u32_be decrement_shares ++ [u8 reason].
Definition encode_system_event (timestamp event_code : Z) : list Z :=
  [ch_S] ++ write_u64_be timestamp ++ [u8 event_code].
Definition encode_restated (token : cstr) (shares : Z) (price : double) (reason : Z) : list Z :=
  [ch_R] ++ write_padded token 14 ++ write_u32_be shares ++ write_u32_be (price_field price) ++ [u8 reason].
Definition encode_replaced (repl_token prev_token : cstr) (shares : Z) (price : double) (order_ref : Z) : list Z :=
  [ch_U] ++ write_padded repl_token 14 ++ write_padded prev_token 14 ++ write_u32_be shares ++
  write_u32_be (price_field price) ++ write_u64_be order_ref.
Definition encode_broken_trade (token : cstr) (shares match_number reason : Z) : list Z :=
  [ch_B] ++ write_padded token 14 ++ write_u32_be shares ++ write_u64_be match_number ++ [u8 reason].

(** ** Parsing responses *)

Definition expected_length (type : Z) : Z :=
  if type =? ch_A then 41 else if type =? ch_C then 20 else if type =? ch_E then 31 else
  if type =? ch_J then 16 else if type =? ch_U then 45 else if type =? ch_B then 28 else
  if type =? ch_I then 16 else if type =? ch_P then 15 else if type =? ch_D then 20 else
  if type =? ch_S then 10 else if type =? ch_R then 24 else 0.

Definition too_short (name : string) (len min : Z) : OUCHResponse :=
  new_response <| rtype := "ERROR" |>
    <| error_msg := (name +:+ " too short: " +:+ pretty len +:+ " < " +:+ pretty min +:+ " bytes")%string |>.
Definition of_type (name : string) (tok : cstr) : OUCHResponse := new_response <| rtype := name |> <| token := tok |>.

Section parse_response.
Context (d : list Z).

Definition parse_accepted : option OUCHResponse :=
  if alen d <? 41 then Some (too_short "ACCEPTED" (alen d) 41) else
  tok ← strip_padding 1 14 d; side ← byte_at 15 d; shares ← read_u32_be 16 d; stk ← strip_padding 20 8 d;
  px ← read_u32_be 28 d; ref ← read_u64_be 33 d;
  Some (of_type "ACCEPTED" tok <| rside := if side =? ch_B then "BUY" else "SELL" |> <| rshares := i32 shares |>
    <| stock := stk |> <| rprice := field_price px |> <| order_ref := i64 ref |>).
Definition parse_cancelled : option OUCHResponse :=
  if alen d <? 20 then Some (too_short "CANCELLED" (alen d) 20) else
  tok ← strip_padding 1 14 d; shares ← read_u32_be 15 d; why ← byte_at 19 d;
  Some (of_type "CANCELLED" tok <| rshares := i32 shares |> <| reason := why |>).
Definition parse_executed : option OUCHResponse :=
  if alen d <? 31 then Some (too_short "EXECUTED" (alen d) 31) else
  tok ← strip_padding 1 14 d; shares ← read_u32_be 15 d; px ← read_u32_be 19 d; number ← read_u64_be 23 d;
  Some (of_type "EXECUTED" tok <| rshares := i32 shares |> <| rprice := field_price px |> <| match_number := i64 number |>).
Definition parse_broken : option OUCHResponse :=
  if alen d <? 28 then Some (too_short "BROKEN" (alen d) 28) else
  tok ← strip_padding 1 14 d; shares ← read_u32_be 15 d; number ← read_u64_be 19 d; why ← byte_at 27 d;
  Some (of_type "BROKEN" tok <| rshares := i32 shares |> <| match_number := i64 number |> <| reason := why |>).
Definition parse_rejected : option OUCHResponse :=
  if alen d <? 16 then Some (too_short "REJECTED" (alen d) 16) else
  tok ← strip_padding 1 14 d; why ← byte_at 15 d; Some (of_type "REJECTED" tok <| reason := why |>).
Definition parse_cancel_reject : option OUCHResponse :=
  if alen d <? 16 then Some (too_short "CANCEL_REJECT" (alen d) 16) else
  tok ← strip_padding 1 14 d; why ← byte_at 15 d; Some (of_type "CXL_REJECT" tok <| reason := why |>).
Definition parse_cancel_pending : option OUCHResponse :=
  if alen d <? 15 then Some (too_short "CANCEL_PENDING" (alen d) 15) else
  tok ← strip_padding 1 14 d; Some (of_type "CXL_PEND" tok).
Definition parse_aiq : option OUCHResponse :=
  if alen d <? 20 then Some (too_short "AIQ_CANCEL" (alen d) 20) else
  tok ← strip_padding 1 14 d; shares ← read_u32_be 15 d; why ← byte_at 19 d;
  Some (of_type "AIQ_CXL" tok <| rshares := i32 shares |> <| reason := why |>).
Definition parse_sys_event : option OUCHResponse :=
  if alen d <? 10 then Some (too_short "SYS_EVENT" (alen d) 10) else
  ts ← read_u64_be 1 d; code ← byte_at 9 d;
  Some (new_response <| rtype := "SYS_EVENT" |> <| match_number := i64 ts |> <| reason := code |>).
Definition parse_restated : option OUCHResponse :=
  if alen d <? 24 then Some (too_short "RESTATED" (alen d) 24) else
  tok ← strip_padding 1 14 d; shares ← read_u32_be 15 d; px ← read_u32_be 19 d; why ← byte_at 23 d;
  Some (of_type "RESTATED" tok <| rshares := i32 shares |> <| rprice := field_price px |> <| reason := why |>).
Definition parse_replaced : option OUCHResponse :=
  if alen d <? 45 then Some (too_short "REPLACED" (alen d) 45) else
  tok ← strip_padding 1 14 d; prev ← strip_padding 15 14 d; shares ← read_u32_be 29 d; px ← read_u32_be 33 d;
  ref ← read_u64_be 37 d;
  Some (of_type "REPLACED" tok <| prev_token := prev |> <| rshares := i32 shares |> <| rprice := field_price px |>
    <| order_ref := i64 ref |>).

Definition parse_response : option OUCHResponse :=
  if alen d <? 1 then Some (new_response <| rtype := "ERROR" |> <| error_msg := "empty response" |>) else
  msg_type ← byte_at 0 d;
  if msg_type =? ch_A then parse_accepted else if msg_type =? ch_C then parse_cancelled else
  if msg_type =? ch_E then parse_executed else if msg_type =? ch_B then parse_broken else
  if msg_type =? ch_J then parse_rejected else if msg_type =? ch_I then parse_cancel_reject else
  if msg_type =? ch_P then parse_cancel_pending else if msg_type =? ch_D then parse_aiq else
  if msg_type =? ch_S then parse_sys_event else if msg_type =? ch_R then parse_restated else
  if msg_type =? ch_U then parse_replaced else Some (new_response <| rtype := "UNKNOWN" |>).
End parse_response.

(** The loop over concatenated responses: what the callback was given, and the
    offset where it stopped.  Every turn consumes at least ten bytes. *)
Fixpoint stream_loop (fuel : nat) (data : list Z) (off : nat) : option (list OUCHResponse * nat) :=
  match fuel with
  | O => Some ([], off)
  | S fuel' =>
      if decide (off < length data)%nat then
        type ← byte_at off data;
        let mlen := Z.to_nat (expected_length type) in
        if decide (mlen = 0)%nat then Some ([], off) else
        if decide (length data < off + mlen)%nat then Some ([], off) else
        r ← parse_response (take mlen (drop off data));
        '(rs, off') ← stream_loop fuel' data (off + mlen); Some (r :: rs, off')
      else Some ([], off)
  end.
Definition parse_stream (data : list Z) : option (list OUCHResponse * nat) := stream_loop (length data) data 0.

(** ** Parsing and validating orders *)

Definition parse_order (d : list Z) : option OUCHOrder :=
  if alen d <? 1 then Some new_order else
  t ← byte_at 0 d;
  if t =? ch_O then
    if alen d <? 33 then Some new_order else
    tok ← strip_padding 1 14 d; side ← byte_at 15 d; shares ← read_u32_be 16 d; stk ← strip_padding 20 8 d;
    px ← read_u32_be 28 d; tif ← byte_at 32 d;
    Some (mkOrder ch_O tok [] side (i32 shares) stk (field_price px) tif true)
  else if t =? ch_X then
    if alen d <? 19 then Some new_order else
    tok ← strip_padding 1 14 d; shares ← read_u32_be 15 d;
    Some (new_order <| otype := ch_X |> <| otoken := tok |> <| oshares := i32 shares |> <| valid := true |>)
  else if t =? ch_U then
    if alen d <? 37 then Some new_order else
    tok ← strip_padding 1 14 d; new ← strip_padding 15 14 d; shares ← read_u32_be 29 d; px ← read_u32_be 33 d;
    Some (new_order <| otype := ch_U |> <| otoken := tok |> <| new_token := new |> <| oshares := i32 shares |>
      <| oprice := field_price px |> <| valid := true |>)
  else if t =? ch_M then
    if alen d <? 19 then Some new_order else
    tok ← strip_padding 1 14 d; shares ← read_u32_be 15 d;
    Some (new_order <| otype := ch_M |> <| otoken := tok |> <| oshares := i32 shares |> <| valid := true |>)
  else Some new_order.

Definition MAX_ORDER_SHARES : Z := 1000000.
Definition MAX_ORDER_PRICE : double := dratio 19999999 100.
Definition is_empty {A} (l : list A) : bool := match l with [] => true | _ => false end.
Definition check_size (shares : Z) (rest : option string) : option string :=
  if shares <=? 0 then Some "non-positive shares"
  else if MAX_ORDER_SHARES <? shares then Some "shares exceed maximum" else rest.
Definition check_price (price : double) (rest : option string) : option string :=
  if dle price d_zero then Some "non-positive price"
  else if dgt price MAX_ORDER_PRICE then Some "price exceeds maximum" else rest.
(** [None] is the null pointer: the order is fine. *)
Definition validate_order (o : OUCHOrder) : option string :=
  if negb (valid o) then Some "malformed" else
  if is_empty (otoken o) then Some "empty token" else
  if otype o =? ch_O then
    if negb (oside o =? ch_B) && negb (oside o =? ch_S) then Some "invalid side"
    else check_size (oshares o) (check_price (oprice o) (if is_empty (ostock o) then Some "empty symbol" else None))
  else if otype o =? ch_U then
    if is_empty (new_token o) then Some "empty replacement token"
    else check_size (oshares o) (check_price (oprice o) None)
  else if otype o =? ch_M then check_size (oshares o) None
  else if otype o =? ch_X then (if oshares o <? 0 then Some "negative shares" else None)
  else None.

(** ** The protocol's messages, and what they mean *)

Inductive outbound :=
  | MAccepted (token : cstr) (side shares : Z) (stock : cstr) (price : double) (ref tif : Z)
  | MExecuted (token : cstr) (shares : Z) (price : double) (number : Z)
  | MCancelled (token : cstr) (shares why : Z)
  | MRejected (token : cstr) (why : Z)
  | MCancelReject (token : cstr) (why : Z)
  | MCancelPending (token : cstr)
  | MAiqCanceled (token : cstr) (shares why : Z)
  | MSystemEvent (ts code : Z)
  | MRestated (token : cstr) (shares : Z) (price : double) (why : Z)
  | MReplaced (token prev : cstr) (shares : Z) (price : double) (ref : Z)
  | MBroken (token : cstr) (shares number why : Z).

Definition encode (m : outbound) : list Z :=
  match m with
  | MAccepted tok side shares stk px ref tif => encode_accepted tok side shares stk px ref tif
  | MExecuted tok shares px number => encode_executed tok shares px number
  | MCancelled tok shares why => encode_cancelled tok shares why
  | MRejected tok why => encode_rejected tok why
  | MCancelReject tok why => encode_cancel_reject tok why
  | MCancelPending tok => encode_cancel_pending tok
  | MAiqCanceled tok shares why => encode_aiq_canceled tok shares why
  | MSystemEvent ts code => encode_system_event ts code
  | MRestated tok shares px why => encode_restated tok shares px why
  | MReplaced tok prev shares px ref => encode_replaced tok prev shares px ref
  | MBroken tok shares number why => encode_broken_trade tok shares number why
  end.

(** A padded field comes back without trailing spaces, cut to its width. *)
Definition field_of (s : cstr) (len : nat) : cstr := rstrip (take len s).
Definition meaning (m : outbound) : OUCHResponse :=
  let px p := field_price (price_field p) in
  match m with
  | MAccepted tok side shares stk p ref _ =>
      of_type "ACCEPTED" (field_of tok 14) <| rside := if u8 side =? ch_B then "BUY" else "SELL" |>
        <| rshares := i32 shares |> <| stock := field_of stk 8 |> <| rprice := px p |> <| order_ref := i64 ref |>
  | MExecuted tok shares p number =>
      of_type "EXECUTED" (field_of tok 14) <| rshares := i32 shares |> <| rprice := px p |> <| match_number := i64 number |>
  | MCancelled tok shares why => of_type "CANCELLED" (field_of tok 14) <| rshares := i32 shares |> <| reason := u8 why |>
  | MRejected tok why => of_type "REJECTED" (field_of tok 14) <| reason := u8 why |>
  | MCancelReject tok why => of_type "CXL_REJECT" (field_of tok 14) <| reason := u8 why |>
  | MCancelPending tok => of_type "CXL_PEND" (field_of tok 14)
  | MAiqCanceled tok shares why => of_type "AIQ_CXL" (field_of tok 14) <| rshares := i32 shares |> <| reason := u8 why |>
  | MSystemEvent ts code => new_response <| rtype := "SYS_EVENT" |> <| match_number := i64 ts |> <| reason := u8 code |>
  | MRestated tok shares p why =>
      of_type "RESTATED" (field_of tok 14) <| rshares := i32 shares |> <| rprice := px p |> <| reason := u8 why |>
  | MReplaced tok prev shares p ref =>
      of_type "REPLACED" (field_of tok 14) <| prev_token := field_of prev 14 |> <| rshares := i32 shares |>
        <| rprice := px p |> <| order_ref := i64 ref |>
  | MBroken tok shares number why =>
      of_type "BROKEN" (field_of tok 14) <| rshares := i32 shares |> <| match_number := i64 number |> <| reason := u8 why |>
  end.
Definition msg_ok (m : outbound) : Prop :=
  match m with
  | MAccepted tok _ _ stk _ _ _ => c_string tok /\ c_string stk
  | MReplaced tok prev _ _ _ => c_string tok /\ c_string prev
  | MSystemEvent _ _ => True
  | MExecuted tok _ _ _ | MCancelled tok _ _ | MRejected tok _ | MCancelReject tok _ | MCancelPending tok
  | MAiqCanceled tok _ _ | MRestated tok _ _ _ | MBroken tok _ _ _ => c_string tok
  end.

(** ** Reads stay inside the buffer *)

Lemma strip_padding_some off n d : (off + n <= length d)%nat -> exists v, strip_padding off n d = Some v.
Proof. intros H. unfold strip_padding. rewrite slice_some by done. by eexists. Qed.
Lemma read_u32_some off d : (off + 4 <= length d)%nat -> exists v, read_u32_be off d = Some v.
Proof. intros H. unfold read_u32_be. rewrite slice_some by done. by eexists. Qed.
Lemma read_u64_some off d : (off + 8 <= length d)%nat -> exists v, read_u64_be off d = Some v.
Proof. intros H. unfold read_u64_be. rewrite slice_some by done. by eexists. Qed.
Ltac reads_inside := repeat first
  [ rewrite bind_some
  | match goal with
   | |- context [strip_padding ?o ?n ?p] => destruct (strip_padding_some o n p) as [? ->]; [lia|]
   | |- context [read_u32_be ?o ?p] => destruct (read_u32_some o p) as [? ->]; [lia|]
   | |- context [read_u64_be ?o ?p] => destruct (read_u64_some o p) as [? ->]; [lia|]
   | |- context [byte_at ?o ?p] => destruct (byte_at_some o p) as [? ->]; [lia|]
   end ].

(** Whatever the bytes, [parse_response] reads only its buffer. *)
Lemma parse_response_total d : exists r, parse_response d = Some r.
Proof.
  unfold parse_response. destruct (Z.ltb_spec (alen d) 1) as [|L]; [by eexists|].
  assert (A : alen d = Z.of_nat (length d)) by done.
  destruct (byte_at_some 0 d) as [t ->]; [lia|]. rewrite bind_some.
  repeat (case_match; [unfold parse_accepted, parse_cancelled, parse_executed, parse_broken, parse_rejected,
    parse_cancel_reject, parse_cancel_pending, parse_aiq, parse_sys_event, parse_restated, parse_replaced;
    match goal with |- context [alen d <? ?n] => destruct (Z.ltb_spec (alen d) n) end;
    [by eexists|reads_inside; by eexists]|]).
  by eexists.
Qed.

(** ** The fields, written and read back *)

Lemma land_255 v k : 0 <= k -> Z.land (Z.shiftr v k) 255 = (v / 2 ^ k) mod 256.
Proof. intros H. rewrite (land_ones_mod _ 8), Z.shiftr_div_pow2 by lia. done. Qed.

Lemma write_u32_be_bytes v : write_u32_be v = be_bytes 4 (u32 v).
Proof.
  unfold write_u32_be. rewrite !land_255 by lia. rewrite (land_ones_mod _ 8) by lia.
  cbn [be_bytes app]. rewrite !Z.div_div by lia. done.
Qed.
Lemma write_u64_be_bytes v : write_u64_be v = be_bytes 8 (u64 v).
Proof.
  unfold write_u64_be. cbn [fmap list_fmap]. rewrite !land_255 by lia.
  cbn [be_bytes app]. rewrite !Z.div_div by lia. by rewrite Z.div_1_r.
Qed.

Lemma lor_byte acc b : is_byte b -> Z.lor (Z.shiftl acc 8) b = 256 * acc + b.
Proof. intros H. rewrite Z.lor_comm, lor_shiftl_add by (unfold is_byte in H; lia). change (2 ^ 8) with 256. lia. Qed.
Lemma or_bytes a b c d : is_byte b -> is_byte c -> is_byte d ->
  Z.lor (Z.lor (Z.lor (Z.shiftl a 24) (Z.shiftl b 16)) (Z.shiftl c 8)) d = be_value [a; b; c; d].
Proof.
  intros Hb Hc Hd. unfold be_value. cbn [foldl]. rewrite Z.mul_0_r, Z.add_0_l.
  rewrite <- !lor_byte by done. rewrite !Z.shiftl_lor, !Z.shiftl_shiftl by lia. done.
Qed.

Lemma read_u32_field off d v : 0 <= v < 2 ^ 32 -> slice off 4 d = Some (be_bytes 4 v) -> read_u32_be off d = Some v.
Proof.
  intros Hv Hs. unfold read_u32_be. rewrite Hs, bind_some. f_equal.
  pose proof (bytes_ok_be_bytes 4 v) as B. rewrite <- (be_value_small 4 v Hv) at 5.
  destruct (be_bytes 4 v) as [|x0 [|x1 [|x2 [|x3 [|]]]]] eqn:E;
    try (apply (f_equal length) in E; rewrite length_be_bytes in E; discriminate).
  unfold bytes_ok in B. rewrite !Forall_cons in B. unfold aget. simpl. apply or_bytes; tauto.
Qed.
Lemma read_u64_value l : bytes_ok l -> (length l <= 8)%nat ->
  foldl (fun val c => Z.lor (u64 (Z.shiftl val 8)) c) 0 l = be_value l.
Proof.
  induction l as [|c l IH] using rev_ind; intros Hb Hl; [done|].
  rewrite length_app in Hl. simpl in Hl. apply Forall_app in Hb as [Hb Hc]. apply Forall_cons in Hc as [Hc _].
  rewrite be_value_app, foldl_app, IH by (done || lia). cbn [foldl].
  pose proof (be_value_range l Hb) as R.
  assert (256 ^ alen l <= 256 ^ 7) by (apply Z.pow_le_mono_r; unfold alen; lia).
  change (256 ^ 7) with 72057594037927936 in *.
  rewrite u64_small by (rewrite Z.shiftl_mul_pow2 by lia; lia). by apply lor_byte.
Qed.
Lemma read_u64_field off d v : 0 <= v < 2 ^ 64 -> slice off 8 d = Some (be_bytes 8 v) -> read_u64_be off d = Some v.
Proof.
  intros Hv Hs. unfold read_u64_be. rewrite Hs, bind_some, read_u64_value.
  - by rewrite be_value_small.
  - apply bytes_ok_be_bytes.
  - by rewrite length_be_bytes.
Qed.

Lemma length_padded s n : length (write_padded s n) = n.
Proof. unfold write_padded. rewrite length_app, length_take, length_replicate. lia. Qed.
Lemma rstrip_spaces l n : rstrip (l ++ replicate n SPACE) = rstrip l.
Proof.
  induction l as [|c l IH]; simpl; [|by rewrite IH].
  induction n as [|n IHn]; simpl; [done|]. by rewrite IHn.
Qed.
Lemma rstrip_nonzero l : c_string l -> c_string (rstrip l).
Proof.
  induction 1 as [|c l Hc Hl IH]; simpl; [constructor|].
  destruct (rstrip l); [case_match; repeat constructor; done || lia|by constructor].
Qed.
Lemma c_str_id l : c_string l -> c_str l = l.
Proof. induction 1 as [|c l Hc Hl IH]; simpl; [done|]. destruct (Z.eqb_spec c 0); [lia|]. by rewrite IH. Qed.
Lemma strip_field off n d s : slice off n d = Some (write_padded s n) -> c_string s ->
  strip_padding off n d = Some (field_of s n).
Proof.
  intros H Hs. unfold strip_padding. rewrite H, bind_some. f_equal. unfold write_padded, field_of.
  rewrite rstrip_spaces. by apply c_str_id, rstrip_nonzero, c_string_take.
Qed.

Lemma i32_u32 v : i32 (u32 v) = i32 v.
Proof. apply wraps_eqm; [lia|]. unfold wrapu. by rewrite Zmod_mod. Qed.
Lemma i64_u64 v : i64 (u64 v) = i64 v.
Proof. apply wraps_eqm; [lia|]. unfold wrapu. by rewrite Zmod_mod. Qed.
Lemma read_u32_wire off d v : slice off 4 d = Some (be_bytes 4 (u32 v)) -> read_u32_be off d = Some (u32 v).
Proof. apply read_u32_field, u32_range. Qed.
Lemma read_u64_wire off d v : slice off 8 d = Some (be_bytes 8 (u64 v)) -> read_u64_be off d = Some (u64 v).
Proof. apply read_u64_field, u64_range. Qed.
Lemma u32_price p : u32 (price_field p) = price_field p.
Proof. apply u32_small, u32_range. Qed.

(** Reads the next field of a parser whose input is a concatenation. *)
Ltac read_next :=
  match goal with
  | |- context [strip_padding ?o ?n ?d] => erewrite (strip_field o n d); [rewrite bind_some|read_field|assumption]
  | |- context [read_u32_be ?o ?d] =>
      erewrite (read_u32_wire o d); [rewrite bind_some|read_field]
  | |- context [read_u64_be ?o ?d] =>
      erewrite (read_u64_wire o d); [rewrite bind_some|read_field]
  | |- context [byte_at ?o ?d] =>
      let E := fresh in eassert (byte_at o d = Some _) as E by read_field; rewrite E, bind_some; clear E
  end.
Ltac fields_known :=
  repeat match goal with
  | |- context [write_padded ?s ?n] =>
      lazymatch goal with H : length (write_padded s n) = n |- _ => fail | _ => pose proof (length_padded s n) end
  end.
Ltac long_enough := symmetry; apply Z.ltb_ge; rewrite ?alen_app; unfold alen; rewrite ?length_be_bytes, ?length_padded; simpl; lia.

(** What [parse_response] reads of the bytes an encoder wrote. *)
Lemma encode_length m : exists t l, encode m = t :: l /\ Z.of_nat (length (encode m)) = expected_length t.
Proof.
  destruct m; eexists _, _; (split; [reflexivity|]);
    cbn [encode]; unfold encode_accepted, encode_executed, encode_cancelled, encode_rejected, encode_cancel_reject,
      encode_cancel_pending, encode_aiq_canceled, encode_system_event, encode_restated, encode_replaced, encode_broken_trade;
    rewrite ?write_u32_be_bytes, ?write_u64_be_bytes, !length_app, ?length_be_bytes, ?length_padded; reflexivity.
Qed.

Lemma parse_encoded m : msg_ok m -> parse_response (encode m) = Some (meaning m).
Proof.
  intros Hm. unfold parse_response.
  destruct (encode_length m) as (t & l & E & L).
  replace (alen (encode m) <? 1) with false by (rewrite E; unfold alen; rewrite length_cons; symmetry; apply Z.ltb_ge; lia).
  clear E L t l. destruct m; cbn [encode msg_ok] in *; lazymatch type of Hm with _ /\ _ => destruct Hm | _ => idtac end;
    unfold encode_accepted, encode_executed, encode_cancelled, encode_rejected, encode_cancel_reject,
      encode_cancel_pending, encode_aiq_canceled, encode_system_event, encode_restated, encode_replaced, encode_broken_trade;
    rewrite ?write_u32_be_bytes, ?write_u64_be_bytes; fields_known;
    match goal with |- context [byte_at 0 ([?c] ++ ?l)] => change (byte_at 0 ([c] ++ l)) with (Some c) end; rewrite bind_some;
    unfold ch_A, ch_B, ch_C, ch_D, ch_E, ch_I, ch_J, ch_P, ch_R, ch_S, ch_U; cbn [Z.eqb Pos.eqb]; cbv iota.
  all: unfold parse_accepted, parse_cancelled, parse_executed, parse_broken, parse_rejected, parse_cancel_reject,
    parse_cancel_pending, parse_aiq, parse_sys_event, parse_restated, parse_replaced.
  all: match goal with |- context [alen ?d <? ?n] => replace (alen d <? n) with false by long_enough end.
  all: repeat read_next; rewrite ?i32_u32, ?i64_u64, ?u32_price; reflexivity.
Qed.

(** ** Streams of responses *)

(** A response that is not all there yet, or bytes that start none. *)
Definition stops (tail : list Z) : Prop :=
  match tail with [] => True | t :: _ => expected_length t = 0 \/ alen tail < expected_length t end.
Definition encodes (ms : list outbound) : list Z := mjoin (encode <$> ms).
Lemma encodes_cons m ms : encodes (m :: ms) = encode m ++ encodes ms.
Proof. done. Qed.

Lemma expected_length_range t : 0 <= expected_length t <= 45.
Proof. unfold expected_length. repeat case_match; lia. Qed.
Lemma encode_nonempty m : (10 <= length (encode m))%nat.
Proof.
  destruct (encode_length m) as (t & l & E & L). assert (expected_length t <> 0).
  { rewrite <- L, E. simpl. lia. }
  assert (expected_length t = 0 \/ 10 <= expected_length t) as [|] by (unfold expected_length; repeat case_match; lia); lia.
Qed.

Lemma stream_loop_encoded tail : stops tail -> forall ms pre fuel,
  Forall msg_ok ms -> (length ms <= fuel)%nat ->
  stream_loop fuel (pre ++ encodes ms ++ tail) (length pre) =
    Some (meaning <$> ms, (length pre + length (encodes ms))%nat).
Proof.
  intros Ht. induction ms as [|m ms IH]; intros pre fuel Hm Hf.
  - unfold encodes. simpl. rewrite Nat.add_0_r. destruct fuel as [|fuel]; [done|]. cbn [stream_loop].
    destruct (decide _) as [L|]; [|done]. rewrite length_app in L. destruct tail as [|t tail]; [simpl in L; lia|].
    unfold byte_at. rewrite lookup_app_r, Nat.sub_diag by lia. cbn [lookup list_lookup]. rewrite bind_some. cbv zeta.
    pose proof (expected_length_range t). destruct (decide _) as [|N]; [done|].
    rewrite decide_True; [done|]. rewrite length_app. unfold stops, alen in Ht. lia.
  - destruct fuel as [|fuel]; [simpl in Hf; lia|]. apply Forall_cons in Hm as [Hm Hms].
    destruct (encode_length m) as (t & l & E & L). pose proof (encode_nonempty m).
    assert (A : pre ++ encodes (m :: ms) ++ tail = (pre ++ encode m) ++ encodes ms ++ tail).
    { by rewrite encodes_cons, <- !app_assoc. }
    assert (LA : length (encodes (m :: ms)) = (length (encode m) + length (encodes ms))%nat).
    { by rewrite encodes_cons, length_app. }
    cbn [stream_loop fmap list_fmap]. rewrite decide_True by (rewrite !length_app, LA; lia).
    rewrite A. unfold byte_at. rewrite <- app_assoc, lookup_app_r, Nat.sub_diag by lia.
    rewrite E at 1. cbn [app lookup list_lookup]. rewrite bind_some. cbv zeta. rewrite <- L, Nat2Z.id.
    rewrite decide_False by lia. rewrite decide_False by (rewrite !length_app; lia).
    rewrite drop_app_length, take_app_length, parse_encoded, bind_some by done. rewrite app_assoc, <- length_app.
    rewrite IH by (done || (simpl in Hf; lia)). rewrite bind_some, LA, length_app. do 2 f_equal. lia.
Qed.

(** C26: the exchange's responses survive the wire: for any sequence of
    messages, the bytes of their encoders written one after the other, followed
    by an incomplete message or nothing, are split by [parse_stream] into
    exactly those messages, in order, and it stops where the incomplete one
    begins.  Each comes back as sent: tokens and symbols without padding and
    cut to their fields, integers at their width, prices at the grid of a
    ten-thousandth that [price_field] chose. *)
Theorem ouch_stream_roundtrip ms tail :
  Forall msg_ok ms -> stops tail ->
  parse_stream (encodes ms ++ tail) = Some (meaning <$> ms, length (encodes ms)).
Proof.
  intros Hm Ht. unfold parse_stream. apply (stream_loop_encoded tail Ht ms []); [done|].
  rewrite length_app. clear. induction ms as [|m ms IH]; [simpl; lia|].
  rewrite encodes_cons, length_app. pose proof (encode_nonempty m). simpl. lia.
Qed.

Definition TOK1 : cstr := [84; 79; 75; 49].
Definition demo_responses : list outbound :=
  [MAccepted TOK1 ch_B 100 [65; 65; 80; 76] (dratio 113 100) 7001 ch_D; MExecuted TOK1 40 (dratio 113 100) 90001;
   MCancelled TOK1 60 ch_U].
Lemma ouch_stream_roundtrip_witness :
  parse_stream (encodes demo_responses ++ [69; 84; 79]) = Some (meaning <$> demo_responses, 92%nat).
Proof.
  apply (ouch_stream_roundtrip demo_responses [69; 84; 79]); [|by right].
  repeat constructor; lia.
Defined.

(** [price * 10000] is truncated, not rounded: 1.13 goes out as 1.1299, and
    sending what came back loses one more ten-thousandth. *)
Example price_field_truncates :
  price_field (dratio 113 100) = 11299 /\ price_field (field_price 113) = 112.
Proof. by vm_compute. Qed.

(** ** Orders, from the client to the exchange's checks *)

Inductive inbound :=
  | Enter (token : cstr) (side shares : Z) (stock : cstr) (price : double) (tif : Z)
  | Cancel (token : cstr) (shares : Z)
  | Replace (token new : cstr) (shares : Z) (price : double)
  | Modify (token : cstr) (shares : Z).
Definition encode_order (m : inbound) : list Z :=
  match m with
  | Enter tok side shares stk px tif => enter_order tok side shares stk px tif
  | Cancel tok shares => cancel_order tok shares
  | Replace tok new shares px => replace_order tok new shares px
  | Modify tok shares => modify_order tok shares
  end.
Definition order_meaning (m : inbound) : OUCHOrder :=
  match m with
  | Enter tok side shares stk px tif =>
      mkOrder ch_O (field_of tok 14) [] (u8 side) (i32 shares) (field_of stk 8) (field_price (price_field px)) (u8 tif) true
  | Cancel tok shares => mkOrder ch_X (field_of tok 14) [] SPACE (i32 shares) [] d_zero SPACE true
  | Replace tok new shares px =>
      mkOrder ch_U (field_of tok 14) (field_of new 14) SPACE (i32 shares) [] (field_price (price_field px)) SPACE true
  | Modify tok shares => mkOrder ch_M (field_of tok 14) [] SPACE (i32 shares) [] d_zero SPACE true
  end.
Definition inbound_ok (m : inbound) : Prop :=
  match m with
  | Enter tok _ _ stk _ _ => c_string tok /\ c_string stk
  | Replace tok new _ _ => c_string tok /\ c_string new
  | Cancel tok _ | Modify tok _ => c_string tok
  end.
(** What the exchange promises of an order it takes. *)
Definition within_limits (m : inbound) : bool :=
  let sized n := (0 <? i32 n) && (i32 n <=? MAX_ORDER_SHARES) in
  let priced p := let p := field_price (price_field p) in negb (dle p d_zero) && negb (dgt p MAX_ORDER_PRICE) in
  let named s n := negb (is_empty (field_of s n)) in
  match m with
  | Enter tok side shares stk px _ =>
      named tok 14%nat && ((u8 side =? ch_B) || (u8 side =? ch_S)) && sized shares && priced px && named stk 8%nat
  | Cancel tok shares => named tok 14%nat && (0 <=? i32 shares)
  | Replace tok new shares px => named tok 14%nat && named new 14%nat && sized shares && priced px
  | Modify tok shares => named tok 14%nat && sized shares
  end.

Lemma parse_order_encoded m : inbound_ok m -> parse_order (encode_order m) = Some (order_meaning m).
Proof.
  intros Hm. unfold parse_order. destruct m; cbn [encode_order inbound_ok] in *;
    lazymatch type of Hm with _ /\ _ => destruct Hm | _ => idtac end;
    unfold enter_order, cancel_order, replace_order, modify_order; rewrite ?write_u32_be_bytes; fields_known;
    (match goal with |- context [alen ?d <? 1] => replace (alen d <? 1) with false by long_enough end);
    match goal with |- context [byte_at 0 ([?c] ++ ?l)] => change (byte_at 0 ([c] ++ l)) with (Some c) end; rewrite bind_some;
    unfold ch_O, ch_X, ch_U, ch_M; cbn [Z.eqb Pos.eqb]; cbv iota;
    (match goal with |- context [alen ?d <? ?n] => replace (alen d <? n) with false by long_enough end);
    repeat read_next; rewrite ?i32_u32, ?u32_price; reflexivity.
Qed.

Lemma check_size_none n rest :
  check_size n rest = None <-> (0 <? n) && (n <=? MAX_ORDER_SHARES) = true /\ rest = None.
Proof. unfold check_size. destruct (Z.leb_spec n 0), (Z.ltb_spec 0 n), (Z.ltb_spec MAX_ORDER_SHARES n), (Z.leb_spec n MAX_ORDER_SHARES); simpl; try lia; naive_solver. Qed.
Lemma check_price_none p rest :
  check_price p rest = None <-> negb (dle p d_zero) && negb (dgt p MAX_ORDER_PRICE) = true /\ rest = None.
Proof. unfold check_price. destruct (dle p d_zero), (dgt p MAX_ORDER_PRICE); simpl; naive_solver. Qed.

(** The comparisons as plain booleans. *)
Ltac by_bits shares price :=
  generalize (0 <? i32 shares) (i32 shares <=? MAX_ORDER_SHARES)
    (dle (field_price (price_field price)) d_zero) (dgt (field_price (price_field price)) MAX_ORDER_PRICE);
  intros [] [] [] []; simpl; naive_solver.

(** an order the client encodes is parsed back field by field, and
    [validate_order] takes it exactly when it has a token (and a new one when
    it replaces), a side, a symbol and 1 to 1,000,000 shares at a price above
    zero and at most 199,999.99 where its type has them. *)
Lemma ouch_order_gate m :
  inbound_ok m ->
  parse_order (encode_order m) = Some (order_meaning m) /\
  (validate_order (order_meaning m) = None <-> within_limits m = true).
Proof.
  intros Hm. split; [by apply parse_order_encoded|].
  destruct m; unfold validate_order, within_limits; cbn [order_meaning valid otype otoken new_token oside oshares ostock oprice];
    cbv zeta; change (negb true) with false; cbv iota;
    (destruct (is_empty (field_of token0 14)); cbn [negb andb]; [by split|]).
  - change (ch_O =? ch_O) with true. cbv iota. rewrite <- negb_orb.
    destruct ((u8 side =? ch_B) || (u8 side =? ch_S)); cbn [negb andb]; [|by split].
    rewrite check_size_none, check_price_none. destruct (is_empty (field_of stock0 8)); by_bits shares price.
  - change (ch_X =? ch_O) with false. change (ch_X =? ch_U) with false. change (ch_X =? ch_M) with false.
    change (ch_X =? ch_X) with true. cbv iota. by destruct (Z.ltb_spec (i32 shares) 0), (Z.leb_spec 0 (i32 shares)); [lia| | |lia].
  - change (ch_U =? ch_O) with false. change (ch_U =? ch_U) with true. cbv iota.
    destruct (is_empty (field_of new 14)); cbn [negb andb]; [by split|].
    rewrite check_size_none, check_price_none. by_bits shares price.
  - change (ch_M =? ch_O) with false. change (ch_M =? ch_U) with false. change (ch_M =? ch_M) with true. cbv iota.
    rewrite check_size_none. naive_solver.
Qed.
Lemma ouch_order_gate_witness :
  parse_order (encode_order (Enter TOK1 ch_B 100 [77; 83; 70; 84] (dratio 41050 100) ch_D)) =
    Some (order_meaning (Enter TOK1 ch_B 100 [77; 83; 70; 84] (dratio 41050 100) ch_D)) /\
  (validate_order (order_meaning (Enter TOK1 ch_B 100 [77; 83; 70; 84] (dratio 41050 100) ch_D)) = None <->
   within_limits (Enter TOK1 ch_B 100 [77; 83; 70; 84] (dratio 41050 100) ch_D) = true).
Proof. apply ouch_order_gate. split; repeat constructor; lia. Defined.
