(* ===== verification/Soup.v ===== *)
(** * Soup: SoupBinTCP framing and the OUCH session client

    [ouch-protocol/soupbin.hpp] and [ouch-protocol/soupbin_session.hpp]: packets
    of a 16-bit length, a type and a payload; the client that consumes a stream
    of them as it arrives, in pieces; the exchange mock that answers a client's
    stream.  A packer returns the bytes it wrote, none when the caller's buffer
    is too small. *)
From S2P Require Import Prelude Double Common Bytes Ouch.

(** ** Packets *)

Definition HEADER_SIZE : nat := 3.
Definition USERNAME_LEN : nat := 6.
Definition PASSWORD_LEN : nat := 10.
Definition SESSION_LEN : nat := 10.
Definition SEQNUM_LEN : nat := 20.

(** [PacketType]: the characters S H A J Z + U R L O. *)
Definition SEQUENCED_DATA : Z := 83.
Definition SERVER_HEARTBEAT : Z := 72.
Definition LOGIN_ACCEPTED : Z := 65.
Definition LOGIN_REJECTED : Z := 74.
Definition END_OF_SESSION : Z := 90.
Definition DEBUG : Z := 43.
Definition UNSEQUENCED_DATA : Z := 85.
Definition CLIENT_HEARTBEAT : Z := 82.
Definition LOGIN_REQUEST : Z := 76.
Definition LOGOUT_REQUEST : Z := 79.

Definition write_u16_be (val : Z) : list Z := [Z.land (Z.shiftr val 8) 255; Z.land val 255].
Definition read_u16_be (b0 b1 : Z) : Z := Z.lor (Z.shiftl b0 8) b1.

Definition pack_header (type : Z) (payload_len : nat) : list Z :=
  write_u16_be (u16 (1 + Z.of_nat payload_len)) ++ [type].
Definition pack_heartbeat (client_side : bool) : list Z :=
  pack_header (if client_side then CLIENT_HEARTBEAT else SERVER_HEARTBEAT) 0.
Definition pack_data (cap : nat) (payload : list Z) (client_side : bool) : list Z :=
  if decide (cap < HEADER_SIZE + length payload)%nat then []
  else pack_header (if client_side then UNSEQUENCED_DATA else SEQUENCED_DATA) (length payload) ++ payload.
Definition pack_login_request (cap : nat) (username password session sequence : cstr) : list Z :=
  let payload := (USERNAME_LEN + PASSWORD_LEN + SESSION_LEN + SEQNUM_LEN)%nat in
  if decide (cap < HEADER_SIZE + payload)%nat then []
  else pack_header LOGIN_REQUEST payload ++ write_padded username USERNAME_LEN ++
    write_padded password PASSWORD_LEN ++ write_padded session SESSION_LEN ++ write_padded sequence SEQNUM_LEN.
Definition pack_logout_request : list Z := pack_header LOGOUT_REQUEST 0.

Record ParsedPacket := mkPacket { ptype : Z; payload : list Z; pvalid : bool }.
Definition no_packet : ParsedPacket := mkPacket DEBUG [] false.
(** The packet at the head of a buffer and the bytes it takes. *)
Definition parse_packet (buf : list Z) : option (ParsedPacket * nat) :=
  if decide (length buf < HEADER_SIZE)%nat then Some (no_packet, 0%nat) else
  b0 ← byte_at 0 buf; b1 ← byte_at 1 buf;
  let rest_len := read_u16_be b0 b1 in
  if rest_len <? 1 then Some (no_packet, 0%nat) else
  let total := (2 + Z.to_nat rest_len)%nat in
  if decide (length buf < total)%nat then Some (no_packet, 0%nat) else
  t ← byte_at 2 buf; p ← slice HEADER_SIZE (Z.to_nat rest_len - 1) buf;
  Some (mkPacket t p true, total).

Record SequenceTracker := mkSeq { expected : Z; received : Z; gaps : Z }.
#[export] Instance eta_seq : Settable SequenceTracker := fun s => mkSeq (expected s) (received s) (gaps s).
Definition incr (n : Z) : Z := u64 (n + 1).
Definition observe_sequenced (s : SequenceTracker) : SequenceTracker := s <| expected ::= incr |> <| received ::= incr |>.
Definition reset_to (starting_seq : Z) : SequenceTracker := mkSeq starting_seq 0 0.

(** ** The session *)

Definition is_digit (c : Z) : bool := (48 <=? c) && (c <=? 57).
Definition parse_seqnum (p : list Z) : Z :=
  foldl (fun v c => if is_digit c then u64 (u64 (v * 10) + (c - 48)) else v) 0 p.

Definition pack_enter_order (cap : nat) (token : cstr) (side shares : Z) (stock : cstr) (price : double) (tif : Z) : list Z :=
  pack_data cap (enter_order token side shares stock price tif) true.
Definition pack_cancel_order (cap : nat) (token : cstr) (shares : Z) : list Z :=
  pack_data cap (cancel_order token shares) true.
Definition pack_replace_order (cap : nat) (existing_token new_token : cstr) (shares : Z) (price : double) : list Z :=
  pack_data cap (replace_order existing_token new_token shares price) true.

Record HeartbeatTimer := mkTimer { last_tx : Z; last_rx : Z; started : bool }.
#[export] Instance eta_timer : Settable HeartbeatTimer := fun t => mkTimer (last_tx t) (last_rx t) (started t).
Definition timer_reset : HeartbeatTimer := mkTimer 0 0 false.
Definition on_tx (t : HeartbeatTimer) (now : Z) : HeartbeatTimer := t <| last_tx := now |> <| started := true |>.
Definition on_rx (t : HeartbeatTimer) (now : Z) : HeartbeatTimer := t <| last_rx := now |> <| started := true |>.
Definition need_send (t : HeartbeatTimer) (now interval : Z) : bool := started t && (interval <=? i64 (now - last_tx t)).
Definition peer_timed_out (t : HeartbeatTimer) (now timeout : Z) : bool := started t && (timeout <? i64 (now - last_rx t)).

Record OuchSessionClient := mkClient {
  logged_in_ : bool; session_ended_ : bool; login_reject_reason_ : Z; seq_ : SequenceTracker;
  accepts_ : Z; executes_ : Z; cancels_ : Z; rejects_ : Z; replaces_ : Z; heartbeats_ : Z; errors_ : Z; others_ : Z }.
#[export] Instance eta_client : Settable OuchSessionClient := fun c =>
  mkClient (logged_in_ c) (session_ended_ c) (login_reject_reason_ c) (seq_ c) (accepts_ c) (executes_ c) (cancels_ c)
    (rejects_ c) (replaces_ c) (heartbeats_ c) (errors_ c) (others_ c).
Definition new_client : OuchSessionClient := mkClient false false 0 (mkSeq 1 0 0) 0 0 0 0 0 0 0 0.

(** Counting a response by its type. *)
Definition count_response (c : OuchSessionClient) (r : OUCHResponse) : OuchSessionClient :=
  if String.eqb (rtype r) "ACCEPTED" then c <| accepts_ ::= incr |> else
  if String.eqb (rtype r) "EXECUTED" then c <| executes_ ::= incr |> else
  if String.eqb (rtype r) "CANCELLED" then c <| cancels_ ::= incr |> else
  if String.eqb (rtype r) "REJECTED" then c <| rejects_ ::= incr |> else
  if String.eqb (rtype r) "REPLACED" then c <| replaces_ ::= incr |> else
  if String.eqb (rtype r) "ERROR" || String.eqb (rtype r) "UNKNOWN" then c <| errors_ ::= incr |> else
  c <| others_ ::= incr |>.
Definition on_packet (c : OuchSessionClient) (p : ParsedPacket) : option OuchSessionClient :=
  if negb (pvalid p) then Some (c <| errors_ ::= incr |>) else
  if ptype p =? LOGIN_ACCEPTED then
    let c := c <| logged_in_ := true |> in
    if decide (SESSION_LEN + SEQNUM_LEN <= length (payload p))%nat then
      f ← slice SESSION_LEN SEQNUM_LEN (payload p);
      let s := parse_seqnum f in
      Some (c <| seq_ := reset_to (if s =? 0 then 1 else s) |>)
    else Some c
  else if ptype p =? LOGIN_REJECTED then
    let c := c <| logged_in_ := false |> <| errors_ ::= incr |> in
    if decide (1 <= length (payload p))%nat then
      b ← byte_at 0 (payload p); Some (c <| login_reject_reason_ := b |>)
    else Some c
  else if ptype p =? SEQUENCED_DATA then
    let c := c <| seq_ ::= observe_sequenced |> in
    r ← parse_response (payload p); Some (count_response c r)
  else if ptype p =? SERVER_HEARTBEAT then Some (c <| heartbeats_ ::= incr |>)
  else if ptype p =? END_OF_SESSION then Some (c <| session_ended_ := true |>)
  else if ptype p =? DEBUG then Some c
  else Some (c <| errors_ ::= incr |>).

(** Every turn of the loop takes a packet of at least three bytes. *)
Fixpoint consume_loop (fuel : nat) (c : OuchSessionClient) (buf : list Z) (off : nat) : option (OuchSessionClient * nat) :=
  match fuel with
  | O => Some (c, off)
  | S fuel' =>
      if decide (off < length buf)%nat then
        '(p, used) ← parse_packet (drop off buf);
        if negb (pvalid p) then Some (c, off) else
        c' ← on_packet c p; consume_loop fuel' c' buf (off + used)
      else Some (c, off)
  end.
Definition consume (c : OuchSessionClient) (buf : list Z) : option (OuchSessionClient * nat) :=
  consume_loop (length buf) c buf 0.

(** ** The exchange mock *)

(** The decimal digits [snprintf] writes for [%llu]: at most 20. *)
Fixpoint dec_loop (fuel : nat) (n : Z) : list Z :=
  match fuel with
  | O => []
  | S fuel' => (if n <? 10 then [] else dec_loop fuel' (n / 10)) ++ [48 + n mod 10]
  end.
Definition print_u64 (n : Z) : list Z := dec_loop 20 n.
Definition SESSION01 : list Z := [83; 69; 83; 83; 73; 79; 78; 48; 49].

(** [out_off], [order_ref], [match_no] and the bytes written. *)
Record Mock := mkMock { out : list Z; next_ref : Z; next_match : Z }.
Definition room (cap : nat) (m : Mock) (need : nat) : bool := bool_decide (length (out m) + need <= cap)%nat.
Definition push (m : Mock) (bytes : list Z) : Mock := mkMock (out m ++ bytes) (next_ref m) (next_match m).

Definition login_reply (start_seq : Z) : list Z :=
  pack_header LOGIN_ACCEPTED (SESSION_LEN + SEQNUM_LEN) ++ write_padded SESSION01 SESSION_LEN ++
  write_padded (print_u64 start_seq) SEQNUM_LEN.
(** The reply to an order whose payload starts at [base] of the client's
    stream; the second component tells whether the loop goes on. *)
Definition order_reply (cap : nat) (m : Mock) (client_stream : list Z) (base : nat) : option (Mock * bool) :=
  tok ← strip_padding (base + 1) 14 client_stream; side ← byte_at (base + 15) client_stream;
  shares ← read_u32_be (base + 16) client_stream; stk ← strip_padding (base + 20) 8 client_stream;
  px ← read_u32_be (base + 28) client_stream; tif ← byte_at (base + 32) client_stream;
  let price := field_price px in
  let msg := encode_accepted tok side (i32 shares) stk price (next_ref m) tif in
  let m := mkMock (out m) (i64 (next_ref m + 1)) (next_match m) in
  if negb (room cap m (HEADER_SIZE + length msg)) then Some (m, false) else
  let m := push m (pack_data (cap - length (out m)) msg false) in
  let msg := encode_executed tok (i32 shares) price (next_match m) in
  let m := mkMock (out m) (next_ref m) (i64 (next_match m + 1)) in
  if negb (room cap m (HEADER_SIZE + length msg)) then Some (m, false) else
  Some (push m (pack_data (cap - length (out m)) msg false), true).
Fixpoint mock_loop (fuel : nat) (cap : nat) (client_stream : list Z) (start_seq : Z) (in_off : nat) (m : Mock) : option Mock :=
  match fuel with
  | O => Some m
  | S fuel' =>
      if decide (in_off < length client_stream)%nat then
        '(p, used) ← parse_packet (drop in_off client_stream);
        if negb (pvalid p) then Some m else
        let next := mock_loop fuel' cap client_stream start_seq (in_off + used) in
        if ptype p =? LOGIN_REQUEST then
          if negb (room cap m (HEADER_SIZE + (SESSION_LEN + SEQNUM_LEN))) then Some m
          else next (push m (login_reply start_seq))
        else if (ptype p =? UNSEQUENCED_DATA) && (match payload p with b :: _ => b =? ch_O | [] => false end) then
          '(m, go_on) ← order_reply cap m client_stream (in_off + HEADER_SIZE);
          if go_on : bool then next m else Some m
        else if ptype p =? LOGOUT_REQUEST then
          if negb (room cap m HEADER_SIZE) then Some m else next (push m (pack_header END_OF_SESSION 0))
        else next m
      else Some m
  end.
Definition mock_exchange_respond (cap : nat) (client_stream : list Z) (start_seq : Z) : option (list Z) :=
  m ← mock_loop (length client_stream) cap client_stream start_seq 0 (mkMock [] 7000 90000); Some (out m).

(** ** Packets at the head of a stream *)

Lemma parse_packet_total buf : exists p used, parse_packet buf = Some (p, used) /\
  (pvalid p = true -> (3 <= used <= length buf)%nat) /\
  (pvalid p = true -> forall rest, parse_packet (buf ++ rest) = Some (p, used)).
Proof.
  unfold parse_packet, HEADER_SIZE. destruct (decide (length buf < 3)%nat) as [|L]; [by exists no_packet, 0%nat|].
  destruct (byte_at_some 0 buf) as [b0 E0]; [lia|]. destruct (byte_at_some 1 buf) as [b1 E1]; [lia|].
  destruct (byte_at_some 2 buf) as [b2 E2]; [lia|]. rewrite E0, E1, !bind_some. cbv zeta.
  destruct (Z.ltb_spec (read_u16_be b0 b1) 1) as [|Hr]; [by exists no_packet, 0%nat|].
  destruct (decide (length buf < _)%nat) as [|T]; [by exists no_packet, 0%nat|].
  rewrite E2, bind_some, slice_some, bind_some by lia.
  eexists _, _. split; [reflexivity|]. split; [intros; lia|]. intros _ rest.
  rewrite length_app, decide_False by lia. unfold byte_at in *.
  rewrite !lookup_app_l by lia. rewrite E0, E1, E2, !bind_some.
  destruct (Z.ltb_spec (read_u16_be b0 b1) 1); [lia|]. rewrite decide_False by lia.
  rewrite slice_some, bind_some by (rewrite length_app; lia). do 3 f_equal.
  rewrite drop_app_le, take_app_le by (try rewrite length_drop; lia). done.
Qed.

Lemma on_packet_total c p : exists c', on_packet c p = Some c'.
Proof.
  unfold on_packet. repeat (case_match; [|]); try by eexists.
  - rewrite slice_some, bind_some by done. by eexists.
  - destruct (byte_at_some 0 (payload p)) as [? ->]; [lia|]. rewrite bind_some. by eexists.
  - destruct (parse_response_total (payload p)) as [r ->]. rewrite bind_some. by eexists.
Qed.

(** ** The stream may arrive in any pieces *)

(** What is left of a stream once the packets at its head are handled: [n]
    bytes are consumed and the rest starts no whole packet. *)
Inductive drains : OuchSessionClient -> list Z -> OuchSessionClient -> nat -> Prop :=
  | drains_stop c l p used : parse_packet l = Some (p, used) -> pvalid p = false -> drains c l c 0
  | drains_packet c l p used c1 c2 n :
      parse_packet l = Some (p, used) -> pvalid p = true -> on_packet c p = Some c1 ->
      drains c1 (drop used l) c2 n -> drains c l c2 (used + n).

Lemma consume_loop_drains fuel : forall c buf off, (length buf <= off + fuel)%nat ->
  exists c' n, consume_loop fuel c buf off = Some (c', (off + n)%nat) /\ drains c (drop off buf) c' n.
Proof.
  induction fuel as [|fuel IH]; intros c buf off Hf.
  - exists c, 0%nat. rewrite Nat.add_0_r. split; [done|]. rewrite drop_ge by lia. by eapply drains_stop.
  - cbn [consume_loop]. destruct (decide _) as [L|].
    + destruct (parse_packet_total (drop off buf)) as (p & used & E & Hu & _). rewrite E, bind_some.
      destruct (pvalid p) eqn:V; cbn [negb].
      * destruct (on_packet_total c p) as [c1 O]. rewrite O, bind_some. destruct (Hu eq_refl) as [Hu1 _].
        destruct (IH c1 buf (off + used)%nat) as (c2 & n & -> & D); [lia|].
        exists c2, (used + n)%nat. split; [do 2 f_equal; lia|].
        eapply drains_packet; [done..|]. by rewrite drop_drop.
      * exists c, 0%nat. rewrite Nat.add_0_r. split; [done|]. by eapply drains_stop.
    + exists c, 0%nat. rewrite Nat.add_0_r. split; [done|]. rewrite drop_ge by lia. by eapply drains_stop.
Qed.
Lemma consume_drains c buf : exists c' n, consume c buf = Some (c', n) /\ drains c buf c' n.
Proof. destruct (consume_loop_drains (length buf) c buf 0) as (c' & n & E & D); [lia|]. by exists c', n. Qed.

Lemma drains_det c l c1 n1 : drains c l c1 n1 -> forall c2 n2, drains c l c2 n2 -> c1 = c2 /\ n1 = n2.
Proof.
  induction 1 as [c l p used E V|c l p used c1 c2 n E V O D IH]; intros c' n' D';
    inversion D' as [? ? p' used' E' V'|? ? p' used' c1' ? m E' V' O' D'']; subst; rewrite E in E'; injection E' as <- <-.
  - done.
  - congruence.
  - congruence.
  - rewrite O in O'. injection O' as <-. by destruct (IH _ _ D'') as [-> ->].
Qed.
Lemma consume_eq c buf c' n : drains c buf c' n -> consume c buf = Some (c', n).
Proof.
  intros D. destruct (consume_drains c buf) as (c1 & m & -> & D'). by destruct (drains_det _ _ _ _ D _ _ D') as [<- <-].
Qed.

Lemma drains_app c a c1 n : drains c a c1 n -> (n <= length a)%nat /\ forall b c2 k,
  drains c1 (drop n a ++ b) c2 k -> drains c (a ++ b) c2 (n + k).
Proof.
  induction 1 as [c l p used E V|c l p used c1 c2 n E V O D [Hn IH]]; [by split; [lia|]|].
  destruct (parse_packet_total l) as (p' & used' & E' & Hu & Hrest). rewrite E in E'. injection E' as <- <-.
  specialize (Hu V). rewrite length_drop in Hn. split; [lia|].
  intros b c3 k D3. rewrite <- Nat.add_assoc.
  eapply drains_packet; [by apply Hrest|done|done|]. rewrite drop_app_le by lia. apply IH. by rewrite drop_drop.
Qed.

(** C17: the session client does not depend on how the stream is cut.  Consuming
    the bytes that have arrived, keeping what [consume] did not take, and
    consuming that with the bytes that come next leaves the same client and
    takes the same bytes as consuming everything at once; [consume] returns on
    any bytes and takes no more than it was given. *)
Theorem soup_consume_chunks c a b :
  exists c1 n c2 k,
    consume c a = Some (c1, n) /\ (n <= length a)%nat /\
    consume c1 (drop n a ++ b) = Some (c2, k) /\ consume c (a ++ b) = Some (c2, (n + k)%nat).
Proof.
  destruct (consume_drains c a) as (c1 & n & Ea & Da). destruct (drains_app _ _ _ _ Da) as [Hn Happ].
  destruct (consume_drains c1 (drop n a ++ b)) as (c2 & k & Eb & Db).
  exists c1, n, c2, k. split; [done|split; [done|split; [done|]]]. by apply consume_eq, Happ.
Qed.

(** ** Frames *)

Definition frame (t : Z) (p : list Z) : list Z := pack_header t (length p) ++ p.

Lemma u16_roundtrip v : 0 <= v < 65536 ->
  read_u16_be (Z.land (Z.shiftr v 8) 255) (Z.land v 255) = v.
Proof.
  intros H. unfold read_u16_be. rewrite land_255, (land_ones_mod _ 8) by lia. change (2 ^ 8) with 256.
  rewrite (lor_byte _ (v mod 256)) by (apply Z.mod_pos_bound; lia).
  rewrite (Z.mod_small (v / 256)) by (split; [apply Z.div_pos|apply Z.div_lt_upper_bound]; lia).
  pose proof (Z.div_mod v 256). lia.
Qed.

Lemma parse_frame t p rest : alen p <= 65534 ->
  parse_packet (frame t p ++ rest) = Some (mkPacket t p true, (3 + length p)%nat).
Proof.
  unfold alen. intros H. unfold parse_packet, frame, pack_header, write_u16_be, HEADER_SIZE. cbn [app].
  rewrite u16_small by lia. rewrite decide_False by (simpl; lia).
  unfold byte_at. cbn [lookup list_lookup]. rewrite !bind_some, u16_roundtrip by lia. cbv zeta.
  destruct (Z.ltb_spec (1 + Z.of_nat (length p)) 1); [lia|].
  replace (Z.to_nat (1 + Z.of_nat (length p))) with (S (length p)) by lia.
  rewrite decide_False by (simpl; rewrite length_app; lia).
  match goal with |- context [slice 3 ?n (?a :: ?b :: ?c :: ?l)] =>
    change (slice 3 n (a :: b :: c :: l)) with (slice 3 n ([a; b; c] ++ l)) end.
  rewrite (slice_skip_n 3 _ [_; _; t] _ 3 0) by done. rewrite slice_here by lia. rewrite bind_some. do 3 f_equal.
Qed.
Lemma length_frame t p : length (frame t p) = (3 + length p)%nat.
Proof. done. Qed.
Lemma drop_frame t p rest : drop (3 + length p) (frame t p ++ rest) = rest.
Proof. rewrite <- (length_frame t p). apply drop_app_length. Qed.

Lemma drains_frame c t p rest c1 c2 n :
  alen p <= 65534 -> on_packet c (mkPacket t p true) = Some c1 -> drains c1 rest c2 n ->
  drains c (frame t p ++ rest) c2 (length (frame t p) + n).
Proof.
  intros Hp Ho D. rewrite length_frame. eapply drains_packet; [by apply parse_frame|done|done|].
  by rewrite drop_frame.
Qed.
Lemma drains_nil c : drains c [] c 0.
Proof. by eapply drains_stop. Qed.

(** The packers write frames. *)
Lemma pack_data_frame cap p client : (3 + length p <= cap)%nat ->
  pack_data cap p client = frame (if client then UNSEQUENCED_DATA else SEQUENCED_DATA) p.
Proof. intros H. unfold pack_data, HEADER_SIZE. by rewrite decide_False by lia. Qed.

(** ** Sequence numbers in decimal *)

Lemma parse_seqnum_snoc l c : parse_seqnum (l ++ [c]) =
  if is_digit c then u64 (u64 (parse_seqnum l * 10) + (c - 48)) else parse_seqnum l.
Proof. unfold parse_seqnum. by rewrite foldl_app. Qed.
Lemma parse_dec_loop fuel : forall n, 0 <= n < 10 ^ Z.of_nat fuel -> n < 2 ^ 64 -> parse_seqnum (dec_loop fuel n) = n.
Proof.
  induction fuel as [|fuel IH]; intros n Hn Hm; [simpl in *; change (10 ^ 0) with 1 in Hn; cbn; lia|].
  cbn [dec_loop]. rewrite parse_seqnum_snoc. pose proof (Z.mod_pos_bound n 10). pose proof (Z.div_mod n 10).
  replace (is_digit (48 + n mod 10)) with true by (unfold is_digit; symmetry; apply andb_true_iff; split; apply Z.leb_le; lia).
  change (2 ^ 64) with 18446744073709551616 in *.
  assert (P : parse_seqnum (if n <? 10 then [] else dec_loop fuel (n / 10)) = n / 10).
  { destruct (Z.ltb_spec n 10); [rewrite Z.div_small by lia; done|].
    rewrite Nat2Z.inj_succ, Z.pow_succ_r in Hn by lia.
    apply IH; [|apply Z.div_lt_upper_bound; lia]. split; [apply Z.div_pos; lia|apply Z.div_lt_upper_bound; lia]. }
  rewrite P, (u64_small (n / 10 * 10)), u64_small by lia. lia.
Qed.
Lemma parse_seqnum_spaces l n : parse_seqnum (l ++ replicate n SPACE) = parse_seqnum l.
Proof.
  induction n as [|n IH]; [by rewrite app_nil_r|].
  replace (S n) with (n + 1)%nat by lia. rewrite replicate_add, app_assoc. change (replicate 1 SPACE) with [SPACE].
  by rewrite parse_seqnum_snoc.
Qed.
Lemma length_dec_loop fuel : forall n, (length (dec_loop fuel n) <= fuel)%nat.
Proof.
  induction fuel as [|fuel IH]; intros n; [done|]. cbn [dec_loop]. rewrite length_app.
  specialize (IH (n / 10)). case_match; simpl; lia.
Qed.
Lemma seqnum_roundtrip n : 0 <= n < 2 ^ 64 -> parse_seqnum (write_padded (print_u64 n) SEQNUM_LEN) = n.
Proof.
  intros H. unfold write_padded, print_u64, SEQNUM_LEN. rewrite parse_seqnum_spaces, take_ge by apply length_dec_loop.
  apply parse_dec_loop; [|lia]. assert (2 ^ 64 < 10 ^ Z.of_nat 20) by done. lia.
Qed.

(** ** A session, end to end *)

Record NewOrder := mkNew {
  n_token : cstr; n_side : Z; n_shares : Z; n_stock : cstr; n_price : double; n_tif : Z }.
Definition new_order_ok (o : NewOrder) : Prop := c_string (n_token o) /\ c_string (n_stock o).
Definition order_packet (o : NewOrder) : list Z :=
  pack_enter_order 36 (n_token o) (n_side o) (n_shares o) (n_stock o) (n_price o) (n_tif o).
(** What a client sends: it logs in, enters orders and logs out. *)
Definition client_session (user pass : cstr) (os : list NewOrder) : list Z :=
  pack_login_request 49 user pass [] [48] ++ mjoin (order_packet <$> os) ++ pack_logout_request.

(** What the exchange answers: every order is accepted and filled. *)
Definition acceptance (o : NewOrder) (ref : Z) : outbound :=
  MAccepted (field_of (n_token o) 14) (u8 (n_side o)) (i32 (n_shares o)) (field_of (n_stock o) 8)
    (field_price (price_field (n_price o))) ref (u8 (n_tif o)).
Definition execution (o : NewOrder) (number : Z) : outbound :=
  MExecuted (field_of (n_token o) 14) (i32 (n_shares o)) (field_price (price_field (n_price o))) number.
Fixpoint replies (os : list NewOrder) (ref number : Z) : list Z :=
  match os with
  | [] => []
  | o :: os' =>
      frame SEQUENCED_DATA (encode (acceptance o ref)) ++ frame SEQUENCED_DATA (encode (execution o number)) ++
      replies os' (i64 (ref + 1)) (i64 (number + 1))
  end.

Lemma field_of_nonzero s n : c_string s -> c_string (field_of s n).
Proof. intros H. by apply rstrip_nonzero, c_string_take. Qed.
Lemma encode_small m : alen (encode m) <= 65534.
Proof. destruct (encode_length m) as (t & l & _ & L). pose proof (expected_length_range t). unfold alen. lia. Qed.
Lemma length_acceptance o ref : length (encode (acceptance o ref)) = 41%nat.
Proof. destruct (encode_length (acceptance o ref)) as (t & l & E & L). injection E as <- _. change (expected_length ch_A) with 41 in L. lia. Qed.
Lemma length_execution o n : length (encode (execution o n)) = 31%nat.
Proof. destruct (encode_length (execution o n)) as (t & l & E & L). injection E as <- _. change (expected_length ch_E) with 31 in L. lia. Qed.
Lemma length_replies os : forall ref n, length (replies os ref n) = (78 * length os)%nat.
Proof.
  induction os as [|o os IH]; intros ref n; [done|]. cbn [replies].
  rewrite !length_app, !length_frame, length_acceptance, length_execution, IH. simpl length. lia.
Qed.

(** Reading at an offset of a packet inside the client's stream. *)
Lemma slice_at pre l k n : slice (length pre + k) n (pre ++ l) = slice k n l.
Proof. rewrite slice_skip by lia. f_equal. lia. Qed.
Lemma strip_at pre l k n : strip_padding (length pre + k) n (pre ++ l) = strip_padding k n l.
Proof. unfold strip_padding. by rewrite slice_at. Qed.
Lemma u32_at pre l k : read_u32_be (length pre + k) (pre ++ l) = read_u32_be k l.
Proof. unfold read_u32_be. by rewrite slice_at. Qed.
Lemma byte_at_at pre l k : byte_at (length pre + k) (pre ++ l) = byte_at k l.
Proof. unfold byte_at. by rewrite lookup_app_r, Nat.add_comm, Nat.add_sub by lia. Qed.

Lemma order_packet_frame o : order_packet o =
  frame UNSEQUENCED_DATA (encode_order (Enter (n_token o) (n_side o) (n_shares o) (n_stock o) (n_price o) (n_tif o))) /\
  length (encode_order (Enter (n_token o) (n_side o) (n_shares o) (n_stock o) (n_price o) (n_tif o))) = 33%nat.
Proof.
  assert (L : length (encode_order (Enter (n_token o) (n_side o) (n_shares o) (n_stock o) (n_price o) (n_tif o))) = 33%nat).
  { cbn [encode_order]. unfold enter_order. by rewrite ?write_u32_be_bytes, !length_app, ?length_be_bytes, ?length_padded. }
  split; [|done]. unfold order_packet, pack_enter_order. rewrite pack_data_frame; [done|].
  cbn [encode_order] in L. lia.
Qed.

Lemma order_reply_entered cap m o pre rest :
  new_order_ok o -> (length (out m) + 78 <= cap)%nat ->
  order_reply cap m (pre ++ encode_order (Enter (n_token o) (n_side o) (n_shares o) (n_stock o) (n_price o) (n_tif o)) ++ rest)
    (length pre) =
  Some (mkMock (out m ++ frame SEQUENCED_DATA (encode (acceptance o (next_ref m))) ++
                frame SEQUENCED_DATA (encode (execution o (next_match m))))
          (i64 (next_ref m + 1)) (i64 (next_match m + 1)), true).
Proof.
  intros [Ht Hs] Hc. unfold order_reply. rewrite !strip_at, !byte_at_at, !u32_at.
  cbn [encode_order]. unfold enter_order. rewrite !write_u32_be_bytes, <- !app_assoc. fields_known.
  repeat read_next. rewrite i32_u32, u32_price. cbv zeta.
  change (encode_accepted _ _ _ _ _ _ _) with (encode (acceptance o (next_ref m))).
  unfold push, room. cbn [out next_ref next_match]. pose proof (length_acceptance o (next_ref m)) as LA.
  rewrite LA, bool_decide_eq_true_2 by (unfold HEADER_SIZE; lia). cbn [negb].
  rewrite pack_data_frame by (rewrite LA; lia).
  change (encode_executed _ _ _ _) with (encode (execution o (next_match m))).
  pose proof (length_execution o (next_match m)) as LE.
  rewrite LE, length_app, length_frame, LA, bool_decide_eq_true_2 by (unfold HEADER_SIZE; lia). cbn [negb].
  rewrite pack_data_frame by (rewrite LE; lia). by rewrite <- app_assoc.
Qed.

(** One turn of the mock's loop, at a frame of the client's stream. *)
Lemma mock_step fuel cap pre t p rest s m : alen p <= 65534 ->
  let stream := pre ++ frame t p ++ rest in
  let next := mock_loop fuel cap stream s (length (pre ++ frame t p)) in
  mock_loop (S fuel) cap stream s (length pre) m =
    if t =? LOGIN_REQUEST then
      if negb (room cap m (HEADER_SIZE + (SESSION_LEN + SEQNUM_LEN))) then Some m else next (push m (login_reply s))
    else if (t =? UNSEQUENCED_DATA) && (match p with b :: _ => b =? ch_O | [] => false end) then
      '(m, go_on) ← order_reply cap m stream (length pre + HEADER_SIZE);
      if go_on : bool then next m else Some m
    else if t =? LOGOUT_REQUEST then
      if negb (room cap m HEADER_SIZE) then Some m else next (push m (pack_header END_OF_SESSION 0))
    else next m.
Proof.
  cbv zeta. intros Hp. cbn [mock_loop].
  rewrite decide_True by (rewrite !length_app, length_frame; lia).
  rewrite drop_app_length, parse_frame, bind_some by done. cbn [pvalid ptype payload negb].
  by rewrite (length_app pre), length_frame.
Qed.
Lemma mock_done fuel cap stream s m : mock_loop fuel cap stream s (length stream) m = Some m.
Proof. destruct fuel; [done|]. cbn [mock_loop]. by rewrite decide_False by lia. Qed.

Fixpoint advance (n : nat) (v : Z) : Z := match n with O => v | S n' => advance n' (i64 (v + 1)) end.
Lemma mock_orders os : forall fuel cap pre tail s m,
  Forall new_order_ok os -> (length (out m) + 78 * length os <= cap)%nat ->
  let bytes := mjoin (order_packet <$> os) in
  mock_loop (length os + fuel) cap (pre ++ bytes ++ tail) s (length pre) m =
  mock_loop fuel cap ((pre ++ bytes) ++ tail) s (length (pre ++ bytes))
    (mkMock (out m ++ replies os (next_ref m) (next_match m))
       (advance (length os) (next_ref m)) (advance (length os) (next_match m))).
Proof.
  induction os as [|o os IH]; intros fuel cap pre tail s m Ho Hc bytes.
  - unfold bytes. simpl. rewrite app_nil_r. destruct m. simpl. by rewrite app_nil_r.
  - apply Forall_cons in Ho as [Ho Hos]. simpl length in Hc.
    destruct (order_packet_frame o) as [E L]. set (p := encode_order _) in E, L.
    assert (B : bytes = frame UNSEQUENCED_DATA p ++ mjoin (order_packet <$> os)).
    { unfold bytes. simpl. by rewrite E. }
    rewrite B, <- app_assoc. change (length (o :: os)) with (S (length os)). rewrite Nat.add_succ_l.
    rewrite mock_step by (unfold alen; rewrite L; lia). cbv zeta.
    change (UNSEQUENCED_DATA =? LOGIN_REQUEST) with false. cbv iota.
    change (match p with b :: _ => b =? ch_O | [] => false end) with true.
    change ((UNSEQUENCED_DATA =? UNSEQUENCED_DATA) && true) with true. cbv iota.
    assert (S1 : pre ++ frame UNSEQUENCED_DATA p ++ mjoin (order_packet <$> os) ++ tail =
      (pre ++ pack_header UNSEQUENCED_DATA (length p)) ++ p ++ mjoin (order_packet <$> os) ++ tail).
    { unfold frame. by rewrite <- !app_assoc. }
    assert (R := order_reply_entered cap m o (pre ++ pack_header UNSEQUENCED_DATA (length p))
      (mjoin (order_packet <$> os) ++ tail) Ho ltac:(lia)). fold p in R. rewrite <- S1, length_app in R.
    change (length (pack_header UNSEQUENCED_DATA (length p))) with HEADER_SIZE in R. rewrite R, bind_some. cbv iota. clear R S1.
    assert (S2 : pre ++ frame UNSEQUENCED_DATA p ++ mjoin (order_packet <$> os) ++ tail =
      (pre ++ frame UNSEQUENCED_DATA p) ++ mjoin (order_packet <$> os) ++ tail) by by rewrite <- !app_assoc.
    rewrite S2, IH; [|done|cbn [out]; rewrite !length_app, !length_frame, length_acceptance, length_execution; lia].
    cbn [out next_ref next_match replies advance].
    by rewrite <- (app_assoc (out m)), <- (app_assoc (frame _ _)), (app_assoc pre (frame UNSEQUENCED_DATA p)).
Qed.

(** What the client makes of one accepted and filled order. *)
Definition after_order (c : OuchSessionClient) : OuchSessionClient :=
  c <| seq_ ::= observe_sequenced |> <| accepts_ ::= incr |> <| seq_ ::= observe_sequenced |> <| executes_ ::= incr |>.
Definition after_orders (n : nat) (c : OuchSessionClient) : OuchSessionClient := Nat.iter n after_order c.

Lemma on_packet_response c m : msg_ok m ->
  on_packet c (mkPacket SEQUENCED_DATA (encode m) true) =
    Some (count_response (c <| seq_ ::= observe_sequenced |>) (meaning m)).
Proof. intros H. unfold on_packet. cbn [pvalid ptype payload negb]. cbv zeta. by rewrite parse_encoded. Qed.

Lemma drains_replies os : forall ref n c rest c2 k,
  Forall new_order_ok os -> drains (after_orders (length os) c) rest c2 k ->
  drains c (replies os ref n ++ rest) c2 (length (replies os ref n) + k).
Proof.
  induction os as [|o os IH]; intros ref n c rest c2 k Ho D; [done|].
  apply Forall_cons in Ho as [[Ht Hs] Ho]. cbn [replies]. rewrite <- !app_assoc, !length_app, <- !Nat.add_assoc.
  eapply drains_frame; [apply encode_small|apply on_packet_response; split; by apply field_of_nonzero|].
  eapply drains_frame; [apply encode_small|by apply on_packet_response, field_of_nonzero|].
  apply IH; [done|]. change (length (o :: os)) with (S (length os)) in D. unfold after_orders in *.
  by rewrite Nat.iter_succ_r in D.
Qed.

(** The client at the end of a session of [n] orders that started at [s]. *)
Definition final_client (s : Z) (n : nat) : OuchSessionClient :=
  mkClient true true 0 (mkSeq (u64 (s + 2 * Z.of_nat n)) (u64 (2 * Z.of_nat n)) 0)
    (u64 (Z.of_nat n)) (u64 (Z.of_nat n)) 0 0 0 0 0 0.
Lemma after_orders_count s n : 0 <= s < 2 ^ 64 ->
  after_orders n (new_client <| logged_in_ := true |> <| seq_ := reset_to s |>) <| session_ended_ := true |> = final_client s n.
Proof.
  intros Hs. unfold after_orders, final_client. induction n as [|n IH].
  - simpl. unfold reset_to, new_client. simpl. by rewrite Z.add_0_r, u64_small by (change (2 ^ 64) with 18446744073709551616 in Hs; lia).
  - rewrite Nat.iter_succ. set (c := Nat.iter n _ _) in *. destruct c as [l e w q a x ca r rp h er ot].
    injection IH as -> -> -> -> -> -> -> -> -> -> ->. unfold after_order, observe_sequenced, incr, set_field. simpl.
    f_equal; [f_equal|..]; rewrite ?wrapu_add_l, <- ?Z.add_assoc; repeat (rewrite wrapu_add_l || rewrite <- Z.add_assoc); f_equal; lia.
Qed.

Definition login_payload (user pass session sequence : cstr) : list Z :=
  write_padded user USERNAME_LEN ++ write_padded pass PASSWORD_LEN ++ write_padded session SESSION_LEN ++
  write_padded sequence SEQNUM_LEN.
Lemma length_login user pass session sequence : length (login_payload user pass session sequence) = 46%nat.
Proof. unfold login_payload. by rewrite !length_app, !length_padded. Qed.
Lemma login_request_frame user pass session sequence :
  pack_login_request 49 user pass session sequence = frame LOGIN_REQUEST (login_payload user pass session sequence).
Proof. unfold frame. by rewrite length_login. Qed.
Definition login_answer (s : Z) : list Z := write_padded SESSION01 SESSION_LEN ++ write_padded (print_u64 s) SEQNUM_LEN.
Lemma login_reply_frame s : login_reply s = frame LOGIN_ACCEPTED (login_answer s) /\ length (login_answer s) = 30%nat.
Proof.
  assert (L : length (login_answer s) = 30%nat) by (unfold login_answer; by rewrite !length_app, !length_padded).
  split; [|done]. unfold frame. by rewrite L.
Qed.
Lemma length_orders os : length (mjoin (order_packet <$> os)) = (36 * length os)%nat.
Proof.
  induction os as [|o os IH]; [done|]. cbn [fmap list_fmap]. change (mjoin (?x :: ?l)) with (x ++ mjoin l).
  destruct (order_packet_frame o) as [E L]. rewrite length_app, IH, E, length_frame, L.
  change (length (o :: os)) with (S (length os)). lia.
Qed.

Lemma mock_session user pass os s cap :
  Forall new_order_ok os -> (36 + 78 * length os <= cap)%nat ->
  mock_exchange_respond cap (client_session user pass os) s =
    Some (login_reply s ++ replies os 7000 90000 ++ frame END_OF_SESSION []).
Proof.
  intros Ho Hc. unfold mock_exchange_respond, client_session. rewrite login_request_frame.
  set (login := frame LOGIN_REQUEST _). set (bytes := mjoin (order_packet <$> os)).
  change pack_logout_request with (frame LOGOUT_REQUEST []).
  assert (LL : length login = 49%nat) by (unfold login; by rewrite length_frame, length_login).
  assert (LS : length (login ++ bytes ++ frame LOGOUT_REQUEST []) = S (length os + S (50 + 35 * length os))).
  { unfold bytes. rewrite !length_app, length_orders, LL, length_frame. simpl length. lia. }
  rewrite LS. destruct (login_reply_frame s) as [ER LR].
  pose proof (mock_step (length os + S (50 + 35 * length os)) cap [] LOGIN_REQUEST (login_payload user pass [] [48])
    (bytes ++ frame LOGOUT_REQUEST []) s (mkMock [] 7000 90000)) as E1.
  cbv zeta in E1. change (LOGIN_REQUEST =? LOGIN_REQUEST) with true in E1. cbv iota in E1.
  unfold room at 1 in E1. rewrite bool_decide_eq_true_2 in E1 by (unfold HEADER_SIZE, SESSION_LEN, SEQNUM_LEN; simpl out; simpl length; lia).
  rewrite !app_nil_l in E1. fold login in E1. change (length []) with 0%nat in E1. rewrite E1 by (unfold alen; rewrite length_login; lia).
  cbn [negb]. clear E1.
  assert (LR' : length (login_reply s) = 33%nat) by (rewrite ER, length_frame, LR; done).
  pose proof (mock_orders os (S (50 + 35 * length os)) cap login (frame LOGOUT_REQUEST []) s
    (push (mkMock [] 7000 90000) (login_reply s)) Ho) as E2. cbv zeta in E2. fold bytes in E2.
  rewrite E2 by (unfold push; cbn [out]; rewrite app_nil_l, LR'; lia). clear E2.
  unfold push. cbn [out next_ref next_match]. rewrite app_nil_l.
  pose proof (mock_step (50 + 35 * length os) cap (login ++ bytes) LOGOUT_REQUEST [] [] s) as E3. cbv zeta in E3.
  rewrite !app_nil_r in E3. rewrite E3 by done. clear E3.
  change (LOGOUT_REQUEST =? LOGIN_REQUEST) with false. change (LOGOUT_REQUEST =? UNSEQUENCED_DATA) with false.
  change (LOGOUT_REQUEST =? LOGOUT_REQUEST) with true. cbn [andb]. cbv iota.
  unfold room. cbn [out]. rewrite bool_decide_eq_true_2 by (rewrite length_app, length_replies, LR'; unfold HEADER_SIZE; lia).
  cbn [negb]. rewrite mock_done, bind_some. unfold push. cbn [out]. by rewrite <- app_assoc.
Qed.

(** a session with the exchange, end to end over the wire.  The client
    logs in, enters any orders and logs out; the exchange's mock answers; the
    client consumes the answer.  It ends logged in and the session ended, every
    order was accepted and executed exactly once, nothing was an error, and the
    next sequence number is the start of the session plus two per order. *)
Lemma soup_session_filled user pass os s cap :
  Forall new_order_ok os -> 0 < s < 2 ^ 64 -> (36 + 78 * length os <= cap)%nat ->
  exists reply,
    mock_exchange_respond cap (client_session user pass os) s = Some reply /\
    consume new_client reply = Some (final_client s (length os), length reply).
Proof.
  intros Ho Hs Hc. eexists. split; [by apply mock_session|]. destruct (login_reply_frame s) as [-> LA].
  apply consume_eq. rewrite !length_app. rewrite <- (after_orders_count s (length os)) by lia.
  eapply drains_frame; [unfold alen; rewrite LA; lia| |].
  { unfold on_packet. cbn [pvalid ptype payload negb]. change (LOGIN_ACCEPTED =? LOGIN_ACCEPTED) with true. cbv iota zeta.
    rewrite decide_True by (rewrite LA; unfold SESSION_LEN, SEQNUM_LEN; lia).
    unfold login_answer. rewrite (slice_skip_n _ _ _ _ 10 0) by (try apply length_padded; done).
    rewrite slice_end by (apply length_padded || done). rewrite bind_some, seqnum_roundtrip by lia.
    destruct (Z.eqb_spec s 0); [lia|reflexivity]. }
  apply drains_replies; [done|]. rewrite <- (app_nil_r (frame END_OF_SESSION [])) at 1.
  replace (length (frame END_OF_SESSION [])) with (length (frame END_OF_SESSION []) + 0)%nat by lia.
  eapply drains_frame; [done|reflexivity|apply drains_nil].
Qed.

Definition demo_order : NewOrder := mkNew TOK1 66 100 [77; 83; 70; 84] (dratio 41050 100) 68.
Lemma soup_session_filled_witness :
  exists reply,
    mock_exchange_respond 200 (client_session [85] [80] [demo_order; demo_order]) 500 = Some reply /\
    consume new_client reply = Some (final_client 500 2, length reply).
Proof.
  apply (soup_session_filled [85] [80] [demo_order; demo_order] 500 200); [|lia|simpl; lia].
  repeat constructor; lia.
Defined.

(** A payload that starts with 'O' but is shorter than an order makes the mock
    read past the bytes it was given. *)
Example mock_reads_past_the_stream : mock_exchange_respond 200 (frame UNSEQUENCED_DATA [79]) 1 = None.
Proof. by vm_compute. Qed.
