(* ===== verification/OuchTracker.v ===== *)
(** * OuchTracker: the client's view of its OUCH orders

    [ouch-protocol/ouch_order_state.hpp].  Orders are keyed by token; responses
    of the exchange change the order, the session's counters, and the filled
    quantities and notionals of the two sides together. *)
From S2P Require Import Prelude Double Common Bytes Ouch.

Inductive OrderState := NEW | LIVE | PARTIAL | FILLED | CANCELLED | REJECTED.
#[export] Instance order_state_eq_dec : EqDecision OrderState.
Proof. solve_decision. Defined.
Definition order_state_str (s : OrderState) : string :=
  match s with
  | NEW => "NEW" | LIVE => "LIVE" | PARTIAL => "PARTIAL" | FILLED => "FILLED"
  | CANCELLED => "CANCELLED" | REJECTED => "REJECTED"
  end.
Definition is_working (s : OrderState) : bool := match s with LIVE | PARTIAL => true | _ => false end.
Definition is_terminal (s : OrderState) : bool := match s with FILLED | CANCELLED | REJECTED => true | _ => false end.

(** [Record], by the source's field names. *)
Record Rec := mkRec {
  state : OrderState; original : Z; remaining : Z; filled : Z; rec_ref : Z; pending_cancel : bool;
  fill_notional : double; side : Z; price : double }.
#[export] Instance eta_rec : Settable Rec := fun r =>
  mkRec (state r) (original r) (remaining r) (filled r) (rec_ref r) (pending_cancel r) (fill_notional r) (side r) (price r).

Record Tracker := mkTracker {
  orders_ : gmap cstr Rec;
  live_ : Z; filled_ : Z; cancelled_ : Z; rejected_ : Z; broken_ : Z;
  ordered_shares_ : Z; broken_shares_ : Z; exec_count_ : Z; exec_shares_ : Z; max_exec_shares_ : Z;
  min_exec_shares_ : Z; cancelled_shares_ : Z; last_reject_reason_ : Z; responses_ : Z; cancel_rejects_ : Z;
  replaced_ : Z; desyncs_ : Z; session_fill_notional_ : double; bought_shares_ : Z; sold_shares_ : Z;
  buy_notional_ : double; sell_notional_ : double }.
#[export] Instance eta_tracker : Settable Tracker := fun t =>
  mkTracker (orders_ t) (live_ t) (filled_ t) (cancelled_ t) (rejected_ t) (broken_ t) (ordered_shares_ t)
    (broken_shares_ t) (exec_count_ t) (exec_shares_ t) (max_exec_shares_ t) (min_exec_shares_ t)
    (cancelled_shares_ t) (last_reject_reason_ t) (responses_ t) (cancel_rejects_ t) (replaced_ t) (desyncs_ t)
    (session_fill_notional_ t) (bought_shares_ t) (sold_shares_ t) (buy_notional_ t) (sell_notional_ t).
(** The initial tracker and the effect of [reset_session]. *)
Definition reset_session : Tracker :=
  mkTracker ∅ 0 0 0 0 0 0 0 0 0 0 0 0 0 0 0 0 0 d_zero 0 0 d_zero d_zero.

Definition incr (n : Z) : Z := u64 (n + 1).
Definition add64 (d : Z) (n : Z) : Z := i64 (n + d).
(** The first character of [char side[5]], a space for the empty string. *)
Definition side_char (s : string) : Z :=
  match s with EmptyString => SPACE | String c _ => Z.of_nat (Ascii.nat_of_ascii c) end.

Definition on_new (t : Tracker) (tok : cstr) (shares : Z) : Tracker :=
  t <| orders_ ::= <[tok := mkRec NEW shares shares 0 0 false d_zero SPACE d_zero]> |>
    <| ordered_shares_ ::= add64 shares |>.
Definition on_cancel_sent (t : Tracker) (tok : cstr) : Tracker :=
  match orders_ t !! tok with
  | Some rec => if is_working (state rec) then t <| orders_ ::= <[tok := rec <| pending_cancel := true |>]> |> else t
  | None => t
  end.
Definition is_pending_cancel (t : Tracker) (tok : cstr) : bool :=
  match orders_ t !! tok with Some rec => pending_cancel rec | None => false end.

(** ** Responses *)

Definition set_rec (tok : cstr) (rec : Rec) (t : Tracker) : OrderState * Tracker :=
  (state rec, t <| orders_ ::= <[tok := rec]> |>).
Definition desync (t : Tracker) : OrderState * Tracker := (REJECTED, t <| rejected_ ::= incr |> <| desyncs_ ::= incr |>).

Definition on_replaced (t : Tracker) (r : OUCHResponse) : OrderState * Tracker :=
  match orders_ t !! prev_token r with
  | None => desync t
  | Some rec =>
      let moved := rec <| remaining := rshares r |> <| rec_ref := order_ref r |> <| pending_cancel := false |>
        <| price := rprice r |> <| state := if 0 <? filled rec then PARTIAL else LIVE |> in
      set_rec (token r) moved (t <| orders_ ::= delete (prev_token r) |> <| replaced_ ::= incr |>)
  end.
Definition on_accepted (t : Tracker) (rec : Rec) (r : OUCHResponse) : OrderState * Tracker :=
  set_rec (token r) (rec <| state := LIVE |> <| rec_ref := order_ref r |> <| side := side_char (rside r) |>
    <| price := rprice r |>) (t <| live_ ::= incr |>).

(** The session's counters of an execution of [exec] > 0 shares. *)
Definition count_execution (t : Tracker) (s : Z) (exec : Z) (notional : double) : Tracker :=
  let t := t <| exec_shares_ ::= add64 exec |> <| exec_count_ ::= incr |>
    <| max_exec_shares_ ::= fun m => if m <? exec then exec else m |>
    <| min_exec_shares_ ::= fun m => if (m =? 0) || (exec <? m) then exec else m |>
    <| session_fill_notional_ ::= fun n => dadd n notional |> in
  if s =? ch_B then t <| bought_shares_ ::= add64 exec |> <| buy_notional_ ::= fun n => dadd n notional |>
  else if s =? ch_S then t <| sold_shares_ ::= add64 exec |> <| sell_notional_ ::= fun n => dadd n notional |>
  else t.
Definition on_executed (t : Tracker) (rec : Rec) (r : OUCHResponse) : OrderState * Tracker :=
  if is_terminal (state rec) then (state rec, t) else
  let exec := if rshares r <? remaining rec then rshares r else remaining rec in
  let notional := dmul (rprice r) (dbl_of_Z exec) in
  let rec := rec <| filled ::= fun n => i32 (n + exec) |> <| remaining ::= fun n => i32 (n - exec) |> in
  let rec := if 0 <? exec then rec <| fill_notional ::= fun n => dadd n notional |> else rec in
  let t := if 0 <? exec then count_execution t (side rec) exec notional else t in
  if remaining rec <=? 0 then set_rec (token r) (rec <| state := FILLED |>) (t <| filled_ ::= incr |>)
  else if 0 <? exec then set_rec (token r) (rec <| state := PARTIAL |>) t
  else set_rec (token r) rec t.
Definition on_cancelled (t : Tracker) (rec : Rec) (r : OUCHResponse) : OrderState * Tracker :=
  set_rec (token r) (rec <| state := CANCELLED |> <| remaining := 0 |> <| pending_cancel := false |>)
    (t <| cancelled_shares_ ::= add64 (remaining rec) |> <| cancelled_ ::= incr |>).

(** [x -= x * (back / total)]. *)
Definition unwind (x : double) (back total : Z) : double :=
  dsub x (dmul x (ddiv (dbl_of_Z back) (dbl_of_Z total))).
Definition uncount_side (t : Tracker) (s : Z) (back : Z) : Tracker :=
  if s =? ch_B then
    t <| buy_notional_ ::= fun n => if 0 <? bought_shares_ t then unwind n back (bought_shares_ t) else n |>
      <| bought_shares_ ::= add64 (- back) |>
  else if s =? ch_S then
    t <| sell_notional_ ::= fun n => if 0 <? sold_shares_ t then unwind n back (sold_shares_ t) else n |>
      <| sold_shares_ ::= add64 (- back) |>
  else t.
Definition on_broken (t : Tracker) (rec : Rec) (r : OUCHResponse) : OrderState * Tracker :=
  let back := if rshares r <? filled rec then rshares r else filled rec in
  let rec := if (0 <? back) && (0 <? filled rec)
             then rec <| fill_notional ::= fun n => unwind n back (filled rec) |> else rec in
  let rec := rec <| filled ::= fun n => i32 (n - back) |> <| remaining ::= fun n => i32 (n + back) |> in
  let t := uncount_side t (side rec) back in
  set_rec (token r) (rec <| state := if 0 <? filled rec then PARTIAL else LIVE |>)
    (t <| broken_ ::= incr |> <| broken_shares_ ::= add64 back |>).
Definition on_aiq (t : Tracker) (rec : Rec) (r : OUCHResponse) : OrderState * Tracker :=
  let dec := if rshares r <? remaining rec then rshares r else remaining rec in
  let t := t <| cancelled_shares_ ::= add64 dec |> in
  let rec := rec <| remaining ::= fun n => i32 (n - dec) |> in
  if remaining rec =? 0
  then set_rec (token r) (rec <| state := CANCELLED |> <| pending_cancel := false |>) (t <| cancelled_ ::= incr |>)
  else set_rec (token r) rec t.

Definition on_response (t : Tracker) (r : OUCHResponse) : OrderState * Tracker :=
  let t := t <| responses_ ::= incr |> in
  if String.eqb (rtype r) "REPLACED" then on_replaced t r else
  match orders_ t !! token r with
  | None => desync t
  | Some rec =>
      if String.eqb (rtype r) "ACCEPTED" then on_accepted t rec r else
      if String.eqb (rtype r) "EXECUTED" then on_executed t rec r else
      if String.eqb (rtype r) "CANCELLED" then on_cancelled t rec r else
      if String.eqb (rtype r) "BROKEN" then on_broken t rec r else
      if String.eqb (rtype r) "CXL_PEND" then set_rec (token r) (rec <| pending_cancel := true |>) t else
      if String.eqb (rtype r) "CXL_REJECT" then
        set_rec (token r) (rec <| pending_cancel := false |>) (t <| cancel_rejects_ ::= incr |>) else
      if String.eqb (rtype r) "RESTATED" then
        set_rec (token r) (rec <| remaining := rshares r |> <| price := rprice r |>) t else
      if String.eqb (rtype r) "AIQ_CXL" then on_aiq t rec r else
      if String.eqb (rtype r) "REJECTED" then
        set_rec (token r) (rec <| state := REJECTED |>)
          (t <| last_reject_reason_ ::= fun c => if reason r =? 0 then c else reason r |> <| rejected_ ::= incr |>) else
      set_rec (token r) (rec <| state := REJECTED |>) (t <| rejected_ ::= incr |>)
  end.

(** ** Queries *)

Definition per (x y : Z) : double := if 0 <? y then ddiv (dbl_of_Z x) (dbl_of_Z y) else d_zero.
Definition dper (x : double) (y : Z) : double := if 0 <? y then ddiv x (dbl_of_Z y) else d_zero.
Section tracker_queries.
Context `{HashOrder}.
Context (t : Tracker).
#[local] Abbreviation recs := (values (orders_ t)).

Definition tok_state (tok : cstr) : OrderState := match orders_ t !! tok with Some r => state r | None => REJECTED end.
Definition tok_remaining (tok : cstr) : Z := match orders_ t !! tok with Some r => remaining r | None => 0 end.
Definition tok_filled (tok : cstr) : Z := match orders_ t !! tok with Some r => filled r | None => 0 end.
Definition filled_fraction (tok : cstr) : double :=
  match orders_ t !! tok with Some r => per (filled r) (i32 (filled r + remaining r)) | None => d_zero end.
Definition avg_fill_price (tok : cstr) : double :=
  match orders_ t !! tok with Some r => dper (fill_notional r) (filled r) | None => d_zero end.
Definition fill_vwap : double := dper (session_fill_notional_ t) (exec_shares_ t).
Definition order_count : Z := Z.of_nat (size (orders_ t)).

(** An [int32_t] sum over the orders, in the map's order. *)
Definition sum32 (f : Rec -> Z) : Z := foldl (fun s r => i32 (s + f r)) 0 recs.
Definition dsum (f : Rec -> double) (p : Rec -> bool) : double :=
  foldl (fun s r => if p r then dadd s (f r) else s) d_zero recs.
Definition only (p : Rec -> bool) (f : Rec -> Z) (r : Rec) : Z := if p r then f r else 0.
Definition working (r : Rec) : bool := is_working (state r).
Definition working_on (s : Z) (r : Rec) : bool := working r && (side r =? s).
Definition open_notional (r : Rec) : double := dmul (dbl_of_Z (remaining r)) (price r).

Definition total_filled_shares : Z := sum32 filled.
Definition total_remaining_shares : Z := sum32 remaining.
Definition working_shares : Z := sum32 (only working remaining).
Definition largest_remaining : Z :=
  foldl (fun mx r => if working r && (mx <? remaining r) then remaining r else mx) 0 recs.
Definition working_shares_side (s : Z) : Z := sum32 (only (working_on s) remaining).
Definition working_notional : double := dsum open_notional working.
Definition working_notional_side (s : Z) : double := dsum open_notional (working_on s).
Definition net_working_notional : double := dsub (working_notional_side ch_B) (working_notional_side ch_S).
Definition working_vwap (s : Z) : double := dper (working_notional_side s) (working_shares_side s).
Definition net_filled_shares : Z := i64 (bought_shares_ t - sold_shares_ t).
Definition avg_buy_price : double := dper (buy_notional_ t) (bought_shares_ t).
Definition avg_sell_price : double := dper (sell_notional_ t) (sold_shares_ t).
Definition both_sides : bool := (0 <? bought_shares_ t) && (0 <? sold_shares_ t).
Definition realized_spread_capture : double := if both_sides then dsub avg_sell_price avg_buy_price else d_zero.
Definition realized_spread_capture_bps : double :=
  if both_sides && dgt avg_buy_price d_zero
  then dmul (ddiv (dsub avg_sell_price avg_buy_price) avg_buy_price) (dbl_of_Z 10000) else d_zero.
Definition net_cash_flow : double := dsub (sell_notional_ t) (buy_notional_ t).
Definition mark_to_market_pnl (mark_price : double) : double :=
  dadd net_cash_flow (dmul (dbl_of_Z net_filled_shares) mark_price).
Definition realized_pnl : double :=
  let matched := if bought_shares_ t <? sold_shares_ t then bought_shares_ t else sold_shares_ t in
  if 0 <? matched then dmul (dbl_of_Z matched) (dsub avg_sell_price avg_buy_price) else d_zero.
Definition unrealized_pnl (mark_price : double) : double := dsub (mark_to_market_pnl mark_price) realized_pnl.
Definition breakeven_mark : double :=
  if net_filled_shares =? 0 then d_zero else ddiv (dneg net_cash_flow) (dbl_of_Z net_filled_shares).
Definition net_working_shares : Z := i32 (working_shares_side ch_B - working_shares_side ch_S).
Definition projected_net_shares : Z := i32 (i32 net_filled_shares + net_working_shares).
(** The size and what is copied to the caller's [char[15]]. *)
Definition largest_remaining_token : Z * cstr :=
  let best := foldl (fun acc kv => if working kv.2 && (acc.1 <? remaining kv.2) then (remaining kv.2, Some kv.1) else acc)
                (0, None) (entries (orders_ t)) in
  (best.1, match best.2 with Some tok => take 14 tok | None => [] end).
Definition avg_working_shares : double :=
  let n := count_if working recs in
  if 0 <? n then ddiv (dbl_of_Z (sum32 (only working remaining))) (dbl_of_Z n) else d_zero.
Definition active_count : Z := count_if (fun r => negb (is_terminal (state r))) recs.
Definition cancel_pending_count : Z := count_if pending_cancel recs.
Definition pending_cancel_shares : Z := sum32 (only pending_cancel remaining).
Definition pending_cancel_fraction : double := per pending_cancel_shares working_shares.
Definition pending_cancel_notional : double := dsum open_notional pending_cancel.
Definition status_count (st : OrderState) : Z := count_if (fun r => bool_decide (state r = st)) recs.
Definition fill_rate : double := per total_filled_shares (ordered_shares_ t).
Definition desync_rate : double := per (desyncs_ t) (responses_ t).
Definition broken_share_rate : double := per (broken_shares_ t) (ordered_shares_ t).
Definition cancelled_share_rate : double := per (cancelled_shares_ t) (ordered_shares_ t).
Definition cancel_to_fill_ratio : double := per (cancelled_shares_ t) total_filled_shares.
Definition reject_rate : double := per (rejected_ t) order_count.
Definition cancel_rate : double := per (cancelled_ t) order_count.
Definition order_fill_rate : double := per (filled_ t) order_count.
Definition avg_exec_shares : double := per (exec_shares_ t) (exec_count_ t).
Definition avg_order_size : double := per (ordered_shares_ t) order_count.
Definition executions_per_order : double := per (exec_count_ t) order_count.
End tracker_queries.

(** ** Traces, and the exchanges that keep the books straight *)

Inductive event := New (tok : cstr) (shares : Z) | CancelSent (tok : cstr) | Response (r : OUCHResponse).
Definition tstep (t : Tracker) (e : event) : Tracker :=
  match e with
  | New tok shares => on_new t tok shares
  | CancelSent tok => on_cancel_sent t tok
  | Response r => (on_response t r).2
  end.

(** What the session relies on: tokens are not reused, sizes are not negative
    and fit an [int32_t] with what is filled, an order is accepted before it
    fills, and only a working order is restated. *)
Definition fits (rec : Rec) (n : Z) : bool := (0 <=? n) && (filled rec + n <=? INT32_MAX).
Definition orderly (t : Tracker) (e : event) : bool :=
  match e with
  | New tok shares => bool_decide (orders_ t !! tok = None) && (0 <=? shares) && (shares <=? INT32_MAX)
  | CancelSent _ => true
  | Response r =>
      if String.eqb (rtype r) "REPLACED" then
        match orders_ t !! prev_token r with
        | Some rec => fits rec (rshares r) &&
            (bool_decide (token r = prev_token r) || bool_decide (orders_ t !! token r = None))
        | None => true
        end
      else match orders_ t !! token r with
      | Some rec =>
          if String.eqb (rtype r) "ACCEPTED" then filled rec =? 0
          else if String.eqb (rtype r) "RESTATED" then is_working (state rec) && fits rec (rshares r)
          else 0 <=? rshares r
      | None => true
      end
  end.
(** The change of size the exchange made on its own. *)
Definition resized (t : Tracker) (e : event) : Z :=
  match e with
  | Response r =>
      if String.eqb (rtype r) "REPLACED" then
        match orders_ t !! prev_token r with Some rec => rshares r - remaining rec | None => 0 end
      else if String.eqb (rtype r) "RESTATED" then
        match orders_ t !! token r with Some rec => rshares r - remaining rec | None => 0 end
      else 0
  | _ => 0
  end.
Fixpoint orderly_trace (t : Tracker) (es : list event) : bool :=
  match es with [] => true | e :: es' => orderly t e && orderly_trace (tstep t e) es' end.
Fixpoint resized_total (t : Tracker) (es : list event) : Z :=
  match es with [] => 0 | e :: es' => resized t e + resized_total (tstep t e) es' end.

(** ** The counters against the orders *)

Definition filled_on (s : Z) (r : Rec) : Z := if side r =? s then filled r else 0.
Record rec_ok (r : Rec) : Prop := {
  ro_filled : 0 <= filled r;
  ro_remaining : 0 <= remaining r;
  ro_fits : filled r + remaining r <= INT32_MAX;
  ro_done : state r = FILLED -> remaining r = 0;
  ro_new : state r = NEW -> filled r = 0
}.
(** [ex], [br], [od] and [ca] are what the counters [exec_shares_],
    [broken_shares_], [ordered_shares_] and [cancelled_shares_] would hold if
    they did not wrap, [adj] the exchange's own changes of size. *)
Record tracker_inv (t : Tracker) (ex br od ca adj : Z) : Prop := {
  ti_recs : forall tok r, orders_ t !! tok = Some r -> rec_ok r;
  ti_bought : bought_shares_ t = i64 (msum (fun _ => filled_on ch_B) (orders_ t));
  ti_sold : sold_shares_ t = i64 (msum (fun _ => filled_on ch_S) (orders_ t));
  ti_exec : exec_shares_ t = i64 ex;
  ti_broken : broken_shares_ t = i64 br;
  ti_ordered : ordered_shares_ t = i64 od;
  ti_cancelled : cancelled_shares_ t = i64 ca;
  ti_net : msum (fun _ => filled) (orders_ t) = ex - br;
  ti_conserved : msum (fun _ r => filled r + remaining r) (orders_ t) + ca = od + adj
}.

Lemma keep64 x y : x = i64 y -> x = add64 0 x.
Proof. intros ->. unfold add64. by rewrite Z.add_0_r, wraps_wraps. Qed.
Lemma add64_wrap x y d : x = i64 y -> add64 d x = i64 (y + d).
Proof. intros ->. unfold add64. by rewrite wraps_add_l. Qed.

(** One order changes and the counters follow. *)
Lemma tracker_update t t' ex br od ca adj tok r r' de db dc :
  tracker_inv t ex br od ca adj -> orders_ t !! tok = Some r ->
  orders_ t' = <[tok := r']> (orders_ t) -> rec_ok r' ->
  bought_shares_ t' = add64 (filled_on ch_B r' - filled_on ch_B r) (bought_shares_ t) ->
  sold_shares_ t' = add64 (filled_on ch_S r' - filled_on ch_S r) (sold_shares_ t) ->
  exec_shares_ t' = add64 de (exec_shares_ t) -> broken_shares_ t' = add64 db (broken_shares_ t) ->
  ordered_shares_ t' = ordered_shares_ t -> cancelled_shares_ t' = add64 dc (cancelled_shares_ t) ->
  filled r' - filled r = de - db ->
  tracker_inv t' (ex + de) (br + db) od (ca + dc)
    (adj + (filled r' + remaining r' + dc - filled r - remaining r)).
Proof.
  intros [I1 I2 I3 I4 I5 I6 I7 I8 I9] Hr Ho Hok Hb Hs He Hbr Hod Hc Hd. split.
  - rewrite Ho. intros k x [[_ <-]|[_ Hx]]%lookup_insert_Some; [done|by apply (I1 k)].
  - rewrite Hb, (add64_wrap _ _ _ I2), Ho, (msum_insert _ _ _ r) by done. f_equal. lia.
  - rewrite Hs, (add64_wrap _ _ _ I3), Ho, (msum_insert _ _ _ r) by done. f_equal. lia.
  - rewrite He. by apply add64_wrap.
  - rewrite Hbr. by apply add64_wrap.
  - congruence.
  - rewrite Hc. by apply add64_wrap.
  - rewrite Ho, (msum_insert _ _ _ r) by done. lia.
  - rewrite Ho, (msum_insert _ _ _ r) by done. cbv beta. lia.
Qed.

(** The tracker's step is summed up by a step on the exact counters. *)
Definition step_ok (t t' : Tracker) (da : Z) : Prop := forall ex br od ca adj,
  tracker_inv t ex br od ca adj -> exists ex' br' od' ca', tracker_inv t' ex' br' od' ca' (adj + da).

Lemma step_same t t' : orders_ t' = orders_ t -> bought_shares_ t' = bought_shares_ t -> sold_shares_ t' = sold_shares_ t ->
  exec_shares_ t' = exec_shares_ t -> broken_shares_ t' = broken_shares_ t ->
  ordered_shares_ t' = ordered_shares_ t -> cancelled_shares_ t' = cancelled_shares_ t -> step_ok t t' 0.
Proof.
  intros E1 E2 E3 E4 E5 E6 E7 ex br od ca adj [I1 I2 I3 I4 I5 I6 I7 I8 I9]. exists ex, br, od, ca.
  rewrite Z.add_0_r. split; by rewrite ?E1, ?E2, ?E3, ?E4, ?E5, ?E6, ?E7.
Qed.
Lemma step_trans t t1 t2 a b : step_ok t t1 a -> step_ok t1 t2 b -> step_ok t t2 (a + b).
Proof.
  intros H1 H2 ex br od ca adj I. destruct (H1 _ _ _ _ _ I) as (? & ? & ? & ? & I1).
  destruct (H2 _ _ _ _ _ I1) as (ex2 & br2 & od2 & ca2 & I2). exists ex2, br2, od2, ca2. by rewrite Z.add_assoc.
Qed.

(** A step on one order that leaves its fills alone and takes [dc] of it back. *)
Lemma step_keep t t' tok r r' dc da :
  orders_ t !! tok = Some r -> orders_ t' = <[tok := r']> (orders_ t) ->
  (rec_ok r -> rec_ok r' /\ filled r' = filled r /\ (side r' = side r \/ filled r = 0) /\ da = remaining r' + dc - remaining r) ->
  bought_shares_ t' = bought_shares_ t -> sold_shares_ t' = sold_shares_ t ->
  exec_shares_ t' = exec_shares_ t -> broken_shares_ t' = broken_shares_ t -> ordered_shares_ t' = ordered_shares_ t ->
  (cancelled_shares_ t' = cancelled_shares_ t /\ dc = 0) \/ cancelled_shares_ t' = add64 dc (cancelled_shares_ t) ->
  step_ok t t' da.
Proof.
  intros Hr Ho Hk Eb Es Ee Ebr Eo Ec ex br od ca adj I. pose proof I as [I1 I2 I3 I4 I5 I6 I7 I8 I9].
  destruct (Hk (I1 _ _ Hr)) as (Hok & Hf & Hs & ->).
  assert (F : forall s, filled_on s r' - filled_on s r = 0).
  { intros s. unfold filled_on. rewrite Hf. destruct Hs as [->| ->]; [|repeat case_match]; lia. }
  exists (ex + 0), (br + 0), od, (ca + dc).
  replace (remaining r' + dc - remaining r) with (filled r' + remaining r' + dc - filled r - remaining r) by lia.
  eapply (tracker_update t t' _ _ _ _ _ tok r r' 0 0 dc); rewrite ?F, ?Eb, ?Es, ?Ee, ?Ebr; try done; try lia;
    try by eapply keep64.
  destruct Ec as [[-> ->]| ->]; [by eapply keep64|done].
Qed.

Ltac rec_easy := let K := fresh in intros K; destruct K; split; [split; cbn in *; try done; lia|cbn; repeat split; auto; lia].

Lemma cancel_sent_step t tok : step_ok t (on_cancel_sent t tok) 0.
Proof.
  unfold on_cancel_sent. destruct (orders_ t !! tok) as [r|] eqn:Hr; [|by apply step_same].
  destruct (is_working (state r)); [|by apply step_same].
  eapply (step_keep t _ tok r _ 0); [done|reflexivity|rec_easy|done..|by left].
Qed.
Lemma new_step t tok n : orders_ t !! tok = None -> 0 <= n <= INT32_MAX -> step_ok t (on_new t tok n) 0.
Proof.
  intros Hr Hn ex br od ca adj [I1 I2 I3 I4 I5 I6 I7 I8 I9]. exists ex, br, (od + n), ca. unfold on_new, set_field.
  split; cbn [orders_ bought_shares_ sold_shares_ exec_shares_ broken_shares_ ordered_shares_ cancelled_shares_]; try done.
  - intros k x [[_ <-]|[_ Hx]]%lookup_insert_Some; [split; cbn; done || lia|by apply (I1 k)].
  - rewrite msum_insert_new by done. exact I2.
  - rewrite msum_insert_new by done. exact I3.
  - by apply add64_wrap.
  - rewrite msum_insert_new by done. exact I8.
  - rewrite msum_insert_new by done. cbn. lia.
Qed.
Lemma replaced_step t r : orderly t (Response r) = true -> rtype r = "REPLACED"%string ->
  step_ok t (on_replaced t r).2 (resized t (Response r)).
Proof.
  unfold orderly, resized, on_replaced. intros Ho E. rewrite E in *. cbn [String.eqb Ascii.eqb Bool.eqb] in *.
  destruct (orders_ t !! prev_token r) as [rec|] eqn:Hr; [|by apply step_same].
  unfold fits in Ho. bsplit. intros ex br od ca adj [I1 I2 I3 I4 I5 I6 I7 I8 I9].
  pose proof (I1 _ _ Hr) as [R1 R2 R3 R4 R5]. exists ex, br, od, ca.
  assert (D : delete (prev_token r) (orders_ t) !! token r = None).
  { apply lookup_delete_None. destruct (bool_decide (token r = prev_token r)) eqn:B; [left; symmetry; by apply bool_decide_eq_true in B|].
    right. by apply bool_decide_eq_true in H0. }
  cbv zeta. unfold set_rec, set_field. cbn [snd].
  split; cbn [orders_ bought_shares_ sold_shares_ exec_shares_ broken_shares_ ordered_shares_ cancelled_shares_]; try done;
    try (rewrite msum_insert_new, (msum_delete _ _ _ rec) by done).
  - intros k x [[_ <-]|[_ Hx]]%lookup_insert_Some; [|apply lookup_delete_Some in Hx as [_ Hx]; by apply (I1 k)].
    split; cbn; try lia; destruct (Z.ltb_spec 0 (filled rec)); try done; lia.
  - rewrite I2. f_equal. unfold filled_on. cbn. lia.
  - rewrite I3. f_equal. unfold filled_on. cbn. lia.
  - rewrite <- I8. cbn. lia.
  - cbn. lia.
Qed.

Section responses.
Context (t : Tracker) (r : OUCHResponse) (rec : Rec) (Hr : orders_ t !! token r = Some rec).

Lemma accepted_step : filled rec = 0 -> step_ok t (on_accepted t rec r).2 0.
Proof.
  intros H0. unfold on_accepted, set_rec. cbn [snd].
  eapply (step_keep _ _ (token r) rec _ 0); [done|reflexivity| |done..|by left].
  intros K; destruct K; split; [split; cbn in *; done || lia|cbn; repeat split; auto; lia].
Qed.
Lemma cancelled_step : step_ok t (on_cancelled t rec r).2 0.
Proof.
  unfold on_cancelled, set_rec. cbn [snd].
  eapply (step_keep _ _ (token r) rec _ (remaining rec)); [done|reflexivity|rec_easy|done..|by right].
Qed.
Lemma restated_step : is_working (state rec) = true -> fits rec (rshares r) = true ->
  step_ok t (set_rec (token r) (rec <| remaining := rshares r |> <| price := rprice r |>) t).2 (rshares r - remaining rec).
Proof.
  unfold fits. intros Hw Hf. bsplit. unfold set_rec. cbn [snd].
  eapply (step_keep _ _ (token r) rec _ 0); [done|reflexivity| |done..|by left].
  intros K; destruct K; split; [split; cbn in *; try done; try lia|cbn; repeat split; auto; lia].
  intros E. by rewrite E in Hw.
Qed.
Lemma aiq_step : 0 <= rshares r -> step_ok t (on_aiq t rec r).2 0.
Proof.
  intros H0. unfold on_aiq. set (dec := if rshares r <? remaining rec then rshares r else remaining rec). cbv zeta.
  assert (Hd : rec_ok rec -> 0 <= dec <= remaining rec) by (intros []; unfold dec; zcases).
  assert (Hi : rec_ok rec -> i32 (remaining rec - dec) = remaining rec - dec).
  { intros K. specialize (Hd K). destruct K. unfold INT32_MAX in *. apply i32_small. lia. }
  unfold set_field at 1. cbn [remaining]. destruct (Z.eqb_spec (i32 (remaining rec - dec)) 0) as [E|E]; unfold set_rec; cbn [snd];
    (eapply (step_keep _ _ (token r) rec _ dec); [done|reflexivity| |done..|by right]);
    intros K; specialize (Hd K); specialize (Hi K); destruct K as [K1 K2 K3 K4 K5]; rewrite Hi in *;
    (split; [split; cbn; rewrite ?Hi; try done; try lia|cbn; rewrite ?Hi; repeat split; auto; lia]).
  intros S. rewrite (K4 S) in *. lia.
Qed.
Lemma count_execution_facts u s exec n :
  let u' := count_execution u s exec n in
  orders_ u' = orders_ u /\ bought_shares_ u' = (if s =? ch_B then add64 exec else id) (bought_shares_ u) /\
  sold_shares_ u' = (if s =? ch_S then add64 exec else id) (sold_shares_ u) /\ exec_shares_ u' = add64 exec (exec_shares_ u) /\
  broken_shares_ u' = broken_shares_ u /\ ordered_shares_ u' = ordered_shares_ u /\ cancelled_shares_ u' = cancelled_shares_ u.
Proof.
  unfold count_execution. cbv zeta. destruct (Z.eqb_spec s ch_B) as [->|]; [done|]. by destruct (s =? ch_S).
Qed.
Lemma uncount_side_facts u s back :
  let u' := uncount_side u s back in
  orders_ u' = orders_ u /\ exec_shares_ u' = exec_shares_ u /\ ordered_shares_ u' = ordered_shares_ u /\
  cancelled_shares_ u' = cancelled_shares_ u /\ broken_shares_ u' = broken_shares_ u /\
  bought_shares_ u' = (if s =? ch_B then add64 (- back) else id) (bought_shares_ u) /\
  sold_shares_ u' = (if s =? ch_S then add64 (- back) else id) (sold_shares_ u).
Proof.
  unfold uncount_side. cbv zeta. destruct (Z.eqb_spec s ch_B) as [->|]; [done|]. by destruct (s =? ch_S).
Qed.
(** What an execution of [exec] shares leaves, whatever the branch. *)
Lemma executed_effect exec :
  exec = (if rshares r <? remaining rec then rshares r else remaining rec) -> is_terminal (state rec) = false ->
  let t' := (on_executed t rec r).2 in
  let on s := if (0 <? exec) && (side rec =? s) then add64 exec else id in
  exists r', orders_ t' = <[token r := r']> (orders_ t) /\
    filled r' = i32 (filled rec + exec) /\ remaining r' = i32 (remaining rec - exec) /\ side r' = side rec /\
    (state r' = FILLED -> remaining r' <= 0) /\ (state r' = NEW -> exec <= 0 /\ state rec = NEW) /\
    bought_shares_ t' = on ch_B (bought_shares_ t) /\ sold_shares_ t' = on ch_S (sold_shares_ t) /\
    exec_shares_ t' = (if 0 <? exec then add64 exec else id) (exec_shares_ t) /\ broken_shares_ t' = broken_shares_ t /\
    ordered_shares_ t' = ordered_shares_ t /\ cancelled_shares_ t' = cancelled_shares_ t.
Proof.
  intros E T. cbv zeta. unfold on_executed. rewrite T, <- E. cbv zeta. set (notional := dmul _ _).
  set (rec1 := rec <| filled ::= _ |> <| remaining ::= _ |>).
  assert (R1 : filled rec1 = i32 (filled rec + exec) /\ remaining rec1 = i32 (remaining rec - exec) /\
    side rec1 = side rec /\ state rec1 = state rec) by done.
  clearbody rec1. destruct R1 as (E1 & E2 & E3 & E4).
  set (rec2 := if 0 <? exec then _ else rec1). assert (R2 : filled rec2 = filled rec1 /\ remaining rec2 = remaining rec1 /\
    side rec2 = side rec1 /\ state rec2 = state rec1) by (unfold rec2; by destruct (0 <? exec)).
  clearbody rec2. destruct R2 as (F1 & F2 & F3 & F4).
  pose proof (count_execution_facts t (side rec) exec notional) as (C1 & C2 & C3 & C4 & C5 & C6 & C7).
  set (t1 := if 0 <? exec then _ else t).
  assert (T1 : orders_ t1 = orders_ t /\ bought_shares_ t1 = (if (0 <? exec) && (side rec =? ch_B) then add64 exec else id) (bought_shares_ t) /\
    sold_shares_ t1 = (if (0 <? exec) && (side rec =? ch_S) then add64 exec else id) (sold_shares_ t) /\
    exec_shares_ t1 = (if 0 <? exec then add64 exec else id) (exec_shares_ t) /\ broken_shares_ t1 = broken_shares_ t /\
    ordered_shares_ t1 = ordered_shares_ t /\ cancelled_shares_ t1 = cancelled_shares_ t).
  { unfold t1. rewrite F3, E3. by destruct (0 <? exec). }
  clearbody t1. destruct T1 as (T1 & T2 & T3 & T4 & T5 & T6 & T7). clear C1 C2 C3 C4 C5 C6 C7.
  rewrite E1 in F1. rewrite E2 in F2. rewrite E3 in F3. rewrite E4 in F4. rewrite <- T2, <- T3, <- T4, <- T5, <- T6, <- T7, <- T1.
  destruct (Z.leb_spec (remaining rec2) 0); [|destruct (Z.ltb_spec 0 exec)].
  - exists (rec2 <| state := FILLED |>). cbn. by repeat split.
  - exists (rec2 <| state := PARTIAL |>). cbn. by repeat split.
  - exists rec2. cbn. repeat split; try done; [intros F; rewrite F4 in F; by rewrite F in T|congruence].
Qed.
Lemma executed_step : 0 <= rshares r -> step_ok t (on_executed t rec r).2 0.
Proof.
  intros H0. destruct (is_terminal (state rec)) eqn:T; [unfold on_executed; rewrite T; by apply step_same|].
  set (exec := if rshares r <? remaining rec then rshares r else remaining rec).
  destruct (executed_effect exec eq_refl T) as (r' & Eo & Ef & Er & Es & S1 & S2 & Eb & Esd & Ee & Ebr & Eod & Ec).
  intros ex br od ca adj I. pose proof I as [I1 I2 I3 I4 I5 I6 I7 I8 I9].
  pose proof (I1 _ _ Hr) as [K1 K2 K3 K4 K5].
  assert (Hx : 0 <= exec <= remaining rec) by (unfold exec; zcases). clearbody exec. unfold INT32_MAX in *.
  rewrite i32_small in Ef, Er by lia.
  assert (F : forall s, filled_on s r' - filled_on s rec = if side rec =? s then exec else 0).
  { intros s. unfold filled_on. rewrite Es, Ef. destruct (side rec =? s); lia. }
  exists (ex + exec), (br + 0), od, (ca + 0).
  replace (adj + 0) with (adj + (filled r' + remaining r' + 0 - filled rec - remaining rec)) by lia.
  eapply (tracker_update t _ _ _ _ _ _ (token r) rec r' exec 0 0); rewrite ?F, ?Ebr, ?Ec; try done; try lia; try by eapply keep64.
  - split; unfold INT32_MAX; try lia; [intros S; apply S1 in S; lia|intros S; apply S2 in S as [L S]; apply K5 in S; lia].
  - rewrite Eb. destruct (Z.ltb_spec 0 exec), (side rec =? ch_B); cbn [andb]; try done; try (by eapply keep64).
    replace exec with 0 by lia. by eapply keep64.
  - rewrite Esd. destruct (Z.ltb_spec 0 exec), (side rec =? ch_S); cbn [andb]; try done; try (by eapply keep64).
    replace exec with 0 by lia. by eapply keep64.
  - rewrite Ee. destruct (Z.ltb_spec 0 exec); [done|]. replace exec with 0 by lia. by eapply keep64.
Qed.
Lemma broken_step : 0 <= rshares r -> step_ok t (on_broken t rec r).2 0.
Proof.
  intros H0. unfold on_broken. set (back := if rshares r <? filled rec then rshares r else filled rec). cbv zeta.
  set (rec1 := if (0 <? back) && (0 <? filled rec) then _ else rec).
  assert (R1 : filled rec1 = filled rec /\ remaining rec1 = remaining rec /\ side rec1 = side rec).
  { unfold rec1. by destruct ((0 <? back) && (0 <? filled rec)). }
  clearbody rec1. destruct R1 as (Ef & Er & Es). unfold set_rec. cbn [snd].
  intros ex br od ca adj I. pose proof I as [I1 I2 I3 I4 I5 I6 I7 I8 I9].
  pose proof (I1 _ _ Hr) as [K1 K2 K3 K4 K5].
  assert (Hb : 0 <= back <= filled rec) by (unfold back; zcases). clearbody back. unfold INT32_MAX in *.
  set (r' := _ <| state := _ |>). set (t' := _ <| orders_ ::= _ |>).
  assert (R' : filled r' = filled rec - back /\ remaining r' = remaining rec + back /\ side r' = side rec).
  { unfold r'. cbn. rewrite Ef, Er. rewrite !i32_small by lia. done. }
  destruct R' as (Ef' & Er' & Es').
  assert (T' : orders_ t' = <[token r := r']> (orders_ t) /\ exec_shares_ t' = exec_shares_ t /\
    ordered_shares_ t' = ordered_shares_ t /\ cancelled_shares_ t' = cancelled_shares_ t /\
    broken_shares_ t' = add64 back (broken_shares_ t) /\
    bought_shares_ t' = (if side rec =? ch_B then add64 (- back) else id) (bought_shares_ t) /\
    sold_shares_ t' = (if (side rec =? ch_S) then add64 (- back) else id) (sold_shares_ t)).
  { rewrite <- Es. pose proof (uncount_side_facts t (side rec1) back) as U. cbv zeta in U. unfold t'.
    change (side (rec1 <| filled ::= _ |> <| remaining ::= _ |>)) with (side rec1).
    set (u := uncount_side t (side rec1) back) in *. clearbody u. destruct U as (U1 & U2 & U3 & U4 & U5 & U6 & U7).
    rewrite <- U1, <- U2, <- U3, <- U4, <- U5, <- U6, <- U7. done. }
  destruct T' as (To & Te & Tod & Tc & Tb & Tbo & Tso).
  assert (F : forall s, filled_on s r' - filled_on s rec = if side rec =? s then - back else 0).
  { intros s. unfold filled_on. rewrite Es', Ef'. destruct (side rec =? s); lia. }
  exists (ex + 0), (br + back), od, (ca + 0).
  replace (adj + 0) with (adj + (filled r' + remaining r' + 0 - filled rec - remaining rec)) by lia.
  eapply (tracker_update t _ _ _ _ _ _ (token r) rec r' 0 back 0); rewrite ?F, ?Te, ?Tc; try done; try lia; try by eapply keep64.
  - split; unfold INT32_MAX; try lia; unfold r'; cbn; destruct (0 <? _); done.
  - rewrite Tbo. destruct (side rec =? ch_B); [done|by eapply keep64].
  - rewrite Tso. destruct (side rec =? ch_S); [done|by eapply keep64].
Qed.
End responses.

Lemma response_step t r : orderly t (Response r) = true -> step_ok t (on_response t r).2 (resized t (Response r)).
Proof.
  intros Ho. unfold on_response. set (t1 := t <| responses_ ::= incr |>).
  assert (S0 : forall t2 d, step_ok t1 t2 d -> step_ok t t2 d).
  { intros t2 d H. rewrite <- (Z.add_0_l d). apply (step_trans t t1 t2); [by apply step_same|exact H]. }
  destruct (String.eqb_spec (rtype r) "REPLACED") as [E|E].
  { apply S0. by apply (replaced_step t1). }
  unfold orderly, resized in *. rewrite (proj2 (String.eqb_neq _ _) E) in *. cbv iota in *.
  change (orders_ t1) with (orders_ t). destruct (orders_ t !! token r) as [rec|] eqn:Hr.
  2:{ apply S0. destruct (String.eqb (rtype r) "RESTATED"); by apply step_same. }
  assert (Hr1 : orders_ t1 !! token r = Some rec) by done.
  assert (KEEP : forall rec' t2, orders_ t2 = <[token r := rec']> (orders_ t1) ->
    filled rec' = filled rec -> remaining rec' = remaining rec -> side rec' = side rec -> (state rec' = state rec \/ state rec' = REJECTED) ->
    bought_shares_ t2 = bought_shares_ t1 -> sold_shares_ t2 = sold_shares_ t1 -> exec_shares_ t2 = exec_shares_ t1 ->
    broken_shares_ t2 = broken_shares_ t1 -> ordered_shares_ t2 = ordered_shares_ t1 -> cancelled_shares_ t2 = cancelled_shares_ t1 ->
    step_ok t t2 0).
  { intros rec' t2 Eo Ef Er Es Est E1 E2 E3 E4 E5 E6. apply S0. eapply (step_keep _ _ _ rec rec' 0); try done; [|by left].
    intros []. split; [split; rewrite ?Ef, ?Er; try done; destruct Est as [->| ->]; done|]. repeat split; auto. lia. }
  destruct (String.eqb_spec (rtype r) "ACCEPTED") as [E1|E1].
  { rewrite E1. apply S0, (accepted_step t1); [done|]. by apply Z.eqb_eq. }
  destruct (String.eqb_spec (rtype r) "RESTATED") as [E2|E2].
  { rewrite E2. cbn [String.eqb Ascii.eqb Bool.eqb]. apply andb_true_iff in Ho as [H1 H2]. by apply S0, (restated_step t1). }
  apply Z.leb_le in Ho.
  destruct (String.eqb (rtype r) "EXECUTED"); [by apply S0, (executed_step t1)|].
  destruct (String.eqb (rtype r) "CANCELLED"); [by apply S0, (cancelled_step t1)|].
  destruct (String.eqb (rtype r) "BROKEN"); [by apply S0, (broken_step t1)|].
  destruct (String.eqb (rtype r) "CXL_PEND"); [eapply KEEP; try reflexivity; by left|].
  destruct (String.eqb (rtype r) "CXL_REJECT"); [eapply KEEP; try reflexivity; by left|].
  destruct (String.eqb (rtype r) "AIQ_CXL"); [by apply S0, (aiq_step t1)|].
  destruct (String.eqb (rtype r) "REJECTED"); eapply KEEP; try reflexivity; by right.
Qed.

Lemma tracker_step t e : orderly t e = true -> step_ok t (tstep t e) (resized t e).
Proof.
  destruct e as [tok n|tok|r]; cbn [tstep].
  - cbn [orderly]. intros H. bsplit. apply new_step; [by apply bool_decide_eq_true in H|lia].
  - intros _. apply cancel_sent_step.
  - apply response_step.
Qed.
Lemma tracker_trace es : forall t, orderly_trace t es = true -> step_ok t (foldl tstep t es) (resized_total t es).
Proof.
  induction es as [|e es IH]; intros t Ho; [by apply step_same|].
  cbn [orderly_trace resized_total foldl] in *. apply andb_true_iff in Ho as [He Ho].
  eapply step_trans; [by apply tracker_step|by apply IH].
Qed.
Lemma reset_inv : tracker_inv reset_session 0 0 0 0 0.
Proof. split; done. Qed.

(** C16: the tracker's books balance.  Over any session of new orders, cancels
    and responses in which tokens are not reused, an order is accepted before
    it fills, and only working orders are restated: every order has filled and
    remaining shares that are not negative and fit together, a filled order has
    none left; [bought_shares_] and [sold_shares_] are the filled shares of the
    orders on that side; executions less busts are the filled shares; and the
    shares ordered, with the exchange's own changes of size, are the shares
    filled, open or cancelled.  The sums are taken in [int64_t], as the code
    takes them. *)
Theorem ouch_tracker_exact es :
  orderly_trace reset_session es = true ->
  let t := foldl tstep reset_session es in
  (forall tok r, orders_ t !! tok = Some r -> rec_ok r) /\
  bought_shares_ t = i64 (msum (fun _ => filled_on ch_B) (orders_ t)) /\
  sold_shares_ t = i64 (msum (fun _ => filled_on ch_S) (orders_ t)) /\
  i64 (exec_shares_ t - broken_shares_ t) = i64 (msum (fun _ => filled) (orders_ t)) /\
  i64 (ordered_shares_ t + resized_total reset_session es) =
    i64 (msum (fun _ r => filled r + remaining r) (orders_ t) + cancelled_shares_ t).
Proof.
  intros Ho t. destruct (tracker_trace es reset_session Ho _ _ _ _ _ reset_inv) as (ex & br & od & ca & [I1 I2 I3 I4 I5 I6 I7 I8 I9]).
  fold t in I1, I2, I3, I4, I5, I6, I7, I8, I9.
  split; [done|split; [done|split; [done|split]]].
  - rewrite I4, I5, I8. by wrap_norm.
  - rewrite I6, I7. wrap_norm. f_equal. lia.
Qed.

Definition TOK2 : cstr := [84; 79; 75; 50].
Definition demo_session : list event :=
  [New TOK1 100; Response (meaning (MAccepted TOK1 ch_B 100 [65] (dratio 10 1) 7000 ch_D));
   Response (meaning (MExecuted TOK1 40 (dratio 10 1) 1)); CancelSent TOK1;
   Response (meaning (MReplaced TOK2 TOK1 80 (dratio 11 1) 7001));
   Response (meaning (MExecuted TOK2 30 (dratio 11 1) 2)); Response (meaning (MBroken TOK2 10 2 69));
   Response (meaning (MCancelled TOK2 60 85))].
Definition demo_end : Tracker := Eval vm_compute in foldl tstep reset_session demo_session.
Lemma ouch_tracker_exact_witness :
  let t := foldl tstep reset_session demo_session in
  (forall tok r, orders_ t !! tok = Some r -> rec_ok r) /\
  bought_shares_ t = i64 (msum (fun _ => filled_on ch_B) (orders_ t)) /\
  sold_shares_ t = i64 (msum (fun _ => filled_on ch_S) (orders_ t)) /\
  i64 (exec_shares_ t - broken_shares_ t) = i64 (msum (fun _ => filled) (orders_ t)) /\
  i64 (ordered_shares_ t + resized_total reset_session demo_session) =
    i64 (msum (fun _ r => filled r + remaining r) (orders_ t) + cancelled_shares_ t).
Proof. apply (ouch_tracker_exact demo_session). vm_compute. reflexivity. Defined.
(** The session above ends with 60 shares bought and the order cancelled. *)
Example demo_session_end : bought_shares_ demo_end = 60 /\ cancelled_shares_ demo_end = 60 /\ size (orders_ demo_end) = 1%nat.
Proof. by vm_compute. Qed.
