(* ===== verification/Gap.v ===== *)
(** * Gap: sequencing a lossy feed

    [multicast/gap_recovery.hpp], the parts that decide which packets are
    missing, delivered, duplicate or in order: [GapRecovery] and what is built
    on it (A/B line arbitration, channels), the reorder buffer, the contiguous
    tracker, the duplicate window, snapshot synchronisation and the retransmit
    requests.  A [std::set] is a [gset] and a [std::map] a [gmap], walked in
    ascending order.  The counters that only measure are in [Meters]. *)
From stdpp Require Import sorting.
From S2P Require Import Prelude Double Common.

Definition incr (n : Z) : Z := u64 (n + 1).
Definition sorted_set (s : gset Z) : list Z := merge_sort Z.le (elements s).
Definition set_min (s : gset Z) : option Z := head (sorted_set s).
Definition set_max (s : gset Z) : option Z := last (sorted_set s).
Definition set_size (s : gset Z) : Z := Z.of_nat (size s).
Definition ratio_or (x y : Z) (d : double) : double := if 0 <? y then ddiv (dbl_of_Z x) (dbl_of_Z y) else d.

(** ** GapRecovery *)

Record GapRecovery := mkGap {
  missing : gset Z; expected : Z; primary_packets : Z; initialized : bool; gap_events : Z;
  recovered : Z; duplicates : Z; max_gap_burst_ : Z }.
#[export] Instance eta_gap : Settable GapRecovery := fun g =>
  mkGap (missing g) (expected g) (primary_packets g) (initialized g) (gap_events g) (recovered g) (duplicates g)
    (max_gap_burst_ g).
Definition new_gap : GapRecovery := mkGap ∅ 0 0 false 0 0 0 0.

(** [for (s = lo; s < hi; ++s) missing.insert(s)]. *)
Definition insert_range (lo hi : Z) (s : gset Z) : gset Z := foldl (fun s x => {[x]} ∪ s) s (seqZ lo (hi - lo)).
Definition observe (g : GapRecovery) (seq : Z) : GapRecovery :=
  let g := g <| primary_packets ::= incr |> in
  if negb (initialized g) then g <| initialized := true |> <| expected := u64 (seq + 1) |> else
  if seq =? expected g then g <| expected ::= incr |> else
  if expected g <? seq then
    let burst := seq - expected g in
    g <| max_gap_burst_ ::= fun m => if m <? burst then burst else m |>
      <| missing ::= insert_range (expected g) seq |> <| gap_events ::= incr |> <| expected := u64 (seq + 1) |>
  else if bool_decide (seq ∈ missing g) then g <| missing ::= fun s => s ∖ {[seq]} |> <| recovered ::= incr |>
  else g <| duplicates ::= incr |>.
Definition on_retransmit (g : GapRecovery) (seq : Z) : bool * GapRecovery :=
  if bool_decide (seq ∈ missing g) then (true, g <| missing ::= fun s => s ∖ {[seq]} |> <| recovered ::= incr |>)
  else (false, g).
(** The walk from the least missing number while it is covered. *)
Fixpoint resync_loop (l : list Z) (snapshot_seq : Z) (g : GapRecovery) : GapRecovery :=
  match l with
  | [] => g
  | s :: l' =>
      if s <=? snapshot_seq
      then resync_loop l' snapshot_seq (g <| missing ::= fun m => m ∖ {[s]} |> <| recovered ::= incr |>)
      else g
  end.
Definition snapshot_resync (g : GapRecovery) (snapshot_seq : Z) : GapRecovery :=
  let g := resync_loop (sorted_set (missing g)) snapshot_seq g in
  let g := if expected g <? u64 (snapshot_seq + 1) then g <| expected := u64 (snapshot_seq + 1) |> else g in
  g <| initialized := true |>.

Definition next_request (g : GapRecovery) : option (Z * Z) :=
  lo ← set_min (missing g); hi ← set_max (missing g); Some (lo, hi).
Definition has_gaps (g : GapRecovery) : bool := negb (bool_decide (missing g = ∅)).
Definition missing_count (g : GapRecovery) : Z := set_size (missing g).
Definition duplicate_rate (g : GapRecovery) : double := ratio_or (duplicates g) (primary_packets g) d_zero.
Definition gap_event_rate (g : GapRecovery) : double := ratio_or (gap_events g) (primary_packets g) d_zero.
Definition recovery_completeness (g : GapRecovery) : double :=
  ratio_or (recovered g) (u64 (recovered g + missing_count g)) d_one.
Definition avg_gap_burst (g : GapRecovery) : double :=
  ratio_or (u64 (recovered g + missing_count g)) (gap_events g) d_zero.
(** The runs of consecutive numbers; each number either extends the run of the
    one before it or starts a run. *)
Fixpoint runs (prev : option Z) (l : list Z) : Z :=
  match l with
  | [] => 0
  | s :: l' => (match prev with Some p => if s =? u64 (p + 1) then 0 else 1 | None => 1 end) + runs (Some s) l'
  end.
Definition outstanding_range_count (g : GapRecovery) : Z := runs None (sorted_set (missing g)).
Fixpoint longest_run (prev : option Z) (cur best : Z) (l : list Z) : Z :=
  match l with
  | [] => best
  | s :: l' =>
      let cur := match prev with Some p => if s =? u64 (p + 1) then cur + 1 else 1 | None => 1 end in
      longest_run (Some s) cur (if best <? cur then cur else best) l'
  end.
Definition largest_outstanding_run (g : GapRecovery) : Z := longest_run None 0 0 (sorted_set (missing g)).
Definition oldest_missing (g : GapRecovery) : Z := default 0 (set_min (missing g)).
Definition head_of_line_lag (g : GapRecovery) : Z :=
  match set_min (missing g) with Some s => u64 (expected g - s) | None => 0 end.
Fixpoint ranges_loop (start prev : Z) (l : list Z) : list (Z * Z) :=
  match l with
  | [] => [(start, prev)]
  | s :: l' => if s =? u64 (prev + 1) then ranges_loop start s l' else (start, prev) :: ranges_loop s s l'
  end.
Definition missing_ranges (g : GapRecovery) : list (Z * Z) :=
  match sorted_set (missing g) with [] => [] | s :: l => ranges_loop s s l end.
Definition recommend_snapshot (g : GapRecovery) (threshold : Z) : bool := (0 <? threshold) && (threshold <=? missing_count g).

(** ** A/B line arbitration *)

Record ABLineArbitrator := mkAB { rec : GapRecovery; a_first : Z; b_first : Z; dups : Z }.
#[export] Instance eta_ab : Settable ABLineArbitrator := fun a => mkAB (rec a) (a_first a) (b_first a) (dups a).
Definition new_ab : ABLineArbitrator := mkAB new_gap 0 0 0.
Definition is_new (g : GapRecovery) (seq : Z) : bool :=
  negb (initialized g) || (expected g <=? seq) || bool_decide (seq ∈ missing g).
Definition ab_on_packet (a : ABLineArbitrator) (seq : Z) (from_line_a : bool) : bool * ABLineArbitrator :=
  if negb (is_new (rec a) seq) then (false, a <| dups ::= incr |>) else
  let a := a <| rec ::= fun g => observe g seq |> in
  (true, if from_line_a then a <| a_first ::= incr |> else a <| b_first ::= incr |>).
Definition a_share (a : ABLineArbitrator) : double :=
  ddiv (dbl_of_Z (a_first a)) (dbl_of_Z (u64 (a_first a + b_first a))).
Definition ab_total (a : ABLineArbitrator) : Z := u64 (a_first a + b_first a).
Definition ab_a_win_rate (a : ABLineArbitrator) : double := if 0 <? ab_total a then a_share a else d_half.
Definition lagging_line (a : ABLineArbitrator) (threshold : double) : string :=
  if ab_total a =? 0 then "-" else
  if dle (a_share a) threshold then "A" else if dle (dsub d_one (a_share a)) threshold then "B" else "-".
Definition ab_dup_rate (a : ABLineArbitrator) : double :=
  ratio_or (dups a) (u64 (a_first a + b_first a + dups a)) d_zero.
Definition preferred_line (a : ABLineArbitrator) (margin : double) : string :=
  if ab_total a =? 0 then "-" else
  if dge (a_share a) (dadd d_half margin) then "A"
  else if dge (dsub d_one (a_share a)) (dadd d_half margin) then "B" else "-".

(** ** Channels *)

Definition MultiChannelRecovery : Type := gmap Z GapRecovery.
(** [channels[id]], which creates the channel. *)
Definition channel (m : MultiChannelRecovery) (id : Z) : GapRecovery := default new_gap (m !! id).
Definition mc_observe (m : MultiChannelRecovery) (id seq : Z) : MultiChannelRecovery :=
  <[id := observe (channel m id) seq]> m.
Definition mc_on_retransmit (m : MultiChannelRecovery) (id seq : Z) : bool * MultiChannelRecovery :=
  let '(r, g) := on_retransmit (channel m id) seq in (r, <[id := g]> m).
Section channels.
Context `{HashOrder}.
Definition sum_u64 {A} (f : A -> Z) (l : list A) : Z := foldl (fun n x => u64 (n + f x)) 0 l.
Definition any_gaps (m : MultiChannelRecovery) : bool := existsb has_gaps (values m).
Definition total_missing (m : MultiChannelRecovery) : Z := sum_u64 missing_count (values m).
Definition total_recovered (m : MultiChannelRecovery) : Z := sum_u64 recovered (values m).
Definition channel_count (m : MultiChannelRecovery) : Z := Z.of_nat (size m).
Definition channels_with_gaps (m : MultiChannelRecovery) : Z := count_if has_gaps (values m).
Definition worst_channel (m : MultiChannelRecovery) : option (Z * Z) :=
  let '(worst, who) := foldl (fun acc kv => if acc.1 <? missing_count kv.2 then (missing_count kv.2, kv.1) else acc)
                         (0, 0) (entries m) in
  if worst =? 0 then None else Some (who, worst).
Definition overall_completeness (m : MultiChannelRecovery) : double :=
  ratio_or (total_recovered m) (u64 (total_recovered m + total_missing m)) d_one.
End channels.

(** ** In-order release *)

Record ReorderBuffer (T : Type) := mkReorder {
  rb_expected : Z; rb_initialized : bool; pending : gmap Z T; out : list T; rb_duplicates : Z; max_buffered : Z }.
Arguments mkReorder {T}. Arguments rb_expected {T}. Arguments rb_initialized {T}. Arguments pending {T}.
Arguments out {T}. Arguments rb_duplicates {T}. Arguments max_buffered {T}.
#[export] Instance eta_reorder T : Settable (ReorderBuffer T) := fun b =>
  mkReorder (rb_expected b) (rb_initialized b) (pending b) (out b) (rb_duplicates b) (max_buffered b).
Definition new_reorder {T} : ReorderBuffer T := mkReorder 0 false ∅ [] 0 0.
(** The release loop takes one entry out of [pending] per turn. *)
Fixpoint release {T} (fuel : nat) (b : ReorderBuffer T) : ReorderBuffer T :=
  match fuel with
  | O => b
  | S fuel' =>
      match pending b !! rb_expected b with
      | Some v => release fuel' (b <| out ::= fun l => l ++ [v] |> <| pending ::= delete (rb_expected b) |> <| rb_expected ::= incr |>)
      | None => b
      end
  end.
Definition rb_push {T} (b : ReorderBuffer T) (seq : Z) (val : T) : ReorderBuffer T :=
  let b := if rb_initialized b then b else b <| rb_expected := seq |> <| rb_initialized := true |> in
  if seq <? rb_expected b then b <| rb_duplicates ::= incr |> else
  let b := b <| pending ::= <[seq := val]> |> in
  let b := b <| max_buffered ::= fun m => if m <? Z.of_nat (size (pending b)) then Z.of_nat (size (pending b)) else m |> in
  release (size (pending b)) b.
Definition rb_has_gap {T} (b : ReorderBuffer T) : bool := negb (bool_decide (size (pending b) = 0%nat)).
Definition rb_buffered {T} (b : ReorderBuffer T) : Z := Z.of_nat (size (pending b)).
Definition clear_out {T} (b : ReorderBuffer T) : ReorderBuffer T := b <| out := [] |>.

Record ContiguousTracker := mkContig { next_expected : Z; ahead : gset Z; max_lookahead_ : Z }.
#[export] Instance eta_contig : Settable ContiguousTracker := fun c =>
  mkContig (next_expected c) (ahead c) (max_lookahead_ c).
Definition ct_reset (start : Z) : ContiguousTracker := mkContig start ∅ 0.
Fixpoint advance (fuel : nat) (c : ContiguousTracker) : ContiguousTracker :=
  match fuel with
  | O => c
  | S fuel' =>
      if bool_decide (next_expected c ∈ ahead c)
      then advance fuel' (c <| ahead ::= fun s => s ∖ {[next_expected c]} |> <| next_expected ::= incr |>)
      else c
  end.
Definition receive (c : ContiguousTracker) (seq : Z) : ContiguousTracker :=
  if seq <? next_expected c then c else
  if seq =? next_expected c then advance (size (ahead c)) (c <| next_expected ::= incr |>)
  else
    let dist := seq - next_expected c in
    c <| max_lookahead_ ::= fun m => if m <? dist then dist else m |> <| ahead ::= fun s => {[seq]} ∪ s |>.
Definition contiguous_high (c : ContiguousTracker) : Z := u64 (next_expected c - 1).
Definition ct_buffered (c : ContiguousTracker) : Z := set_size (ahead c).
Definition current_lookahead (c : ContiguousTracker) : Z :=
  match set_max (ahead c) with Some m => u64 (m - next_expected c) | None => 0 end.

(** ** Duplicates, snapshots, retransmits *)

Record DedupWindow := mkDedup { window : Z; high : Z; dw_init : bool; seen : gset Z; dw_duplicates : Z; accepted : Z }.
#[export] Instance eta_dedup : Settable DedupWindow := fun d =>
  mkDedup (window d) (high d) (dw_init d) (seen d) (dw_duplicates d) (accepted d).
Definition new_dedup (window_ : Z) : DedupWindow := mkDedup (if window_ =? 0 then 1 else window_) 0 false ∅ 0 0.
(** Drops from the low end what has left the window. *)
Fixpoint trim (l : list Z) (d : DedupWindow) : DedupWindow :=
  match l with
  | [] => d
  | s :: l' => if u64 (s + window d) <=? high d then trim l' (d <| seen ::= fun m => m ∖ {[s]} |>) else d
  end.
Definition accept (d : DedupWindow) (seq : Z) : bool * DedupWindow :=
  if negb (dw_init d) then
    (true, d <| dw_init := true |> <| high := seq |> <| seen ::= fun m => {[seq]} ∪ m |> <| accepted ::= incr |>)
  else if u64 (seq + window d) <=? high d then (false, d <| dw_duplicates ::= incr |>)
  else if bool_decide (seq ∈ seen d) then (false, d <| dw_duplicates ::= incr |>)
  else
    let d := d <| seen ::= fun m => {[seq]} ∪ m |> <| high ::= fun h => if h <? seq then seq else h |> in
    (true, trim (sorted_set (seen d)) d <| accepted ::= incr |>).
Definition dw_total_seen (d : DedupWindow) : Z := u64 (accepted d + dw_duplicates d).
Definition dw_dup_rate (d : DedupWindow) : double := ratio_or (dw_duplicates d) (dw_total_seen d) d_zero.
Definition dw_reset (d : DedupWindow) : DedupWindow := new_dedup (window d).

Record DualFeedReconciler := mkDual { df_seen : gset Z; a_wins : Z; b_wins : Z; df_duplicates : Z }.
#[export] Instance eta_dual : Settable DualFeedReconciler := fun d => mkDual (df_seen d) (a_wins d) (b_wins d) (df_duplicates d).
Definition df_reset : DualFeedReconciler := mkDual ∅ 0 0 0.
Definition df_on_packet (d : DualFeedReconciler) (seq line : Z) : bool * DualFeedReconciler :=
  if bool_decide (seq ∈ df_seen d) then (false, d <| df_duplicates ::= incr |>) else
  let d := d <| df_seen ::= fun m => {[seq]} ∪ m |> in
  (true, if line =? 0 then d <| a_wins ::= incr |> else d <| b_wins ::= incr |>).
Definition df_a_win_rate (d : DualFeedReconciler) : double := ratio_or (a_wins d) (u64 (a_wins d + b_wins d)) d_zero.

Record SnapshotSyncBuffer := mkSync { applied : bool; snapshot_seq : Z; buffered : gset Z; dropped : Z }.
#[export] Instance eta_sync : Settable SnapshotSyncBuffer := fun s =>
  mkSync (applied s) (snapshot_seq s) (buffered s) (dropped s).
Definition ss_reset : SnapshotSyncBuffer := mkSync false 0 ∅ 0.
Definition on_increment (s : SnapshotSyncBuffer) (seq : Z) : bool * SnapshotSyncBuffer :=
  if applied s then (true, s) else (false, s <| buffered ::= fun m => {[seq]} ∪ m |>).
Definition apply_snapshot (s : SnapshotSyncBuffer) (snap_seq : Z) : Z * SnapshotSyncBuffer :=
  let s := s <| snapshot_seq := snap_seq |> <| applied := true |> in
  let s := foldl (fun s x => if x <=? snap_seq then s <| dropped ::= incr |> <| buffered ::= fun m => m ∖ {[x]} |> else s)
             s (sorted_set (buffered s)) in
  (set_size (buffered s), s).
Definition pending_replay (s : SnapshotSyncBuffer) : Z := set_size (buffered s).
Definition total_buffered (s : SnapshotSyncBuffer) : Z := u64 (dropped s + set_size (buffered s)).
Definition snapshot_coverage (s : SnapshotSyncBuffer) : double := ratio_or (dropped s) (total_buffered s) d_zero.

Record Req := mkReq { last_sent_ns : Z; attempts : Z }.
Record RetransmitTracker := mkRetr { timeout_ns : Z; max_attempts : Z; requests : gmap Z Req; fulfilled : Z; escalated : Z }.
#[export] Instance eta_retr : Settable RetransmitTracker := fun r =>
  mkRetr (timeout_ns r) (max_attempts r) (requests r) (fulfilled r) (escalated r).
Definition new_retr (timeout_ns_ max_attempts_ : Z) : RetransmitTracker := mkRetr timeout_ns_ max_attempts_ ∅ 0 0.
Definition request (r : RetransmitTracker) (seq now_ns : Z) : RetransmitTracker :=
  if bool_decide (is_Some (requests r !! seq)) then r else r <| requests ::= <[seq := mkReq now_ns 1]> |>.
Definition on_received (r : RetransmitTracker) (seq : Z) : RetransmitTracker :=
  if bool_decide (is_Some (requests r !! seq)) then r <| requests ::= delete seq |> <| fulfilled ::= incr |> else r.
Definition poll_one (now_ns : Z) (acc : Z * RetransmitTracker) (kv : Z * Req) : Z * RetransmitTracker :=
  let '(retries, r) := acc in
  if timeout_ns r <=? i64 (now_ns - last_sent_ns kv.2) then
    if attempts kv.2 <? max_attempts r
    then (incr retries, r <| requests ::= <[kv.1 := mkReq now_ns (i32 (attempts kv.2 + 1))]> |>)
    else (retries, r <| escalated ::= incr |> <| requests ::= delete kv.1 |>)
  else (retries, r).
Definition key_le (x y : Z * Req) : Prop := x.1 <= y.1.
#[export] Instance key_le_dec x y : Decision (key_le x y).
Proof. unfold key_le. apply _. Defined.
(** The requests to send again and the state after. *)
Definition poll (r : RetransmitTracker) (now_ns : Z) : Z * RetransmitTracker :=
  foldl (poll_one now_ns) (0, r) (merge_sort key_le (map_to_list (requests r))).
Definition outstanding (r : RetransmitTracker) : Z := Z.of_nat (size (requests r)).
Definition escalation_rate (r : RetransmitTracker) : double := ratio_or (escalated r) (u64 (fulfilled r + escalated r)) d_zero.
Definition max_attempts_in_flight (r : RetransmitTracker) : Z :=
  foldl (fun mx kv => if mx <? attempts kv.2 then attempts kv.2 else mx) 0 (map_to_list (requests r)).
Definition retr_reset (r : RetransmitTracker) : RetransmitTracker := new_retr (timeout_ns r) (max_attempts r).

(** ** Facts about ranges and walks in ascending order *)

Definition range (lo hi : Z) : gset Z := list_to_set (seqZ lo (hi - lo)).
Lemma elem_of_range x lo hi : x ∈ range lo hi <-> lo <= x < hi.
Proof. unfold range. rewrite elem_of_list_to_set, elem_of_seqZ. lia. Qed.
Lemma size_range lo hi : lo <= hi -> Z.of_nat (size (range lo hi)) = hi - lo.
Proof.
  intros H. unfold range. rewrite size_list_to_set by apply NoDup_seqZ. rewrite length_seqZ. lia.
Qed.
Lemma insert_range_union lo hi s : insert_range lo hi s = range lo hi ∪ s.
Proof.
  unfold insert_range, range. generalize (seqZ lo (hi - lo)). intros l. revert s.
  induction l as [|x l IH]; intros s; simpl; [set_solver|]. rewrite IH. set_solver.
Qed.
Lemma elem_of_sorted_set x s : x ∈ sorted_set s <-> x ∈ s.
Proof. unfold sorted_set. by rewrite merge_sort_Permutation, elem_of_elements. Qed.
Lemma sorted_set_sorted s : StronglySorted Z.le (sorted_set s).
Proof. apply (StronglySorted_merge_sort Z.le). Qed.
Lemma sorted_set_NoDup s : NoDup (sorted_set s).
Proof. unfold sorted_set. rewrite merge_sort_Permutation. apply NoDup_elements. Qed.
Lemma seq_bound_incr x : 0 <= x < UINT64_MAX -> u64 (x + 1) = x + 1.
Proof. unfold UINT64_MAX. intros. apply u64_small. lia. Qed.
Lemma incr_wrap n z : n = u64 z -> incr n = u64 (z + 1).
Proof. intros ->. unfold incr. by rewrite wrapu_add_l. Qed.

(** A walk that stops at the first number above the snapshot has removed, and
    counted, every number up to it. *)
Lemma resync_loop_spec l n g r :
  StronglySorted Z.le l -> NoDup l -> list_to_set l ⊆ missing g -> recovered g = u64 r ->
  let g' := resync_loop l n g in
  missing g' = missing g ∖ list_to_set (filter (fun x => x <= n) l) /\
  recovered g' = u64 (r + Z.of_nat (size (missing g)) - Z.of_nat (size (missing g'))) /\
  expected g' = expected g /\ initialized g' = initialized g.
Proof.
  revert g r. induction l as [|x l IH]; intros g r HS HN Hsub Hr.
  { simpl. repeat split; [set_solver|]. rewrite Hr. f_equal. lia. }
  apply StronglySorted_inv in HS as [HS Hle]. apply NoDup_cons in HN as [Hx HN].
  destruct (Z.leb_spec x n) as [C|C].
  - rewrite filter_cons_True by done.
    assert (x ∈ missing g) as Hin by set_solver.
    assert (size (missing g) = S (size (missing g ∖ {[x]}))) as Hsz.
    { rewrite size_difference by set_solver. rewrite size_singleton.
      pose proof (subseteq_size {[x]} (missing g) ltac:(set_solver)) as Hs. rewrite size_singleton in Hs. lia. }
    assert (resync_loop (x :: l) n g = resync_loop l n (g <| missing ::= fun m => m ∖ {[x]} |> <| recovered ::= incr |>)) as ->.
    { simpl. by destruct (Z.leb_spec x n); [|lia]. }
    set (g1 := g <| missing ::= fun m => m ∖ {[x]} |> <| recovered ::= incr |>).
    assert (missing g1 = missing g ∖ {[x]}) as M1 by done.
    destruct (IH g1 (r + 1)) as (E1 & E2 & E3 & E4); [done|done| |by apply incr_wrap|].
    { rewrite M1. intros y Hy. assert (y <> x) by (intros ->; by apply elem_of_list_to_set in Hy). set_solver. }
    cbv zeta in *. rewrite E2, E1, M1, Hsz. repeat split; [set_solver| |done|done].
    f_equal. replace (list_to_set (x :: filter (fun x => x <= n) l)) with
      ({[x]} ∪ list_to_set (filter (fun x => x <= n) l) : gset Z) by done.
    rewrite difference_difference_l_L. lia.
  - simpl. destruct (Z.leb_spec x n); [lia|]. rewrite filter_cons_False by lia.
    assert (filter (fun y => y <= n) l = []) as ->.
    { clear -Hle C. induction l as [|y l IH]; [done|]. apply Forall_cons in Hle as [? ?].
      rewrite filter_cons_False by lia. by apply IH. }
    repeat split; [set_solver|]. rewrite Hr. f_equal. lia.
Qed.

(** ** What a recovery tracker is for

    The specification keeps which numbers have been covered since the first one
    and how many were ever skipped. *)

Inductive gap_event := Packet (seq : Z) | Retransmit (seq : Z) | Snapshot (seq : Z).
Definition event_seq (e : gap_event) : Z := match e with Packet s | Retransmit s | Snapshot s => s end.
Definition gap_step (g : GapRecovery) (e : gap_event) : GapRecovery :=
  match e with
  | Packet s => observe g s
  | Retransmit s => (on_retransmit g s).2
  | Snapshot s => snapshot_resync g s
  end.
Definition gap_run : GapRecovery -> list gap_event -> GapRecovery := foldl gap_step.

Record Feed := mkFeed { started : bool; low : Z; next : Z; covered : gset Z; skipped : Z }.
Definition new_feed : Feed := mkFeed false 0 0 ∅ 0.
Definition feed_step (f : Feed) (e : gap_event) : Feed :=
  match e with
  | Packet s =>
      if started f
      then mkFeed true (low f) (Z.max (next f) (s + 1)) ({[s]} ∪ covered f) (skipped f + Z.max 0 (s - next f))
      else mkFeed true s (s + 1) {[s]} 0
  | Retransmit s => if s <? next f then mkFeed (started f) (low f) (next f) ({[s]} ∪ covered f) (skipped f) else f
  | Snapshot s =>
      if started f
      then mkFeed true (low f) (Z.max (next f) (s + 1)) (range (low f) (s + 1) ∪ covered f) (skipped f)
      else mkFeed true (s + 1) (s + 1) ∅ 0
  end.
Definition feed_run : Feed -> list gap_event -> Feed := foldl feed_step.
Definition outstanding_set (f : Feed) : gset Z := range (low f) (next f) ∖ covered f.

Record GapOk (g : GapRecovery) (f : Feed) : Prop := {
  gk_init : initialized g = started f;
  gk_exp : expected g = next f;
  gk_miss : missing g = outstanding_set f;
  gk_rec : recovered g = u64 (skipped f - Z.of_nat (size (outstanding_set f)));
  gk_new : started f = false -> f = new_feed;
  gk_low : 0 <= low f <= next f;
  gk_cov : forall x, x ∈ covered f -> x < next f }.

Lemma gap_new_ok : GapOk new_gap new_feed.
Proof. split; try done. Qed.

Lemma size_remove (x : Z) (s : gset Z) : x ∈ s -> Z.of_nat (size (s ∖ {[x]})) = Z.of_nat (size s) - 1.
Proof.
  intros H. pose proof (subseteq_size {[x]} s ltac:(set_solver)) as Hs. rewrite size_singleton in Hs.
  rewrite size_difference by set_solver. rewrite size_singleton. lia.
Qed.

Lemma remove_notin (x : Z) (s : gset Z) : x ∉ s -> s ∖ {[x]} = s.
Proof. set_solver. Qed.

Ltac set_ranges :=
  repeat (rewrite elem_of_difference || rewrite elem_of_union || rewrite elem_of_range || rewrite elem_of_singleton).
Lemma elem_of_outstanding f x : x ∈ outstanding_set f <-> low f <= x < next f /\ x ∉ covered f.
Proof. unfold outstanding_set. by set_ranges. Qed.
Lemma outstanding_new n c : outstanding_set (mkFeed true n (n + 1) {[n]} c) = ∅.
Proof. apply leibniz_equiv. intros x. rewrite elem_of_outstanding. simpl. set_solver by lia. Qed.

(** A packet skips the numbers before it and covers its own. *)
Lemma outstanding_packet f s :
  started f = true -> low f <= next f -> (forall x, x ∈ covered f -> x < next f) ->
  outstanding_set (feed_step f (Packet s)) = range (next f) s ∪ (outstanding_set f ∖ {[s]}).
Proof.
  intros St Hl Hc. apply leibniz_equiv. intros x. set_ranges. rewrite !elem_of_outstanding.
  simpl. rewrite St. simpl. set_ranges. pose proof (Hc x). destruct (decide (x ∈ covered f)) as [D|D].
  - pose proof (H D). tauto || (split; intros; [exfalso; set_solver by lia|exfalso; set_solver by lia]).
  - split; [intros [? N]|intros [?|[[? _] ?]]]; try (split; [lia|intros [?|?]; [lia|done]]).
    destruct (decide (x < next f)); [right; repeat split; [lia|lia|done|tauto]|left; lia].
Qed.
Lemma size_skip f s :
  next f <= s -> Z.of_nat (size (range (next f) s ∪ outstanding_set f)) = s - next f + Z.of_nat (size (outstanding_set f)).
Proof.
  intros H. rewrite size_union; [by rewrite Nat2Z.inj_add, size_range|].
  intros x. rewrite elem_of_range, elem_of_outstanding. lia.
Qed.

Lemma feed_cov e f :
  (forall x, x ∈ covered f -> x < next f) -> forall x, x ∈ covered (feed_step f e) -> x < next (feed_step f e).
Proof.
  intros H x. specialize (H x). destruct e as [s|s|s]; simpl.
  - destruct (started f); simpl; set_ranges; lia || (intros [?|?]; [lia|specialize (H ltac:(done)); lia]).
  - destruct (Z.ltb_spec s (next f)); simpl; [set_ranges; intros [?|?]; [lia|auto]|done].
  - destruct (started f); simpl; [set_ranges; intros [?|?]; [lia|specialize (H ltac:(done)); lia]|set_solver].
Qed.

Lemma observe_ok g f s : 0 <= s < UINT64_MAX -> GapOk g f -> GapOk (observe g s) (feed_step f (Packet s)).
Proof.
  intros Hs [Hi He Hm Hr Hn Hl Hc]. pose proof (feed_cov (Packet s) f Hc) as Hc'.
  destruct (started f) eqn:St.
  2:{ unfold observe. cbn [initialized]. upd. rewrite Hi. rewrite (Hn eq_refl) in *. simpl in *.
      split; simpl; try done; rewrite ?seq_bound_incr, ?outstanding_new by done; try done; lia. }
  pose proof (outstanding_packet f s St ltac:(lia) Hc) as Ho.
  assert (forall g', initialized g' = true -> expected g' = Z.max (next f) (s + 1) ->
    missing g' = outstanding_set (feed_step f (Packet s)) ->
    recovered g' = u64 (skipped f + Z.max 0 (s - next f) - Z.of_nat (size (missing g'))) ->
    GapOk g' (feed_step f (Packet s))) as Ok.
  { intros g' ? ? E ?. rewrite <- E in *. split; try done; rewrite <- ?E; simpl; rewrite St; simpl; try done. lia. }
  unfold observe. cbn [initialized expected missing]. upd. rewrite Hi, He, Hm. simpl.
  destruct (Z.eqb_spec s (next f)) as [->|N]; [|destruct (Z.ltb_spec (next f) s) as [G|G]].
  - assert (outstanding_set f = outstanding_set (feed_step f (Packet (next f)))) as E.
    { rewrite Ho. apply leibniz_equiv. intros x. set_ranges. rewrite elem_of_outstanding. intuition lia. }
    apply Ok; simpl; rewrite ?Hi; try done.
    + unfold incr. rewrite seq_bound_incr by done. lia.
    + rewrite ?Hr, ?Hm. f_equal. lia.
  - assert (range (next f) s ∪ outstanding_set f = outstanding_set (feed_step f (Packet s))) as E.
    { rewrite Ho. apply leibniz_equiv. intros x. set_ranges. rewrite elem_of_outstanding. intuition lia. }
    apply Ok; simpl; rewrite ?insert_range_union, ?seq_bound_incr, ?Hm by done; try done; [lia|].
    rewrite size_skip, Hr by lia. f_equal. lia.
  - assert (outstanding_set f ∖ {[s]} = outstanding_set (feed_step f (Packet s))) as E.
    { rewrite Ho. apply leibniz_equiv. intros x. set_ranges. rewrite elem_of_outstanding. intuition lia. }
    case_bool_decide as D; apply Ok; simpl; rewrite ?Hi; try done; try lia.
    + rewrite ?Hm, size_remove by done. erewrite incr_wrap by done. f_equal. lia.
    + rewrite ?Hm. etransitivity; [|exact E]. by rewrite remove_notin.
    + rewrite ?Hr, ?Hm. f_equal. lia.
Qed.
Lemma on_retransmit_ok g f s : 0 <= s < UINT64_MAX -> GapOk g f -> GapOk (on_retransmit g s).2 (feed_step f (Retransmit s)).
Proof.
  intros Hs [Hi He Hm Hr Hn Hl Hc]. pose proof (feed_cov (Retransmit s) f Hc) as Hc'.
  assert (outstanding_set (feed_step f (Retransmit s)) = outstanding_set f ∖ {[s]}) as Ho.
  { apply leibniz_equiv. intros x. set_ranges. rewrite !elem_of_outstanding. simpl.
    destruct (Z.ltb_spec s (next f)); simpl; set_ranges; split; intros ?; repeat split; try tauto; lia. }
  assert (started f = false -> feed_step f (Retransmit s) = new_feed) as Hn'.
  { intros F. rewrite (Hn F). simpl. by destruct (Z.ltb_spec s 0); [lia|]. }
  assert (started (feed_step f (Retransmit s)) = started f /\ next (feed_step f (Retransmit s)) = next f /\
    low (feed_step f (Retransmit s)) = low f /\ skipped (feed_step f (Retransmit s)) = skipped f) as (E1 & E2 & E3 & E4).
  { simpl. by destruct (s <? next f). }
  rewrite E2 in Hc'. set (f' := feed_step f (Retransmit s)) in *. clearbody f'.
  unfold on_retransmit. case_bool_decide as D; rewrite Hm in D; split; simpl; rewrite ?Ho, ?E1, ?E2, ?E3, ?E4, ?Hm; try done.
  - rewrite size_remove by done. erewrite incr_wrap by done. f_equal. lia.
  - by rewrite remove_notin.
  - by rewrite remove_notin, Hr.
Qed.
Lemma snapshot_ok g f n : 0 <= n < UINT64_MAX -> GapOk g f -> GapOk (snapshot_resync g n) (feed_step f (Snapshot n)).
Proof.
  intros Hs [Hi He Hm Hr Hn Hl Hc]. pose proof (feed_cov (Snapshot n) f Hc) as Hc'.
  edestruct (resync_loop_spec (sorted_set (missing g)) n g) as (E1 & E2 & E3 & E4);
    [apply sorted_set_sorted|apply sorted_set_NoDup| |exact Hr|].
  { intros x. by rewrite elem_of_list_to_set, elem_of_sorted_set. }
  assert (missing (resync_loop (sorted_set (missing g)) n g) = outstanding_set (feed_step f (Snapshot n))) as M.
  { rewrite E1, Hm. apply leibniz_equiv. intros x. set_ranges.
    rewrite !elem_of_outstanding, elem_of_list_to_set, list_elem_of_filter, elem_of_sorted_set, elem_of_outstanding. simpl.
    destruct (started f) eqn:St; simpl; set_ranges; [|rewrite (Hn eq_refl); simpl; intuition lia].
    destruct (decide (x <= n)), (decide (x < next f)); intuition lia. }
  unfold snapshot_resync. rewrite E3, He, seq_bound_incr by done. assert (size (missing g) = size (outstanding_set f)) as Sz by by rewrite Hm. rewrite M, Sz in E2.
  assert (skipped (feed_step f (Snapshot n)) = skipped f) as Sk.
  { simpl. destruct (started f) eqn:St; [done|by rewrite (Hn eq_refl)]. }
  replace (skipped f - _ + _ - _) with
    (skipped (feed_step f (Snapshot n)) - Z.of_nat (size (outstanding_set (feed_step f (Snapshot n))))) in E2 by lia.
  split; simpl; try done.
  - by destruct (started f).
  - destruct (Z.ltb_spec (next f) (n + 1)), (started f) eqn:St; simpl; try lia. rewrite (Hn eq_refl) in *. simpl in *. lia.
  - by destruct (next f <? n + 1).
  - by destruct (next f <? n + 1).
  - by destruct (started f).
  - destruct (started f); simpl; lia.
Qed.

(** C18: The missing set is exact.  After any history of packets, retransmits
    and snapshots, [missing] holds the numbers from the first one seen up to
    the next expected that no packet, no retransmit asked for and no snapshot
    has covered, [expected] is one past the highest number heard of, and
    [recovered] counts the skipped numbers no longer missing. *)
Theorem gap_missing_exact (l : list gap_event) :
  Forall (fun e => 0 <= event_seq e < UINT64_MAX) l ->
  let g := gap_run new_gap l in let f := feed_run new_feed l in
  initialized g = started f /\ expected g = next f /\
  (forall x, x ∈ missing g <-> low f <= x < next f /\ x ∉ covered f) /\
  recovered g = u64 (skipped f - missing_count g) /\
  (has_gaps g = true <-> exists x, low f <= x < next f /\ x ∉ covered f).
Proof.
  intros Hl g f. assert (GapOk g f) as [Hi He Hm Hr _ _ _].
  { subst g f. unfold gap_run, feed_run. generalize gap_new_ok. generalize new_gap, new_feed.
    induction Hl as [|e l He Hl IH]; intros g f Ok; [done|]. apply IH.
    destruct e; [by apply observe_ok|by apply on_retransmit_ok|by apply snapshot_ok]. }
  unfold missing_count, set_size, has_gaps. rewrite Hm. split_and!; try done; [intros x; apply elem_of_outstanding|].
  split.
  - intros H%negb_true_iff%bool_decide_eq_false. apply set_choose_L in H as [x Hx]. exists x. by apply elem_of_outstanding.
  - intros [x Hx%elem_of_outstanding]. apply negb_true_iff, bool_decide_eq_false. set_solver.
Qed.
Lemma gap_missing_exact_witness :
  let l := [Packet 10; Packet 14; Retransmit 12; Packet 11; Snapshot 12; Packet 12; Packet 16] in
  missing (gap_run new_gap l) = {[13; 15]} /\ recovered (gap_run new_gap l) = 2 /\
  initialized (gap_run new_gap l) = started (feed_run new_feed l).
Proof.
  intros l. split; [by vm_compute|]. split; [by vm_compute|].
  refine (proj1 (gap_missing_exact l _)). repeat constructor; by vm_compute.
Defined.

(** ** Each number is delivered once *)

(** Packets from the two lines in arrival order; the numbers let through. *)
Fixpoint ab_run (a : ABLineArbitrator) (l : list (Z * bool)) : list Z * ABLineArbitrator :=
  match l with
  | [] => ([], a)
  | (s, from_a) :: l' =>
      let '(new, a) := ab_on_packet a s from_a in
      let '(d, a) := ab_run a l' in (if new then s :: d else d, a)
  end.

(** [seen] are the numbers delivered so far, the first of them [first]. *)
Record AbOk (a : ABLineArbitrator) (first : Z) (seen : gset Z) (n : Z) : Prop := {
  ak_gap : exists f, GapOk (rec a) f /\ started f = true /\ low f = first /\ covered f = seen;
  ak_low : forall x, x ∈ seen -> first <= x;
  ak_sum : u64 (a_first a + b_first a + dups a) = u64 n;
  ak_cnt : u64 (a_first a + b_first a) = u64 (Z.of_nat (size seen)) }.

Lemma is_new_started g f s :
  GapOk g f -> started f = true -> 0 <= s < UINT64_MAX ->
  is_new g s = true <-> next f <= s \/ (low f <= s /\ s ∉ covered f).
Proof.
  intros [Hi He Hm _ _ Hl Hc] St Hs. unfold is_new. rewrite Hi, St, He, Hm. simpl.
  rewrite orb_true_iff, bool_decide_eq_true, elem_of_outstanding, Z.leb_le. specialize (Hc s).
  destruct (decide (s < next f)); intuition lia.
Qed.

Lemma ab_step a first seen n s from_a :
  0 <= s < UINT64_MAX -> AbOk a first seen n ->
  let '(new, a') := ab_on_packet a s from_a in
  (new = true <-> first <= s /\ s ∉ seen) /\ AbOk a' first (if new then {[s]} ∪ seen else seen) (n + 1).
Proof.
  intros Hs [(f & Ok & St & Lo & Cov) Hlow Hsum Hcnt].
  pose proof (is_new_started _ _ s Ok St Hs) as Hn. rewrite Lo, Cov in Hn.
  assert (is_new (rec a) s = true <-> first <= s /\ s ∉ seen) as Hn'.
  { rewrite Hn. split; [intros [?|?]; [|done]|auto]. split; [pose proof (gk_low _ _ Ok); lia|].
    rewrite <- Cov. intros Hx%(gk_cov _ _ Ok). lia. }
  unfold ab_on_packet. destruct (is_new (rec a) s); simpl; split; try done.
  - apply proj1 in Hn'. destruct (Hn' eq_refl) as [Hf Hx].
    assert (GapOk (observe (rec a) s) (feed_step f (Packet s))) as Ok' by by apply observe_ok.
    assert (u64 (incr (a_first a) + b_first a) = u64 (a_first a + b_first a + 1) /\
            u64 (a_first a + incr (b_first a)) = u64 (a_first a + b_first a + 1)) as [Ea Eb].
    { unfold incr. rewrite wrapu_add_l, wrapu_add_r. split; f_equal; lia. }
    assert (u64 (a_first a + b_first a + 1 + dups a) = u64 (n + 1)) as En.
    { rewrite <- (wrapu_add_l 64 n), <- Hsum, wrapu_add_l. f_equal. lia. }
    assert (u64 (a_first a + b_first a + 1) = u64 (Z.of_nat (size ({[s]} ∪ seen)))) as Es.
    { rewrite size_union, size_singleton by set_solver.
      rewrite <- (wrapu_add_l 64 (a_first a + b_first a)), Hcnt, wrapu_add_l. f_equal. lia. }
    split.
    + exists (feed_step f (Packet s)). split; [by destruct from_a|]. simpl. rewrite St. simpl. by rewrite Lo, Cov.
    + intros x. rewrite elem_of_union, elem_of_singleton. intros [->|?]; auto.
    + rewrite <- En, <- (wrapu_add_l 64 (_ + 1)). destruct from_a; simpl.
      * by rewrite <- Ea, wrapu_add_l.
      * by rewrite <- Eb, wrapu_add_l.
    + rewrite <- Es. destruct from_a; simpl; done.
  - split; simpl; try done; [by exists f|].
    unfold incr. rewrite wrapu_add_r, <- (wrapu_add_l 64 n), <- Hsum, wrapu_add_l. f_equal. lia.
Qed.

Lemma union_swap (x y z : gset Z) : x ∪ (y ∪ z) = (y ∪ x) ∪ z.
Proof. set_solver. Qed.
Lemma ab_run_ok l a first seen n :
  Forall (fun p => 0 <= p.1 < UINT64_MAX) l -> AbOk a first seen n ->
  let '(d, a') := ab_run a l in
  NoDup d /\ (forall x, x ∈ d <-> x ∈ l.*1 /\ first <= x /\ x ∉ seen) /\
  AbOk a' first (list_to_set d ∪ seen) (n + alen l).
Proof.
  intros Hl. revert a seen n. induction Hl as [|[s from_a] l Hs Hl IH]; intros a seen n Ok; simpl.
  { split_and!; [constructor|set_solver|]. unfold alen. simpl. rewrite Z.add_0_r, union_empty_l_L. done. }
  pose proof (ab_step a first seen n s from_a Hs Ok) as Hstep.
  destruct (ab_on_packet a s from_a) as [new a1]. destruct Hstep as [Hnew Ok1].
  specialize (IH _ _ _ Ok1). destruct (ab_run a1 l) as [d a2]. destruct IH as (Hd & Hin & Ok2).
  replace (n + alen ((s, from_a) :: l)) with (n + 1 + alen l) by (unfold alen; simpl; lia).
  destruct new; simpl.
  - split_and!.
    + constructor; [rewrite Hin; set_solver|done].
    + intros x. rewrite !elem_of_cons, Hin, elem_of_union, elem_of_singleton.
      destruct (decide (x = s)) as [->|]; [|naive_solver]. destruct Hnew as [[??] _]; naive_solver.
    + by rewrite union_swap in Ok2.
  - split_and!; [done| |done]. intros x. rewrite elem_of_cons, Hin.
    destruct (decide (x = s)) as [->|]; [|naive_solver].
    split; [naive_solver|]. intros (_ & ? & ?). exfalso. by destruct Hnew as [_ Hnew]; discriminate Hnew.
Qed.

(** C19: A/B arbitration delivers exactly once.  Whatever packets the two lines
    carry and however they interleave, every number from the first one on
    that arrives on either line is let through exactly once; the lines' wins
    add up to the deliveries and everything else is counted a duplicate. *)
Theorem ab_exactly_once (s : Z) (from_a : bool) (l : list (Z * bool)) :
  Forall (fun p => 0 <= p.1 < UINT64_MAX) ((s, from_a) :: l) -> alen l < UINT64_MAX ->
  let d := (ab_run new_ab ((s, from_a) :: l)).1 in let a := (ab_run new_ab ((s, from_a) :: l)).2 in
  NoDup d /\ (forall x, x ∈ d <-> x ∈ ((s, from_a) :: l).*1 /\ s <= x) /\
  u64 (a_first a + b_first a) = alen d /\ u64 (dups a) = alen l + 1 - alen d.
Proof.
  intros [Hs Hl]%Forall_cons Hlen. simpl in Hs.
  pose proof (alen_nonneg l) as Hnn.
  assert (let '(new, a) := ab_on_packet new_ab s from_a in new = true /\ AbOk a s {[s]} 1) as H1.
  { unfold ab_on_packet. simpl. split; [done|].
    pose proof (observe_ok _ _ s Hs gap_new_ok) as Ok. simpl in Ok.
    split; [eexists; split; [by destruct from_a|done]|set_solver by lia| |]; rewrite ?size_singleton; by destruct from_a. }
  cbn [ab_run]. destruct (ab_on_packet new_ab s from_a) as [new a1]. destruct H1 as [-> Ok1].
  pose proof (ab_run_ok l a1 s {[s]} 1 Hl Ok1) as Hr. destruct (ab_run a1 l) as [d a2].
  destruct Hr as (Hd & Hin & [_ _ Hsum Hcnt]).
  assert (s ∉ d) as Hsd by (rewrite Hin; set_solver).
  rewrite size_union, size_singleton, size_list_to_set in Hcnt by (done || set_solver).
  assert (length d <= length l)%nat as Hle.
  { rewrite <- (length_fmap fst l). apply submseteq_length, NoDup_submseteq; [done|]. intros x. rewrite Hin. tauto. }
  cbn [fst snd]. unfold alen in *.
  assert (Z.of_nat (length (s :: d)) = Z.of_nat (length d) + 1) as Hlc by (simpl; lia).
  split_and!.
  - by constructor.
  - intros x. rewrite fmap_cons, !elem_of_cons, Hin, elem_of_singleton. cbn [fst].
    destruct (decide (x = s)) as [->|]; [|naive_solver]. split; [intros _; split; [by left|lia]|by left].
  - rewrite Hlc, Hcnt. rewrite u64_small by (unfold UINT64_MAX in *; lia). lia.
  - transitivity (u64 (u64 (a_first a2 + b_first a2 + dups a2) - u64 (a_first a2 + b_first a2))).
    + unfold wrapu. rewrite <- Zminus_mod. f_equal. lia.
    + rewrite Hlc, Hsum, Hcnt. unfold wrapu. rewrite <- Zminus_mod.
      rewrite Z.mod_small; unfold UINT64_MAX in *; lia.
Qed.
Lemma ab_exactly_once_witness :
  let l := [(5, true); (5, false); (8, false); (6, false); (7, true); (6, true); (8, true); (3, true)] in
  (ab_run new_ab l).1 = [5; 8; 6; 7] /\ NoDup (ab_run new_ab l).1.
Proof.
  intros l. split; [by vm_compute|].
  refine (proj1 (ab_exactly_once 5 true (tail l) _ _)); [by apply (bool_decide_unpack _); vm_compute|by vm_compute].
Defined.

(** ** In-order release *)

Section reorder.
Context {T : Type} (f : Z -> T) (s0 : Z).

Definition push_all : ReorderBuffer T -> list Z -> ReorderBuffer T := foldl (fun b s => rb_push b s (f s)).

(** [seen] are the numbers pushed so far; within a push the next expected one
    may itself be pending. *)
Record RbInv (b : ReorderBuffer T) (seen : gset Z) : Prop := {
  rv_init : rb_initialized b = true;
  rv_low : s0 <= rb_expected b;
  rv_out : out b = (f <$> seqZ s0 (rb_expected b - s0));
  rv_all : forall x, s0 <= x < rb_expected b -> x ∈ seen;
  rv_pend : forall x v, pending b !! x = Some v <-> x ∈ seen /\ rb_expected b <= x /\ v = f x }.

Lemma seqZ_snoc lo hi : lo <= hi -> seqZ lo (hi + 1 - lo) = seqZ lo (hi - lo) ++ [hi].
Proof.
  intros H. replace (hi + 1 - lo) with ((hi - lo) + 1) by lia. rewrite seqZ_app by lia.
  replace (lo + (hi - lo)) with hi by lia. done.
Qed.

Lemma release_ok fuel b seen :
  (forall x, x ∈ seen -> 0 <= x < UINT64_MAX) -> (size (pending b) <= fuel)%nat -> RbInv b seen ->
  RbInv (release fuel b) seen /\ rb_expected (release fuel b) ∉ seen /\ rb_duplicates (release fuel b) = rb_duplicates b.
Proof.
  intros Hr. revert b. induction fuel as [|fuel IH]; intros b Hf [Hi Hl Ho Ha Hp]; simpl.
  - split; [by split|]. split; [|done]. intros Hx.
    assert (pending b !! rb_expected b = Some (f (rb_expected b))) as E by by apply Hp.
    assert (pending b = ∅) as E' by (apply map_size_empty_iff; lia). by rewrite E', lookup_empty in E.
  - destruct (pending b !! rb_expected b) as [v|] eqn:E.
    + pose proof (proj1 (Hp _ _) E) as (Hx & _ & ->).
      assert (rb_expected b + 1 = incr (rb_expected b)) as Ei by (symmetry; apply seq_bound_incr; auto).
      match goal with |- RbInv (release fuel ?b') seen /\ _ => destruct (IH b') as [H1 H2] end; [| |done].
      * simpl. rewrite map_size_delete_Some by by eexists. lia.
      * split; simpl; rewrite <- ?Ei; try done; [lia| | |].
        -- rewrite Ho, seqZ_snoc, fmap_app by lia. done.
        -- intros x Hx'. destruct (decide (x = rb_expected b)) as [->|]; [done|]. apply Ha. lia.
        -- intros x v. rewrite lookup_delete_Some, Hp. split; [intros (? & ? & ? & ?)|intros (? & ? & ?)]; repeat split; try done; lia.
    + split; [by split|]. split; [|done]. intros Hx.
      assert (pending b !! rb_expected b = Some (f (rb_expected b))) by by apply Hp. congruence.
Qed.

Lemma rb_push_ok b seen s :
  (forall x, x ∈ {[s]} ∪ seen -> 0 <= x < UINT64_MAX) -> RbInv b seen -> rb_expected b ∉ seen ->
  RbInv (rb_push b s (f s)) ({[s]} ∪ seen) /\ rb_expected (rb_push b s (f s)) ∉ {[s]} ∪ seen.
Proof.
  intros Hr [Hi Hl Ho Ha Hp] Hn. unfold rb_push. rewrite Hi.
  destruct (Z.ltb_spec s (rb_expected b)).
  - split; [split; simpl; try done|simpl; rewrite elem_of_union, elem_of_singleton; intros [?|?]; [lia|done]].
    + intros x Hx. apply elem_of_union. by right; apply Ha.
    + intros x v. rewrite Hp, elem_of_union, elem_of_singleton. intuition lia.
  - match goal with |- RbInv (release _ ?b') _ /\ _ => destruct (release_ok (size (pending b')) b' ({[s]} ∪ seen)) as (H1 & H2 & _) end;
      [done|done| |done].
    split; simpl; try done.
    + intros x Hx. apply elem_of_union. by right; apply Ha.
    + intros x v. rewrite lookup_insert_Some, Hp, elem_of_union, elem_of_singleton.
      destruct (decide (x = s)) as [->|]; intuition (lia || congruence).
Qed.

Lemma push_all_ok l b seen :
  Forall (fun x => 0 <= x < UINT64_MAX) l -> (forall x, x ∈ seen -> 0 <= x < UINT64_MAX) ->
  RbInv b seen -> rb_expected b ∉ seen ->
  RbInv (push_all b l) (list_to_set l ∪ seen) /\ rb_expected (push_all b l) ∉ list_to_set l ∪ seen.
Proof.
  intros Hl. revert b seen. induction Hl as [|s l Hs Hl IH]; intros b seen Hr Hb Hn; simpl.
  { by rewrite union_empty_l_L. }
  assert (forall x, x ∈ {[s]} ∪ seen -> 0 <= x < UINT64_MAX) as Hr'.
  { intros x. rewrite elem_of_union, elem_of_singleton. intros [->|?]; auto. }
  destruct (rb_push_ok b seen s Hr' Hb Hn) as [Hb' Hn']. rewrite <- union_swap. by apply IH.
Qed.
Lemma push_all_first l :
  Forall (fun x => 0 <= x < UINT64_MAX) (s0 :: l) ->
  RbInv (push_all new_reorder (s0 :: l)) (list_to_set (s0 :: l)) /\
  rb_expected (push_all new_reorder (s0 :: l)) ∉ s0 :: l.
Proof.
  intros Hl. destruct (push_all_ok (s0 :: l) (mkReorder s0 true ∅ [] 0 0) ∅) as [Ok Hn]; try done.
  { split; simpl; try done; [by rewrite Z.sub_diag|lia|]. intros x v. rewrite lookup_empty. split; [done|intros [? _]; set_solver]. }
  rewrite union_empty_r_L in Ok, Hn. by rewrite elem_of_list_to_set in Hn.
Qed.
End reorder.

(** C20: The reorder buffer releases the longest in-order prefix at once.  After
    pushes in any order, with repeats and holes, [out] is the payloads of the
    numbers from the first pushed up to [expected], in order and once each;
    [expected] is the least number not pushed, so nothing that could be
    released is held back; what stays pending is exactly what lies beyond. *)
Theorem reorder_in_order {T} (f : Z -> T) (s0 : Z) (l : list Z) :
  Forall (fun x => 0 <= x < UINT64_MAX) (s0 :: l) ->
  let b := push_all f new_reorder (s0 :: l) in
  out b = (f <$> seqZ s0 (rb_expected b - s0)) /\
  (forall x, s0 <= x < rb_expected b -> x ∈ s0 :: l) /\ s0 < rb_expected b /\ rb_expected b ∉ s0 :: l /\
  (forall x v, pending b !! x = Some v <-> x ∈ s0 :: l /\ rb_expected b < x /\ v = f x).
Proof.
  intros Hl b. destruct (push_all_first f s0 l Hl) as [[_ Hlow Ho Ha Hp] Hn]. fold b in Hlow, Ho, Ha, Hp, Hn. clearbody b.
  assert (rb_expected b <> s0) by (intros E; apply Hn; rewrite E; by left).
  split_and!; [done| |lia|done|].
  - intros x Hx. by apply (elem_of_list_to_set (C:=gset Z)), Ha.
  - intros x v. rewrite Hp, elem_of_list_to_set.
    split; intros (Hx & ? & ->); split_and!; try done; [|lia].
    destruct (decide (x = rb_expected b)) as [->|]; [done|lia].
Qed.
Lemma reorder_in_order_witness :
  let b := push_all (fun x => x * x) new_reorder [10; 13; 11; 15; 10; 12; 9] in
  rb_expected b = 14 /\ out b = [100; 121; 144; 169] /\ out b = (fun x => x * x) <$> seqZ 10 (rb_expected b - 10).
Proof.
  intros b. split; [by vm_compute|]. split; [by vm_compute|].
  refine (proj1 (reorder_in_order (fun x => x * x) 10 [13; 11; 15; 10; 12; 9] _)).
  by apply (bool_decide_unpack _); vm_compute.
Defined.

(** ** The tracker without payloads finds the same frontier *)

Section contiguous.
Context (s0 : Z).
Record CtInv (c : ContiguousTracker) (seen : gset Z) : Prop := {
  cv_low : s0 <= next_expected c;
  cv_all : forall x, s0 <= x < next_expected c -> x ∈ seen;
  cv_ahead : forall x, x ∈ ahead c <-> x ∈ seen /\ next_expected c <= x }.

Lemma advance_ok fuel c seen :
  (forall x, x ∈ seen -> 0 <= x < UINT64_MAX) -> (size (ahead c) <= fuel)%nat -> CtInv c seen ->
  CtInv (advance fuel c) seen /\ next_expected (advance fuel c) ∉ seen.
Proof.
  intros Hr. revert c. induction fuel as [|fuel IH]; intros c Hf [Hl Ha Hh]; simpl.
  - split; [done|]. intros Hx. assert (next_expected c ∈ ahead c) as E by by apply Hh.
    assert (ahead c ≡ ∅) as E' by (apply size_empty_iff; lia). set_solver.
  - case_bool_decide as D; [|split; [done|]; intros Hx; apply D; by apply Hh].
    destruct (proj1 (Hh _) D) as [Hx _]. apply IH; simpl.
    + pose proof (size_remove _ _ D). lia.
    + unfold incr. rewrite seq_bound_incr by auto. split; simpl; [lia| |].
      * intros x Hx'. destruct (decide (x = next_expected c)) as [->|]; [done|]. apply Ha. lia.
      * intros x. rewrite elem_of_difference, elem_of_singleton, Hh. intuition lia.
Qed.

Lemma receive_ok c seen s :
  (forall x, x ∈ {[s]} ∪ seen -> 0 <= x < UINT64_MAX) -> CtInv c seen -> next_expected c ∉ seen ->
  CtInv (receive c s) ({[s]} ∪ seen) /\ next_expected (receive c s) ∉ {[s]} ∪ seen.
Proof.
  intros Hr [Hl Ha Hh] Hn. unfold receive.
  assert (forall x, x ∈ {[s]} ∪ seen <-> x = s \/ x ∈ seen) as Hu by (intros x; by rewrite elem_of_union, elem_of_singleton).
  zcase; [|zcase].
  - rewrite Hu. split; [|intuition lia]. split; [done| |]; intros x; rewrite Hu; [auto|]. rewrite Hh. intuition lia.
  - apply advance_ok; [done|done|]. unfold incr. simpl. subst s. rewrite seq_bound_incr by (apply Hr, Hu; by left).
    split; simpl; [lia| |]; intros x; rewrite Hu.
    + intros ?. destruct (decide (x = next_expected c)); [by left|right; apply Ha; lia].
    + rewrite Hh. destruct (decide (x = next_expected c)) as [->|]; intuition lia.
  - simpl. rewrite Hu. split; [|intuition lia]. split; simpl; [done| |]; intros x; rewrite Hu; [auto|].
    rewrite elem_of_union, elem_of_singleton, Hh. intuition lia.
Qed.

Lemma receive_all_ok l c seen :
  Forall (fun x => 0 <= x < UINT64_MAX) l -> (forall x, x ∈ seen -> 0 <= x < UINT64_MAX) ->
  CtInv c seen -> next_expected c ∉ seen ->
  CtInv (foldl receive c l) (list_to_set l ∪ seen) /\ next_expected (foldl receive c l) ∉ list_to_set l ∪ seen.
Proof.
  intros Hl. revert c seen. induction Hl as [|s l Hs Hl IH]; intros c seen Hr Hb Hn; simpl.
  { by rewrite union_empty_l_L. }
  assert (forall x, x ∈ {[s]} ∪ seen -> 0 <= x < UINT64_MAX) as Hr'.
  { intros x. rewrite elem_of_union, elem_of_singleton. intros [->|?]; auto. }
  destruct (receive_ok c seen s Hr' Hb Hn) as [Hb' Hn']. rewrite <- union_swap. by apply IH.
Qed.
End contiguous.

(** A [ContiguousTracker] started at the first number and a reorder buffer
    fed the same numbers agree: the same next number is expected, and what the
    tracker remembers ahead is what the buffer holds pending. *)
Lemma contiguous_is_reorder (s0 : Z) (l : list Z) :
  Forall (fun x => 0 <= x < UINT64_MAX) (s0 :: l) ->
  let c := foldl receive (ct_reset s0) (s0 :: l) in
  let b := push_all id new_reorder (s0 :: l) in
  next_expected c = rb_expected b /\ ahead c = dom (pending b) /\ ct_buffered c = rb_buffered b.
Proof.
  intros Hl c b. destruct (push_all_first id s0 l Hl) as [[_ Hlow _ Ha Hp] Hn]. fold b in Hlow, Ha, Hp, Hn.
  destruct (receive_all_ok s0 (s0 :: l) (ct_reset s0) ∅ Hl) as [[Hl' Ha' Hh] Hn']; [done|split; simpl; [lia|lia|set_solver]|done|].
  rewrite union_empty_r_L in Ha', Hh, Hn'. fold c in Hl', Ha', Hh, Hn'. rewrite elem_of_list_to_set in Hn'.
  assert (next_expected c = rb_expected b) as E.
  { destruct (Z.lt_trichotomy (next_expected c) (rb_expected b)) as [?|[?|?]]; [|done|].
    - destruct Hn'. by apply (elem_of_list_to_set (C:=gset Z)), Ha.
    - destruct Hn. by apply (elem_of_list_to_set (C:=gset Z)), Ha'. }
  assert (ahead c = dom (pending b)) as Ed.
  { apply leibniz_equiv. intros x. rewrite elem_of_dom, Hh, E. split.
    - intros [??]. exists x. by apply Hp.
    - intros [v Hv]. apply Hp in Hv. tauto. }
  split_and!; [done|done|]. unfold ct_buffered, set_size, rb_buffered. by rewrite Ed, size_dom.
Qed.
Lemma contiguous_is_reorder_witness :
  let c := foldl receive (ct_reset 4) [4; 7; 5; 9; 3] in
  next_expected c = 6 /\ next_expected c = rb_expected (push_all id new_reorder [4; 7; 5; 9; 3]).
Proof.
  intros c. split; [by vm_compute|].
  refine (proj1 (contiguous_is_reorder 4 [7; 5; 9; 3] _)). by apply (bool_decide_unpack _); vm_compute.
Defined.
