(* ===== verification/Multicast.v ===== *)
(** * Multicast: market-data messages, MoldUDP64 packets and their sequencing

    [multicast/multicast.hpp]: the 40-byte message, the MoldUDP64 header and
    packet, the sequence tracker, the arbitrated receiver and the latency
    counters.  A buffer is its bytes; [sendto] and [recv] are not modelled, but
    what [MulticastReceiver::receive] does with the bytes received is. *)
From S2P Require Import Prelude Double Common Bytes.

Definition MC_MSG_SIZE : nat := 40.

(** ** Big-endian integers ([mc_endian]) *)

Definition write_u16_be (val : Z) : list Z := [u8 (Z.shiftr val 8); u8 val].
Definition write_u32_be (val : Z) : list Z := [u8 (Z.shiftr val 24); u8 (Z.shiftr val 16); u8 (Z.shiftr val 8); u8 val].
Definition write_u64_be (val : Z) : list Z :=
  [u8 (Z.shiftr val 56); u8 (Z.shiftr val 48); u8 (Z.shiftr val 40); u8 (Z.shiftr val 32);
   u8 (Z.shiftr val 24); u8 (Z.shiftr val 16); u8 (Z.shiftr val 8); u8 val].
Definition read_u16_be (off : nat) (buf : list Z) : option Z :=
  b ← slice off 2 buf; Some (Z.lor (Z.shiftl (aget b 0) 8) (aget b 1)).
Definition read_u32_be (off : nat) (buf : list Z) : option Z :=
  b ← slice off 4 buf;
  Some (Z.lor (Z.lor (Z.lor (Z.shiftl (aget b 0) 24) (Z.shiftl (aget b 1) 16)) (Z.shiftl (aget b 2) 8)) (aget b 3)).
Definition read_u64_be (off : nat) (buf : list Z) : option Z :=
  b ← slice off 8 buf;
  Some (Z.lor (Z.lor (Z.lor (Z.lor (Z.lor (Z.lor (Z.lor (Z.shiftl (aget b 0) 56) (Z.shiftl (aget b 1) 48))
    (Z.shiftl (aget b 2) 40)) (Z.shiftl (aget b 3) 32)) (Z.shiftl (aget b 4) 24)) (Z.shiftl (aget b 5) 16))
    (Z.shiftl (aget b 6) 8)) (aget b 7)).

(** ** Messages *)

Record MarketDataMessage := mkMsg {
  sequence : Z; timestamp_ns : Z; symbol : list Z; price : Z; quantity : Z; side : Z; msg_type : Z }.
Inductive MsgType := ADD | DELETE | TRADE | UPDATE | QUOTE | SYSTEM.
Definition type_char (t : MsgType) : Z :=
  match t with ADD => 65 | DELETE => 68 | TRADE => 84 | UPDATE => 85 | QUOTE => 81 | SYSTEM => 83 end.
(** The eight symbol bytes, the first eight of [symbol]. *)
Definition serialize (msg : MarketDataMessage) : list Z :=
  write_u64_be (sequence msg) ++ write_u64_be (timestamp_ns msg) ++ take 8 (symbol msg) ++
  write_u64_be (u64 (price msg)) ++ write_u32_be (quantity msg) ++ [u8 (side msg)] ++ [u8 (msg_type msg)] ++ [0; 0].
Definition deserialize (buf : list Z) : option MarketDataMessage :=
  if decide (length buf < MC_MSG_SIZE)%nat then None else
  seq ← read_u64_be 0 buf; ts ← read_u64_be 8 buf; sym ← slice 16 8 buf;
  px ← read_u64_be 24 buf; qty ← read_u32_be 32 buf; sd ← byte_at 36 buf; ty ← byte_at 37 buf;
  Some (mkMsg seq ts sym (i64 px) qty sd ty).
(** A field of fixed length, padded with spaces. *)
Definition padded (n : nat) (s : cstr) : list Z := take n s ++ replicate (n - length s) 32.
Definition make_message (now : Z) (seq : Z) (sym : cstr) (price_ qty side_ : Z) (type : MsgType) : MarketDataMessage :=
  mkMsg seq now (padded 8 sym) price_ qty side_ (type_char type).

(** ** Sequence tracking *)

Inductive Status := OK | GAP | DUPLICATE.
Record SequenceTracker := mkTracker {
  expected_seq : Z; received : Z; gaps : Z; lost : Z; duplicates : Z; initialized : bool }.
#[export] Instance eta_tracker : Settable SequenceTracker := fun t =>
  mkTracker (expected_seq t) (received t) (gaps t) (lost t) (duplicates t) (initialized t).
Definition new_tracker : SequenceTracker := mkTracker 0 0 0 0 0 false.
Definition plus (k n : Z) : Z := u64 (n + k).
Definition observe (t : SequenceTracker) (seq : Z) : Status * SequenceTracker :=
  if negb (initialized t) then
    (OK, t <| initialized := true |> <| expected_seq := u64 (seq + 1) |> <| received ::= plus 1 |>) else
  if seq =? expected_seq t then (OK, t <| expected_seq ::= plus 1 |> <| received ::= plus 1 |>) else
  if expected_seq t <? seq then
    (GAP, t <| gaps ::= plus 1 |> <| lost ::= plus (seq - expected_seq t) |> <| expected_seq := u64 (seq + 1) |>
            <| received ::= plus 1 |>)
  else (DUPLICATE, t <| duplicates ::= plus 1 |>).
Definition observe_packet (t : SequenceTracker) (packet_seq count : Z) : Status * SequenceTracker :=
  if negb (initialized t) then
    (OK, t <| initialized := true |> <| expected_seq := u64 (packet_seq + count) |> <| received ::= plus count |>) else
  if packet_seq =? expected_seq t then (OK, t <| expected_seq ::= plus count |> <| received ::= plus count |>) else
  if expected_seq t <? packet_seq then
    (GAP, t <| gaps ::= plus 1 |> <| lost ::= plus (packet_seq - expected_seq t) |>
            <| expected_seq := u64 (packet_seq + count) |> <| received ::= plus count |>) else
  let packet_end := u64 (packet_seq + count) in
  if packet_end <=? expected_seq t then (DUPLICATE, t <| duplicates ::= plus 1 |>) else
  (DUPLICATE, t <| received ::= plus (packet_end - expected_seq t) |> <| expected_seq := packet_end |>
                <| duplicates ::= plus 1 |>).
Definition loss_rate (t : SequenceTracker) : double :=
  let total := u64 (received t + lost t) in
  if 0 <? total then ddiv (dbl_of_Z (lost t)) (dbl_of_Z total) else d_zero.

(** ** MoldUDP64 *)

Definition MOLD_HEADER_SIZE : nat := 20.
Definition MOLD_SESSION_LEN : nat := 10.
Definition MOLD_HEARTBEAT : Z := 0.
Definition MOLD_END_OF_SESSION : Z := 65535.
Record MoldUDP64Header := mkHeader { session : list Z; h_sequence : Z; message_count : Z }.
Definition mold_write_header (session_ : cstr) (seq count : Z) : list Z :=
  padded MOLD_SESSION_LEN session_ ++ write_u64_be seq ++ write_u16_be count.
Definition mold_read_header (buf : list Z) : option MoldUDP64Header :=
  if decide (length buf < MOLD_HEADER_SIZE)%nat then None else
  s ← slice 0 MOLD_SESSION_LEN buf; seq ← read_u64_be 10 buf; count ← read_u16_be 18 buf;
  Some (mkHeader s seq count).
Definition mold_message (m : MarketDataMessage) : list Z := write_u16_be (Z.of_nat MC_MSG_SIZE) ++ serialize m.
(** The bytes written into a buffer of [cap] bytes; none when they do not fit. *)
Definition mold_serialize_packet (cap : nat) (session_ : cstr) (first_seq : Z) (msgs : list MarketDataMessage) : list Z :=
  let needed := (MOLD_HEADER_SIZE + length msgs * (2 + MC_MSG_SIZE))%nat in
  if decide (cap < needed)%nat then [] else
  mold_write_header session_ first_seq (Z.of_nat (length msgs)) ++ concat (mold_message <$> msgs).
(** Message blocks from [off] on: whether all were there, and the messages the
    callback saw. *)
Fixpoint mold_loop (count : nat) (off : nat) (buf : list Z) : bool * list MarketDataMessage :=
  match count with
  | O => (true, [])
  | S count' =>
      if decide (length buf < off + 2)%nat then (false, []) else
      match read_u16_be off buf with
      | None => (false, [])
      | Some mlen =>
          let off := (off + 2)%nat in
          let mlen := Z.to_nat mlen in
          if decide (length buf < off + mlen)%nat then (false, []) else
          let m := if decide (MC_MSG_SIZE <= mlen)%nat then deserialize (take mlen (drop off buf)) else None in
          let '(ok, ms) := mold_loop count' (off + mlen) buf in
          (ok, match m with Some m => m :: ms | None => ms end)
      end
  end.
Definition is_control (h : MoldUDP64Header) : bool :=
  (message_count h =? MOLD_HEARTBEAT) || (message_count h =? MOLD_END_OF_SESSION).
Record MoldResult := mkMold { ret : Z; header : option MoldUDP64Header; tracker_after : SequenceTracker; msgs_out : list MarketDataMessage }.
Definition mold_parse_packet (buf : list Z) (tracker : SequenceTracker) : MoldResult :=
  match mold_read_header buf with
  | None => mkMold (-1) None tracker []
  | Some h =>
      let tracker := (observe_packet tracker (h_sequence h) (if is_control h then 0 else message_count h)).2 in
      if is_control h then mkMold 0 (Some h) tracker [] else
      let '(ok, ms) := mold_loop (Z.to_nat (message_count h)) MOLD_HEADER_SIZE buf in
      mkMold (if ok then message_count h else -1) (Some h) tracker ms
  end.

(** ** Receivers *)

(** [recv] returned [n] and filled the buffer with [buf]. *)
Definition mc_receive (seq : SequenceTracker) (n : Z) (buf : list Z) (recv_ts : Z)
    : Z * option (MarketDataMessage * Status) * SequenceTracker :=
  if n <=? 0 then (0, None, seq) else
  if n <? Z.of_nat MC_MSG_SIZE then (0, None, seq) else
  match deserialize (take (Z.to_nat n) buf) with
  | None => (0, None, seq)
  | Some msg => let '(st, seq) := observe seq (sequence msg) in (recv_ts, Some (msg, st), seq)
  end.

Inductive Line := LineA | LineB.
Inductive ArbResult := ArbFresh | ArbDuplicate | ArbGap.
Record ArbitratedReceiver := mkArb { tracker_ : SequenceTracker; from_a_ : Z; from_b_ : Z; deduped_ : Z }.
#[export] Instance eta_arb : Settable ArbitratedReceiver := fun a => mkArb (tracker_ a) (from_a_ a) (from_b_ a) (deduped_ a).
Definition credit (line : Line) (a : ArbitratedReceiver) : ArbitratedReceiver :=
  match line with LineA => a <| from_a_ ::= plus 1 |> | LineB => a <| from_b_ ::= plus 1 |> end.
Definition arb_observe (a : ArbitratedReceiver) (line : Line) (packet_seq count : Z) : ArbResult * ArbitratedReceiver :=
  let '(st, t) := observe_packet (tracker_ a) packet_seq count in
  let a := a <| tracker_ := t |> in
  match st with
  | OK => (ArbFresh, credit line a)
  | DUPLICATE => (ArbDuplicate, a <| deduped_ ::= plus 1 |>)
  | GAP => (ArbGap, credit line a)
  end.
Definition failover_ratio (a : ArbitratedReceiver) : double :=
  let total := u64 (from_a_ a + from_b_ a) in
  if 0 <? total then ddiv (dbl_of_Z (from_b_ a)) (dbl_of_Z total) else d_zero.

Record LatencyStats := mkLat { count : Z; sum_ns : Z; min_ns : Z; max_ns : Z }.
Definition new_latency : LatencyStats := mkLat 0 0 UINT64_MAX 0.
Definition record (l : LatencyStats) (latency_ns : Z) : LatencyStats :=
  mkLat (u64 (count l + 1)) (u64 (sum_ns l + latency_ns))
    (if latency_ns <? min_ns l then latency_ns else min_ns l) (if max_ns l <? latency_ns then latency_ns else max_ns l).
Definition avg_ns (l : LatencyStats) : Z := if 0 <? count l then sum_ns l / count l else 0.

(** ** Integers on the wire *)

Lemma u8_shiftr v k : 0 <= k -> u8 (Z.shiftr v k) = (v / 2 ^ k) mod 256.
Proof. intros H. by rewrite Z.shiftr_div_pow2. Qed.
Lemma write_u16_bytes v : write_u16_be v = be_bytes 2 v.
Proof. unfold write_u16_be. by rewrite u8_shiftr by lia. Qed.
Lemma write_u32_bytes v : write_u32_be v = be_bytes 4 v.
Proof. unfold write_u32_be. rewrite !u8_shiftr by lia. cbn [be_bytes app]. by rewrite !Z.div_div by lia. Qed.
Lemma write_u64_bytes v : write_u64_be v = be_bytes 8 v.
Proof. unfold write_u64_be. rewrite !u8_shiftr by lia. cbn [be_bytes app]. by rewrite !Z.div_div by lia. Qed.

Lemma shiftl_or_byte acc b : is_byte b -> Z.lor (Z.shiftl acc 8) b = 256 * acc + b.
Proof. intros H. rewrite Z.lor_comm, lor_shiftl_add by (unfold is_byte in H; lia). change (2 ^ 8) with 256. lia. Qed.

(** A field that holds [be_bytes n v] reads back as [v]: with the bytes named,
    the shifted disjunction is Horner's rule. *)
Ltac read_be n v :=
  intros Hv Hs; rewrite Hs, bind_some; f_equal;
  transitivity (be_value (be_bytes n v)); [|by apply be_value_small];
  pose proof (bytes_ok_be_bytes n v) as B; pose proof (length_be_bytes n v) as L;
  repeat match goal with
  | H : length ?l = S _ |- _ => destruct l; [discriminate|simpl in H; injection H as H]
  | H : length ?l = O |- _ => destruct l; [clear H|discriminate]
  end;
  unfold bytes_ok in B; rewrite !Forall_cons in B; unfold aget, be_value; simpl;
  rewrite <- !shiftl_or_byte, !Z.shiftl_lor, !Z.shiftl_shiftl by (lia || tauto); by rewrite Z.lor_0_l.

Lemma read_u16_at off d v : 0 <= v < 2 ^ 16 -> slice off 2 d = Some (be_bytes 2 v) -> read_u16_be off d = Some v.
Proof. unfold read_u16_be. read_be 2%nat v. Qed.
Lemma read_u32_at off d v : 0 <= v < 2 ^ 32 -> slice off 4 d = Some (be_bytes 4 v) -> read_u32_be off d = Some v.
Proof. unfold read_u32_be. read_be 4%nat v. Qed.
Lemma read_u64_at off d v : 0 <= v < 2 ^ 64 -> slice off 8 d = Some (be_bytes 8 v) -> read_u64_be off d = Some v.
Proof. unfold read_u64_be. read_be 8%nat v. Qed.

(** ** Messages and packets come back *)

Record msg_ok (m : MarketDataMessage) : Prop := {
  mo_seq : 0 <= sequence m < 2 ^ 64; mo_ts : 0 <= timestamp_ns m < 2 ^ 64; mo_sym : length (symbol m) = 8%nat;
  mo_px : INT64_MIN <= price m <= INT64_MAX; mo_qty : 0 <= quantity m < 2 ^ 32;
  mo_side : is_byte (side m); mo_type : is_byte (msg_type m) }.

Lemma serialize_bytes m : msg_ok m ->
  serialize m = be_bytes 8 (sequence m) ++ be_bytes 8 (timestamp_ns m) ++ symbol m ++
    be_bytes 8 (u64 (price m)) ++ be_bytes 4 (quantity m) ++ [side m] ++ [msg_type m] ++ [0; 0].
Proof.
  intros [? ? ? ? ? ? ?]. unfold serialize. rewrite !write_u64_bytes, write_u32_bytes, take_ge by lia.
  by rewrite !u8_small by done.
Qed.
Lemma length_serialize m : msg_ok m -> length (serialize m) = MC_MSG_SIZE.
Proof. intros H. rewrite serialize_bytes by done. rewrite !length_app, !length_be_bytes, (mo_sym m H). done. Qed.
Lemma deserialize_serialize m : msg_ok m -> deserialize (serialize m) = Some m.
Proof.
  intros H. unfold deserialize. rewrite decide_False by (rewrite length_serialize by done; lia).
  rewrite serialize_bytes by done. destruct H as [Hs Ht Hy Hp Hq Hd Hm].
  assert (0 <= u64 (price m) < 2 ^ 64) as Hu by apply u64_range.
  rewrite (read_u64_at 0 _ (sequence m)), bind_some by (done || read_field).
  rewrite (read_u64_at 8 _ (timestamp_ns m)), bind_some by (done || read_field).
  match goal with |- context [slice 16 8 ?l] => assert (slice 16 8 l = Some (symbol m)) as -> by read_field end.
  rewrite bind_some, (read_u64_at 24 _ (u64 (price m))), bind_some by (done || read_field).
  rewrite (read_u32_at _ _ (quantity m)), bind_some by (done || read_field).
  match goal with |- context [byte_at 36 ?l] => assert (byte_at 36 l = Some (side m)) as -> by read_field end.
  match goal with |- context [byte_at 37 ?l] => assert (byte_at 37 l = Some (msg_type m)) as -> by read_field end.
  rewrite !bind_some. destruct m; simpl. do 2 f_equal.
  unfold wraps, wrapu. rewrite Zplus_mod_idemp_l. by apply i64_small.
Qed.

Lemma length_pad n s : length (padded n s) = n.
Proof. unfold padded. rewrite length_app, length_take, length_replicate. lia. Qed.
Lemma length_mold_message m : msg_ok m -> length (mold_message m) = (2 + MC_MSG_SIZE)%nat.
Proof. intros H. unfold mold_message. rewrite length_app, length_serialize by done. done. Qed.

Lemma mold_loop_step m pre rest n :
  msg_ok m ->
  mold_loop (S n) (length pre) (pre ++ mold_message m ++ rest) =
  let '(ok, ms) := mold_loop n (length (pre ++ mold_message m)) ((pre ++ mold_message m) ++ rest) in (ok, m :: ms).
Proof.
  intros H. cbn [mold_loop]. pose proof (length_mold_message m H) as Lm. pose proof (length_serialize m H) as Ls.
  rewrite decide_False by (rewrite !length_app; lia).
  rewrite (read_u16_at _ _ (Z.of_nat MC_MSG_SIZE)) by
    (try done; rewrite slice_skip by lia; rewrite Nat.sub_diag; unfold mold_message; rewrite <- app_assoc, write_u16_bytes;
     apply slice_here, length_be_bytes).
  rewrite Nat2Z.id. rewrite decide_False by (rewrite !length_app; lia). rewrite decide_True by lia.
  assert (take MC_MSG_SIZE (drop (length pre + 2) (pre ++ mold_message m ++ rest)) = serialize m) as ->.
  { rewrite <- drop_drop, drop_app_length. unfold mold_message. rewrite <- app_assoc.
    rewrite drop_app_length' by by rewrite write_u16_bytes, length_be_bytes. by rewrite take_app_length'. }
  rewrite deserialize_serialize, app_assoc, length_app, Lm by done.
  by replace (length pre + 2 + MC_MSG_SIZE)%nat with (length pre + (2 + MC_MSG_SIZE))%nat by lia.
Qed.
Lemma mold_loop_all ms : forall pre,
  Forall msg_ok ms -> mold_loop (length ms) (length pre) (pre ++ concat (mold_message <$> ms)) = (true, ms).
Proof.
  induction ms as [|m ms IH]; intros pre H; [done|]. apply Forall_cons in H as [Hm H].
  cbn [length fmap list_fmap concat]. rewrite mold_loop_step by done. by rewrite IH.
Qed.
Lemma length_blocks ms : Forall msg_ok ms -> length (concat (mold_message <$> ms)) = (length ms * (2 + MC_MSG_SIZE))%nat.
Proof.
  induction 1 as [|m ms Hm H IH]; [done|]. cbn [fmap list_fmap concat length].
  rewrite length_app, length_mold_message, IH by done. lia.
Qed.

(** MoldUDP64 packets come back as they were written.  A packet of up to
    65534 well-formed messages, serialized into a buffer that holds it, has the
    documented size and parses to the same session, sequence number, count
    and messages, all of which the callback sees in order, and the tracker
    advances by that count; an empty packet is a heartbeat. *)
Lemma mold_roundtrip (cap : nat) (session_ : cstr) (seq : Z) (msgs : list MarketDataMessage) (t : SequenceTracker) :
  0 <= seq < 2 ^ 64 -> Forall msg_ok msgs -> alen msgs < MOLD_END_OF_SESSION ->
  (MOLD_HEADER_SIZE + length msgs * (2 + MC_MSG_SIZE) <= cap)%nat ->
  let buf := mold_serialize_packet cap session_ seq msgs in
  length buf = (MOLD_HEADER_SIZE + length msgs * (2 + MC_MSG_SIZE))%nat /\
  mold_parse_packet buf t =
    mkMold (alen msgs) (Some (mkHeader (padded 10 session_) seq (alen msgs))) (observe_packet t seq (alen msgs)).2 msgs.
Proof.
  intros Hs Hm Hn Hcap buf. pose proof (alen_nonneg msgs) as H0.
  assert (buf = mold_write_header session_ seq (alen msgs) ++ concat (mold_message <$> msgs)) as E.
  { subst buf. unfold mold_serialize_packet. by rewrite decide_False by lia. }
  assert (length (mold_write_header session_ seq (alen msgs)) = MOLD_HEADER_SIZE) as Lh.
  { unfold mold_write_header. rewrite write_u64_bytes, write_u16_bytes, !length_app, length_pad, !length_be_bytes. done. }
  split; [by rewrite E, length_app, Lh, length_blocks|]. unfold mold_parse_packet.
  assert (mold_read_header buf = Some (mkHeader (padded 10 session_) seq (alen msgs))) as ->.
  { unfold mold_read_header. rewrite decide_False by (rewrite E, length_app, Lh; lia). rewrite E.
    unfold mold_write_header. rewrite write_u64_bytes, write_u16_bytes, <- !app_assoc.
    pose proof (length_pad 10 session_) as Lp. unfold MOLD_SESSION_LEN. change (Z.of_nat 10) with 10.
    rewrite slice_here, bind_some by done.
    rewrite (read_u64_at 10 _ seq), bind_some by (done || read_field).
    by rewrite (read_u16_at 18 _ (alen msgs)), bind_some by (unfold MOLD_END_OF_SESSION in Hn; lia || read_field). }
  cbn [message_count h_sequence].
  unfold is_control. cbn [message_count]. replace (alen msgs =? MOLD_END_OF_SESSION) with false by lia.
  rewrite orb_false_r. destruct (Z.eqb_spec (alen msgs) MOLD_HEARTBEAT) as [Z0|N0].
  - assert (msgs = []) as -> by (destruct msgs; [done|unfold alen, MOLD_HEARTBEAT in Z0; simpl in Z0; lia]). done.
  - rewrite E. unfold alen at 1. rewrite Nat2Z.id. by rewrite <- Lh, mold_loop_all.
Qed.
Lemma mold_roundtrip_witness :
  let ms := [make_message 7 100 [65; 66] 1500000 10 66 ADD; make_message 8 101 [67] (-5) 4294967295 83 TRADE] in
  let buf := mold_serialize_packet 200 [83; 49] 100 ms in
  length buf = 104%nat /\ mold_parse_packet buf new_tracker =
    mkMold 2 (Some (mkHeader (padded 10 [83; 49]) 100 2)) (mkTracker 102 2 0 0 0 true) ms.
Proof.
  intros ms buf. refine (mold_roundtrip 200 [83; 49] 100 ms new_tracker _ _ _ _); [done| |by vm_compute|by apply (bool_decide_unpack _); vm_compute].
  repeat constructor; by vm_compute.
Defined.

(** ** Nothing is unaccounted *)

Inductive arrival := One (seq : Z) | Batch (seq count : Z).
Definition arrive (t : SequenceTracker) (a : arrival) : SequenceTracker :=
  match a with One s => (observe t s).2 | Batch s c => (observe_packet t s c).2 end.
Definition arrival_seq (a : arrival) : Z := match a with One s | Batch s _ => s end.

Record TrackerOk (first : Z) (t : SequenceTracker) : Prop := {
  tk_init : initialized t = true;
  tk_sum : u64 (received t + lost t) = u64 (expected_seq t - first) }.
Lemma wrap_shift a b k a' b' : u64 a = u64 b -> a' = a + k -> b' = b + k -> u64 a' = u64 b'.
Proof. intros H -> ->. by rewrite <- (wrapu_add_l 64 a), H, wrapu_add_l. Qed.
Lemma wrapu_sub_l w a b : wrapu w (wrapu w a - b) = wrapu w (a - b).
Proof. apply (wrapu_add_l w a (- b)). Qed.
(** One branch of a tracker: both sides move by [k]. *)
Ltac account H k :=
  split; simpl; [done|]; unfold plus; rewrite ?wrapu_add_l, ?wrapu_add_r, ?wrapu_sub_l;
  apply (wrap_shift _ _ k _ _ H); lia.

Lemma arrive_ok first t a : TrackerOk first t -> TrackerOk first (arrive t a).
Proof.
  intros [Hi Hs]. destruct a as [s|s c]; simpl.
  - unfold observe. rewrite Hi. simpl. destruct (Z.eqb_spec s (expected_seq t)); [account Hs 1|].
    destruct (Z.ltb_spec (expected_seq t) s); [account Hs (s - expected_seq t + 1)|account Hs 0].
  - unfold observe_packet. rewrite Hi. simpl. destruct (Z.eqb_spec s (expected_seq t)); [account Hs c|].
    destruct (Z.ltb_spec (expected_seq t) s); [account Hs (s - expected_seq t + c)|].
    generalize (u64 (s + c)). intros packet_end.
    destruct (Z.leb_spec packet_end (expected_seq t)); [account Hs 0|account Hs (packet_end - expected_seq t)].
Qed.

(** The feed's accounting closes.  Whatever sequence of single messages and
    packets arrives after the first, in order, ahead, repeated or overlapping,
    messages received plus messages lost equal the distance from the first
    sequence number to the next expected one, at the counters'
    width. *)
Lemma tracker_accounts (a0 : arrival) (l : list arrival) :
  let t := foldl arrive new_tracker (a0 :: l) in
  u64 (received t + lost t) = u64 (expected_seq t - arrival_seq a0).
Proof.
  cbn [foldl]. assert (TrackerOk (arrival_seq a0) (arrive new_tracker a0)) as H.
  { destruct a0 as [s|s c]; split; simpl; try done; unfold plus; rewrite wrapu_sub_l, wrapu_add_l; f_equal; lia. }
  revert H. generalize (arrive new_tracker a0). induction l as [|a l IH]; intros t H; simpl; [apply H|].
  apply IH. by apply arrive_ok.
Qed.
