(* ===== verification/Meters.v ===== *)
(** * Meters: what the feed handlers count

    The measuring structures of [multicast/gap_recovery.hpp]: gap times, queue
    depth, loss, reordering, resets, throttles, buckets, conflation, latency,
    rates, health and staleness.  Each is a record of counters and one or two
    update methods; ratios are [double]s, taken as in the code only when the
    divisor is not zero. *)
From S2P Require Import Prelude Double Common Gap.

(** ** Inter-arrival gaps *)

Record InterArrivalMeter := mkIam { iam_last : Z; iam_started : bool; iam_min : Z; iam_max : Z; iam_sum : Z; iam_gaps : Z }.
#[export] Instance eta_iam : Settable InterArrivalMeter := fun m =>
  mkIam (iam_last m) (iam_started m) (iam_min m) (iam_max m) (iam_sum m) (iam_gaps m).
Definition new_iam : InterArrivalMeter := mkIam 0 false INT64_MAX 0 0 0.
Definition iam_on_message (m : InterArrivalMeter) (now_ns : Z) : InterArrivalMeter :=
  let seen m := m <| iam_last := now_ns |> <| iam_started := true |> in
  if negb (iam_started m) then seen m else
  let g := i64 (now_ns - iam_last m) in
  if g <? 0 then m else
  seen (m <| iam_min ::= fun x => if g <? x then g else x |> <| iam_max ::= fun x => if x <? g then g else x |>
          <| iam_sum ::= fun x => i64 (x + g) |> <| iam_gaps ::= incr |>).
Definition avg_gap_ns (m : InterArrivalMeter) : double := ratio_or (iam_sum m) (iam_gaps m) d_zero.
Definition min_gap_ns (m : InterArrivalMeter) : Z := if iam_gaps m =? 0 then 0 else iam_min m.
Definition max_gap_ns (m : InterArrivalMeter) : Z := iam_max m.
Definition iam_jitter_ns (m : InterArrivalMeter) : Z := if iam_gaps m =? 0 then 0 else i64 (iam_max m - iam_min m).
Definition burst_ratio (m : InterArrivalMeter) : double :=
  let avg := avg_gap_ns m in if dlt d_zero avg then ddiv (dbl_of_Z (iam_max m)) avg else d_zero.

Record InterArrivalStats := mkIas { ias_last_ts : Z; ias_count : Z; ias_total : Z; ias_min : Z; ias_max : Z; ias_last_gap : Z }.
#[export] Instance eta_ias : Settable InterArrivalStats := fun m =>
  mkIas (ias_last_ts m) (ias_count m) (ias_total m) (ias_min m) (ias_max m) (ias_last_gap m).
Definition new_ias : InterArrivalStats := mkIas (-1) 0 0 0 0 0.
Definition ias_on_message (m : InterArrivalStats) (ts : Z) : InterArrivalStats :=
  if ias_last_ts m <? 0 then m <| ias_last_ts := ts |> else
  let gap := i64 (ts - ias_last_ts m) in
  if gap <? 0 then m else
  m <| ias_min ::= fun x => if (ias_count m =? 0) || (gap <? x) then gap else x |>
    <| ias_max ::= fun x => if x <? gap then gap else x |> <| ias_total ::= fun x => i64 (x + gap) |>
    <| ias_last_gap := gap |> <| ias_count ::= incr |> <| ias_last_ts := ts |>.
Definition mean_gap (m : InterArrivalStats) : double := ratio_or (ias_total m) (ias_count m) d_zero.
Definition ias_jitter (m : InterArrivalStats) : Z := if 0 <? ias_count m then i64 (ias_max m - ias_min m) else 0.
Definition jitter_ratio (m : InterArrivalStats) : double :=
  if dlt d_zero (mean_gap m) then ddiv (dbl_of_Z (ias_jitter m)) (mean_gap m) else d_zero.

(** ** Queue depth *)

Record BackpressureMonitor := mkBp { enqueued : Z; dequeued : Z; peak_depth : Z }.
#[export] Instance eta_bp : Settable BackpressureMonitor := fun b => mkBp (enqueued b) (dequeued b) (peak_depth b).
Definition new_bp : BackpressureMonitor := mkBp 0 0 0.
Definition depth (b : BackpressureMonitor) : Z := u64 (enqueued b - dequeued b).
Definition on_enqueue (b : BackpressureMonitor) (n : Z) : BackpressureMonitor :=
  let b := b <| enqueued ::= fun x => u64 (x + n) |> in
  let d := depth b in b <| peak_depth ::= fun p => if p <? d then d else p |>.
Definition on_dequeue (b : BackpressureMonitor) (n : Z) : BackpressureMonitor :=
  b <| dequeued ::= fun x => u64 (x + (if depth b <? n then depth b else n)) |>.
Definition overloaded (b : BackpressureMonitor) (threshold : Z) : bool := threshold <=? depth b.
Definition drain_ratio (b : BackpressureMonitor) : double := ratio_or (dequeued b) (enqueued b) d_one.
Definition ever_overloaded (b : BackpressureMonitor) (threshold : Z) : bool := threshold <=? peak_depth b.

(** ** Loss and order *)

Record LossRateMeter := mkLrm { lrm_first : Z; lrm_highest : Z; lrm_received : Z; lrm_init : bool }.
#[export] Instance eta_lrm : Settable LossRateMeter := fun m =>
  mkLrm (lrm_first m) (lrm_highest m) (lrm_received m) (lrm_init m).
Definition new_lrm : LossRateMeter := mkLrm 0 0 0 false.
Definition lrm_on_packet (m : LossRateMeter) (seq : Z) : LossRateMeter :=
  (if negb (lrm_init m) then m <| lrm_first := seq |> <| lrm_highest := seq |> <| lrm_init := true |>
   else if lrm_highest m <? seq then m <| lrm_highest := seq |> else m) <| lrm_received ::= incr |>.
Definition lrm_expected (m : LossRateMeter) : Z := if lrm_init m then u64 (lrm_highest m - lrm_first m + 1) else 0.
Definition lrm_lost (m : LossRateMeter) : Z :=
  if lrm_received m <? lrm_expected m then lrm_expected m - lrm_received m else 0.
Definition lrm_loss_rate (m : LossRateMeter) : double := ratio_or (lrm_lost m) (lrm_expected m) d_zero.
Definition delivery_rate (m : LossRateMeter) : double := ratio_or (lrm_received m) (lrm_expected m) d_one.
Definition is_within_sla (m : LossRateMeter) (max_loss_rate : double) : bool := dle (lrm_loss_rate m) max_loss_rate.

Record OutOfOrderMeter := mkOoo { ooo_highest : Z; ooo_total : Z; out_of_order : Z; ooo_max_depth : Z; depth_sum : Z; ooo_init : bool }.
#[export] Instance eta_ooo : Settable OutOfOrderMeter := fun m =>
  mkOoo (ooo_highest m) (ooo_total m) (out_of_order m) (ooo_max_depth m) (depth_sum m) (ooo_init m).
Definition new_ooo : OutOfOrderMeter := mkOoo 0 0 0 0 0 false.
Definition ooo_on_packet (m : OutOfOrderMeter) (seq : Z) : OutOfOrderMeter :=
  let m := m <| ooo_total ::= incr |> in
  if negb (ooo_init m) then m <| ooo_highest := seq |> <| ooo_init := true |> else
  if seq <? ooo_highest m then
    let depth := ooo_highest m - seq in
    m <| out_of_order ::= incr |> <| depth_sum ::= fun x => u64 (x + depth) |>
      <| ooo_max_depth ::= fun x => if x <? depth then depth else x |>
  else m <| ooo_highest := seq |>.
Definition ooo_rate (m : OutOfOrderMeter) : double := ratio_or (out_of_order m) (ooo_total m) d_zero.
Definition avg_reorder_depth (m : OutOfOrderMeter) : double := ratio_or (depth_sum m) (out_of_order m) d_zero.

Record SequenceResetDetector := mkSrd { threshold : Z; srd_last : Z; srd_init : bool; resets : Z }.
#[export] Instance eta_srd : Settable SequenceResetDetector := fun s =>
  mkSrd (threshold s) (srd_last s) (srd_init s) (resets s).
Definition new_srd (threshold_ : Z) : SequenceResetDetector := mkSrd threshold_ 0 false 0.
Definition on_seq (s : SequenceResetDetector) (seq : Z) : bool * SequenceResetDetector :=
  if negb (srd_init s) then (false, s <| srd_last := seq |> <| srd_init := true |>) else
  let reset := u64 (seq + threshold s) <? srd_last s in
  (reset, if reset then s <| resets ::= incr |> <| srd_last := seq |>
          else if srd_last s <? seq then s <| srd_last := seq |> else s).
Definition srd_reset_state (s : SequenceResetDetector) : SequenceResetDetector := new_srd (threshold s).

(** ** Throttles *)

Record SnapshotRequestThrottle := mkThr {
  min_interval_ns : Z; last_request_ns : Z; requested : bool; suppressed : Z; allowed : Z }.
#[export] Instance eta_thr : Settable SnapshotRequestThrottle := fun t =>
  mkThr (min_interval_ns t) (last_request_ns t) (requested t) (suppressed t) (allowed t).
Definition new_thr (min_interval_ns_ : Z) : SnapshotRequestThrottle := mkThr min_interval_ns_ 0 false 0 0.
Definition allow (t : SnapshotRequestThrottle) (now_ns : Z) : bool * SnapshotRequestThrottle :=
  if negb (requested t) || (min_interval_ns t <=? i64 (now_ns - last_request_ns t))
  then (true, t <| last_request_ns := now_ns |> <| requested := true |> <| allowed ::= incr |>)
  else (false, t <| suppressed ::= incr |>).
Definition suppression_rate (t : SnapshotRequestThrottle) : double :=
  ratio_or (suppressed t) (u64 (allowed t + suppressed t)) d_zero.
Definition thr_reset (t : SnapshotRequestThrottle) : SnapshotRequestThrottle := new_thr (min_interval_ns t).

Record TokenBucket := mkTb { capacity : double; tokens : double; refill_per_ns : double; tb_last : Z; tb_init : bool; denied : Z; granted : Z }.
#[export] Instance eta_tb : Settable TokenBucket := fun t =>
  mkTb (capacity t) (tokens t) (refill_per_ns t) (tb_last t) (tb_init t) (denied t) (granted t).
Definition d_giga : double := dbl_of_Z 1000000000.
Definition new_tb (capacity_ refill_per_sec : double) : TokenBucket :=
  mkTb capacity_ capacity_ (ddiv refill_per_sec d_giga) 0 false 0 0.
Definition top_up (t : TokenBucket) (now_ns : Z) : TokenBucket :=
  if negb (tb_init t) then t <| tb_init := true |> <| tb_last := now_ns |> else
  let tok := dadd (tokens t) (dmul (dbl_of_Z (i64 (now_ns - tb_last t))) (refill_per_ns t)) in
  t <| tokens := if dgt tok (capacity t) then capacity t else tok |> <| tb_last := now_ns |>.
Definition try_consume (t : TokenBucket) (now_ns : Z) (n : double) : bool * TokenBucket :=
  let t := top_up t now_ns in
  if dge (tokens t) n then (true, t <| tokens ::= fun x => dsub x n |> <| granted ::= incr |>)
  else (false, t <| denied ::= incr |>).
Definition denial_rate (t : TokenBucket) : double := ratio_or (denied t) (u64 (granted t + denied t)) d_zero.
Definition available (t : TokenBucket) (now_ns : Z) : double * TokenBucket :=
  let t := top_up t now_ns in (tokens t, t).
Definition tb_reset (t : TokenBucket) : TokenBucket :=
  t <| tokens := capacity t |> <| tb_last := 0 |> <| tb_init := false |> <| denied := 0 |> <| granted := 0 |>.

(** ** Conflation, latency, rates *)

Record ConflationBuffer := mkCb { latest : gmap Z double; conflated : Z; cb_received : Z; peak_pending_ : Z }.
#[export] Instance eta_cb : Settable ConflationBuffer := fun c =>
  mkCb (latest c) (conflated c) (cb_received c) (peak_pending_ c).
Definition new_cb : ConflationBuffer := mkCb ∅ 0 0 0.
Definition cb_update (c : ConflationBuffer) (key : Z) (value : double) : ConflationBuffer :=
  let inserted := negb (bool_decide (is_Some (latest c !! key))) in
  let c := c <| cb_received ::= incr |> <| latest ::= <[key := value]> |> in
  let c := if inserted then c else c <| conflated ::= incr |> in
  c <| peak_pending_ ::= fun p => if p <? Z.of_nat (size (latest c)) then Z.of_nat (size (latest c)) else p |>.
Definition cb_get (c : ConflationBuffer) (key : Z) : option double := latest c !! key.
Definition cb_pending (c : ConflationBuffer) : Z := Z.of_nat (size (latest c)).
Definition drain (c : ConflationBuffer) : ConflationBuffer := c <| latest := ∅ |>.
Definition conflation_ratio (c : ConflationBuffer) : double := ratio_or (conflated c) (cb_received c) d_zero.

Record LatencyTracker := mkLt { alpha : double; ewma : double; lt_max : Z; lt_min : Z; lt_count : Z }.
#[export] Instance eta_lt : Settable LatencyTracker := fun l => mkLt (alpha l) (ewma l) (lt_max l) (lt_min l) (lt_count l).
Definition new_lt (alpha_ : double) : LatencyTracker := mkLt alpha_ d_zero 0 0 0.
Definition sample (l : LatencyTracker) (latency_ns : Z) : LatencyTracker :=
  let l := if lt_count l =? 0 then l <| ewma := dbl_of_Z latency_ns |> <| lt_min := latency_ns |>
           else l <| ewma ::= fun e => dadd (dmul (alpha l) (dbl_of_Z latency_ns)) (dmul (dsub d_one (alpha l)) e) |> in
  l <| lt_max ::= fun m => if m <? latency_ns then latency_ns else m |>
    <| lt_min ::= fun m => if latency_ns <? m then latency_ns else m |> <| lt_count ::= incr |>.
Definition lt_min_ns (l : LatencyTracker) : Z := if lt_count l =? 0 then 0 else lt_min l.
Definition lt_jitter_ns (l : LatencyTracker) : Z := if lt_count l =? 0 then 0 else i64 (lt_max l - lt_min l).
Definition lt_reset (l : LatencyTracker) : LatencyTracker := new_lt (alpha l).

Record SlidingWindowRate := mkSwr { window_ns : Z; peak_count_ : Z; ring_ : TimestampRing }.
#[export] Instance eta_swr : Settable SlidingWindowRate := fun s => mkSwr (window_ns s) (peak_count_ s) (ring_ s).
Definition RING_BITS : nat := 12.
Definition new_swr (window_ns_ : Z) : SlidingWindowRate := mkSwr window_ns_ 0 (ts_new RING_BITS).
Definition swr_count (s : SlidingWindowRate) : Z := ts_count RING_BITS (ring_ s).
Definition on_event (s : SlidingWindowRate) (now_ns : Z) : SlidingWindowRate :=
  let s := s <| ring_ ::= fun r => ts_push RING_BITS r now_ns |> in
  let s := s <| ring_ ::= fun r => evict RING_BITS r (i64 (now_ns - window_ns s)) |> in
  let c := swr_count s in s <| peak_count_ ::= fun p => if p <? c then c else p |>.
Definition per_sec (s : SlidingWindowRate) (n : Z) : double :=
  if 0 <? window_ns s then ddiv (dmul (dbl_of_Z n) d_giga) (dbl_of_Z (window_ns s)) else d_zero.
Definition rate_per_sec (s : SlidingWindowRate) : double := per_sec s (swr_count s).
Definition peak_rate_per_sec (s : SlidingWindowRate) : double := per_sec s (peak_count_ s).
Definition swr_reset (s : SlidingWindowRate) : SlidingWindowRate := s <| ring_ ::= ts_reset |> <| peak_count_ := 0 |>.

Record FeedRateMeter := mkFrm { frm_window : Z; frm_ring : TimestampRing; frm_peak : Z }.
Definition new_frm (window_ns_ : Z) : FeedRateMeter := mkFrm (if 0 <? window_ns_ then window_ns_ else 1) (ts_new RING_BITS) 0.
Definition frm_on_message (f : FeedRateMeter) (now_ns : Z) : FeedRateMeter :=
  let r := evict RING_BITS (ts_push RING_BITS (frm_ring f) now_ns) (i64 (now_ns - frm_window f)) in
  let c := ts_count RING_BITS r in
  mkFrm (frm_window f) r (if frm_peak f <? c then c else frm_peak f).
Definition frm_count (f : FeedRateMeter) (now_ns : Z) : Z * FeedRateMeter :=
  let r := evict RING_BITS (frm_ring f) (i64 (now_ns - frm_window f)) in
  (ts_count RING_BITS r, mkFrm (frm_window f) r (frm_peak f)).
Definition frm_rate_per_sec (f : FeedRateMeter) (now_ns : Z) : double * FeedRateMeter :=
  let '(c, f) := frm_count f now_ns in (ddiv (dmul (dbl_of_Z c) d_giga) (dbl_of_Z (frm_window f)), f).
Definition frm_peak_rate (f : FeedRateMeter) : double := ddiv (dmul (dbl_of_Z (frm_peak f)) d_giga) (dbl_of_Z (frm_window f)).
Definition frm_reset (f : FeedRateMeter) : FeedRateMeter := mkFrm (frm_window f) (ts_reset (frm_ring f)) 0.

(** ** Health *)

Record FeedHealth := mkFh { loss_weight : double; ooo_weight : double; stale_penalty : double; min_healthy : double }.
Definition new_fh : FeedHealth := mkFh (dbl_of_Z 200) (dbl_of_Z 100) (dbl_of_Z 50) (dbl_of_Z 70).
Definition d_hundred : double := dbl_of_Z 100.
Definition score (h : FeedHealth) (loss_rate ooo_rate : double) (stale : bool) : double :=
  let s := dsub (dsub d_hundred (dmul loss_rate (loss_weight h))) (dmul ooo_rate (ooo_weight h)) in
  let s := if stale then dsub s (stale_penalty h) else s in
  if dlt s d_zero then d_zero else if dgt s d_hundred then d_hundred else s.
Definition is_healthy (h : FeedHealth) (loss_rate ooo_rate : double) (stale : bool) : bool :=
  dge (score h loss_rate ooo_rate stale) (min_healthy h).
Definition worst_impairment (h : FeedHealth) (loss_rate ooo_rate : double) (stale : bool) : string :=
  let dl := dmul loss_rate (loss_weight h) in
  let doo := dmul ooo_rate (ooo_weight h) in
  let ds := if stale then stale_penalty h else d_zero in
  if dle dl d_zero && dle doo d_zero && dle ds d_zero then "none" else
  if dge dl doo && dge dl ds then "loss" else if dge doo ds then "reorder" else "stale".

Record GapFillTimer := mkGft { gft_gaps : Z; total_recovery_ms : Z; max_recovery_ms : Z; min_recovery_ms_ : Z; sla_ms : Z; sla_breaches_ : Z }.
#[export] Instance eta_gft : Settable GapFillTimer := fun g =>
  mkGft (gft_gaps g) (total_recovery_ms g) (max_recovery_ms g) (min_recovery_ms_ g) (sla_ms g) (sla_breaches_ g).
Definition new_gft (sla_ms_ : Z) : GapFillTimer := mkGft 0 0 0 0 (if 0 <? sla_ms_ then sla_ms_ else 1) 0.
Definition gft_record (g : GapFillTimer) (detect_ms fill_ms : Z) : GapFillTimer :=
  let dur := i64 (fill_ms - detect_ms) in
  if dur <? 0 then g else
  let g := g <| min_recovery_ms_ ::= fun m => if (gft_gaps g =? 0) || (dur <? m) then dur else m |> <| gft_gaps ::= incr |>
             <| total_recovery_ms ::= fun x => i64 (x + dur) |> <| max_recovery_ms ::= fun m => if m <? dur then dur else m |> in
  if sla_ms g <? dur then g <| sla_breaches_ ::= incr |> else g.
Definition avg_recovery_ms (g : GapFillTimer) : double := ratio_or (total_recovery_ms g) (gft_gaps g) d_zero.
Definition min_recovery_ms (g : GapFillTimer) : Z := if 0 <? gft_gaps g then min_recovery_ms_ g else 0.
Definition recovery_jitter_ms (g : GapFillTimer) : Z :=
  if 0 <? gft_gaps g then i64 (max_recovery_ms g - min_recovery_ms_ g) else 0.
Definition sla_breach_rate (g : GapFillTimer) : double := ratio_or (sla_breaches_ g) (gft_gaps g) d_zero.
Definition meets_sla (g : GapFillTimer) : bool := sla_breaches_ g =? 0.
Definition gft_reset (g : GapFillTimer) : GapFillTimer := mkGft 0 0 0 0 (sla_ms g) 0.

Record PacketStats := mkPs { ps_packets : Z; total_bytes : Z; max_bytes : Z; min_bytes : Z }.
Definition new_ps : PacketStats := mkPs 0 0 0 0.
Definition ps_on_packet (p : PacketStats) (bytes : Z) : PacketStats :=
  mkPs (incr (ps_packets p)) (u64 (total_bytes p + bytes)) (if max_bytes p <? bytes then bytes else max_bytes p)
    (if (min_bytes p =? 0) || (bytes <? min_bytes p) then bytes else min_bytes p).
Definition mean_bytes (p : PacketStats) : double := ratio_or (total_bytes p) (ps_packets p) d_zero.
Definition byte_range (p : PacketStats) : Z := if 0 <? ps_packets p then u32 (max_bytes p - min_bytes p) else 0.

Record FeedStalenessMonitor := mkFsm {
  fsm_last : Z; fsm_seen : bool; stale_ : bool; stale_events : Z; longest_outage_ns_ : Z; total_outage_ns_ : Z }.
#[export] Instance eta_fsm : Settable FeedStalenessMonitor := fun f =>
  mkFsm (fsm_last f) (fsm_seen f) (stale_ f) (stale_events f) (longest_outage_ns_ f) (total_outage_ns_ f).
Definition new_fsm : FeedStalenessMonitor := mkFsm 0 false false 0 0 0.
Definition fsm_on_packet (f : FeedStalenessMonitor) (now_ns : Z) : FeedStalenessMonitor :=
  let outage := i64 (now_ns - fsm_last f) in
  let f := if stale_ f && fsm_seen f && (0 <? outage)
           then f <| total_outage_ns_ ::= fun x => i64 (x + outage) |>
                  <| longest_outage_ns_ ::= fun m => if m <? outage then outage else m |>
           else f in
  f <| fsm_last := now_ns |> <| fsm_seen := true |> <| stale_ := false |>.
Definition fsm_check (f : FeedStalenessMonitor) (now_ns timeout_ns : Z) : bool * FeedStalenessMonitor :=
  if negb (fsm_seen f) then (false, f) else
  let now_stale := timeout_ns <? i64 (now_ns - fsm_last f) in
  let f := if now_stale && negb (stale_ f) then f <| stale_events ::= incr |> else f in
  (now_stale, f <| stale_ := now_stale |>).
Definition completed_outages (f : FeedStalenessMonitor) : Z := u64 (stale_events f - (if stale_ f then 1 else 0)).
Definition avg_outage_ns (f : FeedStalenessMonitor) : double := ratio_or (total_outage_ns_ f) (completed_outages f) d_zero.

(** ** What the counters keep *)

(** The consumer never takes the depth below zero, and the peak is the highest
    depth seen, whatever counts are reported. *)
Inductive queue_call := Enq (n : Z) | Deq (n : Z).
Definition queue_step (b : BackpressureMonitor) (c : queue_call) : BackpressureMonitor :=
  match c with Enq n => on_enqueue b n | Deq n => on_dequeue b n end.
Definition queue_depth (d : Z) (c : queue_call) : Z := match c with Enq n => d + n | Deq n => Z.max 0 (d - n) end.
Definition queue_total (l : list queue_call) : Z := sumf (fun c => match c with Enq n => n | Deq _ => 0 end) l.
Definition call_ok (c : queue_call) : Prop := match c with Enq n | Deq n => 0 <= n end.

Record BpOk (b : BackpressureMonitor) (d total : Z) : Prop := {
  bo_enq : enqueued b = total; bo_depth : enqueued b - dequeued b = d; bo_deq : 0 <= dequeued b;
  bo_nonneg : 0 <= d; bo_peak : d <= peak_depth b }.
Lemma queue_step_ok b d total c :
  call_ok c -> BpOk b d total -> total + queue_total [c] <= UINT64_MAX ->
  BpOk (queue_step b c) (queue_depth d c) (total + queue_total [c]).
Proof.
  intros Hc [He Hd Hq Hn Hp] Ht. unfold UINT64_MAX in *.
  destruct c as [n|n]; unfold call_ok, queue_total in *; simpl in *.
  - unfold on_enqueue, depth. upd. simpl. rewrite (u64_small (enqueued b + n)) by lia.
    rewrite u64_small by lia. split; simpl; try lia. zcase; lia.
  - unfold on_dequeue, depth. upd. simpl. rewrite (u64_small (enqueued b - dequeued b)) by lia.
    rewrite u64_small by (zcase; lia). split; simpl; try lia; zcase; lia.
Qed.

Lemma backpressure_depth (l : list queue_call) :
  Forall call_ok l -> queue_total l <= UINT64_MAX ->
  let b := foldl queue_step new_bp l in
  depth b = foldl queue_depth 0 l /\ 0 <= depth b <= peak_depth b.
Proof.
  intros Hl Ht. assert (forall b d total, BpOk b d total -> total + queue_total l <= UINT64_MAX ->
    BpOk (foldl queue_step b l) (foldl queue_depth d l) (total + queue_total l)) as H.
  { clear Ht. induction Hl as [|c l Hc Hl IH]; intros b d total Ok Hb; cbn [foldl].
    - unfold queue_total. simpl. by rewrite Z.add_0_r.
    - assert (queue_total (c :: l) = queue_total [c] + queue_total l) as E by (unfold queue_total; simpl; lia).
      assert (0 <= queue_total l).
      { clear -Hl. unfold queue_total. induction Hl as [|[n|n] l Hc Hl IH]; simpl in *; lia. }
      rewrite E in *. rewrite Z.add_assoc. apply IH; [|lia]. apply queue_step_ok; [done|done|lia]. }
  intros b. destruct (H new_bp 0 0) as [He Hd Hq Hn Hp]; [by split|done|]. fold b in He, Hd, Hq, Hp.
  unfold depth. rewrite Hd, u64_small; unfold UINT64_MAX in *; lia.
Qed.
