(* ===== verification/Text.v ===== *)
(** * Text: printing and reading numbers

    What the text protocols use of the C standard library: the [snprintf]
    conversions [%u], [%d], [%03u] and [%.2f], and [atoi] and [atof].  [atoi]
    is [strtol] cut to 32 bits, as the C library the code is built with does
    it; [atof] reads decimal, hexadecimal, infinity and NaN notation and rounds
    correctly, and [%.2f] prints the exact value rounded to even. *)
From Stdlib Require Import Ascii.
From S2P Require Import Prelude Double Common.

(** The bytes of a literal. *)
Definition lit (s : string) : cstr := (fun a => Z.of_nat (nat_of_ascii a)) <$> String.list_ascii_of_string s.

(** ** Printing *)

Fixpoint dec_digits (fuel : nat) (n : Z) : cstr :=
  match fuel with
  | O => []
  | S fuel' => (if n <? 10 then [] else dec_digits fuel' (n / 10)) ++ [48 + n mod 10]
  end.
(** Enough digits for any value of the number's size. *)
Definition dec (n : Z) : cstr := dec_digits (S (Z.to_nat (Z.log2 n))) n.
Definition dec_i (n : Z) : cstr := if n <? 0 then 45 :: dec (- n) else dec n.
Definition dec3 (n : Z) : cstr := replicate (3 - length (dec n)) 48 ++ dec n.
(** [round(num / den)], ties to even. *)
Definition div_even (num den : Z) : Z :=
  let q := num / den in
  let r := 2 * (num mod den) in
  if r <? den then q else if den <? r then q + 1 else if Z.even q then q else q + 1.
Definition fmt2 (x : double) : cstr :=
  let sgn s l := if (s : bool) then 45 :: l else l in
  match x with
  | S754_zero s => sgn s (lit "0.00")
  | S754_infinity s => sgn s (lit "inf")
  | S754_nan => lit "nan"
  | S754_finite s m e =>
      let n := if 0 <=? e then Z.pos m * 2 ^ e * 100 else div_even (Z.pos m * 100) (2 ^ (- e)) in
      sgn s (dec (n / 100) ++ [46; 48 + (n / 10) mod 10; 48 + n mod 10])
  end.

(** ** Reading *)

Definition is_space (c : Z) : bool := (c =? 32) || ((9 <=? c) && (c <=? 13)).
Definition is_num (c : Z) : bool := (48 <=? c) && (c <=? 57).
Fixpoint skip_spaces (s : cstr) : cstr :=
  match s with c :: s' => if is_space c then skip_spaces s' else s | [] => [] end.
(** The sign and what follows it. *)
Definition read_sign (s : cstr) : bool * cstr :=
  match s with c :: s' => if c =? 45 then (true, s') else if c =? 43 then (false, s') else (false, s) | [] => (false, []) end.
Fixpoint read_int (acc : Z) (s : cstr) : Z :=
  match s with c :: s' => if is_num c then read_int (acc * 10 + (c - 48)) s' else acc | [] => acc end.
Definition clamp_long (z : Z) : Z := Z.max INT64_MIN (Z.min INT64_MAX z).
Definition atoi (s : cstr) : Z :=
  let '(neg, s) := read_sign (skip_spaces s) in
  let n := read_int 0 s in i32 (clamp_long (if neg then - n else n)).

Definition hex_value (c : Z) : option Z :=
  if is_num c then Some (c - 48)
  else if (65 <=? c) && (c <=? 70) then Some (c - 55) else if (97 <=? c) && (c <=? 102) then Some (c - 87) else None.
Definition digit_value (base c : Z) : option Z := if base =? 16 then hex_value c else if is_num c then Some (c - 48) else None.
(** Digits of a base: their value, how many, and the rest. *)
Fixpoint digits (base acc n : Z) (s : cstr) : Z * Z * cstr :=
  match s with
  | c :: s' => match digit_value base c with Some d => digits base (acc * base + d) (n + 1) s' | None => (acc, n, s) end
  | [] => (acc, n, [])
  end.
(** The exponent part: read only when digits follow. *)
Definition read_exp (mark : Z) (s : cstr) : Z :=
  match s with
  | c :: s' =>
      if (c =? mark) || (c =? mark - 32) then
        let '(neg, s') := read_sign s' in
        let '(e, n, _) := digits 10 0 0 s' in if n =? 0 then 0 else if (neg : bool) then - e else e
      else 0
  | [] => 0
  end.
(** [n / d] correctly rounded: a quotient of at least 56 bits and a sticky bit. *)
Definition dbl_of_ratio (n d : Z) : double :=
  let s := Z.max 0 (57 + Z.log2 d - Z.log2 n) in
  let q := n * 2 ^ s / d in
  let sticky := if (n * 2 ^ s) mod d =? 0 then 0 else 1 in
  binary_normalize 53 1024 (2 * q + sticky) (- (s + 1)) false.
Definition dbl_scaled (m b e : Z) : double :=
  if m =? 0 then d_zero else if 0 <=? e then dbl_of_Z (m * b ^ e) else dbl_of_ratio m (b ^ (- e)).
Definition lower (c : Z) : Z := if (65 <=? c) && (c <=? 90) then c + 32 else c.
Definition starts_with (p s : cstr) : bool := bool_decide (take (length p) (lower <$> s) = p).
Definition read_mantissa (base : Z) (s : cstr) : Z * Z * Z * cstr :=
  let '(m, n, s) := digits base 0 0 s in
  match s with
  | 46 :: s' => let '(m, k, s') := digits base m 0 s' in (m, n + k, k, s')
  | _ => (m, n, 0, s)
  end.
Definition atof (s : cstr) : double :=
  let '(neg, s) := read_sign (skip_spaces s) in
  let sgn x := if (neg : bool) then dneg x else x in
  if starts_with (lit "inf") s then sgn d_inf else if starts_with (lit "nan") s then S754_nan else
  let '(hm, hn, hk, hs) := if starts_with (lit "0x") s then read_mantissa 16 (drop 2 s) else (0, 0, 0, []) in
  if 0 <? hn then sgn (dbl_scaled hm 2 (read_exp 112 hs - 4 * hk)) else
  let '(m, n, k, s) := read_mantissa 10 s in
  if n =? 0 then d_zero else sgn (dbl_scaled m 10 (read_exp 101 s - k)).

Example atof_samples :
  atof (lit "150.25") = ddiv (dbl_of_Z 15025) (dbl_of_Z 100) /\ atof (lit " -2e3x") = dbl_of_Z (-2000) /\
  atof (lit "0x1.8p1") = dbl_of_Z 3 /\ atof (lit "x") = d_zero /\ atof (lit "1e-400") = d_zero.
Proof. repeat split; by vm_compute. Qed.
Example fmt2_samples :
  fmt2 (atof (lit "1.005")) = lit "1.00" /\ fmt2 (atof (lit "-0.125")) = lit "-0.12" /\ fmt2 (atof (lit "2.675")) = lit "2.67" /\
  fmt2 (dbl_of_Z 1500000) = lit "1500000.00" /\ fmt2 d_zero = lit "0.00".
Proof. repeat split; by vm_compute. Qed.

(** ** What is printed is read back *)

Definition no_digit (s : cstr) : Prop := match s with c :: _ => is_num c = false | [] => True end.

Lemma read_int_digit acc c s : is_num c = true -> read_int acc (c :: s) = read_int (acc * 10 + (c - 48)) s.
Proof. intros H. cbn [read_int]. by rewrite H. Qed.
Lemma is_num_mod n : is_num (48 + n mod 10) = true.
Proof. pose proof (Z.mod_pos_bound n 10). unfold is_num. apply andb_true_iff. split; apply Z.leb_le; lia. Qed.
Lemma dec_digits_nums fuel : forall n, Forall (fun c => is_num c = true) (dec_digits fuel n).
Proof.
  induction fuel as [|f IH]; intros n; [constructor|]. cbn [dec_digits]. apply Forall_app. split.
  - destruct (n <? 10); [constructor|apply IH].
  - constructor; [apply is_num_mod|constructor].
Qed.
Lemma read_int_app l : forall acc rest, Forall (fun c => is_num c = true) l ->
  read_int acc (l ++ rest) = read_int (read_int acc l) rest.
Proof.
  induction l as [|c l IH]; intros acc rest H; [done|]. apply Forall_cons in H as [Hc H].
  cbn [app]. rewrite !read_int_digit by done. by apply IH.
Qed.
Lemma read_int_stop acc rest : no_digit rest -> read_int acc rest = acc.
Proof. destruct rest as [|c rest]; [done|]. intros H. cbn [read_int no_digit] in *. by rewrite H. Qed.
Lemma dec_digits_read fuel : forall n, 0 <= n < 10 ^ Z.of_nat fuel -> read_int 0 (dec_digits fuel n) = n.
Proof.
  induction fuel as [|fuel IH]; intros n Hn.
  - change (10 ^ Z.of_nat 0) with 1 in Hn. by replace n with 0 by lia.
  - cbn [dec_digits]. rewrite read_int_app by (destruct (n <? 10); [constructor|apply dec_digits_nums]).
    rewrite read_int_digit by apply is_num_mod. cbn [read_int].
    assert (read_int 0 (if n <? 10 then [] else dec_digits fuel (n / 10)) = n / 10) as ->.
    { destruct (Z.ltb_spec n 10); [rewrite Z.div_small by lia; done|].
      rewrite Nat2Z.inj_succ, Z.pow_succ_r in Hn by lia. apply IH.
      split; [apply Z.div_pos; lia|apply Z.div_lt_upper_bound; lia]. }
    pose proof (Z.div_mod n 10). lia.
Qed.
Lemma dec_nums n : Forall (fun c => is_num c = true) (dec n).
Proof. apply dec_digits_nums. Qed.
Lemma dec_nonempty n : dec n <> [].
Proof. unfold dec. cbn [dec_digits]. destruct (if _ <? _ then _ else _); done. Qed.
Lemma dec_read n rest : 0 <= n -> no_digit rest -> read_int 0 (dec n ++ rest) = n.
Proof.
  intros Hn Hr. rewrite read_int_app, read_int_stop by (done || apply dec_nums). apply dec_digits_read. split; [done|].
  rewrite Nat2Z.inj_succ, Z2Nat.id by apply Z.log2_nonneg.
  destruct (Z.eq_dec n 0) as [->|]; [done|]. pose proof (Z.log2_spec n).
  apply Z.lt_le_trans with (2 ^ Z.succ (Z.log2 n)); [lia|]. apply Z.pow_le_mono_l. lia.
Qed.

Lemma num_not_space c : is_num c = true -> is_space c = false /\ (c =? 45) = false /\ (c =? 43) = false.
Proof. unfold is_num, is_space. intros H. bsplit. repeat split; zcases; done. Qed.
(** A 32-bit unsigned number survives [%u] and [atoi] cast back. *)
Lemma atoi_dec_wrap n rest : 0 <= n <= INT64_MAX -> no_digit rest -> atoi (dec n ++ rest) = i32 n.
Proof.
  intros Hn Hr. unfold atoi. pose proof (dec_nums n) as N. pose proof (dec_nonempty n) as E.
  assert (read_sign (skip_spaces (dec n ++ rest)) = (false, dec n ++ rest)) as ->.
  { destruct (dec n) as [|c l]; [done|]. apply Forall_cons in N as [Hc _]. cbn [app skip_spaces].
    destruct (num_not_space c Hc) as (-> & S1 & S2). cbn [read_sign]. by rewrite S1, S2. }
  rewrite dec_read by (done || lia). unfold clamp_long, INT64_MIN, INT64_MAX in *. by rewrite Z.min_r, Z.max_r by lia.
Qed.
Lemma atoi_dec n rest : 0 <= n <= 2147483647 -> no_digit rest -> atoi (dec n ++ rest) = n.
Proof.
  intros Hn Hr. rewrite atoi_dec_wrap by (done || (unfold INT64_MAX; lia)). apply i32_small. lia.
Qed.

Lemma length_dec_digits fuel : forall n k, 0 <= n < 10 ^ Z.of_nat (S k) -> (length (dec_digits fuel n) <= S k)%nat.
Proof.
  induction fuel as [|fuel IH]; intros n k Hn; [simpl; lia|]. cbn [dec_digits]. rewrite length_app. simpl length.
  destruct (Z.ltb_spec n 10); [simpl; lia|]. destruct k as [|k]; [change (10 ^ Z.of_nat 1) with 10 in Hn; lia|].
  rewrite Nat2Z.inj_succ, Z.pow_succ_r in Hn by lia.
  specialize (IH (n / 10) k ltac:(split; [apply Z.div_pos; lia|apply Z.div_lt_upper_bound; lia])). lia.
Qed.
Lemma length_dec n k : 0 <= n < 10 ^ Z.of_nat (S k) -> (length (dec n) <= S k)%nat.
Proof. apply length_dec_digits. Qed.
