(* ===== verification/Fix.v ===== *)
(** * Fix: the FIX message parser and builder

    [fix-protocol/fix_parser.hpp].  A message is its bytes; a parsed message
    keeps the fields in order, each value cut to the 31 bytes the code stores,
    and the outcome of the two integrity checks.  [parse] walks the copy of at
    most 1023 bytes that the code makes. *)
From S2P Require Import Prelude Double Common Bytes Text.

Definition MAX_FIX_TAGS : nat := 32.
Definition MAX_FIX_VALUE : nat := 32.
Definition SOH : Z := 1.
Definition PIPE : Z := 124.
Definition EQUALS : Z := 61.

Record FIXField := mkField { tag : Z; value : cstr }.
Record FIXMessage := mkFix {
  fields_ : list FIXField; cksum_present_ : bool; cksum_valid_ : bool; bodylen_present_ : bool; bodylen_valid_ : bool;
  computed_cksum_ : Z; computed_bodylen_ : Z }.
#[export] Instance eta_fix : Settable FIXMessage := fun m =>
  mkFix (fields_ m) (cksum_present_ m) (cksum_valid_ m) (bodylen_present_ m) (bodylen_valid_ m) (computed_cksum_ m)
    (computed_bodylen_ m).
Definition new_message : FIXMessage := mkFix [] false false false false (-1) (-1).

Definition compute_checksum (data : list Z) : Z := Z.land (foldl (fun sum c => u32 (sum + c)) 0 data) 255.
Fixpoint find_in (tag_ : Z) (l : list FIXField) : option cstr :=
  match l with f :: l' => if tag f =? tag_ then Some (value f) else find_in tag_ l' | [] => None end.
Definition find_field (m : FIXMessage) (tag_ : Z) : option cstr := find_in tag_ (fields_ m).

(** ** Parsing *)

(** [memchr]: the bytes before the first [c]. *)
Fixpoint before (c : Z) (l : list Z) : list Z :=
  match l with x :: l' => if x =? c then [] else x :: before c l' | [] => [] end.
Definition has_char (c : Z) (l : list Z) : bool := existsb (fun x => x =? c) l.

(** The walk's state: where it is, the fields so far, the offsets of tag 10 and
    of the field after tag 9 (-1 when not seen). *)
Record Walk := mkWalk { found : list FIXField; cksum_off : Z; body_off : Z; pending_body : bool }.
#[export] Instance eta_walk : Settable Walk := fun w => mkWalk (found w) (cksum_off w) (body_off w) (pending_body w).
(** One field, from [pos] at offset [off] up to the delimiter. *)
Definition walk_field (w : Walk) (off : Z) (pos : list Z) (field : list Z) : Walk :=
  let w := if pending_body w then w <| body_off := off |> <| pending_body := false |> else w in
  let key := before EQUALS field in
  if ((length key <? length field) && negb (length key =? 0))%nat then
    let tag_ := atoi pos in
    if 0 <? tag_ then
      let val := take (MAX_FIX_VALUE - 1) (drop (S (length key)) field) in
      let w := w <| found ::= fun l => l ++ [mkField tag_ val] |> in
      let w := if tag_ =? 9 then w <| pending_body := true |> else w in
      if tag_ =? 10 then w <| cksum_off := off |> else w
    else w
  else w.
Fixpoint walk (fuel : nat) (delim : Z) (w : Walk) (off : Z) (pos : list Z) : Walk :=
  match fuel with
  | O => w
  | S fuel' =>
      if (match pos with [] => true | _ => false end) || (MAX_FIX_TAGS <=? length (found w))%nat then w else
      let field := before delim pos in
      let w := walk_field w off pos field in
      walk fuel' delim w (off + alen field + 1) (drop (S (length field)) pos)
  end.
Definition validate (m : FIXMessage) (raw : list Z) (cksum_off_ body_off_ : Z) : FIXMessage :=
  let m := match find_field m 10 with
           | Some v => if 0 <=? cksum_off_ then
                         let ck := compute_checksum (take (Z.to_nat cksum_off_) raw) in
                         m <| cksum_present_ := true |> <| computed_cksum_ := ck |> <| cksum_valid_ := atoi v =? ck |>
                       else m
           | None => m
           end in
  match find_field m 9 with
  | Some v => if (0 <=? body_off_) && (body_off_ <=? cksum_off_) then
                let len := cksum_off_ - body_off_ in
                m <| bodylen_present_ := true |> <| computed_bodylen_ := len |> <| bodylen_valid_ := atoi v =? len |>
              else m
  | None => m
  end.
Definition BUF_SIZE : nat := 1024.
Definition parse (raw : cstr) : FIXMessage :=
  match raw with
  | [] => new_message
  | _ =>
      let data := take (BUF_SIZE - 1) raw in
      let delim := if has_char SOH data then SOH else PIPE in
      let w := walk (S (length data)) delim (mkWalk [] (-1) (-1) false) 0 data in
      validate (new_message <| fields_ := found w |>) raw (cksum_off w) (body_off w)
  end.

(** ** Queries *)

Definition UNKNOWN : cstr := lit "UNKNOWN".
Definition char0 (s : cstr) : Z := default 0 (head s).
Definition get_field (m : FIXMessage) (tag_ : Z) : option cstr := find_field m tag_.
Definition get_msg_type (m : FIXMessage) : cstr := default UNKNOWN (find_field m 35).
Definition is_admin_msg_type (t : cstr) : bool :=
  match t with [c] => ((48 <=? c) && (c <=? 53)) || (c =? 65) | _ => false end.
Definition is_admin (m : FIXMessage) : bool :=
  match find_field m 35 with Some v => is_admin_msg_type v | None => false end.
Definition with_tag (m : FIXMessage) (tag_ : Z) : list FIXField := filter (fun f => tag f = tag_) (fields_ m).
Definition count_field (m : FIXMessage) (tag_ : Z) : Z := alen (with_tag m tag_).
Definition get_field_nth (m : FIXMessage) (tag_ occurrence : Z) : option cstr :=
  if occurrence <? 0 then None else value <$> with_tag m tag_ !! Z.to_nat occurrence.
Definition get_int_nth (m : FIXMessage) (tag_ occurrence : Z) : Z := from_option atoi 0 (get_field_nth m tag_ occurrence).
Definition get_double_nth (m : FIXMessage) (tag_ occurrence : Z) : double :=
  from_option atof d_zero (get_field_nth m tag_ occurrence).
Definition get_symbol (m : FIXMessage) : cstr := default UNKNOWN (find_field m 55).
Definition get_side (m : FIXMessage) : cstr :=
  match find_field m 54 with None => UNKNOWN | Some v => if char0 v =? 49 then lit "BUY" else lit "SELL" end.
Definition get_price (m : FIXMessage) : double := from_option atof d_zero (find_field m 44).
Definition get_quantity (m : FIXMessage) : Z := from_option atoi 0 (find_field m 38).
Definition get_int (m : FIXMessage) (tag_ : Z) : Z := from_option atoi 0 (find_field m tag_).
Definition get_double (m : FIXMessage) (tag_ : Z) : double := from_option atof d_zero (find_field m tag_).
Definition has (m : FIXMessage) (tag_ : Z) : bool := match find_field m tag_ with Some _ => true | None => false end.
Definition has_required_header (m : FIXMessage) : bool := has m 8 && has m 9 && has m 35 && has m 10.
Definition is_valid (m : FIXMessage) : bool := has_required_header m && cksum_valid_ m && bodylen_valid_ m.
Definition validate_new_order (m : FIXMessage) : option string :=
  if negb (has m 35) || negb (char0 (get_msg_type m) =? 68) then Some "not a NewOrderSingle (35!=D)"%string else
  if negb (has m 11) then Some "missing ClOrdID (11)"%string else
  if negb (has m 55) then Some "missing Symbol (55)"%string else
  match find_field m 54 with
  | None => Some "missing Side (54)"%string
  | Some sd =>
      if negb (char0 sd =? 49) && negb (char0 sd =? 50) then Some "invalid Side (54)"%string else
      match find_field m 38 with
      | None => Some "missing OrderQty (38)"%string
      | Some q =>
          if atoi q <=? 0 then Some "non-positive OrderQty (38)"%string else
          if from_option (fun ot => char0 ot =? 50) false (find_field m 40) &&
             negb (from_option (fun px => negb (dle (atof px) d_zero)) false (find_field m 44))
          then Some "limit order requires positive Price (44)"%string else None
      end
  end.

(** ** Building *)

(** [8=begin|9=len|body10=ck|], nothing when it may not fit. *)
Definition head_of (begin_string : cstr) (delim blen : Z) : cstr :=
  lit "8=" ++ begin_string ++ [delim] ++ lit "9=" ++ dec_i blen ++ [delim].
Definition trailer_of (data : list Z) (delim : Z) : cstr := lit "10=" ++ dec3 (compute_checksum data) ++ [delim].
Definition build_message (cap : Z) (body : cstr) (begin_string : cstr) (delim : Z) : cstr :=
  let blen := alen body in
  let head := head_of begin_string delim blen in
  if cap <? alen head + blen + 16 then [] else
  (head ++ body) ++ trailer_of (head ++ body) delim.

(** ** A message as fields *)

Definition fix_field (delim : Z) (f : FIXField) : cstr := dec (tag f) ++ [EQUALS] ++ value f ++ [delim].
Definition fix_body (delim : Z) (l : list FIXField) : cstr := concat (fix_field delim <$> l).
Definition cut (f : FIXField) : FIXField := mkField (tag f) (take (MAX_FIX_VALUE - 1) (value f)).

Definition delim_ok (delim : Z) : Prop := delim = SOH \/ delim = PIPE.
Definition text_ok (delim : Z) (v : cstr) : Prop := Forall (fun c => 0 < c < 256 /\ c <> SOH /\ c <> delim) v.
Record field_ok (delim : Z) (f : FIXField) : Prop := {
  fo_tag : 0 < tag f <= INT32_MAX; fo_value : text_ok delim (value f) }.

Lemma delim_facts delim : delim_ok delim -> delim <> EQUALS /\ is_num delim = false /\ 0 < delim < 256.
Proof. intros [->| ->]; done. Qed.
Lemma before_app c l r : Forall (fun x => x <> c) l -> before c (l ++ c :: r) = l.
Proof.
  induction 1 as [|x l Hx Hl IH]; simpl; [by rewrite Z.eqb_refl|]. destruct (Z.eqb_spec x c); [done|]. by rewrite IH.
Qed.
Lemma nums_not c l : is_num c = false -> Forall (fun x => is_num x = true) l -> Forall (fun x => x <> c) l.
Proof. intros Hc H. eapply Forall_impl; [exact H|]. simpl. intros x Hx ->. congruence. Qed.
Lemma text_not_delim delim v : text_ok delim v -> Forall (fun x => x <> delim) v.
Proof. intros H. eapply Forall_impl; [exact H|]. simpl. tauto. Qed.

(** What one field does to the walk. *)
Definition touch (w : Walk) (off : Z) : Walk :=
  if pending_body w then w <| body_off := off |> <| pending_body := false |> else w.
Definition take_field (w : Walk) (off : Z) (f : FIXField) : Walk :=
  let w := touch w off in
  let w := w <| found ::= fun l => l ++ [cut f] |> in
  let w := if tag f =? 9 then w <| pending_body := true |> else w in
  if tag f =? 10 then w <| cksum_off := off |> else w.
Fixpoint take_fields (delim : Z) (w : Walk) (off : Z) (l : list FIXField) : Walk :=
  match l with [] => w | f :: l' => take_fields delim (take_field w off f) (off + alen (fix_field delim f)) l' end.

Lemma walk_field_fix w off delim f rest :
  delim_ok delim -> field_ok delim f ->
  walk_field w off (fix_field delim f ++ rest) (dec (tag f) ++ [EQUALS] ++ value f) = take_field w off f.
Proof.
  intros Hd [Ht Hv]. unfold walk_field, take_field, touch.
  change ([EQUALS] ++ value f) with (EQUALS :: value f).
  assert (before EQUALS (dec (tag f) ++ EQUALS :: value f) = dec (tag f)) as ->.
  { apply before_app, nums_not; [done|apply dec_nums]. }
  assert (0 < length (dec (tag f)))%nat as Hl by (pose proof (dec_nonempty (tag f)); destruct (dec (tag f)); simpl; [done|lia]).
  rewrite length_app. simpl length.
  destruct (Nat.ltb_spec (length (dec (tag f))) (length (dec (tag f)) + S (length (value f)))); [|lia].
  destruct (Nat.eqb_spec (length (dec (tag f))) 0); [lia|]. cbn [negb andb].
  assert (atoi (fix_field delim f ++ rest) = tag f) as ->.
  { unfold fix_field. rewrite <- app_assoc. apply atoi_dec; [unfold INT32_MAX in Ht; lia|done]. }
  destruct (Z.ltb_spec 0 (tag f)); [|lia].
  assert (drop (S (length (dec (tag f)))) (dec (tag f) ++ EQUALS :: value f) = value f) as ->.
  { rewrite <- Nat.add_1_r, <- drop_drop, drop_app_length. done. }
  done.
Qed.
Lemma walk_fix delim l : forall fuel w off,
  delim_ok delim -> Forall (field_ok delim) l -> (length (found w) + length l <= MAX_FIX_TAGS)%nat ->
  (length (fix_body delim l) < fuel)%nat ->
  walk fuel delim w off (fix_body delim l) = take_fields delim w off l.
Proof.
  induction l as [|f l IH]; intros fuel w off Hd Hl Hn Hf.
  { destruct fuel; [simpl in Hf; lia|]. done. }
  apply Forall_cons in Hl as [Hfo Hl]. destruct (delim_facts delim Hd) as (D1 & D2 & D3).
  destruct fuel as [|fuel]; [lia|]. cbn [walk take_fields].
  change (fix_body delim (f :: l)) with (fix_field delim f ++ fix_body delim l) in *.
  set (field := dec (tag f) ++ [EQUALS] ++ value f).
  assert (fix_field delim f ++ fix_body delim l = field ++ delim :: fix_body delim l) as E.
  { unfold fix_field, field. rewrite <- !app_assoc. done. }
  assert (before delim (fix_field delim f ++ fix_body delim l) = field) as Hb.
  { rewrite E. apply before_app. unfold field. apply Forall_app. split; [apply nums_not; [done|apply dec_nums]|].
    constructor; [congruence|]. by apply text_not_delim, Hfo. }
  assert (length (fix_field delim f) = S (length field)) as Hlen.
  { unfold fix_field, field. rewrite !length_app. simpl. lia. }
  rewrite Hb. unfold field at 1. rewrite walk_field_fix by done.
  assert ((match fix_field delim f ++ fix_body delim l with [] => true | _ => false end) = false) as ->.
  { rewrite E. by destruct field. }
  simpl length in Hn. destruct (Nat.leb_spec MAX_FIX_TAGS (length (found w))); [lia|]. cbn [orb].
  assert (drop (S (length field)) (fix_field delim f ++ fix_body delim l) = fix_body delim l) as ->.
  { by rewrite <- Hlen, drop_app_length. }
  replace (off + alen field + 1) with (off + alen (fix_field delim f)) by (unfold alen; lia).
  apply IH; [done|done| |rewrite length_app in Hf; lia].
  unfold take_field, touch. destruct (pending_body w), (tag f =? 9), (tag f =? 10); simpl; rewrite length_app; simpl; lia.
Qed.

Lemma fix_body_app delim l1 l2 : fix_body delim (l1 ++ l2) = fix_body delim l1 ++ fix_body delim l2.
Proof. unfold fix_body. by rewrite fmap_app, concat_app. Qed.
Lemma take_fields_app delim l1 : forall w off l2,
  take_fields delim w off (l1 ++ l2) = take_fields delim (take_fields delim w off l1) (off + alen (fix_body delim l1)) l2.
Proof.
  induction l1 as [|f l1 IH]; intros w off l2; cbn [app take_fields].
  - f_equal. unfold alen. simpl. lia.
  - rewrite IH. f_equal. change (fix_body delim (f :: l1)) with (fix_field delim f ++ fix_body delim l1). rewrite alen_app. lia.
Qed.
Definition plain (f : FIXField) : Prop := tag f <> 8 /\ tag f <> 9 /\ tag f <> 10.
Lemma take_fields_plain delim l : forall w off,
  Forall plain l -> pending_body w = false ->
  take_fields delim w off l = mkWalk (found w ++ (cut <$> l)) (cksum_off w) (body_off w) false.
Proof.
  induction l as [|f l IH]; intros w off Hl Hp; cbn [take_fields fmap list_fmap].
  - rewrite app_nil_r. destruct w. simpl in *. by rewrite Hp.
  - apply Forall_cons in Hl as [(_ & H9 & H10) Hl]. unfold take_field, touch. rewrite Hp. upd.
    destruct (Z.eqb_spec (tag f) 9); [done|]. destruct (Z.eqb_spec (tag f) 10); [done|].
    rewrite IH by done. simpl. by rewrite <- app_assoc.
Qed.
Lemma take_fields_body delim l c w off :
  Forall plain l -> pending_body w = true -> tag c = 10 ->
  take_fields delim w off (l ++ [c]) =
  mkWalk (found w ++ (cut <$> l) ++ [cut c]) (off + alen (fix_body delim l)) off false.
Proof.
  intros Hl Hp Hc.
  assert (take_fields delim w off (l ++ [c]) = take_fields delim (touch w off) off (l ++ [c])) as ->.
  { assert (touch (touch w off) off = touch w off) as T by (unfold touch; by destruct (pending_body w)).
    destruct l as [|f l]; cbn [app take_fields]; unfold take_field; by rewrite T. }
  rewrite take_fields_app, (take_fields_plain delim l) by (done || (unfold touch; by rewrite Hp)).
  cbn [take_fields]. unfold take_field, touch. rewrite Hp, Hc. simpl. by rewrite <- app_assoc.
Qed.

Lemma dec3_byte c : 0 <= c < 256 -> atoi (take 31 (dec3 c)) = c /\ text_ok PIPE (dec3 c).
Proof.
  intros H.
  assert (forallb (fun c => (atoi (take 31 (dec3 c)) =? c) && bool_decide (Forall (fun x => 0 < x < 256 /\ x <> SOH /\ x <> PIPE) (dec3 c)))
            (seqZ 0 256) = true) as A by by vm_compute.
  rewrite forallb_forall in A. specialize (A c). rewrite <- list_elem_of_In, elem_of_seqZ in A.
  specialize (A ltac:(lia)). apply andb_true_iff in A as [A1 A2%bool_decide_eq_true]. bsplit. done.
Qed.
Lemma dec_short n : 0 <= n < 1024 -> atoi (take 31 (dec n)) = n.
Proof.
  intros H. assert (forallb (fun n => atoi (take 31 (dec n)) =? n) (seqZ 0 1024) = true) as A by by vm_compute.
  rewrite forallb_forall in A. specialize (A n). rewrite <- list_elem_of_In, elem_of_seqZ in A.
  specialize (A ltac:(lia)). by apply Z.eqb_eq in A.
Qed.
Lemma text_ok_nums delim l : delim_ok delim -> Forall (fun c => is_num c = true) l -> text_ok delim l.
Proof.
  intros Hd H. eapply Forall_impl; [exact H|]. simpl. intros c Hc. unfold is_num in Hc. bsplit.
  destruct Hd as [->| ->]; unfold SOH, PIPE; lia.
Qed.
Lemma checksum_range l : 0 <= compute_checksum l < 256.
Proof. unfold compute_checksum. rewrite (land_ones_mod _ 8) by lia. apply Z.mod_pos_bound. lia. Qed.
Lemma text_ok_dec3 delim ck : delim_ok delim -> 0 <= ck < 256 -> text_ok delim (dec3 ck).
Proof.
  intros Hd Hc. destruct (dec3_byte ck Hc) as [_ H]. destruct Hd as [->| ->]; [|done].
  eapply Forall_impl; [exact H|]. simpl. unfold SOH. tauto.
Qed.
Lemma has_char_body delim l : l <> [] -> has_char delim (fix_body delim l) = true.
Proof.
  destruct l as [|f l]; [done|]. intros _. unfold has_char. apply existsb_exists. exists delim.
  split; [|apply Z.eqb_refl]. change (fix_body delim (f :: l)) with (fix_field delim f ++ fix_body delim l). unfold fix_field.
  rewrite !in_app_iff. left. right. right. right. by left.
Qed.
Lemma no_soh_body l : Forall (field_ok PIPE) l -> has_char SOH (fix_body PIPE l) = false.
Proof.
  intros H. unfold has_char. apply not_true_is_false. intros (x & Hx & E%Z.eqb_eq)%existsb_exists. subst x.
  apply list_elem_of_In in Hx. revert Hx. induction H as [|f l [_ Hv] H IH]; [by intros ?%elem_of_nil|].
  change (fix_body PIPE (f :: l)) with (fix_field PIPE f ++ fix_body PIPE l). unfold fix_field.
  rewrite !elem_of_app. intros [[N|[N|[N|N]]]|N]; [| | | |done].
  - pose proof (dec_nums (tag f)) as D. rewrite Forall_forall in D. by specialize (D _ N).
  - by apply list_elem_of_singleton in N.
  - unfold text_ok in Hv. rewrite Forall_forall in Hv. specialize (Hv _ N). simpl in Hv. tauto.
  - by apply list_elem_of_singleton in N.
Qed.

Lemma find_in_app t l1 l2 : find_in t (l1 ++ l2) = match find_in t l1 with Some v => Some v | None => find_in t l2 end.
Proof. induction l1 as [|f l1 IH]; [done|]. cbn [app find_in]. by destruct (tag f =? t). Qed.
Lemma find_in_absent t l : Forall (fun f => tag f <> t) l -> find_in t (cut <$> l) = None.
Proof.
  induction 1 as [|f l Hf Hl IH]; [done|]. cbn [fmap list_fmap find_in cut tag]. by destruct (Z.eqb_spec (tag f) t).
Qed.
Lemma parse_walk delim l :
  delim_ok delim -> Forall (field_ok delim) l -> l <> [] -> (length l <= MAX_FIX_TAGS)%nat ->
  (length (fix_body delim l) < BUF_SIZE)%nat ->
  let w := take_fields delim (mkWalk [] (-1) (-1) false) 0 l in
  parse (fix_body delim l) = validate (new_message <| fields_ := found w |>) (fix_body delim l) (cksum_off w) (body_off w).
Proof.
  intros Hd Hl Hne Hn Hlen w. pose proof (has_char_body delim l Hne) as Hc.
  unfold parse. destruct (fix_body delim l) as [|c raw] eqn:E; [done|]. rewrite <- E in *.
  rewrite take_ge by (unfold BUF_SIZE in *; lia).
  assert ((if has_char SOH (fix_body delim l) then SOH else PIPE) = delim) as ->.
  { destruct Hd as [->| ->]; [by rewrite Hc|by rewrite no_soh_body]. }
  rewrite walk_fix; [done|done|done|simpl; lia|lia].
Qed.

Lemma validate_spec m raw co bo v10 v9 :
  find_field m 10 = Some v10 -> find_field m 9 = Some v9 -> 0 <= bo <= co ->
  validate m raw co bo =
  let ck := compute_checksum (take (Z.to_nat co) raw) in
  mkFix (fields_ m) true (atoi v10 =? ck) true (atoi v9 =? co - bo) ck (co - bo).
Proof.
  intros H10 H9 Hb. unfold validate. rewrite H10. destruct (Z.leb_spec 0 co); [|lia].
  unfold find_field in *. simpl. rewrite H9. by destruct (Z.leb_spec 0 bo), (Z.leb_spec bo co); try lia.
Qed.

(** A framed message: its head, its fields, and a checksum field, with the
    declared length and checksum left open. *)
Definition head_fields (begin_string : cstr) (n : Z) : list FIXField := [mkField 8 begin_string; mkField 9 (dec n)].
Definition framed (begin_string : cstr) (n : Z) (l : list FIXField) (ck : Z) : list FIXField :=
  head_fields begin_string n ++ l ++ [mkField 10 (dec3 ck)].
Definition covered_bytes (begin_string : cstr) (delim n : Z) (l : list FIXField) : list Z :=
  fix_body delim (head_fields begin_string n) ++ fix_body delim l.

Lemma parse_framed begin_string delim n l ck :
  delim_ok delim -> text_ok delim begin_string -> Forall (field_ok delim) l -> Forall plain l ->
  (length l <= 29)%nat -> 0 <= n < 1024 -> 0 <= ck < 256 ->
  (length (fix_body delim (framed begin_string n l ck)) < BUF_SIZE)%nat ->
  parse (fix_body delim (framed begin_string n l ck)) =
  let sum := compute_checksum (covered_bytes begin_string delim n l) in
  mkFix (cut <$> framed begin_string n l ck) true (ck =? sum) true (n =? alen (fix_body delim l)) sum (alen (fix_body delim l)).
Proof.
  intros Hd Hb Hl Hp Hn Hn9 Hck Hlen.
  assert (Forall (field_ok delim) (framed begin_string n l ck)) as Hw.
  { unfold framed. repeat (apply Forall_app; split); [|done|].
    - repeat constructor; simpl; try done. apply text_ok_nums; [done|apply dec_nums].
    - repeat constructor; simpl; try done. by apply text_ok_dec3. }
  rewrite parse_walk by (done || (unfold framed; rewrite !length_app; simpl; unfold MAX_FIX_TAGS; lia)). clear Hw.
  set (raw := fix_body delim (framed begin_string n l ck)).
  assert (raw = covered_bytes begin_string delim n l ++ fix_body delim [mkField 10 (dec3 ck)]) as Er.
  { unfold raw, framed, covered_bytes. by rewrite !fix_body_app, app_assoc. }
  unfold framed. rewrite take_fields_app, take_fields_body by (done || (cbn [take_fields]; done)).
  change (take_fields delim _ 0 _) with (mkWalk (cut <$> head_fields begin_string n) (-1) (-1) true).
  set (head := fix_body delim (head_fields begin_string n)) in *. cbn [found cksum_off body_off].
  pose proof (alen_nonneg head). pose proof (alen_nonneg (fix_body delim l)).
  erewrite validate_spec; [| | |lia].
  2:{ unfold find_field. simpl. rewrite find_in_app, find_in_absent; [done|].
      eapply Forall_impl; [exact Hp|]. unfold plain. simpl. tauto. }
  2: done.
  simpl. replace (take _ raw) with (covered_bytes begin_string delim n l).
  - rewrite (dec_short n) by done. rewrite (proj1 (dec3_byte ck Hck)).
    f_equal; [by rewrite !fmap_app|f_equal; lia|lia].
  - rewrite Er, take_app_length'; [done|]. unfold covered_bytes. fold head. rewrite length_app. unfold alen. lia.
Qed.

Lemma head_of_fields begin_string delim n : 0 <= n -> head_of begin_string delim n = fix_body delim (head_fields begin_string n).
Proof.
  intros H. unfold head_of, dec_i. destruct (Z.ltb_spec n 0); [lia|]. unfold fix_body, head_fields.
  cbn [fmap list_fmap concat]. rewrite app_nil_r. unfold fix_field. simpl. rewrite <- app_assoc. done.
Qed.
Definition built (begin_string : cstr) (delim : Z) (l : list FIXField) : list FIXField :=
  let n := alen (fix_body delim l) in framed begin_string n l (compute_checksum (covered_bytes begin_string delim n l)).
Lemma build_is_framed begin_string delim cap l :
  let out := build_message cap (fix_body delim l) begin_string delim in
  out <> [] -> out = fix_body delim (built begin_string delim l).
Proof.
  intros out. unfold out, build_message. destruct (cap <? _); [done|]. intros _.
  rewrite head_of_fields by apply alen_nonneg. unfold built, framed. rewrite !fix_body_app, app_assoc.
  fold (covered_bytes begin_string delim (alen (fix_body delim l)) l). f_equal.
  unfold fix_body, trailer_of, fix_field. cbn [fmap list_fmap concat tag value]. by rewrite app_nil_r.
Qed.
Lemma built_length begin_string delim l :
  (length (fix_body delim (built begin_string delim l)) < BUF_SIZE)%nat -> alen (fix_body delim l) < 1024.
Proof. unfold built, framed. rewrite !fix_body_app, !length_app. unfold alen, BUF_SIZE. lia. Qed.

(** A built message is parsed back: fields, length, checksum. *)
Lemma parse_built begin_string delim cap l :
  delim_ok delim -> text_ok delim begin_string -> Forall (field_ok delim) l -> Forall plain l -> (length l <= 29)%nat ->
  let out := build_message cap (fix_body delim l) begin_string delim in
  out <> [] -> (length out < BUF_SIZE)%nat ->
  let m := parse out in
  fields_ m = (cut <$> built begin_string delim l) /\ cksum_valid_ m = true /\ bodylen_valid_ m = true /\
  forall t, find_field m t = find_in t (cut <$> built begin_string delim l).
Proof.
  intros Hd Hb Hl Hp Hn out Hne Hlen m. pose proof (build_is_framed begin_string delim cap l Hne) as E. fold out in E.
  unfold m. rewrite E in *. pose proof (built_length _ _ _ Hlen).
  pose proof (parse_framed begin_string delim _ l _ Hd Hb Hl Hp Hn (conj (alen_nonneg (fix_body delim l)) H)
    (checksum_range _) Hlen) as P.
  fold (built begin_string delim l) in P. rewrite P. simpl. by rewrite !Z.eqb_refl.
Qed.

Lemma find_in_tag t l : is_Some (find_in t (cut <$> l)) <-> exists f, f ∈ l /\ tag f = t.
Proof.
  induction l as [|f l IH]; cbn [fmap list_fmap find_in cut tag].
  - split; [by intros [? ?]|intros (? & ?%elem_of_nil & _); done].
  - destruct (Z.eqb_spec (tag f) t) as [E|E].
    + split; [intros _; exists f; split; [by left|done]|by eexists].
    + rewrite IH. split; intros (g & Hg & Et); exists g; (split; [|done]).
      * by right.
      * apply elem_of_cons in Hg as [->|]; done.
Qed.
Lemma parse_built_get begin_string delim cap l :
  delim_ok delim -> text_ok delim begin_string -> Forall (field_ok delim) l -> Forall plain l -> (length l <= 29)%nat ->
  let out := build_message cap (fix_body delim l) begin_string delim in
  out <> [] -> (length out < BUF_SIZE)%nat ->
  (forall t, t ∉ [8; 9; 10] -> get_field (parse out) t = find_in t (cut <$> l)) /\
  (is_valid (parse out) = true <-> exists f, f ∈ l /\ tag f = 35).
Proof.
  intros Hd Hb Hl Hp Hn out Hne Hlen.
  destruct (parse_built begin_string delim cap l Hd Hb Hl Hp Hn Hne Hlen) as (Hf & Hc & Hbl & Hget).
  fold out in Hf, Hc, Hbl, Hget. generalize dependent (parse out). intros m Hf Hc Hbl Hget.
  assert (forall t, t ∉ [8; 9; 10] -> find_field m t = find_in t (cut <$> l)) as Hg.
  { intros t Ht. rewrite !not_elem_of_cons in Ht. rewrite Hget. unfold built, framed. rewrite !fmap_app.
    rewrite find_in_app, find_in_absent, find_in_app by (repeat constructor; simpl; lia).
    destruct (find_in t (cut <$> l)); [done|]. apply find_in_absent. repeat constructor; simpl; lia. }
  split; [done|].
  unfold is_valid, has_required_header, has. rewrite Hc, Hbl, !andb_true_r, (Hg 35) by (by apply (bool_decide_unpack _)).
  assert (is_Some (find_field m 8) /\ is_Some (find_field m 9) /\ is_Some (find_field m 10)) as ([v8 ->] & [v9 ->] & [v10 ->]).
  { rewrite !Hget. split_and!; [by eexists|by eexists|]. unfold built, framed. rewrite !fmap_app, !find_in_app. simpl.
    rewrite find_in_absent; [by eexists|]. eapply Forall_impl; [exact Hp|]. unfold plain. simpl. tauto. }
  cbn [andb]. rewrite andb_true_r, <- (find_in_tag 35 l). destruct (find_in 35 (cut <$> l)); split; try done.
Qed.

Lemma length_fix_field delim f : length (fix_field delim f) = (length (dec (tag f)) + length (value f) + 2)%nat.
Proof. unfold fix_field. rewrite !length_app. simpl. lia. Qed.
(** The size of a built message: the body and at most 40 bytes around it. *)
Lemma built_size begin_string delim l :
  (length begin_string <= 20)%nat -> alen (fix_body delim l) < 10000 ->
  (length (fix_body delim (built begin_string delim l)) <= length (fix_body delim l) + 40)%nat.
Proof.
  intros Hb Hl. unfold built, framed. rewrite !fix_body_app, !length_app.
  pose proof (checksum_range (covered_bytes begin_string delim (alen (fix_body delim l)) l)) as C.
  generalize dependent (compute_checksum (covered_bytes begin_string delim (alen (fix_body delim l)) l)). intros ck C.
  pose proof (length_dec (alen (fix_body delim l)) 3 (conj (alen_nonneg _) Hl)) as Ln.
  pose proof (length_dec ck 2 (conj (proj1 C) (Z.lt_trans _ 256 1000 (proj2 C) eq_refl))) as Lc.
  assert (length (dec3 ck) <= 3)%nat as L3 by (unfold dec3; rewrite length_app, length_replicate; lia).
  change (fix_body delim (head_fields begin_string (alen (fix_body delim l)))) with
    (fix_field delim (mkField 8 begin_string) ++ fix_field delim (mkField 9 (dec (alen (fix_body delim l)))) ++ []).
  change (fix_body delim [mkField 10 (dec3 ck)]) with (fix_field delim (mkField 10 (dec3 ck)) ++ []).
  rewrite !length_app, !length_fix_field. cbn [tag value length].
  change (length (dec 8)) with 1%nat. change (length (dec 9)) with 1%nat. change (length (dec 10)) with 2%nat. lia.
Qed.


(** ** Altered messages *)

Lemma checksum_sum l : compute_checksum l = sumf id l mod 256.
Proof.
  unfold compute_checksum. rewrite (land_ones_mod _ 8) by lia. change (2 ^ 8) with 256.
  assert (forall acc, foldl (fun sum c => u32 (sum + c)) acc l mod 256 = (acc + sumf id l) mod 256) as A.
  { induction l as [|c l IH]; intros acc; [by rewrite Z.add_0_r|]. cbn [foldl]. rewrite IH, sumf_cons, Z.add_assoc.
    unfold wrapu. by rewrite Zplus_mod, Z.mod_mod_divide, <- Zplus_mod by by exists 16777216. }
  by rewrite A.
Qed.
Lemma checksum_differs a x y b :
  is_byte x -> is_byte y -> x <> y -> compute_checksum (a ++ x :: b) <> compute_checksum (a ++ y :: b).
Proof.
  unfold is_byte. intros Hx Hy N. rewrite !checksum_sum, !sumf_app, !sumf_cons. unfold id. intros E.
  set (A := sumf (fun x => x) a) in *. set (B := sumf (fun x => x) b) in *.
  assert ((x - y) mod 256 = 0) as Z0.
  { replace (x - y) with ((A + (x + B)) - (A + (y + B))) by lia. by rewrite Zminus_mod, E, <- Zminus_mod, Z.sub_diag. }
  apply Z.mod_divide in Z0 as [k Hk]; [|lia]. destruct (Z.eq_dec k 0); nia.
Qed.

