(* ===== verification/FixSession.v ===== *)
(** * FixSession: the FIX session layer

    [fix-protocol/fix_session.hpp]: sequence numbers, the session state machine
    and its heartbeats, the message builders and the typed parsers.  Every
    builder is [emit]: it consumes the next outbound number, writes the header
    fields and its own into a buffer of the size the code gives it, and fails
    when they do not fit.  A builder's format string is its list of fields.
    Persisting the numbers to a file is left out.  A [char] array that receives
    a string with [strncpy] keeps its prefix. *)
From S2P Require Import Prelude Double Common Bytes Text Fix.

Inductive SessionState := DISCONNECTED | LOGON_SENT | LOGGED_IN | LOGOUT.
Record GapDetected := mkGapDetected { g_expected : Z; g_received : Z; g_valid : bool }.
Record FIXSession := mkSession {
  state_ : SessionState; expected_in_seq_ : Z; next_out_seq_ : Z; heartbeat_int_sec_ : Z; last_inbound_ms_ : Z;
  last_outbound_ms_ : Z; test_request_pending_ : bool; sender_comp_ : cstr; target_comp_ : cstr;
  pending_test_req_id_ : cstr; gaps_detected_ : Z; heartbeats_sent_ : Z; resends_requested_ : Z }.
#[export] Instance eta_session : Settable FIXSession := fun s =>
  mkSession (state_ s) (expected_in_seq_ s) (next_out_seq_ s) (heartbeat_int_sec_ s) (last_inbound_ms_ s)
    (last_outbound_ms_ s) (test_request_pending_ s) (sender_comp_ s) (target_comp_ s) (pending_test_req_id_ s)
    (gaps_detected_ s) (heartbeats_sent_ s) (resends_requested_ s).
Definition new_session : FIXSession :=
  mkSession DISCONNECTED 1 1 30 0 0 false (lit "SENDER") (lit "TARGET") [] 0 0 0.
(** [strncpy(dst, src, n - 1)] into a [char[n]]. *)
Definition copy_n (n : nat) (src : cstr) : cstr := take (n - 1) src.
Definition incr64 (n : Z) : Z := u64 (n + 1).
Definition set_comp_ids (s : FIXSession) (sender target : option cstr) : FIXSession :=
  let s := match sender with Some v => s <| sender_comp_ := copy_n 32 v |> | None => s end in
  match target with Some v => s <| target_comp_ := copy_n 32 v |> | None => s end.
Definition is_logged_in (s : FIXSession) : bool := match state_ s with LOGGED_IN => true | _ => false end.
Definition next_outbound_seq (s : FIXSession) : Z * FIXSession :=
  (next_out_seq_ s, s <| next_out_seq_ ::= fun n => u32 (n + 1) |>).

(** ** Inbound *)

Definition observe_inbound (s : FIXSession) (msg_seq_num now_ms : Z) : GapDetected * FIXSession :=
  let s := s <| last_inbound_ms_ := now_ms |> <| test_request_pending_ := false |> in
  let g := mkGapDetected 0 msg_seq_num false in
  if msg_seq_num =? expected_in_seq_ s then (g, s <| expected_in_seq_ ::= fun n => u32 (n + 1) |>) else
  if expected_in_seq_ s <? msg_seq_num then
    (mkGapDetected (expected_in_seq_ s) msg_seq_num true,
     s <| gaps_detected_ ::= incr64 |> <| expected_in_seq_ := u32 (msg_seq_num + 1) |>)
  else (g, s).
Definition mark_resend_requested (s : FIXSession) : FIXSession := s <| resends_requested_ ::= incr64 |>.
Definition apply_inbound_sequence_reset (s : FIXSession) (new_seq_no : Z) : FIXSession :=
  if expected_in_seq_ s <=? new_seq_no then s <| expected_in_seq_ := new_seq_no |> else s.
Definition mark_logon_sent (s : FIXSession) (now_ms : Z) : FIXSession :=
  s <| state_ := LOGON_SENT |> <| last_outbound_ms_ := now_ms |>.
Definition mark_logon_received (s : FIXSession) (hb_int_sec now_ms : Z) : FIXSession :=
  s <| state_ := LOGGED_IN |> <| heartbeat_int_sec_ := if 0 <? hb_int_sec then hb_int_sec else 30 |>
    <| last_inbound_ms_ := now_ms |>.
Definition mark_logout (s : FIXSession) (now_ms : Z) : FIXSession :=
  s <| state_ := LOGOUT |> <| last_outbound_ms_ := now_ms |>.
Definition mark_disconnected (s : FIXSession) : FIXSession := s <| state_ := DISCONNECTED |>.
Definition uatoi (v : cstr) : Z := u32 (atoi v).
Definition process_inbound (s : FIXSession) (m : FIXMessage) (now_ms : Z) : GapDetected * FIXSession :=
  let mt := char0 (get_msg_type m) in
  if mt =? 52 then
    let s := match get_field m 36 with Some ns => apply_inbound_sequence_reset s (uatoi ns) | None => s end in
    (mkGapDetected 0 0 false, s <| last_inbound_ms_ := now_ms |>)
  else
    let '(gap, s) := match get_field m 34 with
                     | Some seq => observe_inbound s (uatoi seq) now_ms
                     | None => (mkGapDetected 0 0 false, s <| last_inbound_ms_ := now_ms |>)
                     end in
    let s := if mt =? 65 then mark_logon_received s (from_option atoi 30 (get_field m 108)) now_ms
             else if mt =? 53 then mark_logout s now_ms
             else if mt =? 49 then
               match get_field m 112 with Some tri => s <| pending_test_req_id_ := copy_n 32 tri |> | None => s end
             else s in
    (gap, s).
Definition clear_pending_test_req (s : FIXSession) : FIXSession := s <| pending_test_req_id_ := [] |>.

(** ** Heartbeats *)

Inductive Action := NONE | SEND_HEARTBEAT | SEND_TEST_REQUEST | DISCONNECT.
Definition tick (s : FIXSession) (now_ms : Z) : Action * FIXSession :=
  if negb (is_logged_in s) then (NONE, s) else
  let hb_ms := i64 (heartbeat_int_sec_ s * 1000) in
  if i64 (2 * hb_ms) <? i64 (now_ms - last_inbound_ms_ s) then
    if test_request_pending_ s then (DISCONNECT, s)
    else (SEND_TEST_REQUEST, s <| test_request_pending_ := true |>)
  else if hb_ms <? i64 (now_ms - last_outbound_ms_ s) then
    (SEND_HEARTBEAT, s <| heartbeats_sent_ ::= incr64 |> <| last_outbound_ms_ := now_ms |>)
  else (NONE, s).
Definition mark_outbound (s : FIXSession) (now_ms : Z) : FIXSession := s <| last_outbound_ms_ := now_ms |>.

(** ** Builders *)

Definition FIX42 : cstr := lit "FIX.4.2".
Definition fd (tag_ : Z) (v : cstr) : FIXField := mkField tag_ v.
Definition header_fields (s : FIXSession) (mtype : cstr) : list FIXField :=
  [fd 35 mtype; fd 49 (sender_comp_ s); fd 56 (target_comp_ s); fd 34 (dec (next_out_seq_ s))].
(** [snprintf] into [size] bytes, then [build_message] on the C string there. *)
Definition emit (s : FIXSession) (cap size delim : Z) (mtype : cstr) (extra : list FIXField) : cstr * FIXSession :=
  let body := fix_body delim (header_fields s mtype ++ extra) in
  let s := snd (next_outbound_seq s) in
  if size <=? alen body then ([], s) else (build_message cap (before 0 body) FIX42 delim, s).
(** Whether [emit] got past [snprintf], for the builders that then count. *)
Definition written (s : FIXSession) (size delim : Z) (mtype : cstr) (extra : list FIXField) : bool :=
  alen (fix_body delim (header_fields s mtype ++ extra)) <? size.
Definition fix_side (s : Side) : cstr := match s with BUY => [49] | SELL => [50] end.
Definition chr (c : Z) : cstr := [c].
(** An absent C string prints as the empty one where the code says so. *)
Definition or_empty (s : option cstr) : cstr := default [] s.
Definition given (text : option cstr) : bool := match text with Some (_ :: _) => true | _ => false end.

Definition build_logon (s : FIXSession) (cap delim : Z) (hb_int_sec : Z) : cstr * FIXSession :=
  emit s cap 160 delim (lit "A")
    ([fd 108 (dec_i hb_int_sec)]).
Definition build_test_request (s : FIXSession) (cap delim : Z) (test_req_id : option cstr) : cstr * FIXSession :=
  emit s cap 160 delim (lit "1")
    ([fd 112 (default (lit "TEST") test_req_id)]).
Definition build_resend_request (s : FIXSession) (cap delim : Z) (begin_seq end_seq : Z) : cstr * FIXSession :=
  let extra := [fd 7 (dec begin_seq); fd 16 (dec end_seq)] in
  let ok := written s 160 delim (lit "2") extra in
  let '(out, s) := emit s cap 160 delim (lit "2") extra in (out, if ok then s <| resends_requested_ ::= incr64 |> else s).
Definition build_sequence_reset (s : FIXSession) (cap delim : Z) (new_seq_no : Z) (gap_fill : bool) : cstr * FIXSession :=
  emit s cap 160 delim (lit "4")
    ([fd 36 (dec new_seq_no); fd 123 (chr (if gap_fill then 89 else 78))]).
Definition build_logout (s : FIXSession) (cap delim : Z) (text : option cstr) : cstr * FIXSession :=
  emit s cap 192 delim (lit "5")
    (if given text then [fd 58 (or_empty text)] else []).
Definition build_heartbeat (s : FIXSession) (cap delim : Z) (test_req_id : option cstr) : cstr * FIXSession :=
  let extra := if given test_req_id then [fd 112 (or_empty test_req_id)] else [] in
  let ok := written s 160 delim (lit "0") extra in
  let '(out, s) := emit s cap 160 delim (lit "0") extra in (out, if ok then s <| heartbeats_sent_ ::= incr64 |> else s).
Definition build_new_order (s : FIXSession) (cap delim : Z) (cl_ord_id symbol : cstr) (side : Side) (qty : Z) (price : double) : cstr * FIXSession :=
  emit s cap 256 delim (lit "D")
    ([fd 11 cl_ord_id; fd 55 symbol; fd 54 (fix_side side); fd 38 (dec_i qty); fd 44 (fmt2 price); fd 40 (chr 50)]).
Definition build_cancel_order (s : FIXSession) (cap delim : Z) (cl_ord_id orig_cl_ord_id symbol : cstr) (side : Side) (qty : Z) : cstr * FIXSession :=
  emit s cap 256 delim (lit "F")
    ([fd 11 cl_ord_id; fd 41 orig_cl_ord_id; fd 55 symbol; fd 54 (fix_side side); fd 38 (dec_i qty)]).
Definition build_cancel_replace (s : FIXSession) (cap delim : Z) (cl_ord_id orig_cl_ord_id symbol : cstr) (side : Side) (qty : Z) (price : double) : cstr * FIXSession :=
  emit s cap 256 delim (lit "G")
    ([fd 11 cl_ord_id; fd 41 orig_cl_ord_id; fd 55 symbol; fd 54 (fix_side side); fd 38 (dec_i qty); fd 44 (fmt2 price); fd 40 (chr 50)]).
Definition build_order_status_request (s : FIXSession) (cap delim : Z) (cl_ord_id symbol : cstr) (side : Side) : cstr * FIXSession :=
  emit s cap 256 delim (lit "H")
    ([fd 11 cl_ord_id; fd 55 symbol; fd 54 (fix_side side)]).
Definition build_mass_cancel (s : FIXSession) (cap delim : Z) (cl_ord_id : cstr) (request_type : Z) (symbol : option cstr) : cstr * FIXSession :=
  emit s cap 256 delim (lit "q")
    (match symbol with
     | Some sym => if request_type =? 49 then [fd 11 cl_ord_id; fd 530 (chr 49); fd 55 sym] else [fd 11 cl_ord_id; fd 530 (chr 55)]
     | None => [fd 11 cl_ord_id; fd 530 (chr 55)]
     end).
Definition build_mass_cancel_report (s : FIXSession) (cap delim : Z) (cl_ord_id : cstr) (response affected : Z) : cstr * FIXSession :=
  emit s cap 256 delim (lit "r")
    ([fd 11 cl_ord_id; fd 531 (chr response); fd 533 (dec_i affected)]).
Definition build_market_data_request (s : FIXSession) (cap delim : Z) (md_req_id : cstr) (sub_type depth : Z) (symbol : cstr) : cstr * FIXSession :=
  emit s cap 256 delim (lit "V")
    ([fd 262 md_req_id; fd 263 (chr sub_type); fd 264 (dec_i depth); fd 146 (chr 49); fd 55 symbol]).
Definition build_md_snapshot (s : FIXSession) (cap delim : Z) (md_req_id symbol : cstr) (bid_px : double) (bid_sz : Z) (ask_px : double) (ask_sz : Z) : cstr * FIXSession :=
  emit s cap 320 delim (lit "W")
    ([fd 262 md_req_id; fd 55 symbol; fd 268 (chr 50); fd 269 (chr 48); fd 270 (fmt2 bid_px); fd 271 (dec_i bid_sz);
     fd 269 (chr 49); fd 270 (fmt2 ask_px); fd 271 (dec_i ask_sz)]).
Definition build_md_incremental (s : FIXSession) (cap delim : Z) (md_req_id : cstr) (update_action entry_type : Z) (symbol : cstr) (px : double) (sz : Z) : cstr * FIXSession :=
  emit s cap 320 delim (lit "X")
    ([fd 262 md_req_id; fd 268 (chr 49); fd 279 (chr update_action); fd 269 (chr entry_type); fd 55 symbol;
     fd 270 (fmt2 px); fd 271 (dec_i sz)]).
Definition build_md_request_reject (s : FIXSession) (cap delim : Z) (md_req_id : cstr) (reason : Z) : cstr * FIXSession :=
  emit s cap 256 delim (lit "Y")
    ([fd 262 md_req_id; fd 281 (chr reason)]).
Definition build_quote (s : FIXSession) (cap delim : Z) (quote_id symbol : cstr) (bid_px offer_px : double) (bid_size offer_size : Z) : cstr * FIXSession :=
  emit s cap 256 delim (lit "S")
    ([fd 117 quote_id; fd 55 symbol; fd 132 (fmt2 bid_px); fd 133 (fmt2 offer_px); fd 134 (dec_i bid_size); fd 135 (dec_i offer_size)]).
Definition build_quote_request (s : FIXSession) (cap delim : Z) (quote_req_id symbol : cstr) : cstr * FIXSession :=
  emit s cap 256 delim (lit "R")
    ([fd 131 quote_req_id; fd 146 (chr 49); fd 55 symbol]).
Definition build_quote_cancel (s : FIXSession) (cap delim : Z) (quote_id : cstr) (cancel_type : Z) (symbol : cstr) : cstr * FIXSession :=
  emit s cap 256 delim (lit "Z")
    ([fd 117 quote_id; fd 298 (chr cancel_type); fd 55 symbol]).
Definition build_mass_quote (s : FIXSession) (cap delim : Z) (quote_id sym1 : cstr) (bid1 ask1 : double) (sym2 : cstr) (bid2 ask2 : double) : cstr * FIXSession :=
  emit s cap 320 delim (lit "i")
    ([fd 117 quote_id; fd 296 (chr 49); fd 295 (chr 50); fd 299 (chr 49); fd 55 sym1; fd 132 (fmt2 bid1); fd 133 (fmt2 ask1);
     fd 299 (chr 50); fd 55 sym2; fd 132 (fmt2 bid2); fd 133 (fmt2 ask2)]).
Definition build_trade_capture_report (s : FIXSession) (cap delim : Z) (trade_report_id symbol : cstr) (side : Side) (qty : Z) (px : double) (trade_date : cstr) : cstr * FIXSession :=
  emit s cap 256 delim (lit "AE")
    ([fd 571 trade_report_id; fd 55 symbol; fd 54 (fix_side side); fd 32 (dec_i qty); fd 31 (fmt2 px); fd 75 trade_date]).
Definition build_business_reject_seq (s : FIXSession) (cap delim : Z) (ref_seq : Z) (ref_msg_type : cstr) (reject_reason : Z) (text : cstr) : cstr * FIXSession :=
  emit s cap 256 delim (lit "j")
    ([fd 45 (dec ref_seq); fd 372 ref_msg_type; fd 380 (dec_i reject_reason); fd 58 text]).
Definition build_trading_session_status_request (s : FIXSession) (cap delim : Z) (req_id session_id : cstr) (sub_type : Z) : cstr * FIXSession :=
  emit s cap 200 delim (lit "g")
    ([fd 335 req_id; fd 336 session_id; fd 263 (chr sub_type)]).
Definition build_trading_session_status (s : FIXSession) (cap delim : Z) (session_id : cstr) (status : Z) : cstr * FIXSession :=
  emit s cap 160 delim (lit "h")
    ([fd 336 session_id; fd 340 (dec_i status)]).
Definition build_mass_status_request (s : FIXSession) (cap delim : Z) (req_id : cstr) (req_type : Z) (symbol : cstr) : cstr * FIXSession :=
  emit s cap 200 delim (lit "AF")
    ([fd 584 req_id; fd 585 (dec_i req_type); fd 55 symbol]).
Definition build_ioi (s : FIXSession) (cap delim : Z) (ioi_id : cstr) (trans_type : Z) (symbol : cstr) (side : Side) (qty : Z) (price : double) : cstr * FIXSession :=
  emit s cap 256 delim (lit "6")
    ([fd 23 ioi_id; fd 28 (chr trans_type); fd 55 symbol; fd 54 (fix_side side); fd 27 (dec_i qty); fd 44 (fmt2 price)]).
Definition build_exec_report (s : FIXSession) (cap delim : Z) (cl_ord_id order_id exec_id : cstr) (exec_type ord_status : Z) (symbol : cstr) (side : Side) (last_qty : Z)
    (last_px : double) (cum_qty leaves_qty : Z) : cstr * FIXSession :=
  emit s cap 320 delim (lit "8")
    ([fd 11 cl_ord_id; fd 37 order_id; fd 17 exec_id; fd 150 (chr exec_type); fd 39 (chr ord_status); fd 55 symbol;
     fd 54 (fix_side side); fd 32 (dec_i last_qty); fd 31 (fmt2 last_px); fd 14 (dec_i cum_qty); fd 151 (dec_i leaves_qty)]).
Definition build_reject (s : FIXSession) (cap delim : Z) (ref_seq_num : Z) (ref_msg_type : option cstr) (reject_reason : Z) (text : option cstr) : cstr * FIXSession :=
  emit s cap 256 delim (lit "3")
    ([fd 45 (dec ref_seq_num); fd 372 (or_empty ref_msg_type); fd 373 (dec_i reject_reason); fd 58 (or_empty text)]).
Definition build_business_reject (s : FIXSession) (cap delim : Z) (ref_msg_type business_reject_ref_id : option cstr) (reject_reason : Z) (text : option cstr) : cstr * FIXSession :=
  emit s cap 256 delim (lit "j")
    ([fd 372 (or_empty ref_msg_type); fd 379 (or_empty business_reject_ref_id); fd 380 (dec_i reject_reason); fd 58 (or_empty text)]).
Definition build_cancel_reject (s : FIXSession) (cap delim : Z) (cl_ord_id : cstr) (orig_cl_ord_id order_id : option cstr) (ord_status cxl_rej_response_to cxl_rej_reason : Z) (text : option cstr) : cstr * FIXSession :=
  emit s cap 256 delim (lit "9")
    ([fd 11 cl_ord_id; fd 41 (or_empty orig_cl_ord_id); fd 37 (or_empty order_id); fd 39 (chr ord_status);
     fd 434 (chr cxl_rej_response_to); fd 102 (dec_i cxl_rej_reason); fd 58 (or_empty text)]).
Definition build_quote_status_report (s : FIXSession) (cap delim : Z) (quote_id symbol : cstr) (quote_status : Z) (text : option cstr) : cstr * FIXSession :=
  emit s cap 256 delim (lit "AI")
    ([fd 117 quote_id; fd 55 symbol; fd 297 (dec_i quote_status)] ++ (if given text then [fd 58 (or_empty text)] else [])).
Definition build_dont_know_trade (s : FIXSession) (cap delim : Z) (order_id exec_id : cstr) (dk_reason : Z) (symbol : cstr) (side order_qty : Z) (text : option cstr) : cstr * FIXSession :=
  emit s cap 256 delim (lit "Q")
    ([fd 37 order_id; fd 17 exec_id; fd 127 (chr dk_reason); fd 55 symbol; fd 54 (chr side); fd 38 (dec order_qty)] ++
    (if given text then [fd 58 (or_empty text)] else [])).

(** ** Typed parsers *)

Definition str_of (m : FIXMessage) (tag_ : Z) (n : nat) : cstr := copy_n n (or_empty (get_field m tag_)).
Definition char_of (m : FIXMessage) (tag_ : Z) : Z := char0 (or_empty (get_field m tag_)).
Definition int_or (m : FIXMessage) (tag_ d : Z) : Z := from_option atoi d (get_field m tag_).
Definition uint_of (m : FIXMessage) (tag_ : Z) : Z := u32 (int_or m tag_ 0).
Definition starts (m : FIXMessage) (c : Z) : bool := char0 (get_msg_type m) =? c.
Definition type_is (m : FIXMessage) (t : cstr) : bool := bool_decide (get_msg_type m = t).

Record IOI := mkIOI { ioi_trans_type : Z; ioi_side : Z; ioi_qty : Z; ioi_price : double; ioi_valid : bool }.
Definition parse_ioi (m : FIXMessage) : IOI :=
  if negb (starts m 54) then mkIOI 0 0 0 d_zero false else
  mkIOI (char_of m 28) (char_of m 54) (get_int m 27) (get_double m 44) true.
Record ExecReport := mkExecReport { er_ord_status : Z; er_exec_type : Z; er_last_qty : Z; er_last_px : double; er_cum_qty : Z; er_leaves_qty : Z; er_valid : bool }.
Definition parse_exec_report (m : FIXMessage) : ExecReport :=
  if negb (starts m 56) then mkExecReport 0 0 0 d_zero 0 0 false else
  mkExecReport (char_of m 39) (char_of m 150) (get_int m 32) (get_double m 31) (get_int m 14) (get_int m 151) true.
Record QuoteStatusReport := mkQuoteStatusReport { qs_status : Z; qs_valid : bool }.
Definition parse_quote_status (m : FIXMessage) : QuoteStatusReport :=
  if negb (type_is m (lit "AI")) then mkQuoteStatusReport (-1) false else
  mkQuoteStatusReport (int_or m 297 (-1)) true.
Record MassStatusRequest := mkMassStatusRequest { ms_req_id : cstr; ms_req_type : Z; ms_symbol : cstr; ms_valid : bool }.
Definition parse_mass_status_request (m : FIXMessage) : MassStatusRequest :=
  if negb (type_is m (lit "AF")) then mkMassStatusRequest [] (-1) [] false else
  mkMassStatusRequest (str_of m 584 24) (int_or m 585 (-1)) (str_of m 55 16) true.
Definition is_all_orders (r : MassStatusRequest) : bool := ms_req_type r =? 1.
Record MDIncrement := mkMDIncrement { mi_md_req_id : cstr; mi_symbol : cstr; mi_update_action : Z; mi_entry_type : Z; mi_px : double; mi_size : Z; mi_valid : bool }.
Definition parse_md_incremental (m : FIXMessage) : MDIncrement :=
  if negb (starts m 88) then mkMDIncrement [] [] 0 0 d_zero (-1) false else
  mkMDIncrement (str_of m 262 24) (str_of m 55 16) (char_of m 279) (char_of m 269) (get_double m 270) (int_or m 271 (-1)) true.
Definition is_bid (r : MDIncrement) : bool := mi_entry_type r =? 48.
Definition is_delete (r : MDIncrement) : bool := mi_update_action r =? 50.
Record ResendReq := mkResendReq { rr_begin_seq : Z; rr_end_seq : Z; rr_valid : bool }.
Definition parse_resend_request (m : FIXMessage) : ResendReq :=
  if negb (starts m 50) then mkResendReq 0 0 false else
  mkResendReq (uint_of m 7) (uint_of m 16) true.
Definition is_open_ended (r : ResendReq) : bool := rr_end_seq r =? 0.
Definition rr_count (r : ResendReq) : Z :=
  if (rr_begin_seq r <=? rr_end_seq r) && (0 <? rr_end_seq r) then u32 (rr_end_seq r - rr_begin_seq r + 1) else 0.
Record SeqReset := mkSeqReset { sr_new_seq : Z; sr_gap_fill : bool; sr_valid : bool }.
Definition parse_sequence_reset (m : FIXMessage) : SeqReset :=
  if negb (starts m 52) then mkSeqReset 0 false false else
  mkSeqReset (uint_of m 36) (char_of m 123 =? 89) true.
Record LogonMsg := mkLogonMsg { lm_hb_int_sec : Z; lm_valid : bool }.
Definition parse_logon (m : FIXMessage) : LogonMsg :=
  if negb (type_is m (lit "A")) then mkLogonMsg (-1) false else
  mkLogonMsg (int_or m 108 (-1)) true.
Record LogoutMsg := mkLogoutMsg { lo_text : cstr; lo_valid : bool }.
Definition parse_logout (m : FIXMessage) : LogoutMsg :=
  if negb (starts m 53) then mkLogoutMsg [] false else
  mkLogoutMsg (str_of m 58 64) true.
Definition has_reason (r : LogoutMsg) : bool := negb (char0 (lo_text r) =? 0).
Record TestReq := mkTestReq { tr_test_req_id : cstr; tr_valid : bool }.
Definition parse_test_request (m : FIXMessage) : TestReq :=
  if negb (starts m 49) then mkTestReq [] false else
  mkTestReq (str_of m 112 24) true.
Record HeartbeatMsg := mkHeartbeatMsg { hm_test_req_id : cstr; hm_valid : bool }.
Definition parse_heartbeat (m : FIXMessage) : HeartbeatMsg :=
  if negb (starts m 48) then mkHeartbeatMsg [] false else
  mkHeartbeatMsg (str_of m 112 24) true.
Definition is_solicited (r : HeartbeatMsg) : bool := negb (char0 (hm_test_req_id r) =? 0).
Record Entry := mkEntry { e_symbol : cstr; e_bid_px : double; e_offer_px : double }.
Definition two_sided (e : Entry) : bool := dgt (e_bid_px e) d_zero && dgt (e_offer_px e) d_zero.
Definition MAX_ENTRIES : nat := 8.
Record MassQuote := mkMassQuote { mq_quote_id : cstr; mq_entries : list Entry; mq_entry_count : Z; mq_valid : bool }.
Definition truncated (q : MassQuote) : bool := alen (mq_entries q) <? mq_entry_count q.
(** Entry [i] is the [i]-th symbol with the [i]-th bid and offer; entries with
    an empty symbol are skipped. *)
Fixpoint mass_entries (m : FIXMessage) (i : Z) (l : list FIXField) (acc : list Entry) : list Entry :=
  match l with
  | [] => acc
  | f :: l' =>
      if (MAX_ENTRIES <=? length acc)%nat then acc else
      let acc := if char0 (value f) =? 0 then acc
                 else acc ++ [mkEntry (copy_n 16 (value f)) (get_double_nth m 132 i) (get_double_nth m 133 i)] in
      mass_entries m (i + 1) l' acc
  end.
Definition parse_mass_quote (m : FIXMessage) : MassQuote :=
  if negb (starts m 105) then mkMassQuote [] [] (-1) false else
  mkMassQuote (str_of m 117 24) (mass_entries m 0 (with_tag m 55) []) (int_or m 295 (-1)) true.
Record MDSnapshot := mkMDSnapshot {
  sn_md_req_id : cstr; sn_symbol : cstr; sn_entries : Z; sn_bid_px : double; sn_ask_px : double; sn_bid_sz : Z; sn_ask_sz : Z;
  sn_valid : bool }.
#[export] Instance eta_snapshot : Settable MDSnapshot := fun r =>
  mkMDSnapshot (sn_md_req_id r) (sn_symbol r) (sn_entries r) (sn_bid_px r) (sn_ask_px r) (sn_bid_sz r) (sn_ask_sz r) (sn_valid r).
Definition has_both_sides (r : MDSnapshot) : bool := dgt (sn_bid_px r) d_zero && dgt (sn_ask_px r) d_zero.
Fixpoint snapshot_entries (m : FIXMessage) (i : Z) (l : list FIXField) (r : MDSnapshot) : MDSnapshot :=
  match l with
  | [] => r
  | f :: l' =>
      let r := if char0 (value f) =? 48 then r <| sn_bid_px := get_double_nth m 270 i |> <| sn_bid_sz := get_int_nth m 271 i |>
               else if char0 (value f) =? 49 then r <| sn_ask_px := get_double_nth m 270 i |> <| sn_ask_sz := get_int_nth m 271 i |>
               else r in
      snapshot_entries m (i + 1) l' r
  end.
Definition parse_md_snapshot (m : FIXMessage) : MDSnapshot :=
  let r := mkMDSnapshot [] [] (-1) d_zero d_zero 0 0 false in
  if negb (starts m 87) then r else
  snapshot_entries m 0 (with_tag m 269)
    (r <| sn_md_req_id := str_of m 262 24 |> <| sn_symbol := str_of m 55 16 |> <| sn_entries := int_or m 268 (-1) |>)
  <| sn_valid := true |>.
Record DontKnowTrade := mkDontKnowTrade { dk_dk_reason : Z; dk_valid : bool }.
Definition parse_dont_know_trade (m : FIXMessage) : DontKnowTrade :=
  if negb (type_is m (lit "Q")) then mkDontKnowTrade 0 false else
  mkDontKnowTrade (char_of m 127) true.
Record TradeCaptureReport := mkTradeCaptureReport { tc_trade_report_id : cstr; tc_symbol : cstr; tc_side : Z; tc_last_qty : Z; tc_last_px : double; tc_trade_date : cstr; tc_valid : bool }.
Definition parse_trade_capture_report (m : FIXMessage) : TradeCaptureReport :=
  if negb (type_is m (lit "AE")) then mkTradeCaptureReport [] [] 0 0 d_zero [] false else
  mkTradeCaptureReport (str_of m 571 32) (str_of m 55 16) (char_of m 54) (get_int m 32) (get_double m 31) (str_of m 75 16) true.
Record NewOrder := mkNewOrder { no_cl_ord_id : cstr; no_symbol : cstr; no_side : Z; no_qty : Z; no_price : double; no_ord_type : Z; no_valid : bool }.
Definition parse_new_order (m : FIXMessage) : NewOrder :=
  if negb (starts m 68) then mkNewOrder [] [] 0 0 d_zero 0 false else
  mkNewOrder (str_of m 11 32) (str_of m 55 16) (char_of m 54) (get_int m 38) (get_double m 44) (char_of m 40) true.
Record CancelRequest := mkCancelRequest { cr_cl_ord_id : cstr; cr_orig_cl_ord_id : cstr; cr_symbol : cstr; cr_side : Z; cr_qty : Z; cr_valid : bool }.
Definition parse_cancel_request (m : FIXMessage) : CancelRequest :=
  if negb (starts m 70) then mkCancelRequest [] [] [] 0 0 false else
  mkCancelRequest (str_of m 11 32) (str_of m 41 32) (str_of m 55 16) (char_of m 54) (get_int m 38) true.
Record ReplaceRequest := mkReplaceRequest { rp_cl_ord_id : cstr; rp_orig_cl_ord_id : cstr; rp_symbol : cstr; rp_side : Z; rp_qty : Z; rp_price : double; rp_ord_type : Z; rp_valid : bool }.
Definition parse_replace_request (m : FIXMessage) : ReplaceRequest :=
  if negb (starts m 71) then mkReplaceRequest [] [] [] 0 0 d_zero 0 false else
  mkReplaceRequest (str_of m 11 32) (str_of m 41 32) (str_of m 55 16) (char_of m 54) (get_int m 38) (get_double m 44) (char_of m 40) true.
Record CancelReject := mkCancelReject { cj_cl_ord_id : cstr; cj_orig_cl_ord_id : cstr; cj_order_id : cstr; cj_ord_status : Z; cj_response_to : Z; cj_reason : Z; cj_text : cstr; cj_valid : bool }.
Definition parse_cancel_reject (m : FIXMessage) : CancelReject :=
  if negb (starts m 57) then mkCancelReject [] [] [] 0 0 (-1) [] false else
  mkCancelReject (str_of m 11 32) (str_of m 41 32) (str_of m 37 32) (char_of m 39) (char_of m 434) (int_or m 102 (-1)) (str_of m 58 64) true.
Record BusinessReject := mkBusinessReject { bj_ref_seq : Z; bj_ref_id : cstr; bj_ref_msg_type : cstr; bj_reason : Z; bj_text : cstr; bj_valid : bool }.
Definition parse_business_reject (m : FIXMessage) : BusinessReject :=
  if negb (starts m 106) then mkBusinessReject 0 [] [] (-1) [] false else
  mkBusinessReject (uint_of m 45) (str_of m 379 32) (str_of m 372 8) (int_or m 380 (-1)) (str_of m 58 64) true.
Definition is_unknown_security (r : BusinessReject) : bool := bj_reason r =? 2.
Record StatusRequest := mkStatusRequest { sq_cl_ord_id : cstr; sq_symbol : cstr; sq_side : Z; sq_valid : bool }.
Definition parse_order_status_request (m : FIXMessage) : StatusRequest :=
  if negb (starts m 72) then mkStatusRequest [] [] 0 false else
  mkStatusRequest (str_of m 11 32) (str_of m 55 16) (char_of m 54) true.
Record MassCancel := mkMassCancel { mc_cl_ord_id : cstr; mc_request_type : Z; mc_symbol : cstr; mc_valid : bool }.
Definition parse_mass_cancel (m : FIXMessage) : MassCancel :=
  if negb (starts m 113) then mkMassCancel [] 0 [] false else
  mkMassCancel (str_of m 11 32) (char_of m 530) (str_of m 55 16) true.
Record MassCancelReport := mkMassCancelReport { mr_cl_ord_id : cstr; mr_response : Z; mr_affected : Z; mr_valid : bool }.
Definition parse_mass_cancel_report (m : FIXMessage) : MassCancelReport :=
  if negb (type_is m (lit "r")) then mkMassCancelReport [] 0 (-1) false else
  mkMassCancelReport (str_of m 11 32) (char_of m 531) (int_or m 533 (-1)) true.
Record SessionStatusRequest := mkSessionStatusRequest { ssr_req_id : cstr; ssr_session_id : cstr; ssr_sub_type : Z; ssr_valid : bool }.
Definition parse_trading_session_status_request (m : FIXMessage) : SessionStatusRequest :=
  if negb (starts m 103) then mkSessionStatusRequest [] [] 0 false else
  mkSessionStatusRequest (str_of m 335 24) (str_of m 336 24) (char_of m 263) true.
Record SessionStatus := mkSessionStatus { ss_session_id : cstr; ss_status : Z; ss_valid : bool }.
Definition parse_trading_session_status (m : FIXMessage) : SessionStatus :=
  if negb (starts m 104) then mkSessionStatus [] (-1) false else
  mkSessionStatus (str_of m 336 24) (int_or m 340 (-1)) true.
Definition is_open (r : SessionStatus) : bool := ss_status r =? 2.
Definition is_halted (r : SessionStatus) : bool := ss_status r =? 1.
Record QuoteCancelMsg := mkQuoteCancelMsg { qc_quote_id : cstr; qc_cancel_type : Z; qc_symbol : cstr; qc_valid : bool }.
Definition parse_quote_cancel (m : FIXMessage) : QuoteCancelMsg :=
  if negb (starts m 90) then mkQuoteCancelMsg [] 0 [] false else
  mkQuoteCancelMsg (str_of m 117 32) (char_of m 298) (str_of m 55 16) true.
Record QuoteReq := mkQuoteReq { qr_quote_req_id : cstr; qr_symbol : cstr; qr_valid : bool }.
Definition parse_quote_request (m : FIXMessage) : QuoteReq :=
  if negb (starts m 82) then mkQuoteReq [] [] false else
  mkQuoteReq (str_of m 131 32) (str_of m 55 16) true.
Record Quote := mkQuote { qt_quote_id : cstr; qt_symbol : cstr; qt_bid_px : double; qt_offer_px : double; qt_bid_size : Z; qt_offer_size : Z; qt_valid : bool }.
Definition parse_quote (m : FIXMessage) : Quote :=
  if negb (starts m 83) then mkQuote [] [] d_zero d_zero 0 0 false else
  mkQuote (str_of m 117 32) (str_of m 55 16) (get_double m 132) (get_double m 133) (get_int m 134) (get_int m 135) true.
Record MDReject := mkMDReject { mj_md_req_id : cstr; mj_reason : Z; mj_valid : bool }.
Definition parse_md_request_reject (m : FIXMessage) : MDReject :=
  if negb (starts m 89) then mkMDReject [] 0 false else
  mkMDReject (str_of m 262 32) (char_of m 281) true.
Record MDRequest := mkMDRequest { mdr_md_req_id : cstr; mdr_symbol : cstr; mdr_sub_type : Z; mdr_depth : Z; mdr_valid : bool }.
Definition parse_market_data_request (m : FIXMessage) : MDRequest :=
  if negb (starts m 86) then mkMDRequest [] [] 0 (-1) false else
  mkMDRequest (str_of m 262 32) (str_of m 55 16) (char_of m 263) (int_or m 264 (-1)) true.

(** ** What a builder sends is what the peer reads *)

(** Fields a session may send over SOH, besides its header's. *)
Record send_ok (s : FIXSession) (mtype : cstr) (extra : list FIXField) : Prop := {
  so_sender : text_ok SOH (sender_comp_ s); so_target : text_ok SOH (target_comp_ s); so_type : text_ok SOH mtype;
  so_extra : Forall (field_ok SOH) extra; so_plain : Forall plain extra; so_len : (length extra <= 25)%nat }.

Lemma before_absent c l : Forall (fun x => x <> c) l -> before c l = l.
Proof. induction 1 as [|x l Hx Hl IH]; [done|]. simpl. destruct (Z.eqb_spec x c); [done|]. by rewrite IH. Qed.
Lemma text_nonzero l : text_ok SOH l -> Forall (fun x => x <> 0) l.
Proof. intros H. eapply Forall_impl; [exact H|]. simpl. lia. Qed.
Lemma body_nonzero l : Forall (field_ok SOH) l -> Forall (fun x => x <> 0) (fix_body SOH l).
Proof.
  induction 1 as [|f l [Ht Hv] Hl IH]; [constructor|].
  change (fix_body SOH (f :: l)) with ((dec (tag f) ++ [EQUALS] ++ value f ++ [SOH]) ++ fix_body SOH l).
  rewrite !Forall_app. split_and!; [apply nums_not; [done|apply dec_nums]|by constructor|by apply text_nonzero|by constructor|done].
Qed.
Lemma header_ok s mtype extra :
  send_ok s mtype extra ->
  Forall (field_ok SOH) (header_fields s mtype ++ extra) /\ Forall plain (header_fields s mtype ++ extra).
Proof.
  intros [H1 H2 H3 H5 H6 _]. rewrite !Forall_app. split; (split; [|done]); repeat constructor; simpl; try done.
  apply text_ok_nums; [by left|apply dec_nums].
Qed.

Lemma emit_parse s cap size mtype extra :
  send_ok s mtype extra -> size <= 900 ->
  let '(out, s') := emit s cap size SOH mtype extra in
  s' = s <| next_out_seq_ ::= fun n => u32 (n + 1) |> /\
  (out <> [] -> is_valid (parse out) = true /\
     forall t, t ∉ [8; 9; 10] -> get_field (parse out) t = find_in t (cut <$> header_fields s mtype ++ extra)).
Proof.
  intros Hs Hz. destruct (header_ok _ _ _ Hs) as [Hf Hp]. unfold emit. cbn [next_outbound_seq snd].
  set (l := header_fields s mtype ++ extra) in *.
  destruct (Z.leb_spec size (alen (fix_body SOH l))) as [|Hlt]; [done|]. split; [done|].
  rewrite before_absent by by apply body_nonzero. intros Hne.
  assert (length l <= 29)%nat as Hl by (unfold l; rewrite length_app; pose proof (so_len _ _ _ Hs); simpl; lia).
  assert (length (build_message cap (fix_body SOH l) FIX42 SOH) < BUF_SIZE)%nat as Hlen.
  { rewrite (build_is_framed _ _ _ _ Hne). pose proof (built_size FIX42 SOH l) as B. unfold alen, BUF_SIZE in *.
    change (length FIX42) with 7%nat in B. lia. }
  assert (text_ok SOH FIX42) as Hb by (apply (bool_decide_unpack _); by vm_compute).
  destruct (parse_built_get FIX42 SOH cap l (or_introl eq_refl) Hb Hf Hp Hl Hne Hlen) as [Hg Hv].
  split; [|done]. apply Hv. exists (fd 35 mtype). split; [by left|done].
Qed.

(** ** Sequence numbers over a lossy link *)

Record out_msg := mkOut { o_size : Z; o_type : cstr; o_extra : list FIXField }.
(** The sender builds each message in turn; [true] ones reach the peer if they
    were built. *)
Fixpoint link (cap now : Z) (a b : FIXSession) (l : list (bool * out_msg)) : list (option GapDetected) * FIXSession * FIXSession :=
  match l with
  | [] => ([], a, b)
  | (arrives, m) :: l' =>
      let '(bytes, a) := emit a cap (o_size m) SOH (o_type m) (o_extra m) in
      if (arrives : bool) && negb (bool_decide (bytes = [])) then
        let '(g, b) := process_inbound b (parse bytes) now in
        let '(r, a, b) := link cap now a b l' in (Some g :: r, a, b)
      else let '(r, a, b) := link cap now a b l' in (None :: r, a, b)
  end.
(** What the peer should report when message [n] is the next and [exp] the one
    it expects: a gap from the first number lost. *)
Fixpoint reports (n exp : Z) (l : list bool) : list (option GapDetected) :=
  match l with
  | [] => []
  | true :: l' => Some (if n =? exp then mkGapDetected 0 n false else mkGapDetected exp n true) :: reports (n + 1) (n + 1) l'
  | false :: l' => None :: reports (n + 1) exp l'
  end.
Definition out_ok (a : FIXSession) (m : out_msg) : Prop :=
  send_ok a (o_type m) (o_extra m) /\ o_size m <= 900 /\ char0 (o_type m) <> 52.

Lemma observe_expected s n now : 0 <= n < 2 ^ 32 - 1 -> expected_in_seq_ s <= n ->
  observe_inbound s n now =
  ((if n =? expected_in_seq_ s then mkGapDetected 0 n false else mkGapDetected (expected_in_seq_ s) n true),
   (observe_inbound s n now).2) /\ expected_in_seq_ (observe_inbound s n now).2 = n + 1.
Proof.
  intros Hn Hle. unfold observe_inbound. simpl. destruct (Z.eqb_spec n (expected_in_seq_ s)) as [E|E].
  - simpl. split; [done|]. rewrite <- E. apply u32_small. lia.
  - destruct (Z.ltb_spec (expected_in_seq_ s) n); [|lia]. simpl. split; [done|]. apply u32_small. lia.
Qed.
Lemma process_seq b m n v now :
  char0 (get_msg_type m) <> 52 -> get_field m 34 = Some v -> uatoi v = n ->
  (process_inbound b m now).1 = (observe_inbound b n now).1 /\
  expected_in_seq_ (process_inbound b m now).2 = expected_in_seq_ (observe_inbound b n now).2.
Proof.
  intros Ht Hv Hn. unfold process_inbound. destruct (Z.eqb_spec (char0 (get_msg_type m)) 52); [done|].
  rewrite Hv, Hn. destruct (observe_inbound b n now) as [g s]. split; [done|]. cbn [snd].
  destruct (_ =? 65); [done|]. destruct (_ =? 53); [done|]. destruct (_ =? 49); [|done]. by destruct (get_field m 112).
Qed.
Lemma uatoi_dec n : 0 <= n < 2 ^ 32 -> uatoi (take 31 (dec n)) = n.
Proof.
  intros H. rewrite take_ge by (pose proof (length_dec n 9); change (10 ^ Z.of_nat 10) with 10000000000 in *; lia).
  unfold uatoi. rewrite <- (app_nil_r (dec n)), atoi_dec_wrap by (done || (unfold INT64_MAX; lia)).
  unfold wrapu, wraps. rewrite <- (Z.mod_small n (2 ^ 32)) at 2 by done.
  change (2 ^ (32 - 1)) with 2147483648. rewrite Zminus_mod_idemp_l. f_equal. lia.
Qed.
Lemma char0_cut s : char0 (take 31 s) = char0 s.
Proof. by destruct s. Qed.


(** Only the first character of the type is looked at: a trade capture report
    (35=AE) is taken for a logon. *)
Example trade_report_logs_in :
  let out := (build_trade_capture_report new_session 500 SOH (lit "T1") (lit "AAPL") BUY 100 (dbl_of_Z 10) (lit "20260101")).1 in
  let s := mark_logout new_session 0 in
  type_is (parse out) (lit "AE") = true /\ is_logged_in s = false /\ is_logged_in (process_inbound s (parse out) 1).2 = true.
Proof. repeat split; by vm_compute. Qed.
(** A message that does not fit still takes its number. *)
Example failed_build_takes_a_number :
  let '(out, s) := build_test_request new_session 500 SOH (Some (replicate 200 65)) in out = [] /\ next_out_seq_ s = 2.
Proof. split; by vm_compute. Qed.
