(* ===== verification/FixOrders.v ===== *)
(** * FixOrders: the orders a FIX client has out

    [fix-protocol/fix_order_state.hpp]: what execution reports and cancel
    rejects say about the orders sent, by client order id.  The map is a
    [gmap]; the sums over it run in the order of [HashOrder], which only shows
    in how 32-bit sums would overflow. *)
From S2P Require Import Prelude Double Common Text Fix FixSession.

Inductive OrdState := NEW | PARTIAL | FILLED | CANCELED | REJECTED | UNKNOWN_STATE.
#[export] Instance ord_state_eq_dec : EqDecision OrdState.
Proof. solve_decision. Defined.
Definition ord_state_str (s : OrdState) : string :=
  match s with
  | NEW => "NEW" | PARTIAL => "PARTIAL" | FILLED => "FILLED" | CANCELED => "CANCELED" | REJECTED => "REJECTED"
  | UNKNOWN_STATE => "UNKNOWN"
  end.
Record OrdRecord := mkRecord { r_state : OrdState; ordered : Z; cum_qty : Z; leaves_qty : Z; pending_cancel : bool }.
#[export] Instance eta_ord_record : Settable OrdRecord := fun r =>
  mkRecord (r_state r) (ordered r) (cum_qty r) (leaves_qty r) (pending_cancel r).
Record FIXOrderTracker := mkFixTracker {
  orders_ : gmap cstr OrdRecord; fills_ : Z; cancels_ : Z; rejects_ : Z; cancel_rejects_ : Z; replaces_ : Z;
  fill_notional_ : double; fill_shares_ : Z }.
#[export] Instance eta_fix_tracker : Settable FIXOrderTracker := fun t =>
  mkFixTracker (orders_ t) (fills_ t) (cancels_ t) (rejects_ t) (cancel_rejects_ t) (replaces_ t) (fill_notional_ t) (fill_shares_ t).
Definition reset_session : FIXOrderTracker := mkFixTracker ∅ 0 0 0 0 0 d_zero 0.

Definition map_status (s : Z) : OrdState :=
  if s =? 48 then NEW else if s =? 49 then PARTIAL else if s =? 50 then FILLED
  else if s =? 52 then CANCELED else if s =? 56 then REJECTED else UNKNOWN_STATE.
Definition is_working (s : OrdState) : bool := match s with NEW | PARTIAL => true | _ => false end.
Definition on_new (t : FIXOrderTracker) (cl_ord_id : cstr) (qty : Z) : FIXOrderTracker :=
  t <| orders_ ::= <[cl_ord_id := mkRecord NEW qty 0 qty false]> |>.
(** The quantities a report carries. *)
Definition take_qtys (m : FIXMessage) (r : OrdRecord) : OrdRecord :=
  let r := match get_field m 14 with Some cum => r <| cum_qty := atoi cum |> | None => r end in
  match get_field m 151 with Some lv => r <| leaves_qty := atoi lv |> | None => r end.
Definition atoll (s : cstr) : Z :=
  let '(neg, s) := read_sign (skip_spaces s) in
  let n := read_int 0 s in clamp_long (if neg then - n else n).
Definition take_fill (m : FIXMessage) (t : FIXOrderTracker) : FIXOrderTracker :=
  match get_field m 32, get_field m 31 with
  | Some lq, Some lp =>
      let last_qty := atoll lq in
      let last_px := atof lp in
      if (0 <? last_qty) && dgt last_px d_zero
      then t <| fill_notional_ ::= fun x => dadd x (dmul (dbl_of_Z last_qty) last_px) |>
             <| fill_shares_ ::= fun x => i64 (x + last_qty) |>
      else t
  | _, _ => t
  end.
Definition on_exec_report (t : FIXOrderTracker) (m : FIXMessage) : OrdState * FIXOrderTracker :=
  match get_field m 11 with
  | None => (UNKNOWN_STATE, t)
  | Some id =>
      if from_option (fun st => char0 st =? 53) false (get_field m 39) then
        match get_field m 41 with
        | None => (UNKNOWN_STATE, t)
        | Some orig =>
            match orders_ t !! orig with
            | None => (UNKNOWN_STATE, t)
            | Some moved =>
                let moved := take_qtys m moved <| pending_cancel := false |> in
                let moved := moved <| r_state := if 0 <? cum_qty moved then PARTIAL else NEW |> in
                (r_state moved, t <| orders_ ::= fun o => <[id := moved]> (delete orig o) |> <| replaces_ ::= incr64 |>)
            end
        end
      else
        match orders_ t !! id with
        | None => (UNKNOWN_STATE, t)
        | Some r =>
            let r := take_qtys m r in
            let t := take_fill m t in
            let st := match get_field m 39 with Some s => map_status (char0 s) | None => UNKNOWN_STATE end in
            let r := r <| r_state := st |> in
            let r := match st with CANCELED => r <| pending_cancel := false |> | _ => r end in
            let t := match st with
                     | FILLED => t <| fills_ ::= incr64 |>
                     | CANCELED => t <| cancels_ ::= incr64 |>
                     | REJECTED => t <| rejects_ ::= incr64 |>
                     | _ => t
                     end in
            (st, t <| orders_ ::= <[id := r]> |>)
        end
  end.
Definition on_cancel_sent (t : FIXOrderTracker) (orig_cl_ord_id : cstr) : FIXOrderTracker :=
  match orders_ t !! orig_cl_ord_id with
  | Some r => if is_working (r_state r) then t <| orders_ ::= <[orig_cl_ord_id := r <| pending_cancel := true |>]> |> else t
  | None => t
  end.
Definition is_pending_cancel (t : FIXOrderTracker) (cl_ord_id : cstr) : bool :=
  from_option pending_cancel false (orders_ t !! cl_ord_id).
Definition on_cancel_reject (t : FIXOrderTracker) (m : FIXMessage) : OrdState * FIXOrderTracker :=
  match get_field m 41 with
  | None => (UNKNOWN_STATE, t)
  | Some orig =>
      match orders_ t !! orig with
      | None => (UNKNOWN_STATE, t)
      | Some r => (r_state r, t <| orders_ ::= <[orig := r <| pending_cancel := false |>]> |> <| cancel_rejects_ ::= incr64 |>)
      end
  end.

(** ** Queries *)

Definition ord_state (t : FIXOrderTracker) (id : cstr) : OrdState := from_option r_state UNKNOWN_STATE (orders_ t !! id).
Definition ord_cum_qty (t : FIXOrderTracker) (id : cstr) : Z := from_option cum_qty 0 (orders_ t !! id).
Definition ord_leaves_qty (t : FIXOrderTracker) (id : cstr) : Z := from_option leaves_qty 0 (orders_ t !! id).
Definition order_count (t : FIXOrderTracker) : Z := Z.of_nat (size (orders_ t)).
Section queries.
Context `{HashOrder}.
Definition records (t : FIXOrderTracker) : list OrdRecord := values (orders_ t).
Definition working_orders (t : FIXOrderTracker) : Z := count_if (fun r => is_working (r_state r)) (records t).
Definition sum32 (f : OrdRecord -> Z) (t : FIXOrderTracker) : Z := foldl (fun s r => i32 (s + f r)) 0 (records t).
Definition working_qty (t : FIXOrderTracker) : Z := sum32 (fun r => if is_working (r_state r) then leaves_qty r else 0) t.
Definition pending_cancel_qty (t : FIXOrderTracker) : Z := sum32 (fun r => if pending_cancel r then leaves_qty r else 0) t.
Definition pending_cancel_fraction (t : FIXOrderTracker) : double :=
  let w := working_qty t in if 0 <? w then ddiv (dbl_of_Z (pending_cancel_qty t)) (dbl_of_Z w) else d_zero.
Definition total_filled_qty (t : FIXOrderTracker) : Z := sum32 cum_qty t.
Definition ord_fill_rate (t : FIXOrderTracker) : double :=
  let ord := sum64 ordered (records t) in
  if 0 <? ord then ddiv (dbl_of_Z (total_filled_qty t)) (dbl_of_Z ord) else d_zero.
End queries.
Definition ord_fill_vwap (t : FIXOrderTracker) : double :=
  if 0 <? fill_shares_ t then ddiv (fill_notional_ t) (dbl_of_Z (fill_shares_ t)) else d_zero.
Definition per_order (t : FIXOrderTracker) (n : Z) : double :=
  if order_count t =? 0 then d_zero else ddiv (dbl_of_Z n) (dbl_of_Z (order_count t)).
Definition ord_order_fill_rate (t : FIXOrderTracker) : double := per_order t (fills_ t).
Definition ord_cancel_rate (t : FIXOrderTracker) : double := per_order t (cancels_ t).
Definition ord_reject_rate (t : FIXOrderTracker) : double := per_order t (rejects_ t).

(** After a replace the chain keeps the quantity first ordered, so a larger
    replacement that fills completely counts as twice filled. *)
Example fill_rate_above_one :
  let t := on_new reset_session (lit "A") 100 in
  let replaced := parse (lit "35=8|11=B|41=A|39=5|14=0|151=200|") in
  let filled := parse (lit "35=8|11=B|39=2|14=200|151=0|") in
  let t := (on_exec_report (on_exec_report t replaced).2 filled).2 in
  omap (fun i => r ← orders_ t !! i; Some (ordered r, cum_qty r)) [lit "B"] = [(100, 200)].
Proof. by vm_compute. Qed.

(** ** From the exchange's report to the client's record *)

Lemma take_fill_orders m t : orders_ (take_fill m t) = orders_ t.
Proof.
  unfold take_fill. destruct (get_field m 32), (get_field m 31); try done. by destruct (_ && _).
Qed.

