(* ===== verification/Router.v ===== *)
(** * Router: the smart order router

    [router/smart_router.hpp]: a table of at most sixteen venues with their
    quotes, fees, latencies and health; [route_order], which sends an order to
    the venue with the best all-in price or the lowest latency, or splits it
    over venues from the best price down; the consolidated quote and the
    statistics.  A pointer to a venue is its index in the table. *)
From stdpp Require Import sorting.
From S2P Require Import Prelude Double Common.

Definition MAX_VENUES : Z := 16.
Inductive RoutingStrategy := BEST_PRICE | LOWEST_LATENCY | SPLIT.
Inductive RouteReject := RR_NONE | RR_NO_VENUES | RR_NO_LIQUIDITY.
#[export] Instance RoutingStrategy_eq : EqDecision RoutingStrategy.
Proof. solve_decision. Defined.
#[export] Instance RouteReject_eq : EqDecision RouteReject.
Proof. solve_decision. Defined.
Definition route_reject_str (r : RouteReject) : string :=
  match r with RR_NONE => "NONE" | RR_NO_VENUES => "NO_VENUES" | RR_NO_LIQUIDITY => "NO_LIQUIDITY" end.

Record Venue := mkVenue {
  name : cstr; latency_ns : Z; latency_p99_ns : Z; fee_per_share : double;
  best_bid : double; best_ask : double; bid_size : Z; ask_size : Z; is_active : bool;
  ewma_latency_ns : double; latency_samples : Z; consecutive_failures : Z;
  routed_shares : Z; routes_count : Z; last_quote_ns : Z }.
#[export] Instance eta_venue : Settable Venue := fun v =>
  mkVenue (name v) (latency_ns v) (latency_p99_ns v) (fee_per_share v) (best_bid v) (best_ask v) (bid_size v)
    (ask_size v) (is_active v) (ewma_latency_ns v) (latency_samples v) (consecutive_failures v)
    (routed_shares v) (routes_count v) (last_quote_ns v).
Definition new_venue (n : cstr) (lat : Z) (fee : double) : Venue :=
  mkVenue (take 15 n) lat 0 fee d_zero d_zero 0 0 true d_zero 0 0 0 0 0.
Definition selection_latency_ns (v : Venue) : Z :=
  if 0 <? latency_samples v then dbl_to_i64 (ewma_latency_ns v)
  else if 0 <? latency_p99_ns v then latency_p99_ns v else latency_ns v.

Record RouteDecision := mkDecision {
  rd_venue : cstr; rd_price : double; rd_effective_price : double; rd_total_fee : double; rd_quantity : Z;
  rd_unfilled_qty : Z; rd_num_venues : Z; rd_latency_ns : Z; rd_valid : bool; rd_reject_reason : RouteReject }.
Definition rejected_decision (why : RouteReject) : RouteDecision :=
  mkDecision [] d_zero d_zero d_zero 0 0 0 0 false why.

Record SmartOrderRouter := mkRouter {
  venues_ : list Venue; default_strategy_ : RoutingStrategy; split_threshold_ : Z; max_failures_ : Z;
  total_routes_ : Z; total_rejected_ : Z; total_latency_ns_ : Z; max_routing_latency_ns_ : Z;
  total_unfilled_shares_ : Z; total_routed_notional_ : double; total_fees_paid_ : double }.
#[export] Instance eta_router : Settable SmartOrderRouter := fun r =>
  mkRouter (venues_ r) (default_strategy_ r) (split_threshold_ r) (max_failures_ r) (total_routes_ r)
    (total_rejected_ r) (total_latency_ns_ r) (max_routing_latency_ns_ r) (total_unfilled_shares_ r)
    (total_routed_notional_ r) (total_fees_paid_ r).
Definition new_router (strat : RoutingStrategy) (split_thresh : Z) : SmartOrderRouter :=
  mkRouter [] strat split_thresh 3 0 0 0 0 0 d_zero d_zero.

(** ** The table of venues *)

Definition effective_price (v : Venue) (is_buy : bool) : double :=
  if is_buy then dadd (best_ask v) (fee_per_share v) else dsub (best_bid v) (fee_per_share v).
Definition quote (v : Venue) (is_buy : bool) : double := if is_buy then best_ask v else best_bid v.
Definition shown (v : Venue) (is_buy : bool) : Z := if is_buy then ask_size v else bid_size v.
Definition has_liq (v : Venue) (is_buy : bool) : bool := dlt d_zero (quote v is_buy) && (0 <? shown v is_buy).
(** Better for the order: cheaper to buy, dearer to sell. *)
Definition better (is_buy : bool) (a b : double) : bool := if is_buy then dlt a b else dgt a b.

Definition venue_count (r : SmartOrderRouter) : Z := alen (venues_ r).
Definition add_venue (r : SmartOrderRouter) (v : Venue) : SmartOrderRouter :=
  if venue_count r <? MAX_VENUES then r <| venues_ ::= fun vs => vs ++ [v] |> else r.
(** The first venue of a name, with its index. *)
Definition named (r : SmartOrderRouter) (venue_name : cstr) : option (nat * Venue) :=
  list_find (fun v => name v = venue_name) (venues_ r).
Definition with_venue (r : SmartOrderRouter) (venue_name : cstr) (f : Venue -> Venue) : SmartOrderRouter :=
  match named r venue_name with Some (i, _) => r <| venues_ ::= alter f i |> | None => r end.
Definition remove_venue (r : SmartOrderRouter) (venue_name : cstr) : bool * SmartOrderRouter :=
  match named r venue_name with
  | Some (i, _) => (true, r <| venues_ ::= delete i |>)
  | None => (false, r)
  end.
Definition record_latency (r : SmartOrderRouter) (venue_name : cstr) (observed_ns : Z) : SmartOrderRouter :=
  if observed_ns <=? 0 then r else
  let alpha := dratio 2 10 in
  with_venue r venue_name (fun v =>
    v <| ewma_latency_ns := if latency_samples v =? 0 then dbl_of_Z observed_ns
           else dadd (dmul alpha (dbl_of_Z observed_ns)) (dmul (dsub d_one alpha) (ewma_latency_ns v)) |>
      <| latency_samples ::= fun n => u32 (n + 1) |> <| consecutive_failures := 0 |> <| is_active := true |>).
Definition set_failure_threshold (r : SmartOrderRouter) (n : Z) : SmartOrderRouter :=
  if 0 <? n then r <| max_failures_ := n |> else r.
Definition record_reject (r : SmartOrderRouter) (venue_name : cstr) : SmartOrderRouter :=
  with_venue r venue_name (fun v =>
    let v := v <| consecutive_failures ::= fun n => u32 (n + 1) |> in
    if max_failures_ r <=? consecutive_failures v then v <| is_active := false |> else v).
Definition record_success (r : SmartOrderRouter) (venue_name : cstr) : SmartOrderRouter :=
  with_venue r venue_name (fun v => v <| consecutive_failures := 0 |> <| is_active := true |>).
Definition venue_active (r : SmartOrderRouter) (venue_name : cstr) : bool :=
  match named r venue_name with Some (_, v) => is_active v | None => false end.
Definition set_venue_active (r : SmartOrderRouter) (venue_name : cstr) (active : bool) : bool * SmartOrderRouter :=
  (bool_decide (is_Some (named r venue_name)),
   with_venue r venue_name (fun v =>
     let v := v <| is_active := active |> in if active then v <| consecutive_failures := 0 |> else v)).
Definition venue_ewma_latency (r : SmartOrderRouter) (venue_name : cstr) : double :=
  match named r venue_name with Some (_, v) => ewma_latency_ns v | None => d_zero end.
Definition venue_failure_streak (r : SmartOrderRouter) (venue_name : cstr) : Z :=
  match named r venue_name with Some (_, v) => i32 (consecutive_failures v) | None => -1 end.
(** [now] is the clock, read when the caller gave no time. *)
Definition update_quote (r : SmartOrderRouter) (venue_name : cstr) (bid ask : double) (bsize asize quote_ts_ns now : Z) : SmartOrderRouter :=
  with_venue r venue_name (fun v =>
    v <| best_bid := bid |> <| best_ask := ask |> <| bid_size := bsize |> <| ask_size := asize |>
      <| last_quote_ns := if negb (quote_ts_ns =? 0) then quote_ts_ns else now |>).
Definition set_venue_fee (r : SmartOrderRouter) (venue_name : cstr) (fee : double) : bool * SmartOrderRouter :=
  (bool_decide (is_Some (named r venue_name)), with_venue r venue_name (fun v => v <| fee_per_share := fee |>)).

(** ** Routing *)

Definition candidate (is_buy : bool) (v : Venue) : bool := is_active v && has_liq v is_buy.
Definition venue_at (vs : list Venue) (i : nat) : Venue := default (new_venue [] 0 d_zero) (vs !! i).
Definition candidates (is_buy : bool) (vs : list Venue) : list nat :=
  filter (fun i => candidate is_buy (venue_at vs i)) (seq 0 (length vs)).

(** The scan of candidates that keeps a strictly better one. *)
Definition pick {A} (beats : A -> A -> bool) (best : A) (rest : list A) : A :=
  foldl (fun best c => if beats c best then c else best) best rest.
Definition beats_latency (vs : list Venue) (c b : nat) : bool :=
  selection_latency_ns (venue_at vs c) <? selection_latency_ns (venue_at vs b).
Definition beats_price (vs : list Venue) (is_buy : bool) (c b : nat) : bool :=
  better is_buy (effective_price (venue_at vs c) is_buy) (effective_price (venue_at vs b) is_buy).

(** The exchange sort of [split_order]: one turn of the outer loop leaves in
    its place the best of the candidates from there on, and in the place of
    each one that it displaced the previous best. *)
Fixpoint exchange_pass {A} (beats : A -> A -> bool) (x : A) (rest : list A) : A * list A :=
  match rest with
  | [] => (x, [])
  | y :: rest =>
      if beats y x then let '(h, t) := exchange_pass beats y rest in (h, x :: t)
      else let '(h, t) := exchange_pass beats x rest in (h, y :: t)
  end.
Fixpoint exchange_sort {A} (beats : A -> A -> bool) (n : nat) (l : list A) : list A :=
  match n, l with
  | S n, x :: rest => let '(h, t) := exchange_pass beats x rest in h :: exchange_sort beats n t
  | _, _ => l
  end.

Record SplitState := mkSplit {
  remaining : Z; filled : Z; venues_used : Z; price_sum : double; fee_sum : double; split_venues : list Venue }.
#[export] Instance eta_split : Settable SplitState := fun s =>
  mkSplit (remaining s) (filled s) (venues_used s) (price_sum s) (fee_sum s) (split_venues s).
Definition routed (n : Z) (v : Venue) : Venue :=
  v <| routed_shares ::= fun x => i64 (x + n) |> <| routes_count ::= fun x => u64 (x + 1) |>.
Definition split_turn (is_buy : bool) (s : SplitState) (c : nat) : SplitState :=
  let v := venue_at (split_venues s) c in
  let alloc := Z.min (remaining s) (shown v is_buy) in
  if alloc <=? 0 then s else
  s <| price_sum ::= fun x => dadd x (dmul (quote v is_buy) (dbl_of_Z alloc)) |>
    <| fee_sum ::= fun x => dadd x (dmul (fee_per_share v) (dbl_of_Z alloc)) |>
    <| filled ::= fun x => i32 (x + alloc) |> <| remaining ::= fun x => i32 (x - alloc) |>
    <| split_venues ::= alter (routed alloc) c |> <| venues_used ::= fun x => i32 (x + 1) |>.
Fixpoint split_loop (is_buy : bool) (cs : list nat) (s : SplitState) : SplitState :=
  match cs with
  | c :: cs => if 0 <? remaining s then split_loop is_buy cs (split_turn is_buy s c) else s
  | [] => s
  end.

(** What every routed order adds to the totals. *)
Definition account (r : SmartOrderRouter) (d : RouteDecision) : SmartOrderRouter :=
  r <| total_routes_ ::= fun x => u64 (x + 1) |> <| total_latency_ns_ ::= fun x => u64 (x + rd_latency_ns d) |>
    <| max_routing_latency_ns_ ::= fun x => if x <? rd_latency_ns d then rd_latency_ns d else x |>
    <| total_unfilled_shares_ ::= fun x => i64 (x + rd_unfilled_qty d) |>
    <| total_routed_notional_ ::= fun x => dadd x (dmul (rd_price d) (dbl_of_Z (rd_quantity d))) |>
    <| total_fees_paid_ ::= fun x => dadd x (rd_total_fee d) |>.
Definition reject (r : SmartOrderRouter) (why : RouteReject) : RouteDecision * SmartOrderRouter :=
  (rejected_decision why, r <| total_rejected_ ::= fun x => u64 (x + 1) |>).

Definition split_order (r : SmartOrderRouter) (cs : list nat) (is_buy : bool) (quantity t0 t1 : Z)
    : RouteDecision * SmartOrderRouter :=
  let cs := exchange_sort (beats_price (venues_ r) is_buy) (length cs - 1) cs in
  let s := split_loop is_buy cs (mkSplit quantity 0 0 d_zero d_zero (venues_ r)) in
  if filled s =? 0 then reject r RR_NO_LIQUIDITY else
  let n := dbl_of_Z (filled s) in
  let d := mkDecision (take 15 (name (venue_at (venues_ r) (default 0%nat (head cs)))))
             (ddiv (price_sum s) n)
             (ddiv (if is_buy then dadd (price_sum s) (fee_sum s) else dsub (price_sum s) (fee_sum s)) n)
             (fee_sum s) (filled s) (i32 (quantity - filled s)) (venues_used s) (i64 (t1 - t0)) true RR_NONE in
  (d, account (r <| venues_ := split_venues s |>) d).

(** [t0] and [t1] are the two readings of the clock. *)
Definition route_order (r : SmartOrderRouter) (side : cstr) (quantity : Z) (strat : RoutingStrategy) (t0 t1 : Z)
    : RouteDecision * SmartOrderRouter :=
  let is_buy := default 0 (head side) =? 66 in
  match candidates is_buy (venues_ r) with
  | [] => reject r (if venue_count r =? 0 then RR_NO_VENUES else RR_NO_LIQUIDITY)
  | c :: cs =>
      if bool_decide (strat = SPLIT) && (split_threshold_ r <=? quantity)
      then split_order r (c :: cs) is_buy quantity t0 t1 else
      let best := if bool_decide (strat = LOWEST_LATENCY) then pick (beats_latency (venues_ r)) c cs
                  else pick (beats_price (venues_ r) is_buy) c cs in
      let v := venue_at (venues_ r) best in
      let filled := Z.min quantity (shown v is_buy) in
      let d := mkDecision (take 15 (name v)) (quote v is_buy) (effective_price v is_buy)
                 (dmul (fee_per_share v) (dbl_of_Z filled)) filled (i32 (quantity - filled)) 1
                 (i64 (t1 - t0)) true RR_NONE in
      (d, account (r <| venues_ ::= alter (routed filled) best |>) d)
  end.
Definition route_order_default (r : SmartOrderRouter) (side : cstr) (quantity t0 t1 : Z)
    : RouteDecision * SmartOrderRouter :=
  route_order r side quantity (default_strategy_ r) t0 t1.

(** ** The consolidated quote

    [scan] is the loop that keeps the venue whose key beats the best so far;
    the first venue that passes the test is always kept. *)

Definition scan {K} (ok : Venue -> bool) (key : Venue -> K) (beats : K -> K -> bool) (vs : list Venue) : option (K * Venue) :=
  foldl (fun best v =>
    if ok v then match best with
                 | Some (b, _) => if beats (key v) b then Some (key v, v) else best
                 | None => Some (key v, v)
                 end
    else best) None vs.
(** The same with a floor that the first venue must beat too. *)
Definition scan_above {K} (ok : Venue -> bool) (key : Venue -> K) (beats : K -> K -> bool) (floor : K) (vs : list Venue)
    : K * option Venue :=
  foldl (fun best v => if ok v && beats (key v) best.1 then (key v, Some v) else best) (floor, None) vs.
Definition scanned_name {K} (o : option (K * Venue)) : option cstr := (fun p => name p.2) <$> o.
Definition scanned_key {K} (d : K) (o : option (K * Venue)) : K := default d (fst <$> o).
Definition sized (is_buy : bool) (v : Venue) : bool := is_active v && (0 <? shown v is_buy).
Definition sum32 (ok : Venue -> bool) (f : Venue -> Z) (vs : list Venue) : Z :=
  foldl (fun t v => if ok v then i32 (t + f v) else t) 0 vs.
Definition sumd (ok : Venue -> bool) (f : Venue -> double) (vs : list Venue) : double :=
  foldl (fun t v => if ok v then dadd t (f v) else t) d_zero vs.
Definition deq (x y : double) : bool := SFeqb x y.

Definition fresh (max_age_ns at_ns : Z) (v : Venue) : bool :=
  is_active v && negb (last_quote_ns v =? 0) && (i64 (at_ns - last_quote_ns v) <=? max_age_ns).
Definition fresh_venue_count (r : SmartOrderRouter) (max_age_ns at_ns : Z) : Z :=
  count_if (fresh max_age_ns at_ns) (venues_ r).
Definition quote_age (at_ns : Z) (v : Venue) : Z :=
  let age := i64 (at_ns - last_quote_ns v) in if 0 <? age then age else 0.
Definition venue_quote_age_ns (r : SmartOrderRouter) (venue_name : cstr) (at_ns : Z) : Z :=
  match named r venue_name with
  | Some (_, v) => if last_quote_ns v =? 0 then -1 else quote_age at_ns v
  | None => -1
  end.
Definition quoted (v : Venue) : bool := is_active v && negb (last_quote_ns v =? 0).
Definition stalest (r : SmartOrderRouter) (at_ns : Z) : Z * option Venue :=
  scan_above quoted (quote_age at_ns) (fun a b => b <? a) (-1) (venues_ r).
Definition stalest_quote_age_ns (r : SmartOrderRouter) (at_ns : Z) : Z := (stalest r at_ns).1.
Definition stalest_quote_venue (r : SmartOrderRouter) (at_ns : Z) : option cstr := name <$> (stalest r at_ns).2.
Definition least_healthy_venue (r : SmartOrderRouter) : option (cstr * Z) :=
  match scan_above is_active consecutive_failures (fun a b => b <? a) 0 (venues_ r) with
  | (worst, Some v) => Some (name v, i32 worst)
  | (_, None) => None
  end.

Definition nbbo_bid (r : SmartOrderRouter) : double * option Venue :=
  scan_above (sized false) best_bid dgt d_zero (venues_ r).
Definition nbbo_ask (r : SmartOrderRouter) : option (double * Venue) := scan (sized true) best_ask dlt (venues_ r).
Definition national_best_bid (r : SmartOrderRouter) : double := (nbbo_bid r).1.
Definition national_best_ask (r : SmartOrderRouter) : double := scanned_key d_zero (nbbo_ask r).
Definition nbbo_bid_venue (r : SmartOrderRouter) : option cstr := name <$> (nbbo_bid r).2.
Definition nbbo_ask_venue (r : SmartOrderRouter) : option cstr := scanned_name (nbbo_ask r).
Definition positive (x : double) : bool := dgt x d_zero.
Definition two_sided (r : SmartOrderRouter) : bool := positive (national_best_bid r) && positive (national_best_ask r).
Definition d_two : double := dbl_of_Z 2.
Definition d_10000 : double := dbl_of_Z 10000.
Definition nbbo_mid (r : SmartOrderRouter) : double :=
  if two_sided r then ddiv (dadd (national_best_bid r) (national_best_ask r)) d_two else d_zero.
Definition fresh_nbbo_mid (r : SmartOrderRouter) (max_age_ns at_ns : Z) : double :=
  let side is_buy := scan (fun v => fresh max_age_ns at_ns v && has_liq v is_buy) (fun v => quote v is_buy) (better is_buy) (venues_ r) in
  match side false, side true with
  | Some (bb, _), Some (ba, _) => ddiv (dadd bb ba) d_two
  | _, _ => d_zero
  end.
Definition nbbo_microprice (r : SmartOrderRouter) : double :=
  match nbbo_bid r, scan (fun v => is_active v && has_liq v true) best_ask dlt (venues_ r) with
  | (bid, Some b), Some (ask, a) =>
      if dle bid d_zero || dle ask d_zero then d_zero else
      let denom := bid_size b + ask_size a in
      if denom <=? 0 then d_zero else
      ddiv (dadd (dmul bid (dbl_of_Z (ask_size a))) (dmul ask (dbl_of_Z (bid_size b)))) (dbl_of_Z denom)
  | _, _ => d_zero
  end.
Definition nbbo_spread (r : SmartOrderRouter) : double :=
  if two_sided r then dsub (national_best_ask r) (national_best_bid r) else d_zero.
Definition bps (part whole : double) : double := dmul (ddiv part whole) d_10000.
Definition nbbo_spread_bps (r : SmartOrderRouter) : double :=
  let m := nbbo_mid r in if positive m then bps (nbbo_spread r) m else d_zero.
Definition at_best (is_buy : bool) (best : double) (v : Venue) : bool :=
  is_active v && (0 <? shown v is_buy) && deq (quote v is_buy) best.
Definition nbbo_imbalance (r : SmartOrderRouter) : double :=
  if dle (national_best_bid r) d_zero || dle (national_best_ask r) d_zero then d_zero else
  let bid_sz := sumf bid_size (filter (at_best false (national_best_bid r)) (venues_ r)) in
  let ask_sz := sumf ask_size (filter (at_best true (national_best_ask r)) (venues_ r)) in
  let denom := bid_sz + ask_sz in
  if 0 <? denom then ddiv (dbl_of_Z (bid_sz - ask_sz)) (dbl_of_Z denom) else d_zero.
Definition nbbo_locked (r : SmartOrderRouter) : bool := two_sided r && deq (national_best_bid r) (national_best_ask r).
Definition nbbo_crossed (r : SmartOrderRouter) : bool := two_sided r && dgt (national_best_bid r) (national_best_ask r).
Definition internally_crossed_count (r : SmartOrderRouter) : Z :=
  count_if (fun v => is_active v && positive (best_bid v) && positive (best_ask v) && dgt (best_bid v) (best_ask v)) (venues_ r).
Definition national_best (r : SmartOrderRouter) (is_buy : bool) : double :=
  if is_buy then national_best_ask r else national_best_bid r.
Definition venues_at_nbbo (r : SmartOrderRouter) (bid_side : bool) : Z :=
  let best := national_best r (negb bid_side) in
  if dle best d_zero then 0 else count_if (at_best (negb bid_side) best) (venues_ r).
Definition nbbo_depth (r : SmartOrderRouter) (is_buy : bool) : Z :=
  let best := national_best r is_buy in
  if dle best d_zero then 0 else sumf (fun v => shown v is_buy) (filter (at_best is_buy best) (venues_ r)).
Definition nbbo_depth_notional (r : SmartOrderRouter) (is_buy : bool) : double :=
  let best := national_best r is_buy in
  if dle best d_zero then d_zero else dmul (dbl_of_Z (nbbo_depth r is_buy)) best.

(** ** Liquidity and all-in prices *)

Definition available_liquidity (r : SmartOrderRouter) (is_buy : bool) : Z :=
  sum32 (candidate is_buy) (fun v => shown v is_buy) (venues_ r).
Definition touch_concentration (r : SmartOrderRouter) (is_buy : bool) : double :=
  let avail := available_liquidity r is_buy in
  if 0 <? avail then ddiv (dbl_of_Z (nbbo_depth r is_buy)) (dbl_of_Z avail) else d_zero.
Definition best_effective (r : SmartOrderRouter) (is_buy : bool) (beats : double -> double -> bool) : option (double * Venue) :=
  scan (candidate is_buy) (fun v => effective_price v is_buy) beats (venues_ r).
Definition best_effective_price (r : SmartOrderRouter) (is_buy : bool) : double :=
  scanned_key d_zero (best_effective r is_buy (better is_buy)).
Definition cheapest_venue (r : SmartOrderRouter) (is_buy : bool) : option cstr :=
  scanned_name (best_effective r is_buy (better is_buy)).
Definition most_expensive_venue (r : SmartOrderRouter) (is_buy : bool) : option cstr :=
  scanned_name (best_effective r is_buy (better (negb is_buy))).
Definition effective_spread_bps (r : SmartOrderRouter) : double :=
  let eff_ask := best_effective_price r true in
  let eff_bid := best_effective_price r false in
  if dle eff_ask d_zero || dle eff_bid d_zero then d_zero else
  let m := ddiv (dadd eff_ask eff_bid) d_two in
  if positive m then bps (dsub eff_ask eff_bid) m else d_zero.
Definition active_venue_count (r : SmartOrderRouter) : Z := count_if is_active (venues_ r).
Definition two_sided_venue_count (r : SmartOrderRouter) : Z :=
  count_if (fun v => candidate false v && candidate true v) (venues_ r).
Definition liquidity_venue_count (r : SmartOrderRouter) (is_buy : bool) : Z := count_if (candidate is_buy) (venues_ r).
Definition effective_price_dispersion (r : SmartOrderRouter) (is_buy : bool) : double :=
  match best_effective r is_buy dlt, best_effective r is_buy dgt with
  | Some (lo, _), Some (hi, _) => if 2 <=? count_if (candidate is_buy) (venues_ r) then dsub hi lo else d_zero
  | _, _ => d_zero
  end.
Definition within (is_buy : bool) (px limit : double) : bool := if is_buy then dle px limit else dge px limit.
Definition is_marketable (r : SmartOrderRouter) (is_buy : bool) (limit_price : double) : bool :=
  let best := best_effective_price r is_buy in
  if dle best d_zero then false else within is_buy best limit_price.
Definition liquidity_at_limit (r : SmartOrderRouter) (is_buy : bool) (limit_price : double) : Z :=
  sum32 (fun v => candidate is_buy v && within is_buy (effective_price v is_buy) limit_price)
    (fun v => shown v is_buy) (venues_ r).
Definition venue_effective_price (r : SmartOrderRouter) (venue_name : cstr) (is_buy : bool) : double :=
  match named r venue_name with
  | Some (_, v) => if candidate is_buy v then effective_price v is_buy else d_zero
  | None => d_zero
  end.
Definition rebate_venue_count (r : SmartOrderRouter) : Z :=
  count_if (fun v => is_active v && dlt (fee_per_share v) d_zero) (venues_ r).
Definition avg_venue_fee (r : SmartOrderRouter) : double :=
  let n := active_venue_count r in
  if 0 <? n then ddiv (sumd is_active fee_per_share (venues_ r)) (dbl_of_Z n) else d_zero.
Definition fee_venue (r : SmartOrderRouter) (beats : double -> double -> bool) : option (cstr * double) :=
  (fun p => (name p.2, p.1)) <$> scan is_active fee_per_share beats (venues_ r).
Definition cheapest_fee_venue (r : SmartOrderRouter) : option (cstr * double) := fee_venue r dlt.
Definition dearest_fee_venue (r : SmartOrderRouter) : option (cstr * double) := fee_venue r dgt.
Definition deepest_venue (r : SmartOrderRouter) (is_buy : bool) : option cstr :=
  name <$> (scan_above (candidate is_buy) (fun v => shown v is_buy) (fun a b => b <? a) 0 (venues_ r)).2.
Definition fastest_venue (r : SmartOrderRouter) : option cstr :=
  scanned_name (scan is_active selection_latency_ns Z.ltb (venues_ r)).
Definition slowest_venue (r : SmartOrderRouter) : option cstr :=
  scanned_name (scan is_active selection_latency_ns (fun a b => b <? a) (venues_ r)).
Definition avg_venue_latency_ns (r : SmartOrderRouter) : double :=
  let act := filter is_active (venues_ r) in
  if 0 <? alen act then ddiv (dbl_of_Z (sum64 selection_latency_ns act)) (dbl_of_Z (alen act)) else d_zero.
Definition venue_latency_spread_ns (r : SmartOrderRouter) : Z :=
  match scan is_active selection_latency_ns Z.ltb (venues_ r),
        scan is_active selection_latency_ns (fun a b => b <? a) (venues_ r) with
  | Some (lo, _), Some (hi, _) => i64 (hi - lo)
  | _, _ => 0
  end.
Definition fresh_available_liquidity (r : SmartOrderRouter) (is_buy : bool) (max_age_ns at_ns : Z) : Z :=
  sum32 (fun v => fresh max_age_ns at_ns v && has_liq v is_buy) (fun v => shown v is_buy) (venues_ r).
Definition available_liquidity_notional (r : SmartOrderRouter) (is_buy : bool) : double :=
  sumd (candidate is_buy) (fun v => dmul (quote v is_buy) (dbl_of_Z (shown v is_buy))) (venues_ r).
Definition fill_shortfall (r : SmartOrderRouter) (is_buy : bool) (shares : Z) : Z :=
  let avail := available_liquidity r is_buy in if avail <? shares then i32 (shares - avail) else 0.
Definition fillable_ratio (r : SmartOrderRouter) (is_buy : bool) (shares : Z) : double :=
  if shares <=? 0 then d_zero else
  let avail := available_liquidity r is_buy in
  ddiv (dbl_of_Z (if avail <? shares then avail else shares)) (dbl_of_Z shares).
Definition venue_liquidity_share (r : SmartOrderRouter) (venue_name : cstr) (is_buy : bool) : double :=
  let total := available_liquidity r is_buy in
  if total <=? 0 then d_zero else
  match named r venue_name with
  | Some (_, v) => if negb (is_active v) then d_zero else
      dmul (ddiv (dbl_of_Z (if has_liq v is_buy then shown v is_buy else 0)) (dbl_of_Z total)) (dbl_of_Z 100)
  | None => d_zero
  end.

(** ** Sweeping the book of venues

    Each pass takes the best venue not used yet; there are at most as many
    passes as venues.  [key] is the price a venue is ranked and charged by, and
    [ok] what the variants ask of a venue besides a price and a size. *)

Record Sweep := mkSweep { sw_used : list nat; sw_remaining : Z; sw_filled : Z; sw_notional : double; sw_touched : Z }.
Definition sweep_ok (ok : Venue -> bool) (is_buy : bool) (v : Venue) : bool :=
  is_active v && negb (dle (quote v is_buy) d_zero || (shown v is_buy <=? 0)) && ok v.
Definition sweep_best (ok : Venue -> bool) (key : Venue -> double) (is_buy : bool) (vs : list Venue) (used : list nat)
    : option (double * nat) :=
  foldl (fun best i =>
    let v := venue_at vs i in
    if bool_decide (i ∈ used) || negb (sweep_ok ok is_buy v) then best else
    match best with
    | Some (b, _) => if better is_buy (key v) b then Some (key v, i) else best
    | None => Some (key v, i)
    end) None (seq 0 (length vs)).
Fixpoint sweep_loop (ok : Venue -> bool) (key : Venue -> double) (is_buy : bool) (vs : list Venue) (passes : nat) (s : Sweep) : Sweep :=
  match passes with
  | O => s
  | S passes =>
      if sw_remaining s <=? 0 then s else
      match sweep_best ok key is_buy vs (sw_used s) with
      | None => s
      | Some (px, i) =>
          let sz := shown (venue_at vs i) is_buy in
          let take := if sw_remaining s <? sz then sw_remaining s else sz in
          sweep_loop ok key is_buy vs passes
            (mkSweep (i :: sw_used s) (i32 (sw_remaining s - take)) (i32 (sw_filled s + take))
               (dadd (sw_notional s) (dmul px (dbl_of_Z take))) (i32 (sw_touched s + 1)))
      end
  end.
Definition sweep (ok : Venue -> bool) (key : Venue -> double) (is_buy : bool) (vs : list Venue) (shares : Z) : Sweep :=
  sweep_loop ok key is_buy vs (length vs) (mkSweep [] shares 0 d_zero 0).
(** Shares filled and their average price, 0.0 when nothing is. *)
Definition sweep_result (s : Sweep) : Z * double :=
  (sw_filled s, if 0 <? sw_filled s then ddiv (sw_notional s) (dbl_of_Z (sw_filled s)) else d_zero).
Definition quote_key (is_buy : bool) (v : Venue) : double := quote v is_buy.
Definition eff_key (is_buy : bool) (v : Venue) : double := effective_price v is_buy.
Definition no_worse (is_buy : bool) (limit : double) (v : Venue) : bool :=
  negb (better (negb is_buy) (effective_price v is_buy) limit).

Definition sweep_to_fill (r : SmartOrderRouter) (is_buy : bool) (shares : Z) : Z * double :=
  if shares <=? 0 then (0, d_zero) else
  sweep_result (sweep (fun _ => true) (quote_key is_buy) is_buy (venues_ r) shares).
Definition sweep_slippage_bps (r : SmartOrderRouter) (is_buy : bool) (shares : Z) : double :=
  let '(filled, vwap) := sweep_to_fill r is_buy shares in
  let m := nbbo_mid r in
  if (filled <=? 0) || dle vwap d_zero || dle m d_zero then d_zero else
  bps (if is_buy then dsub vwap m else dsub m vwap) m.
Definition sweep_to_fill_fresh (r : SmartOrderRouter) (is_buy : bool) (shares max_age_ns at_ns : Z) : Z * double :=
  if shares <=? 0 then (0, d_zero) else
  sweep_result (sweep (fresh max_age_ns at_ns) (quote_key is_buy) is_buy (venues_ r) shares).
Definition sweep_to_fill_at_limit (r : SmartOrderRouter) (is_buy : bool) (shares : Z) (limit_price : double) : Z * double :=
  if shares <=? 0 then (0, d_zero) else
  sweep_result (sweep (no_worse is_buy limit_price) (eff_key is_buy) is_buy (venues_ r) shares).
Definition venues_to_fill_at_limit (r : SmartOrderRouter) (is_buy : bool) (shares : Z) (limit_price : double) : Z :=
  if shares <=? 0 then 0 else
  let s := sweep (no_worse is_buy limit_price) (eff_key is_buy) is_buy (venues_ r) shares in
  if 0 <? sw_remaining s then -1 else sw_touched s.
Definition venues_to_fill (r : SmartOrderRouter) (is_buy : bool) (shares : Z) : Z :=
  if shares <=? 0 then 0 else
  let s := sweep (fun _ => true) (quote_key is_buy) is_buy (venues_ r) shares in
  if sw_remaining s <=? 0 then sw_touched s else -1.

(** ** What was routed *)

Definition venue_routed_shares (r : SmartOrderRouter) (venue_name : cstr) : Z :=
  match named r venue_name with Some (_, v) => routed_shares v | None => 0 end.
Definition venue_route_count (r : SmartOrderRouter) (venue_name : cstr) : Z :=
  match named r venue_name with Some (_, v) => i64 (routes_count v) | None => -1 end.
Definition avg_route_size (r : SmartOrderRouter) (venue_name : cstr) : double :=
  match named r venue_name with
  | Some (_, v) => if 0 <? routes_count v then ddiv (dbl_of_Z (routed_shares v)) (dbl_of_Z (routes_count v)) else d_zero
  | None => d_zero
  end.
Definition total_routed_shares (r : SmartOrderRouter) : Z := sum64 routed_shares (venues_ r).
Definition venue_share_pct (r : SmartOrderRouter) (venue_name : cstr) : double :=
  let total := total_routed_shares r in
  if total <=? 0 then d_zero else
  dmul (ddiv (dbl_of_Z (venue_routed_shares r venue_name)) (dbl_of_Z total)) (dbl_of_Z 100).
(** The Herfindahl index of [f] over the venues that pass. *)
Definition hhi (ok : Venue -> bool) (f : Venue -> Z) (total : Z) (vs : list Venue) : double :=
  if total <=? 0 then d_zero else
  sumd ok (fun v => let share := ddiv (dbl_of_Z (f v)) (dbl_of_Z total) in dmul share share) vs.
Definition routing_concentration (r : SmartOrderRouter) : double :=
  hhi (fun _ => true) routed_shares (total_routed_shares r) (venues_ r).
Definition liquidity_concentration (r : SmartOrderRouter) (is_buy : bool) : double :=
  hhi (candidate is_buy) (fun v => shown v is_buy) (available_liquidity r is_buy) (venues_ r).
Definition busiest (r : SmartOrderRouter) (f : Venue -> Z) : option (cstr * Z) :=
  let '(best, who) := scan_above (fun _ => true) f (fun a b => b <? a) 0 (venues_ r) in (fun v => (name v, i64 best)) <$> who.
Definition busiest_venue (r : SmartOrderRouter) : option (cstr * Z) := busiest r routed_shares.
Definition most_chosen_venue (r : SmartOrderRouter) : option (cstr * Z) := busiest r routes_count.
Definition idle_venue_count (r : SmartOrderRouter) (is_buy : bool) : Z :=
  count_if (fun v => candidate is_buy v && (routed_shares v =? 0)) (venues_ r).
Definition reset_routing_stats (r : SmartOrderRouter) : SmartOrderRouter :=
  r <| venues_ ::= fmap (fun v => v <| routed_shares := 0 |> <| routes_count := 0 |>) |>.
Definition reset_session_stats (r : SmartOrderRouter) : SmartOrderRouter :=
  reset_routing_stats
    (r <| total_routes_ := 0 |> <| total_rejected_ := 0 |> <| total_latency_ns_ := 0 |> <| max_routing_latency_ns_ := 0 |>
       <| total_unfilled_shares_ := 0 |> <| total_routed_notional_ := d_zero |> <| total_fees_paid_ := d_zero |>).
(** The quotient the statistics share: 0.0 unless the divisor is positive. *)
Definition per (x : double) (n : Z) : double := if 0 <? n then ddiv x (dbl_of_Z n) else d_zero.
Definition avg_fee_per_share (r : SmartOrderRouter) : double := per (total_fees_paid_ r) (total_routed_shares r).
Definition reject_rate (r : SmartOrderRouter) : double :=
  per (dbl_of_Z (total_rejected_ r)) (u64 (total_routes_ r + total_rejected_ r)).
Definition avg_routing_latency_ns (r : SmartOrderRouter) : double := per (dbl_of_Z (total_latency_ns_ r)) (total_routes_ r).
Definition route_shortfall_rate (r : SmartOrderRouter) : double :=
  per (dbl_of_Z (total_unfilled_shares_ r)) (i64 (total_routed_shares r + total_unfilled_shares_ r)).
Definition avg_routed_price (r : SmartOrderRouter) : double := per (total_routed_notional_ r) (total_routed_shares r).
Definition fee_bps_of_routed_notional (r : SmartOrderRouter) : double :=
  if positive (total_routed_notional_ r) then bps (total_fees_paid_ r) (total_routed_notional_ r) else d_zero.

(** ** Choosing by a strict order *)

Section choose.
Context {A : Type} (beats : A -> A -> bool).
Hypothesis beats_trans : forall x y z, beats x y = true -> beats y z = true -> beats x z = true.
Hypothesis beats_irrefl : forall x, beats x x = false.

(** Nothing in [l] is better than [x]. *)
Definition unbeaten (x : A) (l : list A) : Prop := Forall (fun y => beats y x = false) l.
Lemma unbeaten_better x y l : beats y x = true -> unbeaten x l -> unbeaten y l.
Proof.
  intros Hy Hu. eapply Forall_impl; [exact Hu|]. intros z Hz. apply not_true_is_false. intros E.
  simpl in Hz. by rewrite (beats_trans z y x E Hy) in Hz.
Qed.
Lemma beats_asym x y : beats y x = true -> beats x y = false.
Proof. intros H. apply not_true_is_false. intros E.
  pose proof (beats_trans x y x E H) as C. by rewrite beats_irrefl in C.
Qed.

Lemma pick_best rest : forall best seen, best ∈ seen -> unbeaten best seen ->
  pick beats best rest ∈ seen ++ rest /\ unbeaten (pick beats best rest) (seen ++ rest).
Proof.
  induction rest as [|c rest IH]; intros best seen Hin Hu.
  { by rewrite app_nil_r. }
  change (pick beats best (c :: rest)) with (pick beats (if beats c best then c else best) rest).
  rewrite (cons_middle c seen rest), (assoc_L (++)). apply IH.
  - destruct (beats c best); set_solver.
  - destruct (beats c best) eqn:E; apply Forall_app; split.
    + by eapply unbeaten_better.
    + by constructor.
    + done.
    + by constructor.
Qed.

Lemma exchange_pass_perm rest : forall x,
  (exchange_pass beats x rest).1 :: (exchange_pass beats x rest).2 ≡ₚ x :: rest.
Proof.
  induction rest as [|y rest IH]; intros x; [done|]. cbn [exchange_pass].
  destruct (beats y x).
  - specialize (IH y). destruct (exchange_pass beats y rest) as [h t]. simpl in *.
    by rewrite (Permutation_swap x h t), IH.
  - specialize (IH x). destruct (exchange_pass beats x rest) as [h t]. simpl in *.
    rewrite (Permutation_swap y h t), IH. apply Permutation_swap.
Qed.
(** The head of a pass is [x] or better than [x], and unbeaten in the rest. *)
Lemma exchange_pass_best rest : forall x, let p := exchange_pass beats x rest in
  (p.1 = x \/ beats p.1 x = true) /\ unbeaten p.1 p.2.
Proof.
  induction rest as [|y rest IH]; intros x; [split; [by left|constructor]|]. cbn [exchange_pass].
  destruct (beats y x) eqn:E.
  - specialize (IH y). destruct (exchange_pass beats y rest) as [h t]. simpl in *.
    destruct IH as [Hh Hu].
    assert (beats h x = true) as Hx by (destruct Hh as [->|Hh]; [done|by eapply beats_trans]).
    split; [by right|]. constructor; [by apply beats_asym|done].
  - specialize (IH x). destruct (exchange_pass beats x rest) as [h t]. simpl in *.
    destruct IH as [Hh Hu]. split; [done|]. constructor; [|done].
    destruct Hh as [->|Hh]; [done|]. apply not_true_is_false. intros Ey.
    by rewrite (beats_trans y h x) in E.
Qed.

Lemma exchange_sort_perm n : forall l, exchange_sort beats n l ≡ₚ l.
Proof.
  induction n as [|n IH]; intros [|x rest]; try done. cbn [exchange_sort].
  pose proof (exchange_pass_perm rest x). destruct (exchange_pass beats x rest) as [h t]. simpl in *.
  by rewrite IH.
Qed.
(** In the sorted list nothing beats what stands before it. *)
Lemma exchange_sort_sorted n : forall l, (length l <= S n)%nat ->
  StronglySorted (fun x y => beats y x = false) (exchange_sort beats n l).
Proof.
  induction n as [|n IH]; intros [|x rest] Hl; simpl in Hl; try (by constructor).
  { destruct rest; [|simpl in Hl; lia]. by repeat constructor. }
  cbn [exchange_sort]. pose proof (exchange_pass_perm rest x) as Hp.
  pose proof (exchange_pass_best rest x) as [_ Hb]. destruct (exchange_pass beats x rest) as [h t]. simpl in *.
  apply Permutation_length in Hp. simpl in Hp. constructor; [apply IH; lia|].
  unfold unbeaten in Hb. by rewrite exchange_sort_perm.
Qed.
End choose.

(** ** Indices of venues *)

Lemma better_trans b x y z : better b x y = true -> better b y z = true -> better b x z = true.
Proof. destruct b; unfold better, dgt; eauto using dlt_trans. Qed.
Lemma better_irrefl b x : better b x x = false.
Proof. destruct b; apply dlt_irrefl. Qed.
Lemma beats_price_trans vs b x y z :
  beats_price vs b x y = true -> beats_price vs b y z = true -> beats_price vs b x z = true.
Proof. apply better_trans. Qed.
Lemma beats_price_irrefl vs b x : beats_price vs b x x = false.
Proof. apply better_irrefl. Qed.
Lemma beats_latency_trans vs x y z :
  beats_latency vs x y = true -> beats_latency vs y z = true -> beats_latency vs x z = true.
Proof. unfold beats_latency. rewrite !Z.ltb_lt. lia. Qed.
Lemma beats_latency_irrefl vs x : beats_latency vs x x = false.
Proof. apply Z.ltb_irrefl. Qed.

Lemma venue_at_lookup vs i v : vs !! i = Some v -> venue_at vs i = v.
Proof. unfold venue_at. by intros ->. Qed.
Lemma elem_of_candidates b vs i :
  i ∈ candidates b vs <-> exists v, vs !! i = Some v /\ candidate b v = true.
Proof.
  unfold candidates. rewrite list_elem_of_filter, elem_of_seq, Is_true_true. split.
  - intros [Hc [_ Hi]]. destruct (lookup_lt_is_Some_2 vs i) as [v Hv]; [lia|].
    exists v. rewrite (venue_at_lookup _ _ _ Hv) in Hc. done.
  - intros (v & Hv & Hc). rewrite (venue_at_lookup _ _ _ Hv). apply lookup_lt_Some in Hv. split; [done|lia].
Qed.
Lemma NoDup_candidates b vs : NoDup (candidates b vs).
Proof. apply NoDup_filter, NoDup_seq. Qed.
Lemma venue_at_alter vs f i j : (i < length vs)%nat ->
  venue_at (alter f i vs) j = if decide (i = j) then f (venue_at vs i) else venue_at vs j.
Proof.
  intros Hi. unfold venue_at. destruct (decide (i = j)) as [<-|N].
  - rewrite list_lookup_alter_eq. destruct (lookup_lt_is_Some_2 vs i Hi) as [v ->]. done.
  - by rewrite list_lookup_alter_ne.
Qed.
Lemma routed_quote n v b : shown (routed n v) b = shown v b.
Proof. by destruct b. Qed.

(** ** What the split gives to each venue *)

Definition deliver (n : Z) (v : Venue) : Venue := if n <=? 0 then v else routed n v.
(** [g] hands out the quantity [q] over the candidates in order, at most [sz]
    to each, and to none before those in front of it have all they show. *)
Record Allocation (cs : list nat) (sz : nat -> Z) (q : Z) (g : nat -> Z) : Prop := {
  al_other : forall i, i ∉ cs -> g i = 0;
  al_bound : forall i, i ∈ cs -> 0 <= g i <= sz i;
  al_total : sumf g cs = Z.min q (sumf sz cs);
  al_order : StronglySorted (fun a b => 0 < g b -> g a = sz a) cs }.

Lemma allocate cs sz q g c : NoDup (c :: cs) -> 0 <= q -> 0 < sz c ->
  Allocation cs sz (q - Z.min q (sz c)) g ->
  Allocation (c :: cs) sz q (fun i => if decide (i = c) then Z.min q (sz c) else g i).
Proof.
  intros [Hc Hnd]%NoDup_cons Hq Hs [Ho Hb Ht Hord]. set (h := fun i => _).
  assert (Hh : forall i, i ∈ cs -> h i = g i).
  { intros i Hi. unfold h. rewrite decide_False; [done|]. by intros ->. }
  assert (Hhc : h c = Z.min q (sz c)) by (unfold h; by rewrite decide_True).
  assert (Hsum : sumf h cs = sumf g cs) by (apply sumf_ext; done).
  assert (Hpos : 0 <= sumf sz cs).
  { rewrite <- (sumf_zero (fun _ => 0) cs) by done. apply sumf_le. intros i Hi. specialize (Hb i Hi). lia. }
  split.
  - intros i [Hi Hi']%not_elem_of_cons. unfold h. rewrite decide_False by done. by apply Ho.
  - intros i [->|Hi]%elem_of_cons; [lia|]. rewrite Hh by done. by apply Hb.
  - rewrite !sumf_cons, Hsum, Hhc. lia.
  - constructor.
    + eapply StronglySorted_ind with (P := fun l => l ⊆ cs -> StronglySorted _ l) in Hord; [by apply Hord|..].
      * constructor.
      * intros a l Hsl IH Hall Hsub. constructor; [apply IH; set_solver|].
        apply list.Forall_forall. intros b Hb'. rewrite !Hh by set_solver. rewrite list.Forall_forall in Hall. by apply Hall.
    + apply list.Forall_forall. intros b Hb'. rewrite Hhc, Hh by done. intros Hgb.
      destruct (Z.le_gt_cases (sz c) q); [lia|].
      assert (g b = 0); [|lia]. apply (sumf_nonneg_zero g cs); [|lia|done]. intros i Hi. by apply Hb.
Qed.

Lemma split_loop_none b cs s : remaining s <= 0 -> split_loop b cs s = s.
Proof. intros H. destruct cs; [done|]. cbn [split_loop]. zcase; [lia|done]. Qed.
Lemma split_turn_eq b s c : let v := venue_at (split_venues s) c in let a := Z.min (remaining s) (shown v b) in
  0 < a -> 0 <= filled s -> filled s + remaining s <= INT32_MAX ->
  split_turn b s c = mkSplit (remaining s - a) (filled s + a) (i32 (venues_used s + 1))
    (dadd (price_sum s) (dmul (quote v b) (dbl_of_Z a))) (dadd (fee_sum s) (dmul (fee_per_share v) (dbl_of_Z a)))
    (alter (routed a) c (split_venues s)).
Proof.
  intros v a Ha Hf Hfr. unfold split_turn. fold v a. zcase; [lia|]. unfold INT32_MAX in *. upd.
  cbn [filled remaining price_sum fee_sum split_venues venues_used eta_split].
  by rewrite (i32_small (filled s + a)), (i32_small (remaining s - a)) by lia.
Qed.
Lemma allocate_none cs sz : (forall i, i ∈ cs -> 0 < sz i) -> Allocation cs sz 0 (fun _ => 0).
Proof.
  intros Hs. split; [done|intros i Hi; specialize (Hs i Hi); lia| |].
  - rewrite sumf_zero by done. assert (0 <= sumf sz cs); [|lia]. apply sumf_nonneg.
    intros i Hi. specialize (Hs i Hi). lia.
  - clear. induction cs; constructor; [done|]. apply list.Forall_forall. intros; lia.
Qed.

(** The loop hands out the quantity: [sz] are the shares shown. *)
Lemma split_loop_allocates b (sz : nat -> Z) cs : forall s, NoDup cs ->
  (forall i, i ∈ cs -> (i < length (split_venues s))%nat /\ shown (venue_at (split_venues s) i) b = sz i /\ 0 < sz i) ->
  0 <= remaining s <= INT32_MAX -> 0 <= filled s -> filled s + remaining s <= INT32_MAX ->
  exists g, Allocation cs sz (remaining s) g /\
    filled (split_loop b cs s) = filled s + sumf g cs /\
    (forall i, split_venues (split_loop b cs s) !! i = deliver (g i) <$> split_venues s !! i).
Proof.
  induction cs as [|c cs IH]; intros s Hnd Hcs Hr Hf Hfr.
  { exists (fun _ => 0). split; [split; [done|set_solver|simpl; lia|constructor]|].
    split; [simpl; lia|]. intros i. simpl. by destruct (_ !! i). }
  destruct (Z.le_gt_cases (remaining s) 0) as [Hz|Hz].
  { rewrite split_loop_none by lia. exists (fun _ => 0). replace (remaining s) with 0 by lia.
    split; [apply allocate_none; intros i Hi; by apply Hcs|]. rewrite sumf_zero by done.
    split; [lia|]. intros i. by destruct (_ !! i). }
  destruct (Hcs c (list_elem_of_here _ _)) as (Hc & Hsz & Hpos).
  cbn [split_loop]. zcase; [|lia]. pose proof (split_turn_eq b s c) as E. cbv zeta in E. rewrite Hsz in E.
  rewrite E by lia. clear E. set (a := Z.min _ _) in *.
  set (s1 := mkSplit _ _ _ _ _ _). pose proof Hnd as [Hn Hnd']%NoDup_cons.
  destruct (IH s1 Hnd') as (g & Hg & Hfill & Hv); unfold s1; cbn [remaining filled split_venues]; try lia.
  { intros i Hi. rewrite length_alter. destruct (Hcs i) as (Hi1 & Hi2 & Hi3); [by constructor|].
    split; [done|]. split; [|done]. rewrite venue_at_alter by done. rewrite decide_False; [done|by intros <-]. }
  eexists. split; [apply (allocate cs sz (remaining s) g c); [done|lia|done|exact Hg]|]. fold a. split.
  - fold s1. rewrite Hfill, sumf_cons, decide_True by done. unfold s1; cbn [filled].
    assert (sumf (fun i => if decide (i = c) then a else g i) cs = sumf g cs) as ->; [|lia].
    apply sumf_ext. intros i Hi. rewrite decide_False; [done|]. by intros ->.
  - intros i. fold s1. rewrite Hv. unfold s1; cbn [split_venues]. destruct (decide (i = c)) as [->|N].
    + rewrite list_lookup_alter_eq, (al_other _ _ _ _ Hg) by done. unfold deliver at 2. zcase; [lia|].
      by destruct (_ !! c).
    + by rewrite list_lookup_alter_ne.
Qed.

Lemma sorted_before {A} (P Q : A -> A -> Prop) l i j :
  StronglySorted P l -> StronglySorted Q l -> i ∈ l -> j ∈ l -> ~ P j i -> i <> j -> Q i j.
Proof.
  induction l as [|x l IH]; intros HP HQ Hi Hj Hn Hne; [by apply elem_of_nil in Hi|].
  apply StronglySorted_inv in HP as [HP HPx], HQ as [HQ HQx]. rewrite list.Forall_forall in HPx, HQx.
  apply elem_of_cons in Hi as [->|Hi], Hj as [->|Hj]; [done|by apply HQx| |by apply IH].
  destruct Hn. by apply HPx.
Qed.

Lemma candidates_shown b vs i : i ∈ candidates b vs ->
  (i < length vs)%nat /\ vs !! i = Some (venue_at vs i) /\ 0 < shown (venue_at vs i) b.
Proof.
  intros (v & Hv & Hc)%elem_of_candidates. rewrite (venue_at_lookup _ _ _ Hv).
  apply lookup_lt_Some in Hv as ?. unfold candidate, has_liq in Hc. by bsplit.
Qed.

(** What the strategy ranks candidates by. *)
Definition route_beats (strat : RoutingStrategy) (vs : list Venue) (is_buy : bool) : nat -> nat -> bool :=
  if bool_decide (strat = LOWEST_LATENCY) then beats_latency vs else beats_price vs is_buy.
Definition side_is_buy (side : cstr) : bool := default 0 (head side) =? 66.
Lemma route_beats_trans strat vs b x y z :
  route_beats strat vs b x y = true -> route_beats strat vs b y z = true -> route_beats strat vs b x z = true.
Proof. unfold route_beats. case_bool_decide; [apply beats_latency_trans|apply beats_price_trans]. Qed.
Lemma route_beats_irrefl strat vs b x : route_beats strat vs b x x = false.
Proof. unfold route_beats. case_bool_decide; [apply beats_latency_irrefl|apply beats_price_irrefl]. Qed.
Lemma pick_unbeaten strat vs b c l :
  let best := pick (route_beats strat vs b) c l in
  best ∈ c :: l /\ unbeaten (route_beats strat vs b) best (c :: l).
Proof.
  apply (pick_best _ (route_beats_trans strat vs b) (route_beats_irrefl strat vs b) l c [c]); [constructor|].
  constructor; [apply route_beats_irrefl|constructor].
Qed.

Section route.
Context (r : SmartOrderRouter) (side : cstr) (q : Z) (strat : RoutingStrategy) (t0 t1 : Z).
Let is_buy := side_is_buy side.
Let vs := venues_ r.
Let cs := candidates is_buy vs.
Let sz (i : nat) := shown (venue_at vs i) is_buy.
Let o := route_order r side q strat t0 t1.
Definition splits : bool := bool_decide (strat = SPLIT) && (split_threshold_ r <=? q).

Lemma route_none : cs = [] ->
  o = (rejected_decision (if venue_count r =? 0 then RR_NO_VENUES else RR_NO_LIQUIDITY),
       r <| total_rejected_ ::= fun x => u64 (x + 1) |>).
Proof.
  intros Hcs. unfold o, route_order. fold (side_is_buy side) is_buy vs. unfold cs in Hcs. by rewrite Hcs.
Qed.

Lemma route_one : cs <> [] -> splits = false -> INT32_MIN <= q <= INT32_MAX ->
  exists b, b ∈ cs /\ unbeaten (route_beats strat vs is_buy) b cs /\
    let v := venue_at vs b in let n := Z.min q (sz b) in
    o.1 = mkDecision (take 15 (name v)) (quote v is_buy) (effective_price v is_buy)
            (dmul (fee_per_share v) (dbl_of_Z n)) n (q - n) 1 (i64 (t1 - t0)) true RR_NONE /\
    o.2 = account (r <| venues_ ::= alter (routed n) b |>) o.1.
Proof.
  intros Hne Hs Hq.
  assert (forall i, i ∈ cs -> 0 < sz i) as Hsz by (intros i Hi; by apply candidates_shown in Hi as (_ & _ & ?)).
  unfold o, route_order. fold (side_is_buy side) is_buy vs cs splits. rewrite Hs. destruct cs as [|c l]; [done|].
  pose proof (pick_unbeaten strat vs is_buy c l) as [Hb Hu].
  exists (pick (route_beats strat vs is_buy) c l).
  assert ((if bool_decide (strat = LOWEST_LATENCY) then pick (beats_latency vs) c l
           else pick (beats_price vs is_buy) c l) = pick (route_beats strat vs is_buy) c l) as ->
    by (unfold route_beats; by destruct (bool_decide (strat = LOWEST_LATENCY))).
  split; [done|]. split; [done|]. fold (sz (pick (route_beats strat vs is_buy) c l)).
  specialize (Hsz _ Hb). unfold INT32_MAX, INT32_MIN in Hq. cbv zeta. rewrite i32_small by lia. done.
Qed.

Lemma route_split_eq : splits = true -> cs <> [] -> o = split_order r cs is_buy q t0 t1.
Proof.
  intros Hs Hne. unfold o, route_order. fold (side_is_buy side) is_buy vs cs splits. rewrite Hs.
  by destruct cs.
Qed.
Lemma route_split : splits = true -> cs <> [] -> 0 < q <= INT32_MAX ->
  exists g l, l ≡ₚ cs /\ StronglySorted (fun x y => beats_price vs is_buy y x = false) l /\ Allocation l sz q g /\
    rd_valid o.1 = true /\ rd_quantity o.1 = sumf g l /\ rd_unfilled_qty o.1 = q - sumf g l /\
    total_unfilled_shares_ o.2 = i64 (total_unfilled_shares_ r + rd_unfilled_qty o.1) /\
    (forall i, venues_ o.2 !! i = deliver (g i) <$> vs !! i).
Proof.
  intros Hs Hne Hq. set (l := exchange_sort (beats_price vs is_buy) (length cs - 1) cs).
  assert (Hl : l ≡ₚ cs) by apply exchange_sort_perm.
  assert (Hsz : forall i, i ∈ l -> (i < length vs)%nat /\ shown (venue_at vs i) is_buy = sz i /\ 0 < sz i).
  { intros i Hi. rewrite Hl in Hi. by apply candidates_shown in Hi as (? & _ & ?). }
  destruct (split_loop_allocates is_buy sz l (mkSplit q 0 0 d_zero d_zero vs)) as (g & Hg & Hf & Hv);
    cbn [remaining filled split_venues] in *; try done; try lia.
  { rewrite Hl. apply NoDup_candidates. }
  rewrite Z.add_0_l in Hf. pose proof (al_total _ _ _ _ Hg) as Ht. 
  assert (0 < sumf sz l).
  { destruct l as [|c l']; [by destruct Hne; apply Permutation_nil|]. rewrite sumf_cons.
    assert (0 < sz c) by (apply Hsz; constructor). assert (0 <= sumf sz l'); [|lia].
    apply sumf_nonneg. intros i Hi. assert (0 < sz i); [|lia]. apply Hsz. by constructor. }
  exists g, l. split; [done|]. split.
  { apply exchange_sort_sorted; [apply beats_price_trans|apply beats_price_irrefl|lia]. }
  split; [done|]. rewrite route_split_eq by done. unfold split_order. fold vs l. rewrite Hf. destruct (Z.eqb_spec (sumf g l) 0); [lia|]. cbn [fst snd rd_valid rd_quantity rd_unfilled_qty].
  unfold INT32_MAX in Hq. rewrite i32_small by lia. done.
Qed.
End route.

(** ** What routing guarantees *)

(** an order that is not split goes to an active venue that shows a price
    and a size on the order's side, and no such venue is strictly better by the
    strategy's measure (all-in price, or latency); it fills what that venue
    shows, up to the order, reports the rest as unfilled and charges that
    venue's statistics alone.  With no such venue the order is rejected and
    only the count of rejects changes. *)
Lemma router_best_venue (r : SmartOrderRouter) (side : cstr) (q : Z) (strat : RoutingStrategy) (t0 t1 : Z) :
  let b := side_is_buy side in let cs := candidates b (venues_ r) in
  let o := route_order r side q strat t0 t1 in
  INT32_MIN <= q <= INT32_MAX -> splits r q strat = false ->
  (cs = [] -> rd_valid o.1 = false /\ o.2 = r <| total_rejected_ ::= fun x => u64 (x + 1) |>) /\
  (cs <> [] -> exists i, i ∈ cs /\ (forall c, c ∈ cs -> route_beats strat (venues_ r) b c i = false) /\
    let v := venue_at (venues_ r) i in
    rd_valid o.1 = true /\ rd_venue o.1 = take 15 (name v) /\ rd_price o.1 = quote v b /\
    rd_effective_price o.1 = effective_price v b /\ rd_quantity o.1 = Z.min q (shown v b) /\
    rd_quantity o.1 + rd_unfilled_qty o.1 = q /\
    venues_ o.2 = alter (routed (rd_quantity o.1)) i (venues_ r)).
Proof.
  intros b cs o Hq Hs. split; intros Hc.
  - unfold o. by rewrite route_none.
  - destruct (route_one r side q strat t0 t1 Hc Hs Hq) as (i & Hi & Hu & H1 & H2).
    exists i. split; [done|]. split; [by apply list.Forall_forall|]. unfold o. rewrite H2, H1.
    repeat split; cbn; lia.
Qed.

(** C25: a split order fills what the active venues show on its side, up to its
    size.  The shares are handed out so that none gets more than it shows and a
    venue gets shares only when every venue with a strictly better all-in price
    has been used up; each venue's statistics grow by what it got. *)
Theorem router_split_priority (r : SmartOrderRouter) (side : cstr) (q t0 t1 : Z) :
  let b := side_is_buy side in let vs := venues_ r in let cs := candidates b vs in
  let o := route_order r side q SPLIT t0 t1 in
  0 < q <= INT32_MAX -> split_threshold_ r <= q -> cs <> [] ->
  rd_valid o.1 = true /\ rd_quantity o.1 = Z.min q (sumf (fun i => shown (venue_at vs i) b) cs) /\
  rd_quantity o.1 + rd_unfilled_qty o.1 = q /\
  exists gains, sumf gains cs = rd_quantity o.1 /\
    (forall i, i ∈ cs -> 0 <= gains i <= shown (venue_at vs i) b) /\
    (forall i j, i ∈ cs -> j ∈ cs -> beats_price vs b i j = true -> 0 < gains j -> gains i = shown (venue_at vs i) b) /\
    (forall i, venues_ o.2 !! i = (fun v => if bool_decide (i ∈ cs) then deliver (gains i) v else v) <$> vs !! i).
Proof.
  intros b vs cs o Hq Ht Hne.
  destruct (route_split r side q SPLIT t0 t1) as (g & l & Hl & Hsort & [Ho Hb Hsum Hord] & Hv & Hqty & Hun & _ & Hvs); try done.
  { unfold splits. rewrite bool_decide_true by done. by apply Z.leb_le. }
  fold b vs cs in Hl, Hsort, Ho, Hb, Hsum, Hord, Hvs. fold o in Hv, Hqty, Hun, Hvs.
  split; [done|]. split; [by rewrite Hqty, Hsum, (sumf_perm _ _ _ Hl)|]. split; [lia|].
  exists g. split; [by rewrite Hqty, (sumf_perm _ _ _ Hl)|]. split; [intros i Hi; apply Hb; by rewrite Hl|]. split.
  - intros i j Hi Hj Hbeat. apply (sorted_before _ _ l i j Hsort Hord); [by rewrite Hl..|by rewrite Hbeat|].
    intros ->. by rewrite beats_price_irrefl in Hbeat.
  - intros i. rewrite Hvs. destruct (vs !! i); [|done]. simpl. f_equal. case_bool_decide as Hi; [done|].
    rewrite Ho; [done|]. by rewrite Hl.
Qed.

(** ** Accounting over a session *)

Record OrderCall := mkCall { oc_side : cstr; oc_quantity : Z; oc_strat : RoutingStrategy; oc_t0 : Z; oc_t1 : Z }.
Definition call_route (r : SmartOrderRouter) (c : OrderCall) : RouteDecision * SmartOrderRouter :=
  route_order r (oc_side c) (oc_quantity c) (oc_strat c) (oc_t0 c) (oc_t1 c).
Fixpoint route_all (r : SmartOrderRouter) (calls : list OrderCall) : list RouteDecision * SmartOrderRouter :=
  match calls with
  | [] => ([], r)
  | c :: calls => let '(d, r) := call_route r c in let '(ds, r) := route_all r calls in (d :: ds, r)
  end.

Lemma sum_routed_alter vs i n : (i < length vs)%nat ->
  i64 (sumf routed_shares (alter (routed n) i vs)) = i64 (sumf routed_shares vs + n).
Proof.
  intros Hi. destruct (lookup_lt_is_Some_2 vs i Hi) as [v Hv].
  replace (alter (routed n) i vs) with (<[i := routed n v]> vs).
  2:{ apply list_eq. intros j. destruct (decide (i = j)) as [<-|N].
      - rewrite list_lookup_insert_eq, list_lookup_alter_eq, Hv by done. done.
      - by rewrite list_lookup_insert_ne, list_lookup_alter_ne. }
  rewrite (sumf_insert _ _ _ v) by done. cbn. wrap_norm. f_equal. lia.
Qed.
(** The deliveries of an allocation, summed over the table. *)
Lemma sum_delivered vs : forall vs' (g : nat -> Z), (forall i, 0 <= g i) ->
  (forall i, vs' !! i = deliver (g i) <$> vs !! i) ->
  i64 (sumf routed_shares vs') = i64 (sumf routed_shares vs + sumf g (seq 0 (length vs))).
Proof.
  induction vs as [|v vs IH]; intros vs' g Hg Hl.
  { destruct vs' as [|v' vs']; [done|]. discriminate (Hl 0%nat). }
  destruct vs' as [|v' vs']; [discriminate (Hl 0%nat)|].
  specialize (IH vs' (fun i => g (S i)) (fun i => Hg (S i)) (fun i => Hl (S i))).
  assert (v' = deliver (g 0%nat) v) as -> by (specialize (Hl 0%nat); by injection Hl).
  cbn [length seq]. rewrite !sumf_cons, <- fmap_S_seq, sumf_fmap, <- wraps_add_r, IH, wraps_add_r by done.
  specialize (Hg 0%nat). unfold deliver. zcase; [f_equal; lia|]. cbn. wrap_norm. f_equal. lia.
Qed.
Lemma sumf_filter (P : nat -> Prop) {decP : forall x, Decision (P x)} (f : nat -> Z) l :
  (forall i, i ∈ l -> ~ P i -> f i = 0) -> sumf f (filter P l) = sumf f l.
Proof.
  induction l as [|x l IH]; intros H; [done|]. rewrite filter_cons, sumf_cons.
  rewrite <- IH by (intros i Hi; apply H; by constructor).
  destruct (decide (P x)); [by rewrite sumf_cons|]. rewrite (H x); [lia|constructor|done].
Qed.

Definition routed_ok (r r' : SmartOrderRouter) (c : OrderCall) (d : RouteDecision) : Prop :=
  rd_quantity d + rd_unfilled_qty d = (if rd_valid d then oc_quantity c else 0) /\
  total_routed_shares r' = i64 (total_routed_shares r + rd_quantity d) /\
  i64 (total_unfilled_shares_ r') = i64 (total_unfilled_shares_ r + rd_unfilled_qty d).
Lemma call_route_ok r c : INT32_MIN <= oc_quantity c <= INT32_MAX ->
  routed_ok r (call_route r c).2 c (call_route r c).1.
Proof.
  intros Hq. unfold call_route. destruct c as [side q strat t0 t1]. cbn [oc_quantity oc_side oc_strat oc_t0 oc_t1] in *.
  unfold routed_ok, total_routed_shares. rewrite !sum64_sumf.
  destruct (decide (candidates (side_is_buy side) (venues_ r) = [])) as [Hc|Hc].
  { rewrite route_none by done. cbn. rewrite !Z.add_0_r. split; [done|]. wrap_norm. done. }
  destruct (splits r q strat) eqn:Hs.
  - assert (strat = SPLIT) as -> by (unfold splits in Hs; bsplit; by eapply bool_decide_eq_true_1).
    destruct (Z.le_gt_cases q 0) as [Hq0|Hq0].
    { rewrite route_split_eq by done. unfold split_order. rewrite split_loop_none by done. cbn.
      rewrite !Z.add_0_r. split; [done|]. wrap_norm. done. }
    destruct (route_split r side q SPLIT t0 t1) as (g & l & Hl & _ & Hg & Hv & Hqty & Hun & Htot & Hvs); try done; [lia|].
    split; [rewrite Hv; cbn [oc_quantity]; lia|]. split; [|rewrite Htot; by wrap_norm].
    assert (Hsz : forall i, 0 <= g i).
    { intros i. destruct (decide (i ∈ l)) as [Hi|Hi]; [by apply (al_bound _ _ _ _ Hg)|by rewrite (al_other _ _ _ _ Hg)]. }
    rewrite (sum_delivered (venues_ r) _ g) by done. wrap_norm. f_equal. f_equal.
    rewrite Hqty, (sumf_perm _ _ _ Hl). symmetry. apply sumf_filter. intros i _ Hi.
    apply (al_other _ _ _ _ Hg). rewrite Hl. unfold candidates. rewrite list_elem_of_filter. tauto.
  - destruct (route_one r side q strat t0 t1 Hc Hs Hq) as (i & Hi & _ & H1 & H2).
    set (n := Z.min _ _) in *.
    assert (venues_ (route_order r side q strat t0 t1).2 = alter (routed n) i (venues_ r)) as -> by (by rewrite H2).
    assert (total_unfilled_shares_ (route_order r side q strat t0 t1).2 = i64 (total_unfilled_shares_ r + (q - n))) as ->
      by (by rewrite H2, H1).
    rewrite H1. cbn [rd_valid rd_quantity rd_unfilled_qty]. split; [cbn; lia|]. split; [|by wrap_norm].
    rewrite sum_routed_alter by (by apply candidates_shown in Hi as [? _]). by wrap_norm.
Qed.

(** over any sequence of orders, the router's totals are those of the
    decisions it returned: routed shares grew by the quantities, unfilled shares
    by the shortfalls, and so their sum, which the shortfall rate divides by, by
    the sizes of the orders that were not rejected. *)
Lemma router_accounts (calls : list OrderCall) (r : SmartOrderRouter) :
  Forall (fun c => INT32_MIN <= oc_quantity c <= INT32_MAX) calls ->
  let ds := (route_all r calls).1 in let r' := (route_all r calls).2 in
  total_routed_shares r' = i64 (total_routed_shares r + sumf rd_quantity ds) /\
  i64 (total_routed_shares r' + total_unfilled_shares_ r') =
  i64 (total_routed_shares r + total_unfilled_shares_ r +
       sumf (fun p => if rd_valid p.2 then oc_quantity p.1 else 0) (zip calls ds)).
Proof.
  intros H. revert r. induction H as [|c calls Hq _ IH]; intros r ds r'.
  { unfold ds, r'. cbn. rewrite !Z.add_0_r. unfold total_routed_shares. rewrite sum64_sumf. by wrap_norm. }
  pose proof (call_route_ok r c Hq) as (H1 & H2 & H3). unfold ds, r'. cbn [route_all].
  destruct (call_route r c) as [d r1] eqn:E. cbn [fst snd] in *. specialize (IH r1).
  destruct (route_all r1 calls) as [ds1 r2]. cbn [fst snd zip zip_with] in *. rewrite !sumf_cons. cbn [fst snd].
  destruct IH as [-> ->]. rewrite <- H1, H2. split; [by rewrite wraps_add_l, Z.add_assoc|].
  rewrite wraps_add_add by done. set (S := sumf _ _). set (q := rd_quantity d) in *. set (u := rd_unfilled_qty d) in *.
  replace (total_routed_shares r + q + total_unfilled_shares_ r1 + S)
    with (total_routed_shares r + q + S + total_unfilled_shares_ r1) by lia.
  rewrite <- wraps_add_r, H3, wraps_add_r by done. f_equal. lia.
Qed.

(** ** Concrete routers *)

Definition sample_venue (n : Z) (ask lat size : Z) : Venue :=
  new_venue [65 + n] lat d_zero <| best_ask := dbl_of_Z ask |> <| ask_size := size |> <| last_quote_ns := 1 |>.
Definition sample_router : SmartOrderRouter :=
  new_router BEST_PRICE 500 <| venues_ := [sample_venue 0 102 10 300; sample_venue 1 101 30 200; sample_venue 2 103 20 400] |>.
Definition BUY_SIDE : cstr := [66; 85; 89].

Lemma router_best_venue_witness :
  exists i, i ∈ candidates true (venues_ sample_router) /\
    rd_quantity (route_order sample_router BUY_SIDE 250 BEST_PRICE 0 5).1 =
      Z.min 250 (shown (venue_at (venues_ sample_router) i) true).
Proof.
  destruct (proj2 (router_best_venue sample_router BUY_SIDE 250 BEST_PRICE 0 5
    ltac:(vm_compute; split; discriminate) ltac:(vm_compute; reflexivity)) ltac:(vm_compute; discriminate))
    as (i & Hi & _ & _ & _ & _ & _ & Hq & _).
  exists i. split; [exact Hi|exact Hq].
Defined.
Lemma router_split_priority_witness :
  rd_quantity (route_order sample_router BUY_SIDE 600 SPLIT 0 5).1 = 600.
Proof.
  rewrite (proj1 (proj2 (router_split_priority sample_router BUY_SIDE 600 0 5
    ltac:(vm_compute; split; [reflexivity|discriminate]) ltac:(vm_compute; discriminate) ltac:(vm_compute; discriminate)))).
  vm_compute. reflexivity.
Defined.
Lemma router_accounts_witness :
  let calls := [mkCall BUY_SIDE 250 BEST_PRICE 0 5; mkCall BUY_SIDE 600 SPLIT 10 15] in
  total_routed_shares (route_all sample_router calls).2 = 800.
Proof.
  intros calls. rewrite (proj1 (router_accounts calls sample_router
    ltac:(apply (bool_decide_unpack _); vm_compute; exact I))).
  vm_compute. reflexivity.
Defined.

(** The split above takes 200 at 101, 300 at 102 and 100 at 103; the decision
    names the venue with the best price, not the one with the most shares. *)
Example split_names_the_cheapest :
  (fmap routed_shares (venues_ (route_order sample_router BUY_SIDE 600 SPLIT 0 5).2),
   rd_venue (route_order sample_router BUY_SIDE 600 SPLIT 0 5).1) = ([300; 200; 100], [66]).
Proof. vm_compute. reflexivity. Qed.
(** An order for a negative quantity is accepted and takes shares back. *)
Example negative_order_routed :
  let o := route_order sample_router BUY_SIDE (-50) BEST_PRICE 0 5 in
  (rd_valid o.1, rd_quantity o.1, total_routed_shares o.2) = (true, -50, -50).
Proof. vm_compute. reflexivity. Qed.
(** A venue switched off by hand comes back with its next latency sample. *)
Example latency_sample_reactivates :
  venue_active (record_latency (set_venue_active sample_router [66] false).2 [66] 7) [66] = true.
Proof. vm_compute. reflexivity. Qed.
(** An ask of zero with a size makes the national best ask zero, and the market
    counts as one-sided although two venues offer. *)
Example zero_ask_hides_the_market :
  national_best_ask (add_venue sample_router (sample_venue 3 0 5 10)) = d_zero.
Proof. vm_compute. reflexivity. Qed.
