(* ===== verification/LadderTypes.v ===== *)
(** * LadderTypes: the data of the full order book

    [orderbook/orderbook_pro_types.hpp]: orders, price levels, trades, events
    and statistics of the ladder book.  A pointer to an order of the pool is
    the number of its slot.  The links of the queue at a level
    ([next_at_level], [prev_at_level], [head], [tail]) are the list of its
    slots, and the links of the free list ([next_free]) the list of free ones. *)
From S2P Require Import Prelude Double Common.

Definition PRICE_MIN_TICKS : Z := 0.
Definition NO_BID_TICKS : Z := -1.
Definition NO_ASK_TICKS : Z := INT32_MAX.

Inductive OrderType := T_LIMIT | T_IOC | T_FOK | T_POST_ONLY | T_ICEBERG | T_STOP | T_PEG | T_MARKET | T_HIDDEN | T_AON.
Inductive TimeInForce := TIF_DAY | TIF_GTC | TIF_IOC | TIF_FOK | TIF_GTD | TIF_GTX.
Inductive SelfTradePrevention := STP_NONE | STP_CANCEL_NEWEST | STP_CANCEL_OLDEST | STP_CANCEL_BOTH | STP_DECREMENT_AND_CXL.
Inductive OrderStatus := S_NEW | S_OPEN | S_PARTIALLY_FILLED | S_FILLED | S_CANCELLED | S_REJECTED | S_EXPIRED | S_REPLACED.
Inductive EventType := E_ACCEPT | E_REJECT | E_FILL | E_CANCEL | E_EXPIRE | E_REPLACE | E_BOOK_UPDATE.
Inductive RejectReason :=
  R_NONE | R_PRICE_OUT_OF_RANGE | R_QTY_ZERO_OR_NEGATIVE | R_POOL_EXHAUSTED | R_POST_ONLY_WOULD_CROSS
| R_FOK_NOT_FILLABLE | R_SELF_TRADE_BLOCKED | R_DUPLICATE_ID | R_LOCKED_MARKET | R_CROSSED_MARKET | R_HALTED
| R_MIN_QTY_NOT_MET | R_LULD_BAND_BREACH | R_SSR_RESTRICTED | R_REDUCE_ONLY_NO_POSITION | R_RATE_LIMITED
| R_MARKET_CLOSED | R_MMP_TRIPPED.
Inductive SessionPhase := PRE_OPEN | CONTINUOUS | CLOSING | CLOSED.
#[export] Instance OrderType_eq : EqDecision OrderType.
Proof. solve_decision. Defined.
#[export] Instance TimeInForce_eq : EqDecision TimeInForce.
Proof. solve_decision. Defined.
#[export] Instance SelfTradePrevention_eq : EqDecision SelfTradePrevention.
Proof. solve_decision. Defined.
#[export] Instance OrderStatus_eq : EqDecision OrderStatus.
Proof. solve_decision. Defined.
#[export] Instance EventType_eq : EqDecision EventType.
Proof. solve_decision. Defined.
#[export] Instance RejectReason_eq : EqDecision RejectReason.
Proof. solve_decision. Defined.
#[export] Instance SessionPhase_eq : EqDecision SessionPhase.
Proof. solve_decision. Defined.

(** The values of the enumerations, by which arrays are indexed. *)
Definition type_code (t : OrderType) : Z :=
  match t with T_LIMIT => 0 | T_IOC => 1 | T_FOK => 2 | T_POST_ONLY => 3 | T_ICEBERG => 4 | T_STOP => 5
             | T_PEG => 6 | T_MARKET => 7 | T_HIDDEN => 8 | T_AON => 9 end.
Definition tif_code (t : TimeInForce) : Z :=
  match t with TIF_DAY => 0 | TIF_GTC => 1 | TIF_IOC => 2 | TIF_FOK => 3 | TIF_GTD => 4 | TIF_GTX => 5 end.
Definition status_code (s : OrderStatus) : Z :=
  match s with S_NEW => 0 | S_OPEN => 1 | S_PARTIALLY_FILLED => 2 | S_FILLED => 3 | S_CANCELLED => 4
             | S_REJECTED => 5 | S_EXPIRED => 6 | S_REPLACED => 7 end.
Definition reasons : list RejectReason :=
  [R_NONE; R_PRICE_OUT_OF_RANGE; R_QTY_ZERO_OR_NEGATIVE; R_POOL_EXHAUSTED; R_POST_ONLY_WOULD_CROSS;
   R_FOK_NOT_FILLABLE; R_SELF_TRADE_BLOCKED; R_DUPLICATE_ID; R_LOCKED_MARKET; R_CROSSED_MARKET; R_HALTED;
   R_MIN_QTY_NOT_MET; R_LULD_BAND_BREACH; R_SSR_RESTRICTED; R_REDUCE_ONLY_NO_POSITION; R_RATE_LIMITED;
   R_MARKET_CLOSED; R_MMP_TRIPPED].
Fixpoint index_of {A} `{EqDecision A} (x : A) (l : list A) : Z :=
  match l with [] => 0 | y :: l => if decide (x = y) then 0 else 1 + index_of x l end.
Definition reason_code (r : RejectReason) : Z := index_of r reasons.

(** ** Orders and levels *)

Record Order := mkOrder {
  o_id : Z; o_client_id : Z; o_price_ticks : Z; o_total_qty : Z; o_filled_qty : Z; o_displayed_qty : Z;
  o_side : Side; o_type : OrderType; o_tif : TimeInForce; o_status : OrderStatus; o_submit_ts_ns : Z;
  o_expire_ts_ns : Z; o_stop_trigger_ticks : Z; o_peg_offset_ticks : Z; o_peg_cap_ticks : Z;
  o_decision_mid_ticks : Z; o_iceberg_display_size : Z; o_first_fill_ts_ns : Z }.
#[export] Instance eta_order : Settable Order := fun o =>
  mkOrder (o_id o) (o_client_id o) (o_price_ticks o) (o_total_qty o) (o_filled_qty o) (o_displayed_qty o) (o_side o)
    (o_type o) (o_tif o) (o_status o) (o_submit_ts_ns o) (o_expire_ts_ns o) (o_stop_trigger_ticks o)
    (o_peg_offset_ticks o) (o_peg_cap_ticks o) (o_decision_mid_ticks o) (o_iceberg_display_size o) (o_first_fill_ts_ns o).
(** [Order::reset]. *)
Definition reset_order : Order := mkOrder 0 0 0 0 0 0 BUY T_LIMIT TIF_DAY S_NEW 0 0 0 0 0 (-1) 0 0.
Definition remaining_qty (o : Order) : Z := i32 (o_total_qty o - o_filled_qty o).
Definition is_active (o : Order) : bool :=
  bool_decide (o_status o = S_OPEN) || bool_decide (o_status o = S_PARTIALLY_FILLED).
(** What the order holds beyond the displayed part. *)
Definition hidden_qty (o : Order) : Z := i32 (o_total_qty o - o_filled_qty o - o_displayed_qty o).

Record PriceLevel := mkLevel { queue : list Z; total_qty : Z; total_hidden : Z; order_count : Z }.
#[export] Instance eta_level : Settable PriceLevel := fun l => mkLevel (queue l) (total_qty l) (total_hidden l) (order_count l).
Definition empty_level : PriceLevel := mkLevel [] 0 0 0.
(** [PriceLevel::empty]: no head. *)
Definition level_empty (l : PriceLevel) : bool := match queue l with [] => true | _ => false end.

Record Trade := mkTrade { exec_id : Z; maker_order_id : Z; taker_order_id : Z; t_price_ticks : Z; t_qty : Z; taker_side : Side; t_ts_ns : Z }.
Definition no_trade : Trade := mkTrade 0 0 0 0 0 BUY 0.

Record BookStats := mkBookStats {
  total_orders_added : Z; total_orders_cancelled : Z; total_orders_replaced : Z; total_orders_rejected : Z;
  total_orders_expired : Z; total_fills : Z; total_volume : Z; total_self_trade_blocks : Z; peak_order_pool_used : Z;
  total_stop_triggers : Z; total_peg_reprices : Z; total_mass_cancels : Z; total_auctions_executed : Z;
  total_mass_quotes : Z; total_tob_changes : Z; total_sweeps : Z; multi_level_sweeps : Z; sum_levels_touched : Z;
  priority_preserved_mods : Z; priority_lost_mods : Z; total_quoted_spread_ticks_obs : Z;
  total_quoted_spread_samples : Z; total_effective_spread_2x_ticks : Z; total_effective_spread_samples : Z }.
#[export] Instance eta_book_stats : Settable BookStats := fun s =>
  mkBookStats (total_orders_added s) (total_orders_cancelled s) (total_orders_replaced s) (total_orders_rejected s)
    (total_orders_expired s) (total_fills s) (total_volume s) (total_self_trade_blocks s) (peak_order_pool_used s)
    (total_stop_triggers s) (total_peg_reprices s) (total_mass_cancels s) (total_auctions_executed s)
    (total_mass_quotes s) (total_tob_changes s) (total_sweeps s) (multi_level_sweeps s) (sum_levels_touched s)
    (priority_preserved_mods s) (priority_lost_mods s) (total_quoted_spread_ticks_obs s)
    (total_quoted_spread_samples s) (total_effective_spread_2x_ticks s) (total_effective_spread_samples s).
Definition new_book_stats : BookStats := mkBookStats 0 0 0 0 0 0 0 0 0 0 0 0 0 0 0 0 0 0 0 0 0 0 0 0.

Record BookEvent := mkEvent {
  ev_type : EventType; ev_order_id : Z; ev_maker_id : Z; ev_price_ticks : Z; ev_qty : Z; ev_status : OrderStatus;
  ev_reason : RejectReason; ev_ts_ns : Z; ev_seq_num : Z; ev_client_id : Z }.
Record TopOfBook := mkTob { tob_bid : Z; tob_ask : Z; tob_bid_qty : Z; tob_ask_qty : Z; tob_bid_count : Z; tob_ask_count : Z }.
Record DepthLevel := mkDepth { dl_price : Z; dl_qty : Z; dl_count : Z }.

(** A counter of 64 bits. *)
Definition inc (x : Z) : Z := u64 (x + 1).
Definition add64 (x n : Z) : Z := u64 (x + n).
(** Of two numbers, the larger, as [if (n > x) x = n]. *)
Definition grow (x n : Z) : Z := if x <? n then n else x.
Definition shrink (x n : Z) : Z := if n <? x then n else x.
Definition is_buy (s : Side) : bool := match s with BUY => true | SELL => false end.
