(* ===== verification/LadderTrades.v ===== *)
(** * LadderTrades: what the ladder book records of every trade

    [FullOrderBook::record_trade] of [orderbook/orderbook_pro.hpp], without the
    book: the tape and the meters that each trade feeds (fees, MiFID sums, flow
    by side, the chain of sides, gaps, Lee-Ready classes, price moves, Kyle's
    lambda, Roll's covariance, latency-arbitrage bursts, volume by price), and
    the queries over them.  A block of [record_trade] is a function of its own
    over the fields that it writes.  Functions that take a logarithm are left
    out: its value is not fixed by the standards. *)
From S2P Require Import Prelude Double Common LadderTypes.

Definition signed_qty (s : Side) (qty : Z) : double := dmul (dbl_of_Z (if is_buy s then 1 else -1)) (dbl_of_Z qty).
Definition ratio_d (n d : Z) : double := if d =? 0 then d_zero else ddiv (dbl_of_Z n) (dbl_of_Z d).

(** ** The tape *)

Definition TAPE_CAP : Z := 1024.
Record Tape := mkTape { tape_ : list Trade; tape_head_ : Z; tape_count_ : Z; next_exec_id_ : Z }.
#[export] Instance eta_tape : Settable Tape := fun t => mkTape (tape_ t) (tape_head_ t) (tape_count_ t) (next_exec_id_ t).
Definition new_tape : Tape := mkTape (replicate (Z.to_nat TAPE_CAP) no_trade) 0 0 1.
Definition tape_push (t : Tape) (maker_id taker_id px qty : Z) (side : Side) (ts : Z) : Tape :=
  t <| tape_ ::= <[Z.to_nat (tape_head_ t mod TAPE_CAP) := mkTrade (next_exec_id_ t) maker_id taker_id px qty side ts]> |>
    <| next_exec_id_ ::= inc |> <| tape_head_ ::= inc |> <| tape_count_ ::= inc |>.
Definition tape_size (t : Tape) : Z := Z.min (tape_count_ t) TAPE_CAP.
Definition tape_at (t : Tape) (i : Z) : Trade := default no_trade (tape_ t !! Z.to_nat (u64 i mod TAPE_CAP)).
(** The [n] last trades, newest first, and all that the ring holds, oldest first. *)
Definition newest (t : Tape) (n : Z) : list Trade :=
  map (fun i => tape_at t (tape_head_ t + TAPE_CAP - 1 - Z.of_nat i)) (seq 0 (Z.to_nat n)).
Definition oldest_first (t : Tape) : list Trade :=
  map (fun k => tape_at t (tape_head_ t + TAPE_CAP - tape_size t + Z.of_nat k)) (seq 0 (Z.to_nat (tape_size t))).
Definition recent_trades (t : Tape) (max_n : Z) : list Trade := newest t (Z.min (tape_size t) max_n).
Definition notional_of (l : list Trade) : Z := foldl (fun s t => i64 (s + t_price_ticks t * t_qty t)) 0 l.
Definition volume_of (l : list Trade) : Z := foldl (fun s t => i64 (s + t_qty t)) 0 l.
Definition tape_vwap_ticks (t : Tape) : Z :=
  if tape_size t =? 0 then -1 else
  let l := newest t (tape_size t) in
  if 0 <? volume_of l then i32 (notional_of l ÷ volume_of l) else -1.
Definition tape_twap_ticks (t : Tape) : Z :=
  if tape_size t =? 0 then -1 else
  i32 (foldl (fun s x => i64 (s + t_price_ticks x)) 0 (newest t (tape_size t)) ÷ tape_size t).
Definition last_n_vwap_ticks (t : Tape) (n : Z) : Z :=
  let l := newest t (Z.min n (tape_size t)) in
  if volume_of l =? 0 then 0 else i32 (notional_of l ÷ volume_of l).
Definition trade_momentum_last_n (t : Tape) (n : Z) : Z :=
  foldl (fun s x => i32 (s + if is_buy (taker_side x) then 1 else -1)) 0 (newest t (Z.min n (tape_size t))).

Record TapeStats := mkTapeStats {
  n_samples : Z; min_qty : Z; max_qty : Z; mean_qty : double; min_price : Z; max_price : Z;
  mean_price : double; price_stddev : double }.
Definition tape_statistics (t : Tape) : TapeStats :=
  match oldest_first t with
  | [] => mkTapeStats 0 0 0 d_zero 0 0 d_zero d_zero
  | first :: _ as l =>
      let n := dbl_of_Z (tape_size t) in
      let mean f := ddiv (dbl_of_Z (sum64 f l)) n in
      let var := ddiv (foldl (fun v x => let d := dsub (dbl_of_Z (t_price_ticks x)) (mean t_price_ticks) in
                                         dadd v (dmul d d)) d_zero l) n in
      mkTapeStats (tape_size t) (foldl (fun m x => shrink m (t_qty x)) (t_qty first) l)
        (foldl (fun m x => grow m (t_qty x)) (t_qty first) l) (mean t_qty)
        (foldl (fun m x => shrink m (t_price_ticks x)) (t_price_ticks first) l)
        (foldl (fun m x => grow m (t_price_ticks x)) (t_price_ticks first) l) (mean t_price_ticks) (dsqrt var)
  end.
Definition trades_per_second (t : Tape) : double :=
  let n := tape_size t in
  if n <? 2 then d_zero else
  let t0 := t_ts_ns (tape_at t (tape_head_ t + TAPE_CAP - n)) in
  let t1 := t_ts_ns (tape_at t (tape_head_ t + TAPE_CAP - 1)) in
  if t1 <=? t0 then d_zero else
  let dt_sec := ddiv (dbl_of_Z (t1 - t0)) (dbl_of_Z 1000000000) in
  if dle dt_sec d_zero then d_zero else ddiv (dbl_of_Z (n - 1)) dt_sec.

(** ** Size classes, fees, MiFID sums *)

Record TradeSizeDistribution := mkSizes {
  small_count : Z; medium_count : Z; large_count : Z; block_count : Z;
  small_volume : Z; medium_volume : Z; large_volume : Z; block_volume : Z }.
#[export] Instance eta_sizes : Settable TradeSizeDistribution := fun s =>
  mkSizes (small_count s) (medium_count s) (large_count s) (block_count s) (small_volume s) (medium_volume s)
    (large_volume s) (block_volume s).
Definition new_sizes : TradeSizeDistribution := mkSizes 0 0 0 0 0 0 0 0.
Definition update_size_distribution (s : TradeSizeDistribution) (qty : Z) : TradeSizeDistribution :=
  let more x := add64 x (u64 qty) in
  if qty <=? 100 then s <| small_count ::= inc |> <| small_volume ::= more |>
  else if qty <=? 1000 then s <| medium_count ::= inc |> <| medium_volume ::= more |>
  else if qty <=? 10000 then s <| large_count ::= inc |> <| large_volume ::= more |>
  else s <| block_count ::= inc |> <| block_volume ::= more |>.

Record Fees := mkFees { taker_fee_bps_ : Z; maker_fee_bps_ : Z; cum_taker_fees_ : Z; cum_maker_fees_ : Z }.
#[export] Instance eta_fees : Settable Fees := fun f =>
  mkFees (taker_fee_bps_ f) (maker_fee_bps_ f) (cum_taker_fees_ f) (cum_maker_fees_ f).
Definition set_fee_bps (f : Fees) (taker_bps maker_bps : Z) : Fees :=
  f <| taker_fee_bps_ := taker_bps |> <| maker_fee_bps_ := maker_bps |>.
Definition fees_on_trade (f : Fees) (notional : Z) : Fees :=
  f <| cum_taker_fees_ ::= fun x => i64 (x + notional * taker_fee_bps_ f) |>
    <| cum_maker_fees_ ::= fun x => i64 (x + notional * maker_fee_bps_ f) |>.

Record MIFIDMetrics := mkMifid {
  num_executions : Z; mifid_volume : Z; total_notional_ticks : Z; sum_effective_spread : Z; sum_signed_price_impact : Z }.
#[export] Instance eta_mifid : Settable MIFIDMetrics := fun m =>
  mkMifid (num_executions m) (mifid_volume m) (total_notional_ticks m) (sum_effective_spread m) (sum_signed_price_impact m).
Definition new_mifid : MIFIDMetrics := mkMifid 0 0 0 0 0.
Definition mifid_on_trade (m : MIFIDMetrics) (mid px qty : Z) (side : Side) : MIFIDMetrics :=
  let m := m <| num_executions ::= inc |> <| mifid_volume ::= fun x => add64 x (u64 qty) |>
             <| total_notional_ticks ::= fun x => i64 (x + px * qty) |> in
  if 0 <? mid then
    m <| sum_effective_spread ::= fun x => i64 (x + Z.abs (px - mid) * 2 * qty) |>
      <| sum_signed_price_impact ::= fun x => i64 (x + (if is_buy side then px - mid else - (px - mid)) * qty) |>
  else m.

(** ** Flow by side *)

Record Flow := mkFlow {
  taker_buy_volume_ : Z; taker_sell_volume_ : Z; taker_buy_count_ : Z; taker_sell_count_ : Z;
  cum_buy_notional_ticks_ : Z; cum_buy_volume_ : Z; cum_sell_notional_ticks_ : Z; cum_sell_volume_ : Z;
  ema_signed_volume_ : double; ema_signed_volume_init_ : bool }.
#[export] Instance eta_flow : Settable Flow := fun f =>
  mkFlow (taker_buy_volume_ f) (taker_sell_volume_ f) (taker_buy_count_ f) (taker_sell_count_ f)
    (cum_buy_notional_ticks_ f) (cum_buy_volume_ f) (cum_sell_notional_ticks_ f) (cum_sell_volume_ f)
    (ema_signed_volume_ f) (ema_signed_volume_init_ f).
Definition new_flow : Flow := mkFlow 0 0 0 0 0 0 0 0 d_zero false.
Definition flow_on_trade (f : Flow) (px qty : Z) (side : Side) : Flow :=
  let vol x := add64 x (u64 qty) in
  let not x := i64 (x + px * qty) in
  let f := if is_buy side
    then f <| taker_buy_volume_ ::= vol |> <| taker_buy_count_ ::= inc |> <| cum_buy_notional_ticks_ ::= not |> <| cum_buy_volume_ ::= vol |>
    else f <| taker_sell_volume_ ::= vol |> <| taker_sell_count_ ::= inc |> <| cum_sell_notional_ticks_ ::= not |> <| cum_sell_volume_ ::= vol |> in
  f <| ema_signed_volume_ ::= fun e => if ema_signed_volume_init_ f
         then dadd (dmul (dratio 1 10) (signed_qty side qty)) (dmul (dratio 9 10) e) else signed_qty side qty |>
    <| ema_signed_volume_init_ := true |>.
Definition flow_imbalance_bps (f : Flow) : Z :=
  let b := i64 (taker_buy_volume_ f) in let s := i64 (taker_sell_volume_ f) in
  if i64 (b + s) =? 0 then 0 else i32 (i64 ((b - s) * 10000) ÷ i64 (b + s)).
Definition vpin_bps (f : Flow) : Z :=
  let b := i64 (taker_buy_volume_ f) in let s := i64 (taker_sell_volume_ f) in
  if i64 (b + s) =? 0 then 0 else u32 (i64 (Z.abs (i64 (b - s)) * 10000) ÷ i64 (b + s)).
Definition side_vwap (notional volume : Z) : Z := if volume =? 0 then 0 else i32 (notional ÷ i64 volume).
Definition buy_vwap_ticks (f : Flow) : Z := side_vwap (cum_buy_notional_ticks_ f) (cum_buy_volume_ f).
Definition sell_vwap_ticks (f : Flow) : Z := side_vwap (cum_sell_notional_ticks_ f) (cum_sell_volume_ f).
Definition buy_vs_sell_vwap_spread_ticks (f : Flow) : Z :=
  if (buy_vwap_ticks f =? 0) || (sell_vwap_ticks f =? 0) then 0 else i32 (buy_vwap_ticks f - sell_vwap_ticks f).

(** ** The chain of sides *)

Record Markov := mkMarkov { markov_prev_side_ : Side; markov_has_prev_ : bool; markov_BB_ : Z; markov_BS_ : Z; markov_SB_ : Z; markov_SS_ : Z }.
#[export] Instance eta_markov : Settable Markov := fun m =>
  mkMarkov (markov_prev_side_ m) (markov_has_prev_ m) (markov_BB_ m) (markov_BS_ m) (markov_SB_ m) (markov_SS_ m).
Definition new_markov : Markov := mkMarkov BUY false 0 0 0 0.
Definition markov_on_trade (m : Markov) (side : Side) : Markov :=
  let m := if markov_has_prev_ m then
             match markov_prev_side_ m, side with
             | BUY, BUY => m <| markov_BB_ ::= inc |>
             | BUY, SELL => m <| markov_BS_ ::= inc |>
             | SELL, BUY => m <| markov_SB_ ::= inc |>
             | SELL, SELL => m <| markov_SS_ ::= inc |>
             end
           else m in
  m <| markov_prev_side_ := side |> <| markov_has_prev_ := true |>.
Definition markov_prob_buy_given_buy (m : Markov) : double := ratio_d (markov_BB_ m) (u64 (markov_BB_ m + markov_BS_ m)).
Definition markov_prob_buy_given_sell (m : Markov) : double := ratio_d (markov_SB_ m) (u64 (markov_SB_ m + markov_SS_ m)).
Definition markov_trend_persistence_bps (m : Markov) : double :=
  let bb_tot := u64 (markov_BB_ m + markov_BS_ m) in let ss_tot := u64 (markov_SB_ m + markov_SS_ m) in
  if (bb_tot =? 0) || (ss_tot =? 0) then d_zero else
  dmul (dsub (dadd (ddiv (dbl_of_Z (markov_BB_ m)) (dbl_of_Z bb_tot)) (ddiv (dbl_of_Z (markov_SS_ m)) (dbl_of_Z ss_tot))) d_one)
    (dbl_of_Z 10000).

(** ** Gaps between trades *)

Record Gaps := mkGaps {
  prev_trade_ts_ns_for_gap_ : Z; gap_min_ns_ : Z; gap_max_ns_ : Z; gap_sum_ns_ : Z; gap_count_ : Z;
  gap_var_mean_ : double; gap_var_M2_ : double; gap_var_count_ : Z;
  gap_prev_value_ : double; gap_prev_has_ : bool; gap_autocorr_xy_sum_ : double; gap_autocorr_xx_sum_ : double }.
#[export] Instance eta_gaps : Settable Gaps := fun g =>
  mkGaps (prev_trade_ts_ns_for_gap_ g) (gap_min_ns_ g) (gap_max_ns_ g) (gap_sum_ns_ g) (gap_count_ g) (gap_var_mean_ g)
    (gap_var_M2_ g) (gap_var_count_ g) (gap_prev_value_ g) (gap_prev_has_ g) (gap_autocorr_xy_sum_ g) (gap_autocorr_xx_sum_ g).
Definition new_gaps : Gaps := mkGaps 0 UINT64_MAX 0 0 0 d_zero d_zero 0 d_zero false d_zero d_zero.
Definition gaps_on_trade (g : Gaps) (ts : Z) : Gaps :=
  (if negb (prev_trade_ts_ns_for_gap_ g =? 0) && (prev_trade_ts_ns_for_gap_ g <? ts) then
     let gap := ts - prev_trade_ts_ns_for_gap_ g in
     let gap_d := dbl_of_Z gap in
     let n := inc (gap_var_count_ g) in
     let delta := dsub gap_d (gap_var_mean_ g) in
     let mean := dadd (gap_var_mean_ g) (ddiv delta (dbl_of_Z n)) in
     let g := g <| gap_min_ns_ ::= fun x => shrink x gap |> <| gap_max_ns_ ::= fun x => grow x gap |>
                <| gap_sum_ns_ ::= fun x => add64 x gap |> <| gap_count_ ::= inc |> <| gap_var_count_ := n |>
                <| gap_var_mean_ := mean |> <| gap_var_M2_ ::= fun x => dadd x (dmul delta (dsub gap_d mean)) |> in
     let g := if gap_prev_has_ g
       then g <| gap_autocorr_xy_sum_ ::= fun x => dadd x (dmul gap_d (gap_prev_value_ g)) |>
              <| gap_autocorr_xx_sum_ ::= fun x => dadd x (dmul (gap_prev_value_ g) (gap_prev_value_ g)) |>
       else g in
     g <| gap_prev_value_ := gap_d |> <| gap_prev_has_ := true |>
   else g) <| prev_trade_ts_ns_for_gap_ := ts |>.
Definition inter_trade_gap_min_ns (g : Gaps) : Z := if gap_count_ g =? 0 then 0 else gap_min_ns_ g.
Definition inter_trade_gap_mean_ns (g : Gaps) : Z := if gap_count_ g =? 0 then 0 else gap_sum_ns_ g `div` gap_count_ g.
Definition trade_gap_variance_ns_sq (g : Gaps) : double :=
  if gap_var_count_ g <? 2 then d_zero else ddiv (gap_var_M2_ g) (dbl_of_Z (gap_var_count_ g - 1)).
Definition trade_clustering_fano (g : Gaps) : double :=
  if (gap_var_count_ g <? 2) || dle (gap_var_mean_ g) d_zero then d_zero
  else ddiv (trade_gap_variance_ns_sq g) (gap_var_mean_ g).
Definition inter_trade_gap_autocorr_lag1 (g : Gaps) : double :=
  if dle (gap_autocorr_xx_sum_ g) d_zero then d_zero else
  let acf := ddiv (gap_autocorr_xy_sum_ g) (gap_autocorr_xx_sum_ g) in
  if dlt acf (dneg d_one) then dneg d_one else if dgt acf d_one then d_one else acf.

(** ** Classification and price impact

    All of these compare the price with that of the trade before,
    [prev_trade_px_for_lambda_], -1 before the first. *)

Record LeeReady := mkLr { lr_total_classified_ : Z; lr_correct_ : Z; lr_buy_classified_ : Z; lr_sell_classified_ : Z; lr_unclassifiable_ : Z }.
#[export] Instance eta_lr : Settable LeeReady := fun l =>
  mkLr (lr_total_classified_ l) (lr_correct_ l) (lr_buy_classified_ l) (lr_sell_classified_ l) (lr_unclassifiable_ l).
Definition classify (mid px prev : Z) : option Side :=
  if (0 <? mid) && negb (px =? mid) then Some (if mid <? px then BUY else SELL)
  else if (0 <=? prev) && negb (px =? prev) then Some (if prev <? px then BUY else SELL)
  else None.
Definition lr_on_trade (l : LeeReady) (mid px prev : Z) (side : Side) : LeeReady :=
  match classify mid px prev with
  | Some c =>
      let l := l <| lr_total_classified_ ::= inc |> in
      let l := if is_buy c then l <| lr_buy_classified_ ::= inc |> else l <| lr_sell_classified_ ::= inc |> in
      if bool_decide (c = side) then l <| lr_correct_ ::= inc |> else l
  | None => l <| lr_unclassifiable_ ::= inc |>
  end.
Definition lee_ready_accuracy (l : LeeReady) : double := ratio_d (lr_correct_ l) (lr_total_classified_ l).

Record PriceChanges := mkPc { price_change_hist_ : list Z; price_change_total_ : Z }.
#[export] Instance eta_pc : Settable PriceChanges := fun p => mkPc (price_change_hist_ p) (price_change_total_ p).
Definition bump (l : list Z) (i : Z) : list Z := aset l i (inc (aget l i)).
Definition price_change_on_trade (p : PriceChanges) (px prev : Z) : PriceChanges :=
  if 0 <=? prev then
    let clip := Z.max (-4) (Z.min 4 (i32 (px - prev))) in
    p <| price_change_hist_ ::= fun h => bump h (clip + 4) |> <| price_change_total_ ::= inc |>
  else p.
Definition hist_bin (l : list Z) (i : Z) : Z := if i <? alen l then aget l i else 0.
Definition price_change_hist_zero_fraction (p : PriceChanges) : double := ratio_d (aget (price_change_hist_ p) 4) (price_change_total_ p).
Definition price_change_hist_tail_fraction (p : PriceChanges) : double :=
  ratio_d (u64 (aget (price_change_hist_ p) 0 + aget (price_change_hist_ p) 8)) (price_change_total_ p).

Record Kyle := mkKyle {
  cum_price_volume_product_ : double; cum_signed_volume_sq_ : double;
  cum_pv_buy_ : double; cum_pv_sell_ : double; cum_vsq_buy_ : double; cum_vsq_sell_ : double }.
#[export] Instance eta_kyle : Settable Kyle := fun k =>
  mkKyle (cum_price_volume_product_ k) (cum_signed_volume_sq_ k) (cum_pv_buy_ k) (cum_pv_sell_ k) (cum_vsq_buy_ k) (cum_vsq_sell_ k).
Definition new_kyle : Kyle := mkKyle d_zero d_zero d_zero d_zero d_zero d_zero.
Definition kyle_on_trade (k : Kyle) (px prev qty : Z) (side : Side) : Kyle :=
  if 0 <=? prev then
    let dp := dbl_of_Z (px - prev) in
    let v := signed_qty side qty in
    let pv x := dadd x (dmul dp v) in
    let sq x := dadd x (dmul v v) in
    let k := k <| cum_price_volume_product_ ::= pv |> <| cum_signed_volume_sq_ ::= sq |> in
    if is_buy side then k <| cum_pv_buy_ ::= pv |> <| cum_vsq_buy_ ::= sq |>
    else k <| cum_pv_sell_ ::= pv |> <| cum_vsq_sell_ ::= sq |>
  else k.
Definition quotient_pos (x y : double) : double := if dle y d_zero then d_zero else ddiv x y.
Definition kyle_lambda (k : Kyle) : double := quotient_pos (cum_price_volume_product_ k) (cum_signed_volume_sq_ k).
Definition kyle_lambda_abs (k : Kyle) : double := dabs (kyle_lambda k).
Definition kyle_lambda_buy (k : Kyle) : double := quotient_pos (cum_pv_buy_ k) (cum_vsq_buy_ k).
Definition kyle_lambda_sell (k : Kyle) : double := quotient_pos (cum_pv_sell_ k) (cum_vsq_sell_ k).
Definition kyle_lambda_buy_abs (k : Kyle) : double := dabs (kyle_lambda_buy k).
Definition kyle_lambda_sell_abs (k : Kyle) : double := dabs (kyle_lambda_sell k).

Record Roll := mkRoll {
  roll_xy_sum_ : double; roll_x_sum_ : double; roll_y_sum_ : double; roll_pair_count_ : Z; roll_prev_dp_ : double; roll_prev_dp_has_ : bool }.
#[export] Instance eta_roll : Settable Roll := fun r =>
  mkRoll (roll_xy_sum_ r) (roll_x_sum_ r) (roll_y_sum_ r) (roll_pair_count_ r) (roll_prev_dp_ r) (roll_prev_dp_has_ r).
Definition new_roll : Roll := mkRoll d_zero d_zero d_zero 0 d_zero false.
Definition roll_on_trade (r : Roll) (px prev : Z) : Roll :=
  if 0 <=? prev then
    let dp := dbl_of_Z (px - prev) in
    let r := if roll_prev_dp_has_ r
      then r <| roll_xy_sum_ ::= fun x => dadd x (dmul dp (roll_prev_dp_ r)) |> <| roll_x_sum_ ::= fun x => dadd x dp |>
             <| roll_y_sum_ ::= fun x => dadd x (roll_prev_dp_ r) |> <| roll_pair_count_ ::= inc |>
      else r in
    r <| roll_prev_dp_ := dp |> <| roll_prev_dp_has_ := true |>
  else r.
Definition roll_implied_spread_ticks (r : Roll) : double :=
  if roll_pair_count_ r =? 0 then d_zero else
  let n := dbl_of_Z (roll_pair_count_ r) in
  let cov := dsub (ddiv (roll_xy_sum_ r) n) (dmul (ddiv (roll_x_sum_ r) n) (ddiv (roll_y_sum_ r) n)) in
  if dge cov d_zero then d_zero else dmul (dbl_of_Z 2) (dsqrt (dneg cov)).
Definition roll_implied_half_spread_ticks (r : Roll) : double := ddiv (roll_implied_spread_ticks r) (dbl_of_Z 2).

(** ** Times of fills *)

Record FillTimes := mkTimes { larb_window_ns_ : Z; larb_last_fill_ts_ : Z; larb_last_side_ : Side; larb_same_side_fast_ : Z;
  last_fill_ts_ns_ : Z; last_buy_fill_ts_ns_ : Z; last_sell_fill_ts_ns_ : Z }.
#[export] Instance eta_times : Settable FillTimes := fun t =>
  mkTimes (larb_window_ns_ t) (larb_last_fill_ts_ t) (larb_last_side_ t) (larb_same_side_fast_ t) (last_fill_ts_ns_ t)
    (last_buy_fill_ts_ns_ t) (last_sell_fill_ts_ns_ t).
Definition new_times : FillTimes := mkTimes 0 0 BUY 0 0 0 0.
Definition times_on_trade (t : FillTimes) (side : Side) (ts : Z) : FillTimes :=
  let fast := (0 <? larb_window_ns_ t) && negb (last_fill_ts_ns_ t =? 0) && (last_fill_ts_ns_ t <? ts) &&
              (ts - last_fill_ts_ns_ t <=? larb_window_ns_ t) && bool_decide (side = larb_last_side_ t) in
  let t := if fast then t <| larb_same_side_fast_ ::= inc |> else t in
  let t := t <| larb_last_side_ := side |> <| larb_last_fill_ts_ := ts |> <| last_fill_ts_ns_ := ts |> in
  if is_buy side then t <| last_buy_fill_ts_ns_ := ts |> else t <| last_sell_fill_ts_ns_ := ts |>.

(** ** All of them *)

Record TradeMeters := mkMeters {
  tm_tape : Tape; size_dist_ : TradeSizeDistribution; tm_fees : Fees; mifid_enabled_ : bool; mifid_ : MIFIDMetrics;
  tm_flow : Flow; tm_markov : Markov; tm_gaps : Gaps; largest_single_trade_qty_ : Z; tm_lr : LeeReady;
  tm_changes : PriceChanges; tm_kyle : Kyle; tm_roll : Roll; prev_trade_px_for_lambda_ : Z; tm_times : FillTimes;
  volume_at_price_ : gmap Z Z }.
#[export] Instance eta_meters : Settable TradeMeters := fun m =>
  mkMeters (tm_tape m) (size_dist_ m) (tm_fees m) (mifid_enabled_ m) (mifid_ m) (tm_flow m) (tm_markov m) (tm_gaps m)
    (largest_single_trade_qty_ m) (tm_lr m) (tm_changes m) (tm_kyle m) (tm_roll m) (prev_trade_px_for_lambda_ m)
    (tm_times m) (volume_at_price_ m).
Definition new_meters : TradeMeters :=
  mkMeters new_tape new_sizes (mkFees 0 0 0 0) false new_mifid new_flow new_markov new_gaps 0 (mkLr 0 0 0 0 0)
    (mkPc (replicate 9 0) 0) new_kyle new_roll (-1) new_times ∅.
(** [levels] bounds the price grid; [mid] is the book's mid price at the trade. *)
Definition meters_on_trade (levels : Z) (m : TradeMeters) (maker_id taker_id px qty : Z) (side : Side) (ts mid : Z) : TradeMeters :=
  let prev := prev_trade_px_for_lambda_ m in
  m <| tm_tape ::= fun t => tape_push t maker_id taker_id px qty side ts |>
    <| size_dist_ ::= fun s => update_size_distribution s qty |>
    <| tm_fees ::= fun f => fees_on_trade f (i64 (px * qty)) |>
    <| mifid_ ::= fun x => if mifid_enabled_ m then mifid_on_trade x mid px qty side else x |>
    <| tm_flow ::= fun f => flow_on_trade f px qty side |> <| tm_markov ::= fun k => markov_on_trade k side |>
    <| tm_gaps ::= fun g => gaps_on_trade g ts |> <| largest_single_trade_qty_ ::= fun x => grow x qty |>
    <| tm_lr ::= fun l => lr_on_trade l mid px prev side |> <| tm_changes ::= fun p => price_change_on_trade p px prev |>
    <| tm_kyle ::= fun k => kyle_on_trade k px prev qty side |> <| tm_roll ::= fun r => roll_on_trade r px prev |>
    <| prev_trade_px_for_lambda_ := px |> <| tm_times ::= fun t => times_on_trade t side ts |>
    <| volume_at_price_ ::= fun v => if (0 <=? px) && (px <? levels) then <[px := add64 (default 0 (v !! px)) (u64 qty)]> v else v |>.
