(* ===== verification/LadderSamples.v ===== *)
(** * LadderSamples: what the ladder book samples from its top

    The samplers of [orderbook/orderbook_pro.hpp], each called when its user
    wants a sample: order-flow imbalance, changes of the top, time-weighted
    spread and mid, spread bias, regimes and histograms, rings of mid prices,
    the smoothed imbalance and the survival of resting orders.  A sampler is a
    function over the record of the fields that it keeps; what it sees of the
    book is a [Top]: best prices and the quantities shown at them.  The clock
    reading is an argument. *)
From S2P Require Import Prelude Double Common LadderTypes LadderTrades.

Record Top := mkTop { top_bid : Z; top_ask : Z; top_bid_qty : Z; top_ask_qty : Z }.
Definition sees_bid (t : Top) : bool := negb (top_bid t =? NO_BID_TICKS).
Definition sees_ask (t : Top) : bool := negb (top_ask t =? NO_ASK_TICKS).
Definition sees_both (t : Top) : bool := sees_bid t && sees_ask t.
Definition top_mid (t : Top) : Z := i32 (top_bid t + top_ask t) ÷ 2.
Definition top_spread (t : Top) : Z := i32 (top_ask t - top_bid t).

(** ** Order-flow imbalance *)

Record Ofi := mkOfi { last_ofi_bid_ticks_ : Z; last_ofi_ask_ticks_ : Z; last_ofi_bid_qty_ : Z; last_ofi_ask_qty_ : Z; cum_ofi_ : Z }.
Definition ofi_sample (o : Ofi) (t : Top) : Z * Ofi :=
  let cur_bid_qty := if sees_bid t then top_bid_qty t else 0 in
  let cur_ask_qty := if sees_ask t then top_ask_qty t else 0 in
  let cur_bid := if sees_bid t then top_bid t else 0 in
  let cur_ask := if sees_ask t then top_ask t else 0 in
  let delta := if last_ofi_bid_ticks_ o <=? cur_bid then i32 (cur_bid_qty - last_ofi_bid_qty_ o) else 0 in
  let delta := if cur_ask <=? last_ofi_ask_ticks_ o then i64 (delta - i32 (cur_ask_qty - last_ofi_ask_qty_ o)) else delta in
  (delta, mkOfi cur_bid cur_ask cur_bid_qty cur_ask_qty (i64 (cum_ofi_ o + delta))).

Record OfiCk := mkOfiCk {
  ofi_prev_bid_ticks_ : Z; ofi_prev_ask_ticks_ : Z; ofi_prev_bid_qty_ : Z; ofi_prev_ask_qty_ : Z; ofi_cumulative_ : Z; ofi_samples_ : Z }.
#[export] Instance eta_ofick : Settable OfiCk := fun o =>
  mkOfiCk (ofi_prev_bid_ticks_ o) (ofi_prev_ask_ticks_ o) (ofi_prev_bid_qty_ o) (ofi_prev_ask_qty_ o) (ofi_cumulative_ o) (ofi_samples_ o).
Definition ofi_ck_sample (o : OfiCk) (t : Top) : OfiCk :=
  if negb (sees_both t) then o else
  let prev := o <| ofi_prev_bid_ticks_ := top_bid t |> <| ofi_prev_ask_ticks_ := top_ask t |>
                <| ofi_prev_bid_qty_ := top_bid_qty t |> <| ofi_prev_ask_qty_ := top_ask_qty t |> <| ofi_samples_ ::= inc |> in
  if ofi_prev_bid_ticks_ o =? NO_BID_TICKS then prev else
  let dw_b := if ofi_prev_bid_ticks_ o <? top_bid t then top_bid_qty t
              else if top_bid t <? ofi_prev_bid_ticks_ o then i32 (- ofi_prev_bid_qty_ o)
              else i32 (top_bid_qty t - ofi_prev_bid_qty_ o) in
  let dw_a := if ofi_prev_ask_ticks_ o <? top_ask t then ofi_prev_ask_qty_ o
              else if top_ask t <? ofi_prev_ask_ticks_ o then i32 (- top_ask_qty t)
              else i32 (ofi_prev_ask_qty_ o - top_ask_qty t) in
  prev <| ofi_cumulative_ ::= fun x => i64 (x + (dw_b - dw_a)) |>.
Definition ofi_per_sample (o : OfiCk) : double :=
  if ofi_samples_ o <? 2 then d_zero else ddiv (dbl_of_Z (ofi_cumulative_ o)) (dbl_of_Z (ofi_samples_ o - 1)).

(** ** Changes of the top *)

Record TobWatch := mkTobWatch {
  last_observed_bid_ticks_ : Z; last_observed_ask_ticks_ : Z; last_tob_change_ts_ns_ : Z; total_tob_life_ns_ : Z;
  spread_compression_threshold_ticks_ : Z; spread_compression_events_ : Z; quote_flicker_count_ : Z;
  tob_unchanged_streak_ : Z; max_tob_unchanged_streak_ : Z }.
#[export] Instance eta_tobwatch : Settable TobWatch := fun w =>
  mkTobWatch (last_observed_bid_ticks_ w) (last_observed_ask_ticks_ w) (last_tob_change_ts_ns_ w) (total_tob_life_ns_ w)
    (spread_compression_threshold_ticks_ w) (spread_compression_events_ w) (quote_flicker_count_ w)
    (tob_unchanged_streak_ w) (max_tob_unchanged_streak_ w).
Definition tob_changed (w : TobWatch) (t : Top) : bool :=
  negb (top_bid t =? last_observed_bid_ticks_ w) || negb (top_ask t =? last_observed_ask_ticks_ w).
(** The clock is read only on a change, and [stats_.total_tob_changes] is then
    counted by the book. *)
Definition tob_poll (w : TobWatch) (t : Top) (last_fill now : Z) : TobWatch :=
  if negb (tob_changed w t) then
    let w := w <| tob_unchanged_streak_ ::= inc |> in
    w <| max_tob_unchanged_streak_ ::= fun m => grow m (tob_unchanged_streak_ w) |>
  else
    let last := last_tob_change_ts_ns_ w in
    let compressed := (0 <? spread_compression_threshold_ticks_ w) && sees_both t &&
                      (top_spread t <? spread_compression_threshold_ticks_ w) in
    w <| tob_unchanged_streak_ := 0 |>
      <| quote_flicker_count_ ::= fun x => if negb (last =? 0) && (last_fill <? last) then inc x else x |>
      <| total_tob_life_ns_ ::= fun x => if negb (last =? 0) && (last <? now) then add64 x (now - last) else x |>
      <| last_tob_change_ts_ns_ := now |> <| last_observed_bid_ticks_ := top_bid t |> <| last_observed_ask_ticks_ := top_ask t |>
      <| spread_compression_events_ ::= fun x => if compressed then inc x else x |>.

(** ** Time-weighted spread and mid *)

Record TwSpread := mkTws { last_spread_sample_ts_ns_ : Z; time_weighted_spread_ticks_x_ns_ : Z; total_spread_dt_ns_ : Z }.
#[export] Instance eta_tws : Settable TwSpread := fun w =>
  mkTws (last_spread_sample_ts_ns_ w) (time_weighted_spread_ticks_x_ns_ w) (total_spread_dt_ns_ w).
Definition tws_sample (w : TwSpread) (t : Top) (now : Z) : TwSpread :=
  let last := last_spread_sample_ts_ns_ w in
  if negb (sees_both t) then w else
  if last =? 0 then w <| last_spread_sample_ts_ns_ := now |> else
  if last <? now then
    w <| time_weighted_spread_ticks_x_ns_ ::= fun x => u64 (x + u64 (top_spread t) * (now - last)) |>
      <| total_spread_dt_ns_ ::= fun x => add64 x (now - last) |> <| last_spread_sample_ts_ns_ := now |>
  else w.
Definition mean_time_weighted_spread_ticks (w : TwSpread) : double :=
  ratio_d (time_weighted_spread_ticks_x_ns_ w) (total_spread_dt_ns_ w).

Record TwMid := mkTwm { last_twmid_sample_ts_ns_ : Z; last_twmid_sample_ticks_ : Z; twmid_sum_ticks_x_ns_ : Z; twmid_total_dt_ns_ : Z }.
#[export] Instance eta_twm : Settable TwMid := fun w =>
  mkTwm (last_twmid_sample_ts_ns_ w) (last_twmid_sample_ticks_ w) (twmid_sum_ticks_x_ns_ w) (twmid_total_dt_ns_ w).
Definition twm_sample (w : TwMid) (t : Top) (now : Z) : TwMid :=
  let last := last_twmid_sample_ts_ns_ w in
  let seen w := w <| last_twmid_sample_ts_ns_ := now |> <| last_twmid_sample_ticks_ := top_mid t |> in
  if negb (sees_both t) then w else
  if last =? 0 then seen w else
  if last <? now then
    seen (w <| twmid_sum_ticks_x_ns_ ::= fun x => i64 (x + last_twmid_sample_ticks_ w * i64 (now - last)) |>
            <| twmid_total_dt_ns_ ::= fun x => add64 x (now - last) |>)
  else w.
Definition mean_time_weighted_mid_ticks (w : TwMid) : double := ratio_d (twmid_sum_ticks_x_ns_ w) (twmid_total_dt_ns_ w).

(** ** Bias, queues and regimes of the spread *)

Record TobMicro := mkMicro {
  one_sided_bid_only_ : Z; one_sided_ask_only_ : Z; spread_bias_ask_side_ : Z; spread_bias_bid_side_ : Z;
  spread_bias_neutral_ : Z; last_tob_bid_qty_observed_ : Z; last_tob_ask_qty_observed_ : Z;
  queue_replenish_bid_ : Z; queue_replenish_ask_ : Z; queue_consume_bid_ : Z; queue_consume_ask_ : Z }.
#[export] Instance eta_micro : Settable TobMicro := fun m =>
  mkMicro (one_sided_bid_only_ m) (one_sided_ask_only_ m) (spread_bias_ask_side_ m) (spread_bias_bid_side_ m)
    (spread_bias_neutral_ m) (last_tob_bid_qty_observed_ m) (last_tob_ask_qty_observed_ m)
    (queue_replenish_bid_ m) (queue_replenish_ask_ m) (queue_consume_bid_ m) (queue_consume_ask_ m).
Definition micro_poll (m : TobMicro) (t : Top) : TobMicro :=
  if sees_bid t && negb (sees_ask t) then m <| one_sided_bid_only_ ::= inc |> else
  if negb (sees_bid t) && sees_ask t then m <| one_sided_ask_only_ ::= inc |> else
  if negb (sees_both t) then m else
  let ask_offset := i32 (top_ask t - top_mid t) in
  let bid_offset := i32 (top_mid t - top_bid t) in
  let m := if ask_offset <? bid_offset then m <| spread_bias_ask_side_ ::= inc |>
           else if bid_offset <? ask_offset then m <| spread_bias_bid_side_ ::= inc |>
           else m <| spread_bias_neutral_ ::= inc |> in
  let lb := last_tob_bid_qty_observed_ m in let la := last_tob_ask_qty_observed_ m in
  let m := if 0 <=? lb then if lb <? top_bid_qty t then m <| queue_replenish_bid_ ::= inc |>
                            else if top_bid_qty t <? lb then m <| queue_consume_bid_ ::= inc |> else m else m in
  let m := if 0 <=? la then if la <? top_ask_qty t then m <| queue_replenish_ask_ ::= inc |>
                            else if top_ask_qty t <? la then m <| queue_consume_ask_ ::= inc |> else m else m in
  m <| last_tob_bid_qty_observed_ := top_bid_qty t |> <| last_tob_ask_qty_observed_ := top_ask_qty t |>.

Record Regime := mkRegime {
  spread_regime_tight_thresh_ : Z; spread_regime_wide_thresh_ : Z;
  spread_regime_tight_count_ : Z; spread_regime_normal_count_ : Z; spread_regime_wide_count_ : Z }.
#[export] Instance eta_regime : Settable Regime := fun r =>
  mkRegime (spread_regime_tight_thresh_ r) (spread_regime_wide_thresh_ r) (spread_regime_tight_count_ r)
    (spread_regime_normal_count_ r) (spread_regime_wide_count_ r).
Definition set_spread_regime_thresholds (r : Regime) (tight wide : Z) : Regime :=
  r <| spread_regime_tight_thresh_ := tight |> <| spread_regime_wide_thresh_ := wide |>.
Definition regime_sample (r : Regime) (t : Top) : Regime :=
  if negb (sees_both t) || (spread_regime_tight_thresh_ r <=? 0) || (spread_regime_wide_thresh_ r <=? 0) then r else
  if top_spread t <=? spread_regime_tight_thresh_ r then r <| spread_regime_tight_count_ ::= inc |>
  else if spread_regime_wide_thresh_ r <=? top_spread t then r <| spread_regime_wide_count_ ::= inc |>
  else r <| spread_regime_normal_count_ ::= inc |>.

(** ** Histograms and rings *)

Definition SPREAD_HIST_BINS : Z := 32.
Definition QTY_HIST_BINS : Z := 16.
Record Hists := mkHists { best_bid_qty_hist_ : list Z; best_ask_qty_hist_ : list Z; spread_histogram_ : list Z; spread_hist_total_ : Z }.
#[export] Instance eta_hists : Settable Hists := fun h =>
  mkHists (best_bid_qty_hist_ h) (best_ask_qty_hist_ h) (spread_histogram_ h) (spread_hist_total_ h).
Definition new_hists : Hists :=
  mkHists (replicate (Z.to_nat QTY_HIST_BINS) 0) (replicate (Z.to_nat QTY_HIST_BINS) 0) (replicate (Z.to_nat SPREAD_HIST_BINS) 0) 0.
Fixpoint log2_bin (fuel : nat) (v b : Z) : Z :=
  match fuel with
  | O => b
  | S fuel => if (1 <? v) && (b <? QTY_HIST_BINS - 1) then log2_bin fuel (Z.shiftr v 1) (b + 1) else b
  end.
(** At most 15 halvings: the bin stops there. *)
Definition qty_to_log2_bin (q : Z) : Z := if q <=? 0 then 0 else log2_bin 15 (u32 q) 0.
Definition qty_hist_sample (h : Hists) (t : Top) : Hists :=
  let h := if sees_bid t then h <| best_bid_qty_hist_ ::= fun l => bump l (qty_to_log2_bin (top_bid_qty t)) |> else h in
  if sees_ask t then h <| best_ask_qty_hist_ ::= fun l => bump l (qty_to_log2_bin (top_ask_qty t)) |> else h.
(** A negative spread converts to a huge [size_t] and so to the last bin. *)
Definition spread_hist_sample (h : Hists) (t : Top) : Hists :=
  if negb (sees_both t) then h else
  h <| spread_histogram_ ::= fun l => bump l (Z.min (u64 (top_spread t)) (SPREAD_HIST_BINS - 1)) |> <| spread_hist_total_ ::= inc |>.
Fixpoint median_bin (l : list Z) (target cum i : Z) : Z :=
  match l with
  | [] => SPREAD_HIST_BINS - 1
  | x :: l => if target <? u64 (cum + x) then i else median_bin l target (u64 (cum + x)) (i + 1)
  end.
Definition spread_histogram_median_ticks (h : Hists) : Z :=
  if spread_hist_total_ h =? 0 then -1 else median_bin (spread_histogram_ h) (spread_hist_total_ h `div` 2) 0 0.

Definition MID_RING_CAP : Z := 16.
Record PriceRing := mkPring { pr_ring : list Z; pr_head : Z; pr_count : Z }.
Definition new_pring : PriceRing := mkPring (replicate (Z.to_nat MID_RING_CAP) 0) 0 0.
Definition pr_push (r : PriceRing) (px : Z) : PriceRing :=
  mkPring (aset (pr_ring r) (pr_head r mod MID_RING_CAP) px) (inc (pr_head r))
    (if pr_count r <? MID_RING_CAP then pr_count r + 1 else pr_count r).
Definition pr_momentum (r : PriceRing) : Z :=
  if pr_count r <? 2 then 0 else
  i32 (aget (pr_ring r) (u64 (pr_head r + MID_RING_CAP - 1) mod MID_RING_CAP) -
       aget (pr_ring r) (u64 (pr_head r + MID_RING_CAP - pr_count r) mod MID_RING_CAP)).
Inductive MidTrend := MT_UNKNOWN | MT_UP | MT_DOWN | MT_SIDEWAYS.
Definition classify_mid_trend (r : PriceRing) (band : Z) : MidTrend :=
  if pr_count r <? 2 then MT_UNKNOWN else
  if band <? pr_momentum r then MT_UP else if pr_momentum r <? i32 (- band) then MT_DOWN else MT_SIDEWAYS.

Record EmaImb := mkEma { ema_imbalance_alpha_ : double; ema_imbalance_bps_value_ : double; ema_imbalance_init_ : bool }.
#[export] Instance eta_ema : Settable EmaImb := fun e =>
  mkEma (ema_imbalance_alpha_ e) (ema_imbalance_bps_value_ e) (ema_imbalance_init_ e).
Definition set_ema_imbalance_alpha (e : EmaImb) (a : double) : EmaImb :=
  if dgt a d_zero && dle a d_one then e <| ema_imbalance_alpha_ := a |> else e.
Definition ema_sample (e : EmaImb) (t : Top) : EmaImb :=
  let total := top_bid_qty t + top_ask_qty t in
  if negb (sees_both t) || (total =? 0) then e else
  let cur := ddiv (dbl_of_Z ((top_bid_qty t - top_ask_qty t) * 10000)) (dbl_of_Z total) in
  e <| ema_imbalance_bps_value_ ::= fun v => if ema_imbalance_init_ e
         then dadd (dmul (ema_imbalance_alpha_ e) cur) (dmul (dsub d_one (ema_imbalance_alpha_ e)) v) else cur |>
    <| ema_imbalance_init_ := true |>.

Record Survival := mkSurvival { maker_survival_total_polls_ : Z; maker_survival_total_orders_ : Z; maker_survival_survivors_ : Z; maker_survival_prev_ids_ : list Z }.
(** [ids] are the resting orders now, in the order the index is walked. *)
Definition survival_sample (s : Survival) (ids : list Z) : Survival :=
  let prev := maker_survival_prev_ids_ s in
  mkSurvival (inc (maker_survival_total_polls_ s)) (add64 (maker_survival_total_orders_ s) (alen prev))
    (add64 (maker_survival_survivors_ s) (count_if (fun id => bool_decide (id ∈ ids)) prev)) ids.
Definition maker_survival_ratio (s : Survival) : double := ratio_d (maker_survival_survivors_ s) (maker_survival_total_orders_ s).

(** ** All of them *)

Record Samplers := mkSamplers {
  sm_ofi : Ofi; sm_ofi_ck : OfiCk; sm_tob : TobWatch; sm_tws : TwSpread; sm_twm : TwMid; sm_micro : TobMicro;
  sm_regime : Regime; sm_hists : Hists; mid_ring_ : PriceRing; microprice_ring_ : PriceRing; sm_ema : EmaImb;
  sm_survival : Survival; reference_set_ : bool; reference_price_ticks_ : Z }.
#[export] Instance eta_samplers : Settable Samplers := fun s =>
  mkSamplers (sm_ofi s) (sm_ofi_ck s) (sm_tob s) (sm_tws s) (sm_twm s) (sm_micro s) (sm_regime s) (sm_hists s)
    (mid_ring_ s) (microprice_ring_ s) (sm_ema s) (sm_survival s) (reference_set_ s) (reference_price_ticks_ s).
Definition new_samplers : Samplers :=
  mkSamplers (mkOfi 0 0 0 0 0) (mkOfiCk NO_BID_TICKS NO_ASK_TICKS 0 0 0 0)
    (mkTobWatch NO_BID_TICKS NO_ASK_TICKS 0 0 (-1) 0 0 0 0) (mkTws 0 0 0) (mkTwm 0 0 0 0)
    (mkMicro 0 0 0 0 0 (-1) (-1) 0 0 0 0) (mkRegime 0 0 0 0 0) new_hists new_pring new_pring
    (mkEma (dratio 1 10) d_zero false) (mkSurvival 0 0 0 []) false 0.
