(* ===== verification/Ladder.v ===== *)
(** * Ladder: the full order book

    [FullOrderBook] of [orderbook/orderbook_pro.hpp]: the pool of orders, the
    ladder of price levels, matching with self-trade prevention, icebergs and
    hidden orders, [submit], [cancel] and [modify], and what they drive
    (one-cancels-other pairs, brackets, market-maker protection).  The other
    order types, auctions and sessions are in [LadderOps], queries in
    [LadderViews].

    The size of the grid, of the pool, the successive readings of the clock and
    the order of hash maps are the environment [BookEnv].  The event callback
    is the list of what it was given.  A vector used as a stack has its top
    first.  Loops whose end depends on the book, and the nesting of [submit] in
    itself through brackets, carry fuel and give [None] when it runs out. *)
From S2P Require Import Prelude Double Common LadderTypes LadderTrades LadderSamples.

Class BookEnv := {
  LEVELS : Z;
  MAX_ORDERS : Z;
  clock : nat -> Z;
  env_hash : HashOrder }.
#[export] Existing Instance env_hash | 0.

(** ** The state *)

Record Config := mkConfig {
  stp_policy_ : SelfTradePrevention; client_to_firm_ : gmap Z Z; session_phase_ : SessionPhase; in_auction_mode_ : bool;
  halted_ : bool; halt_reason_ : cstr; halt_reopen_pending_ : bool; luld_enabled_ : bool; luld_low_ticks_ : Z;
  luld_high_ticks_ : Z; luld_auto_halt_ : bool; luld_halt_to_auction_ : bool; ice_jitter_bps_ : Z; ice_jitter_rng_ : Z;
  trailing_ratchet_on_mid_ : bool; in_internal_submit_ : bool; burst_window_ns_ : Z; ssr_active_ : bool; ssr_armed_ : bool;
  ssr_trigger_px_ : Z; fill_band_threshold_ticks_ : Z; slippage_guard_threshold_ticks_ : Z }.
#[export] Instance eta_config : Settable Config := fun c =>
  mkConfig (stp_policy_ c) (client_to_firm_ c) (session_phase_ c) (in_auction_mode_ c) (halted_ c) (halt_reason_ c)
    (halt_reopen_pending_ c) (luld_enabled_ c) (luld_low_ticks_ c) (luld_high_ticks_ c) (luld_auto_halt_ c)
    (luld_halt_to_auction_ c) (ice_jitter_bps_ c) (ice_jitter_rng_ c) (trailing_ratchet_on_mid_ c) (in_internal_submit_ c)
    (burst_window_ns_ c) (ssr_active_ c) (ssr_armed_ c) (ssr_trigger_px_ c) (fill_band_threshold_ticks_ c)
    (slippage_guard_threshold_ticks_ c).
Definition new_config : Config :=
  mkConfig STP_NONE ∅ CONTINUOUS false false [] false false 0 0 false false 0 11400714819323198485 false false 0 false
    false 0 0 0.

Record AuditRecord := mkAudit { au_ts_ns : Z; au_seq_no : Z; au_order_id : Z; au_price_ticks : Z; au_qty : Z; au_event : EventType; au_side : Side; au_result : OrderStatus }.
Record DeltaMessage := mkDelta { dm_type : Z; dm_side : Z; dm_price_ticks : Z; dm_new_qty : Z; dm_sequence_no : Z }.
Record Wire := mkWire {
  reads : nat; event_cb_ : bool; events : list BookEvent; drop_copy_cb_ : bool; drop_copy_client_ : Z;
  drop_copies : list BookEvent; drop_copy_events_ : Z; next_event_seq_ : Z; last_emitted_seq_ : Z;
  audit_enabled_ : bool; audit_log_ : list AuditRecord; audit_seq_ : Z;
  delta_queue_enabled_ : bool; delta_queue_ : list DeltaMessage; delta_seq_ : Z }.
#[export] Instance eta_wire : Settable Wire := fun w =>
  mkWire (reads w) (event_cb_ w) (events w) (drop_copy_cb_ w) (drop_copy_client_ w) (drop_copies w) (drop_copy_events_ w)
    (next_event_seq_ w) (last_emitted_seq_ w) (audit_enabled_ w) (audit_log_ w) (audit_seq_ w) (delta_queue_enabled_ w)
    (delta_queue_ w) (delta_seq_ w).
Definition new_wire : Wire := mkWire 0 false [] false 0 [] 0 0 0 false [] 0 false [] 0.

Record AccountExposure := mkExposure {
  open_buy_qty : Z; open_sell_qty : Z; filled_net_qty : Z; filled_gross_volume : Z; orders_submitted : Z;
  orders_cancelled : Z; fills_received : Z; aggressive_volume : Z; passive_volume : Z }.
#[export] Instance eta_exposure : Settable AccountExposure := fun e =>
  mkExposure (open_buy_qty e) (open_sell_qty e) (filled_net_qty e) (filled_gross_volume e) (orders_submitted e)
    (orders_cancelled e) (fills_received e) (aggressive_volume e) (passive_volume e).
Definition no_exposure : AccountExposure := mkExposure 0 0 0 0 0 0 0 0 0.
Record RateBucket := mkBucket { rb_tokens : double; rb_capacity : double; refill_per_sec : double; last_refill_ns : Z }.
Record MmpConfig := mkMmp { mmp_window_ns : Z; max_fills : Z; fills_in_window : Z; window_start_ns : Z; tripped : bool }.
#[export] Instance eta_mmp : Settable MmpConfig := fun m =>
  mkMmp (mmp_window_ns m) (max_fills m) (fills_in_window m) (window_start_ns m) (tripped m).
Record AccountVwap := mkVwap { av_notional : Z; av_volume : Z }.
Record Accounts := mkAccounts {
  account_exposure_ : gmap Z AccountExposure; stuffing_threshold_ : Z; stuffing_flagged_ : gmap Z bool;
  cancel_counters_ : gmap Z Z; total_stuffing_flags_ : Z; client_rejections_ : gmap Z Z; account_vwap_ : gmap Z AccountVwap;
  rate_buckets_ : gmap Z RateBucket; rate_limiting_enabled_ : bool; rate_limited_rejects_ : Z; mmp_ : gmap Z MmpConfig;
  mmp_enabled_ : bool; mmp_pending_trips_ : list Z; mmp_trips_total_ : Z }.
#[export] Instance eta_accounts : Settable Accounts := fun a =>
  mkAccounts (account_exposure_ a) (stuffing_threshold_ a) (stuffing_flagged_ a) (cancel_counters_ a) (total_stuffing_flags_ a)
    (client_rejections_ a) (account_vwap_ a) (rate_buckets_ a) (rate_limiting_enabled_ a) (rate_limited_rejects_ a) (mmp_ a)
    (mmp_enabled_ a) (mmp_pending_trips_ a) (mmp_trips_total_ a).
Definition new_accounts : Accounts := mkAccounts ∅ 0 ∅ ∅ 0 ∅ ∅ ∅ false 0 ∅ false [] 0.

Record BracketSpec := mkBracket { exit_side : Side; tp_price_ticks : Z; sl_trigger_ticks : Z; br_qty : Z; br_client_id : Z }.
#[export] Instance eta_bracket : Settable BracketSpec := fun s =>
  mkBracket (exit_side s) (tp_price_ticks s) (sl_trigger_ticks s) (br_qty s) (br_client_id s).
Record MocOrder := mkMoc { moc_side : Side; moc_qty : Z; moc_client_id : Z; moc_id : Z }.
Record LocOrder := mkLoc { loc_side : Side; loc_price_ticks : Z; loc_qty : Z; loc_client_id : Z; loc_id : Z }.
Record Linked := mkLinked {
  oco_partner_ : gmap Z Z; oco_pending_cancel_ : list Z; oco_triggered_cancels_ : Z;
  bracket_specs_ : gmap Z BracketSpec; bracket_pending_ : list BracketSpec; brackets_armed_ : Z;
  moc_queue_ : list MocOrder; moc_submitted_ : Z; moc_cancelled_unfilled_ : Z;
  loc_queue_ : list LocOrder; loc_submitted_ : Z; loc_cancelled_unfilled_ : Z }.
#[export] Instance eta_linked : Settable Linked := fun l =>
  mkLinked (oco_partner_ l) (oco_pending_cancel_ l) (oco_triggered_cancels_ l) (bracket_specs_ l) (bracket_pending_ l)
    (brackets_armed_ l) (moc_queue_ l) (moc_submitted_ l) (moc_cancelled_unfilled_ l) (loc_queue_ l) (loc_submitted_ l)
    (loc_cancelled_unfilled_ l).
Definition new_linked : Linked := mkLinked ∅ [] 0 ∅ [] 0 [] 0 0 [] 0 0.

(** Counters of what happened to orders, and of the book's phases. *)
Record OrderCounts := mkOrderCounts {
  cum_is_ticks_qty_ : Z; cum_is_qty_ : Z; first_fill_count_ : Z; first_fill_sum_ns_ : Z; first_fill_max_ns_ : Z;
  first_fill_min_ns_ : Z; burst_last_submit_ns_ : Z; burst_runs_count_ : Z; burst_in_run_count_ : Z;
  completion_filled_fully_ : Z; completion_cancelled_partial_ : Z; completion_cancelled_unfilled_ : Z;
  completion_expired_partial_ : Z; completion_expired_unfilled_ : Z; maker_fills_buy_side_ : Z; maker_fills_sell_side_ : Z;
  cancellations_by_buy_ : Z; cancellations_by_sell_ : Z; iceberg_refresh_count_ : Z; queue_depth_arrival_sum_ : Z;
  queue_depth_arrival_count_ : Z; queue_depth_arrival_max_ : Z; age_stats_count_ : Z; age_stats_sum_ns_ : Z; age_stats_max_ns_ : Z }.
#[export] Instance eta_order_counts : Settable OrderCounts := fun c =>
  mkOrderCounts (cum_is_ticks_qty_ c) (cum_is_qty_ c) (first_fill_count_ c) (first_fill_sum_ns_ c) (first_fill_max_ns_ c)
    (first_fill_min_ns_ c) (burst_last_submit_ns_ c) (burst_runs_count_ c) (burst_in_run_count_ c)
    (completion_filled_fully_ c) (completion_cancelled_partial_ c) (completion_cancelled_unfilled_ c)
    (completion_expired_partial_ c) (completion_expired_unfilled_ c) (maker_fills_buy_side_ c) (maker_fills_sell_side_ c)
    (cancellations_by_buy_ c) (cancellations_by_sell_ c) (iceberg_refresh_count_ c) (queue_depth_arrival_sum_ c)
    (queue_depth_arrival_count_ c) (queue_depth_arrival_max_ c) (age_stats_count_ c) (age_stats_sum_ns_ c) (age_stats_max_ns_ c).
Definition new_order_counts : OrderCounts := mkOrderCounts 0 0 0 0 0 UINT64_MAX 0 0 0 0 0 0 0 0 0 0 0 0 0 0 0 0 0 0 0.
Record BookCounts := mkBookCounts {
  firm_self_trade_blocks_ : Z; fills_within_band_ : Z; fills_outside_band_ : Z; slippage_guard_violations_ : Z;
  nbbo_violations_count_ : Z; rejections_by_reason_ : list Z; accepts_by_tif_ : list Z; accepts_by_type_ : list Z;
  luld_breaches_ : Z; halt_auction_reopens_ : Z; gtx_cancelled_after_cross_ : Z; auction_wash_trade_flags_ : Z;
  last_auction_wash_clients_ : Z; auction_extensions_ : Z; trailing_ratchets_ : Z; ssr_trips_ : Z }.
#[export] Instance eta_book_counts : Settable BookCounts := fun c =>
  mkBookCounts (firm_self_trade_blocks_ c) (fills_within_band_ c) (fills_outside_band_ c) (slippage_guard_violations_ c)
    (nbbo_violations_count_ c) (rejections_by_reason_ c) (accepts_by_tif_ c) (accepts_by_type_ c) (luld_breaches_ c)
    (halt_auction_reopens_ c) (gtx_cancelled_after_cross_ c) (auction_wash_trade_flags_ c) (last_auction_wash_clients_ c)
    (auction_extensions_ c) (trailing_ratchets_ c) (ssr_trips_ c).
Definition new_book_counts : BookCounts :=
  mkBookCounts 0 0 0 0 0 (replicate 18 0) (replicate 6 0) (replicate 10 0) 0 0 0 0 0 0 0 0.

Record Book := mkBook {
  pool_ : gmap Z Order; free_list_ : list Z; levels_ : gmap Z PriceLevel; id_index_ : gmap Z Z;
  best_bid_ticks_ : Z; best_ask_ticks_ : Z; active_orders_ : Z; pool_high_water_ : Z; next_order_id_ : Z;
  last_trade_ticks_ : Z; stop_orders_ : list Z; peg_orders_ : list Z; stats_ : BookStats; cfg : Config; wire : Wire;
  accts : Accounts; linked : Linked; ocounts : OrderCounts; bcounts : BookCounts; meters : TradeMeters; samplers : Samplers }.
#[export] Instance eta_book : Settable Book := fun b =>
  mkBook (pool_ b) (free_list_ b) (levels_ b) (id_index_ b) (best_bid_ticks_ b) (best_ask_ticks_ b) (active_orders_ b)
    (pool_high_water_ b) (next_order_id_ b) (last_trade_ticks_ b) (stop_orders_ b) (peg_orders_ b) (stats_ b) (cfg b)
    (wire b) (accts b) (linked b) (ocounts b) (bcounts b) (meters b) (samplers b).
Definition slots (n : Z) : list Z := map Z.of_nat (seq 0 (Z.to_nat n)).
Definition new_book `{BookEnv} : Book :=
  mkBook ∅ (slots MAX_ORDERS) ∅ ∅ NO_BID_TICKS NO_ASK_TICKS 0 0 1 (-1) [] [] new_book_stats new_config new_wire
    new_accounts new_linked new_order_counts new_book_counts new_meters new_samplers.

(** ** The pool and the ladder *)

Section book.
Context {env : BookEnv}.
Implicit Types b : Book.

Definition in_range (price_ticks : Z) : bool := (PRICE_MIN_TICKS <=? price_ticks) && (price_ticks <? LEVELS).
Definition order_at b (s : Z) : Order := default reset_order (pool_ b !! s).
Definition set_order b (s : Z) (f : Order -> Order) : Book := b <| pool_ ::= <[s := f (order_at b s)]> |>.
(** [levels_[p]]; the grid is an array, so [p] must be in range. *)
Definition level_at b (p : Z) : PriceLevel := default empty_level (levels_ b !! p).
Definition set_level b (p : Z) (f : PriceLevel -> PriceLevel) : Book := b <| levels_ ::= <[p := f (level_at b p)]> |>.

(** One reading of the clock. *)
Definition mono_ns_now b : Z * Book := (clock (reads (wire b)), b <| wire ::= fun w => w <| reads ::= S |> |>).

Definition alloc_order b : option (Z * Book) :=
  match free_list_ b with
  | [] => None
  | s :: free =>
      let n := inc (active_orders_ b) in
      let b := b <| free_list_ := free |> <| pool_ ::= <[s := reset_order]> |> <| active_orders_ := n |> in
      Some (s, if pool_high_water_ b <? n
               then b <| pool_high_water_ := n |> <| stats_ ::= fun st => st <| peak_order_pool_used := n |> |> else b)
  end.
Definition free_order b (s : Z) : Book := b <| free_list_ ::= cons s |> <| active_orders_ ::= fun n => u64 (n - 1) |>.

Definition enqueue_at_level b (s : Z) : Book :=
  let o := order_at b s in
  set_level b (o_price_ticks o) (fun l =>
    l <| queue ::= fun q => q ++ [s] |> <| total_qty ::= fun x => i32 (x + o_displayed_qty o) |>
      <| total_hidden ::= fun x => i32 (x + hidden_qty o) |> <| order_count ::= fun x => i32 (x + 1) |>).
Definition drop_count (x : Z) : Z := if 0 <? x then x - 1 else x.
Definition remove_slot (s : Z) (q : list Z) : list Z := filter (fun x => x <> s) q.
Definition unlink_from_level b (s : Z) : Book :=
  let o := order_at b s in
  set_level b (o_price_ticks o) (fun l =>
    l <| queue ::= remove_slot s |> <| total_qty ::= fun x => i32 (x - o_displayed_qty o) |>
      <| total_hidden ::= fun x => i32 (x - hidden_qty o) |> <| order_count ::= drop_count |>).

(** The nearest price with something shown, downwards or upwards. *)
Fixpoint scan_prices b (step : Z) (n : nat) (p : Z) : option Z :=
  match n with
  | O => None
  | S n => if 0 <? total_qty (level_at b p) then Some p else scan_prices b step n (p + step)
  end.
Definition refresh_best_bid_from b (start : Z) : Book :=
  if (start <? PRICE_MIN_TICKS) || (LEVELS <=? start) then b <| best_bid_ticks_ := NO_BID_TICKS |>
  else b <| best_bid_ticks_ := default NO_BID_TICKS (scan_prices b (-1) (Z.to_nat (start + 1)) start) |>.
Definition refresh_best_ask_from b (start : Z) : Book :=
  if (start <? PRICE_MIN_TICKS) || (LEVELS <=? start) then b <| best_ask_ticks_ := NO_ASK_TICKS |>
  else b <| best_ask_ticks_ := default NO_ASK_TICKS (scan_prices b 1 (Z.to_nat (LEVELS - start)) start) |>.
(** The tail of every removal: when a level emptied, its side's best price is
    searched again. *)
Definition refresh_after b (side : Side) (p : Z) : Book :=
  if level_empty (level_at b p) then
    let b := if is_buy side && (p =? best_bid_ticks_ b) then refresh_best_bid_from b (i32 (p - 1)) else b in
    if negb (is_buy side) && (p =? best_ask_ticks_ b) then refresh_best_ask_from b (i32 (p + 1)) else b
  else b.

Definition has_bid b : bool := negb (best_bid_ticks_ b =? NO_BID_TICKS).
Definition has_ask b : bool := negb (best_ask_ticks_ b =? NO_ASK_TICKS).
Definition mid_ticks b : Z := if has_bid b && has_ask b then i32 (best_bid_ticks_ b + best_ask_ticks_ b) ÷ 2 else -1.
Definition find_order b (id : Z) : option Order := order_at b <$> id_index_ b !! id.

(** ** Events, audit, deltas *)

Definition emit b (ev : EventType) (order_id maker_id price qty : Z) (status : OrderStatus) (rr : RejectReason) (client_id : Z) : Book :=
  let seq := inc (next_event_seq_ (wire b)) in
  let b := b <| wire ::= fun w => w <| next_event_seq_ := seq |> <| last_emitted_seq_ := seq |> |> in
  if negb (event_cb_ (wire b)) && negb (drop_copy_cb_ (wire b)) then b else
  let '(now, b) := mono_ns_now b in
  let e := mkEvent ev order_id maker_id price qty status rr now seq client_id in
  b <| wire ::= fun w =>
    let w := if event_cb_ w then w <| events ::= fun l => l ++ [e] |> else w in
    if drop_copy_cb_ w && negb (client_id =? 0) && (client_id =? drop_copy_client_ w)
    then w <| drop_copy_events_ ::= inc |> <| drop_copies ::= fun l => l ++ [e] |> else w |>.
Definition push_audit b (ev : EventType) (order_id : Z) (side : Side) (price qty : Z) (result : OrderStatus) : Book :=
  if negb (audit_enabled_ (wire b)) then b else
  let '(now, b) := mono_ns_now b in
  let seq := inc (audit_seq_ (wire b)) in
  b <| wire ::= fun w => w <| audit_seq_ := seq |> <| audit_log_ ::= fun l => l ++ [mkAudit now seq order_id price qty ev side result] |> |>.
Definition push_delta b (type side price new_qty : Z) : Book :=
  if negb (delta_queue_enabled_ (wire b)) then b else
  let seq := inc (delta_seq_ (wire b)) in
  b <| wire ::= fun w => w <| delta_seq_ := seq |> <| delta_queue_ ::= fun l => l ++ [mkDelta type side price new_qty seq] |> |>.
Definition side_char (s : Side) : Z := if is_buy s then 66 else 83.

(** ** Accounts *)

Definition on_account (cid : Z) (f : AccountExposure -> AccountExposure) (a : Accounts) : Accounts :=
  if cid =? 0 then a else
  a <| account_exposure_ ::= fun m => <[cid := f (default no_exposure (m !! cid))]> m |>.
Definition tag_aggressor_volume (cid qty : Z) : Accounts -> Accounts :=
  on_account cid (fun e => e <| aggressive_volume ::= fun x => add64 x (u64 qty) |>).
Definition tag_passive_volume (cid qty : Z) : Accounts -> Accounts :=
  on_account cid (fun e => e <| passive_volume ::= fun x => add64 x (u64 qty) |>).
Definition exposure_on_submit (cid : Z) (side : Side) (qty : Z) : Accounts -> Accounts :=
  on_account cid (fun e =>
    (if is_buy side then e <| open_buy_qty ::= fun x => i64 (x + qty) |> else e <| open_sell_qty ::= fun x => i64 (x + qty) |>)
      <| orders_submitted ::= inc |>).
Definition exposure_on_cancel (cid : Z) (side : Side) (remaining : Z) (a : Accounts) : Accounts :=
  if cid =? 0 then a else
  let a := on_account cid (fun e =>
    (if is_buy side then e <| open_buy_qty ::= fun x => i64 (x - remaining) |> else e <| open_sell_qty ::= fun x => i64 (x - remaining) |>)
      <| orders_cancelled ::= inc |>) a in
  if stuffing_threshold_ a <=? 0 then a else
  let cnt := u32 (default 0 (cancel_counters_ a !! cid) + 1) in
  let a := a <| cancel_counters_ ::= <[cid := cnt]> |> in
  if (stuffing_threshold_ a <? cnt) && negb (default false (stuffing_flagged_ a !! cid))
  then a <| stuffing_flagged_ ::= <[cid := true]> |> <| total_stuffing_flags_ ::= inc |> else a.
Definition exposure_on_fill (cid : Z) (side : Side) (qty : Z) : Accounts -> Accounts :=
  on_account cid (fun e =>
    (if is_buy side
     then e <| open_buy_qty ::= fun x => i64 (x - qty) |> <| filled_net_qty ::= fun x => i64 (x + qty) |>
     else e <| open_sell_qty ::= fun x => i64 (x - qty) |> <| filled_net_qty ::= fun x => i64 (x - qty) |>)
      <| filled_gross_volume ::= fun x => i64 (x + qty) |> <| fills_received ::= inc |>).
Definition account_vwap_on_fill (cid px qty : Z) (a : Accounts) : Accounts :=
  if cid =? 0 then a else
  let v := default (mkVwap 0 0) (account_vwap_ a !! cid) in
  a <| account_vwap_ ::= <[cid := mkVwap (i64 (av_notional v + px * qty)) (i64 (av_volume v + qty))]> |>.
Definition on_accts (f : Accounts -> Accounts) b : Book := b <| accts ::= f |>.

(** [mmp_on_maker_fill]: the clock is read only for an account that is watched. *)
Definition mmp_on_maker_fill b (cid : Z) : Book :=
  if negb (mmp_enabled_ (accts b)) || (cid =? 0) then b else
  match mmp_ (accts b) !! cid with
  | None => b
  | Some m =>
      if tripped m then b else
      let '(now, b) := mono_ns_now b in
      let m := if mmp_window_ns m <? u64 (now - window_start_ns m)
               then m <| window_start_ns := now |> <| fills_in_window := 0 |> else m in
      let m := m <| fills_in_window ::= fun x => u32 (x + 1) |> in
      if max_fills m <? fills_in_window m
      then b <| accts ::= fun a => a <| mmp_ ::= <[cid := m <| tripped := true |>]> |> <| mmp_pending_trips_ ::= cons cid |> |>
      else b <| accts ::= fun a => a <| mmp_ ::= <[cid := m]> |> |>
  end.
(** [1e9] of the refill is exact as a double. *)
Definition consume_rate_token b (cid : Z) : bool * Book :=
  match rate_buckets_ (accts b) !! cid with
  | None => (true, b)
  | Some rb =>
      let '(now, b) := mono_ns_now b in
      let rb := if last_refill_ns rb <? now
        then mkBucket (let t := dadd (rb_tokens rb) (ddiv (dmul (dbl_of_Z (now - last_refill_ns rb)) (refill_per_sec rb)) (dbl_of_Z 1000000000)) in
                       if dlt t (rb_capacity rb) then t else rb_capacity rb)
               (rb_capacity rb) (refill_per_sec rb) now
        else rb in
      if dlt (rb_tokens rb) d_one
      then (false, b <| accts ::= fun a => a <| rate_buckets_ ::= <[cid := rb]> |> <| rate_limited_rejects_ ::= inc |> |>)
      else (true, b <| accts ::= fun a => a <| rate_buckets_ ::=
              <[cid := mkBucket (dsub (rb_tokens rb) d_one) (rb_capacity rb) (refill_per_sec rb) (last_refill_ns rb)]> |> |>)
  end.

Definition same_trading_entity b (x y : Z) : bool :=
  if (x =? 0) || (y =? 0) then false else
  if x =? y then true else
  match client_to_firm_ (cfg b) !! x, client_to_firm_ (cfg b) !! y with
  | Some f, Some g => f =? g
  | _, _ => false
  end.

(** ** Counting *)

Definition count_order (f : OrderCounts -> OrderCounts) b : Book := b <| ocounts ::= f |>.
Definition count_book (f : BookCounts -> BookCounts) b : Book := b <| bcounts ::= f |>.
Definition count_stat (f : BookStats -> BookStats) b : Book := b <| stats_ ::= f |>.
Definition tally_rejection (r : RejectReason) : Book -> Book :=
  count_book (fun c => c <| rejections_by_reason_ ::= fun l => bump l (reason_code r) |>).
Definition tally_accept (t : OrderType) (tif : TimeInForce) : Book -> Book :=
  count_book (fun c => c <| accepts_by_type_ ::= fun l => bump l (type_code t) |> <| accepts_by_tif_ ::= fun l => bump l (tif_code tif) |>).
Definition record_first_fill_latency (submit_ts fill_ts : Z) : Book -> Book :=
  count_order (fun c =>
    if (submit_ts =? 0) || (fill_ts <? submit_ts) then c else
    let lat := fill_ts - submit_ts in
    c <| first_fill_count_ ::= inc |> <| first_fill_sum_ns_ ::= fun x => add64 x lat |>
      <| first_fill_max_ns_ ::= fun x => grow x lat |> <| first_fill_min_ns_ ::= fun x => shrink x lat |>).
Definition record_lifecycle_age b (submit_ts : Z) : Book :=
  let '(now, b) := mono_ns_now b in
  count_order (fun c =>
    if (submit_ts =? 0) || (now <? submit_ts) then c else
    c <| age_stats_count_ ::= inc |> <| age_stats_sum_ns_ ::= fun x => add64 x (now - submit_ts) |>
      <| age_stats_max_ns_ ::= fun x => grow x (now - submit_ts) |>) b.

(** [record_trade]. *)
Definition record_trade b (maker_id taker_id px qty : Z) (side : Side) (ts : Z) : Book :=
  let mid := mid_ticks b in
  let b := b <| meters ::= fun m => meters_on_trade LEVELS m maker_id taker_id px qty side ts mid |>
             <| last_trade_ticks_ := px |>
             <| stats_ ::= fun s => s <| total_fills ::= inc |> <| total_volume ::= fun x => add64 x (u64 qty) |> |> in
  if ssr_armed_ (cfg b) && negb (ssr_active_ (cfg b)) && (px <=? ssr_trigger_px_ (cfg b))
  then count_book (fun c => c <| ssr_trips_ ::= inc |>) (b <| cfg ::= fun c => c <| ssr_active_ := true |> |>) else b.

(** ** Pairs and brackets *)

Definition oco_on_complete b (id : Z) : Book :=
  match oco_partner_ (linked b) !! id with
  | None => b
  | Some partner => b <| linked ::= fun l => l <| oco_partner_ ::= fun m => delete partner (delete id m) |>
                                               <| oco_pending_cancel_ ::= cons partner |> |>
  end.
Definition bracket_on_full_fill b (id : Z) : Book :=
  match bracket_specs_ (linked b) !! id with
  | None => b
  | Some spec => b <| linked ::= fun l => l <| bracket_pending_ ::= cons spec |> <| bracket_specs_ ::= delete id |> |>
  end.
Definition forget_bracket (id : Z) b : Book := b <| linked ::= fun l => l <| bracket_specs_ ::= delete id |> |>.
Definition forget_id (id : Z) b : Book := b <| id_index_ ::= delete id |>.

(** ** Cancelling *)

Definition cancel_internal b (s : Z) (emit_event : bool) : Book :=
  let o := order_at b s in
  if negb (is_active o) then b else
  let p := o_price_ticks o in
  let b := refresh_after (unlink_from_level b s) (o_side o) p in
  let leftover := remaining_qty o in
  let b := forget_id (o_id o) (set_order b s (fun o => o <| o_status := S_CANCELLED |>)) in
  let b := if emit_event then emit b E_CANCEL (o_id o) 0 p leftover S_CANCELLED R_NONE (o_client_id o) else b in
  let b := push_audit b E_CANCEL (o_id o) (o_side o) p leftover S_CANCELLED in
  let b := record_lifecycle_age (on_accts (exposure_on_cancel (o_client_id o) (o_side o) leftover) b) (o_submit_ts_ns o) in
  let b := count_order (fun c =>
    let c := if o_filled_qty o =? 0 then c <| completion_cancelled_unfilled_ ::= inc |> else c <| completion_cancelled_partial_ ::= inc |> in
    if is_buy (o_side o) then c <| cancellations_by_buy_ ::= inc |> else c <| cancellations_by_sell_ ::= inc |>) b in
  let b := free_order (forget_bracket (o_id o) (oco_on_complete b (o_id o))) s in
  let b := count_stat (fun st => st <| total_orders_cancelled ::= inc |>) b in
  push_delta b (if level_empty (level_at b p) then 68 else 77) (side_char (o_side o)) p (total_qty (level_at b p)).

(** Replaces the element at the slot by the last one, as the vectors of pending
    orders are erased. *)
Definition swap_remove (i : nat) {A} (l : list A) : list A :=
  match last l with Some x => take (length l - 1) (<[i := x]> l) | None => l end.
Definition cancel_pending_stop b (s : Z) : bool * Book :=
  match list_find (fun x => x = s) (stop_orders_ b) with
  | None => (false, b)
  | Some (i, _) =>
      let o := order_at b s in
      let b := set_order (b <| stop_orders_ ::= swap_remove i |>) s (fun o => o <| o_status := S_CANCELLED |>) in
      let b := emit b E_CANCEL (o_id o) 0 (o_price_ticks o) (remaining_qty o) S_CANCELLED R_NONE (o_client_id o) in
      let b := forget_bracket (o_id o) (oco_on_complete (forget_id (o_id o) b) (o_id o)) in
      (true, count_stat (fun st => st <| total_orders_cancelled ::= inc |>) (free_order b s))
  end.
Definition is_pending_stop (o : Order) : bool := bool_decide (o_type o = T_STOP) && bool_decide (o_status o = S_NEW).

(** [process_oco_pending]: an order that completes takes its partner out of the
    table of pairs, so the stack and the table together bound the turns. *)
Fixpoint oco_loop (fuel : nat) b : Book :=
  match fuel, oco_pending_cancel_ (linked b) with
  | S fuel, pid :: rest =>
      let b := b <| linked ::= fun l => l <| oco_pending_cancel_ := rest |> |> in
      oco_loop fuel
        match id_index_ b !! pid with
        | None => b
        | Some s =>
            let b := b <| linked ::= fun l => l <| oco_triggered_cancels_ ::= inc |> |> in
            if is_pending_stop (order_at b s) then (cancel_pending_stop b s).2 else cancel_internal b s true
        end
  | _, _ => b
  end.
Definition process_oco_pending b : Book :=
  oco_loop (length (oco_pending_cancel_ (linked b)) + size (oco_partner_ (linked b))) b.

Definition cancel b (order_id : Z) : bool * Book :=
  match id_index_ b !! order_id with
  | None => (false, b)
  | Some s =>
      if is_pending_stop (order_at b s)
      then let '(ok, b) := cancel_pending_stop b s in (ok, process_oco_pending b)
      else (true, process_oco_pending (cancel_internal b s true))
  end.
(** [mass_cancel]: the slots are collected before any is cancelled. *)
Definition mass_cancel b (client_id : Z) : Z * Book :=
  let mine := filter (fun s => o_client_id (order_at b s) = client_id) (values (id_index_ b)) in
  let live := filter (fun s => is_active (order_at b s) = true) mine in
  let stops := filter (fun s => is_active (order_at b s) = false /\ is_pending_stop (order_at b s) = true) mine in
  let b := foldl (fun b s => cancel_internal b s true) b live in
  let '(n, b) := foldl (fun '(n, b) s => let '(ok, b) := cancel_pending_stop b s in (if (ok : bool) then n + 1 else n, b))
                   (alen live, b) stops in
  (n, process_oco_pending (count_stat (fun st => st <| total_mass_cancels ::= fun x => add64 x n |>) b)).
Fixpoint mmp_loop (trips : nat) b : Book :=
  match trips, mmp_pending_trips_ (accts b) with
  | S trips, cid :: rest =>
      mmp_loop trips (mass_cancel (b <| accts ::= fun a => a <| mmp_pending_trips_ := rest |> <| mmp_trips_total_ ::= inc |> |>) cid).2
  | _, _ => b
  end.
(** Cancelling trips nobody, so as many turns as are pending. *)
Definition process_mmp_pending b : Book := mmp_loop (length (mmp_pending_trips_ (accts b))) b.
(** ** Matching *)

(** The order behind [s] in a queue. *)
Fixpoint after (s : Z) (q : list Z) : option Z :=
  match q with
  | [] => None
  | x :: q => if x =? s then head q else after s q
  end.
Definition next_of b (p s : Z) : option Z := after s (queue (level_at b p)).

(** The first fill of an order is stamped and its latency counted. *)
Definition stamp_slot (ts : Z) b (s : Z) : Book :=
  let o := order_at b s in
  if o_first_fill_ts_ns o =? 0
  then record_first_fill_latency (o_submit_ts_ns o) ts (set_order b s (fun o => o <| o_first_fill_ts_ns := ts |>)) else b.
(** What a fill of [n] shares tells the accounts, the tape and the listener. *)
Definition fill_told b (mk tk : Order) (n ts : Z) : Book :=
  let px := o_price_ticks mk in
  let b := on_accts (exposure_on_fill (o_client_id mk) (o_side mk) n) b in
  let b := on_accts (exposure_on_fill (o_client_id tk) (o_side tk) n) b in
  let b := on_accts (account_vwap_on_fill (o_client_id mk) px n) b in
  let b := on_accts (account_vwap_on_fill (o_client_id tk) px n) b in
  let b := mmp_on_maker_fill b (o_client_id mk) in
  let dm := o_decision_mid_ticks tk in
  let b := if 0 <? dm then count_order (fun c =>
      c <| cum_is_ticks_qty_ ::= fun x => i64 (x + (if is_buy (o_side tk) then px - dm else dm - px) * n) |>
        <| cum_is_qty_ ::= fun x => add64 x (u64 n) |>) b else b in
  let b := on_accts (tag_aggressor_volume (o_client_id tk) n) b in
  let b := on_accts (tag_passive_volume (o_client_id mk) n) b in
  let b := record_trade b (o_id mk) (o_id tk) px n (o_side tk) ts in
  emit b E_FILL (o_id tk) (o_id mk) px n (if remaining_qty tk =? 0 then S_FILLED else S_PARTIALLY_FILLED) R_NONE (o_client_id tk).
Definition plus_filled (n : Z) (o : Order) : Order := o <| o_filled_qty ::= fun x => i32 (x + n) |>.
(** The fill of maker [m] by taker [t] for [n] shares. *)
Definition fill_pair b (m t n ts : Z) : Book :=
  let b := stamp_slot ts (stamp_slot ts (set_order (set_order b m (plus_filled n)) t (plus_filled n)) m) t in
  fill_told b (order_at b m) (order_at b t) n ts.

(** How much an iceberg shows next: its display size, jittered when asked. *)
Definition ice_show (c : Config) (o : Order) : Z * Config :=
  let show := if 0 <? o_iceberg_display_size o then o_iceberg_display_size o else 100 in
  if ice_jitter_bps_ c <=? 0 then (show, c) else
  let rng := u64 (ice_jitter_rng_ c * 6364136223846793005 + 1442695040888963407) in
  let span := i32 ((show * ice_jitter_bps_ c) ÷ 10000) in
  (if 0 <? span then Z.max 1 (i32 (show + i32 (i32 (Z.shiftr rng 33 mod u64 (2 * span + 1)) - span))) else show,
   c <| ice_jitter_rng_ := rng |>).
(** Refill of a spent iceberg, which goes to the end of the queue. *)
Definition iceberg_refresh b (p m : Z) : Book :=
  let o := order_at b m in
  let '(show, c) := ice_show (cfg b) o in
  let d := Z.min (i32 (o_total_qty o - o_filled_qty o)) show in
  let b := set_order (b <| cfg := c |>) m (fun o => o <| o_displayed_qty := d |>) in
  let b := count_order (fun c => c <| iceberg_refresh_count_ ::= inc |>) b in
  set_level b p (fun l =>
    l <| total_qty ::= fun x => i32 (x + d) |> <| total_hidden ::= fun x => i32 (x - d) |>
      <| queue ::= fun q => if bool_decide (last q = Some m) then q else remove_slot m q ++ [m] |>).
(** What is counted when a maker is done, and what its end sets off. *)
Definition done_told b (o : Order) : Book :=
  let b := record_lifecycle_age b (o_submit_ts_ns o) in
  let b := count_order (fun c =>
    let c := c <| completion_filled_fully_ ::= inc |> in
    if is_buy (o_side o) then c <| maker_fills_buy_side_ ::= inc |> else c <| maker_fills_sell_side_ ::= inc |>) b in
  bracket_on_full_fill (oco_on_complete b (o_id o)) (o_id o).
Definition complete_maker b (p m t n : Z) : Book :=
  let b := set_order b m (fun o => o <| o_status := S_FILLED |>) in
  let o := order_at b m in
  let b := emit b E_FILL (o_id o) (o_id (order_at b t)) (o_price_ticks o) n S_FILLED R_NONE (o_client_id o) in
  let b := set_level b p (fun l => l <| queue ::= remove_slot m |> <| order_count ::= drop_count |>) in
  free_order (done_told (forget_id (o_id o) b) o) m.

(** After the fill of [n] shares: a refill, a completed maker, or a maker that
    stays; the next maker, and the [qty] that is left. *)
Definition trade_end b (p t m n qty : Z) : Book * option Z * Z :=
  let o := order_at b m in
  let next := next_of b p m in
  if (o_displayed_qty o =? 0) && (0 <? i32 (o_total_qty o - o_filled_qty o)) && bool_decide (o_type o = T_ICEBERG)
  then (iceberg_refresh b p m, next, qty)
  else if o_total_qty o <=? o_filled_qty o then (complete_maker b p m t n, next, qty)
  else (set_order b m (fun o => o <| o_status := S_PARTIALLY_FILLED |>), next, qty).
Definition trade_one b (p t m qty ts : Z) : Book * option Z * Z :=
  let n := Z.min qty (o_displayed_qty (order_at b m)) in
  let b := fill_pair b m t n ts in
  let b := set_level b p (fun l => l <| total_qty ::= fun x => i32 (x - n) |>) in
  let b := set_order b m (fun o => o <| o_displayed_qty ::= fun x => i32 (x - n) |>) in
  trade_end b p t m n (i32 (qty - n)).
(** Whether self-trade prevention steps in between the two orders. *)
Definition self_trade b (m t : Z) : bool :=
  negb (bool_decide (stp_policy_ (cfg b) = STP_NONE)) &&
  same_trading_entity b (o_client_id (order_at b m)) (o_client_id (order_at b t)).
Definition count_self_trade b (m t : Z) : Book :=
  let b := count_stat (fun s => s <| total_self_trade_blocks ::= inc |>) b in
  if negb (o_client_id (order_at b m) =? o_client_id (order_at b t))
  then count_book (fun c => c <| firm_self_trade_blocks_ ::= inc |>) b else b.
(** One turn of [match_at_level]: maker [m] of level [p] against taker [t] with
    [qty] left; the next maker and what is left. *)
Definition match_one b (p t m qty ts : Z) : Book * option Z * Z :=
  if self_trade b m t then
    let b := count_self_trade b m t in
    match stp_policy_ (cfg b) with
    | STP_CANCEL_NEWEST => (b, None, 0)
    | STP_CANCEL_OLDEST => (cancel_internal b m true, next_of b p m, qty)
    | STP_CANCEL_BOTH => (cancel_internal b m true, None, 0)
    | STP_NONE | STP_DECREMENT_AND_CXL => trade_one b p t m qty ts
    end
  else trade_one b p t m qty ts.
Fixpoint match_at_level (fuel : nat) b (p t : Z) (m : option Z) (qty ts : Z) : option (Book * Z) :=
  match m with
  | None => Some (b, qty)
  | Some m =>
      if qty <=? 0 then Some (b, qty) else
      match fuel with
      | O => None
      | S fuel => let '(b, next, qty) := match_one b p t m qty ts in match_at_level fuel b p t next qty ts
      end
  end.
(** The loop of [match_against] over the levels that the taker's price reaches. *)
Fixpoint match_levels (fuel : nat) b (t qty ts levels : Z) : option (Book * Z * Z) :=
  let tk := order_at b t in
  let buy := is_buy (o_side tk) in
  let p := if buy then best_ask_ticks_ b else best_bid_ticks_ b in
  let reaches := if buy then has_ask b && (p <=? o_price_ticks tk) else has_bid b && (o_price_ticks tk <=? p) in
  if (qty <=? 0) || negb reaches then Some (b, qty, levels) else
  match fuel with
  | O => None
  | S fuel =>
      match match_at_level fuel b p t (head (queue (level_at b p))) qty ts with
      | None => None
      | Some (b, qty_left) =>
          let b := if level_empty (level_at b p)
            then (if buy then refresh_best_ask_from b (i32 (best_ask_ticks_ b + 1))
                  else refresh_best_bid_from b (i32 (best_bid_ticks_ b - 1)))
            else b in
          match_levels fuel b t qty_left ts (if qty_left <? qty then levels + 1 else levels)
      end
  end.
(** What a sweep is counted as, after the loop. *)
Definition sweep_counts b (tk : Order) (levels mid : Z) : Book :=
  let b := count_stat (fun s =>
    s <| total_sweeps ::= inc |> <| sum_levels_touched ::= fun x => add64 x levels |>
      <| multi_level_sweeps ::= fun x => if 2 <=? levels then inc x else x |>) b in
  let px := o_price_ticks tk in
  let b := if 0 <=? mid then
      let diff := Z.abs (i32 (px - mid)) in
      let b := count_stat (fun s =>
        s <| total_effective_spread_2x_ticks ::= fun x => add64 x (u64 (i32 (2 * diff))) |> <| total_effective_spread_samples ::= inc |>) b in
      count_book (fun c =>
        let c := if 0 <? fill_band_threshold_ticks_ (cfg b) then
                   if diff <=? fill_band_threshold_ticks_ (cfg b) then c <| fills_within_band_ ::= inc |> else c <| fills_outside_band_ ::= inc |>
                 else c in
        if (0 <? slippage_guard_threshold_ticks_ (cfg b)) && (slippage_guard_threshold_ticks_ (cfg b) <? diff)
        then c <| slippage_guard_violations_ ::= inc |> else c) b
    else b in
  if (0 <? px) && (0 <? mid) && (if is_buy (o_side tk) then i32 (mid + 1000) <? px else px <? i32 (mid - 1000))
  then count_book (fun c => c <| nbbo_violations_count_ ::= inc |>) b else b.
Definition match_against (fuel : nat) b (t : Z) : option Book :=
  let '(ts, b) := mono_ns_now b in
  let qty := remaining_qty (order_at b t) in
  let mid := mid_ticks b in
  match match_levels fuel b t qty ts 0 with
  | None => None
  | Some (b, qty_left, levels) => Some (if qty_left <? qty then sweep_counts b (order_at b t) levels mid else b)
  end.
(** ** Looking ahead *)

Definition would_cross b (side : Side) (p : Z) : bool :=
  if is_buy side then has_ask b && (best_ask_ticks_ b <=? p) else has_bid b && (p <=? best_bid_ticks_ b).
(** The prices from the other side's best to the limit, in the order of a walk. *)
Definition walk_prices b (side : Side) (limit : Z) : list Z :=
  if is_buy side
  then map (fun i => best_ask_ticks_ b + Z.of_nat i) (seq 0 (Z.to_nat (Z.min limit (LEVELS - 1) - best_ask_ticks_ b + 1)))
  else map (fun i => best_bid_ticks_ b - Z.of_nat i) (seq 0 (Z.to_nat (best_bid_ticks_ b - Z.max limit 0 + 1))).
Fixpoint fok_loop b (ps : list Z) (qty avail : Z) : bool :=
  match ps with
  | [] => qty <=? avail
  | p :: ps => let avail := i32 (avail + total_qty (level_at b p)) in
               if qty <=? avail then true else fok_loop b ps qty avail
  end.
Definition fok_fillable b (side : Side) (price qty : Z) : bool := fok_loop b (walk_prices b side price) qty 0.

Record WalkResult := mkWalk { fillable_qty : Z; avg_price_ticks : Z; levels_touched : Z; worst_price_ticks : Z }.
(** One level of a walk: [sum] is the notional so far, [left] what is wanted. *)
Definition walk_step b (acc : Z * Z * WalkResult) (p : Z) : Z * Z * WalkResult :=
  let '(sum, want, r) := acc in
  let avail := total_qty (level_at b p) in
  if (want <=? 0) || (avail <=? 0) then acc else
  let take := Z.min avail want in
  (i64 (sum + take * p), i32 (want - take), mkWalk (i32 (fillable_qty r + take)) 0 (i32 (levels_touched r + 1)) p).
Definition walk_the_book b (side : Side) (desired_qty limit_price : Z) : WalkResult :=
  let '(sum, _, r) := foldl (walk_step b) (0, desired_qty, mkWalk 0 0 0 0) (walk_prices b side limit_price) in
  mkWalk (fillable_qty r) (if 0 <? fillable_qty r then i32 (sum ÷ fillable_qty r) else 0) (levels_touched r) (worst_price_ticks r).

(** ** submit *)

Definition halt b (reason : cstr) : Book := b <| cfg ::= fun c => c <| halted_ := true |> <| halt_reason_ := take 31 reason |> |>.
Definition halt_for_auction b : Book := b <| cfg ::= fun c => c <| in_auction_mode_ := true |> <| halt_reopen_pending_ := true |> |>.
(** "LULD_BREACH". *)
Definition LULD_BREACH : cstr := [76; 85; 76; 68; 95; 66; 82; 69; 65; 67; 72].

Record NewOrder := mkNew {
  n_side : Side; n_price : Z; n_qty : Z; n_type : OrderType; n_tif : TimeInForce; n_order_id : Z; n_client_id : Z;
  n_displayed_qty : Z; n_min_qty : Z }.
Definition limit_order (side : Side) (price qty : Z) (tif : TimeInForce) (order_id client_id : Z) : NewOrder :=
  mkNew side price qty T_LIMIT tif order_id client_id 0 0.

Definition reject_order b (n : NewOrder) (r : RejectReason) : Book :=
  let b := tally_rejection r (count_stat (fun s => s <| total_orders_rejected ::= inc |>) b) in
  let b := if n_client_id n =? 0 then b else
    on_accts (fun a => a <| client_rejections_ ::= fun m => <[n_client_id n := inc (default 0 (m !! n_client_id n))]> m |>) b in
  let b := emit b E_REJECT (n_order_id n) 0 (n_price n) (n_qty n) S_REJECTED r (n_client_id n) in
  push_audit b E_REJECT (n_order_id n) (n_side n) (n_price n) (n_qty n) S_REJECTED.

Definition is_fok (n : NewOrder) : bool := bool_decide (n_type n = T_FOK) || bool_decide (n_tif n = TIF_FOK).
Definition is_ioc (n : NewOrder) : bool := bool_decide (n_type n = T_IOC) || bool_decide (n_tif n = TIF_IOC).
(** Orders that take liquidity on entry. *)
Definition takes (n : NewOrder) : bool := negb (bool_decide (n_type n = T_POST_ONLY)) && negb (bool_decide (n_type n = T_HIDDEN)).
(** The gates of [submit] in their order; some change the book before they
    refuse. *)
Definition admit_session b (n : NewOrder) : option RejectReason :=
  if bool_decide (session_phase_ (cfg b) = CLOSED) then Some R_MARKET_CLOSED
  else if halted_ (cfg b) then Some R_HALTED
  else if n_qty n <=? 0 then Some R_QTY_ZERO_OR_NEGATIVE
  else if negb (in_range (n_price n)) && negb (bool_decide (n_type n = T_MARKET)) then Some R_PRICE_OUT_OF_RANGE
  else if negb (n_order_id n =? 0) && bool_decide (is_Some (id_index_ b !! n_order_id n)) then Some R_DUPLICATE_ID
  else None.
Definition admit_account b (n : NewOrder) : option RejectReason * Book :=
  let outside := negb (in_internal_submit_ (cfg b)) && negb (n_client_id n =? 0) in
  let '(ok, b) := if rate_limiting_enabled_ (accts b) && outside then consume_rate_token b (n_client_id n) else (true, b) in
  if negb ok then (Some R_RATE_LIMITED, b) else
  if mmp_enabled_ (accts b) && outside && default false (tripped <$> mmp_ (accts b) !! n_client_id n)
  then (Some R_MMP_TRIPPED, b) else (None, b).
Definition admit_price b (n : NewOrder) : option RejectReason * Book :=
  let c := cfg b in
  if luld_enabled_ c && ((n_price n <? luld_low_ticks_ c) || (luld_high_ticks_ c <? n_price n)) then
    let b := count_book (fun k => k <| luld_breaches_ ::= inc |>) b in
    (Some R_LULD_BAND_BREACH,
     if luld_halt_to_auction_ c then halt_for_auction b else if luld_auto_halt_ c then halt b LULD_BREACH else b)
  else if bool_decide (n_type n = T_POST_ONLY) && would_cross b (n_side n) (n_price n) then (Some R_POST_ONLY_WOULD_CROSS, b)
  else if is_fok n && negb (fok_fillable b (n_side n) (n_price n) (n_qty n)) then (Some R_FOK_NOT_FILLABLE, b)
  else if (0 <? n_min_qty n) && takes n && negb (in_auction_mode_ c) &&
          (fillable_qty (walk_the_book b (n_side n) (n_qty n) (n_price n)) <? n_min_qty n) then (Some R_MIN_QTY_NOT_MET, b)
  else (None, b).
Definition admission b (n : NewOrder) : option RejectReason * Book :=
  match admit_session b n with
  | Some r => (Some r, b)
  | None => match admit_account b n with
            | (Some r, b) => (Some r, b)
            | (None, b) => admit_price b n
            end
  end.

(** The displayed part of an order on entry. *)
Definition entry_display (n : NewOrder) : Z * Z :=
  let ice := if bool_decide (n_type n = T_ICEBERG) && (0 <? n_displayed_qty n) then Z.min (n_displayed_qty n) (n_qty n) else 0 in
  (ice, if bool_decide (n_type n = T_HIDDEN) then 0 else if 0 <? ice then ice else n_qty n).
Definition burst_on_submit (window ts : Z) : Book -> Book :=
  count_order (fun c =>
    if window <=? 0 then c else
    let last := burst_last_submit_ns_ c in
    (if negb (last =? 0) && (last <? ts) && (ts - last <=? window)
     then if burst_in_run_count_ c =? 0 then c <| burst_runs_count_ ::= inc |> <| burst_in_run_count_ := 2 |>
          else c <| burst_in_run_count_ ::= inc |>
     else c <| burst_in_run_count_ := 0 |>) <| burst_last_submit_ns_ := ts |>).
(** The id an order gets: the caller's, or the next one. *)
Definition assign_id b (id : Z) : Z * Book :=
  if id =? 0 then (next_order_id_ b, b <| next_order_id_ ::= inc |>) else (id, b).
(** The accepted order in its slot, announced and counted. *)
Definition open_order b (n : NewOrder) (s : Z) : Book :=
  let '(id, b) := assign_id b (n_order_id n) in
  let '(ice, shown) := entry_display n in
  let '(now, b) := mono_ns_now b in
  let mid := mid_ticks b in
  let b := set_order b s (fun o =>
    o <| o_id := id |> <| o_client_id := n_client_id n |> <| o_price_ticks := n_price n |> <| o_total_qty := n_qty n |>
      <| o_filled_qty := 0 |> <| o_displayed_qty := shown |> <| o_iceberg_display_size := ice |> <| o_side := n_side n |>
      <| o_type := n_type n |> <| o_tif := n_tif n |> <| o_status := S_NEW |> <| o_submit_ts_ns := now |>
      <| o_decision_mid_ticks := mid |>) in
  let b := tally_accept (n_type n) (n_tif n) (count_stat (fun st => st <| total_orders_added ::= inc |>)
             (burst_on_submit (burst_window_ns_ (cfg b)) now b)) in
  let b := emit b E_ACCEPT id 0 (n_price n) (n_qty n) S_OPEN R_NONE (n_client_id n) in
  let b := push_audit b E_ACCEPT id (n_side n) (n_price n) (n_qty n) S_OPEN in
  on_accts (exposure_on_submit (n_client_id n) (n_side n) (n_qty n)) b.
(** The best price of a side after an order joined it. *)
Definition join_best b (side : Side) (p : Z) : Book :=
  if is_buy side
  then if negb (has_bid b) || (best_bid_ticks_ b <? p) then b <| best_bid_ticks_ := p |> else b
  else if negb (has_ask b) || (p <? best_ask_ticks_ b) then b <| best_ask_ticks_ := p |> else b.
(** What becomes of the order after matching: done, cancelled, or resting. *)
Definition settle b (n : NewOrder) (s : Z) : Book :=
  let o := order_at b s in
  if o_total_qty o <=? o_filled_qty o then
    free_order (count_order (fun c => c <| completion_filled_fully_ ::= inc |>) (set_order b s (fun o => o <| o_status := S_FILLED |>))) s
  else if is_ioc n then
    let b := set_order b s (fun o => o <| o_status := S_CANCELLED |>) in
    let b := emit b E_CANCEL (o_id o) 0 (o_price_ticks o) (remaining_qty o) S_CANCELLED R_NONE (o_client_id o) in
    free_order (count_order (fun c => if o_filled_qty o =? 0 then c <| completion_cancelled_unfilled_ ::= inc |>
                                      else c <| completion_cancelled_partial_ ::= inc |>) b) s
  else
    let b := set_order b s (fun o =>
      if 0 <? o_filled_qty o
      then o <| o_status := S_PARTIALLY_FILLED |> <| o_displayed_qty ::= fun d => Z.min d (remaining_qty o) |>
      else o <| o_status := S_OPEN |>) in
    let depth := order_count (level_at b (o_price_ticks o)) in
    let b := count_order (fun c =>
      c <| queue_depth_arrival_sum_ ::= fun x => add64 x (u64 depth) |> <| queue_depth_arrival_count_ ::= inc |>
        <| queue_depth_arrival_max_ ::= fun x => grow x depth |>) b in
    let b := enqueue_at_level b s <| id_index_ ::= <[o_id o := s]> |> in
    if bool_decide (n_type n = T_HIDDEN) then b else
    let b := join_best b (o_side o) (o_price_ticks o) in
    push_delta b 65 (side_char (o_side o)) (o_price_ticks o) (total_qty (level_at b (o_price_ticks o))).

Definition link_oco b (x y : Z) : bool * Book :=
  if (x =? 0) || (y =? 0) || (x =? y) || negb (bool_decide (is_Some (id_index_ b !! x))) ||
     negb (bool_decide (is_Some (id_index_ b !! y))) || bool_decide (is_Some (oco_partner_ (linked b) !! x)) ||
     bool_decide (is_Some (oco_partner_ (linked b) !! y)) then (false, b)
  else (true, b <| linked ::= fun l => l <| oco_partner_ ::= fun m => <[y := x]> (<[x := y]> m) |> |>).
Definition submit_stop b (side : Side) (trigger limit qty order_id client_id : Z) : Z * option RejectReason * Book :=
  let reject r := (0, Some r, tally_rejection r (count_stat (fun s => s <| total_orders_rejected ::= inc |>) b)) in
  if bool_decide (session_phase_ (cfg b) = CLOSED) then reject R_MARKET_CLOSED else
  if qty <=? 0 then reject R_QTY_ZERO_OR_NEGATIVE else
  if (trigger <? PRICE_MIN_TICKS) || (LEVELS <=? trigger) then reject R_PRICE_OUT_OF_RANGE else
  match alloc_order b with
  | None => reject R_POOL_EXHAUSTED
  | Some (s, b) =>
      let '(id, b) := assign_id b order_id in
      let '(now, b) := mono_ns_now b in
      let b := set_order b s (fun o =>
        o <| o_id := id |> <| o_client_id := client_id |> <| o_price_ticks := limit |> <| o_total_qty := qty |>
          <| o_displayed_qty := qty |> <| o_side := side |> <| o_type := T_STOP |> <| o_status := S_NEW |>
          <| o_submit_ts_ns := now |> <| o_stop_trigger_ticks := trigger |>) in
      let b := b <| stop_orders_ ::= fun l => l ++ [s] |> <| id_index_ ::= <[id := s]> |> in
      let b := tally_accept T_STOP TIF_DAY (count_stat (fun st => st <| total_orders_added ::= inc |>) b) in
      (id, None, emit b E_ACCEPT id 0 trigger qty S_NEW R_NONE client_id)
  end.
Definition set_internal (x : bool) b : Book := b <| cfg ::= fun c => c <| in_internal_submit_ := x |> |>.

(** [arm_bracket_exits] over a way to submit: the profit order, then the stop,
    paired when both were accepted. *)
Definition arm_bracket_exits (sub : Book -> NewOrder -> option (Z * option RejectReason * Book)) b (s : BracketSpec) : option Book :=
  match sub (set_internal true b) (limit_order (exit_side s) (tp_price_ticks s) (br_qty s) TIF_GTC 0 (br_client_id s)) with
  | None => None
  | Some (tp, _, b) =>
      let '(sl, _, b) := submit_stop b (exit_side s) (sl_trigger_ticks s) 0 (br_qty s) 0 (br_client_id s) in
      let b := set_internal false b in
      Some (if negb (tp =? 0) && negb (sl =? 0)
            then (link_oco b tp sl).2 <| linked ::= fun l => l <| brackets_armed_ ::= inc |> |> else b)
  end.
Fixpoint bracket_loop (sub : Book -> NewOrder -> option (Z * option RejectReason * Book)) (fuel : nat) b : option Book :=
  match bracket_pending_ (linked b) with
  | [] => Some b
  | s :: rest =>
      match fuel with
      | O => None
      | S fuel =>
          match arm_bracket_exits sub (b <| linked ::= fun l => l <| bracket_pending_ := rest |> |>) s with
          | Some b => bracket_loop sub fuel b
          | None => None
          end
      end
  end.
(** The new id, 0 when refused, with the reason. *)
Fixpoint submit (fuel : nat) b (n : NewOrder) : option (Z * option RejectReason * Book) :=
  match fuel with
  | O => None
  | S fuel =>
      match admission b n with
      | (Some r, b) => Some (0, Some r, reject_order b n r)
      | (None, b) =>
          match alloc_order b with
          | None => Some (0, Some R_POOL_EXHAUSTED, reject_order b n R_POOL_EXHAUSTED)
          | Some (s, b) =>
              let b := open_order b n s in
              let id := o_id (order_at b s) in
              let matched :=
                if takes n && negb (in_auction_mode_ (cfg b)) then
                  match match_against fuel b s with
                  | Some b => match bracket_loop (submit fuel) fuel (process_oco_pending b) with
                              | Some b => Some (process_mmp_pending b)
                              | None => None
                              end
                  | None => None
                  end
                else Some b in
              match matched with
              | Some b => Some (id, None, settle b n s)
              | None => None
              end
          end
      end
  end.
Definition process_bracket_pending (fuel : nat) b : option Book := bracket_loop (submit fuel) fuel b.
End book.
