(* ===== verification/LadderOps.v ===== *)
(** * LadderOps: the rest of the full order book's operations

    [orderbook/orderbook_pro.hpp]: [modify], stop, trailing and pegged orders,
    expiry, auctions and the session cycle, market- and limit-on-close orders,
    short sales, reduce-only orders, mass quotes, pairs and brackets, the
    snapshot and delta formats, and the settings. *)
From S2P Require Import Prelude Double Common Bytes LadderTypes LadderTrades LadderSamples Ladder.

Section book.
Context {env : BookEnv}.
Implicit Types b : Book.

(** ** Settings *)

Definition on_cfg (f : Config -> Config) b : Book := b <| cfg ::= f |>.
Definition set_stp_policy b (p : SelfTradePrevention) : Book := on_cfg (fun c => c <| stp_policy_ := p |>) b.
Definition set_client_firm b (client_id firm_id : Z) : Book :=
  if client_id =? 0 then b else
  on_cfg (fun c => c <| client_to_firm_ ::= if firm_id =? 0 then delete client_id else <[client_id := firm_id]> |>) b.
Definition client_firm b (client_id : Z) : Z := default 0 (client_to_firm_ (cfg b) !! client_id).
Definition set_drop_copy b (client_id : Z) (cb : bool) : Book :=
  b <| wire ::= fun w => w <| drop_copy_client_ := client_id |> <| drop_copy_cb_ := cb |> |>.
Definition set_event_callback b (cb : bool) : Book := b <| wire ::= fun w => w <| event_cb_ := cb |> |>.
Definition set_trailing_ratchet_on_mid b (on : bool) : Book := on_cfg (fun c => c <| trailing_ratchet_on_mid_ := on |>) b.
Definition set_iceberg_refresh_jitter_bps b (bps : Z) : Book :=
  if (0 <=? bps) && (bps <=? 9000) then on_cfg (fun c => c <| ice_jitter_bps_ := bps |>) b else b.
Definition set_fees b (taker_bps maker_bps : Z) : Book :=
  b <| meters ::= fun m => m <| tm_fees ::= fun f => set_fee_bps f taker_bps maker_bps |> |>.
Definition set_ssr_active b (on : bool) : Book := on_cfg (fun c => c <| ssr_active_ := on |>) b.
Definition arm_ssr_circuit_breaker b (reference decline_bps : Z) : Book :=
  on_cfg (fun c => c <| ssr_trigger_px_ := i32 (reference - i32 (i64 (reference * decline_bps) ÷ 10000)) |> <| ssr_armed_ := true |>) b.
Definition set_luld_bands b (low high : Z) (auto_halt : bool) : Book :=
  on_cfg (fun c => c <| luld_enabled_ := true |> <| luld_low_ticks_ := low |> <| luld_high_ticks_ := high |> <| luld_auto_halt_ := auto_halt |>) b.
Definition disable_luld b : Book := on_cfg (fun c => c <| luld_enabled_ := false |>) b.
Definition set_luld_halt_to_auction b (on : bool) : Book := on_cfg (fun c => c <| luld_halt_to_auction_ := on |>) b.
Definition resume b : Book := on_cfg (fun c => c <| halted_ := false |> <| halt_reason_ := [] |>) b.
Definition enable_mifid_metrics b (on : bool) : Book := b <| meters ::= fun m => m <| mifid_enabled_ := on |> |>.
Definition reset_mifid_metrics b : Book := b <| meters ::= fun m => m <| mifid_ := new_mifid |> |>.
Definition reset_size_distribution b : Book := b <| meters ::= fun m => m <| size_dist_ := new_sizes |> |>.
Definition set_latency_arb_window_ns b (window : Z) : Book :=
  b <| meters ::= fun m => m <| tm_times ::= fun t => t <| larb_window_ns_ := window |> |> |>.
Definition set_stuffing_threshold b (n : Z) : Book := on_accts (fun a => a <| stuffing_threshold_ := n |>) b.
Definition clear_stuffing_flag b (client_id : Z) : Book :=
  on_accts (fun a => a <| stuffing_flagged_ ::= <[client_id := false]> |> <| cancel_counters_ ::= <[client_id := 0]> |>) b.
Definition set_burst_window_ns b (window : Z) : Book := on_cfg (fun c => c <| burst_window_ns_ := window |>) b.
Definition set_fill_band_threshold_ticks b (t : Z) : Book := on_cfg (fun c => c <| fill_band_threshold_ticks_ := t |>) b.
Definition set_slippage_guard_threshold_ticks b (t : Z) : Book := on_cfg (fun c => c <| slippage_guard_threshold_ticks_ := t |>) b.
Definition enable_audit_log b (on : bool) : Book := b <| wire ::= fun w => w <| audit_enabled_ := on |> |>.
Definition enable_delta_queue b (on : bool) : Book := b <| wire ::= fun w => w <| delta_queue_enabled_ := on |> |>.
Definition pop_audit_records b (max_n : Z) : list AuditRecord * Book :=
  let n := Z.to_nat (Z.min max_n (alen (audit_log_ (wire b)))) in
  (take n (audit_log_ (wire b)), b <| wire ::= fun w => w <| audit_log_ ::= drop n |> |>).
Definition pop_delta_queue b (max_n : Z) : list DeltaMessage * Book :=
  let n := Z.to_nat (Z.min max_n (alen (delta_queue_ (wire b)))) in
  (take n (delta_queue_ (wire b)), b <| wire ::= fun w => w <| delta_queue_ ::= drop n |> |>).
Definition set_account_rate_limit b (client_id : Z) (capacity refill : double) : Book :=
  if (client_id =? 0) || dlt capacity d_one || dlt refill d_zero then b else
  let '(now, b) := mono_ns_now b in
  on_accts (fun a => a <| rate_buckets_ ::= <[client_id := mkBucket capacity capacity refill now]> |> <| rate_limiting_enabled_ := true |>) b.
Definition set_mmp b (client_id n window_ns : Z) : Book :=
  if (client_id =? 0) || (n =? 0) || (window_ns =? 0) then b else
  let '(now, b) := mono_ns_now b in
  on_accts (fun a => a <| mmp_ ::= <[client_id := mkMmp window_ns n 0 now false]> |> <| mmp_enabled_ := true |>) b.
Definition mmp_reset b (client_id : Z) : Book :=
  match mmp_ (accts b) !! client_id with
  | None => b
  | Some m =>
      let '(now, b) := mono_ns_now b in
      on_accts (fun a => a <| mmp_ ::= <[client_id := m <| tripped := false |> <| fills_in_window := 0 |> <| window_start_ns := now |>]> |>) b
  end.
Definition mmp_tripped b (client_id : Z) : bool := default false (tripped <$> mmp_ (accts b) !! client_id).

(** ** modify *)

Definition unlink_oco b (id : Z) : bool * Book :=
  match oco_partner_ (linked b) !! id with
  | None => (false, b)
  | Some partner => (true, b <| linked ::= fun l => l <| oco_partner_ ::= fun m => delete partner (delete id m) |> |>)
  end.
Definition oco_partner_of b (id : Z) : Z := default 0 (oco_partner_ (linked b) !! id).
Definition active_oco_pairs b : Z := Z.of_nat (size (oco_partner_ (linked b))) `div` 2.
Definition indexed b (id : Z) : bool := bool_decide (is_Some (id_index_ b !! id)).
(** A smaller size at the same price keeps the place in the queue. *)
Definition shrink_order b (order_id s new_qty : Z) : Book :=
  let o := order_at b s in
  let delta := i32 (o_total_qty o - new_qty) in
  let vis := Z.min delta (o_displayed_qty o) in
  let b := set_order b s (fun o => o <| o_total_qty := new_qty |> <| o_displayed_qty ::= fun x => i32 (x - vis) |>) in
  let b := set_level b (o_price_ticks o) (fun l =>
    l <| total_qty ::= fun x => i32 (x - vis) |> <| total_hidden ::= fun x => i32 (x - i32 (delta - vis)) |>) in
  let b := b <| linked ::= fun l => l <| bracket_specs_ ::= alter (fun s => s <| br_qty := new_qty |>) order_id |> |> in
  let b := count_stat (fun st => st <| total_orders_replaced ::= inc |> <| priority_preserved_mods ::= inc |>) b in
  emit b E_REPLACE (o_id o) 0 (o_price_ticks o) new_qty (o_status o) R_NONE (o_client_id o).
(** After the resubmission of [modify]: the pair and the bracket follow the order. *)
Definition relink (fuel : nat) b (nid partner : Z) (spec : option BracketSpec) : option Book :=
  let b := if negb (partner =? 0) && negb (nid =? 0) then
      if indexed b nid then if indexed b partner then (link_oco b nid partner).2 else b
      else process_oco_pending (b <| linked ::= fun l => l <| oco_pending_cancel_ ::= cons partner |> |>)
    else b in
  match spec with
  | Some spec =>
      if nid =? 0 then Some b
      else if indexed b nid then Some (b <| linked ::= fun l => l <| bracket_specs_ ::= <[nid := spec]> |> |>)
      else process_bracket_pending fuel (b <| linked ::= fun l => l <| bracket_pending_ ::= cons spec |> |>)
  | None => Some b
  end.
Definition modify (fuel : nat) b (order_id new_price new_qty : Z) : option (Z * option RejectReason * Book) :=
  match id_index_ b !! order_id with
  | None => Some (0, Some R_NONE, b)
  | Some s =>
      let o := order_at b s in
      if (new_price =? o_price_ticks o) && (new_qty <? o_total_qty o) && (o_filled_qty o <? new_qty)
      then Some (o_id o, None, shrink_order b order_id s new_qty) else
      let partner := oco_partner_of b order_id in
      let b := if partner =? 0 then b else (unlink_oco b order_id).2 in
      let spec := (fun s => s <| br_qty := new_qty |>) <$> bracket_specs_ (linked b) !! order_id in
      let b := cancel_internal b s false in
      let b := count_stat (fun st => st <| total_orders_replaced ::= inc |> <| priority_lost_mods ::= inc |>) b in
      match submit fuel b (mkNew (o_side o) new_price (i32 (new_qty - o_filled_qty o)) (o_type o) (o_tif o) order_id (o_client_id o) 0 0) with
      | None => None
      | Some (nid, rr, b) => b ← relink fuel b nid partner spec; Some (nid, rr, b)
      end
  end.

(** ** Stops *)

(** A rejection that only counts, as in the other ways to submit. *)
Definition refuse b (r : RejectReason) : Z * option RejectReason * Book :=
  (0, Some r, tally_rejection r (count_stat (fun s => s <| total_orders_rejected ::= inc |>) b)).
(** The ratchet of a trailing stop towards the reference price. *)
Definition ratchet b (s ref : Z) : Book :=
  let o := order_at b s in
  let counted b := count_book (fun c => c <| trailing_ratchets_ ::= inc |>) b in
  if o_peg_offset_ticks o <=? 0 then b else
  if is_buy (o_side o) then
    let nt := i32 (ref + o_peg_offset_ticks o) in
    if (nt <? o_stop_trigger_ticks o) && (nt <? LEVELS) then counted (set_order b s (fun o => o <| o_stop_trigger_ticks := nt |>)) else b
  else
    let nt := i32 (ref - o_peg_offset_ticks o) in
    if (o_stop_trigger_ticks o <? nt) && (0 <=? nt) then counted (set_order b s (fun o => o <| o_stop_trigger_ticks := nt |>)) else b.
Definition triggered (o : Order) (ref : Z) : bool :=
  if is_buy (o_side o) then o_stop_trigger_ticks o <=? ref else ref <=? o_stop_trigger_ticks o.
(** The triggered stop becomes a limit order; a stop without a limit takes the
    end of the grid. *)
Definition fire_stop (fuel : nat) b (i : nat) (s : Z) : option Book :=
  let o := order_at b s in
  let b := free_order (forget_id (o_id o) b) s <| stop_orders_ ::= swap_remove i |> in
  let b := count_stat (fun st => st <| total_stop_triggers ::= inc |>) b in
  let limit := if 0 <? o_price_ticks o then o_price_ticks o else if is_buy (o_side o) then LEVELS - 1 else 0 in
  match submit fuel (set_internal true b) (limit_order (o_side o) limit (o_total_qty o) TIF_DAY (o_id o) (o_client_id o)) with
  | Some (_, _, b) => Some (set_internal false b)
  | None => None
  end.
Definition stop_ref b (o : Order) : Z :=
  if (0 <? o_peg_offset_ticks o) && trailing_ratchet_on_mid_ (cfg b) && (0 <? mid_ticks b) then mid_ticks b
  else last_trade_ticks_ b.
(** Each turn either moves on or takes a stop out of the vector. *)
Fixpoint stop_loop (fuel : nat) b (i : nat) : option Book :=
  match stop_orders_ b !! i with
  | None => Some b
  | Some s =>
      match fuel with
      | O => None
      | S fuel =>
          let ref := stop_ref b (order_at b s) in
          let b := ratchet b s ref in
          if triggered (order_at b s) ref then b ← fire_stop fuel b i s; stop_loop fuel b i
          else stop_loop fuel b (S i)
      end
  end.
Definition check_stop_triggers (fuel : nat) b : option Book := if last_trade_ticks_ b <? 0 then Some b else stop_loop fuel b 0.
Definition submit_trailing_stop b (side : Side) (trail limit qty order_id client_id : Z) : Z * option RejectReason * Book :=
  if qty <=? 0 then refuse b R_QTY_ZERO_OR_NEGATIVE else
  if trail <=? 0 then refuse b R_PRICE_OUT_OF_RANGE else
  let ref := if last_trade_ticks_ b <? 0 then mid_ticks b else last_trade_ticks_ b in
  if ref <? 0 then refuse b R_PRICE_OUT_OF_RANGE else
  let trigger := if is_buy side then i32 (ref + trail) else i32 (ref - trail) in
  if (trigger <? 0) || (LEVELS <=? trigger) then refuse b R_PRICE_OUT_OF_RANGE else
  let '(sid, rr, b) := submit_stop b side trigger limit qty order_id client_id in
  if sid =? 0 then (0, rr, b) else
  (sid, rr, match id_index_ b !! sid with Some s => set_order b s (fun o => o <| o_peg_offset_ticks := trail |>) | None => b end).
Definition trailing_stops_count b : Z := count_if (fun s => 0 <? o_peg_offset_ticks (order_at b s)) (stop_orders_ b).

(** ** Pegs *)

Definition cap_price (side : Side) (price cap : Z) : Z :=
  if 0 <? cap then if is_buy side then Z.min price cap else Z.max price cap else price.
(** The pegged order at its first price; [mid] marks a peg to the mid. *)
Definition place_peg b (side : Side) (price offset qty order_id client_id cap : Z) (mid : bool) : Z * option RejectReason * Book :=
  if (price <? 0) || (LEVELS <=? price) then refuse b R_PRICE_OUT_OF_RANGE else
  match alloc_order b with
  | None => refuse b R_POOL_EXHAUSTED
  | Some (s, b) =>
      let '(id, b) := assign_id b order_id in
      let '(now, b) := mono_ns_now b in
      let b := set_order b s (fun o =>
        o <| o_id := id |> <| o_client_id := client_id |> <| o_price_ticks := price |> <| o_total_qty := qty |>
          <| o_displayed_qty := qty |> <| o_side := side |> <| o_type := T_PEG |> <| o_status := S_OPEN |>
          <| o_submit_ts_ns := now |> <| o_peg_offset_ticks := offset |> <| o_peg_cap_ticks := cap |>
          <| o_stop_trigger_ticks ::= fun x => if mid then 1 else x |>) in
      let b := enqueue_at_level b s <| id_index_ ::= <[id := s]> |> <| peg_orders_ ::= fun l => l ++ [s] |> in
      let b := join_best b side price in
      let b := tally_accept T_PEG TIF_DAY (count_stat (fun st => st <| total_orders_added ::= inc |>) b) in
      (id, None, emit b E_ACCEPT id 0 price qty S_OPEN R_NONE client_id)
  end.
Definition submit_peg b (side : Side) (offset qty order_id client_id cap : Z) : Z * option RejectReason * Book :=
  if bool_decide (session_phase_ (cfg b) = CLOSED) then refuse b R_MARKET_CLOSED else
  if qty <=? 0 then refuse b R_QTY_ZERO_OR_NEGATIVE else
  let price := if is_buy side then if has_bid b then i32 (best_bid_ticks_ b + offset) else 0
               else if has_ask b then i32 (best_ask_ticks_ b + offset) else LEVELS - 1 in
  place_peg b side (cap_price side price cap) offset qty order_id client_id cap false.
Definition submit_peg_mid b (side : Side) (offset qty order_id client_id cap : Z) : Z * option RejectReason * Book :=
  if bool_decide (session_phase_ (cfg b) = CLOSED) then refuse b R_MARKET_CLOSED else
  if qty <=? 0 then refuse b R_QTY_ZERO_OR_NEGATIVE else
  if mid_ticks b <? 0 then refuse b R_PRICE_OUT_OF_RANGE else
  place_peg b side (cap_price side (i32 (mid_ticks b + offset)) cap) offset qty order_id client_id cap true.
Definition peg_target b (o : Order) : option Z :=
  let base := if o_stop_trigger_ticks o =? 1 then if mid_ticks b <? 0 then None else Some (mid_ticks b)
              else if is_buy (o_side o) then if has_bid b then Some (best_bid_ticks_ b) else None
              else if has_ask b then Some (best_ask_ticks_ b) else None in
  (fun p => cap_price (o_side o) (i32 (p + o_peg_offset_ticks o)) (o_peg_cap_ticks o)) <$> base.
Definition reprice_peg b (s : Z) : Book :=
  let o := order_at b s in
  if negb (is_active o) then b else
  match peg_target b o with
  | None => b
  | Some target =>
      if (target <? 0) || (LEVELS <=? target) || (target =? o_price_ticks o) then b else
      let b := refresh_after (unlink_from_level b s) (o_side o) (o_price_ticks o) in
      let b := enqueue_at_level (set_order b s (fun o => o <| o_price_ticks := target |>)) s in
      let b := if is_buy (o_side o) && (best_bid_ticks_ b <? target) then b <| best_bid_ticks_ := target |> else b in
      let b := if negb (is_buy (o_side o)) && (target <? best_ask_ticks_ b) then b <| best_ask_ticks_ := target |> else b in
      count_stat (fun st => st <| total_peg_reprices ::= inc |>) b
  end.
Definition reprice_pegs b : Book := foldl reprice_peg b (peg_orders_ b).

(** ** Expiry *)

Definition expire_order b (s : Z) : Book :=
  let o := order_at b s in
  let p := o_price_ticks o in
  let b := refresh_after (unlink_from_level b s) (o_side o) p in
  let b := set_order b s (fun o => o <| o_status := S_EXPIRED |>) in
  let b := emit b E_EXPIRE (o_id o) 0 p (remaining_qty o) S_EXPIRED R_NONE (o_client_id o) in
  let b := count_order (fun c => if o_filled_qty o =? 0 then c <| completion_expired_unfilled_ ::= inc |>
                                 else c <| completion_expired_partial_ ::= inc |>) (forget_id (o_id o) b) in
  let b := free_order (forget_bracket (o_id o) (oco_on_complete b (o_id o))) s in
  count_stat (fun st => st <| total_orders_expired ::= inc |>) b.
Definition expire_gtd b (now_ns : Z) : Z * Book :=
  let due := filter (fun s => let o := order_at b s in
      (o_tif o = TIF_GTD /\ is_active o = true) /\ (0 < o_expire_ts_ns o /\ o_expire_ts_ns o <= now_ns)) (values (id_index_ b)) in
  (alen due, process_oco_pending (foldl expire_order b due)).
(** ** Auctions *)

Record AuctionResult := mkAuction { clearing_price_ticks : Z; matched_qty : Z; surplus_bid_qty : Z; surplus_ask_qty : Z; executed : bool }.
#[export] Instance eta_auction : Settable AuctionResult := fun r =>
  mkAuction (clearing_price_ticks r) (matched_qty r) (surplus_bid_qty r) (surplus_ask_qty r) (executed r).
Definition no_auction : AuctionResult := mkAuction (-1) 0 0 0 false.
Definition shown_on b (side : Side) (p acc : Z) : Z :=
  foldl (fun acc s => let o := order_at b s in
    if bool_decide (o_side o = side) && is_active o then i32 (acc + o_displayed_qty o) else acc) acc (queue (level_at b p)).
(** Prices [lo..hi], ascending. *)
Definition price_span (lo hi : Z) : list Z := map (fun i => lo + Z.of_nat i) (seq 0 (Z.to_nat (hi - lo + 1))).
Definition cum_bid b (hi p : Z) : Z := foldl (fun acc q => shown_on b BUY q acc) 0 (reverse (price_span p hi)).
Definition cum_ask b (lo p : Z) : Z := foldl (fun acc q => shown_on b SELL q acc) 0 (price_span lo p).
(** The candidate that matches more, or as much with a smaller imbalance,
    replaces the best; [acc] is the best price, volume and imbalance so far. *)
Definition auction_step b (lo hi : Z) (acc : Z * Z * Z * AuctionResult) (p : Z) : Z * Z * Z * AuctionResult :=
  let '(best_clearing, best_matched, best_imbalance, res) := acc in
  let cb := cum_bid b hi p in
  let ca := cum_ask b lo p in
  let matched := Z.min cb ca in
  let imbalance := Z.abs (i32 (cb - ca)) in
  if (best_matched <? matched) || ((matched =? best_matched) && (imbalance <? best_imbalance))
  then (p, matched, imbalance, res <| surplus_bid_qty := i32 (cb - matched) |> <| surplus_ask_qty := i32 (ca - matched) |>)
  else acc.
Definition auction_lo b : Z := Z.min (best_bid_ticks_ b) (best_ask_ticks_ b).
Definition auction_hi b : Z := Z.max (best_bid_ticks_ b) (best_ask_ticks_ b).
Definition indicative_auction_info b : AuctionResult :=
  if negb (has_bid b && has_ask b) then no_auction else
  let lo := auction_lo b in let hi := auction_hi b in
  let '(p, matched, _, res) := foldl (auction_step b lo hi) (-1, -1, INT32_MAX, no_auction) (price_span lo hi) in
  if matched <=? 0 then res
  else res <| clearing_price_ticks := p |> <| matched_qty := matched |> <| executed := true |>.

(** One order of the cross: [want] is what its side has still to trade. *)
Definition cross_order b (side : Side) (p clearing ts s want : Z) : Book * Z * Z :=
  let o := order_at b s in
  let take := Z.min (remaining_qty o) want in
  let vis := Z.min take (o_displayed_qty o) in
  let b := set_order b s (fun o => o <| o_filled_qty ::= fun x => i32 (x + take) |> <| o_displayed_qty ::= fun x => i32 (x - vis) |>) in
  let b := set_level b p (fun l => l <| total_qty ::= fun x => i32 (x - vis) |> <| total_hidden ::= fun x => i32 (x - i32 (take - vis)) |>) in
  let b := if is_buy side then b else record_trade b (o_id o) 0 clearing take BUY ts in
  let o := order_at b s in
  let done := o_total_qty o <=? o_filled_qty o in
  let b := set_order b s (fun o => o <| o_status := if done then S_FILLED else S_PARTIALLY_FILLED |>) in
  let b := emit b E_FILL (o_id o) 0 clearing take (if done then S_FILLED else S_PARTIALLY_FILLED) R_NONE (o_client_id o) in
  let b := if done then
      let b := forget_id (o_id o) (unlink_from_level b s) in
      free_order (bracket_on_full_fill (oco_on_complete b (o_id o)) (o_id o)) s
    else b in
  (b, i32 (want - take), take).
(** The shares of the cross by account, for the flags of wash trades. *)
Definition wash_add (w : gmap Z Z) (cid take : Z) : gmap Z Z :=
  if cid =? 0 then w else <[cid := i64 (default 0 (w !! cid) + take)]> w.
(** One side of the cross, over the orders of each level as they stood. *)
Definition cross_level (side : Side) (clearing ts : Z) (acc : Book * Z * gmap Z Z) (p : Z) : Book * Z * gmap Z Z :=
  let '(b, _, _) := acc in
  foldl (fun '(b, want, w) s =>
    let o := order_at b s in
    if (0 <? want) && bool_decide (o_side o = side) && is_active o
    then let '(b, want, take) := cross_order b side p clearing ts s want in (b, want, wash_add w (o_client_id o) take)
    else (b, want, w)) acc (queue (level_at b p)).
Definition run_auction (fuel : nat) b : option (AuctionResult * Book) :=
  let res := indicative_auction_info b in
  if negb (executed res) then Some (res, b) else
  let p := clearing_price_ticks res in
  let lo := auction_lo b in let hi := auction_hi b in
  let '(ts, b) := mono_ns_now b in
  let '(b, _, wash_buy) := foldl (cross_level BUY p ts) (b, matched_qty res, ∅) (reverse (price_span p hi)) in
  let '(b, _, wash_sell) := foldl (cross_level SELL p ts) (b, matched_qty res, ∅) (price_span lo p) in
  let flagged := count_if (fun kv : Z * Z => (0 <? kv.2) && (0 <? default 0 (wash_sell !! kv.1))) (entries wash_buy) in
  let b := count_book (fun c => c <| last_auction_wash_clients_ := flagged |> <| auction_wash_trade_flags_ ::= fun x => add64 x flagged |>) b in
  let b := refresh_best_ask_from (refresh_best_bid_from b (LEVELS - 1)) 0 in
  let gtx := filter (fun s => o_tif (order_at b s) = TIF_GTX /\ is_active (order_at b s) = true) (values (id_index_ b)) in
  let b := foldl (fun b s => cancel_internal (count_book (fun c => c <| gtx_cancelled_after_cross_ ::= inc |>) b) s true) b gtx in
  b ← process_bracket_pending fuel (process_oco_pending b);
  Some (res, count_stat (fun s => s <| total_auctions_executed ::= inc |>) b).
Definition try_run_auction (fuel : nat) b (max_surplus : Z) : option (AuctionResult * Book) :=
  let ind := indicative_auction_info b in
  if negb (executed ind) then Some (ind, b) else
  if max_surplus <? Z.max (surplus_bid_qty ind) (surplus_ask_qty ind)
  then Some (ind <| executed := false |>, count_book (fun c => c <| auction_extensions_ ::= inc |>) b)
  else run_auction fuel b.
Definition enter_auction_mode b : Book := on_cfg (fun c => c <| in_auction_mode_ := true |>) b.
Definition exit_auction_mode b : Book := on_cfg (fun c => c <| in_auction_mode_ := false |>) b.
Definition resume_with_auction (fuel : nat) b : option (AuctionResult * Book) :=
  run_auction fuel (count_book (fun c => c <| halt_auction_reopens_ ::= inc |>)
    (on_cfg (fun c => c <| in_auction_mode_ := false |> <| halt_reopen_pending_ := false |>) b)).

(** ** The session *)

Definition begin_pre_open b : Book := on_cfg (fun c => c <| session_phase_ := PRE_OPEN |> <| in_auction_mode_ := true |>) b.
Definition open_market (fuel : nat) b : option (AuctionResult * Book) :=
  run_auction fuel (on_cfg (fun c => c <| in_auction_mode_ := false |> <| session_phase_ := CONTINUOUS |>) b).
Definition begin_closing b : Book := on_cfg (fun c => c <| session_phase_ := CLOSING |> <| in_auction_mode_ := true |>) b.

Definition submit_moc b (side : Side) (qty client_id : Z) : Z * option RejectReason * Book :=
  if bool_decide (session_phase_ (cfg b) = CLOSED) then refuse b R_MARKET_CLOSED else
  if qty <=? 0 then refuse b R_QTY_ZERO_OR_NEGATIVE else
  let '(id, b) := assign_id b 0 in
  let b := b <| linked ::= fun l => l <| moc_queue_ ::= fun q => q ++ [mkMoc side qty client_id id] |> <| moc_submitted_ ::= inc |> |> in
  (id, None, emit b E_ACCEPT id 0 0 qty S_NEW R_NONE client_id).
Definition cancel_moc b (id : Z) : bool * Book :=
  match list_find (fun m => moc_id m = id) (moc_queue_ (linked b)) with
  | Some (i, _) => (true, b <| linked ::= fun l => l <| moc_queue_ ::= swap_remove i |> |>)
  | None => (false, b)
  end.
Definition submit_loc b (side : Side) (price qty client_id : Z) : Z * option RejectReason * Book :=
  if bool_decide (session_phase_ (cfg b) = CLOSED) then refuse b R_MARKET_CLOSED else
  if qty <=? 0 then refuse b R_QTY_ZERO_OR_NEGATIVE else
  if negb (in_range price) then refuse b R_PRICE_OUT_OF_RANGE else
  let '(id, b) := assign_id b 0 in
  let b := b <| linked ::= fun l => l <| loc_queue_ ::= fun q => q ++ [mkLoc side price qty client_id id] |> <| loc_submitted_ ::= inc |> |> in
  (id, None, emit b E_ACCEPT id 0 price qty S_NEW R_NONE client_id).
Definition cancel_loc b (id : Z) : bool * Book :=
  match list_find (fun m => loc_id m = id) (loc_queue_ (linked b)) with
  | Some (i, _) => (true, b <| linked ::= fun l => l <| loc_queue_ ::= swap_remove i |> |>)
  | None => (false, b)
  end.
(** Submits a queue of orders, collecting the ids that were accepted. *)
Fixpoint inject (fuel : nat) b (l : list NewOrder) : option (list Z * Book) :=
  match l with
  | [] => Some ([], b)
  | n :: l =>
      match submit fuel b n with
      | None => None
      | Some (id, _, b) =>
          match inject fuel b l with
          | None => None
          | Some (ids, b) => Some (if id =? 0 then ids else id :: ids, b)
          end
      end
  end.
Definition cancel_leftover (count : Linked -> Linked) (ids : list Z) b : Book :=
  foldl (fun b id => match id_index_ b !! id with
                     | Some s => cancel_internal (b <| linked ::= count |>) s true
                     | None => b
                     end) b ids.
Definition run_closing_auction (fuel : nat) b : option (AuctionResult * Book) :=
  let mode x := on_cfg (fun c => c <| in_auction_mode_ := x |> <| in_internal_submit_ := x |>) in
  let locs := loc_queue_ (linked b) in
  '(loc_ids, b) ← inject fuel (mode true b)
     (map (fun l => limit_order (loc_side l) (loc_price_ticks l) (loc_qty l) TIF_DAY (loc_id l) (loc_client_id l)) locs);
  let b := b <| linked ::= fun l => l <| loc_queue_ := [] |> |> in
  let mocs := moc_queue_ (linked b) in
  let no_mocs b := b <| linked ::= fun l => l <| moc_queue_ := [] |> |> in
  if negb (has_bid b) && negb (has_ask b) then
    Some (no_auction, mode false (no_mocs (b <| linked ::= fun l => l <| moc_cancelled_unfilled_ ::= fun x => add64 x (alen mocs) |> |>)))
  else
  let bid := if has_bid b then best_bid_ticks_ b else best_ask_ticks_ b in
  let ask := if has_ask b then best_ask_ticks_ b else best_bid_ticks_ b in
  '(moc_ids, b) ← inject fuel b
     (map (fun m => limit_order (moc_side m) (if is_buy (moc_side m) then Z.max bid ask else Z.min bid ask) (moc_qty m) TIF_DAY (moc_id m) (moc_client_id m)) mocs);
  '(res, b) ← run_auction fuel (mode false (no_mocs b));
  let b := cancel_leftover (fun l => l <| moc_cancelled_unfilled_ ::= inc |>) moc_ids b in
  let b := cancel_leftover (fun l => l <| loc_cancelled_unfilled_ ::= inc |>) loc_ids b in
  Some (res, process_oco_pending b).
Definition close_market (fuel : nat) b : option (AuctionResult * Book) :=
  '(r, b) ← run_closing_auction fuel b; Some (r, on_cfg (fun c => c <| session_phase_ := CLOSED |>) b).

(** ** Short sales, reduce-only orders, brackets, mass quotes *)

Definition submit_short (fuel : nat) b (price qty order_id client_id : Z) : option (Z * option RejectReason * Book) :=
  if ssr_active_ (cfg b) && has_bid b && (price <=? best_bid_ticks_ b) then Some (refuse b R_SSR_RESTRICTED)
  else submit fuel b (limit_order SELL price qty TIF_DAY order_id client_id).
Definition get_account_exposure b (client_id : Z) : AccountExposure := default no_exposure (account_exposure_ (accts b) !! client_id).
Definition reduce_allowed b (side : Side) (qty client_id : Z) : Z :=
  if client_id =? 0 then 0 else
  let pos := filled_net_qty (get_account_exposure b client_id) in
  if negb (is_buy side) && (0 <? pos) then Z.min pos qty else if is_buy side && (pos <? 0) then Z.min (- pos) qty else 0.
Definition submit_reduce_only (fuel : nat) b (side : Side) (price qty client_id : Z) : option (Z * option RejectReason * Book) :=
  let allowed := reduce_allowed b side qty client_id in
  if allowed <=? 0 then Some (refuse b R_REDUCE_ONLY_NO_POSITION)
  else submit fuel b (limit_order side price (i32 allowed) TIF_DAY 0 client_id).
Definition submit_bracket (fuel : nat) b (side : Side) (entry_price qty tp sl client_id : Z) : option (Z * Book) :=
  let spec := mkBracket (if is_buy side then SELL else BUY) tp sl qty client_id in
  '(id, _, b) ← submit fuel b (limit_order side entry_price qty TIF_DAY 0 client_id);
  if id =? 0 then Some (0, b) else
  if indexed b id then Some (id, b <| linked ::= fun l => l <| bracket_specs_ ::= <[id := spec]> |> |>)
  else b ← arm_bracket_exits (submit fuel) b spec; Some (id, b).

Record Quote := mkQuote { q_side : Side; q_price_ticks : Z; q_qty : Z }.
(** The first quote that cannot stand, with the reason. *)
Definition quote_fault b (q : Quote) : option RejectReason :=
  if q_qty q <=? 0 then Some R_QTY_ZERO_OR_NEGATIVE else
  if negb (in_range (q_price_ticks q)) then Some R_PRICE_OUT_OF_RANGE else
  if would_cross b (q_side q) (q_price_ticks q) then Some R_POST_ONLY_WOULD_CROSS else None.
Fixpoint first_fault b (l : list Quote) : option RejectReason :=
  match l with [] => None | q :: l => match quote_fault b q with Some r => Some r | None => first_fault b l end end.
Fixpoint place_quotes (fuel : nat) b (l : list Quote) (client_id : Z) : option (list Z * Book) :=
  match l with
  | [] => Some ([], b)
  | q :: l =>
      match submit fuel b (mkNew (q_side q) (q_price_ticks q) (q_qty q) T_POST_ONLY TIF_DAY 0 client_id 0 0) with
      | None => None
      | Some (id, _, b) => match place_quotes fuel b l client_id with None => None | Some (ids, b) => Some (id :: ids, b) end
      end
  end.
(** How many were submitted, and their ids. *)
Definition mass_quote (fuel : nat) b (l : list Quote) (client_id : Z) : option (Z * list Z * Book) :=
  if MAX_ORDERS <? active_orders_ b + alen l then Some (0, [], (refuse b R_POOL_EXHAUSTED).2) else
  match first_fault b l with
  | Some r => Some (0, [], (refuse b r).2)
  | None => '(ids, b) ← place_quotes fuel b l client_id;
            Some (alen l, ids, count_stat (fun s => s <| total_mass_quotes ::= inc |>) b)
  end.
(** ** Wire formats

    [memcpy] of an integer writes its bytes from the lowest. *)

Definition le_bytes (n : nat) (v : Z) : list Z := reverse (be_bytes n v).
Definition le_value (l : list Z) : Z := be_value (reverse l).
Definition DELTA_WIRE_SIZE : Z := 18.
Definition serialize_delta (d : DeltaMessage) : list Z :=
  [u8 (dm_type d); u8 (dm_side d)] ++ le_bytes 4 (u32 (dm_price_ticks d)) ++ le_bytes 4 (u32 (dm_new_qty d)) ++
  le_bytes 8 (dm_sequence_no d).
Definition deserialize_delta (buf : list Z) : option DeltaMessage :=
  if alen buf <? DELTA_WIRE_SIZE then None else
  type ← byte_at 0 buf; side ← byte_at 1 buf; px ← slice 2 4 buf; qty ← slice 6 4 buf; seq ← slice 10 8 buf;
  Some (mkDelta type side (i32 (le_value px)) (i32 (le_value qty)) (le_value seq)).

Definition SNAPSHOT_VERSION : Z := 2.
Definition SNAPSHOT_MAGIC : Z := 1329745999.
Definition RECORD_SIZE : nat := 64.
Definition side_code (s : Side) : Z := match s with BUY => 0 | SELL => 1 end.
Definition record_bytes (o : Order) : list Z :=
  le_bytes 8 (o_id o) ++ le_bytes 8 (o_client_id o) ++ le_bytes 4 (u32 (o_price_ticks o)) ++ le_bytes 4 (u32 (o_total_qty o)) ++
  le_bytes 4 (u32 (o_filled_qty o)) ++ le_bytes 4 (u32 (o_displayed_qty o)) ++
  [side_code (o_side o); type_code (o_type o); tif_code (o_tif o); status_code (o_status o)] ++
  le_bytes 8 (o_submit_ts_ns o) ++ le_bytes 8 (o_expire_ts_ns o) ++ le_bytes 4 (u32 (o_stop_trigger_ticks o)) ++
  le_bytes 4 (u32 (o_peg_offset_ticks o)) ++ le_bytes 4 (u32 (o_iceberg_display_size o)).
Definition snapshot_size_estimate b : Z := 16 + active_orders_ b * Z.of_nat RECORD_SIZE.
(** The slots that the snapshot lists: the queues by price, then the stops. *)
Definition snapshot_slots b : list Z :=
  concat (map (fun p => queue (level_at b p)) (price_span 0 (LEVELS - 1))) ++ stop_orders_ b.
(** The bytes written, none when the buffer of [cap] bytes is too small. *)
Definition serialize_snapshot b (cap : Z) : list Z :=
  if cap <? snapshot_size_estimate b then [] else
  le_bytes 4 SNAPSHOT_MAGIC ++ le_bytes 4 SNAPSHOT_VERSION ++ le_bytes 8 (active_orders_ b) ++
  concat (map (fun s => record_bytes (order_at b s)) (snapshot_slots b)).

Definition decode {A} (l : list A) (code : Z) : option A := l !! Z.to_nat code.
Definition all_types : list OrderType := [T_LIMIT; T_IOC; T_FOK; T_POST_ONLY; T_ICEBERG; T_STOP; T_PEG; T_MARKET; T_HIDDEN; T_AON].
Definition all_tifs : list TimeInForce := [TIF_DAY; TIF_GTC; TIF_IOC; TIF_FOK; TIF_GTD; TIF_GTX].
Definition all_statuses : list OrderStatus :=
  [S_NEW; S_OPEN; S_PARTIALLY_FILLED; S_FILLED; S_CANCELLED; S_REJECTED; S_EXPIRED; S_REPLACED].
(** The record at an offset.  [None]: outside of the buffer, or a code that
    names no enumerator, for which the code has an order of no known kind. *)
Definition read_record (buf : list Z) (off : nat) : option Order :=
  let u n k := le_value <$> slice (off + k) n buf in
  let s k := (fun l => i32 (le_value l)) <$> slice (off + k) 4 buf in
  id ← u 8%nat 0%nat; client ← u 8%nat 8%nat; px ← s 16%nat; total ← s 20%nat; filled ← s 24%nat; shown ← s 28%nat;
  side ← byte_at (off + 32) buf ≫= decode [BUY; SELL]; type ← byte_at (off + 33) buf ≫= decode all_types;
  tif ← byte_at (off + 34) buf ≫= decode all_tifs; status ← byte_at (off + 35) buf ≫= decode all_statuses;
  submitted ← u 8%nat 36%nat; expires ← u 8%nat 44%nat; trigger ← s 52%nat; offset ← s 56%nat; ice ← s 60%nat;
  Some (mkOrder id client px total filled shown side type tif status submitted expires trigger offset 0 (-1) ice 0).

Definition clear b : Book :=
  let b := foldl (fun b p => foldl free_order b (queue (level_at b p)) <| levels_ ::= <[p := empty_level]> |>)
             b (price_span 0 (LEVELS - 1)) in
  let b := foldl free_order (b <| id_index_ := ∅ |>) (stop_orders_ b) in
  b <| stop_orders_ := [] |> <| peg_orders_ := [] |> <| best_bid_ticks_ := NO_BID_TICKS |> <| best_ask_ticks_ := NO_ASK_TICKS |>
    <| last_trade_ticks_ := -1 |> <| meters ::= fun m => m <| tm_tape ::= fun t => t <| tape_head_ := 0 |> <| tape_count_ := 0 |> |> |>.
(** The order of a record in the slot [s]; all its fields but the links, the
    cap, the decision price and the first fill are in the record. *)
Definition load_order b (s : Z) (r : Order) : Book :=
  let b := set_order b s (fun _ => r) in
  if is_pending_stop r then b <| stop_orders_ ::= fun l => l ++ [s] |> <| id_index_ ::= <[o_id r := s]> |> else
  let b := enqueue_at_level b s <| id_index_ ::= <[o_id r := s]> |> in
  let b := if bool_decide (o_type r = T_PEG) then b <| peg_orders_ ::= fun l => l ++ [s] |> else b in
  join_best b (o_side r) (o_price_ticks r).
Fixpoint load_records b (buf : list Z) (off n : nat) (max_id : Z) : option (bool * Z * Book) :=
  match n with
  | O => Some (true, max_id, b)
  | S n =>
      r ← read_record buf off;
      match alloc_order b with
      | None => Some (false, max_id, b)
      | Some (s, b) => load_records (load_order b s r) buf (off + RECORD_SIZE) n (grow max_id (o_id r))
      end
  end.
(** [None]: the code reads outside of the buffer. *)
Definition load_snapshot b (buf : list Z) : option (bool * Book) :=
  if alen buf <? 16 then Some (false, b) else
  magic ← le_value <$> slice 0 4 buf; version ← le_value <$> slice 4 4 buf; count ← le_value <$> slice 8 8 buf;
  if negb (magic =? SNAPSHOT_MAGIC) || negb (version =? SNAPSHOT_VERSION) then Some (false, b) else
  if alen buf <? u64 (16 + count * Z.of_nat RECORD_SIZE) then Some (false, b) else
  '(ok, max_id, b) ← load_records (clear b) buf 16 (Z.to_nat count) 0;
  Some (ok, if (ok : bool) && (next_order_id_ b <=? max_id) then b <| next_order_id_ := u64 (max_id + 1) |> else b).
End book.
