(* ===== verification/LadderViews.v ===== *)
(** * LadderViews: queries and samplers of the full order book

    The read-only methods of [orderbook/orderbook_pro.hpp], and the methods
    that only feed a sampler. *)
From S2P Require Import Prelude Double Common LadderTypes LadderTrades LadderSamples Ladder LadderOps.

Section book.
Context {env : BookEnv}.
Implicit Types b : Book.

(** ** The top *)

Definition bid_level b : PriceLevel := level_at b (best_bid_ticks_ b).
Definition ask_level b : PriceLevel := level_at b (best_ask_ticks_ b).
Definition both_sides b : bool := has_bid b && has_ask b.
Definition microprice_ticks b : Z :=
  if negb (both_sides b) then -1 else
  let bq := total_qty (bid_level b) in let aq := total_qty (ask_level b) in
  if bq + aq =? 0 then mid_ticks b
  else i32 (i64 (best_bid_ticks_ b * aq + best_ask_ticks_ b * bq) ÷ (bq + aq)).
Definition top_of_book b : TopOfBook :=
  mkTob (best_bid_ticks_ b) (best_ask_ticks_ b) (if has_bid b then total_qty (bid_level b) else 0)
    (if has_ask b then total_qty (ask_level b) else 0) (if has_bid b then order_count (bid_level b) else 0)
    (if has_ask b then order_count (ask_level b) else 0).
Definition is_locked b : bool := both_sides b && (best_bid_ticks_ b =? best_ask_ticks_ b).
Definition is_crossed b : bool := both_sides b && (best_ask_ticks_ b <? best_bid_ticks_ b).
Definition spread_ticks b : Z := if both_sides b then i32 (best_ask_ticks_ b - best_bid_ticks_ b) else -1.
Definition half_spread_bps b : Z :=
  if negb (both_sides b) then -1 else
  let mid := mid_ticks b in
  if mid <=? 0 then -1 else i32 ((i32 (best_ask_ticks_ b - best_bid_ticks_ b) * 10000 ÷ 2) ÷ mid).
Definition weighted_mid_ticks b : Z := microprice_ticks b.
Definition balance_bps (bid ask : Z) : Z := if bid + ask =? 0 then 0 else i32 ((bid - ask) * 10000 ÷ (bid + ask)).
Definition imbalance_bps b : Z :=
  if both_sides b then balance_bps (total_qty (bid_level b)) (total_qty (ask_level b)) else 0.
Definition tob_skewness_bps b : Z := imbalance_bps b.

(** ** Levels and depth *)

(** The prices of a side from its best outwards, and of the whole grid. *)
Definition outward b (side : Side) : list Z :=
  if is_buy side then reverse (price_span 0 (best_bid_ticks_ b)) else price_span (best_ask_ticks_ b) (LEVELS - 1).
Definition grid : list Z := price_span 0 (LEVELS - 1).
Definition shown_at b (p : Z) : Z := total_qty (level_at b p).
Definition depth_level b (p : Z) : DepthLevel := mkDepth p (shown_at b p) (order_count (level_at b p)).
(** The prices of a side that show something, best first. *)
Definition live_prices b (side : Side) : list Z := filter (fun p => 0 < shown_at b p) (outward b side).
Definition side_depth b (side : Side) (n : Z) : list DepthLevel :=
  if if is_buy side then has_bid b else has_ask b then map (depth_level b) (take (Z.to_nat n) (live_prices b side)) else [].
Definition depth b (n : Z) : list DepthLevel * list DepthLevel := (side_depth b BUY n, side_depth b SELL n).
Definition total_volume_at_price b (p : Z) : Z := if in_range p then shown_at b p else 0.
Definition order_count_at_price b (p : Z) : Z := if in_range p then order_count (level_at b p) else 0.
Definition queue_position b (order_id : Z) : Z :=
  match id_index_ b !! order_id with
  | None => -1
  | Some s => index_of s (queue (level_at b (o_price_ticks (order_at b s))))
  end.
Definition volume_profile b (min_ticks max_ticks capacity : Z) : list DepthLevel :=
  map (depth_level b) (take (Z.to_nat capacity)
    (filter (fun p => 0 < shown_at b p) (price_span (Z.max min_ticks PRICE_MIN_TICKS) (Z.min max_ticks (LEVELS - 1))))).
Definition sum_i32 (f : Z -> Z) (l : list Z) : Z := foldl (fun s p => i32 (s + f p)) 0 l.
Definition imbalance_bps_n b (n : Z) : Z :=
  if negb (both_sides b) then 0 else
  let side s := sumf (shown_at b) (take (Z.to_nat n) (live_prices b s)) in balance_bps (side BUY) (side SELL).
Definition depth_concentration_bps b (side : Side) (top_n : Z) : Z :=
  if negb (if is_buy side then has_bid b else has_ask b) then 0 else
  let l := live_prices b side in
  let total := sumf (shown_at b) l in
  if total =? 0 then 0 else i32 (sumf (shown_at b) (take (Z.to_nat top_n) l) * 10000 ÷ total).
Definition depth_pyramid_steepness_bps b (side : Side) (depth_n : Z) : Z :=
  if (depth_n <? 2) || negb (if is_buy side then has_bid b else has_ask b) then 0 else
  let l := map (shown_at b) (take (Z.to_nat depth_n) (live_prices b side)) in
  let best := default 0 (head l) in
  if (alen l <? depth_n) || (best =? 0) then 0 else i32 (i32 (best - default 0 (last l)) * 10000 ÷ best).
Definition cumulative_resting_volume b (side : Side) : Z :=
  if negb (if is_buy side then has_bid b else has_ask b) then 0 else
  sumf (shown_at b) (if is_buy side then price_span 0 (Z.min (best_bid_ticks_ b) (LEVELS - 1)) else outward b side).
Definition resting_order_count b (side : Side) : Z :=
  sum_i32 (fun p => order_count (level_at b p))
    (if is_buy side then price_span 0 (Z.min (best_bid_ticks_ b) (LEVELS - 1)) else outward b side).
Definition for_each_order b : list Order :=
  map (order_at b) (concat (map (fun p => queue (level_at b p)) (outward b BUY ++ outward b SELL))).
Definition hidden_liquidity_ratio b : double :=
  let vis := sumf (shown_at b) grid in
  let hid := sumf (fun p => total_hidden (level_at b p)) grid in
  ratio_d hid (vis + hid).
Definition avg_resting_qty_per_order b : double :=
  ratio_d (sumf (shown_at b) grid) (sumf (fun p => order_count (level_at b p)) grid).
Definition active_price_levels b : Z := count_if (fun p => 0 <? order_count (level_at b p)) grid.
Definition count_bin (c : Z) : Z := if c =? 1 then 0 else if c =? 2 then 1 else if c <=? 4 then 2 else if c <=? 8 then 3 else if c <=? 16 then 4 else 5.
Definition queue_depth_histogram b : list Z * Z :=
  foldl (fun '(bins, n) p => let c := order_count (level_at b p) in
           if c <=? 0 then (bins, n) else (aset bins (count_bin c) (u32 (aget bins (count_bin c) + 1)), i32 (n + 1)))
    (replicate 6 0, 0) grid.
(** All resting orders in the order of the grid. *)
Definition resting b : list Order := map (order_at b) (concat (map (fun p => queue (level_at b p)) grid)).
Definition largest_resting_order_qty b : Z := foldl (fun m o => grow m (remaining_qty o)) 0 (resting b).
(** Insertion of [x] into the best [k] so far, kept from the largest down; an
    equal key goes behind. *)
Fixpoint insert_desc {A} (key : A -> Z) (x : A) (l : list A) : list A :=
  match l with [] => [x] | y :: l => if key y <? key x then x :: y :: l else y :: insert_desc key x l end.
Definition top_k {A} (key : A -> Z) (k : Z) (l : list A) : list A :=
  foldl (fun acc x => if 0 <? key x then take (Z.to_nat k) (insert_desc key x acc) else acc) [] l.
Definition top_k_active_levels_by_qty b (k : Z) : list (Z * Z) := map (fun p => (p, shown_at b p)) (top_k (shown_at b) k grid).
Definition top_k_resting_qty b (k : Z) : list Z := map remaining_qty (top_k remaining_qty k (resting b)).

(** ** Predictions *)

Definition predicted_walk b (side : Side) (qty : Z) : Z * Z :=
  foldl (fun '(notional, filled) p =>
    let avail := shown_at b p in
    if (qty <=? filled) || (avail <=? 0) then (notional, filled) else
    let take := Z.min (i32 (qty - filled)) avail in (i64 (notional + p * take), i32 (filled + take)))
    (0, 0) (outward b (if is_buy side then SELL else BUY)).
Definition predicted_vwap_ticks b (side : Side) (qty : Z) : Z :=
  if (qty <=? 0) || negb (if is_buy side then has_ask b else has_bid b) then 0 else
  let '(notional, filled) := predicted_walk b side qty in
  if filled =? 0 then 0 else i32 (notional ÷ filled).
Definition predicted_slippage_ticks b (side : Side) (qty : Z) : Z :=
  if negb (both_sides b) then 0 else
  let vwap := predicted_vwap_ticks b side qty in if vwap =? 0 then 0 else i32 (vwap - mid_ticks b).
Definition depth_within_offset b (side : Side) (max_offset : Z) : Z :=
  if negb (both_sides b) then 0 else
  sum_i32 (shown_at b)
    (if is_buy side then price_span (best_ask_ticks_ b) (Z.min (LEVELS - 1) (i32 (mid_ticks b + max_offset)))
     else reverse (price_span (Z.max 0 (i32 (mid_ticks b - max_offset))) (best_bid_ticks_ b))).
Definition mid_minus_tape_vwap_ticks b : Z :=
  let vwap := tape_vwap_ticks (tm_tape (meters b)) in
  if (vwap <=? 0) || (mid_ticks b <=? 0) then 0 else i32 (mid_ticks b - vwap).
Definition point_of_control_ticks b : Z :=
  (foldl (fun '(tick, best) p => let v := default 0 (volume_at_price_ (meters b) !! p) in
            if best <? v then (p, v) else (tick, best)) (-1, 0) grid).1.
Definition volume_at_price b (p : Z) : Z := if (p <? 0) || (LEVELS <=? p) then 0 else default 0 (volume_at_price_ (meters b) !! p).

(** ** Ratios over the counters *)

Definition rejection_rate b (client_id : Z) : double :=
  match account_exposure_ (accts b) !! client_id with
  | None => d_zero
  | Some e => if orders_submitted e =? 0 then d_zero else
      let r := default 0 (client_rejections_ (accts b) !! client_id) in
      ddiv (dbl_of_Z r) (dbl_of_Z (u64 (orders_submitted e + r)))
  end.
Definition aggressive_ratio_for b (client_id : Z) : double :=
  let e := get_account_exposure b client_id in ratio_d (aggressive_volume e) (u64 (aggressive_volume e + passive_volume e)).
Definition cancel_to_fill_ratio_for b (client_id : Z) : double :=
  let e := get_account_exposure b client_id in ratio_d (orders_cancelled e) (fills_received e).
Definition account_vwap_ticks b (client_id : Z) : Z :=
  match account_vwap_ (accts b) !! client_id with
  | Some v => if av_volume v =? 0 then 0 else i32 (av_notional v ÷ av_volume v)
  | None => 0
  end.
Definition is_stuffing_flagged b (client_id : Z) : bool := default false (stuffing_flagged_ (accts b) !! client_id).
Definition cancel_to_trade_ratio b : double := ratio_d (total_orders_cancelled (stats_ b)) (total_fills (stats_ b)).
Definition priority_loss_ratio b : double :=
  ratio_d (priority_lost_mods (stats_ b)) (u64 (priority_preserved_mods (stats_ b) + priority_lost_mods (stats_ b))).
Definition mean_quoted_spread_ticks b : double := ratio_d (total_quoted_spread_ticks_obs (stats_ b)) (total_quoted_spread_samples (stats_ b)).
Definition mean_effective_spread_ticks b : double :=
  ratio_d (total_effective_spread_2x_ticks (stats_ b)) (total_effective_spread_samples (stats_ b)).
Definition effective_to_quoted_ratio b : double :=
  let q := mean_quoted_spread_ticks b in if dle q d_zero then d_zero else ddiv (mean_effective_spread_ticks b) q.
Definition avg_levels_per_sweep b : double := ratio_d (sum_levels_touched (stats_ b)) (total_sweeps (stats_ b)).
Definition multi_level_sweep_ratio b : double := ratio_d (multi_level_sweeps (stats_ b)) (total_sweeps (stats_ b)).
Definition fill_rate_ratio b : double := ratio_d (completion_filled_fully_ (ocounts b)) (total_orders_added (stats_ b)).
Definition mean_trade_qty b : double := ratio_d (total_volume (stats_ b)) (total_fills (stats_ b)).
Definition mean_fill_notional_ticks b : double :=
  let f := tm_flow (meters b) in ratio_d (i64 (cum_buy_notional_ticks_ f + cum_sell_notional_ticks_ f)) (total_fills (stats_ b)).
Definition fill_band_compliance_ratio b : double :=
  ratio_d (fills_within_band_ (bcounts b)) (u64 (fills_within_band_ (bcounts b) + fills_outside_band_ (bcounts b))).
Definition avg_age_ns_at_completion b : Z :=
  if age_stats_count_ (ocounts b) =? 0 then 0 else age_stats_sum_ns_ (ocounts b) `div` age_stats_count_ (ocounts b).
Definition first_fill_latency_min_ns b : Z := if first_fill_count_ (ocounts b) =? 0 then 0 else first_fill_min_ns_ (ocounts b).
Definition first_fill_latency_mean_ns b : Z :=
  if first_fill_count_ (ocounts b) =? 0 then 0 else first_fill_sum_ns_ (ocounts b) `div` first_fill_count_ (ocounts b).
Definition mean_queue_depth_at_arrival b : double := ratio_d (queue_depth_arrival_sum_ (ocounts b)) (queue_depth_arrival_count_ (ocounts b)).
Definition mean_implementation_shortfall b : double := ratio_d (cum_is_ticks_qty_ (ocounts b)) (cum_is_qty_ (ocounts b)).
Definition acceptance_ratio b : double :=
  ratio_d (total_orders_added (stats_ b)) (u64 (total_orders_added (stats_ b) + total_orders_rejected (stats_ b))).
Definition most_common_reject_reason b : Z :=
  (foldl (fun '(bi, bv) i => let v := aget (rejections_by_reason_ (bcounts b)) i in if bv <? v then (i, v) else (bi, bv))
    (0, 0) (price_span 1 17)).1.
Definition rejections_by_reason b (r : RejectReason) : Z := hist_bin (rejections_by_reason_ (bcounts b)) (reason_code r).
Definition accepts_by_tif b (t : TimeInForce) : Z := hist_bin (accepts_by_tif_ (bcounts b)) (tif_code t).
Definition accepts_by_type b (t : OrderType) : Z := hist_bin (accepts_by_type_ (bcounts b)) (type_code t).
(** The truncation of a [double] to [uint32_t]; both scores lie below 10000. *)
Definition capped_score (x k : double) : Z :=
  let y := dmul x k in dbl_trunc (if dlt (dbl_of_Z 10000) y then dbl_of_Z 10000 else y).
Definition toxicity_composite_score_bps b : Z :=
  u32 (vpin_bps (tm_flow (meters b)) + u32 (capped_score (kyle_lambda_abs (tm_kyle (meters b))) (dbl_of_Z 1000)) +
       u32 (capped_score (cancel_to_trade_ratio b) (dbl_of_Z 200))) `div` 3.

(** ** Samplers *)

Definition top b : Top := mkTop (best_bid_ticks_ b) (best_ask_ticks_ b) (total_qty (bid_level b)) (total_qty (ask_level b)).
Definition on_samplers (f : Samplers -> Samplers) b : Book := b <| samplers ::= f |>.
Definition sample_ofi b : Z * Book :=
  let '(d, o) := ofi_sample (sm_ofi (samplers b)) (top b) in (d, on_samplers (fun s => s <| sm_ofi := o |>) b).
Definition sample_ofi_ck b : Book := on_samplers (fun s => s <| sm_ofi_ck ::= fun o => ofi_ck_sample o (top b) |>) b.
Definition poll_tob_change b : bool * Book :=
  let w := sm_tob (samplers b) in
  let changed := tob_changed w (top b) in
  let '(now, b) := if changed then mono_ns_now b else (0, b) in
  let w := tob_poll w (top b) (last_fill_ts_ns_ (tm_times (meters b))) now in
  let b := on_samplers (fun s => s <| sm_tob := w |>) b in
  (changed, if changed then count_stat (fun st => st <| total_tob_changes ::= inc |>) b else b).
Definition tob_has_changed_since_last_poll b : bool := tob_changed (sm_tob (samplers b)) (top b).
Definition mean_tob_life_ns b : Z :=
  if total_tob_changes (stats_ b) <? 2 then 0 else total_tob_life_ns_ (sm_tob (samplers b)) `div` (total_tob_changes (stats_ b) - 1).
Definition set_spread_compression_threshold b (t : Z) : Book :=
  on_samplers (fun s => s <| sm_tob ::= fun w => w <| spread_compression_threshold_ticks_ := t |> |>) b.
(** The clock is read when both sides are quoted. *)
Definition sample_time_weighted_spread b : Book :=
  if negb (both_sides b) then b else
  let '(now, b) := mono_ns_now b in on_samplers (fun s => s <| sm_tws ::= fun w => tws_sample w (top b) now |>) b.
Definition sample_time_weighted_mid b : Book :=
  if negb (both_sides b) then b else
  let '(now, b) := mono_ns_now b in on_samplers (fun s => s <| sm_twm ::= fun w => twm_sample w (top b) now |>) b.
Definition poll_tob_micro b : Book := on_samplers (fun s => s <| sm_micro ::= fun m => micro_poll m (top b) |>) b.
Definition sample_spread_regime b : Book := on_samplers (fun s => s <| sm_regime ::= fun r => regime_sample r (top b) |>) b.
Definition sample_best_qty_histogram b : Book := on_samplers (fun s => s <| sm_hists ::= fun h => qty_hist_sample h (top b) |>) b.
Definition sample_spread_to_histogram b : Book := on_samplers (fun s => s <| sm_hists ::= fun h => spread_hist_sample h (top b) |>) b.
Definition sample_mid_to_ring b : Book :=
  if both_sides b then on_samplers (fun s => s <| mid_ring_ ::= fun r => pr_push r (mid_ticks b) |>) b else b.
Definition sample_microprice_to_ring b : Book :=
  if both_sides b then on_samplers (fun s => s <| microprice_ring_ ::= fun r => pr_push r (microprice_ticks b) |>) b else b.
Definition sample_ema_imbalance b : Book := on_samplers (fun s => s <| sm_ema ::= fun e => ema_sample e (top b) |>) b.
Definition sample_maker_survival b : Book :=
  on_samplers (fun s => s <| sm_survival ::= fun v => survival_sample v (entries (id_index_ b)).*1 |>) b.
Definition sample_quoted_spread b : Book :=
  if both_sides b then
    count_stat (fun st => st <| total_quoted_spread_ticks_obs ::= fun x => add64 x (u64 (spread_ticks b)) |>
                             <| total_quoted_spread_samples ::= inc |>) b
  else b.
Definition set_reference_price b (ref : Z) : Book :=
  on_samplers (fun s => s <| reference_price_ticks_ := ref |> <| reference_set_ := true |>) b.
Definition reference_drift_bps b : Z :=
  let ref := reference_price_ticks_ (samplers b) in
  if negb (reference_set_ (samplers b)) || (mid_ticks b <? 0) || (ref <=? 0) then -1
  else i32 (Z.abs (mid_ticks b - ref) * 10000 ÷ ref).

(** ** The integrity audit

    Every level is compared with the orders in its queue; a count of the
    disagreements.  The links of the queue are the list itself, so the checks
    of [prev_at_level] and [tail] cannot fail here. *)
Definition level_violations b (p : Z) : Z :=
  let l := level_at b p in
  let os := map (order_at b) (queue l) in
  let flag x := if (x : bool) then 0 else 1 in
  count_if (fun o => negb (o_price_ticks o =? p)) os + flag (order_count l =? i32 (alen os)) +
  flag (total_qty l =? sum64 o_displayed_qty os) + flag (total_hidden l =? sum64 hidden_qty os).
Definition audit_book_integrity b : Z := u64 (sumf (level_violations b) grid).

Record BookHealth := mkHealth {
  h_spread : Z; h_imbalance : Z; h_imbalance_3 : Z; h_hidden : double; h_flow : Z; h_vpin : Z; h_ctr : double;
  h_quoted : double; h_effective : double; h_ratio : double; h_flicker : Z; h_streak : Z; h_compression : Z;
  h_fills : Z; h_added : Z; h_cancelled : Z; h_seq : Z }.
Definition health_snapshot b : BookHealth :=
  let w := sm_tob (samplers b) in
  mkHealth (spread_ticks b) (imbalance_bps b) (imbalance_bps_n b 3) (hidden_liquidity_ratio b)
    (flow_imbalance_bps (tm_flow (meters b))) (vpin_bps (tm_flow (meters b))) (cancel_to_trade_ratio b)
    (mean_quoted_spread_ticks b) (mean_effective_spread_ticks b) (effective_to_quoted_ratio b) (quote_flicker_count_ w)
    (max_tob_unchanged_streak_ w) (spread_compression_events_ w) (total_fills (stats_ b)) (total_orders_added (stats_ b))
    (total_orders_cancelled (stats_ b)) (last_emitted_seq_ (wire b)).
Record LiquiditySnapshot := mkLiquidity {
  ls_bids : list DepthLevel; ls_asks : list DepthLevel; ls_spread : Z; ls_imbalance : Z; ls_bid_volume : Z;
  ls_ask_volume : Z; ls_microprice : Z }.
Definition liquidity_snapshot b : LiquiditySnapshot :=
  let '(bids, asks) := depth b 10 in
  mkLiquidity bids asks (spread_ticks b) (imbalance_bps b) (sumf dl_qty bids) (sumf dl_qty asks) (microprice_ticks b).
End book.
