(* ===== verification/LadderInv.v ===== *)
(** * LadderInv: the invariant of the full order book

    What every operation of [Ladder] and [LadderOps] relies on and keeps: the
    slots of the pool are split between the free list, the queues of the levels,
    the pending stops and the slots an operation holds; the totals of a level
    are the sums over its queue; the index leads to live orders.  An operation
    is a chain of the primitive changes below, each with its own lemma. *)
From S2P Require Import Prelude Double Common LadderTypes LadderTrades LadderSamples Ladder.

(** The template parameters are positive 32-bit numbers ([static_assert]). *)
Class EnvOk `{BookEnv} : Prop := {
  env_levels : 0 < LEVELS <= INT32_MAX;
  env_orders : 0 < MAX_ORDERS <= INT32_MAX }.

Section inv.
Context {env : BookEnv} {ok : EnvOk}.
Implicit Types b : Book.

(** ** What the invariant speaks about *)

Definition core b := (pool_ b, free_list_ b, levels_ b, id_index_ b, stop_orders_ b, active_orders_ b, (best_bid_ticks_ b, best_ask_ticks_ b)).
(** Equality of what can be observed of the core: a slot or level never touched
    reads as a fresh one. *)
Record ceq b b' : Prop := {
  ceq_order : forall s, order_at b' s = order_at b s;
  ceq_level : forall p, level_at b' p = level_at b p;
  ceq_free : free_list_ b' = free_list_ b;
  ceq_index : id_index_ b' = id_index_ b;
  ceq_stops : stop_orders_ b' = stop_orders_ b;
  ceq_active : active_orders_ b' = active_orders_ b;
  ceq_bid : best_bid_ticks_ b' = best_bid_ticks_ b;
  ceq_ask : best_ask_ticks_ b' = best_ask_ticks_ b }.

Definition open_qty (o : Order) : Z := o_total_qty o - o_filled_qty o.
Definition reserve (o : Order) : Z := open_qty o - o_displayed_qty o.
(** An order that may rest; [dark] allows hidden ones. *)
Record restable (dark : bool) (o : Order) : Prop := {
  ro_filled : 0 <= o_filled_qty o < o_total_qty o;
  ro_total : o_total_qty o <= INT32_MAX;
  ro_shown : 0 <= o_displayed_qty o <= open_qty o;
  ro_plain : (o_type o <> T_ICEBERG) -> (o_type o <> T_HIDDEN) -> o_displayed_qty o = open_qty o;
  ro_dark : o_type o = T_HIDDEN -> dark = true }.
Definition shown_sum b (q : list Z) : Z := sumf (fun s => o_displayed_qty (order_at b s)) q.
Definition reserve_sum b (q : list Z) : Z := sumf (fun s => reserve (order_at b s)) q.
Definition queued b (p s : Z) : Prop := s ∈ queue (level_at b p).
Definition rests b (s : Z) : Prop := queued b (o_price_ticks (order_at b s)) s.
(** No entry of the index leads to the slot. *)
Definition unref b (s : Z) : Prop := forall id, (id_index_ b !! id <> Some s).
Definition is_slot (s : Z) : Prop := 0 <= s < MAX_ORDERS.
(** A pending stop, of a 32-bit size. *)
Definition pending_ok (o : Order) : Prop := is_pending_stop o = true /\ o_total_qty o <= INT32_MAX.
(** [X] are the slots that an operation holds: taken from the pool, not yet
    resting, or taken out of a queue and not yet freed. *)
Record wf (dark : bool) (X : gset Z) b : Prop := {
  wf_queue : forall p s, queued b p s ->
    is_slot s /\ o_price_ticks (order_at b s) = p /\ is_active (order_at b s) = true /\
    restable dark (order_at b s) /\ in_range p = true;
  wf_nodup : forall p, NoDup (queue (level_at b p));
  wf_total : forall p, total_qty (level_at b p) = i32 (shown_sum b (queue (level_at b p)));
  wf_hidden : forall p, total_hidden (level_at b p) = i32 (reserve_sum b (queue (level_at b p)));
  wf_count : forall p, order_count (level_at b p) = alen (queue (level_at b p));
  wf_free : forall s, s ∈ free_list_ b -> is_slot s /\ s ∉ stop_orders_ b /\ forall p, ~ queued b p s;
  wf_free_nodup : NoDup (free_list_ b);
  wf_stop : forall s, s ∈ stop_orders_ b -> is_slot s /\ pending_ok (order_at b s);
  wf_stop_nodup : NoDup (stop_orders_ b);
  wf_held : forall s, s ∈ X -> is_slot s /\ s ∉ free_list_ b /\ s ∉ stop_orders_ b /\ forall p, ~ queued b p s;
  wf_index : forall id s, id_index_ b !! id = Some s ->
    o_id (order_at b s) = id /\ (rests b s \/ s ∈ stop_orders_ b \/ s ∈ X);
  wf_active : forall s, is_active (order_at b s) = true -> s ∈ X \/ rests b s;
  wf_cover : forall s, is_slot s -> s ∈ free_list_ b \/ s ∈ stop_orders_ b \/ s ∈ X \/ rests b s;
  wf_pool : active_orders_ b + alen (free_list_ b) = MAX_ORDERS;
  wf_bid : best_bid_ticks_ b = NO_BID_TICKS \/ in_range (best_bid_ticks_ b) = true;
  wf_ask : best_ask_ticks_ b = NO_ASK_TICKS \/ in_range (best_ask_ticks_ b) = true }.

(** ** Frames *)

Lemma ceq_core b b' : core b = core b' -> ceq b b'.
Proof.
  unfold core. intros E. simplify_eq. constructor; unfold order_at, level_at; congruence.
Qed.
Lemma ceq_refl b : ceq b b.
Proof. by apply ceq_core. Qed.
Lemma ceq_sym b b' : ceq b b' -> ceq b' b.
Proof. intros []. by constructor. Qed.
Lemma ceq_trans b1 b2 b3 : ceq b1 b2 -> ceq b2 b3 -> ceq b1 b3.
Proof. intros [] []. constructor; intros; etrans; eauto. Qed.
Lemma wf_ceq dark X b b' : ceq b b' -> wf dark X b -> wf dark X b'.
Proof.
  intros [Eo El Ef Ei Es Ea Eb Ek] W.
  assert (Q : forall p s, queued b' p s <-> queued b p s) by (intros; unfold queued; by rewrite El).
  assert (R : forall s, rests b' s <-> rests b s) by (intros; unfold rests; by rewrite Q, Eo).
  constructor; rewrite ?Ef, ?Ei, ?Es, ?Ea, ?Eb, ?Ek.
  - intros p s. rewrite Q, Eo. apply W.
  - intros p. rewrite El. apply W.
  - intros p. rewrite El, (wf_total _ _ _ W). f_equal. unfold shown_sum. apply sumf_ext. intros. by rewrite Eo.
  - intros p. rewrite El, (wf_hidden _ _ _ W). f_equal. unfold reserve_sum. apply sumf_ext. intros. by rewrite Eo.
  - intros p. rewrite El. apply W.
  - intros s Hs. destruct (wf_free _ _ _ W s Hs) as (?&?&N). split_and!; try done. intros p. by rewrite Q.
  - apply W.
  - intros s. rewrite Eo. apply W.
  - apply W.
  - intros s Hs. destruct (wf_held _ _ _ W s Hs) as (?&?&?&N). split_and!; try done. intros p. by rewrite Q.
  - intros id s. rewrite Eo, R. apply W.
  - intros s. rewrite Eo, R. apply W.
  - intros s. rewrite R. apply W.
  - apply W.
  - apply W.
  - apply W.
Qed.
Lemma wf_frame dark X b b' : core b = core b' -> wf dark X b -> wf dark X b'.
Proof. intros E. apply wf_ceq, ceq_core, E. Qed.

(** ** Reading after a write *)

Lemma order_at_set b s f s' : order_at (set_order b s f) s' = if decide (s' = s) then f (order_at b s) else order_at b s'.
Proof.
  unfold order_at at 1, set_order. cbn. destruct (decide (s' = s)) as [->|N].
  - by rewrite lookup_insert_eq.
  - by rewrite lookup_insert_ne by done.
Qed.
Lemma order_at_set_eq b s f : order_at (set_order b s f) s = f (order_at b s).
Proof. rewrite order_at_set. by rewrite decide_True. Qed.
Lemma order_at_set_ne b s f s' : s' <> s -> order_at (set_order b s f) s' = order_at b s'.
Proof. intros N. rewrite order_at_set. by rewrite decide_False. Qed.
Lemma level_at_set b p f q : level_at (set_level b p f) q = if decide (q = p) then f (level_at b p) else level_at b q.
Proof.
  unfold level_at at 1, set_level. cbn. destruct (decide (q = p)) as [->|N].
  - by rewrite lookup_insert_eq.
  - by rewrite lookup_insert_ne by done.
Qed.
Lemma level_at_set_eq b p f : level_at (set_level b p f) p = f (level_at b p).
Proof. rewrite level_at_set. by rewrite decide_True. Qed.
Lemma level_at_set_ne b p f q : q <> p -> level_at (set_level b p f) q = level_at b q.
Proof. intros N. rewrite level_at_set. by rewrite decide_False. Qed.

(** What each primitive change leaves alone. *)
Lemma obs_level_set_order b s f q : level_at (set_order b s f) q = level_at b q.
Proof. done. Qed.
Lemma obs_free_set_order b s f : free_list_ (set_order b s f) = free_list_ b.
Proof. done. Qed.
Lemma obs_index_set_order b s f : id_index_ (set_order b s f) = id_index_ b.
Proof. done. Qed.
Lemma obs_stops_set_order b s f : stop_orders_ (set_order b s f) = stop_orders_ b.
Proof. done. Qed.
Lemma obs_active_set_order b s f : active_orders_ (set_order b s f) = active_orders_ b.
Proof. done. Qed.
Lemma obs_bid_set_order b s f : best_bid_ticks_ (set_order b s f) = best_bid_ticks_ b.
Proof. done. Qed.
Lemma obs_ask_set_order b s f : best_ask_ticks_ (set_order b s f) = best_ask_ticks_ b.
Proof. done. Qed.
Lemma obs_order_set_level b p f x : order_at (set_level b p f) x = order_at b x.
Proof. done. Qed.
Lemma obs_free_set_level b p f : free_list_ (set_level b p f) = free_list_ b.
Proof. done. Qed.
Lemma obs_index_set_level b p f : id_index_ (set_level b p f) = id_index_ b.
Proof. done. Qed.
Lemma obs_stops_set_level b p f : stop_orders_ (set_level b p f) = stop_orders_ b.
Proof. done. Qed.
Lemma obs_active_set_level b p f : active_orders_ (set_level b p f) = active_orders_ b.
Proof. done. Qed.
Lemma obs_bid_set_level b p f : best_bid_ticks_ (set_level b p f) = best_bid_ticks_ b.
Proof. done. Qed.
Lemma obs_ask_set_level b p f : best_ask_ticks_ (set_level b p f) = best_ask_ticks_ b.
Proof. done. Qed.
Lemma obs_order_free_order b s x : order_at (free_order b s) x = order_at b x.
Proof. done. Qed.
Lemma obs_level_free_order b s q : level_at (free_order b s) q = level_at b q.
Proof. done. Qed.
Lemma obs_free_free_order b s : free_list_ (free_order b s) = s :: free_list_ b.
Proof. done. Qed.
Lemma obs_index_free_order b s : id_index_ (free_order b s) = id_index_ b.
Proof. done. Qed.
Lemma obs_stops_free_order b s : stop_orders_ (free_order b s) = stop_orders_ b.
Proof. done. Qed.
Lemma obs_active_free_order b s : active_orders_ (free_order b s) = u64 (active_orders_ b - 1).
Proof. done. Qed.
Lemma obs_bid_free_order b s : best_bid_ticks_ (free_order b s) = best_bid_ticks_ b.
Proof. done. Qed.
Lemma obs_ask_free_order b s : best_ask_ticks_ (free_order b s) = best_ask_ticks_ b.
Proof. done. Qed.
Lemma obs_order_forget_id b id x : order_at (forget_id id b) x = order_at b x.
Proof. done. Qed.
Lemma obs_level_forget_id b id q : level_at (forget_id id b) q = level_at b q.
Proof. done. Qed.
Lemma obs_free_forget_id b id : free_list_ (forget_id id b) = free_list_ b.
Proof. done. Qed.
Lemma obs_index_forget_id b id : id_index_ (forget_id id b) = delete id (id_index_ b).
Proof. done. Qed.
Lemma obs_stops_forget_id b id : stop_orders_ (forget_id id b) = stop_orders_ b.
Proof. done. Qed.
Lemma obs_active_forget_id b id : active_orders_ (forget_id id b) = active_orders_ b.
Proof. done. Qed.
Lemma obs_bid_forget_id b id : best_bid_ticks_ (forget_id id b) = best_bid_ticks_ b.
Proof. done. Qed.
Lemma obs_ask_forget_id b id : best_ask_ticks_ (forget_id id b) = best_ask_ticks_ b.
Proof. done. Qed.
Lemma obs_order_unlink b s x : order_at (unlink_from_level b s) x = order_at b x.
Proof. done. Qed.
Lemma obs_free_unlink b s : free_list_ (unlink_from_level b s) = free_list_ b.
Proof. done. Qed.
Lemma obs_index_unlink b s : id_index_ (unlink_from_level b s) = id_index_ b.
Proof. done. Qed.
Lemma obs_stops_unlink b s : stop_orders_ (unlink_from_level b s) = stop_orders_ b.
Proof. done. Qed.
Lemma obs_active_unlink b s : active_orders_ (unlink_from_level b s) = active_orders_ b.
Proof. done. Qed.
Lemma obs_bid_unlink b s : best_bid_ticks_ (unlink_from_level b s) = best_bid_ticks_ b.
Proof. done. Qed.
Lemma obs_ask_unlink b s : best_ask_ticks_ (unlink_from_level b s) = best_ask_ticks_ b.
Proof. done. Qed.
Lemma obs_order_enqueue b s x : order_at (enqueue_at_level b s) x = order_at b x.
Proof. done. Qed.
Lemma obs_free_enqueue b s : free_list_ (enqueue_at_level b s) = free_list_ b.
Proof. done. Qed.
Lemma obs_index_enqueue b s : id_index_ (enqueue_at_level b s) = id_index_ b.
Proof. done. Qed.
Lemma obs_stops_enqueue b s : stop_orders_ (enqueue_at_level b s) = stop_orders_ b.
Proof. done. Qed.
Lemma obs_active_enqueue b s : active_orders_ (enqueue_at_level b s) = active_orders_ b.
Proof. done. Qed.
Lemma obs_bid_enqueue b s : best_bid_ticks_ (enqueue_at_level b s) = best_bid_ticks_ b.
Proof. done. Qed.
Lemma obs_ask_enqueue b s : best_ask_ticks_ (enqueue_at_level b s) = best_ask_ticks_ b.
Proof. done. Qed.
Lemma obs_order_count b f x : order_at (count_order f b) x = order_at b x.
Proof. done. Qed.
Lemma obs_level_count b f q : level_at (count_order f b) q = level_at b q.
Proof. done. Qed.
Lemma obs_free_count b f : free_list_ (count_order f b) = free_list_ b.
Proof. done. Qed.
Lemma obs_index_count b f : id_index_ (count_order f b) = id_index_ b.
Proof. done. Qed.
Lemma obs_stops_count b f : stop_orders_ (count_order f b) = stop_orders_ b.
Proof. done. Qed.
Lemma obs_active_count b f : active_orders_ (count_order f b) = active_orders_ b.
Proof. done. Qed.
Lemma obs_bid_count b f : best_bid_ticks_ (count_order f b) = best_bid_ticks_ b.
Proof. done. Qed.
Lemma obs_ask_count b f : best_ask_ticks_ (count_order f b) = best_ask_ticks_ b.
Proof. done. Qed.
Lemma obs_order_cfg b c x : order_at (b <| cfg := c |>) x = order_at b x.
Proof. done. Qed.
Lemma obs_level_cfg b c q : level_at (b <| cfg := c |>) q = level_at b q.
Proof. done. Qed.

Lemma remove_slot_elem s q x : x ∈ remove_slot s q <-> x ∈ q /\ x <> s.
Proof. unfold remove_slot. rewrite list_elem_of_filter. tauto. Qed.
Lemma remove_slot_absent s q : s ∉ q -> remove_slot s q = q.
Proof.
  unfold remove_slot. induction q as [|x q IH]; intros N; [done|]. apply not_elem_of_cons in N as [N1 N2].
  rewrite filter_cons_True by congruence. by rewrite IH.
Qed.
Lemma remove_slot_perm s q : NoDup q -> s ∈ q -> q ≡ₚ s :: remove_slot s q.
Proof.
  intros Hn Hs. induction Hn as [|x q Hx Hn IH]; [by apply elem_of_nil in Hs|].
  unfold remove_slot. rewrite filter_cons. destruct (decide (x <> s)) as [N|E].
  - apply elem_of_cons in Hs as [->|Hs]; [done|]. rewrite (Permutation_swap x s). f_equiv. by apply IH.
  - assert (x = s) as -> by (destruct (decide (x = s)); tauto). f_equiv.
    fold (remove_slot s q). by rewrite remove_slot_absent.
Qed.
Lemma remove_slot_nodup s q : NoDup q -> NoDup (remove_slot s q).
Proof. apply NoDup_filter. Qed.

(** ** Counting slots *)

Lemma slots_elem n x : x ∈ slots n <-> 0 <= x < n.
Proof.
  unfold slots. change (map Z.of_nat) with (fmap (M:=list) Z.of_nat). rewrite list_elem_of_fmap. split.
  - intros (k & -> & Hk%elem_of_seq). lia.
  - intros H. exists (Z.to_nat x). rewrite elem_of_seq. lia.
Qed.
Lemma slots_length n : 0 <= n -> alen (slots n) = n.
Proof. intros H. unfold alen, slots. rewrite length_map, length_seq. lia. Qed.
Lemma slots_bound l : NoDup l -> (forall s, s ∈ l -> is_slot s) -> alen l <= MAX_ORDERS.
Proof.
  intros Hn Hs. destruct ok as [_ Ho]. rewrite <- (slots_length MAX_ORDERS) by lia.
  unfold alen. apply inj_le, submseteq_length, NoDup_submseteq; [done|].
  intros x Hx. apply slots_elem, Hs, Hx.
Qed.

(** ** The primitive changes *)

(** A held slot may be written at will, as long as entries that lead to it
    keep its id. *)
Lemma wf_set_held dark X b s f :
  s ∈ X -> o_id (f (order_at b s)) = o_id (order_at b s) \/ unref b s -> wf dark X b -> wf dark X (set_order b s f).
Proof.
  intros Hs Hid W. destruct (wf_held _ _ _ W s Hs) as (Hr & Hf & Hst & Hq).
  assert (N : forall p x, queued b p x -> x <> s) by (intros p x Hx ->; by apply (Hq p)).
  assert (R : forall x, x <> s -> rests b x -> rests (set_order b s f) x).
  { intros x Nx. unfold rests. by rewrite order_at_set_ne by done. }
  constructor; try apply W.
  - intros p x Hx. rewrite order_at_set_ne by by apply (N p). by apply W.
  - intros p. etrans; [apply (wf_total _ _ _ W p)|]. f_equal. apply sumf_ext. intros x Hx. by rewrite order_at_set_ne by by apply (N p).
  - intros p. etrans; [apply (wf_hidden _ _ _ W p)|]. f_equal. apply sumf_ext. intros x Hx. by rewrite order_at_set_ne by by apply (N p).
  - intros x Hx. rewrite order_at_set_ne by (intros ->; done). by apply W.
  - intros id x Hx. destruct (decide (x = s)) as [->|Nx].
    + rewrite order_at_set_eq. destruct Hid as [->|U]; [|by destruct (U id)]. split; [by apply (wf_index _ _ _ W)|by right; right].
    + rewrite order_at_set_ne by done. destruct (wf_index _ _ _ W id x Hx) as [? [?|?]]; split; auto.
  - intros x Hx. destruct (decide (x = s)) as [->|Nx]; [by left|]. rewrite order_at_set_ne in Hx by done.
    destruct (wf_active _ _ _ W x Hx); auto.
  - intros x Hx. destruct (decide (x = s)) as [->|Nx]; [auto|]. destruct (wf_cover _ _ _ W x Hx) as [?|[?|[?|?]]]; auto.
Qed.
(** Losing an entry of the index. *)
Lemma wf_forget dark X b id : wf dark X b -> wf dark X (forget_id id b).
Proof.
  intros W. constructor; try apply W.
  intros id' s. unfold forget_id. cbn. intros [_ H]%lookup_delete_Some. by apply (wf_index _ _ _ W).
Qed.
Lemma unref_forget dark X b s : wf dark X b -> unref (forget_id (o_id (order_at b s)) b) s.
Proof.
  intros W id. unfold forget_id. cbn. intros [N H]%lookup_delete_Some. by apply (wf_index _ _ _ W) in H as [? _].
Qed.
Lemma unref_forget_mono b s id : unref b s -> unref (forget_id id b) s.
Proof. intros U id'. unfold forget_id. cbn. intros [_ H]%lookup_delete_Some. by apply (U id'). Qed.
Lemma wf_index_add dark X b id s :
  o_id (order_at b s) = id -> rests b s \/ s ∈ stop_orders_ b \/ s ∈ X -> wf dark X b -> wf dark X (b <| id_index_ ::= <[id := s]> |>).
Proof.
  intros Hid Hl W. constructor; try apply W.
  intros id' s'. cbn. intros [[<- <-]|[_ H]]%lookup_insert_Some; [done|]. by apply (wf_index _ _ _ W).
Qed.
Lemma wf_free_slot dark X b s :
  s ∈ X -> is_active (order_at b s) = false -> unref b s -> wf dark X b -> wf dark (X ∖ {[s]}) (free_order b s).
Proof.
  intros Hs Ha Hu W. destruct (wf_held _ _ _ W s Hs) as (Hr & Hf & Hst & Hq).
  constructor; try apply W.
  - intros x [->|Hx]%elem_of_cons; [done|]. by apply (wf_free _ _ _ W).
  - constructor; [done|]. apply W.
  - intros x [Hx Nx]%elem_of_difference. destruct (wf_held _ _ _ W x Hx) as (?&?&?&?).
    split_and!; try done. cbn. apply not_elem_of_cons. set_solver.
  - intros id x Hx. destruct (wf_index _ _ _ W id x Hx) as [? [?|[?|?]]]; split; auto.
    right; right. apply elem_of_difference. split; [done|]. intros ->%elem_of_singleton. by apply (Hu id).
  - intros x Hx. destruct (wf_active _ _ _ W x Hx) as [Hx'|?]; [left|by right].
    apply elem_of_difference. split; [done|]. intros ->%elem_of_singleton. unfold order_at in *. cbn in Hx. congruence.
  - intros x Hx. cbn. rewrite elem_of_cons, elem_of_difference, elem_of_singleton.
    destruct (wf_cover _ _ _ W x Hx) as [?|[?|[?|?]]]; auto. destruct (decide (x = s)); auto.
  - cbn. pose proof (wf_pool _ _ _ W) as Hp. unfold alen in *. rewrite length_cons.
    assert (alen (s :: free_list_ b) <= MAX_ORDERS) as B.
    { apply slots_bound; [constructor; [done|apply W]|]. intros x [->|Hx]%elem_of_cons; [done|]. by apply (wf_free _ _ _ W). }
    unfold alen in B. rewrite length_cons in B. destruct ok as [_ ?]. unfold INT32_MAX in *.
    rewrite u64_small by lia. lia.
Qed.
Lemma wf_alloc dark X b s b' :
  alloc_order b = Some (s, b') -> wf dark X b ->
  wf dark ({[s]} ∪ X) b' /\ order_at b' s = reset_order /\ unref b' s /\ s ∉ X /\
  (forall x, x <> s -> order_at b' x = order_at b x) /\ id_index_ b' = id_index_ b.
Proof.
  intros E W. unfold alloc_order in E. destruct (free_list_ b) as [|s0 free] eqn:Ef; [done|].
  set (b1 := b <| free_list_ := free |> <| pool_ ::= <[s0 := reset_order]> |> <| active_orders_ := inc (active_orders_ b) |>).
  assert (s0 = s /\ core b' = core b1) as [-> C].
  { destruct (pool_high_water_ _ <? _); simplify_eq; done. }
  clear E. assert (Hs : s ∈ free_list_ b) by (rewrite Ef; by left).
  destruct (wf_free _ _ _ W s Hs) as (Hr & Hst & Hq).
  assert (NX : s ∉ X) by (intros HX; by destruct (wf_held _ _ _ W s HX) as (?&?&_)).
  assert (Hu : unref b s).
  { intros id Hid. destruct (wf_index _ _ _ W id s Hid) as [_ [H|[H|H]]]; [by apply (Hq (o_price_ticks (order_at b s)))|done|done]. }
  assert (Oe : order_at b1 s = reset_order) by (unfold order_at; cbn; by rewrite lookup_insert_eq).
  assert (On : forall x, x <> s -> order_at b1 x = order_at b x) by (intros x N; unfold order_at; cbn; by rewrite lookup_insert_ne by done).
  assert (Nq : forall p x, queued b p x -> x <> s) by (intros p x H ->; by apply (Hq p)).
  assert (Rn : forall x, x <> s -> rests b x -> rests b1 x) by (intros x N; unfold rests; by rewrite On by done).
  pose proof (wf_free_nodup _ _ _ W) as Nd. rewrite Ef in Nd. apply NoDup_cons in Nd as [Nf Nd].
  assert (W1 : wf dark ({[s]} ∪ X) b1).
  { constructor; try apply W.
    - intros p x Hx. rewrite On by by apply (Nq p). by apply W.
    - intros p. etrans; [apply (wf_total _ _ _ W p)|]. f_equal. apply sumf_ext. intros x Hx. by rewrite On by by apply (Nq p).
    - intros p. etrans; [apply (wf_hidden _ _ _ W p)|]. f_equal. apply sumf_ext. intros x Hx. by rewrite On by by apply (Nq p).
    - intros x Hx. cbn in Hx. apply (wf_free _ _ _ W). rewrite Ef. by right.
    - done.
    - intros x Hx. rewrite On by (intros ->; done). by apply W.
    - intros x [->%elem_of_singleton|Hx]%elem_of_union; [done|]. destruct (wf_held _ _ _ W x Hx) as (?&Nx&?&?).
      split_and!; try done. cbn. rewrite Ef in Nx. by apply not_elem_of_cons in Nx as [_ ?].
    - intros id x Hx. destruct (decide (x = s)) as [->|N]; [by destruct (Hu id)|]. rewrite On by done.
      destruct (wf_index _ _ _ W id x Hx) as [? [?|[?|?]]]; split; auto. right; right. set_solver.
    - intros x Hx. destruct (decide (x = s)) as [->|N]; [by rewrite Oe in Hx|]. rewrite On in Hx by done.
      destruct (wf_active _ _ _ W x Hx); [left; set_solver|auto].
    - intros x Hx. destruct (decide (x = s)) as [->|N]; [right; right; left; set_solver|].
      destruct (wf_cover _ _ _ W x Hx) as [H|[?|[?|?]]]; auto; [|right; right; left; set_solver].
      left. rewrite Ef in H. by apply elem_of_cons in H as [?|?].
    - pose proof (wf_pool _ _ _ W) as Hp. rewrite Ef in Hp. cbn. unfold alen, inc in *. rewrite length_cons in Hp.
      destruct ok as [_ ?]. unfold INT32_MAX in *.
      assert (alen (free_list_ b) <= MAX_ORDERS) as B.
      { apply slots_bound; [apply W|]. intros x Hx. by apply (wf_free _ _ _ W). }
      rewrite Ef in B. unfold alen in B. rewrite length_cons in B. rewrite u64_small by lia. lia. }
  pose proof (ceq_core _ _ (eq_sym C)) as Q.
  split_and!.
  - by eapply wf_ceq.
  - by rewrite (ceq_order _ _ Q).
  - intros id. rewrite (ceq_index _ _ Q). apply Hu.
  - done.
  - intros x N. rewrite (ceq_order _ _ Q). by apply On.
  - by rewrite (ceq_index _ _ Q).
Qed.
Lemma queued_set_level b p f q x :
  queued (set_level b p f) q x <-> x ∈ queue (if decide (q = p) then f (level_at b p) else level_at b q).
Proof. unfold queued. by rewrite level_at_set. Qed.

(** The sums of a level at whose queue one slot leaves. *)
Lemma i32_drop f q s : NoDup q -> s ∈ q -> i32 (i32 (sumf f q) - f s) = i32 (sumf f (remove_slot s q)).
Proof.
  intros Hn Hs. rewrite wraps_sub_l by lia. f_equal. rewrite (sumf_perm f _ _ (remove_slot_perm s q Hn Hs)), sumf_cons. lia.
Qed.
Lemma hidden_qty_reserve o : hidden_qty o = i32 (reserve o).
Proof. unfold hidden_qty, reserve, open_qty. f_equal. Qed.
Lemma alen_remove s q : NoDup q -> s ∈ q -> alen (remove_slot s q) = drop_count (alen q).
Proof.
  intros Hn Hs. pose proof (Permutation_length (remove_slot_perm s q Hn Hs)) as L. simpl in L.
  unfold drop_count, alen. zcases.
Qed.

(** Taking a slot out of its queue. *)
Lemma wf_unlink dark X b s : rests b s -> wf dark X b -> wf dark ({[s]} ∪ X) (unlink_from_level b s).
Proof.
  intros Hr W. set (p := o_price_ticks (order_at b s)) in *. unfold unlink_from_level. fold p.
  set (b' := set_level _ _ _). destruct (wf_queue _ _ _ W p s Hr) as (Hs & _ & Ha & _).
  pose proof (wf_nodup _ _ _ W p) as Hn.
  assert (Lq : forall q, queue (level_at b' q) = if decide (q = p) then remove_slot s (queue (level_at b p)) else queue (level_at b q)).
  { intros q. unfold b'. rewrite level_at_set. by destruct (decide (q = p)). }
  assert (Q : forall q x, queued b' q x <-> queued b q x /\ x <> s).
  { intros q x. unfold queued. rewrite Lq. destruct (decide (q = p)) as [->|N]; [apply remove_slot_elem|].
    split; [|tauto]. intros H. split; [done|]. intros ->. apply N. by destruct (wf_queue _ _ _ W q s H) as (_ & <- & _). }
  assert (R : forall x, rests b' x <-> rests b x /\ x <> s) by (intros x; apply Q).
  assert (Nf : s ∉ free_list_ b) by (intros H; destruct (wf_free _ _ _ W s H) as (_ & _ & N); by apply (N p)).
  assert (Ns : s ∉ stop_orders_ b).
  { intros H. destruct (wf_stop _ _ _ W s H) as [_ [E _]]. unfold is_pending_stop in E. bsplit.
    unfold is_active in Ha. repeat case_bool_decide; simplify_eq; congruence. }
  constructor; try apply W.
  - intros q x [Hx _]%Q. by apply (wf_queue _ _ _ W).
  - intros q. rewrite Lq. destruct (decide (q = p)); [by apply remove_slot_nodup|apply W].
  - intros q. rewrite Lq. unfold b'. rewrite level_at_set. destruct (decide (q = p)) as [->|N]; [|apply W]. cbn.
    rewrite (wf_total _ _ _ W p). by apply (i32_drop (fun x => o_displayed_qty (order_at b x))).
  - intros q. rewrite Lq. unfold b'. rewrite level_at_set. destruct (decide (q = p)) as [->|N]; [|apply W]. cbn.
    rewrite (wf_hidden _ _ _ W p), hidden_qty_reserve, wraps_sub_r by lia.
    by apply (i32_drop (fun x => reserve (order_at b x))).
  - intros q. rewrite Lq. unfold b'. rewrite level_at_set. destruct (decide (q = p)) as [->|N]; [|apply W]. cbn.
    rewrite (wf_count _ _ _ W p). symmetry. by apply alen_remove.
  - intros x Hx. destruct (wf_free _ _ _ W x Hx) as (?&?&N). split_and!; try done. intros q [? _]%Q. by apply (N q).
  - intros x [->%elem_of_singleton|Hx]%elem_of_union.
    + split_and!; try done. intros q [_ ?]%Q. done.
    + destruct (wf_held _ _ _ W x Hx) as (?&?&?&N). split_and!; try done. intros q [? _]%Q. by apply (N q).
  - intros id x Hx. destruct (wf_index _ _ _ W id x Hx) as [? H]. split; [done|]. rewrite R.
    destruct (decide (x = s)) as [->|N]; [right; right; set_solver|]. destruct H as [?|[?|?]]; auto. right; right. set_solver.
  - intros x Hx. rewrite R. destruct (decide (x = s)) as [->|N]; [left; set_solver|].
    destruct (wf_active _ _ _ W x Hx); [left; set_solver|auto].
  - intros x Hx. rewrite R. destruct (decide (x = s)) as [->|N]; [right; right; left; set_solver|].
    destruct (wf_cover _ _ _ W x Hx) as [?|[?|[?|?]]]; auto. right; right; left. set_solver.
Qed.
(** Putting a held slot at the end of its level's queue. *)
Lemma wf_enqueue dark X b s :
  s ∈ X -> is_active (order_at b s) = true -> restable dark (order_at b s) -> in_range (o_price_ticks (order_at b s)) = true ->
  wf dark X b -> wf dark (X ∖ {[s]}) (enqueue_at_level b s).
Proof.
  intros Hs Ha Ho Hp W. set (p := o_price_ticks (order_at b s)) in *. unfold enqueue_at_level. fold p.
  set (b' := set_level _ _ _). destruct (wf_held _ _ _ W s Hs) as (Hr & Nf & Ns & Nq).
  assert (Lq : forall q, queue (level_at b' q) = if decide (q = p) then queue (level_at b p) ++ [s] else queue (level_at b q)).
  { intros q. unfold b'. rewrite level_at_set. by destruct (decide (q = p)). }
  assert (Q : forall q x, queued b' q x <-> queued b q x \/ x = s /\ q = p).
  { intros q x. unfold queued. rewrite Lq. destruct (decide (q = p)) as [->|N].
    - rewrite elem_of_app, list_elem_of_singleton. naive_solver.
    - naive_solver. }
  assert (R : forall x, rests b' x <-> rests b x \/ x = s).
  { intros x. unfold rests. rewrite Q. unfold b'. change (order_at (set_level b p _) x) with (order_at b x). naive_solver. }
  assert (Nd : forall q, NoDup (queue (level_at b' q))).
  { intros q. rewrite Lq. destruct (decide (q = p)) as [->|N]; [|apply W]. apply NoDup_app. split_and!; [apply W| |by apply NoDup_singleton].
    intros x Hx ->%list_elem_of_singleton. by apply (Nq p). }
  assert (Sl : forall q x, queued b' q x -> is_slot x).
  { intros q x [Hx|[-> ->]]%Q; [|done]. by destruct (wf_queue _ _ _ W q x Hx). }
  constructor; try apply W; try exact Nd.
  - intros q x [Hx|[-> ->]]%Q; [by apply (wf_queue _ _ _ W)|done].
  - intros q. rewrite Lq. unfold b'. rewrite level_at_set. destruct (decide (q = p)) as [->|N]; [|apply W]. cbn.
    unfold shown_sum. rewrite (wf_total _ _ _ W p), sumf_app, wraps_add_l by lia. f_equal. unfold shown_sum. simpl.
    change (order_at (set_level b p _) s) with (order_at b s). unfold set_level, order_at. cbn. lia.
  - intros q. rewrite Lq. unfold b'. rewrite level_at_set. destruct (decide (q = p)) as [->|N]; [|apply W]. cbn.
    unfold reserve_sum. rewrite (wf_hidden _ _ _ W p), sumf_app, hidden_qty_reserve, wraps_add_l, wraps_add_r by lia. f_equal.
    unfold reserve_sum, set_level, order_at. simpl. lia.
  - intros q. rewrite Lq. unfold b'. rewrite level_at_set. destruct (decide (q = p)) as [->|N]; [|apply W]. cbn.
    rewrite (wf_count _ _ _ W p), alen_app. change (alen [s]) with 1.
    pose proof (slots_bound (queue (level_at b' p)) (Nd p) (fun x => Sl p x)) as B.
    rewrite Lq, decide_True, alen_app in B by done. change (alen [s]) with 1 in B.
    destruct ok as [_ Hm]. unfold INT32_MAX in Hm. pose proof (alen_nonneg (queue (level_at b p))). rewrite i32_small by lia. done.
  - intros x Hx. destruct (wf_free _ _ _ W x Hx) as (?&?&N). split_and!; try done. intros q [?|[-> ->]]%Q; [by apply (N q)|done].
  - intros x [Hx Nx]%elem_of_difference. destruct (wf_held _ _ _ W x Hx) as (?&?&?&N).
    split_and!; try done. intros q [?|[-> ->]]%Q; [by apply (N q)|set_solver].
  - intros id x Hx. destruct (wf_index _ _ _ W id x Hx) as [? H]. split; [done|]. rewrite R.
    destruct H as [?|[?|?]]; auto. destruct (decide (x = s)); auto. right; right. set_solver.
  - intros x Hx. rewrite R. destruct (wf_active _ _ _ W x Hx); auto. destruct (decide (x = s)); auto. left. set_solver.
  - intros x Hx. rewrite R. destruct (wf_cover _ _ _ W x Hx) as [?|[?|[?|?]]]; auto.
    destruct (decide (x = s)); auto. right; right; left. set_solver.
Qed.

(** Changing a resting order in place: its level's totals follow, and the queue
    may be reordered. *)
Definition moved (old new : Order) (q' : list Z) (l : PriceLevel) : PriceLevel :=
  mkLevel q' (i32 (total_qty l + (o_displayed_qty new - o_displayed_qty old)))
    (i32 (total_hidden l + (reserve new - reserve old))) (order_count l).
Lemma i32_change (f g : Z -> Z) (q : list Z) s : NoDup q -> s ∈ q -> (forall x, x <> s -> g x = f x) -> i32 (i32 (sumf f q) + (g s - f s)) = i32 (sumf g q).
Proof.
  intros Hn Hs H. rewrite wraps_add_l by lia. f_equal. rewrite (sumf_update f g q s Hn H), decide_True by done. done.
Qed.
Lemma wf_touch dark X b b' s o' q' :
  let o := order_at b s in let p := o_price_ticks o in
  rests b s -> restable dark o' -> is_active o' = true -> o_price_ticks o' = p -> o_id o' = o_id o ->
  q' ≡ₚ queue (level_at b p) ->
  ceq (set_level (set_order b s (fun _ => o')) p (moved o o' q')) b' -> wf dark X b -> wf dark X b'.
Proof.
  intros o p Hr Ho Ha Hp Hi Hq C W. eapply wf_ceq; [exact C|]. clear C b'.
  set (b' := set_level _ _ _). destruct (wf_queue _ _ _ W p s Hr) as (Hs & _ & _ & _ & Hin).
  assert (Oe : order_at b' s = o') by (unfold b'; apply (order_at_set_eq b s)).
  assert (On : forall x, x <> s -> order_at b' x = order_at b x) by (intros x N; unfold b'; by apply (order_at_set_ne b s)).
  assert (Lv : forall q, level_at b' q = if decide (q = p) then moved o o' q' (level_at b p) else level_at b q).
  { intros q. unfold b'. by rewrite level_at_set. }
  assert (Lq : forall q, queue (level_at b' q) ≡ₚ queue (level_at b q)).
  { intros q. rewrite Lv. by destruct (decide (q = p)) as [->|]. }
  assert (Q : forall q x, queued b' q x <-> queued b q x) by (intros; unfold queued; by rewrite Lq).
  assert (R : forall x, rests b' x <-> rests b x).
  { intros x. unfold rests. rewrite Q. destruct (decide (x = s)) as [->|N]; [by rewrite Oe, Hp|by rewrite On]. }
  assert (Nq : forall q x, q <> p -> queued b q x -> x <> s) by (intros q x N Hx ->; by destruct (wf_queue _ _ _ W q s Hx) as (_ & ? & _)).
  constructor; try apply W.
  - intros q x Hx%Q. destruct (decide (x = s)) as [->|N]; [|rewrite On by done; by apply (wf_queue _ _ _ W)].
    destruct (wf_queue _ _ _ W q s Hx) as (_ & <- & _). rewrite Oe. done.
  - intros q. rewrite Lq. apply W.
  - intros q. unfold shown_sum. rewrite (sumf_perm _ _ _ (Lq q)), Lv. destruct (decide (q = p)) as [->|N]; cbn.
    + rewrite (wf_total _ _ _ W p). change o with (order_at b s). rewrite <- Oe.
      apply (i32_change (fun x => o_displayed_qty (order_at b x)) (fun x => o_displayed_qty (order_at b' x))); [apply W|done|].
      intros x Nx. by rewrite On.
    + rewrite (wf_total _ _ _ W q). f_equal. apply sumf_ext. intros x Hx. rewrite On; [done|by apply (Nq q)].
  - intros q. unfold reserve_sum. rewrite (sumf_perm _ _ _ (Lq q)), Lv. destruct (decide (q = p)) as [->|N]; cbn.
    + rewrite (wf_hidden _ _ _ W p). change o with (order_at b s). rewrite <- Oe.
      apply (i32_change (fun x => reserve (order_at b x)) (fun x => reserve (order_at b' x))); [apply W|done|].
      intros x Nx. by rewrite On.
    + rewrite (wf_hidden _ _ _ W q). f_equal. apply sumf_ext. intros x Hx. rewrite On; [done|by apply (Nq q)].
  - intros q. unfold alen. rewrite (Permutation_length (Lq q)), Lv. destruct (decide (q = p)) as [->|N]; cbn; apply W.
  - intros x Hx. destruct (wf_free _ _ _ W x Hx) as (?&?&N). split_and!; try done. intros q. by rewrite Q.
  - intros x Hx. destruct (wf_stop _ _ _ W x Hx) as [? [E Es]]. destruct (decide (x = s)) as [->|N]; [|by rewrite On].
    destruct (wf_queue _ _ _ W p s Hr) as (_ & _ & A & _). unfold is_pending_stop, is_active in *.
    exfalso. repeat case_bool_decide; simplify_eq/=; congruence.
  - intros x Hx. destruct (wf_held _ _ _ W x Hx) as (?&?&?&N). split_and!; try done. intros q. by rewrite Q.
  - intros id x Hx. destruct (wf_index _ _ _ W id x Hx) as [<- H]. split; [|by rewrite R].
    destruct (decide (x = s)) as [->|N]; [by rewrite Oe|by rewrite On].
  - intros x Hx. rewrite R. destruct (decide (x = s)) as [->|N]; [by right|]. rewrite On in Hx by done. by apply (wf_active _ _ _ W).
  - intros x. rewrite R. apply (wf_cover _ _ _ W).
Qed.

(** ** Pending stops *)

Lemma swap_remove_perm {A} (l : list A) i x : l !! i = Some x -> l ≡ₚ x :: swap_remove i l.
Proof.
  intros Hi. unfold swap_remove. destruct (last l) as [y|] eqn:El.
  - apply last_Some in El as [k ->]. rewrite length_app. cbn. replace (length k + 1 - 1)%nat with (length k) by lia.
    destruct (decide (i < length k)%nat) as [L|L].
    + rewrite insert_app_l by done. rewrite take_app_le by (by rewrite length_insert).
      rewrite take_ge by (rewrite length_insert; lia). rewrite lookup_app_l in Hi by done.
      rewrite (Permutation_app_comm k). cbn. rewrite <- (take_drop_middle k i x Hi) at 1.
      rewrite insert_take_drop by done. rewrite <- !Permutation_middle. apply perm_swap.
    + assert (i = length k) as -> by (apply lookup_lt_Some in Hi; rewrite length_app in Hi; cbn in Hi; lia).
      rewrite lookup_app_r, Nat.sub_diag in Hi by done. cbn in Hi. simplify_eq.
      rewrite insert_app_r_alt, take_app_le, take_ge by done. by rewrite <- Permutation_cons_append.
  - apply last_None in El as ->. done.
Qed.
Lemma wf_stop_add dark X b s :
  s ∈ X -> pending_ok (order_at b s) -> wf dark X b -> wf dark (X ∖ {[s]}) (b <| stop_orders_ ::= fun l => l ++ [s] |>).
Proof.
  intros Hs [Hp Ht] W. destruct (wf_held _ _ _ W s Hs) as (Hr & Nf & Ns & Nq).
  constructor; try apply W; cbn.
  - intros x Hx. destruct (wf_free _ _ _ W x Hx) as (?&?&?). split_and!; try done.
    rewrite elem_of_app, list_elem_of_singleton. intros [?| ->]; done.
  - intros x [?| ->%list_elem_of_singleton]%elem_of_app; [by apply (wf_stop _ _ _ W)|done].
  - apply NoDup_app. split_and!; [apply W| |apply NoDup_singleton]. intros x Hx ->%list_elem_of_singleton. done.
  - intros x [Hx Nx]%elem_of_difference. destruct (wf_held _ _ _ W x Hx) as (?&?&?&?). split_and!; try done.
    rewrite elem_of_app, list_elem_of_singleton. set_solver.
  - intros id x Hx. destruct (wf_index _ _ _ W id x Hx) as [? H]. split; [done|].
    rewrite elem_of_app, list_elem_of_singleton, elem_of_difference, elem_of_singleton.
    destruct (decide (x = s)); [auto|]. destruct H as [?|[?|?]]; auto.
  - intros x Hx. destruct (wf_active _ _ _ W x Hx); auto. left. apply elem_of_difference. split; [done|].
    intros ->%elem_of_singleton. unfold is_pending_stop, is_active in *. unfold order_at in *. cbn in Hx.
    repeat case_bool_decide; simplify_eq/=; congruence.
  - intros x Hx. rewrite elem_of_app, list_elem_of_singleton, elem_of_difference, elem_of_singleton.
    destruct (decide (x = s)); [auto|]. destruct (wf_cover _ _ _ W x Hx) as [?|[?|[?|?]]]; auto.
Qed.
Lemma wf_stop_remove dark X b i s :
  stop_orders_ b !! i = Some s -> wf dark X b -> wf dark ({[s]} ∪ X) (b <| stop_orders_ ::= swap_remove i |>).
Proof.
  intros Hi W. pose proof (swap_remove_perm _ _ _ Hi) as P. pose proof (list_elem_of_lookup_2 _ _ _ Hi) as Hs.
  destruct (wf_stop _ _ _ W s Hs) as [Hr [Hp Ht]]. pose proof (wf_stop_nodup _ _ _ W) as Nd. rewrite P in Nd.
  apply NoDup_cons in Nd as [Ns Nd].
  assert (M : forall x, x ∈ stop_orders_ b <-> x = s \/ x ∈ swap_remove i (stop_orders_ b)).
  { intros x. rewrite P at 1. apply elem_of_cons. }
  assert (Hq : forall p, ~ queued b p s).
  { intros p H. destruct (wf_queue _ _ _ W p s H) as (_ & _ & A & _). unfold is_pending_stop, is_active in *.
    repeat case_bool_decide; simplify_eq/=; congruence. }
  constructor; try apply W; cbn.
  - intros x Hx. destruct (wf_free _ _ _ W x Hx) as (?&Nx&?). rewrite M in Nx. split_and!; tauto.
  - intros x Hx. apply (wf_stop _ _ _ W). rewrite M. auto.
  - done.
  - intros x [->%elem_of_singleton|Hx]%elem_of_union.
    + split_and!; try done. intros H. by destruct (wf_free _ _ _ W s H) as (_ & ? & _).
    + destruct (wf_held _ _ _ W x Hx) as (?&?&Nx&?). rewrite M in Nx. split_and!; tauto.
  - intros id x Hx. destruct (wf_index _ _ _ W id x Hx) as [? H]. split; [done|]. rewrite M in H.
    rewrite elem_of_union, elem_of_singleton. tauto.
  - intros x Hx. rewrite elem_of_union. destruct (wf_active _ _ _ W x Hx); auto.
  - intros x Hx. rewrite elem_of_union, elem_of_singleton. pose proof (wf_cover _ _ _ W x Hx) as H. rewrite M in H. tauto.
Qed.
Lemma wf_stop_touch dark X b s f :
  s ∈ stop_orders_ b -> o_id (f (order_at b s)) = o_id (order_at b s) -> pending_ok (f (order_at b s)) ->
  wf dark X b -> wf dark X (set_order b s f).
Proof.
  intros Hs Hi [Hp Ht] W. destruct (wf_stop _ _ _ W s Hs) as [Hr [Hp0 _]].
  assert (N : forall p x, queued b p x -> x <> s).
  { intros p x H ->. destruct (wf_queue _ _ _ W p s H) as (_ & _ & A & _). unfold is_pending_stop, is_active in *.
    repeat case_bool_decide; simplify_eq/=; congruence. }
  assert (R : forall x, rests b x -> rests (set_order b s f) x).
  { intros x H. unfold rests. rewrite order_at_set_ne by by eapply N. done. }
  constructor; try apply W.
  - intros p x Hx. rewrite order_at_set_ne by by apply (N p). by apply W.
  - intros p. etrans; [apply (wf_total _ _ _ W p)|]. f_equal. apply sumf_ext. intros x Hx. by rewrite order_at_set_ne by by apply (N p).
  - intros p. etrans; [apply (wf_hidden _ _ _ W p)|]. f_equal. apply sumf_ext. intros x Hx. by rewrite order_at_set_ne by by apply (N p).
  - intros x Hx. rewrite order_at_set. destruct (decide (x = s)) as [->|]; [done|]. by apply W.
  - intros id x Hx. destruct (wf_index _ _ _ W id x Hx) as [<- H]. split; [|destruct H as [?|[?|?]]; auto].
    rewrite order_at_set. by destruct (decide (x = s)) as [->|].
  - intros x Hx. rewrite order_at_set in Hx. destruct (decide (x = s)) as [->|].
    + unfold is_pending_stop, is_active in *. repeat case_bool_decide; simplify_eq/=; congruence.
    + destruct (wf_active _ _ _ W x Hx); auto.
  - intros x Hx. destruct (wf_cover _ _ _ W x Hx) as [?|[?|[?|?]]]; auto.
Qed.

(** ** Best prices *)

Lemma wf_best_bid dark X b p : p = NO_BID_TICKS \/ in_range p = true -> wf dark X b -> wf dark X (b <| best_bid_ticks_ := p |>).
Proof. intros H W. constructor; try apply W. exact H. Qed.
Lemma wf_best_ask dark X b p : p = NO_ASK_TICKS \/ in_range p = true -> wf dark X b -> wf dark X (b <| best_ask_ticks_ := p |>).
Proof. intros H W. constructor; try apply W. exact H. Qed.
Lemma scan_prices_some b step n p q :
  scan_prices b step n p = Some q -> exists k, 0 <= k < Z.of_nat n /\ q = p + k * step /\ 0 < total_qty (level_at b q).
Proof.
  revert p. induction n as [|n IH]; intros p; cbn [scan_prices]; [done|].
  destruct (Z.ltb_spec 0 (total_qty (level_at b p))).
  - intros [= <-]. exists 0. split_and!; [lia|lia|lia|done].
  - intros H'. destruct (IH _ H') as (k & ? & -> & ?). exists (k + 1). split_and!; [lia|lia|lia|done].
Qed.
Lemma wf_refresh_bid dark X b p : wf dark X b -> wf dark X (refresh_best_bid_from b p).
Proof.
  intros W. unfold refresh_best_bid_from. destruct (_ || _) eqn:E; [by apply wf_best_bid; [left|]|]. bsplit.
  apply wf_best_bid; [|done]. destruct (scan_prices _ _ _ _) as [q|] eqn:Es; [|by left]. right.
  apply scan_prices_some in Es as (k & ? & -> & _). unfold in_range, PRICE_MIN_TICKS in *. cbn. apply andb_true_iff. lia.
Qed.
Lemma wf_refresh_ask dark X b p : wf dark X b -> wf dark X (refresh_best_ask_from b p).
Proof.
  intros W. unfold refresh_best_ask_from. destruct (_ || _) eqn:E; [by apply wf_best_ask; [left|]|]. bsplit.
  apply wf_best_ask; [|done]. destruct (scan_prices _ _ _ _) as [q|] eqn:Es; [|by left]. right.
  apply scan_prices_some in Es as (k & ? & -> & _). unfold in_range, PRICE_MIN_TICKS in *. cbn. apply andb_true_iff. lia.
Qed.
Lemma wf_refresh_after dark X b side p : wf dark X b -> wf dark X (refresh_after b side p).
Proof.
  intros W. unfold refresh_after. destruct (level_empty _); [|done].
  destruct (is_buy side); cbn; repeat destruct (_ =? _); try done; try by apply wf_refresh_bid. by apply wf_refresh_ask.
Qed.
Lemma wf_join_best dark X b side p : in_range p = true -> wf dark X b -> wf dark X (join_best b side p).
Proof.
  intros Hp W. unfold join_best. destruct (is_buy side), (_ || _); try done; [apply wf_best_bid|apply wf_best_ask]; auto.
Qed.

End inv.

(** Reads a field through the changes that leave it alone. *)
Create Rewrite HintDb obs.
#[export] Hint Rewrite
  @obs_level_set_order @obs_free_set_order @obs_index_set_order @obs_stops_set_order @obs_active_set_order @obs_bid_set_order
  @obs_ask_set_order @obs_order_set_level @obs_free_set_level @obs_index_set_level @obs_stops_set_level @obs_active_set_level
  @obs_bid_set_level @obs_ask_set_level @obs_order_free_order @obs_level_free_order @obs_free_free_order @obs_index_free_order
  @obs_stops_free_order @obs_active_free_order @obs_bid_free_order @obs_ask_free_order @obs_order_forget_id @obs_level_forget_id
  @obs_free_forget_id @obs_index_forget_id @obs_stops_forget_id @obs_active_forget_id @obs_bid_forget_id @obs_ask_forget_id
  @obs_order_unlink @obs_free_unlink @obs_index_unlink @obs_stops_unlink @obs_active_unlink @obs_bid_unlink @obs_ask_unlink @obs_order_enqueue
  @obs_free_enqueue @obs_index_enqueue @obs_stops_enqueue @obs_active_enqueue @obs_bid_enqueue @obs_ask_enqueue @obs_order_count
  @obs_level_count @obs_free_count @obs_index_count @obs_stops_count @obs_active_count @obs_bid_count @obs_ask_count : obs.
