(* ===== verification/LadderKeep.v ===== *)
(** * LadderKeep: the operations of the full order book keep its invariant

    [keeps]: from a well-formed book an operation makes a well-formed one, does
    not touch the slots that its caller holds (but the taker it fills), and
    leaves no more brackets to arm.  Proved for cancelling, matching and
    [submit], with the fuel that suffices. *)
From S2P Require Import Prelude Double Common LadderTypes LadderTrades LadderSamples Ladder LadderInv.

Section keep.
Context {env : BookEnv} {ok : EnvOk}.
Implicit Types b : Book.

(** ** Changes outside of the core *)

(** The brackets that are still to be armed. *)
Definition brk b : nat := size (bracket_specs_ (linked b)) + length (bracket_pending_ (linked b)).
(** Their sizes, and those of the orders kept for the close, are 32-bit numbers. *)
Definition sane b : Prop :=
  (forall s, (exists id, bracket_specs_ (linked b) !! id = Some s) \/ s ∈ bracket_pending_ (linked b) -> br_qty s <= INT32_MAX) /\
  (forall m, m ∈ moc_queue_ (linked b) -> moc_qty m <= INT32_MAX) /\ (forall m, m ∈ loc_queue_ (linked b) -> loc_qty m <= INT32_MAX).
Definition lean b b' : Prop := (brk b' <= brk b)%nat /\ (sane b -> sane b').
#[export] Instance lean_preorder : PreOrder lean.
Proof. split; [by intros ?; split|]. intros x y z [? ?] [? ?]. split; [lia|tauto]. Qed.
Lemma lean_linked b b' : linked b' = linked b -> lean b b'.
Proof. intros E. unfold lean, brk, sane. by rewrite E. Qed.
Definition frame b b' : Prop := core b = core b' /\ lean b b'.
#[export] Instance frame_preorder : PreOrder frame.
Proof. split; [by intros ?; split|]. intros x y z [? ?] [? ?]. split; [congruence|by etrans]. Qed.

Lemma frame_emit b ev oid mid px q st rr cid : frame b (emit b ev oid mid px q st rr cid).
Proof. unfold emit. by destruct (_ && _). Qed.
Lemma frame_audit b ev oid sd px q st : frame b (push_audit b ev oid sd px q st).
Proof. unfold push_audit. by destruct (negb _). Qed.
Lemma frame_delta b t sd px q : frame b (push_delta b t sd px q).
Proof. unfold push_delta. by destruct (negb _). Qed.
Lemma frame_accts f b : frame b (on_accts f b).
Proof. done. Qed.
Lemma frame_count_order f b : frame b (count_order f b).
Proof. done. Qed.
Lemma frame_count_book f b : frame b (count_book f b).
Proof. done. Qed.
Lemma frame_count_stat f b : frame b (count_stat f b).
Proof. done. Qed.
Lemma frame_first_fill t1 t2 b : frame b (record_first_fill_latency t1 t2 b).
Proof. done. Qed.
Lemma frame_lifecycle b t : frame b (record_lifecycle_age b t).
Proof. done. Qed.
Lemma frame_mmp_fill b cid : frame b (mmp_on_maker_fill b cid).
Proof.
  unfold mmp_on_maker_fill. destruct (_ || _); [done|]. destruct (_ !! _) as [m|]; [|done].
  destruct (tripped m); [done|]. cbn. by destruct (_ <? _).
Qed.
Lemma frame_trade b mk tk px q sd ts : frame b (record_trade b mk tk px q sd ts).
Proof. unfold record_trade. by destruct (_ && _). Qed.
Lemma frame_oco b id : frame b (oco_on_complete b id).
Proof. unfold oco_on_complete. by destruct (_ !! _). Qed.
Lemma frame_forget_bracket id b : frame b (forget_bracket id b).
Proof.
  split; [done|]. split.
  - unfold brk, forget_bracket. cbn. rewrite map_size_delete. destruct (_ !! _); cbn; lia.
  - intros [S Q]. split; [|exact Q]. intros s [[k H]|H]; apply S; [left; exists k; by apply (lookup_delete_Some (bracket_specs_ (linked b))) in H as [_ ?]|by right].
Qed.
Lemma frame_bracket_fill b id : frame b (bracket_on_full_fill b id).
Proof.
  unfold bracket_on_full_fill. destruct (_ !! _) as [s|] eqn:E; [|done]. split; [done|]. split.
  - unfold brk. cbn. rewrite map_size_delete, E. cbn. assert (size (bracket_specs_ (linked b)) <> 0)%nat; [|lia].
    intros Z%map_size_empty_inv. rewrite Z in E. by rewrite lookup_empty in E.
  - intros [S Q]. split; [|exact Q]. intros x [[k H]|H]; apply S.
    + left. exists k. by apply (lookup_delete_Some (bracket_specs_ (linked b))) in H as [_ ?].
    + cbn in H. apply elem_of_cons in H as [->|H]; [left; by exists id|by right].
Qed.
Lemma frame_tally_rejection r b : frame b (tally_rejection r b).
Proof. done. Qed.
Lemma frame_tally_accept t tif b : frame b (tally_accept t tif b).
Proof. done. Qed.
Lemma frame_token b cid : frame b (consume_rate_token b cid).2.
Proof. unfold consume_rate_token. destruct (_ !! _); [|done]. cbn. by destruct (dlt _ _). Qed.
Lemma frame_if (c : bool) b1 b2 b : frame b b1 -> frame b b2 -> frame b (if c then b1 else b2).
Proof. by destruct c. Qed.
End keep.

(** Proves that a chain of changes outside of the core is one, from the last
    change inwards. *)
Ltac frame_step :=
  lazymatch goal with
  | |- frame ?x ?x => reflexivity
  | |- frame _ (if _ then _ else _) => apply frame_if
  | |- frame _ (emit ?b _ _ _ _ _ _ _ _) => transitivity b; [|apply frame_emit]
  | |- frame _ (push_audit ?b _ _ _ _ _ _) => transitivity b; [|apply frame_audit]
  | |- frame _ (push_delta ?b _ _ _ _) => transitivity b; [|apply frame_delta]
  | |- frame _ (on_accts _ ?b) => transitivity b; [|apply frame_accts]
  | |- frame _ (count_order _ ?b) => transitivity b; [|apply frame_count_order]
  | |- frame _ (count_book _ ?b) => transitivity b; [|apply frame_count_book]
  | |- frame _ (count_stat _ ?b) => transitivity b; [|apply frame_count_stat]
  | |- frame _ (record_first_fill_latency _ _ ?b) => transitivity b; [|apply frame_first_fill]
  | |- frame _ (record_lifecycle_age ?b _) => transitivity b; [|apply frame_lifecycle]
  | |- frame _ (mmp_on_maker_fill ?b _) => transitivity b; [|apply frame_mmp_fill]
  | |- frame _ (record_trade ?b _ _ _ _ _ _) => transitivity b; [|apply frame_trade]
  | |- frame _ (oco_on_complete ?b _) => transitivity b; [|apply frame_oco]
  | |- frame _ (forget_bracket _ ?b) => transitivity b; [|apply frame_forget_bracket]
  | |- frame _ (bracket_on_full_fill ?b _) => transitivity b; [|apply frame_bracket_fill]
  | |- frame _ (tally_rejection _ ?b) => transitivity b; [|apply frame_tally_rejection]
  | |- frame _ (tally_accept _ _ ?b) => transitivity b; [|apply frame_tally_accept]
  end.
Ltac frames := cbv zeta; repeat frame_step.

Section keep.
Context {env : BookEnv} {ok : EnvOk}.
Implicit Types b : Book.

(** ** Keeping *)

(** The order after fills: only the filled quantity and the time of the first
    fill differ. *)
Definition filled_as (o o' : Order) : Prop :=
  exists n ts, o' = o <| o_filled_qty := n |> <| o_first_fill_ts_ns := ts |> /\ o_filled_qty o <= n /\
               (o_filled_qty o <= o_total_qty o -> n <= o_total_qty o).
#[export] Instance filled_as_preorder : PreOrder filled_as.
Proof.
  split.
  - intros o. exists (o_filled_qty o), (o_first_fill_ts_ns o). split; [by destruct o|lia].
  - intros o1 o2 o3 (n & ts & -> & ? & H) (n' & ts' & -> & ? & H'). exists n', ts'. cbn in *. split; [done|]. lia.
Qed.
(** What happens to the held slots; [t] is the taker. *)
Definition same (t : Z) (X : gset Z) b b' : Prop := forall s, s ∈ X ->
  (s <> t -> order_at b' s = order_at b s) /\ (s = t -> filled_as (order_at b s) (order_at b' s)).
(** Well formed between steps: the index does not lead to the held slots. *)
Definition good (dark : bool) (X : gset Z) b : Prop := wf dark X b /\ forall s, s ∈ X -> unref b s.
Definition keeps (dark : bool) (t : Z) (X : gset Z) b b' : Prop :=
  (good dark X b -> good dark X b' /\ same t X b b') /\ lean b b'.
(** No taker: a number that is no slot. *)
Definition nobody : Z := -1.
Lemma same_refl t X b : same t X b b.
Proof. by intros s _. Qed.
Lemma same_trans t X b1 b2 b3 : same t X b1 b2 -> same t X b2 b3 -> same t X b1 b3.
Proof.
  intros H1 H2 s Hs. destruct (H1 s Hs) as (A1 & F1), (H2 s Hs) as (A2 & F2). split.
  - intros N. by rewrite A2, A1.
  - intros E. etrans; [by apply F1|by apply F2].
Qed.
#[export] Instance keeps_preorder dark t X : PreOrder (keeps dark t X).
Proof.
  split; [by intros b; split; [split; [done|apply same_refl]|]|].
  intros b1 b2 b3 [K1 L1] [K2 L2]. split; [|by etrans]. intros W. destruct (K1 W) as [W2 S1], (K2 W2) as [W3 S2].
  split; [done|]. by eapply same_trans.
Qed.
Lemma good_frame dark X b b' : frame b b' -> good dark X b -> good dark X b'.
Proof.
  intros [E L] [W U]. split; [by eapply wf_frame|]. intros s Hs id. rewrite (ceq_index _ _ (ceq_core _ _ E)). by apply U.
Qed.
Lemma keeps_frame dark t X b b' : frame b b' -> keeps dark t X b b'.
Proof.
  intros F. split; [|apply F]. intros G. split; [by eapply good_frame|].
  intros s _. destruct F as [E _]. by rewrite (ceq_order _ _ (ceq_core _ _ E)).
Qed.
Lemma same_nobody dark t X b b' : good dark X b -> same nobody X b b' -> same t X b b'.
Proof.
  intros [W _] S s Hs. destruct (S s Hs) as (A & _). destruct (wf_held _ _ _ W s Hs) as [[? _] _].
  rewrite A by (unfold nobody; lia). done.
Qed.
Lemma keeps_taker dark t X b b' : keeps dark nobody X b b' -> keeps dark t X b b'.
Proof. intros [K L]. split; [|done]. intros W. destruct (K W). split; [done|]. by eapply same_nobody. Qed.
(** Frames in front or behind do not matter. *)
Lemma keeps_frame_r dark t X b b' b'' : frame b' b'' -> keeps dark t X b b' -> keeps dark t X b b''.
Proof. intros F K. etrans; [exact K|by apply keeps_frame]. Qed.

(** Retiring a resting order: out of its queue, a final status, out of the
    index, back to the pool. *)
Definition retire (b : Book) (s : Z) (f : Order -> Order) : Book :=
  free_order (forget_id (o_id (order_at b s)) (set_order (unlink_from_level b s) s f)) s.
Definition ends (o o' : Order) : Prop := is_active o' = false /\ o_id o' = o_id o.
Definition final (st : OrderStatus) : Prop := st <> S_OPEN /\ st <> S_PARTIALLY_FILLED.
Lemma ends_status o st : final st -> ends o (o <| o_status := st |>).
Proof. intros [? ?]. split; [|done]. unfold is_active. cbn. by rewrite !bool_decide_eq_false_2. Qed.
Lemma wf_held_not_rests dark X b s x : wf dark X b -> x ∈ X -> rests b s -> x <> s.
Proof. intros W Hx Hs ->. destruct (wf_held _ _ _ W s Hx) as (_ & _ & _ & N). by apply (N (o_price_ticks (order_at b s))). Qed.
Lemma good_retire dark X b s f :
  rests b s -> ends (order_at b s) (f (order_at b s)) -> good dark X b -> good dark X (retire b s f) /\ same nobody X b (retire b s f).
Proof.
  intros Hr [Ha Hi] [W HU]. assert (NX : s ∉ X) by (intros H; by apply (wf_held_not_rests _ _ _ s s W)).
  pose proof (wf_unlink _ _ _ _ Hr W) as W1. set (b1 := unlink_from_level b s) in *.
  assert (W2 : wf dark ({[s]} ∪ X) (set_order b1 s f)) by (apply wf_set_held; [set_solver|by left|done]).
  set (b2 := set_order b1 s _) in *.
  assert (Eo : order_at b2 s = f (order_at b s)) by (unfold b2; by rewrite order_at_set_eq).
  pose proof (unref_forget _ _ _ s W2) as U. rewrite Eo, Hi in U.
  split; [split|].
  - assert (({[s]} ∪ X) ∖ {[s]} = X) as <- by set_solver.
    apply wf_free_slot; [set_solver| |done|by apply wf_forget]. change (is_active (order_at b2 s) = false). by rewrite Eo.
  - intros x Hx. apply unref_forget_mono. exact (HU x Hx).
  - intros x Hx. assert (x <> s) by (by intros ->). split.
    + intros _. change (order_at b2 x = order_at b x). unfold b2. by rewrite order_at_set_ne.
    + intros ->. exfalso. destruct (wf_held _ _ _ W nobody Hx) as [[H0 _] _]. unfold nobody in H0. lia.
Qed.

(** The core without the best prices, which a removal searches again. *)
Definition base b := (pool_ b, free_list_ b, levels_ b, id_index_ b, stop_orders_ b, active_orders_ b).
Definition best_ok b : Prop :=
  (best_bid_ticks_ b = NO_BID_TICKS \/ in_range (best_bid_ticks_ b) = true) /\
  (best_ask_ticks_ b = NO_ASK_TICKS \/ in_range (best_ask_ticks_ b) = true).
Lemma wf_best_ok dark X b : wf dark X b -> best_ok b.
Proof. intros W. split; apply W. Qed.
Lemma base_core b b' : core b = core b' -> base b = base b' /\ (best_ok b -> best_ok b').
Proof. unfold core, base, best_ok. intros E. simplify_eq. split; congruence. Qed.
Lemma base_order b b' s : base b = base b' -> order_at b' s = order_at b s.
Proof. unfold base, order_at. intros E. simplify_eq. congruence. Qed.
Lemma base_level b b' p : base b = base b' -> level_at b' p = level_at b p.
Proof. unfold base, level_at. intros E. simplify_eq. congruence. Qed.
Lemma base_index b b' : base b = base b' -> id_index_ b' = id_index_ b.
Proof. unfold base. intros E. by simplify_eq. Qed.
(** Equality of what can be observed, but the best prices. *)
Record beq b b' : Prop := {
  beq_order : forall s, order_at b' s = order_at b s;
  beq_level : forall p, level_at b' p = level_at b p;
  beq_free : free_list_ b' = free_list_ b;
  beq_index : id_index_ b' = id_index_ b;
  beq_stops : stop_orders_ b' = stop_orders_ b;
  beq_active : active_orders_ b' = active_orders_ b }.
Lemma beq_base b b' : base b = base b' -> beq b b'.
Proof. unfold base. intros E. simplify_eq. constructor; unfold order_at, level_at; congruence. Qed.
Lemma beq_ceq b b' : ceq b b' -> beq b b'.
Proof. intros []. by constructor. Qed.
Lemma beq_trans b1 b2 b3 : beq b1 b2 -> beq b2 b3 -> beq b1 b3.
Proof. intros [] []. constructor; intros; etrans; eauto. Qed.
Lemma wf_beq dark X b b' : beq b b' -> best_ok b' -> wf dark X b -> wf dark X b'.
Proof.
  intros [] [Hb Ha] W. set (b1 := b <| best_bid_ticks_ := best_bid_ticks_ b' |> <| best_ask_ticks_ := best_ask_ticks_ b' |>).
  assert (wf dark X b1) as W1 by (apply wf_best_ask; [done|]; by apply wf_best_bid).
  eapply wf_ceq; [|exact W1]. by constructor.
Qed.
Lemma base_refresh_after b sd p : base (refresh_after b sd p) = base b.
Proof.
  unfold refresh_after. destruct (level_empty _); [|done]. destruct (is_buy sd); cbn; unfold refresh_best_bid_from, refresh_best_ask_from;
  repeat case_match; done.
Qed.
Lemma linked_refresh_after b sd p : linked (refresh_after b sd p) = linked b.
Proof.
  unfold refresh_after. destruct (level_empty _); [|done]. destruct (is_buy sd); cbn; unfold refresh_best_bid_from, refresh_best_ask_from;
  repeat case_match; done.
Qed.
Lemma keeps_retire dark X b b' s f :
  rests b s -> ends (order_at b s) (f (order_at b s)) -> beq (retire b s f) b' -> (wf dark X b -> best_ok b') ->
  lean b b' -> keeps dark nobody X b b'.
Proof.
  intros Hr Hf E Hb L. split; [|done]. intros G. destruct (good_retire dark X b s f Hr Hf G) as [[W' U] S].
  split; [split|].
  - eapply wf_beq, W'; [done|]. apply Hb, G.
  - intros x Hx id. rewrite (beq_index _ _ E). by apply U.
  - intros x Hx. rewrite (beq_order _ _ E). by apply S.
Qed.

(** The last steps of [retire] on a book that agrees with it up to there. *)
Lemma base_set_order b b' s f : base b = base b' -> base (set_order b s f) = base (set_order b' s f).
Proof. intros E. pose proof (base_order _ _ s E) as O. unfold base, set_order in *. cbn. simplify_eq. rewrite O. congruence. Qed.
Lemma base_forget b b' id : base b = base b' -> base (forget_id id b) = base (forget_id id b').
Proof. unfold base. cbn. intros E. simplify_eq. congruence. Qed.
Lemma base_free b b' s : base b = base b' -> base (free_order b s) = base (free_order b' s).
Proof. unfold base. cbn. intros E. simplify_eq. congruence. Qed.
Lemma base_frame b b' : frame b b' -> base b = base b'.
Proof. intros [E _]. by apply base_core in E as [? _]. Qed.
Lemma best_ok_frame b b' : frame b b' -> best_ok b -> best_ok b'.
Proof. intros [E _]. by apply base_core in E as [_ ?]. Qed.
Lemma lean_frame b b' : frame b b' -> lean b b'.
Proof. by intros [_ ?]. Qed.

(** [cancel_internal] in three parts: out of the book, what is counted and
    announced, back to the pool. *)
Definition cancel_told b (o : Order) (emit_event : bool) : Book :=
  let p := o_price_ticks o in
  let leftover := remaining_qty o in
  let b := if emit_event then emit b E_CANCEL (o_id o) 0 p leftover S_CANCELLED R_NONE (o_client_id o) else b in
  let b := push_audit b E_CANCEL (o_id o) (o_side o) p leftover S_CANCELLED in
  let b := record_lifecycle_age (on_accts (exposure_on_cancel (o_client_id o) (o_side o) leftover) b) (o_submit_ts_ns o) in
  let b := count_order (fun c =>
    let c := if o_filled_qty o =? 0 then c <| completion_cancelled_unfilled_ ::= inc |> else c <| completion_cancelled_partial_ ::= inc |> in
    if is_buy (o_side o) then c <| cancellations_by_buy_ ::= inc |> else c <| cancellations_by_sell_ ::= inc |>) b in
  forget_bracket (o_id o) (oco_on_complete b (o_id o)).
Lemma cancel_told_frame b o e : frame b (cancel_told b o e).
Proof. unfold cancel_told. frames. Qed.
Lemma cancel_internal_unfold b s e :
  cancel_internal b s e =
  let o := order_at b s in
  if negb (is_active o) then b else
  let b := refresh_after (unlink_from_level b s) (o_side o) (o_price_ticks o) in
  let b := forget_id (o_id o) (set_order b s (fun o => o <| o_status := S_CANCELLED |>)) in
  let b := free_order (cancel_told b o e) s in
  let b := count_stat (fun st => st <| total_orders_cancelled ::= inc |>) b in
  push_delta b (if level_empty (level_at b (o_price_ticks o)) then 68 else 77) (side_char (o_side o)) (o_price_ticks o)
    (total_qty (level_at b (o_price_ticks o))).
Proof. reflexivity. Qed.
Lemma lean_free b b' s : lean b b' -> lean b (free_order b' s).
Proof. done. Qed.
Lemma best_ok_free b s : best_ok b -> best_ok (free_order b s).
Proof. done. Qed.
Lemma lean_told b s b' o e : linked b' = linked b -> lean b (free_order (cancel_told b' o e) s).
Proof.
  intros L. apply lean_free. etrans; [by apply lean_linked|]. apply lean_frame, cancel_told_frame.
Qed.
Definition cancelled (o : Order) : Order := o <| o_status := S_CANCELLED |>.
Lemma cancel_internal_retires b s e : is_active (order_at b s) = true ->
  base (cancel_internal b s e) = base (retire b s cancelled) /\
  (best_ok (refresh_after (unlink_from_level b s) (o_side (order_at b s)) (o_price_ticks (order_at b s))) -> best_ok (cancel_internal b s e)) /\
  lean b (cancel_internal b s e).
Proof.
  intros A. rewrite cancel_internal_unfold. cbv zeta. rewrite A. cbn [negb].
  set (o := order_at b s) in *. set (b1 := refresh_after _ _ _). fold cancelled.
  set (b2 := forget_id _ _). set (b3 := cancel_told b2 o e).
  assert (F : frame b2 b3) by apply cancel_told_frame.
  assert (L2 : linked b2 = linked b) by exact (linked_refresh_after _ _ _).
  match goal with |- base ?x = _ /\ _ => set (b5 := x) end.
  assert (F5 : frame (free_order b3 s) b5) by (unfold b5; frames). clearbody b5.
  assert (B1 : base b1 = base (unlink_from_level b s)) by apply base_refresh_after.
  split_and!.
  - rewrite <- (base_frame _ _ F5). unfold retire. apply base_free. rewrite <- (base_frame _ _ F). unfold b2.
    apply base_forget, base_set_order. done.
  - intros O1. apply (best_ok_frame _ _ F5). apply best_ok_free. by apply (best_ok_frame _ _ F).
  - etrans; [by apply lean_told|apply lean_frame, F5].
Qed.
Lemma cancel_internal_keeps dark X b s e : s ∉ X -> keeps dark nobody X b (cancel_internal b s e).
Proof.
  intros HX. destruct (is_active (order_at b s)) eqn:A; [|by unfold cancel_internal; rewrite A].
  destruct (cancel_internal_retires b s e A) as (E & Bo & L). split; [|done].
  intros G. pose proof (proj1 G) as W. destruct (wf_active _ _ _ W s A) as [?|Hr]; [done|].
  apply (keeps_retire dark X b _ s cancelled); try done; [by apply beq_base|].
  intros _. apply Bo. eapply wf_best_ok, wf_refresh_after, wf_unlink; done.
Qed.

Lemma index_not_held dark X b id s : good dark X b -> id_index_ b !! id = Some s -> s ∉ X.
Proof. intros [_ U] H Hs. by apply (U s Hs id). Qed.
(** From a slot that the index leads to. *)
Lemma keeps_from_index dark t X b b' id s :
  id_index_ b !! id = Some s -> (s ∉ X -> keeps dark t X b b') -> lean b b' -> keeps dark t X b b'.
Proof.
  intros H K L. split; [|done]. intros G. apply K; [|done]. by eapply index_not_held.
Qed.
Definition stop_told b (o : Order) : Book :=
  emit b E_CANCEL (o_id o) 0 (o_price_ticks o) (remaining_qty o) S_CANCELLED R_NONE (o_client_id o).
Lemma cancel_pending_stop_keeps dark X b s : keeps dark nobody X b (cancel_pending_stop b s).2.
Proof.
  unfold cancel_pending_stop. destruct (list_find _ _) as [[i s']|] eqn:E; [|done].
  apply list_find_Some in E as (Hi & -> & _). cbn [snd]. set (o := order_at b s).
  set (b1 := b <| stop_orders_ ::= swap_remove i |>). set (b2 := set_order b1 s _).
  set (b3 := emit _ _ _ _ _ _ _ _ _). assert (F3 : frame b2 b3) by apply frame_emit. clearbody b3.
  set (b4 := forget_bracket _ _). assert (F4 : frame (forget_id (o_id o) b3) b4) by (unfold b4; frames). clearbody b4.
  apply (keeps_frame_r _ _ _ _ (free_order b4 s)); [apply frame_count_stat|].
  assert (L : lean b (free_order b4 s)).
  { apply lean_free. etrans; [exact (lean_frame _ _ F3)|]. exact (lean_frame _ _ F4). }
  split; [|done]. intros [W U]. pose proof (wf_stop_remove _ _ _ _ _ Hi W) as W1. fold b1 in W1.
  assert (Hs : s ∈ stop_orders_ b) by by eapply list_elem_of_lookup_2.
  assert (NX : s ∉ X) by (intros H; by destruct (wf_held _ _ _ W s H) as (_ & _ & ? & _)).
  assert (W2 : wf dark ({[s]} ∪ X) b2) by (apply wf_set_held; [set_solver|by left|done]).
  assert (W3 : wf dark ({[s]} ∪ X) b3) by (eapply wf_frame, W2; apply F3).
  pose proof (ceq_core _ _ (proj1 F3)) as C3. pose proof (ceq_core _ _ (proj1 F4)) as C4.
  assert (E3 : order_at b3 s = o <| o_status := S_CANCELLED |>).
  { rewrite (ceq_order _ _ C3). unfold b2. by rewrite order_at_set_eq. }
  assert (U3 : unref (forget_id (o_id o) b3) s).
  { pose proof (unref_forget _ _ _ s W3) as H. by rewrite E3 in H. }
  assert (W4 : wf dark ({[s]} ∪ X) b4) by (eapply wf_frame, wf_forget, W3; apply F4).
  assert (Ox : forall x, x <> s -> order_at b4 x = order_at b x).
  { intros x N. rewrite (ceq_order _ _ C4). change (order_at b3 x = order_at b x). rewrite (ceq_order _ _ C3).
    unfold b2. by rewrite order_at_set_ne. }
  split; [split|].
  - assert (({[s]} ∪ X) ∖ {[s]} = X) as <- by set_solver. apply wf_free_slot; [set_solver| | |done].
    + rewrite (ceq_order _ _ C4). change (is_active (order_at b3 s) = false). by rewrite E3.
    + intros id. rewrite (ceq_index _ _ C4). apply U3.
  - intros x Hx id. cbn. rewrite (ceq_index _ _ C4). apply unref_forget_mono. intros id'. rewrite (ceq_index _ _ C3). by apply (U x).
  - intros x Hx. assert (x <> s) by (by intros ->). split.
    + intros _. change (order_at b4 x = order_at b x). by apply Ox.
    + intros ->. exfalso. destruct (wf_held _ _ _ W nobody Hx) as [[H0 _] _]. unfold nobody in H0. lia.
Qed.

(** ** Pairs, mass cancels, protection *)

Lemma frame_linked b f : lean b (b <| linked ::= f |>) -> frame b (b <| linked ::= f |>).
Proof. done. Qed.
Lemma oco_loop_keeps dark X fuel b : keeps dark nobody X b (oco_loop fuel b).
Proof.
  revert b. induction fuel as [|fuel IH]; intros b; cbn [oco_loop]; [done|].
  destruct (oco_pending_cancel_ _) as [|pid rest]; [done|]. set (b1 := b <| linked ::= _ |>).
  assert (F1 : frame b b1) by done. clearbody b1. etrans; [apply keeps_frame, F1|]. etrans; [|apply IH].
  destruct (id_index_ b1 !! pid) as [s|] eqn:E; [|done]. set (b2 := b1 <| linked ::= _ |>).
  assert (F2 : frame b1 b2) by done.
  assert (E2 : id_index_ b2 !! pid = Some s) by done. clearbody b2. etrans; [apply keeps_frame, F2|].
  destruct (is_pending_stop _); [apply cancel_pending_stop_keeps|].
  apply (keeps_from_index _ _ _ _ _ _ _ E2); [apply cancel_internal_keeps|].
  apply (cancel_internal_keeps dark ∅ b2 s true). set_solver.
Qed.
Lemma process_oco_keeps dark X b : keeps dark nobody X b (process_oco_pending b).
Proof. apply oco_loop_keeps. Qed.
Lemma cancel_keeps dark X b id : keeps dark nobody X b (cancel b id).2.
Proof.
  unfold cancel. destruct (id_index_ b !! id) as [s|] eqn:E; [|done]. destruct (is_pending_stop _).
  - pose proof (cancel_pending_stop_keeps dark X b s) as K. destruct (cancel_pending_stop b s) as [r b1].
    etrans; [exact K|apply process_oco_keeps].
  - cbn. etrans; [|apply process_oco_keeps]. apply (keeps_from_index _ _ _ _ _ _ _ E); [apply cancel_internal_keeps|].
    apply (cancel_internal_keeps dark ∅ b s true). set_solver.
Qed.
Lemma keeps_foldl {A} dark t X (f : Book -> A -> Book) l b :
  (forall x b, x ∈ l -> keeps dark t X b (f b x)) -> keeps dark t X b (foldl f b l).
Proof.
  revert b. induction l as [|x l IH]; intros b H; [done|]. cbn. etrans; [apply (H x); by left|].
  apply IH. intros y b' Hy. apply H. by right.
Qed.
Lemma values_elem (m : gmap Z Z) s : s ∈ values m <-> exists id, m !! id = Some s.
Proof.
  unfold values. rewrite entries_perm, list_elem_of_fmap. split.
  - intros ([id x] & -> & H). exists id. by apply elem_of_map_to_list in H.
  - intros [id H]. exists (id, s). split; [done|]. by apply elem_of_map_to_list.
Qed.

Lemma lean_cancel_internal b s e : lean b (cancel_internal b s e).
Proof. apply (cancel_internal_keeps false ∅ b s e). set_solver. Qed.
Lemma mass_cancel_keeps dark X b cid : keeps dark nobody X b (mass_cancel b cid).2.
Proof.
  unfold mass_cancel. set (mine := filter _ (values _)). set (live := filter _ mine). set (stops := filter _ mine).
  set (b1 := foldl _ b live).
  assert (Hl : forall s, s ∈ live -> exists id, id_index_ b !! id = Some s).
  { intros s Hs. apply values_elem. unfold live, mine in Hs. by apply list_elem_of_filter in Hs as [_ [_ Hs]%list_elem_of_filter]. }
  assert (K1 : keeps dark nobody X b b1).
  { assert (L : lean b b1).
    { apply (keeps_foldl false nobody ∅). intros. apply cancel_internal_keeps. set_solver. }
    split; [|done]. intros G. apply keeps_foldl; [|done]. intros s b' Hs. apply cancel_internal_keeps.
    destruct (Hl s Hs) as [id Hid]. by eapply index_not_held. }
  clearbody b1. assert (K2 : forall l n b, keeps dark nobody X b
     (foldl (fun '(n, b) s => let '(ok, b) := cancel_pending_stop b s in (if (ok : bool) then n + 1 else n, b)) (n, b) l).2).
  { clear -ok. induction l as [|s l IH]; intros n b; [done|]. cbn. pose proof (cancel_pending_stop_keeps dark X b s) as K.
    destruct (cancel_pending_stop b s) as [r b1]. etrans; [exact K|]. apply IH. }
  specialize (K2 stops (alen live) b1). destruct (foldl _ (alen live, b1) stops) as [n b2]. cbn.
  etrans; [exact K1|]. etrans; [exact K2|]. etrans; [|apply process_oco_keeps]. by apply keeps_frame.
Qed.
Lemma mmp_loop_keeps dark X n b : keeps dark nobody X b (mmp_loop n b).
Proof.
  revert b. induction n as [|n IH]; intros b; cbn [mmp_loop]; [done|]. destruct (mmp_pending_trips_ _) as [|cid rest]; [done|].
  etrans; [|apply IH]. etrans; [|apply mass_cancel_keeps]. by apply keeps_frame.
Qed.
Lemma process_mmp_keeps dark X b : keeps dark nobody X b (process_mmp_pending b).
Proof. apply mmp_loop_keeps. Qed.
End keep.
