(* ===== verification/LadderMatch.v ===== *)
(** * LadderMatch: matching keeps the invariant and ends

    One turn of [match_at_level] against a resting order, the walk along a
    level, the walk over the levels: each keeps the book well formed, fills the
    taker within its size, and uses up a measure, so that some fuel suffices
    when no hidden order rests in the book. *)
From S2P Require Import Prelude Double Common LadderTypes LadderTrades LadderSamples Ladder LadderInv LadderKeep.

Section matching.
Context {env : BookEnv} {ok : EnvOk}.
Implicit Types b : Book.

(** ** The fill of a pair *)

Definition fill_order (n ts : Z) (o : Order) : Order :=
  o <| o_filled_qty := i32 (o_filled_qty o + n) |> <| o_first_fill_ts_ns ::= fun x => if x =? 0 then ts else x |>.
Definition stamp (ts : Z) (o : Order) : Order := o <| o_first_fill_ts_ns ::= fun x => if x =? 0 then ts else x |>.
Lemma stamp_slot_ceq ts b s : ceq (set_order b s (stamp ts)) (stamp_slot ts b s).
Proof.
  unfold stamp_slot. destruct (o_first_fill_ts_ns (order_at b s) =? 0) eqn:E.
  - apply (ceq_trans _ (set_order b s (fun o => o <| o_first_fill_ts_ns := ts |>))); [|by apply ceq_core].
    constructor; try done. intros x. rewrite !order_at_set. destruct (decide (x = s)) as [->|]; [|done].
    unfold stamp. cbn. by rewrite E.
  - constructor; try done. intros x. rewrite order_at_set. destruct (decide (x = s)) as [->|]; [|done].
    unfold stamp. cbn. rewrite E. by destruct (order_at b s).
Qed.
Lemma fill_told_frame b mk tk n ts : frame b (fill_told b mk tk n ts).
Proof. unfold fill_told. frames. Qed.
Lemma fill_pair_unfold b m t n ts :
  fill_pair b m t n ts =
  let b := stamp_slot ts (stamp_slot ts (set_order (set_order b m (plus_filled n)) t (plus_filled n)) m) t in
  fill_told b (order_at b m) (order_at b t) n ts.
Proof. reflexivity. Qed.
Lemma lean_stamp_slot ts b s : lean b (stamp_slot ts b s).
Proof. apply lean_linked. unfold stamp_slot. by destruct (_ =? _). Qed.
Lemma ceq_set_order b b' s f : ceq b b' -> ceq (set_order b s f) (set_order b' s f).
Proof. intros C. constructor; try apply C. intros x. rewrite !order_at_set, !(ceq_order _ _ C). done. Qed.
Lemma ceq_set_level b b' p f : ceq b b' -> ceq (set_level b p f) (set_level b' p f).
Proof. intros C. constructor; try apply C. intros x. rewrite !level_at_set, !(ceq_level _ _ C). done. Qed.
Lemma ceq_frame b b' : frame b b' -> ceq b b'.
Proof. intros [E _]. by apply ceq_core. Qed.
Lemma fill_pair_ceq b m t n ts : m <> t ->
  ceq (set_order (set_order b t (fill_order n ts)) m (fill_order n ts)) (fill_pair b m t n ts).
Proof.
  intros N. rewrite fill_pair_unfold. cbv zeta. set (b1 := set_order (set_order b m _) t _).
  eapply ceq_trans; [|apply ceq_frame, fill_told_frame]. eapply ceq_trans; [|apply stamp_slot_ceq].
  eapply ceq_trans; [|apply ceq_set_order, stamp_slot_ceq]. unfold b1.
  constructor; try done. intros x. rewrite !order_at_set.
  repeat (destruct (decide _); simplify_eq; try done).
Qed.
Lemma fill_pair_lean b m t n ts : lean b (fill_pair b m t n ts).
Proof.
  rewrite fill_pair_unfold. cbv zeta. etrans; [|apply lean_frame, fill_told_frame]. etrans; [|apply lean_stamp_slot]. etrans; [|apply lean_stamp_slot]. done.
Qed.

(** ** One trade *)

Lemma after_spec s q x : NoDup q -> after s q = Some x -> x ∈ q /\ x <> s.
Proof.
  intros Hn. induction Hn as [|y q Hy Hn IH]; [done|]. cbn [after]. destruct (Z.eqb_spec y s) as [->|N].
  - destruct q as [|z q]; [done|]. cbn. intros [= <-]. split; [right; left|]. intros ->. apply Hy. left.
  - intros H. destruct (IH H). split; [by right|done].
Qed.
Lemma ice_show_pos c o : 1 <= (ice_show c o).1.
Proof.
  unfold ice_show. set (show := if 0 <? o_iceberg_display_size o then _ else _).
  assert (1 <= show) as H by (unfold show; zcases). clearbody show. destruct (ice_jitter_bps_ c <=? 0); [done|]. cbv zeta.
  cbn [fst]. case_match; lia.
Qed.

(** The book of [b] after [n] shares of maker [m] went to taker [t], with the
    level's total and the maker's display reduced, before the turn decides what
    becomes of the maker. *)
Definition sold (mk : Order) (n ts : Z) : Order := fill_order n ts mk <| o_displayed_qty := i32 (o_displayed_qty mk - n) |>.
Definition mid_trade b (p t m n ts : Z) : Book :=
  set_order (set_level (set_order (set_order b t (fill_order n ts)) m (fill_order n ts)) p
    (fun l => l <| total_qty ::= fun x => i32 (x - n) |>)) m (fun o => o <| o_displayed_qty ::= fun x => i32 (x - n) |>).
Lemma mid_order b p t m n ts x : m <> t ->
  order_at (mid_trade b p t m n ts) x =
    if decide (x = m) then sold (order_at b m) n ts else if decide (x = t) then fill_order n ts (order_at b t) else order_at b x.
Proof.
  intros N. unfold mid_trade. rewrite order_at_set. destruct (decide (x = m)) as [->|Nm].
  - change (order_at (set_level ?b p ?f) m) with (order_at b m). rewrite order_at_set_eq, order_at_set_ne by done. done.
  - change (order_at (set_level ?b p ?f) x) with (order_at b x). rewrite order_at_set_ne, order_at_set by done.
    by destruct (decide (x = t)) as [->|].
Qed.
Lemma mid_level b p t m n ts q :
  level_at (mid_trade b p t m n ts) q = if decide (q = p) then level_at b p <| total_qty ::= fun x => i32 (x - n) |> else level_at b q.
Proof.
  unfold mid_trade. change (level_at (set_order ?b m ?f) q) with (level_at b q). rewrite level_at_set. by destruct (decide (q = p)).
Qed.
(** ** What is left to do *)

(** A resting order that shows nothing; a hidden one stays so, an iceberg is
    refilled when its turn comes. *)
Definition blank b (s : Z) : Z := if is_active (order_at b s) && (o_displayed_qty (order_at b s) =? 0) then 1 else 0.
Definition blanks b : Z := sumf (blank b) (slots MAX_ORDERS).
Definition work b : Z := active_orders_ b + blanks b.
Lemma blank_range b s : 0 <= blank b s <= 1.
Proof. unfold blank. destruct (_ && _); lia. Qed.
Lemma slots_nodup k : NoDup (slots k).
Proof.
  unfold slots. change (map Z.of_nat) with (fmap (M:=list) Z.of_nat). apply NoDup_fmap_2; [intros ? ? ?; lia|apply NoDup_seq].
Qed.
Lemma blanks_change b b' s : is_slot s -> (forall x, x <> s -> blank b' x = blank b x) -> blanks b' = blanks b + blank b' s - blank b s.
Proof.
  intros Hs H. unfold blanks. rewrite (sumf_update (blank b) (blank b') _ s (slots_nodup _) H).
  rewrite decide_True by by apply slots_elem. lia.
Qed.
Lemma wf_active_small dark X b : wf dark X b -> 0 <= active_orders_ b <= INT32_MAX /\ (forall s p, queued b p s -> 1 <= active_orders_ b).
Proof.
  intros W. pose proof (wf_pool _ _ _ W). pose proof (alen_nonneg (free_list_ b)). destruct ok as [_ ?].
  pose proof (slots_bound (free_list_ b) (wf_free_nodup _ _ _ W) (fun s H => proj1 (wf_free _ _ _ W s H))).
  split; [lia|]. intros s p Hs.
  assert (alen (s :: free_list_ b) <= MAX_ORDERS) as B.
  { apply slots_bound; [constructor; [|apply W]|].
    - intros H'. destruct (wf_free _ _ _ W s H') as (_ & _ & N). by apply (N p).
    - intros x [->|Hx]%elem_of_cons; [by apply (wf_queue _ _ _ W p)|by apply (wf_free _ _ _ W)]. }
  unfold alen in *. rewrite length_cons in B. lia.
Qed.
Section one.
Variables (dark : bool) (X : gset Z) (b : Book) (p t m qty ts : Z).
Let mk := order_at b m.
Let tk := order_at b t.
Let n := Z.min qty (o_displayed_qty mk).
Hypotheses (W : wf dark X b) (U : forall s, s ∈ X -> unref b s) (Ht : t ∈ X) (Hm : queued b p m).
Hypotheses (Hq : 0 < qty <= open_qty tk) (Hf : 0 <= o_filled_qty tk) (Hx : o_total_qty tk <= INT32_MAX).

Lemma one_ne : m <> t.
Proof. intros ->. destruct (wf_held _ _ _ W t Ht) as (_ & _ & _ & N). by apply (N p). Qed.
Lemma one_maker : is_slot m /\ o_price_ticks mk = p /\ is_active mk = true /\ restable dark mk /\ in_range p = true.
Proof. by apply (wf_queue _ _ _ W). Qed.
Lemma one_n : 0 <= n <= qty /\ n <= o_displayed_qty mk /\ i32 (o_filled_qty mk + n) = o_filled_qty mk + n /\
  i32 (o_displayed_qty mk - n) = o_displayed_qty mk - n /\ i32 (o_filled_qty tk + n) = o_filled_qty tk + n /\
  o_filled_qty mk + n <= o_total_qty mk /\ i32 (qty - n) = qty - n.
Proof.
  destruct one_maker as (_ & _ & _ & [? ? ? _ _] & _). unfold open_qty, INT32_MAX in *. unfold n.
  rewrite !i32_small by lia. lia.
Qed.
Let bt := set_order b t (fill_order n ts).
Lemma one_taker : wf dark X bt.
Proof. apply wf_set_held; [done|by left|done]. Qed.
Lemma one_filled : filled_as tk (fill_order n ts tk).
Proof.
  destruct one_n as (? & ? & _ & _ & E & _). eexists _, _. split; [reflexivity|]. cbn. rewrite E. unfold open_qty in *. lia.
Qed.
Lemma one_maker_bt : order_at bt m = mk.
Proof. unfold bt. apply order_at_set_ne, one_ne. Qed.
(** A change of the maker alone, on top of the taker's fill. *)
Lemma one_same b' : (forall x, x <> m -> order_at b' x = order_at bt x) -> same t X b b'.
Proof.
  intros H s Hs. assert (s <> m) as N by (intros ->; destruct (wf_held _ _ _ W m Hs) as (_ & _ & _ & N); by apply (N p)).
  rewrite (H s N). unfold bt. rewrite order_at_set. destruct (decide (s = t)) as [->|]; [|done].
  split; [done|]. intros _. apply one_filled.
Qed.
Definition turn_ok (b' : Book) (qty' : Z) : Prop :=
  good dark X b' /\ same t X b b' /\ order_at b' t = fill_order n ts tk /\
  (forall x, x <> m -> queued b p x -> queued b' p x) /\ (dark = false -> work b' + qty' < work b + qty).
Lemma one_taker_order : order_at bt t = fill_order n ts tk.
Proof. apply order_at_set_eq. Qed.
(** The maker stays in its queue, as [o'], which may be reordered. *)
Lemma one_stays b' o' q' :
  restable dark o' -> is_active o' = true -> o_price_ticks o' = p -> o_id o' = o_id mk -> q' ≡ₚ queue (level_at b p) ->
  ceq (set_level (set_order bt m (fun _ => o')) p (moved mk o' q')) b' ->
  (dark = false -> 1 <= n + (if o_displayed_qty mk =? 0 then 1 else 0) - (if o_displayed_qty o' =? 0 then 1 else 0)) ->
  turn_ok b' (qty - n).
Proof.
  intros Ho Ha Hp Hi Hq' C Hd. destruct one_maker as (Hs & Em & Am & _ & _). split_and!; [split| | | |].
  - eapply (wf_touch dark X bt b' m o' q'); rewrite ?one_maker_bt, ?Em; try done; [|apply one_taker].
    unfold rests. rewrite one_maker_bt, Em. done.
  - intros x Hx' id. rewrite (ceq_index _ _ C). by apply (U x).
  - apply one_same. intros x N. rewrite (ceq_order _ _ C). by apply (order_at_set_ne bt m).
  - rewrite (ceq_order _ _ C), <- one_taker_order. apply (order_at_set_ne bt m). intros E. by apply one_ne.
  - intros x N Hx'. unfold queued. rewrite (ceq_level _ _ C), level_at_set_eq. cbn. by rewrite Hq'.
  - intros D. specialize (Hd D). unfold work. rewrite (ceq_active _ _ C). cbn.
    assert (B : blanks b' = blanks b + blank b' m - blank b m).
    { apply blanks_change; [done|]. intros x N. unfold blank. rewrite (ceq_order _ _ C).
      replace (order_at (set_level _ p _) x) with (order_at bt x) by (symmetry; by apply (order_at_set_ne bt m)).
      unfold bt. rewrite order_at_set. destruct (decide (x = t)) as [->|]; done. }
    assert (E1 : blank b m = if o_displayed_qty mk =? 0 then 1 else 0) by (unfold blank; fold mk; by rewrite Am).
    assert (E2 : blank b' m = if o_displayed_qty o' =? 0 then 1 else 0).
    { unfold blank. rewrite (ceq_order _ _ C).
      replace (order_at (set_level _ p _) m) with o' by (symmetry; apply (order_at_set_eq bt m)). by rewrite Ha. }
    rewrite B, E1, E2. lia.
Qed.
(** The maker is done. *)
Lemma one_done b' o' :
  n = o_displayed_qty mk -> open_qty mk = n -> is_active o' = false -> o_id o' = o_id mk ->
  beq (retire bt m (fun _ => o')) b' -> best_ok b' -> turn_ok b' (qty - n).
Proof.
  intros En Eo Ha Hi C Hb. destruct one_maker as (Hs & Em & Am & Ro & _).
  assert (Hr : rests bt m) by (unfold rests; by rewrite one_maker_bt, Em).
  assert (G : good dark X bt) by (split; [apply one_taker|done]).
  destruct (good_retire dark X bt m (fun _ => o') Hr) as [[W1 U1] S1]; [rewrite one_maker_bt; by split|done|].
  assert (Or : forall x, x <> m -> order_at b' x = order_at bt x).
  { intros x N. rewrite (beq_order _ _ C). change (order_at (set_order (unlink_from_level bt m) m (fun _ => o')) x = order_at bt x).
    by rewrite order_at_set_ne. }
  split_and!; [split| | | |].
  - by eapply wf_beq.
  - intros x Hx' id. rewrite (beq_index _ _ C). by apply U1.
  - by apply one_same.
  - rewrite <- one_taker_order. apply Or. intros E. by apply one_ne.
  - intros x N Hx'. unfold queued. rewrite (beq_level _ _ C). unfold retire. autorewrite with obs. unfold unlink_from_level.
    rewrite one_maker_bt, Em, level_at_set_eq. cbn. by apply remove_slot_elem.
  - intros D. unfold work. rewrite (beq_active _ _ C). cbn.
    assert (B : blanks b' = blanks b + blank b' m - blank b m).
    { apply blanks_change; [done|]. intros x N. unfold blank. rewrite Or by done.
      unfold bt. rewrite order_at_set. destruct (decide (x = t)) as [->|]; done. }
    assert (E2 : blank b' m = 0).
    { unfold blank. rewrite (beq_order _ _ C).
      replace (order_at (retire bt m (fun _ => o')) m) with o' by (symmetry; apply (order_at_set_eq (unlink_from_level bt m) m)).
      by rewrite Ha. }
    assert (0 <= blank b m) by apply blank_range. destruct Ro as [? _ _ _ _]. unfold open_qty in Eo.
    destruct (wf_active_small dark X b W) as [? L]. specialize (L m p Hm). unfold INT32_MAX in *. rewrite u64_small by lia. lia.
Qed.
Section ends.
(** The three ends of a turn, over a book [b3] that agrees with [mid_trade]. *)
Variable b3 : Book.
Hypothesis (C3 : ceq (mid_trade b p t m n ts) b3).
Lemma one_mid_level q : level_at b3 q = if decide (q = p) then level_at b p <| total_qty ::= fun x => i32 (x - n) |> else level_at b q.
Proof. rewrite (ceq_level _ _ C3). apply mid_level. Qed.
Lemma one_mid_order x : order_at b3 x = if decide (x = m) then sold mk n ts else order_at bt x.
Proof.
  rewrite (ceq_order _ _ C3), mid_order by apply one_ne. destruct (decide (x = m)); [done|].
  unfold bt. by rewrite order_at_set.
Qed.
Lemma hidden_wrapped q : i32 (total_hidden (level_at b q)) = total_hidden (level_at b q).
Proof. rewrite (wf_hidden _ _ _ W q). by apply wraps_wraps. Qed.
Lemma total_wrapped q : i32 (total_qty (level_at b q)) = total_qty (level_at b q).
Proof. rewrite (wf_total _ _ _ W q). by apply wraps_wraps. Qed.
Lemma one_partial :
  (o_displayed_qty mk <> n \/ o_type mk <> T_ICEBERG) -> o_filled_qty mk + n < o_total_qty mk ->
  turn_ok (set_order b3 m (fun o => o <| o_status := S_PARTIALLY_FILLED |>)) (qty - n).
Proof.
  intros Hc Hl. destruct one_maker as (Hs & Em & Am & Ro & _). destruct one_n as (Hn & Hd & E1 & E2 & _ & _ & _).
  destruct Ro as [R1 R2 R3 R4 R5]. unfold open_qty in *.
  apply (one_stays _ (sold mk n ts <| o_status := S_PARTIALLY_FILLED |>) (queue (level_at b p))); try done.
  - constructor; cbn; rewrite ?E1, ?E2; unfold open_qty; cbn; rewrite ?E1; try lia; [|done].
    intros T1 T2. specialize (R4 T1 T2). lia.
  - constructor; try apply C3.
    + intros x. rewrite order_at_set, !one_mid_order. rewrite ?obs_order_set_level.
      rewrite (order_at_set bt m). destruct (decide (x = m)); [|done]. by rewrite decide_True.
    + intros q. rewrite obs_level_set_order. rewrite one_mid_level, level_at_set.
      destruct (decide (q = p)) as [->|]; [|done]. unfold bt. rewrite !obs_level_set_order.
      unfold moved, reserve, open_qty. cbn. rewrite E1, E2. destruct (level_at b p) as [qs tq th oc] eqn:El. cbn.
      pose proof (hidden_wrapped p) as Hh. rewrite El in Hh. cbn in Hh. f_equal; [f_equal; lia|]. rewrite <- Hh at 1. f_equal. lia.
  - intros D. cbn. rewrite E2.
    assert (o_displayed_qty mk - n <> 0 -> 1 <= n) by (unfold n; lia).
    destruct (Z.eqb_spec (o_displayed_qty mk - n) 0), (Z.eqb_spec (o_displayed_qty mk) 0); try lia.
    all: exfalso; destruct Hc as [|Hc]; [lia|]; assert (o_type mk <> T_HIDDEN) as T by (intros T; specialize (R5 T); congruence);
         specialize (R4 Hc T); lia.
Qed.
Lemma one_refresh :
  o_displayed_qty mk = n -> o_type mk = T_ICEBERG -> o_filled_qty mk + n < o_total_qty mk -> turn_ok (iceberg_refresh b3 p m) (qty - n).
Proof.
  intros Hc Hi Hl. destruct one_maker as (Hs & Em & Am & Ro & _). destruct one_n as (Hn & Hd & E1 & E2 & _ & _ & _).
  destruct Ro as [R1 R2 R3 R4 R5]. unfold open_qty in *. unfold iceberg_refresh.
  assert (Eo : order_at b3 m = sold mk n ts) by (rewrite one_mid_order; by rewrite decide_True).
  rewrite Eo. pose proof (ice_show_pos (cfg b3) (sold mk n ts)) as Hsh. destruct (ice_show _ _) as [show c]. cbn [fst] in Hsh.
  set (d := Z.min _ show). assert (Ed : d = Z.min (o_total_qty mk - o_filled_qty mk - n) show).
  { unfold d. cbn. rewrite E1. f_equal. unfold INT32_MAX in *. rewrite i32_small by lia. lia. }
  assert (Q : forall q, queue (level_at b3 q) = queue (level_at b q)) by (intros q; rewrite one_mid_level; by destruct (decide (q = p)) as [->|]).
  set (q' := if bool_decide (last (queue (level_at b p)) = Some m) then queue (level_at b p) else remove_slot m (queue (level_at b p)) ++ [m]).
  apply (one_stays _ (sold mk n ts <| o_displayed_qty := d |>) q'); try done.
  - constructor; cbn; rewrite ?E1; unfold open_qty; cbn; rewrite ?E1; try lia; done.
  - unfold q'. case_bool_decide; [done|]. rewrite <- Permutation_cons_append. symmetry. apply remove_slot_perm; [apply W|done].
  - constructor; try apply C3.
    + intros x. rewrite ?obs_order_set_level.
      rewrite ?obs_order_count. rewrite !order_at_set.
      rewrite ?obs_order_cfg. rewrite Eo, one_mid_order.
      by destruct (decide (x = m)).
    + intros q. rewrite !level_at_set. rewrite ?obs_level_count.
      rewrite ?obs_level_set_order. rewrite ?obs_level_cfg.
      rewrite !one_mid_level. unfold bt; rewrite ?obs_level_set_order.
      destruct (decide (q = p)) as [->|]; [|done]. rewrite decide_True by done.
      unfold moved, reserve, open_qty. cbn. rewrite E1. fold q'. destruct (level_at b p) as [qs tq th oc] eqn:El. cbn.
      unfold q'. cbn. f_equal; [rewrite wraps_add_l by lia; f_equal; lia|f_equal; lia].
  - intros D. cbn. destruct (Z.eqb_spec d 0); [lia|]. destruct (Z.eqb_spec (o_displayed_qty mk) 0); lia.
Qed.
Lemma done_told_frame b' o : frame b' (done_told b' o).
Proof. unfold done_told. frames. Qed.
Lemma one_complete :
  o_total_qty mk <= o_filled_qty mk + n -> best_ok b3 -> turn_ok (complete_maker b3 p m t n) (qty - n) /\ lean b3 (complete_maker b3 p m t n).
Proof.
  intros Hc Hb. destruct one_maker as (Hs & Em & Am & Ro & _). destruct one_n as (Hn & Hd & E1 & E2 & _ & _ & _).
  destruct Ro as [R1 R2 R3 R4 R5]. unfold open_qty in *.
  assert (Eo : order_at b3 m = sold mk n ts) by (rewrite one_mid_order; by rewrite decide_True).
  unfold complete_maker. cbv zeta. rewrite order_at_set_eq, Eo.
  set (o' := sold mk n ts <| o_status := S_FILLED |>). set (b1 := set_order b3 m _).
  set (b2 := emit b1 _ _ _ _ _ _ _ _). assert (F2 : frame b1 b2) by apply frame_emit. clearbody b2.
  set (b4 := set_level b2 p _). set (b5 := done_told _ o'). assert (F5 : frame (forget_id (o_id o') b4) b5) by apply done_told_frame.
  pose proof (ceq_frame _ _ F2) as C2. pose proof (ceq_frame _ _ F5) as C5. clearbody b5.
  split.
  2: { apply lean_free. etrans; [exact (lean_frame _ _ F2)|]. exact (lean_frame _ _ F5). }
  apply (one_done _ o'); try done; [lia|unfold open_qty; lia| |].
  2: { apply best_ok_free. apply (best_ok_frame _ _ F5). exact (best_ok_frame _ _ F2 Hb). }
  constructor.
  - intros x. autorewrite with obs. rewrite (ceq_order _ _ C5). autorewrite with obs. unfold b4, retire. autorewrite with obs.
    rewrite (ceq_order _ _ C2). unfold b1. rewrite !order_at_set. autorewrite with obs.
    destruct (decide (x = m)); [by rewrite Eo|]. rewrite one_mid_order, decide_False by done. done.
  - intros q. unfold retire. autorewrite with obs. rewrite (ceq_level _ _ C5). autorewrite with obs.
    unfold b4. rewrite level_at_set, !(ceq_level _ _ C2). unfold unlink_from_level.
    rewrite one_maker_bt, Em, level_at_set. unfold b1, bt. autorewrite with obs. rewrite !one_mid_level.
    destruct (decide (q = p)) as [->|]; [|done]. rewrite decide_True by done. cbn.
    destruct (level_at b p) as [qs tq th oc] eqn:El. cbn. pose proof (hidden_wrapped p) as Hh. rewrite El in Hh. cbn in Hh.
    f_equal; [f_equal; lia|]. rewrite <- Hh at 1. unfold hidden_qty. rewrite wraps_sub_r by lia. f_equal. lia.
  - unfold retire. autorewrite with obs. rewrite (ceq_free _ _ C5). unfold b4, b1 in *. autorewrite with obs.
    rewrite (ceq_free _ _ C2). autorewrite with obs. by rewrite (ceq_free _ _ C3).
  - unfold retire. autorewrite with obs. rewrite (ceq_index _ _ C5), one_maker_bt. unfold b4, b1 in *. autorewrite with obs.
    rewrite (ceq_index _ _ C2). autorewrite with obs. by rewrite (ceq_index _ _ C3).
  - unfold retire. autorewrite with obs. rewrite (ceq_stops _ _ C5). unfold b4, b1 in *. autorewrite with obs.
    rewrite (ceq_stops _ _ C2). autorewrite with obs. by rewrite (ceq_stops _ _ C3).
  - unfold retire. autorewrite with obs. rewrite (ceq_active _ _ C5). unfold b4, b1 in *. autorewrite with obs.
    rewrite (ceq_active _ _ C2). autorewrite with obs. by rewrite (ceq_active _ _ C3).
Qed.
End ends.
(** What a turn leaves: [(b', next, qty')]. *)
Definition turn (r : Book * option Z * Z) : Prop :=
  let '(b', next, qty') := r in
  good dark X b' /\ same t X b b' /\ lean b b' /\ 0 <= qty' <= qty /\ qty' <= open_qty (order_at b' t) /\
  (forall x, next = Some x -> queued b' p x) /\ (dark = false -> work b' + qty' < work b + qty).
Lemma trade_end_turn b3 :
  ceq (mid_trade b p t m n ts) b3 -> lean b b3 -> best_ok b3 -> turn (trade_end b3 p t m n (qty - n)).
Proof.
  intros C3 L3 Bo3. destruct one_maker as (Hs & Em & Am & Ro & _). destruct one_n as (Hn & Hd & E1 & E2 & E3 & El & E4).
  assert (Eo : order_at b3 m = sold mk n ts) by (rewrite (one_mid_order b3 C3); by rewrite decide_True).
  assert (T : forall b', turn_ok b' (qty - n) -> lean b3 b' -> turn (b', next_of b3 p m, qty - n)).
  { intros b' (G & S & Eb & Qx & D) L. split_and!; try done; try lia; [by etrans| |].
    - rewrite Eb. unfold open_qty in *. cbn. rewrite E3. lia.
    - intros x. unfold next_of. rewrite (one_mid_level b3 C3), decide_True by done. cbn. intros Hx'.
      apply after_spec in Hx' as [? ?]; [|apply W]. by apply Qx. }
  destruct Ro as [R1 R2 _ _ _]. unfold trade_end. rewrite Eo. cbv zeta.
  assert (F1 : o_displayed_qty (sold mk n ts) = o_displayed_qty mk - n) by exact E2.
  assert (F2 : o_filled_qty (sold mk n ts) = o_filled_qty mk + n) by exact E1.
  assert (F3 : o_total_qty (sold mk n ts) = o_total_qty mk) by done.
  assert (F4 : o_type (sold mk n ts) = o_type mk) by done.
  rewrite F1, F2, F3, F4. rewrite i32_small by (unfold INT32_MAX in *; lia).
  destruct (_ && _) eqn:C; bsplit.
  - apply T; [|by unfold iceberg_refresh; destruct (ice_show _ _)]. case_bool_decide; [|done]. apply (one_refresh b3 C3); [lia|done|lia].
  - destruct (Z.leb_spec (o_total_qty mk) (o_filled_qty mk + n)).
    + destruct (one_complete b3 C3) as [? ?]; [lia|done|]. by apply T.
    + apply T; [|done]. apply (one_partial b3 C3); [|lia].
      destruct (Z.eqb_spec (o_displayed_qty mk - n) 0); [|left; lia]. destruct (Z.ltb_spec 0 (o_total_qty mk - (o_filled_qty mk + n))); [|lia].
      right. cbn in C. by case_bool_decide.
Qed.
Lemma trade_one_turn : turn (trade_one b p t m qty ts).
Proof.
  pose proof one_n as (_ & _ & _ & _ & _ & _ & E4). unfold trade_one. fold mk. fold n. cbv zeta. rewrite E4.
  pose proof (fill_pair_ceq b m t n ts one_ne) as C1. pose proof (fill_pair_lean b m t n ts) as L1.
  generalize dependent (fill_pair b m t n ts). intros b1 C1 L1. apply trade_end_turn.
  - apply ceq_set_order, ceq_set_level, C1.
  - exact L1.
  - destruct (wf_best_ok _ _ _ W) as [B1 B2]. unfold best_ok. autorewrite with obs. rewrite (ceq_bid _ _ C1), (ceq_ask _ _ C1). done.
Qed.
(** A trade is the fill of the pair, then one of the ends. *)
Lemma trade_one_shape : exists b3, ceq (mid_trade b p t m n ts) b3 /\ trade_one b p t m qty ts = trade_end b3 p t m n (qty - n).
Proof.
  pose proof one_n as (_ & _ & _ & _ & _ & _ & E4). unfold trade_one. fold mk. fold n. cbv zeta. rewrite E4.
  eexists. split; [|reflexivity]. apply ceq_set_order, ceq_set_level, fill_pair_ceq, one_ne.
Qed.
Lemma count_self_trade_frame : frame b (count_self_trade b m t).
Proof. unfold count_self_trade. frames. Qed.
Lemma cancel_turn b1 : frame b b1 ->
  let b' := cancel_internal b1 m true in
  good dark X b' /\ same t X b b' /\ lean b b' /\ order_at b' t = tk /\
  (forall x, x <> m -> queued b p x -> queued b' p x) /\ work b' < work b.
Proof.
  intros F b'. pose proof (ceq_frame _ _ F) as C. destruct one_maker as (Hs & Em & Am & Ro & _).
  assert (NX : m ∉ X) by (intros H; destruct (wf_held _ _ _ W m H) as (_ & _ & _ & N); by apply (N p)).
  assert (K : keeps dark t X b b').
  { etrans; [by apply keeps_frame|]. apply keeps_taker. by apply cancel_internal_keeps. }
  assert (A1 : is_active (order_at b1 m) = true) by by rewrite (ceq_order _ _ C).
  destruct (cancel_internal_retires b1 m true A1) as (E & _ & _). apply beq_base in E. fold b' in E.
  destruct K as [K L]. destruct (K (conj W U)) as [G S].
  assert (Or : forall x, x <> m -> order_at b' x = order_at b x).
  { intros x N. rewrite <- (beq_order _ _ E). unfold retire. autorewrite with obs. rewrite order_at_set_ne by done.
    autorewrite with obs. by rewrite (ceq_order _ _ C). }
  split_and!; try done.
  - apply Or. intros Et. by apply one_ne.
  - intros x N Hx'. unfold queued. rewrite <- (beq_level _ _ E). unfold retire. autorewrite with obs. unfold unlink_from_level.
    rewrite (ceq_order _ _ C). fold mk. rewrite Em, level_at_set_eq. cbn. rewrite (ceq_level _ _ C). by apply remove_slot_elem.
  - unfold work. assert (blanks b' <= blanks b).
    { rewrite (blanks_change b b' m Hs) by (intros x N; unfold blank; by rewrite Or).
      assert (blank b' m = 0).
      { unfold blank. rewrite <- (beq_order _ _ E). unfold retire. autorewrite with obs. by rewrite order_at_set_eq. }
      pose proof (blank_range b m). lia. }
    rewrite <- (beq_active _ _ E). unfold retire. autorewrite with obs. rewrite (ceq_active _ _ C).
    destruct (wf_active_small dark X b W) as [? L']. specialize (L' m p Hm). unfold INT32_MAX in *. rewrite u64_small by lia. lia.
Qed.
End one.
Lemma work_ceq b b' : ceq b b' -> work b' = work b.
Proof.
  intros C. unfold work, blanks. rewrite (ceq_active _ _ C). f_equal. apply sumf_ext. intros x _. unfold blank.
  by rewrite (ceq_order _ _ C).
Qed.
Lemma turn_frame dark X b b1 p t qty r : frame b b1 -> turn dark X b1 p t qty r -> turn dark X b p t qty r.
Proof.
  intros F. destruct r as [[b' next] qty']. intros (G & S & L & H). pose proof (ceq_frame _ _ F) as C.
  split_and!; try done; try tauto.
  - intros s Hs. rewrite <- (ceq_order _ _ C). by apply S.
  - etrans; [by apply lean_frame|done].
  - rewrite <- (work_ceq _ _ C). tauto.
Qed.
Lemma match_one_turn dark X b p t m qty ts :
  good dark X b -> t ∈ X -> queued b p m -> 0 < qty <= open_qty (order_at b t) -> 0 <= o_filled_qty (order_at b t) ->
  o_total_qty (order_at b t) <= INT32_MAX -> turn dark X b p t qty (match_one b p t m qty ts).
Proof.
  intros G Ht Hm Hq Hf Hx. unfold match_one. destruct (self_trade b m t); [|destruct G; by apply trade_one_turn].
  pose proof (count_self_trade_frame b t m) as F. cbv zeta. set (b1 := count_self_trade b m t) in *. clearbody b1.
  pose proof (ceq_frame _ _ F) as C. destruct (cancel_turn dark X b p t m qty (proj1 G) (proj2 G) Ht Hm b1 F) as (G' & S & L & Et & Qx & D).
  assert (T : turn dark X b p t qty (trade_one b1 p t m qty ts)).
  { apply (turn_frame _ _ _ b1 _ _ _ _ F). pose proof (good_frame _ _ _ _ F G) as [W1 U1].
    apply trade_one_turn; rewrite ?(ceq_order _ _ C); try done. unfold queued. by rewrite (ceq_level _ _ C). }
  assert (Nx : forall x, next_of b1 p m = Some x -> queued b p x /\ x <> m).
  { intros x. unfold next_of. rewrite (ceq_level _ _ C). apply after_spec, G. }
  generalize dependent (cancel_internal b1 m true). intros bc G' S L Et Qx D. generalize dependent (trade_one b1 p t m qty ts).
  intros r T. generalize (next_of b1 p m), Nx. clear Nx. intros next Nx. destruct (stp_policy_ (cfg b1)); [exact T| | | |exact T].
  - split_and!; [by apply (good_frame _ _ _ _ F)| |by apply (lean_frame _ _ F)|lia|lia| |done| ].
    + intros s _. by rewrite (ceq_order _ _ C).
    + rewrite (ceq_order _ _ C). lia.
    + intros _. rewrite (work_ceq _ _ C). lia.
  - split_and!; [done|done|done|lia|lia|rewrite Et; lia| |lia].
    intros x Hx'. destruct (Nx x Hx'). by apply Qx.
  - split_and!; [done|done|done|lia|lia|rewrite Et; lia|done|lia].
Qed.

(** ** The walk along a level *)

Lemma work_nonneg dark X b : wf dark X b -> 0 <= work b.
Proof.
  intros W. destruct (wf_active_small _ _ _ W) as [? _]. assert (0 <= blanks b); [|unfold work; lia].
  apply sumf_nonneg. intros x _. apply blank_range.
Qed.
Lemma same_taker t X b b' : t ∈ X -> same t X b b' ->
  o_total_qty (order_at b' t) = o_total_qty (order_at b t) /\ o_filled_qty (order_at b t) <= o_filled_qty (order_at b' t) /\
  o_side (order_at b' t) = o_side (order_at b t) /\ o_price_ticks (order_at b' t) = o_price_ticks (order_at b t).
Proof. intros Ht S. destruct (S t Ht) as [_ (n & ts & -> & ? & _)]; done. Qed.
(** The taker [t] with [qty] shares to go. *)
Definition taking (X : gset Z) b (t qty : Z) : Prop :=
  t ∈ X /\ 0 <= o_filled_qty (order_at b t) /\ o_total_qty (order_at b t) <= INT32_MAX /\ 0 <= qty <= open_qty (order_at b t).
Definition walked (dark : bool) (X : gset Z) b (t qty : Z) b' (qty' : Z) : Prop :=
  good dark X b' /\ same t X b b' /\ lean b b' /\ taking X b' t qty' /\ qty' <= qty /\ (dark = false -> work b' + qty' <= work b + qty).
Lemma walked_refl dark X b t qty : good dark X b -> taking X b t qty -> walked dark X b t qty b qty.
Proof. intros G T. split_and!; [done|apply same_refl|done|done|lia|lia]. Qed.
Lemma walked_trans dark X b1 b2 b3 t q1 q2 q3 :
  walked dark X b1 t q1 b2 q2 -> walked dark X b2 t q2 b3 q3 -> walked dark X b1 t q1 b3 q3.
Proof.
  intros (_ & S1 & L1 & _ & Q1 & D1) (G & S2 & L2 & T & Q2 & D2).
  unfold walked. split_and!; [done|by eapply same_trans|by etrans|done|lia|]. intros D. specialize (D1 D). specialize (D2 D). lia.
Qed.
Lemma turn_walked dark X b p t qty b' next qty' :
  taking X b t qty -> turn dark X b p t qty (b', next, qty') ->
  walked dark X b t qty b' qty' /\ (forall x, next = Some x -> queued b' p x) /\ (dark = false -> work b' + qty' < work b + qty).
Proof.
  intros (Ht & Hf & Hx & Hq) (G & S & L & Q & Qo & N & D). destruct (same_taker t X b b' Ht S) as (E1 & E2 & _ & _).
  unfold walked, taking. split_and!; try done; try lia. intros E. specialize (D E). lia.
Qed.
Lemma match_at_level_walked dark X p t ts fuel b m qty b' qty' :
  match_at_level fuel b p t m qty ts = Some (b', qty') -> good dark X b -> taking X b t qty -> (forall x, m = Some x -> queued b p x) ->
  walked dark X b t qty b' qty' /\ (dark = false -> is_Some m -> 0 < qty -> work b' + qty' < work b + qty).
Proof.
  revert b m qty. induction fuel as [|fuel IH]; intros b [m|] qty; cbn [match_at_level]; intros E G T Hm.
  2, 4: simplify_eq; split; [by apply walked_refl|by intros _ [? ?]].
  all: destruct (Z.leb_spec qty 0) as [?|Hq]; [simplify_eq; split; [by apply walked_refl|lia]|]. 1: done.
  pose proof T as (Ht & Hf & Hx & Hq').
  pose proof (match_one_turn dark X b p t m qty ts G Ht (Hm m eq_refl) (conj Hq (proj2 Hq')) Hf Hx) as H.
  destruct (match_one b p t m qty ts) as [[b1 next] q1]. apply turn_walked in H as (W1 & N1 & D1); [|done].
  destruct (IH b1 next q1 E) as [W2 _]; [apply W1|apply W1|done|]. split; [by eapply walked_trans|].
  intros D _ _. specialize (D1 D). destruct W2 as (_ & _ & _ & _ & _ & D2). specialize (D2 D). lia.
Qed.
Lemma match_at_level_ends X p t ts fuel b m qty :
  good false X b -> taking X b t qty -> (forall x, m = Some x -> queued b p x) -> work b + qty <= Z.of_nat fuel ->
  is_Some (match_at_level fuel b p t m qty ts).
Proof.
  revert b m qty. induction fuel as [|fuel IH]; intros b [m|] qty G T Hm Hl; cbn [match_at_level]; try by eexists.
  all: destruct (Z.leb_spec qty 0) as [?|Hq]; [by eexists|]; pose proof (work_nonneg _ _ _ (proj1 G)). 1: lia.
  pose proof T as (Ht & Hf & Hx & Hq').
  pose proof (match_one_turn false X b p t m qty ts G Ht (Hm m eq_refl) (conj Hq (proj2 Hq')) Hf Hx) as H'.
  destruct (match_one b p t m qty ts) as [[b1 next] q1]. apply turn_walked in H' as (W1 & N1 & D1); [|done].
  apply IH; [apply W1|apply W1|done|]. specialize (D1 eq_refl). lia.
Qed.

(** ** The walk over the levels *)

Lemma beq_work b b' : beq b b' -> work b' = work b.
Proof.
  intros C. unfold work, blanks. rewrite (beq_active _ _ C). f_equal. apply sumf_ext. intros x _. unfold blank.
  by rewrite (beq_order _ _ C).
Qed.
Lemma best_walked dark X b t qty b' :
  base b = base b' -> linked b' = linked b -> (wf dark X b -> wf dark X b') -> good dark X b -> taking X b t qty -> walked dark X b t qty b' qty.
Proof.
  intros E%beq_base L H [W U] T. unfold walked, taking. rewrite (beq_order _ _ E). split_and!; try apply T; try lia.
  - split; [by apply H|]. intros x Hx id. rewrite (beq_index _ _ E). by apply U.
  - intros x _. by rewrite (beq_order _ _ E).
  - by apply lean_linked.
  - by rewrite (beq_work _ _ E).
Qed.
Definition next_best (buy : bool) b : Book :=
  if buy then refresh_best_ask_from b (i32 (best_ask_ticks_ b + 1)) else refresh_best_bid_from b (i32 (best_bid_ticks_ b - 1)).
Lemma next_best_walked dark X b t qty buy : good dark X b -> taking X b t qty -> walked dark X b t qty (next_best buy b) qty.
Proof.
  apply best_walked.
  - unfold next_best, refresh_best_ask_from, refresh_best_bid_from. by repeat case_match.
  - unfold next_best, refresh_best_ask_from, refresh_best_bid_from. by repeat case_match.
  - intros W. destruct buy; [by apply wf_refresh_ask|by apply wf_refresh_bid].
Qed.
(** How far the best price of the other side is from the end of the grid. *)
Definition room (buy : bool) b : Z :=
  if buy then if has_ask b then LEVELS - best_ask_ticks_ b else 0 else if has_bid b then best_bid_ticks_ b + 1 else 0.
Lemma room_range dark X b buy : wf dark X b -> 0 <= room buy b <= LEVELS.
Proof.
  intros W. destruct ok as [? _]. unfold room, has_ask, has_bid. destruct (wf_bid _ _ _ W) as [Eb|Eb], (wf_ask _ _ _ W) as [Ea|Ea].
  all: try rewrite Eb; try rewrite Ea; unfold in_range, PRICE_MIN_TICKS in *; bsplit; rewrite ?Z.eqb_refl; cbn [negb]; destruct buy; zcases; lia.
Qed.
Lemma room_next dark X b (buy : bool) : wf dark X b -> (if buy then has_ask b else has_bid b) = true -> room buy (next_best buy b) < room buy b.
Proof.
  intros W H. destruct ok as [Hl _]. unfold next_best, room. destruct buy; rewrite H.
  - destruct (wf_ask _ _ _ W) as [E|E]; [unfold has_ask in H; rewrite E in H; done|].
    unfold in_range, PRICE_MIN_TICKS, INT32_MAX in *. bsplit. rewrite i32_small by lia. unfold refresh_best_ask_from.
    destruct (_ || _) eqn:C; [cbn; lia|]. destruct (scan_prices _ _ _ _) as [q|] eqn:Es; [|cbn; lia].
    apply scan_prices_some in Es as (k & ? & -> & _). cbn. case_match; lia.
  - destruct (wf_bid _ _ _ W) as [E|E]; [unfold has_bid in H; rewrite E in H; done|].
    unfold in_range, PRICE_MIN_TICKS, INT32_MAX in *. bsplit. rewrite i32_small by lia. unfold refresh_best_bid_from.
    destruct (_ || _) eqn:C; [cbn; lia|]. destruct (scan_prices _ _ _ _) as [q|] eqn:Es; [|cbn; lia].
    apply scan_prices_some in Es as (k & ? & -> & _). cbn. case_match; lia.
Qed.
(** One level of the walk. *)
Definition level_done (buy : bool) (p : Z) (r : Book * Z) : Book * Z :=
  (if level_empty (level_at r.1 p) then next_best buy r.1 else r.1, r.2).
Definition reaches (buy : bool) b (tk : Order) (p : Z) : bool :=
  if buy then has_ask b && (p <=? o_price_ticks tk) else has_bid b && (o_price_ticks tk <=? p).
Definition other_best (buy : bool) b : Z := if buy then best_ask_ticks_ b else best_bid_ticks_ b.
Lemma match_levels_unfold fuel b t qty ts levels :
  match_levels fuel b t qty ts levels =
  let buy := is_buy (o_side (order_at b t)) in let p := other_best buy b in
  if (qty <=? 0) || negb (reaches buy b (order_at b t) p) then Some (b, qty, levels) else
  match fuel with
  | O => None
  | S fuel =>
      match match_at_level fuel b p t (head (queue (level_at b p))) qty ts with
      | None => None
      | Some r => match_levels fuel (level_done buy p r).1 t r.2 ts (if r.2 <? qty then levels + 1 else levels)
      end
  end.
Proof.
  destruct fuel as [|fuel]; cbn [match_levels]; unfold reaches, other_best; [done|]. destruct (is_buy _); cbv zeta.
  all: destruct (_ || _); [done|]; destruct (match_at_level _ _ _ _ _ _ _) as [[b1 q1]|]; done.
Qed.
Definition cost (buy : bool) b (qty : Z) : Z := (work b + qty) * (LEVELS + 1) + room buy b.
Lemma cost_lt n w w' r r' : w' < w -> 0 <= r' <= n -> 0 <= r -> w' * (n + 1) + r' < w * (n + 1) + r.
Proof. nia. Qed.
Lemma level_step dark X b t qty ts fuel p (buy : bool) r :
  p = other_best buy b -> good dark X b -> taking X b t qty -> 0 < qty -> (if buy then has_ask b else has_bid b) = true ->
  match_at_level fuel b p t (head (queue (level_at b p))) qty ts = Some r ->
  walked dark X b t qty (level_done buy p r).1 r.2 /\ (dark = false -> cost buy (level_done buy p r).1 r.2 < cost buy b qty).
Proof.
  intros Ep G T Hq Hb E. destruct r as [b1 q1]. destruct ok as [Hl _].
  assert (Hh : forall x, head (queue (level_at b p)) = Some x -> queued b p x).
  { unfold queued. destruct (queue _); [done|]. intros x [= ->]. by left. }
  destruct (match_at_level_walked dark X p t ts fuel b _ qty b1 q1 E G T Hh) as [W1 D1].
  assert (W : walked dark X b t qty (level_done buy p (b1, q1)).1 q1).
  { unfold level_done. cbn. destruct (level_empty _); [|done]. eapply walked_trans; [exact W1|]. apply next_best_walked; apply W1. }
  split; [done|]. intros D. destruct W as ([W _] & _ & _ & _ & _ & Dw). specialize (Dw D).
  pose proof (room_range _ _ _ buy W) as R. pose proof (room_range _ _ _ buy (proj1 G)) as R0.
  unfold cost. destruct (head (queue (level_at b p))) as [x|] eqn:Eh.
  - assert (work (level_done buy p (b1, q1)).1 + q1 < work b + qty); [|apply cost_lt; [done|exact R|apply R0]].
    specialize (D1 D ltac:(by eexists) Hq). unfold level_done. cbn. destruct (level_empty _); [|done].
    destruct (next_best_walked dark X b1 t q1 buy) as (_ & _ & _ & _ & _ & Dn); [apply W1|apply W1|]. specialize (Dn D). lia.
  - assert (b1 = b /\ q1 = qty) as [-> ->] by (destruct fuel; cbn in E; by simplify_eq).
    assert (level_empty (level_at b p) = true) as El by (unfold level_empty; by destruct (queue _)).
    unfold level_done in *. cbn in *. rewrite El in *. pose proof (room_next _ _ _ buy (proj1 G) Hb).
    assert (HL : 0 <= LEVELS + 1) by lia. pose proof (Z.mul_le_mono_nonneg_r _ _ _ HL Dw). lia.
Qed.
Lemma reaches_best (buy : bool) b tk p : reaches buy b tk p = true -> (if buy then has_ask b else has_bid b) = true.
Proof. unfold reaches. by destruct buy; intros [? _]%andb_prop. Qed.
Lemma match_levels_walked dark X t ts fuel b qty levels b' qty' levels' :
  match_levels fuel b t qty ts levels = Some (b', qty', levels') -> good dark X b -> taking X b t qty -> walked dark X b t qty b' qty'.
Proof.
  revert b qty levels. induction fuel as [|fuel IH]; intros b qty levels; rewrite match_levels_unfold; cbv zeta; intros E G T.
  all: destruct (_ || _) eqn:C; [simplify_eq; by apply walked_refl|]. 1: done.
  apply orb_false_iff in C as [Hq C%negb_false_iff]. destruct (match_at_level _ _ _ _ _ _ _) as [r|] eqn:Em; [|done].
  destruct (level_step dark X b t qty ts fuel _ _ r eq_refl G T ltac:(lia) (reaches_best _ _ _ _ C) Em) as [W _].
  eapply walked_trans; [exact W|]. eapply IH; [exact E|apply W|apply W].
Qed.
Lemma match_levels_ends X t ts fuel b qty levels :
  good false X b -> taking X b t qty -> cost (is_buy (o_side (order_at b t))) b qty <= Z.of_nat fuel ->
  is_Some (match_levels fuel b t qty ts levels).
Proof.
  revert b qty levels. induction fuel as [|fuel IH]; intros b qty levels G T Hc; rewrite match_levels_unfold; cbv zeta.
  all: destruct (_ || _) eqn:C; [by eexists|]; apply orb_false_iff in C as [Hq C%negb_false_iff]; destruct ok as [Hl _].
  all: set (buy := is_buy _) in *; pose proof (work_nonneg _ _ _ (proj1 G)); pose proof (room_range _ _ _ buy (proj1 G)).
  - unfold cost in Hc. nia.
  - assert (work b + qty <= Z.of_nat fuel).
    { pose proof (room_next _ _ _ buy (proj1 G) (reaches_best _ _ _ _ C)). destruct (next_best_walked false X b t qty buy G T) as [[Wn _] _].
      pose proof (room_range _ _ _ buy Wn). unfold cost in Hc. nia. }
    destruct (match_at_level_ends X (other_best buy b) t ts fuel b (head (queue (level_at b (other_best buy b)))) qty G T) as [r Er]; [|done|].
    { unfold queued. destruct (queue _); [done|]. intros x [= ->]. by left. }
    rewrite Er. destruct (level_step false X b t qty ts fuel _ buy r eq_refl G T ltac:(lia) (reaches_best _ _ _ _ C) Er) as [W D].
    apply IH; [apply W|apply W|]. specialize (D eq_refl). destruct W as (_ & S & _). destruct (same_taker t X _ _ (proj1 T) S) as (_ & _ & -> & _).
    fold buy. lia.
Qed.
End matching.
