(* ===== verification/LadderSubmit.v ===== *)
(** * LadderSubmit: submitting keeps the invariant and ends

    [submit] with everything that it sets off: the match, the cancelled
    partners, the exits of completed brackets (each a nested [submit]), the
    withdrawn quotes of tripped market makers.  Every accepted or refused order
    leaves the book well formed, and some fuel suffices. *)
From S2P Require Import Prelude Double Common LadderTypes LadderTrades LadderSamples Ladder LadderInv LadderKeep LadderMatch.

Section submit.
Context {env : BookEnv} {ok : EnvOk}.
Implicit Types b : Book.

(** ** The match *)

Lemma sweep_counts_frame b tk levels mid : frame b (sweep_counts b tk levels mid).
Proof.
  unfold sweep_counts. cbv zeta. apply frame_if; [etrans; [|apply frame_count_book]|].
  all: destruct (0 <=? mid); frames.
Qed.
Lemma mono_frame b : frame b (mono_ns_now b).2.
Proof. done. Qed.
Lemma remaining_open o : 0 <= o_filled_qty o <= o_total_qty o -> o_total_qty o <= INT32_MAX -> remaining_qty o = open_qty o.
Proof. intros. unfold remaining_qty, open_qty. unfold INT32_MAX in *. by rewrite i32_small by lia. Qed.
(** The taker on entry to the match. *)
Definition takes_at (X : gset Z) b (t : Z) : Prop :=
  t ∈ X /\ 0 <= o_filled_qty (order_at b t) <= o_total_qty (order_at b t) /\ o_total_qty (order_at b t) <= INT32_MAX.
Lemma match_against_kept dark X fuel b t b' :
  match_against fuel b t = Some b' -> good dark X b -> takes_at X b t -> good dark X b' /\ same t X b b' /\ lean b b'.
Proof.
  intros E G (Ht & Hf & Hx). unfold match_against in E. pose proof (mono_frame b) as F.
  destruct (mono_ns_now b) as [ts b1]. cbn [snd] in F. pose proof (ceq_frame _ _ F) as C.
  pose proof (good_frame _ _ _ _ F G) as G1. rewrite (ceq_order _ _ C), remaining_open in E by done.
  destruct (match_levels _ _ _ _ _ _) as [[[b2 q] l]|] eqn:Em; [|done].
  destruct (match_levels_walked dark X t ts fuel b1 _ 0 b2 q l Em G1) as (G2 & S2 & L2 & _).
  { unfold taking, open_qty. rewrite (ceq_order _ _ C). split_and!; try done; lia. }
  assert (K2 : good dark X b2 /\ same t X b b2 /\ lean b b2).
  { split_and!; [done| |by etrans; [apply lean_frame, F|]]. intros s Hs. rewrite <- (ceq_order _ _ C). by apply S2. }
  assert (F' : frame b2 b').
  { destruct (_ <? _); simplify_eq; [apply sweep_counts_frame|done]. }
  clear -K2 F' ok. destruct K2 as (G & S & L). pose proof (ceq_frame _ _ F') as C.
  split_and!; [by eapply good_frame| |by etrans; [|apply lean_frame, F']]. intros s Hs. rewrite (ceq_order _ _ C). by apply S.
Qed.
(** Fuel that suffices for any match. *)
Definition match_fuel : Z := (2 * MAX_ORDERS + INT32_MAX) * (LEVELS + 1) + LEVELS.
Lemma work_bound dark X b : wf dark X b -> work b <= 2 * MAX_ORDERS.
Proof.
  intros W. unfold work. pose proof (wf_pool _ _ _ W). pose proof (alen_nonneg (free_list_ b)). destruct ok as [_ ?].
  pose proof (sumf_bounds (blank b) (slots MAX_ORDERS) 0 1 (fun x _ => blank_range b x)) as B.
  pose proof (slots_length MAX_ORDERS) as L. unfold blanks, alen in *. lia.
Qed.
Lemma match_against_ends X fuel b t :
  good false X b -> takes_at X b t -> match_fuel <= Z.of_nat fuel -> is_Some (match_against fuel b t).
Proof.
  intros G (Ht & Hf & Hx) Hl. unfold match_against. pose proof (mono_frame b) as F.
  destruct (mono_ns_now b) as [ts b1]. cbn [snd] in F. pose proof (ceq_frame _ _ F) as C.
  pose proof (good_frame _ _ _ _ F G) as G1. rewrite (ceq_order _ _ C), remaining_open by done.
  destruct (match_levels_ends X t ts fuel b1 (open_qty (order_at b t)) 0 G1) as [[[b2 q] l] ->]; [| |by eexists].
  { unfold taking, open_qty. rewrite (ceq_order _ _ C). split_and!; try done; lia. }
  set (buy := is_buy _). pose proof (room_range _ _ _ buy (proj1 G1)). pose proof (work_bound _ _ _ (proj1 G1)).
  pose proof (work_nonneg _ _ _ (proj1 G1)). destruct ok as [? ?]. unfold cost, match_fuel, open_qty in *.
  assert ((work b1 + (o_total_qty (order_at b t) - o_filled_qty (order_at b t))) * (LEVELS + 1) <=
          (2 * MAX_ORDERS + INT32_MAX) * (LEVELS + 1)); [|lia]. apply Z.mul_le_mono_nonneg_r; lia.
Qed.

(** ** Entry and settlement *)

Definition kept (dark : bool) (X : gset Z) b b' : Prop := good dark X b' /\ same nobody X b b' /\ lean b b'.
Lemma kept_refl dark X b : good dark X b -> kept dark X b b.
Proof. intros G. split_and!; [done|apply same_refl|done]. Qed.
Lemma kept_trans dark X b1 b2 b3 : kept dark X b1 b2 -> kept dark X b2 b3 -> kept dark X b1 b3.
Proof. intros (_ & S1 & L1) (G & S2 & L2). split_and!; [done|by eapply same_trans|by etrans]. Qed.
Lemma keeps_kept dark X b b' : keeps dark nobody X b b' -> good dark X b -> kept dark X b b'.
Proof. intros [K L] G. destruct (K G) as [G' S]. by split_and!. Qed.
Lemma frame_kept dark X b b' : frame b b' -> good dark X b -> kept dark X b b'.
Proof. intros F. by apply keeps_kept, keeps_frame. Qed.

(** What [submit] accepts: a 32-bit size; hidden only where [dark]; a market
    order may carry any price, but one that can rest must carry one of the
    grid. *)
Record fits (dark : bool) (n : NewOrder) : Prop := {
  fit_qty : n_qty n <= INT32_MAX;
  fit_dark : n_type n = T_HIDDEN -> dark = true;
  fit_price : n_type n = T_MARKET -> is_ioc n = false -> in_range (n_price n) = true }.
(** The order in its slot. *)
Record entered (n : NewOrder) (o : Order) : Prop := {
  en_total : o_total_qty o = n_qty n;
  en_price : o_price_ticks o = n_price n;
  en_type : o_type o = n_type n;
  en_shown : o_displayed_qty o = (entry_display n).2;
  en_new : o_status o = S_NEW;
  en_filled : 0 <= o_filled_qty o <= n_qty n }.
Lemma entered_filled n o o' : entered n o -> filled_as o o' -> entered n o'.
Proof.
  intros [] (k & ts & -> & ? & H). constructor; try done. cbn. lia.
Qed.
Lemma frame_burst w ts b : frame b (burst_on_submit w ts b).
Proof. done. Qed.
(** [open_order] around the write of its slot. *)
Lemma open_order_shape b n s : exists id now mid b1,
  frame b b1 /\ frame (set_order b1 s (fun o =>
    o <| o_id := id |> <| o_client_id := n_client_id n |> <| o_price_ticks := n_price n |> <| o_total_qty := n_qty n |>
      <| o_filled_qty := 0 |> <| o_displayed_qty := (entry_display n).2 |> <| o_iceberg_display_size := (entry_display n).1 |> <| o_side := n_side n |>
      <| o_type := n_type n |> <| o_tif := n_tif n |> <| o_status := S_NEW |> <| o_submit_ts_ns := now |>
      <| o_decision_mid_ticks := mid |>)) (open_order b n s).
Proof.
  unfold open_order. assert (F0 : frame b (assign_id b (n_order_id n)).2) by (unfold assign_id; by destruct (_ =? 0)).
  destruct (assign_id b (n_order_id n)) as [id b0]. destruct (entry_display n) as [ice shown]. cbn [fst snd] in *.
  destruct (mono_ns_now b0) as [now b1] eqn:E. assert (F1 : frame b0 b1) by (pose proof (mono_frame b0) as F; by rewrite E in F).
  exists id, now, (mid_ticks b1), b1. split; [by etrans|]. frames. apply frame_burst.
Qed.
Lemma open_order_kept dark X b n s :
  good dark X b -> s ∈ X -> 0 < n_qty n ->
  good dark X (open_order b n s) /\ entered n (order_at (open_order b n s) s) /\
  (forall x, x <> s -> order_at (open_order b n s) x = order_at b x) /\ lean b (open_order b n s).
Proof.
  intros G Hs Hq. destruct (open_order_shape b n s) as (id & now & mid & b1 & F1 & F2). set (f := fun o => _) in F2.
  pose proof (ceq_frame _ _ F1) as C1. pose proof (ceq_frame _ _ F2) as C2. pose proof (good_frame _ _ _ _ F1 G) as [W1 U1].
  split_and!.
  - eapply good_frame; [exact F2|]. split; [|exact U1]. apply wf_set_held; [done|right; by apply U1|done].
  - rewrite (ceq_order _ _ C2), order_at_set_eq. unfold f. generalize (order_at b1 s). intros o. constructor; try done. cbn. lia.
  - intros x N. rewrite (ceq_order _ _ C2), order_at_set_ne by done. apply (ceq_order _ _ C1).
  - etrans; [apply lean_frame, F1|]. exact (lean_frame _ _ F2).
Qed.
Lemma entry_shown n : 0 < n_qty n ->
  0 <= (entry_display n).2 <= n_qty n /\ (n_type n <> T_ICEBERG -> n_type n <> T_HIDDEN -> (entry_display n).2 = n_qty n).
Proof.
  intros Hq. unfold entry_display. cbn [snd]. set (ice := if _ && _ then _ else _).
  assert (0 <= ice <= n_qty n /\ (n_type n <> T_ICEBERG -> ice = 0)) as [Hi Hp].
  { unfold ice. case_bool_decide as I; cbn [andb]; [|lia]. destruct (Z.ltb_spec 0 (n_displayed_qty n)); [|lia]. split; [lia|done]. }
  clearbody ice. case_bool_decide as H; [split; [lia|done]|]. split; [destruct (0 <? ice); lia|]. intros I _. by rewrite Hp.
Qed.
(** Leaving the hand: back to the pool with a final status. *)
Lemma dismiss_kept dark X b b' s f :
  s ∉ X -> good dark ({[s]} ∪ X) b -> is_active (f (order_at b s)) = false -> frame (set_order b s f) b' -> kept dark X b (free_order b' s).
Proof.
  intros NX [W U] Ha F. pose proof (ceq_frame _ _ F) as C.
  assert (W1 : wf dark ({[s]} ∪ X) b').
  { eapply wf_ceq; [exact C|]. apply wf_set_held; [set_solver|right; apply U; set_solver|done]. }
  assert (U1 : forall x, x ∈ {[s]} ∪ X -> unref b' x) by (intros x Hx id; rewrite (ceq_index _ _ C); by apply U).
  assert (({[s]} ∪ X) ∖ {[s]} = X) as EX by set_solver.
  split_and!; [split| |].
  - rewrite <- EX. apply wf_free_slot; [set_solver| |apply U1; set_solver|done]. by rewrite (ceq_order _ _ C), order_at_set_eq.
  - intros x Hx. apply (U1 x). set_solver.
  - intros x Hx. assert (x <> s) by (by intros ->). rewrite obs_order_free_order, (ceq_order _ _ C), order_at_set_ne by done. done.
  - apply lean_free. exact (lean_frame _ _ F).
Qed.
(** Leaving the hand for the queue of a level. *)
Lemma rests_enqueued b s : rests (enqueue_at_level b s) s.
Proof. unfold rests, queued. rewrite obs_order_enqueue. unfold enqueue_at_level. rewrite level_at_set_eq. cbn. set_solver. Qed.
Lemma place_kept dark X b s id :
  s ∉ X -> good dark ({[s]} ∪ X) b -> is_active (order_at b s) = true -> restable dark (order_at b s) ->
  in_range (o_price_ticks (order_at b s)) = true -> o_id (order_at b s) = id ->
  kept dark X b ((enqueue_at_level b s) <| id_index_ ::= <[id := s]> |>).
Proof.
  intros NX [W U] Ha Ho Hp Hi. assert (({[s]} ∪ X) ∖ {[s]} = X) as EX by set_solver.
  assert (W1 : wf dark X (enqueue_at_level b s)) by (rewrite <- EX; apply wf_enqueue; try done; set_solver).
  split_and!; [split| |].
  - apply wf_index_add; [by rewrite obs_order_enqueue|left; apply rests_enqueued|done].
  - intros x Hx k. cbn. intros [[_ <-]|[_ H]]%lookup_insert_Some; [done|]. apply (U x) in H; [done|set_solver].
  - intros x Hx. done.
  - by apply lean_linked.
Qed.
Lemma join_best_kept dark X b side p : in_range p = true -> good dark X b -> kept dark X b (join_best b side p).
Proof.
  intros Hp [W U]. assert (E : beq b (join_best b side p)) by (apply beq_base; unfold join_best; by repeat case_match).
  split_and!; [split| |].
  - by apply wf_join_best.
  - intros x Hx id. rewrite (beq_index _ _ E). by apply U.
  - intros x Hx. by rewrite (beq_order _ _ E).
  - apply lean_linked. unfold join_best. by repeat case_match.
Qed.
Definition resting (o : Order) : Order :=
  if 0 <? o_filled_qty o
  then o <| o_status := S_PARTIALLY_FILLED |> <| o_displayed_qty ::= fun d => Z.min d (remaining_qty o) |>
  else o <| o_status := S_OPEN |>.
Lemma resting_ok dark n o : fits dark n -> entered n o -> 0 < n_qty n -> o_filled_qty o < o_total_qty o ->
  restable dark (resting o) /\ is_active (resting o) = true /\ o_price_ticks (resting o) = n_price n /\ o_id (resting o) = o_id o.
Proof.
  intros [Fq Fd _] [Et Ep Ey Es En Ef] Hq Hl. destruct (entry_shown n Hq) as [Hs Hp]. rewrite <- Es in *. rewrite <- Ey in *.
  unfold resting. pose proof (remaining_open o) as Hr. destruct (Z.ltb_spec 0 (o_filled_qty o)).
  - split_and!; [|done|done|done]. constructor; cbn; unfold open_qty in *; cbn; rewrite ?Hr; try lia; try done.
    intros T1 T2. specialize (Hp T1 T2). lia.
  - split_and!; [|done|done|done]. constructor; cbn; unfold open_qty in *; cbn; try lia; try done.
    intros T1 T2. specialize (Hp T1 T2). lia.
Qed.
Lemma kept_side dark X b b1 b' : (forall s, s ∈ X -> order_at b1 s = order_at b s) -> lean b b1 -> kept dark X b1 b' -> kept dark X b b'.
Proof.
  intros H L (G & S & L'). split_and!; [done| |by etrans]. intros s Hs. rewrite <- (H s Hs). by apply S.
Qed.
Lemma settle_kept dark X b n s :
  s ∉ X -> good dark ({[s]} ∪ X) b -> entered n (order_at b s) -> fits dark n -> 0 < n_qty n ->
  (is_ioc n = false -> in_range (n_price n) = true) -> kept dark X b (settle b n s).
Proof.
  intros NX G En Fn Hq Hp. unfold settle. set (o := order_at b s) in *. destruct (Z.leb_spec (o_total_qty o) (o_filled_qty o)) as [Hf|Hf].
  { eapply dismiss_kept; [done|exact G| |apply frame_count_order]. by generalize (order_at b s). }
  destruct (is_ioc n).
  { eapply dismiss_kept; [done|exact G| |]; [|cbv zeta; etrans; [|apply frame_count_order]; etrans; [|apply frame_emit]; reflexivity].
    by generalize (order_at b s). }
  destruct (resting_ok dark n o Fn En Hq Hf) as (Hr & Ha & Er & Ei). specialize (Hp eq_refl). cbv zeta.
  set (b1 := count_order _ _). assert (F1 : frame (set_order b s resting) b1) by apply frame_count_order. clearbody b1.
  pose proof (ceq_frame _ _ F1) as C1. assert (E1 : order_at b1 s = resting o) by by rewrite (ceq_order _ _ C1), order_at_set_eq.
  assert (G1 : good dark ({[s]} ∪ X) b1).
  { eapply good_frame; [exact F1|]. destruct G as [W U]. split; [|exact U]. apply wf_set_held; [set_solver|right; apply U; set_solver|done]. }
  apply (kept_side _ _ _ b1).
  { intros x Hx. rewrite (ceq_order _ _ C1), order_at_set_ne; [done|]. by intros ->. }
  { exact (lean_frame _ _ F1). }
  pose proof (place_kept dark X b1 s (o_id o) NX G1) as K. rewrite E1 in K. specialize (K Ha Hr). rewrite Er in K. specialize (K Hp Ei).
  set (b2 := (enqueue_at_level b1 s) <| id_index_ ::= _ |>) in *. clearbody b2. destruct (bool_decide _); [exact K|].
  rewrite (en_price _ _ En). eapply kept_trans; [exact K|]. eapply kept_trans; [apply (join_best_kept dark X b2 (o_side o) (n_price n) Hp), K|].
  apply frame_kept; [apply frame_delta|]. apply join_best_kept; [done|apply K].
Qed.

(** ** The gates *)

Lemma frame_cfg f b : frame b (b <| cfg ::= f |>).
Proof. done. Qed.
Lemma reject_frame b n r : frame b (reject_order b n r).
Proof. unfold reject_order. frames. Qed.
Lemma admit_account_frame b n : frame b (admit_account b n).2.
Proof.
  unfold admit_account. cbv zeta. set (c := _ && _) at 1.
  assert (F : frame b (if c then consume_rate_token b (n_client_id n) else (true, b)).2) by (destruct c; [apply frame_token|done]).
  destruct (if c then _ else _) as [r b1]. cbn [snd] in F. destruct (negb r); [exact F|]. clear c; case_match; exact F.
Qed.
Lemma admit_price_frame b n : frame b (admit_price b n).2.
Proof.
  unfold admit_price. cbv zeta. destruct (_ && _).
  - cbn [snd]. destruct (luld_halt_to_auction_ _); [done|]. by destruct (luld_auto_halt_ _).
  - repeat (destruct (_ && _); [done|]). done.
Qed.
Lemma admission_frame b n : frame b (admission b n).2.
Proof.
  unfold admission. destruct (admit_session b n); [done|]. pose proof (admit_account_frame b n) as F.
  destruct (admit_account b n) as [[r|] b1]; [exact F|]. etrans; [exact F|apply admit_price_frame].
Qed.
Lemma admission_ok b n b' : admission b n = (None, b') -> 0 < n_qty n /\ (in_range (n_price n) = true \/ n_type n = T_MARKET).
Proof.
  unfold admission. destruct (admit_session b n) eqn:E; [done|]. intros _. unfold admit_session in E.
  case_bool_decide; [done|]. destruct (halted_ _); [done|]. destruct (Z.leb_spec (n_qty n) 0); [done|].
  split; [done|]. destruct (in_range _); [by left|]. right. cbn in E. by case_bool_decide.
Qed.

(** ** Stops and brackets *)

Lemma alloc_good dark X b s b' : alloc_order b = Some (s, b') -> good dark X b ->
  good dark ({[s]} ∪ X) b' /\ s ∉ X /\ (forall x, x ∈ X -> order_at b' x = order_at b x) /\ lean b b'.
Proof.
  intros E [W U]. destruct (wf_alloc dark X b s b' E W) as (W' & _ & Us & NX & Or & Ix). split_and!; [split|done| |].
  - done.
  - intros x [->%elem_of_singleton|Hx]%elem_of_union; [done|]. intros id. rewrite Ix. by apply U.
  - intros x Hx. apply Or. by intros ->.
  - apply lean_linked. unfold alloc_order in E. destruct (free_list_ b); [done|]. by destruct (_ <? _); simplify_eq.
Qed.
Lemma assign_frame b id : frame b (assign_id b id).2.
Proof. unfold assign_id. by destruct (_ =? 0). Qed.
(** A held slot, written as a pending stop, joins the stops. *)
Lemma stop_kept dark X b s f id :
  s ∉ X -> good dark ({[s]} ∪ X) b -> pending_ok (f (order_at b s)) -> o_id (f (order_at b s)) = id ->
  kept dark X b ((set_order b s f) <| stop_orders_ ::= fun l => l ++ [s] |> <| id_index_ ::= <[id := s]> |>).
Proof.
  intros NX [W U] Hp Hi. assert (({[s]} ∪ X) ∖ {[s]} = X) as EX by set_solver.
  assert (W1 : wf dark ({[s]} ∪ X) (set_order b s f)) by (apply wf_set_held; [set_solver|right; apply U; set_solver|done]).
  assert (E1 : order_at (set_order b s f) s = f (order_at b s)) by apply order_at_set_eq.
  assert (O1 : forall x, x ∈ X -> order_at (set_order b s f) x = order_at b x) by (intros x Hx; apply order_at_set_ne; by intros ->).
  assert (I1 : id_index_ (set_order b s f) = id_index_ b) by done. assert (L1 : linked (set_order b s f) = linked b) by done.
  generalize dependent (set_order b s f). intros b1 W1 E1 O1 I1 L1. rewrite <- E1 in Hp, Hi.
  assert (W2 : wf dark X (b1 <| stop_orders_ ::= fun l => l ++ [s] |>)) by (rewrite <- EX; apply wf_stop_add; [set_solver|done|done]).
  split_and!; [split| |].
  - apply wf_index_add; [exact Hi|right; left; cbn; set_solver|exact W2].
  - intros x Hx k. cbn. intros [[_ <-]|[_ H]]%lookup_insert_Some; [done|]. rewrite I1 in H. apply (U x) in H; [done|set_solver].
  - intros x Hx. change (order_at (_ <| id_index_ ::= _ |>) x) with (order_at b1 x). by rewrite O1.
  - apply lean_linked. exact L1.
Qed.
Lemma submit_stop_kept dark X b side trigger limit qty id cid :
  qty <= INT32_MAX -> good dark X b -> kept dark X b (submit_stop b side trigger limit qty id cid).2.
Proof.
  intros Hq G. assert (R : forall r, kept dark X b (tally_rejection r (count_stat (fun s => s <| total_orders_rejected ::= inc |>) b))).
  { intros r. apply frame_kept; [frames|done]. }
  unfold submit_stop. cbv zeta. destruct (bool_decide _); [apply R|]. destruct (_ <=? _); [apply R|]. destruct (_ || _); [apply R|].
  destruct (alloc_order b) as [[s b1]|] eqn:E; [|apply R]. clear R.
  destruct (alloc_good dark X b s b1 E G) as (G1 & NX & O1 & L1). apply (kept_side _ _ _ b1 _ O1 L1). clear E G O1 L1.
  pose proof (assign_frame b1 id) as F2. destruct (assign_id b1 id) as [id' b2]. cbn [snd] in F2.
  pose proof (mono_frame b2) as F3. destruct (mono_ns_now b2) as [now b3]. cbn [snd] in F3.
  assert (F : frame b1 b3) by by etrans. pose proof (good_frame _ _ _ _ F G1) as G3. clear F2 F3.
  match goal with |- context[set_order b3 s ?g] => set (f := g) end. pose proof (stop_kept dark X b3 s f id' NX G3) as K.
  assert (K' : kept dark X b3 ((set_order b3 s f) <| stop_orders_ ::= fun l => l ++ [s] |> <| id_index_ ::= <[id' := s]> |>)).
  { apply K; generalize (order_at b3 s); [|done]. by split. }
  clear K. set (b4 := (set_order b3 s f) <| stop_orders_ ::= _ |> <| id_index_ ::= _ |>) in *. clearbody b4. cbn [snd].
  pose proof (ceq_frame _ _ F) as C. apply (kept_side _ _ _ b3).
  - intros x Hx. apply (ceq_order _ _ C).
  - by apply lean_frame.
  - eapply kept_trans; [exact K'|]. apply frame_kept; [|apply K']. etrans; [|apply frame_emit]. frames.
Qed.

Definition outcome : Type := Z * option RejectReason * Book.
(** A way to submit that keeps the book well formed, and one that ends while
    fewer than [k] brackets are left. *)
Definition sub_ok (dark : bool) (X : gset Z) (sub : Book -> NewOrder -> option outcome) : Prop := forall b n r,
  good dark X b -> sane b -> fits dark n -> sub b n = Some r -> kept dark X b r.2.
Definition sub_ends (X : gset Z) (k : nat) (sub : Book -> NewOrder -> option outcome) : Prop := forall b n,
  good false X b -> sane b -> fits false n -> (brk b < k)%nat -> is_Some (sub b n).
Lemma fits_limit dark side p q tif id cid : q <= INT32_MAX -> fits dark (limit_order side p q tif id cid).
Proof. by constructor. Qed.
Lemma link_oco_frame b x y : frame b (link_oco b x y).2.
Proof. unfold link_oco. by repeat case_match. Qed.
Lemma frame_armed b : frame b (b <| linked ::= fun l => l <| brackets_armed_ ::= inc |> |>).
Proof. done. Qed.
Lemma arm_kept dark X sub b s b' :
  sub_ok dark X sub -> good dark X b -> sane b -> br_qty s <= INT32_MAX -> arm_bracket_exits sub b s = Some b' -> kept dark X b b'.
Proof.
  intros Sb G Sn Hq E. unfold arm_bracket_exits in E. assert (F0 : frame b (set_internal true b)) by done.
  pose proof (frame_kept dark X _ _ F0 G) as K0. pose proof (good_frame _ _ _ _ F0 G) as G0. assert (Sn0 : sane (set_internal true b)) by done.
  generalize dependent (set_internal true b). intros b0 E F0 K0 G0 Sn0.
  destruct (sub b0 _) as [[[tp r] b1]|] eqn:Es; [|done].
  assert (K1 : kept dark X b0 b1) by (refine (Sb _ _ _ G0 Sn0 _ Es); by apply fits_limit).
  pose proof (submit_stop_kept dark X b1 (exit_side s) (sl_trigger_ticks s) 0 (br_qty s) 0 (br_client_id s) Hq (proj1 K1)) as K2.
  destruct (submit_stop _ _ _ _ _ _ _) as [[sl r2] b2]. cbn [snd] in K2. injection E as <-.
  eapply kept_trans; [exact K0|]. eapply kept_trans; [exact K1|]. eapply kept_trans; [exact K2|]. apply frame_kept; [|apply K2].
  assert (F3 : frame b2 (set_internal false b2)) by done. etrans; [exact F3|]. destruct (_ && _); [|done].
  etrans; [apply link_oco_frame|]. apply frame_armed.
Qed.
Lemma arm_ends X k sub b s :
  sub_ends X k sub -> good false X b -> sane b -> br_qty s <= INT32_MAX -> (brk b < k)%nat -> is_Some (arm_bracket_exits sub b s).
Proof.
  intros Sb G Sn Hq Hk. unfold arm_bracket_exits.
  destruct (Sb (set_internal true b) (limit_order (exit_side s) (tp_price_ticks s) (br_qty s) TIF_GTC 0 (br_client_id s))) as [[[tp r] b1] ->].
  - by apply (good_frame _ _ b).
  - done.
  - by apply fits_limit.
  - done.
  - by destruct (submit_stop _ _ _ _ _ _ _) as [[sl r2] b2].
Qed.
Lemma bracket_pop b s rest : bracket_pending_ (linked b) = s :: rest ->
  let b' := b <| linked ::= fun l => l <| bracket_pending_ := rest |> |> in
  frame b b' /\ brk b = S (brk b') /\ (sane b -> br_qty s <= INT32_MAX).
Proof.
  intros E. assert (Eb : brk b = S (brk (b <| linked ::= fun l => l <| bracket_pending_ := rest |> |>))) by (unfold brk; rewrite E; cbn; lia).
  split_and!; [split; [done|split; [lia|]]|done|].
  - intros [S Q]. split; [|exact Q]. intros x [H|H]; apply S; [by left|right]. rewrite E. by right.
  - intros [S _]. apply S. right. rewrite E. by left.
Qed.
Lemma bracket_loop_kept dark X sub fuel b b' :
  sub_ok dark X sub -> good dark X b -> sane b -> bracket_loop sub fuel b = Some b' -> kept dark X b b'.
Proof.
  intros Sb. revert b. induction fuel as [|fuel IH]; intros b G Sn; cbn [bracket_loop]; destruct (bracket_pending_ (linked b)) as [|s rest] eqn:Ep.
  1, 3: intros [= <-]; by apply kept_refl. 1: done.
  destruct (bracket_pop b s rest Ep) as (F & _ & Hs). set (b1 := b <| linked ::= _ |>) in *. clearbody b1.
  destruct (arm_bracket_exits sub b1 s) as [b2|] eqn:E2; [|done]. intros E. pose proof (frame_kept dark X _ _ F G) as K1.
  assert (Sn1 : sane b1) by by apply K1. assert (K2 : kept dark X b1 b2) by (eapply arm_kept; [exact Sb|apply K1|done|by apply Hs|exact E2]).
  eapply kept_trans; [exact K1|]. eapply kept_trans; [exact K2|]. apply IH; [apply K2|by apply K2|exact E].
Qed.
Lemma bracket_loop_ends X k sub fuel b :
  sub_ok false X sub -> sub_ends X k sub -> good false X b -> sane b -> (brk b <= k)%nat -> (brk b <= fuel)%nat -> is_Some (bracket_loop sub fuel b).
Proof.
  intros Sb Se. revert b. induction fuel as [|fuel IH]; intros b G Sn Hk Hf; cbn [bracket_loop]; destruct (bracket_pending_ (linked b)) as [|s rest] eqn:Ep; try by eexists.
  all: destruct (bracket_pop b s rest Ep) as (F & Eb & Hs); set (b1 := b <| linked ::= _ |>) in *; clearbody b1. 1: lia.
  pose proof (frame_kept false X _ _ F G) as K1. assert (Sn1 : sane b1) by by apply K1.
  destruct (arm_ends X k sub b1 s Se (proj1 K1) Sn1 (Hs Sn)) as [b2 E2]; [lia|]. rewrite E2.
  assert (K2 : kept false X b1 b2) by (eapply arm_kept; [exact Sb|apply K1|done|by apply Hs|exact E2]).
  destruct K2 as (G2 & _ & [L2 S2]). apply IH; [done|by apply S2|lia|lia].
Qed.

(** ** submit *)

(** What an accepted order does before it is settled. *)
Definition entry_match (fuel : nat) b (n : NewOrder) (s : Z) : option Book :=
  if takes n && negb (in_auction_mode_ (cfg b)) then
    match match_against fuel b s with
    | Some b => match bracket_loop (submit fuel) fuel (process_oco_pending b) with
                | Some b => Some (process_mmp_pending b)
                | None => None
                end
    | None => None
    end
  else Some b.
Lemma submit_S fuel b n :
  submit (S fuel) b n =
  match admission b n with
  | (Some r, b) => Some (0, Some r, reject_order b n r)
  | (None, b) =>
      match alloc_order b with
      | None => Some (0, Some R_POOL_EXHAUSTED, reject_order b n R_POOL_EXHAUSTED)
      | Some (s, b) =>
          let b := open_order b n s in
          let id := o_id (order_at b s) in
          match entry_match fuel b n s with
          | Some b => Some (id, None, settle b n s)
          | None => None
          end
      end
  end.
Proof. reflexivity. Qed.
(** The accepted order in the slot [s], before its match. *)
Lemma opened_good dark X b n b1 s b2 :
  good dark X b -> admission b n = (None, b1) -> alloc_order b1 = Some (s, b2) ->
  let b3 := open_order b2 n s in
  good dark ({[s]} ∪ X) b3 /\ s ∉ X /\ entered n (order_at b3 s) /\ 0 < n_qty n /\ (in_range (n_price n) = true \/ n_type n = T_MARKET) /\
  (forall x, x ∈ X -> order_at b3 x = order_at b x) /\ lean b b3.
Proof.
  intros G Ea El b3. pose proof (admission_frame b n) as F. rewrite Ea in F. cbn [snd] in F. destruct (admission_ok b n b1 Ea) as [Hq Hp].
  pose proof (ceq_frame _ _ F) as C. destruct (alloc_good dark X b1 s b2 El (good_frame _ _ _ _ F G)) as (G2 & NX & O2 & L2).
  destruct (open_order_kept dark ({[s]} ∪ X) b2 n s G2) as (G3 & En & O3 & L3); [set_solver|done|]. split_and!; try done.
  - intros x Hx. unfold b3. rewrite O3 by (by intros ->). rewrite O2 by done. apply (ceq_order _ _ C).
  - etrans; [apply lean_frame, F|]. by etrans.
Qed.
Lemma entered_takes X b n s : s ∈ X -> entered n (order_at b s) -> n_qty n <= INT32_MAX -> takes_at X b s.
Proof. intros Hs [Et _ _ _ _ Ef] Hq. unfold takes_at. rewrite Et. done. Qed.
Lemma entry_match_kept dark X fuel b n s b' :
  sub_ok dark X (submit fuel) -> good dark X b -> sane b -> s ∈ X -> entered n (order_at b s) -> n_qty n <= INT32_MAX ->
  entry_match fuel b n s = Some b' -> good dark X b' /\ same s X b b' /\ lean b b'.
Proof.
  intros Sb G Sn Hs En Hq. unfold entry_match. destruct (_ && _); [|intros [= <-]; by split_and!; [|apply same_refl|]].
  destruct (match_against fuel b s) as [b1|] eqn:Em; [|done].
  destruct (match_against_kept dark X fuel b s b1 Em G) as (G1 & S1 & L1); [by eapply entered_takes|].
  pose proof (keeps_kept dark X _ _ (process_oco_keeps dark X b1) G1) as K2. generalize dependent (process_oco_pending b1). intros b2 K2.
  destruct (bracket_loop (submit fuel) fuel b2) as [b3|] eqn:Eb; [|done]. intros [= <-].
  assert (Sn2 : sane b2) by (apply K2; by apply L1).
  assert (K3 : kept dark X b2 b3) by (eapply bracket_loop_kept; [exact Sb|apply K2|done|exact Eb]).
  pose proof (keeps_kept dark X _ _ (process_mmp_keeps dark X b3) (proj1 K3)) as K4. generalize dependent (process_mmp_pending b3). intros b4 K4.
  pose proof (kept_trans _ _ _ _ _ K2 (kept_trans _ _ _ _ _ K3 K4)) as (G4 & S4 & L4).
  split_and!; [done| |by etrans]. eapply same_trans; [exact S1|]. by eapply same_nobody.
Qed.
Lemma reject_kept dark X b b1 n r : frame b b1 -> good dark X b -> kept dark X b (reject_order b1 n r).
Proof. intros F. apply frame_kept. etrans; [exact F|apply reject_frame]. Qed.
Lemma submit_kept dark fuel X : sub_ok dark X (submit fuel).
Proof.
  revert X. induction fuel as [|fuel IH]; intros X b n r G Sn Fn; [done|]. rewrite submit_S.
  pose proof (admission_frame b n) as F. destruct (admission b n) as [[rr|] b1] eqn:Ea; cbn [snd] in F.
  { intros [= <-]. by apply reject_kept. }
  destruct (alloc_order b1) as [[s b2]|] eqn:El; [|intros [= <-]; by apply reject_kept].
  destruct (opened_good dark X b n b1 s b2 G Ea El) as (G3 & NX & En & Hq & Hp & O3 & L3). cbv zeta.
  generalize dependent (open_order b2 n s). intros b3 G3 En O3 L3. clear Ea El F b1 b2.
  destruct (entry_match fuel b3 n s) as [b4|] eqn:Em; [|done]. intros [= <-]. cbn [snd].
  destruct (entry_match_kept dark ({[s]} ∪ X) fuel b3 n s b4 (IH _) G3) as (G4 & S4 & L4); [by apply L3|set_solver|done|apply Fn|done|].
  apply (kept_side _ _ _ b4).
  - intros x Hx. rewrite <- (O3 x Hx). apply S4; [set_solver|]. by intros ->.
  - by etrans.
  - apply settle_kept; try done.
    + eapply entered_filled; [exact En|]. apply S4; [set_solver|done].
    + intros Hi. destruct Hp as [?|Hm]; [done|]. by apply (fit_price dark n Fn Hm).
Qed.
Lemma entry_match_ends X fuel k b n s :
  sub_ends X k (submit fuel) -> match_fuel + Z.of_nat k <= Z.of_nat fuel -> good false X b -> sane b -> s ∈ X -> entered n (order_at b s) ->
  n_qty n <= INT32_MAX -> (brk b <= k)%nat -> is_Some (entry_match fuel b n s).
Proof.
  intros Se Hf G Sn Hs En Hq Hk. unfold entry_match. destruct (_ && _); [|by eexists].
  assert (T : takes_at X b s) by by eapply entered_takes.
  destruct (match_against_ends X fuel b s G T) as [b1 Em]; [lia|]. rewrite Em.
  destruct (match_against_kept false X fuel b s b1 Em G T) as (G1 & S1 & L1).
  pose proof (keeps_kept false X _ _ (process_oco_keeps false X b1) G1) as K2. generalize dependent (process_oco_pending b1). intros b2 K2.
  pose proof L1 as [La Ls]. pose proof K2 as (G2 & _ & [Lb Lt]). assert (0 <= match_fuel) by (unfold match_fuel; destruct ok; unfold INT32_MAX in *; nia).
  destruct (bracket_loop_ends X k (submit fuel) fuel b2) as [b3 ->]; [apply submit_kept|done|done|by apply Lt, Ls|lia|lia|by eexists].
Qed.
(** [submit] ends with [match_fuel] turns and one for each bracket. *)
Lemma submit_ends fuel k X : match_fuel + Z.of_nat k <= Z.of_nat fuel -> sub_ends X k (submit fuel).
Proof.
  revert k X. induction fuel as [|fuel IH]; intros k X Hf b n G Sn Fn Hk.
  { assert (0 <= match_fuel) by (unfold match_fuel; destruct ok; unfold INT32_MAX in *; nia). lia. }
  rewrite submit_S. destruct (admission b n) as [[rr|] b1] eqn:Ea; [by eexists|].
  destruct (alloc_order b1) as [[s b2]|] eqn:El; [|by eexists].
  destruct (opened_good false X b n b1 s b2 G Ea El) as (G3 & NX & En & Hq & Hp & O3 & [L3 S3]). cbv zeta.
  generalize dependent (open_order b2 n s). intros b3 G3 En O3 L3 S3.
  destruct (entry_match_ends ({[s]} ∪ X) fuel (k - 1) b3 n s) as [b4 ->];
    [apply IH; lia|lia|done|by apply S3|set_solver|done|apply Fn|lia|by eexists].
Qed.

(** ** Fuel *)

Lemma match_at_level_mono fuel fuel' b p t m qty ts r : (fuel <= fuel')%nat -> match_at_level fuel b p t m qty ts = Some r -> match_at_level fuel' b p t m qty ts = Some r.
Proof.
  revert fuel' b m qty. induction fuel as [|fuel IH]; intros [|fuel'] b [m|] qty Hl; cbn [match_at_level]; try done; try lia.
  - by destruct (_ <=? _).
  - destruct (_ <=? _); [done|]. destruct (match_one b p t m qty ts) as [[b1 next] q]. apply IH. lia.
Qed.
Lemma match_levels_mono fuel fuel' b t qty ts l r : (fuel <= fuel')%nat -> match_levels fuel b t qty ts l = Some r -> match_levels fuel' b t qty ts l = Some r.
Proof.
  revert fuel' b qty l. induction fuel as [|fuel IH]; intros [|fuel'] b qty l Hl; rewrite !match_levels_unfold; cbv zeta; try done; try lia.
  - by destruct (_ || _).
  - destruct (_ || _); [done|]. destruct (match_at_level fuel _ _ _ _ _ _) as [x|] eqn:E; [|done].
    rewrite (match_at_level_mono fuel fuel' _ _ _ _ _ _ x ltac:(lia) E). apply IH. lia.
Qed.
Lemma match_against_mono fuel fuel' b t r : (fuel <= fuel')%nat -> match_against fuel b t = Some r -> match_against fuel' b t = Some r.
Proof.
  intros Hl. unfold match_against. destruct (mono_ns_now b) as [ts b1].
  destruct (match_levels fuel _ _ _ _ _) as [x|] eqn:E; [|done]. by rewrite (match_levels_mono fuel fuel' _ _ _ _ _ x Hl E).
Qed.
Definition sub_le (sub sub' : Book -> NewOrder -> option outcome) : Prop := forall b n r, sub b n = Some r -> sub' b n = Some r.
Lemma bracket_loop_mono sub sub' fuel fuel' b r :
  sub_le sub sub' -> (fuel <= fuel')%nat -> bracket_loop sub fuel b = Some r -> bracket_loop sub' fuel' b = Some r.
Proof.
  intros Sl. revert fuel' b. induction fuel as [|fuel IH]; intros [|fuel'] b Hl; cbn [bracket_loop]; try done; try lia.
  all: destruct (bracket_pending_ (linked b)) as [|s rest]; try done.
  unfold arm_bracket_exits. set (b0 := set_internal true _). destruct (sub b0 _) as [[[tp rr] b1]|] eqn:E; [|done].
  rewrite (Sl _ _ _ E). destruct (submit_stop _ _ _ _ _ _ _) as [[sl r2] b2]. apply IH. lia.
Qed.
Lemma submit_mono fuel fuel' : (fuel <= fuel')%nat -> sub_le (submit fuel) (submit fuel').
Proof.
  revert fuel'. induction fuel as [|fuel IH]; intros [|fuel'] Hl b n r; try done; try lia. rewrite !submit_S.
  destruct (admission b n) as [[rr|] b1]; [done|]. destruct (alloc_order b1) as [[s b2]|]; [|done]. cbv zeta.
  generalize (open_order b2 n s). intros b3. unfold entry_match. destruct (_ && _); [|done].
  destruct (match_against fuel b3 s) as [b4|] eqn:E; [|done]. rewrite (match_against_mono fuel fuel' _ _ b4 ltac:(lia) E).
  generalize (process_oco_pending b4). intros b5. destruct (bracket_loop (submit fuel) fuel b5) as [b6|] eqn:E2; [|done].
  rewrite (bracket_loop_mono (submit fuel) (submit fuel') fuel fuel' b5 b6); [done|apply IH; lia|lia|done].
Qed.
End submit.
