(* ===== verification/LadderStep.v ===== *)
(** * LadderStep: every operation of the full order book keeps its invariant

    [book_ok]: well formed, with nothing held, and 32-bit sizes in what waits.
    One lemma per operation of [LadderOps]; [LadderReach] puts them together. *)
From S2P Require Import Prelude Double Common LadderTypes LadderTrades LadderSamples Ladder LadderOps LadderInv LadderKeep LadderMatch LadderSubmit.

Section step.
Context {env : BookEnv} {ok : EnvOk}.
Implicit Types b : Book.

Definition book_ok (dark : bool) b : Prop := good dark ∅ b /\ sane b.
Lemma ok_kept dark b b' : kept dark ∅ b b' -> book_ok dark b -> book_ok dark b'.
Proof. intros (G & _ & L) [_ S]. split; [done|by apply L]. Qed.
Lemma ok_keeps dark b b' : keeps dark nobody ∅ b b' -> book_ok dark b -> book_ok dark b'.
Proof. intros K O. eapply ok_kept, O. by apply keeps_kept, O. Qed.
Lemma ok_frame dark b b' : frame b b' -> book_ok dark b -> book_ok dark b'.
Proof. intros F. by apply ok_keeps, keeps_frame. Qed.
Lemma ok_core dark b b' : core b = core b' -> (sane b -> sane b') -> book_ok dark b -> book_ok dark b'.
Proof.
  intros E H [[W U] S]. split; [split|by apply H]; [by eapply wf_frame|]. intros s Hs. set_solver.
Qed.
Lemma good_empty dark b : wf dark ∅ b -> good dark ∅ b.
Proof. intros W. split; [done|set_solver]. Qed.

Lemma book_submit_ok dark fuel b n id r b' : fits dark n -> submit fuel b n = Some (id, r, b') -> book_ok dark b -> book_ok dark b'.
Proof. intros Fn E O. eapply ok_kept, O. by apply (submit_kept dark fuel ∅ b n (id, r, b') (proj1 O) (proj2 O)). Qed.
Lemma book_cancel_ok dark b id : book_ok dark b -> book_ok dark (cancel b id).2.
Proof. apply ok_keeps, cancel_keeps. Qed.
Lemma mass_cancel_ok dark b cid : book_ok dark b -> book_ok dark (mass_cancel b cid).2.
Proof. apply ok_keeps, mass_cancel_keeps. Qed.
Lemma refuse_ok dark b r : book_ok dark b -> book_ok dark (refuse b r).2.
Proof. apply ok_frame. unfold refuse. cbn [snd]. frames. Qed.
Lemma submit_stop_ok dark b side trigger limit qty id cid :
  qty <= INT32_MAX -> book_ok dark b -> book_ok dark (submit_stop b side trigger limit qty id cid).2.
Proof. intros Hq O. eapply ok_kept, O. by apply submit_stop_kept, O. Qed.

(** Writing a field that the invariant does not read, in the slot of an entry
    of the index. *)
Definition quiet (o o' : Order) : Prop :=
  o_id o' = o_id o /\ o_price_ticks o' = o_price_ticks o /\ o_total_qty o' = o_total_qty o /\ o_filled_qty o' = o_filled_qty o /\
  o_displayed_qty o' = o_displayed_qty o /\ o_type o' = o_type o /\ o_status o' = o_status o.
Lemma quiet_ok dark b s f :
  (rests b s \/ s ∈ stop_orders_ b) -> quiet (order_at b s) (f (order_at b s)) -> book_ok dark b -> book_ok dark (set_order b s f).
Proof.
  intros Hs (Ei & Ep & Et & Ef & Ed & Ey & Es) [[W U] S]. split; [|done]. apply good_empty. set (o := order_at b s) in *.
  destruct Hs as [Hr|Hr].
  - destruct (wf_queue _ _ _ W _ s Hr) as (_ & _ & Ha & [] & _).
    eapply (wf_touch dark ∅ b _ s (f o) (queue (level_at b (o_price_ticks o)))); try done.
    + constructor; unfold open_qty in *; rewrite ?Ef, ?Et, ?Ed, ?Ey; done.
    + unfold is_active in *. by rewrite Es.
    + constructor; try done.
      intros q. rewrite level_at_set, !obs_level_set_order. destruct (decide (q = _)) as [->|]; [|done].
        unfold moved, reserve, open_qty. fold o. rewrite Ef, Et, Ed, !Z.sub_diag, !Z.add_0_r.
        rewrite (total_wrapped dark ∅ b W), (hidden_wrapped dark ∅ b W). by destruct (level_at b _).
  - apply wf_stop_touch; try done. destruct (wf_stop _ _ _ W s Hr) as [_ [Hp Ht]]. fold o in Hp, Ht.
    unfold pending_ok, is_pending_stop in *. fold o. by rewrite Ey, Es, Et.
Qed.
Lemma index_place dark b id s : book_ok dark b -> id_index_ b !! id = Some s -> rests b s \/ s ∈ stop_orders_ b.
Proof. intros [[W _] _] H. destruct (wf_index _ _ _ W id s H) as [_ [?|[?|?]]]; [by left|by right|set_solver]. Qed.
Lemma trailing_stop_ok dark b side trail limit qty id cid :
  qty <= INT32_MAX -> book_ok dark b -> book_ok dark (submit_trailing_stop b side trail limit qty id cid).2.
Proof.
  intros Hq O. unfold submit_trailing_stop. destruct (qty <=? 0), (trail <=? 0); try by apply refuse_ok.
  cbv zeta. set (ref := if last_trade_ticks_ b <? 0 then _ else _). clearbody ref. destruct (ref <? 0); [by apply refuse_ok|].
  set (trigger := if is_buy side then _ else _). clearbody trigger. destruct (_ || _); [by apply refuse_ok|].
  pose proof (submit_stop_ok dark b side trigger limit qty id cid Hq O) as O1.
  destruct (submit_stop _ _ _ _ _ _ _) as [[sid r] b1]. cbn [snd] in O1. destruct (sid =? 0); [done|]. cbn [snd].
  destruct (id_index_ b1 !! sid) as [s|] eqn:E; [|done]. apply quiet_ok; [by eapply index_place|done|done].
Qed.

(** ** Stops that fire *)

Lemma ratchet_ok dark b s ref : s ∈ stop_orders_ b -> book_ok dark b -> book_ok dark (ratchet b s ref).
Proof.
  intros Hs O. assert (Q : forall t, book_ok dark (set_order b s (fun o => o <| o_stop_trigger_ticks := t |>))) by (intros t; apply quiet_ok; [by right|done|done]).
  unfold ratchet. cbv zeta. destruct (_ <=? 0); [done|]. destruct (is_buy _); destruct (_ && _); try done.
  all: apply (ok_frame dark _ _ (frame_count_book _ _)), Q.
Qed.
Lemma ratchet_stops b s ref : stop_orders_ (ratchet b s ref) = stop_orders_ b.
Proof. unfold ratchet. cbv zeta. by repeat case_match. Qed.
Lemma fire_stop_ok dark fuel b i s b' : stop_orders_ b !! i = Some s -> fire_stop fuel b i s = Some b' -> book_ok dark b -> book_ok dark b'.
Proof.
  intros Hi E [[W U] S]. unfold fire_stop in E. cbv zeta in E. set (o := order_at b s) in *.
  assert (Hs : s ∈ stop_orders_ b) by by eapply list_elem_of_lookup_2. destruct (wf_stop _ _ _ W s Hs) as [Hr [Hp Ht]]. fold o in Hp, Ht.
  pose proof (wf_stop_remove _ _ _ _ _ Hi W) as W1. set (b1 := b <| stop_orders_ ::= swap_remove i |>) in *.
  pose proof (unref_forget _ _ _ s W1) as U1. pose proof (wf_forget _ _ _ (o_id o) W1) as W2.
  assert (W3 : wf dark (({[s]} ∪ ∅) ∖ {[s]}) (free_order (forget_id (o_id o) b1) s)).
  { apply wf_free_slot; [set_solver| |exact U1|exact W2]. autorewrite with obs. change (order_at b1 s) with o.
    unfold is_pending_stop, is_active in *. bsplit. repeat case_bool_decide; simplify_eq/=; congruence. }
  assert (EX : ({[s]} ∪ ∅) ∖ {[s]} = (∅ : gset Z)) by set_solver. rewrite EX in W3. clear EX W1 W2 U1 U W.
  match type of E with context[submit fuel (set_internal true ?x)] => set (b2 := x) in * end.
  assert (O2 : book_ok dark b2).
  { split; [|exact S]. apply good_empty. eapply wf_frame, W3. done. }
  destruct (submit fuel (set_internal true b2) _) as [[[id r] b3]|] eqn:Es; [|done]. injection E as <-.
  apply (ok_frame dark b3); [done|]. eapply book_submit_ok; [|exact Es|by apply (ok_frame dark b2)]. by apply fits_limit.
Qed.
Lemma stop_loop_ok dark fuel b i b' : stop_loop fuel b i = Some b' -> book_ok dark b -> book_ok dark b'.
Proof.
  revert b i. induction fuel as [|fuel IH]; intros b i; cbn [stop_loop]; destruct (stop_orders_ b !! i) as [s|] eqn:Ei; try by intros [= <-].
  intros E O. assert (Hs : s ∈ stop_orders_ b) by by eapply list_elem_of_lookup_2.
  pose proof (ratchet_ok dark b s (stop_ref b (order_at b s)) Hs O) as O1. pose proof (ratchet_stops b s (stop_ref b (order_at b s))) as E1.
  set (b1 := ratchet b s _) in *. clearbody b1. destruct (triggered _ _); [|by eapply IH].
  destruct (fire_stop fuel b1 i s) as [b2|] eqn:Ef; [|done]. cbn in E. eapply IH; [exact E|]. eapply fire_stop_ok; [|exact Ef|done]. by rewrite E1.
Qed.
Lemma check_stops_ok dark fuel b b' : check_stop_triggers fuel b = Some b' -> book_ok dark b -> book_ok dark b'.
Proof. unfold check_stop_triggers. destruct (_ <? 0); [by intros [= <-]|apply stop_loop_ok]. Qed.

(** ** Pegs *)

Lemma alloc_reset dark b s b' : alloc_order b = Some (s, b') -> good dark ∅ b -> order_at b' s = reset_order.
Proof. intros E [W _]. by destruct (wf_alloc dark ∅ b s b' E W) as (_ & ? & _). Qed.
Lemma place_peg_ok dark b side price offset qty id cid cap mid :
  0 < qty <= INT32_MAX -> book_ok dark b -> book_ok dark (place_peg b side price offset qty id cid cap mid).2.
Proof.
  intros Hq O. unfold place_peg. destruct (_ || _) eqn:Ep; [by apply refuse_ok|]. destruct (alloc_order b) as [[s b1]|] eqn:Ea; [|by apply refuse_ok].
  pose proof (alloc_reset dark b s b1 Ea (proj1 O)) as R1. destruct (alloc_good dark ∅ b s b1 Ea (proj1 O)) as (G1 & NX & _ & L1).
  assert (S1 : sane b1) by (apply L1, O). clear Ea L1 O.
  pose proof (assign_frame b1 id) as F2. destruct (assign_id b1 id) as [id' b2]. cbn [snd] in F2.
  pose proof (mono_frame b2) as F3. destruct (mono_ns_now b2) as [now b3]. cbn [snd] in F3.
  assert (F : frame b1 b3) by by etrans. pose proof (good_frame _ _ _ _ F G1) as G3. assert (S3 : sane b3) by by apply F.
  assert (R3 : order_at b3 s = reset_order) by by rewrite (ceq_order _ _ (ceq_frame _ _ F)). clear F F2 F3 G1 S1 R1 b1 b2.
  match goal with |- context[set_order b3 s ?g] => set (f := g) end. cbv zeta. cbn [snd].
  assert (G4 : good dark ({[s]} ∪ ∅) (set_order b3 s f)).
  { destruct G3 as [W U]. split; [|exact U]. apply wf_set_held; [set_solver|right; apply U; set_solver|done]. }
  assert (S4 : sane (set_order b3 s f)) by done. assert (E4 : order_at (set_order b3 s f) s = f reset_order) by by rewrite order_at_set_eq, R3.
  generalize dependent (set_order b3 s f). intros b4 G4 S4 E4. clear G3 S3 R3 b3.
  assert (Hp : in_range price = true) by (unfold in_range, PRICE_MIN_TICKS; bsplit; apply andb_true_iff; lia).
  assert (K : kept dark ∅ b4 ((enqueue_at_level b4 s) <| id_index_ ::= <[id' := s]> |>)).
  { apply place_kept; rewrite ?E4; try done. constructor; unfold open_qty; cbn; try lia; try done. }
  match goal with |- context[join_best ?x side price] => set (b5 := x) end.
  assert (O5 : book_ok dark b5).
  { apply (ok_frame dark ((enqueue_at_level b4 s) <| id_index_ ::= <[id' := s]> |>)); [done|]. split; [apply K|by apply K]. }
  clearbody b5. assert (O6 : book_ok dark (join_best b5 side price)) by (eapply ok_kept, O5; by apply join_best_kept, O5).
  eapply ok_frame, O6. etrans; [|apply frame_emit]. frames.
Qed.
Lemma submit_peg_ok dark b side offset qty id cid cap : qty <= INT32_MAX -> book_ok dark b -> book_ok dark (submit_peg b side offset qty id cid cap).2.
Proof.
  intros Hq O. unfold submit_peg. destruct (bool_decide _); [by apply refuse_ok|]. destruct (Z.leb_spec qty 0); [by apply refuse_ok|].
  cbv zeta. by apply place_peg_ok.
Qed.
Lemma submit_peg_mid_ok dark b side offset qty id cid cap : qty <= INT32_MAX -> book_ok dark b -> book_ok dark (submit_peg_mid b side offset qty id cid cap).2.
Proof.
  intros Hq O. unfold submit_peg_mid. destruct (bool_decide _); [by apply refuse_ok|]. destruct (Z.leb_spec qty 0); [by apply refuse_ok|].
  destruct (mid_ticks b <? 0); [by apply refuse_ok|]. by apply place_peg_ok.
Qed.
(** Moving a resting order to another price. *)
Lemma move_ok dark b s target b1 :
  rests b s -> in_range target = true -> wf dark ∅ b -> beq (unlink_from_level b s) b1 -> best_ok b1 ->
  wf dark ∅ (enqueue_at_level (set_order b1 s (fun o => o <| o_price_ticks := target |>)) s).
Proof.
  intros Hr Hp W E Bo. pose proof (wf_unlink _ _ _ _ Hr W) as W1. destruct (wf_queue _ _ _ W _ s Hr) as (_ & _ & Ha & Ro & _).
  assert (W2 : wf dark ({[s]} ∪ ∅) b1) by by eapply wf_beq.
  assert (W3 : wf dark ({[s]} ∪ ∅) (set_order b1 s (fun o => o <| o_price_ticks := target |>))) by (apply wf_set_held; [set_solver|by left|done]).
  assert (({[s]} ∪ ∅) ∖ {[s]} = (∅ : gset Z)) as <- by set_solver.
  assert (E1 : order_at b1 s = order_at b s) by by rewrite (beq_order _ _ E), obs_order_unlink.
  apply wf_enqueue; rewrite ?order_at_set_eq, ?E1; [set_solver|done| |done|done]. destruct Ro. by constructor.
Qed.
Lemma reprice_peg_ok dark b s : book_ok dark b -> book_ok dark (reprice_peg b s).
Proof.
  intros [[W U] S]. unfold reprice_peg. cbv zeta. set (o := order_at b s). destruct (is_active o) eqn:Ha; [cbn [negb]|done].
  destruct (peg_target b o) as [target|]; [|done]. destruct (_ || _) eqn:C; [done|].
  assert (Hr : rests b s) by (destruct (wf_active _ _ _ W s Ha); [set_solver|done]).
  assert (Hp : in_range target = true) by (unfold in_range, PRICE_MIN_TICKS; bsplit; apply andb_true_iff; lia).
  pose proof (base_refresh_after (unlink_from_level b s) (o_side o) (o_price_ticks o)) as E1.
  pose proof (linked_refresh_after (unlink_from_level b s) (o_side o) (o_price_ticks o)) as L1.
  assert (B1 : best_ok (refresh_after (unlink_from_level b s) (o_side o) (o_price_ticks o))) by (eapply wf_best_ok, wf_refresh_after, wf_unlink; done).
  generalize dependent (refresh_after (unlink_from_level b s) (o_side o) (o_price_ticks o)). intros b1 E1 L1 B1.
  pose proof (move_ok dark b s target b1 Hr Hp W (beq_base _ _ (eq_sym E1)) B1) as W2. set (b2 := enqueue_at_level _ s) in *.
  assert (S2 : sane b2) by (apply (lean_linked b); [exact L1|done]). clearbody b2.
  apply (ok_frame dark _ _ (frame_count_stat _ _)). set (b3 := if is_buy (o_side o) && _ then _ else _).
  assert (wf dark ∅ b3 /\ sane b3) as [W3 S3] by (unfold b3; destruct (_ && _); (split; [|done]); [apply wf_best_bid; auto|done]).
  clearbody b3. destruct (_ && _); (split; [apply good_empty|done]); [|done]. apply wf_best_ask; auto.
Qed.
Lemma foldl_ok {A} dark (f : Book -> A -> Book) l b :
  (forall b x, x ∈ l -> book_ok dark b -> book_ok dark (f b x)) -> book_ok dark b -> book_ok dark (foldl f b l).
Proof.
  revert b. induction l as [|x l IH]; intros b H O; [done|]. apply IH; [|apply H; [by left|done]]. intros b' y Hy. apply H. by right.
Qed.
Lemma reprice_pegs_ok dark b : book_ok dark b -> book_ok dark (reprice_pegs b).
Proof. apply foldl_ok. intros. by apply reprice_peg_ok. Qed.

(** ** Expiry *)

Definition expired (o : Order) : Order := o <| o_status := S_EXPIRED |>.
Definition expire_told b (o : Order) : Book :=
  let b := count_order (fun c => if o_filled_qty o =? 0 then c <| completion_expired_unfilled_ ::= inc |>
                                 else c <| completion_expired_partial_ ::= inc |>) b in
  forget_bracket (o_id o) (oco_on_complete b (o_id o)).
Lemma expire_told_frame b o : frame b (expire_told b o).
Proof. unfold expire_told. frames. Qed.
Lemma expire_order_unfold b s :
  expire_order b s =
  let o := order_at b s in
  let b1 := set_order (refresh_after (unlink_from_level b s) (o_side o) (o_price_ticks o)) s expired in
  let b2 := emit b1 E_EXPIRE (o_id o) 0 (o_price_ticks o) (remaining_qty o) S_EXPIRED R_NONE (o_client_id o) in
  count_stat (fun st => st <| total_orders_expired ::= inc |>) (free_order (expire_told (forget_id (o_id o) b2) o) s).
Proof. reflexivity. Qed.
Lemma expire_order_retires b s : rests b s ->
  base (expire_order b s) = base (retire b s expired) /\
  (best_ok (refresh_after (unlink_from_level b s) (o_side (order_at b s)) (o_price_ticks (order_at b s))) -> best_ok (expire_order b s)) /\
  lean b (expire_order b s).
Proof.
  intros Hr. rewrite expire_order_unfold. cbv zeta. set (o := order_at b s) in *. set (b0 := refresh_after _ _ _).
  assert (B0 : base b0 = base (unlink_from_level b s)) by apply base_refresh_after.
  assert (L0 : linked b0 = linked b) by exact (linked_refresh_after _ _ _). clearbody b0.
  set (b2 := emit _ _ _ _ _ _ _ _ _). assert (F2 : frame (set_order b0 s expired) b2) by apply frame_emit. clearbody b2.
  set (b3 := expire_told _ o). assert (F3 : frame (forget_id (o_id o) b2) b3) by apply expire_told_frame. clearbody b3.
  pose proof (frame_count_stat (fun st => st <| total_orders_expired ::= inc |>) (free_order b3 s)) as F4.
  generalize dependent (count_stat (fun st => st <| total_orders_expired ::= inc |>) (free_order b3 s)). intros b4 F4.
  split_and!.
  - rewrite <- (base_frame _ _ F4). unfold retire. apply base_free. rewrite <- (base_frame _ _ F3). apply base_forget.
    rewrite <- (base_frame _ _ F2). by apply base_set_order.
  - intros O. apply (best_ok_frame _ _ F4), best_ok_free, (best_ok_frame _ _ F3). exact (best_ok_frame _ _ F2 O).
  - etrans; [|apply lean_frame, F4]. apply lean_free. etrans; [|exact (lean_frame _ _ F3)]. etrans; [|exact (lean_frame _ _ F2)]. by apply lean_linked.
Qed.
Lemma expire_order_ok dark b s : rests b s -> book_ok dark b ->
  book_ok dark (expire_order b s) /\ forall x, x <> s -> order_at (expire_order b s) x = order_at b x.
Proof.
  intros Hr O. destruct (expire_order_retires b s Hr) as (E & Bo & L). split.
  - eapply ok_keeps, O. apply (keeps_retire dark ∅ b _ s expired); try done; [by apply beq_base|].
    intros W. apply Bo. eapply wf_best_ok, wf_refresh_after, wf_unlink; done.
  - intros x N. rewrite (base_order _ _ x (eq_sym E)). unfold retire. autorewrite with obs. rewrite order_at_set_ne by done. done.
Qed.
Lemma expire_fold_ok dark l b : NoDup l -> (forall s, s ∈ l -> is_active (order_at b s) = true) -> book_ok dark b -> book_ok dark (foldl expire_order b l).
Proof.
  intros Hn. revert b. induction Hn as [|s l Hs Hn IH]; intros b Ha O; [done|]. cbn [foldl].
  assert (Hr : rests b s) by (destruct (wf_active _ _ _ (proj1 (proj1 O)) s); [apply Ha; by left|set_solver|done]).
  destruct (expire_order_ok dark b s Hr O) as [O1 E1]. generalize dependent (expire_order b s). intros b1 O1 E1. apply IH; [|done].
  intros x Hx. rewrite E1; [apply Ha; by right|]. by intros ->.
Qed.
Lemma values_nodup dark b : book_ok dark b -> NoDup (values (id_index_ b)).
Proof.
  intros [[W _] _]. unfold values. rewrite entries_perm. apply NoDup_fmap_2_strong; [|apply NoDup_map_to_list].
  intros [i x] [j y] Hi%elem_of_map_to_list Hj%elem_of_map_to_list. cbn. intros <-.
  destruct (wf_index _ _ _ W i x Hi) as [<- _], (wf_index _ _ _ W j x Hj) as [<- _]. done.
Qed.
Lemma process_oco_ok dark b : book_ok dark b -> book_ok dark (process_oco_pending b).
Proof. apply ok_keeps, process_oco_keeps. Qed.
Lemma expire_gtd_ok dark b now : book_ok dark b -> book_ok dark (expire_gtd b now).2.
Proof.
  intros O. unfold expire_gtd. cbn [snd]. apply process_oco_ok, expire_fold_ok; [|by intros s [[[_ ?] _] _]%list_elem_of_filter|done].
  by eapply NoDup_filter, values_nodup.
Qed.

(** ** modify *)

Lemma shrink_order_ok dark b id s new_qty :
  rests b s -> o_filled_qty (order_at b s) < new_qty < o_total_qty (order_at b s) -> book_ok dark b -> book_ok dark (shrink_order b id s new_qty).
Proof.
  intros Hr Hq [[W U] S]. destruct (wf_queue _ _ _ W _ s Hr) as (_ & _ & Ha & [R1 R2 R3 R4 R5] & _). unfold shrink_order. cbv zeta.
  set (o := order_at b s) in *. unfold open_qty, INT32_MAX in *. rewrite (i32_small (o_total_qty o - new_qty)) by lia.
  set (vis := Z.min _ _). match goal with |- context[set_order b s ?g] => set (f := g) end.
  set (b1 := set_level _ _ _). set (b2 := b1 <| linked ::= _ |>).
  assert (Ed : i32 (o_displayed_qty o - vis) = o_displayed_qty o - vis) by (rewrite i32_small by (unfold vis; lia); done).
  assert (W1 : wf dark ∅ b1).
  { eapply (wf_touch dark ∅ b _ s (f o) (queue (level_at b (o_price_ticks o)))); try done.
    - constructor; unfold f, open_qty, INT32_MAX; cbn; rewrite ?Ed; try lia; try done.
      intros T1 T2. specialize (R4 T1 T2). unfold vis. lia.
    - constructor; try done. intros q. unfold b1. rewrite !level_at_set, !obs_level_set_order. destruct (decide (q = _)) as [->|]; [|done].
      unfold moved, reserve, open_qty, f. cbn. fold o. rewrite Ed. rewrite (i32_small (o_total_qty o - new_qty - vis)) by (unfold vis; lia).
      f_equal; f_equal; lia. }
  assert (O2 : book_ok dark b2).
  { apply (ok_core dark b1); [done| |split; [by apply good_empty|done]]. intros [Sb Sq]. split; [|exact Sq]. intros x [[k H]|H].
    - unfold b2 in H. cbn in H. rewrite lookup_alter in H. destruct (decide (id = k)); [|apply Sb; left; by exists k].
      apply fmap_Some in H as (y & _ & ->). cbn. unfold INT32_MAX. lia.
    - apply Sb. by right. }
  clearbody b2. apply (ok_frame dark b2); [|done]. etrans; [|apply frame_emit]. frames.
Qed.

Lemma unlink_oco_frame b id : frame b (unlink_oco b id).2.
Proof. unfold unlink_oco. by destruct (_ !! _). Qed.
(** Pairs and brackets keep the core; new sizes must be 32-bit. *)
Lemma add_spec_ok dark b id spec : br_qty spec <= INT32_MAX -> book_ok dark b -> book_ok dark (b <| linked ::= fun l => l <| bracket_specs_ ::= <[id := spec]> |> |>).
Proof.
  intros Hq. apply ok_core; [done|]. intros [S Q]. split; [|exact Q]. intros x [[k [[_ <-]|[_ H]]%(lookup_insert_Some (bracket_specs_ (linked b)))]|H]; [done| |].
  - apply S. left. by exists k.
  - apply S. by right.
Qed.
Lemma add_pending_ok dark b spec : br_qty spec <= INT32_MAX -> book_ok dark b -> book_ok dark (b <| linked ::= fun l => l <| bracket_pending_ ::= cons spec |> |>).
Proof.
  intros Hq. apply ok_core; [done|]. intros [S Q]. split; [|exact Q]. intros x [H|H]; [|cbn in H; apply elem_of_cons in H as [->|H]; [done|]].
  - apply S. by left.
  - apply S. by right.
Qed.
Lemma brackets_ok dark fuel b b' : process_bracket_pending fuel b = Some b' -> book_ok dark b -> book_ok dark b'.
Proof. intros E O. eapply ok_kept, O. eapply bracket_loop_kept; [apply submit_kept|apply O|apply O|exact E]. Qed.
Lemma relink_ok dark fuel b nid partner spec b' :
  (forall s, spec = Some s -> br_qty s <= INT32_MAX) -> relink fuel b nid partner spec = Some b' -> book_ok dark b -> book_ok dark b'.
Proof.
  intros Hs E O. unfold relink in E. cbv zeta in E. set (b1 := if _ && _ then _ else b) in E.
  assert (O1 : book_ok dark b1).
  { unfold b1. destruct (_ && _); [|done]. destruct (indexed b nid).
    - destruct (indexed b partner); [|done]. eapply ok_frame, O. apply link_oco_frame.
    - by apply process_oco_ok, (ok_frame dark b). }
  clearbody b1. destruct spec as [spec|]; [|by injection E as <-]. specialize (Hs spec eq_refl). destruct (nid =? 0); [by injection E as <-|].
  destruct (indexed b1 nid); [injection E as <-; by apply add_spec_ok|]. eapply brackets_ok; [exact E|]. by apply add_pending_ok.
Qed.
(** What [modify] may be asked: a 32-bit size, a price of the grid, and not of a
    pending stop. *)
Definition modifiable b (id new_price new_qty : Z) : Prop :=
  new_qty <= INT32_MAX /\ in_range new_price = true /\ forall s, id_index_ b !! id = Some s -> is_pending_stop (order_at b s) = false.
Lemma modify_ok dark fuel b id new_price new_qty i r b' :
  modifiable b id new_price new_qty -> modify fuel b id new_price new_qty = Some (i, r, b') -> book_ok dark b -> book_ok dark b'.
Proof.
  intros (Hq & Hp & Hn) E O. unfold modify in E. destruct (id_index_ b !! id) as [s|] eqn:Ei; [|by injection E as _ _ <-].
  assert (Hr : rests b s).
  { destruct (index_place dark b id s O Ei) as [?|Hs]; [done|]. destruct (wf_stop _ _ _ (proj1 (proj1 O)) s Hs) as [_ [Hst _]]. specialize (Hn s eq_refl). congruence. }
  destruct (wf_queue _ _ _ (proj1 (proj1 O)) _ s Hr) as (_ & _ & Ha & Ro & _). cbv zeta in E. set (o := order_at b s) in *.
  destruct (_ && _) eqn:C; [injection E as _ _ <-; apply shrink_order_ok; [done|bsplit; fold o; lia|done]|]. clear C.
  set (b1 := if _ =? 0 then b else _) in E. assert (O1 : book_ok dark b1) by (unfold b1; destruct (_ =? 0); [done|eapply ok_frame, O; apply unlink_oco_frame]).
  clearbody b1. set (spec := _ <$> _) in E.
  assert (Hs : forall x, spec = Some x -> br_qty x <= INT32_MAX) by (intros x (y & _ & ->)%fmap_Some; done). clearbody spec.
  match type of E with context[submit fuel ?x ?y] => set (b2 := x) in E; set (n := y) in E end.
  assert (O2 : book_ok dark b2).
  { unfold b2. eapply ok_frame; [apply frame_count_stat|]. eapply ok_keeps, O1. apply cancel_internal_keeps. set_solver. }
  clearbody b2. destruct (submit fuel b2 n) as [[[nid rr] b3]|] eqn:Es; [|done]. cbn in E.
  destruct (relink fuel b3 nid _ spec) as [b4|] eqn:Er; [|done]. injection E as _ _ <-. eapply relink_ok; [exact Hs|exact Er|].
  eapply book_submit_ok; [|exact Es|done]. constructor; [|apply Ro|done]. pose proof (i32_range (new_qty - o_filled_qty o)). unfold n. cbn. unfold INT32_MAX. lia.
Qed.

(** ** Auctions *)

(** The order after [take] shares of a cross, and the change of its level. *)
Definition crossed (take vis : Z) (o : Order) : Order :=
  o <| o_filled_qty ::= fun x => i32 (x + take) |> <| o_displayed_qty ::= fun x => i32 (x - vis) |>.
Definition level_crossed (take vis : Z) (l : PriceLevel) : PriceLevel :=
  l <| total_qty ::= fun x => i32 (x - vis) |> <| total_hidden ::= fun x => i32 (x - i32 (take - vis)) |>.
Definition cross_end b (s clearing take : Z) : Book :=
  let o := order_at b s in
  let done := o_total_qty o <=? o_filled_qty o in
  let b := set_order b s (fun o => o <| o_status := if done then S_FILLED else S_PARTIALLY_FILLED |>) in
  let b := emit b E_FILL (o_id o) 0 clearing take (if done then S_FILLED else S_PARTIALLY_FILLED) R_NONE (o_client_id o) in
  if done then
    let b := forget_id (o_id o) (unlink_from_level b s) in
    free_order (bracket_on_full_fill (oco_on_complete b (o_id o)) (o_id o)) s
  else b.
Lemma cross_order_unfold b side p clearing ts s want :
  cross_order b side p clearing ts s want =
  let o := order_at b s in
  let take := Z.min (remaining_qty o) want in
  let vis := Z.min take (o_displayed_qty o) in
  let b := set_level (set_order b s (crossed take vis)) p (level_crossed take vis) in
  let b := if is_buy side then b else record_trade b (o_id o) 0 clearing take BUY ts in
  (cross_end b s clearing take, i32 (want - take), take).
Proof. reflexivity. Qed.
Section cross.
Variables (dark : bool) (b : Book) (s want : Z).
Let o := order_at b s.
Let p := o_price_ticks o.
Let take := Z.min (remaining_qty o) want.
Let vis := Z.min take (o_displayed_qty o).
Hypotheses (O : book_ok dark b) (Hr : rests b s) (Hw : 0 < want).
Lemma cross_facts :
  is_active o = true /\ restable dark o /\ 0 < take <= open_qty o /\ 0 <= vis <= o_displayed_qty o /\ take - vis <= reserve o /\
  i32 (o_filled_qty o + take) = o_filled_qty o + take /\ i32 (o_displayed_qty o - vis) = o_displayed_qty o - vis /\ i32 (take - vis) = take - vis.
Proof.
  destruct (wf_queue _ _ _ (proj1 (proj1 O)) _ s Hr) as (_ & _ & Ha & Ro & _). fold o in Ha, Ro. pose proof Ro as [R1 R2 R3 _ _].
  unfold vis, take. rewrite (remaining_open o) by lia. unfold reserve, open_qty, INT32_MAX in *. rewrite !i32_small by lia. split_and!; try done; lia.
Qed.
Variables (b3 : Book) (clearing : Z).
Hypothesis (F : frame (set_level (set_order b s (crossed take vis)) p (level_crossed take vis)) b3).
Lemma cross_mid_order x : order_at b3 x = if decide (x = s) then crossed take vis o else order_at b x.
Proof. rewrite (ceq_order _ _ (ceq_frame _ _ F)), obs_order_set_level, order_at_set. done. Qed.
Lemma cross_mid_level q : level_at b3 q = if decide (q = p) then level_crossed take vis (level_at b p) else level_at b q.
Proof. rewrite (ceq_level _ _ (ceq_frame _ _ F)), level_at_set, !obs_level_set_order. done. Qed.
Lemma cross_stays b' :
  o_filled_qty o + take < o_total_qty o -> frame (set_order b3 s (fun o => o <| o_status := S_PARTIALLY_FILLED |>)) b' -> book_ok dark b'.
Proof.
  intros Hl F'. destruct cross_facts as (Ha & [R1 R2 R3 R4 R5] & Ht & Hv & Hv' & E1 & E2 & E3). pose proof O as [[W U] S].
  eapply ok_frame; [exact F'|]. split; [|exact (proj2 (lean_frame _ _ F) S)]. apply good_empty.
  set (o' := crossed take vis o <| o_status := S_PARTIALLY_FILLED |>).
  assert (T : o_displayed_qty o' = o_displayed_qty o - vis /\ o_filled_qty o' = o_filled_qty o + take) by done.
  destruct T as [T1 T2]. unfold reserve, open_qty in *.
  apply (wf_touch dark ∅ b _ s o' (queue (level_at b p))); try done.
  - constructor; unfold open_qty; rewrite ?T1, ?T2; cbn; try lia; try done. intros Y1 Y2. specialize (R4 Y1 Y2). unfold vis. lia.
  - constructor; try apply (ceq_frame _ _ F).
    + intros x. rewrite order_at_set, !cross_mid_order, obs_order_set_level, order_at_set. destruct (decide (x = s)); [|done]. by rewrite decide_True.
    + intros q. rewrite obs_level_set_order, cross_mid_level, level_at_set, !obs_level_set_order. fold o p. destruct (decide (q = p)) as [->|]; [|done].
      unfold moved, reserve, open_qty. rewrite T1, T2. unfold level_crossed. destruct (level_at b p) as [qs tq th oc]. cbn. rewrite E3.
      f_equal; f_equal; lia.
Qed.
Lemma cross_leaves b4 b' :
  o_filled_qty o + take = o_total_qty o -> frame (set_order b3 s (fun o => o <| o_status := S_FILLED |>)) b4 ->
  frame (forget_id (o_id o) (unlink_from_level b4 s)) b' -> book_ok dark (free_order b' s).
Proof.
  intros Hl F4 F'. destruct cross_facts as (Ha & [R1 R2 R3 R4 R5] & Ht & Hv & Hv' & E1 & E2 & E3).
  unfold reserve, open_qty in *. set (o' := crossed take vis o <| o_status := S_FILLED |>).
  assert (T : o_displayed_qty o' = 0 /\ hidden_qty o' = 0 /\ hidden_qty o = take - vis /\ o_displayed_qty o = vis).
  { unfold hidden_qty, o'. cbn. rewrite E1, E2. unfold vis, INT32_MAX in *. rewrite !i32_small by lia. lia. }
  destruct T as (T1 & T2 & T3 & T4). pose proof (ceq_frame _ _ F) as C. pose proof (ceq_frame _ _ F') as C'. pose proof (ceq_frame _ _ F4) as C4.
  assert (O4 : forall x, order_at b4 x = if decide (x = s) then o' else order_at b x).
  { intros x. rewrite (ceq_order _ _ C4), order_at_set, !cross_mid_order. destruct (decide (x = s)); [|done]. by rewrite decide_True. }
  apply (ok_keeps dark b); [|exact O]. apply (keeps_retire dark ∅ b _ s (fun _ => o')); [done|done| | |].
  - constructor.
    + intros x. autorewrite with obs. rewrite (ceq_order _ _ C'). unfold retire. autorewrite with obs. rewrite O4, order_at_set. autorewrite with obs. done.
    + intros q. autorewrite with obs. rewrite (ceq_level _ _ C'). unfold retire. autorewrite with obs. unfold unlink_from_level.
      rewrite O4, decide_True by done. fold o. change (o_price_ticks o') with p. fold p. rewrite !level_at_set, !(ceq_level _ _ C4). autorewrite with obs.
      rewrite !cross_mid_level. destruct (decide (q = p)) as [->|]; [|done]. rewrite decide_True by done. rewrite T1, T2, T3, T4.
      unfold level_crossed. destruct (level_at b p) as [qs tq th oc]. cbn. rewrite E3. rewrite !Z.sub_0_r, !wraps_wraps by lia. done.
    + autorewrite with obs. rewrite (ceq_free _ _ C'). unfold retire. autorewrite with obs. rewrite (ceq_free _ _ C4). autorewrite with obs. by rewrite (ceq_free _ _ C).
    + autorewrite with obs. rewrite (ceq_index _ _ C'). unfold retire. autorewrite with obs. rewrite (ceq_index _ _ C4). autorewrite with obs. by rewrite (ceq_index _ _ C).
    + autorewrite with obs. rewrite (ceq_stops _ _ C'). unfold retire. autorewrite with obs. rewrite (ceq_stops _ _ C4). autorewrite with obs. by rewrite (ceq_stops _ _ C).
    + autorewrite with obs. rewrite (ceq_active _ _ C'). unfold retire. autorewrite with obs. rewrite (ceq_active _ _ C4). autorewrite with obs. by rewrite (ceq_active _ _ C).
  - intros W. apply best_ok_free. destruct (wf_best_ok _ _ _ W) as [B1 B2]. unfold best_ok.
    rewrite (ceq_bid _ _ C'), (ceq_ask _ _ C'). autorewrite with obs. rewrite (ceq_bid _ _ C4), (ceq_ask _ _ C4). autorewrite with obs.
    rewrite (ceq_bid _ _ C), (ceq_ask _ _ C). done.
  - apply lean_free. etrans; [exact (lean_frame _ _ F)|]. etrans; [exact (lean_frame _ _ F4)|]. exact (lean_frame _ _ F').
Qed.
Definition same_prices b1 b2 : Prop := forall x, o_price_ticks (order_at b2 x) = o_price_ticks (order_at b1 x).
Lemma cross_end_ok : book_ok dark (cross_end b3 s clearing take) /\ same_prices b (cross_end b3 s clearing take).
Proof.
  destruct cross_facts as (Ha & [R1 R2 R3 R4 R5] & Ht & Hv & Hv' & E1 & E2 & E3). unfold open_qty in *.
  assert (P3 : same_prices b b3) by (intros x; rewrite cross_mid_order; by destruct (decide (x = s)) as [->|]).
  unfold cross_end. cbv zeta.
  assert (T : o_total_qty (order_at b3 s) = o_total_qty o /\ o_filled_qty (order_at b3 s) = o_filled_qty o + take /\ o_id (order_at b3 s) = o_id o).
  { rewrite cross_mid_order, decide_True by done. done. }
  destruct T as (-> & -> & ->). destruct (Z.leb_spec (o_total_qty o) (o_filled_qty o + take)) as [Hd|Hd].
  - set (b4 := emit _ _ _ _ _ _ _ _ _). assert (F4 : frame (set_order b3 s (fun o => o <| o_status := S_FILLED |>)) b4) by apply frame_emit. clearbody b4.
    set (b5 := bracket_on_full_fill _ _). assert (F5 : frame (forget_id (o_id o) (unlink_from_level b4 s)) b5) by (unfold b5; frames). clearbody b5.
    split; [apply (cross_leaves b4 b5); [lia|done|done]|]. intros x. autorewrite with obs. rewrite (ceq_order _ _ (ceq_frame _ _ F5)). autorewrite with obs.
    rewrite (ceq_order _ _ (ceq_frame _ _ F4)), order_at_set, <- P3. by destruct (decide (x = s)) as [->|].
  - set (b4 := emit _ _ _ _ _ _ _ _ _). assert (F4 : frame (set_order b3 s (fun o => o <| o_status := S_PARTIALLY_FILLED |>)) b4) by apply frame_emit. clearbody b4.
    split; [by apply (cross_stays b4)|]. intros x. rewrite (ceq_order _ _ (ceq_frame _ _ F4)), order_at_set, <- P3. by destruct (decide (x = s)) as [->|].
Qed.
End cross.
Lemma cross_order_ok dark b side p clearing ts s want :
  book_ok dark b -> rests b s -> o_price_ticks (order_at b s) = p -> 0 < want ->
  book_ok dark (cross_order b side p clearing ts s want).1.1 /\ same_prices b (cross_order b side p clearing ts s want).1.1.
Proof.
  intros O Hr <- Hw. rewrite cross_order_unfold. cbv zeta. cbn [fst]. apply cross_end_ok; try done.
  destruct (is_buy side); [done|apply frame_trade].
Qed.
Lemma cross_level_ok dark side clearing ts b want w p :
  book_ok dark b -> book_ok dark (cross_level side clearing ts (b, want, w) p).1.1.
Proof.
  intros O. unfold cross_level. assert (Hp : forall s, s ∈ queue (level_at b p) -> o_price_ticks (order_at b s) = p).
  { intros s Hs. by destruct (wf_queue _ _ _ (proj1 (proj1 O)) p s Hs) as (_ & ? & _). }
  generalize dependent (queue (level_at b p)). intros l Hp. revert b want w O Hp. induction l as [|s l IH]; intros b want w O Hp; [done|]. cbn [foldl].
  destruct (_ && _) eqn:C; [|apply IH; [done|intros x Hx; apply Hp; by right]]. bsplit.
  assert (Hr : rests b s) by (destruct (wf_active _ _ _ (proj1 (proj1 O)) s); [done|set_solver|done]).
  destruct (cross_order_ok dark b side p clearing ts s want O Hr) as [O1 P1]; [apply Hp; by left|lia|].
  destruct (cross_order b side p clearing ts s want) as [[b1 want1] take]. cbn [fst] in O1, P1. apply IH; [done|].
  intros x Hx. rewrite P1. apply Hp. by right.
Qed.
Lemma cross_side_ok dark side clearing ts l b want w :
  book_ok dark b -> book_ok dark (foldl (cross_level side clearing ts) (b, want, w) l).1.1.
Proof.
  revert b want w. induction l as [|p l IH]; intros b want w O; [done|]. cbn [foldl].
  pose proof (cross_level_ok dark side clearing ts b want w p O) as O1. destruct (cross_level _ _ _ _ _) as [[b1 want1] w1]. by apply IH.
Qed.

Lemma refresh_both_ok dark b p q : book_ok dark b -> book_ok dark (refresh_best_ask_from (refresh_best_bid_from b p) q).
Proof.
  intros [[W U] S]. split; [apply good_empty; by apply wf_refresh_ask, wf_refresh_bid|]. apply (lean_linked b); [|done].
  unfold refresh_best_ask_from, refresh_best_bid_from. by repeat case_match.
Qed.
Lemma on_cfg_ok dark f b : book_ok dark b -> book_ok dark (on_cfg f b).
Proof. by apply ok_frame. Qed.
Lemma run_auction_ok dark fuel b r b' : run_auction fuel b = Some (r, b') -> book_ok dark b -> book_ok dark b'.
Proof.
  intros E O. unfold run_auction in E. cbv zeta in E. destruct (executed _); [cbn [negb] in E|by injection E as _ <-].
  set (res := indicative_auction_info b) in E. set (p := clearing_price_ticks res) in E. clearbody p.
  pose proof (mono_frame b) as F1. destruct (mono_ns_now b) as [ts b1]. cbn [snd] in F1. pose proof (ok_frame dark _ _ F1 O) as O1.
  generalize dependent (auction_hi b). generalize dependent (auction_lo b). intros lo hi E. clearbody res. clear O F1 b.
  pose proof (cross_side_ok dark BUY p ts (reverse (price_span p hi)) b1 (matched_qty res) ∅ O1) as O2.
  destruct (foldl _ (b1, _, _) _) as [[b2 w2] buy]. cbn [fst] in O2.
  pose proof (cross_side_ok dark SELL p ts (price_span lo p) b2 (matched_qty res) ∅ O2) as O3.
  destruct (foldl _ (b2, _, _) _) as [[b3 w3] sell]. cbn [fst] in O3.
  match type of E with context[refresh_best_bid_from ?x _] => assert (O4 : book_ok dark x) by (eapply ok_frame, O3; apply frame_count_book);
    generalize dependent x; intros b4 E O4 end.
  pose proof (refresh_both_ok dark b4 (LEVELS - 1) 0 O4) as O5. generalize dependent (refresh_best_ask_from (refresh_best_bid_from b4 (LEVELS - 1)) 0). intros b5 E O5.
  match type of E with context[foldl ?f b5 ?l] => assert (O6 : book_ok dark (foldl f b5 l)) end.
  { apply foldl_ok; [|done]. intros x s _ Ox. eapply ok_keeps; [apply cancel_internal_keeps; set_solver|]. eapply ok_frame, Ox. apply frame_count_book. }
  generalize dependent (foldl (fun b s => cancel_internal (count_book (fun c => c <| gtx_cancelled_after_cross_ ::= inc |>) b) s true) b5). intros g E O6.
  apply process_oco_ok in O6. destruct (process_bracket_pending fuel _) as [b7|] eqn:Eb; [|done]. cbn in E. injection E as _ <-.
  eapply ok_frame; [apply frame_count_stat|]. eapply brackets_ok; [exact Eb|exact O6].
Qed.
Lemma try_run_auction_ok dark fuel b m r b' : try_run_auction fuel b m = Some (r, b') -> book_ok dark b -> book_ok dark b'.
Proof.
  unfold try_run_auction. destruct (negb _); [by intros [= _ <-]|]. destruct (_ <? _); [|apply run_auction_ok].
  intros [= _ <-]. apply ok_frame, frame_count_book.
Qed.
Lemma resume_with_auction_ok dark fuel b r b' : resume_with_auction fuel b = Some (r, b') -> book_ok dark b -> book_ok dark b'.
Proof. intros E O. eapply run_auction_ok; [exact E|]. eapply ok_frame; [apply frame_count_book|]. by apply on_cfg_ok. Qed.
Lemma open_market_ok dark fuel b r b' : open_market fuel b = Some (r, b') -> book_ok dark b -> book_ok dark b'.
Proof. intros E O. eapply run_auction_ok; [exact E|]. by apply on_cfg_ok. Qed.

(** ** Orders for the close *)

Lemma submit_moc_ok dark b side qty cid : qty <= INT32_MAX -> book_ok dark b -> book_ok dark (submit_moc b side qty cid).2.
Proof.
  intros Hq O. unfold submit_moc. destruct (bool_decide _); [by apply refuse_ok|]. destruct (_ <=? _); [by apply refuse_ok|].
  pose proof (assign_frame b 0) as F. destruct (assign_id b 0) as [id b1]. cbn [snd] in *. apply (ok_frame dark _ _ F) in O.
  eapply ok_frame; [apply frame_emit|]. apply (ok_core dark b1); [done| |done]. intros (S & M & L). split_and!; [exact S| |exact L].
  intros m Hm. cbn in Hm. apply elem_of_app in Hm as [Hm| ->%list_elem_of_singleton]; [by apply M|done].
Qed.
Lemma submit_loc_ok dark b side p qty cid : qty <= INT32_MAX -> book_ok dark b -> book_ok dark (submit_loc b side p qty cid).2.
Proof.
  intros Hq O. unfold submit_loc. destruct (bool_decide _); [by apply refuse_ok|]. destruct (_ <=? _); [by apply refuse_ok|].
  destruct (negb _); [by apply refuse_ok|].
  pose proof (assign_frame b 0) as F. destruct (assign_id b 0) as [id b1]. cbn [snd] in *. apply (ok_frame dark _ _ F) in O.
  eapply ok_frame; [apply frame_emit|]. apply (ok_core dark b1); [done| |done]. intros (S & M & L). split_and!; [exact S|exact M|].
  intros m Hm. cbn in Hm. apply elem_of_app in Hm as [Hm| ->%list_elem_of_singleton]; [by apply L|done].
Qed.
Lemma swap_remove_subset {A} (l : list A) i x y : l !! i = Some y -> x ∈ swap_remove i l -> x ∈ l.
Proof. intros Hi Hx. rewrite (swap_remove_perm l i y Hi). by right. Qed.
Lemma cancel_moc_ok dark b id : book_ok dark b -> book_ok dark (cancel_moc b id).2.
Proof.
  intros O. unfold cancel_moc. destruct (list_find _ _) as [[i m]|] eqn:E; [|done]. apply list_find_Some in E as (Hi & _ & _).
  apply (ok_core dark b); [done| |done]. intros (S & M & L). split_and!; [exact S| |exact L]. intros x Hx. apply M. by eapply swap_remove_subset.
Qed.
Lemma cancel_loc_ok dark b id : book_ok dark b -> book_ok dark (cancel_loc b id).2.
Proof.
  intros O. unfold cancel_loc. destruct (list_find _ _) as [[i m]|] eqn:E; [|done]. apply list_find_Some in E as (Hi & _ & _).
  apply (ok_core dark b); [done| |done]. intros (S & M & L). split_and!; [exact S|exact M|]. intros x Hx. apply L. by eapply swap_remove_subset.
Qed.
Lemma inject_ok dark fuel l b r : (forall n, n ∈ l -> fits dark n) -> inject fuel b l = Some r -> book_ok dark b -> book_ok dark r.2.
Proof.
  revert b r. induction l as [|n l IH]; intros b r Hl; cbn [inject]; [by intros [= <-]|].
  destruct (submit fuel b n) as [[[id rr] b1]|] eqn:Es; [|done]. destruct (inject fuel b1 l) as [[ids b2]|] eqn:Ei; [|done].
  intros [= <-] O. cbn [snd]. apply (IH b1 (ids, b2)); [intros x Hx; apply Hl; by right|done|]. eapply book_submit_ok; [|exact Es|done]. apply Hl. by left.
Qed.
Lemma cancel_leftover_ok dark count ids b :
  (forall l, bracket_specs_ (count l) = bracket_specs_ l /\ bracket_pending_ (count l) = bracket_pending_ l /\ moc_queue_ (count l) = moc_queue_ l /\ loc_queue_ (count l) = loc_queue_ l) ->
  book_ok dark b -> book_ok dark (cancel_leftover count ids b).
Proof.
  intros Hc. apply foldl_ok. intros x id _ O. destruct (id_index_ x !! id) as [s|]; [|done].
  apply (ok_keeps dark (x <| linked ::= count |>)); [apply cancel_internal_keeps; set_solver|]. apply (ok_core dark x); [done| |done].
  unfold sane. cbn. destruct (Hc (linked x)) as (-> & -> & -> & ->). done.
Qed.
Lemma ok_queues dark b b' : core b = core b' -> bracket_specs_ (linked b') = bracket_specs_ (linked b) -> bracket_pending_ (linked b') = bracket_pending_ (linked b) ->
  moc_queue_ (linked b') ⊆ moc_queue_ (linked b) -> loc_queue_ (linked b') ⊆ loc_queue_ (linked b) -> book_ok dark b -> book_ok dark b'.
Proof.
  intros Ec E1 E2 E3 E4. apply ok_core; [done|]. intros (S & M & L). unfold sane. rewrite E1, E2.
  split_and!; [exact S| |]; intros m Hm; [apply M|apply L]; set_solver.
Qed.
Lemma closing_ok dark fuel b r b' : run_closing_auction fuel b = Some (r, b') -> book_ok dark b -> book_ok dark b'.
Proof.
  intros E O. unfold run_closing_auction in E. cbv zeta in E. pose proof (proj2 O) as (_ & _ & L).
  assert (Hl : forall n, n ∈ map (fun l => limit_order (loc_side l) (loc_price_ticks l) (loc_qty l) TIF_DAY (loc_id l) (loc_client_id l)) (loc_queue_ (linked b)) -> fits dark n).
  { intros n (l & -> & Hl)%list_elem_of_fmap. apply fits_limit. by apply L. }
  generalize dependent (map (fun l => limit_order (loc_side l) (loc_price_ticks l) (loc_qty l) TIF_DAY (loc_id l) (loc_client_id l)) (loc_queue_ (linked b))).
  intros locs E Hl. destruct (inject fuel (on_cfg _ b) locs) as [[lids b1]|] eqn:E1; [|done]. cbv [mbind option_bind] in E.
  pose proof (inject_ok dark fuel locs _ _ Hl E1 (on_cfg_ok dark _ b O)) as O1. cbn [snd] in O1. clear E1 Hl L O locs b.
  set (b2 := b1 <| linked ::= _ |>) in E.
  assert (O2 : book_ok dark b2) by (apply (ok_queues dark b1); try done; apply list_subseteq_nil). clearbody b2. clear O1 b1.
  pose proof (proj2 O2) as (_ & M & _).
  destruct (negb _ && negb _).
  { injection E as _ <-. apply (ok_queues dark b2); try done. apply list_subseteq_nil. }
  match type of E with context[inject fuel b2 ?l] => assert (Hm : forall n, n ∈ l -> fits dark n); [|set (mocs := l) in *; clearbody mocs] end.
  { intros n (m & -> & Hm)%list_elem_of_fmap. apply fits_limit. by apply M. }
  destruct (inject fuel b2 mocs) as [[mids b3]|] eqn:E3; [|done]. cbv [mbind option_bind] in E.
  pose proof (inject_ok dark fuel mocs b2 _ Hm E3 O2) as O3. cbn [snd] in O3.
  destruct (run_auction fuel _) as [[res b4]|] eqn:E4; [|done]. cbv [mbind option_bind] in E. injection E as _ <-.
  assert (O4 : book_ok dark b4).
  { eapply run_auction_ok; [exact E4|]. apply (ok_queues dark b3); try done. apply list_subseteq_nil. }
  apply process_oco_ok, cancel_leftover_ok; [done|]. by apply cancel_leftover_ok.
Qed.
Lemma close_market_ok dark fuel b r b' : close_market fuel b = Some (r, b') -> book_ok dark b -> book_ok dark b'.
Proof.
  unfold close_market. destruct (run_closing_auction fuel b) as [[x b1]|] eqn:E; [|done]. cbn. intros [= _ <-] O.
  apply on_cfg_ok. by eapply closing_ok.
Qed.

(** ** Derived ways to submit *)

Lemma submit_short_ok dark fuel b p q id cid r b' :
  q <= INT32_MAX -> submit_short fuel b p q id cid = Some (r, b') -> book_ok dark b -> book_ok dark b'.
Proof.
  intros Hq. unfold submit_short. destruct (_ && _); [intros [= _ <-]; apply refuse_ok|]. destruct r as [i rr]. apply book_submit_ok. by apply fits_limit.
Qed.
Lemma reduce_only_ok dark fuel b side p q cid r b' :
  submit_reduce_only fuel b side p q cid = Some (r, b') -> book_ok dark b -> book_ok dark b'.
Proof.
  unfold submit_reduce_only. cbv zeta. destruct (_ <=? _); [intros [= _ <-]; apply refuse_ok|]. destruct r as [i rr]. apply book_submit_ok, fits_limit.
  pose proof (i32_range (reduce_allowed b side q cid)). unfold INT32_MAX. lia.
Qed.
Lemma submit_bracket_ok dark fuel b side p q tp sl cid i b' :
  q <= INT32_MAX -> submit_bracket fuel b side p q tp sl cid = Some (i, b') -> book_ok dark b -> book_ok dark b'.
Proof.
  intros Hq E O. unfold submit_bracket in E. cbv zeta in E. destruct (submit fuel b _) as [[[id rr] b1]|] eqn:Es; [|done]. cbn in E.
  assert (O1 : book_ok dark b1) by (eapply book_submit_ok; [by apply fits_limit|exact Es|done]).
  destruct (id =? 0); [by injection E as _ <-|]. destruct (indexed b1 id); [injection E as _ <-; by apply add_spec_ok|].
  destruct (arm_bracket_exits _ b1 _) as [b2|] eqn:Ea; [|done]. cbn in E. injection E as _ <-.
  eapply ok_kept, O1. eapply arm_kept; [apply submit_kept|apply O1|apply O1| |exact Ea]. done.
Qed.
Lemma place_quotes_ok dark fuel l b cid r : (forall q, q ∈ l -> q_qty q <= INT32_MAX) -> place_quotes fuel b l cid = Some r -> book_ok dark b -> book_ok dark r.2.
Proof.
  revert b r. induction l as [|q l IH]; intros b r Hl; cbn [place_quotes]; [by intros [= <-]|].
  destruct (submit fuel b _) as [[[id rr] b1]|] eqn:Es; [|done]. destruct (place_quotes fuel b1 l cid) as [[ids b2]|] eqn:Ei; [|done].
  intros [= <-] O. cbn [snd]. apply (IH b1 (ids, b2)); [intros x Hx; apply Hl; by right|done|]. eapply book_submit_ok; [|exact Es|done].
  constructor; [apply Hl; by left|done|done].
Qed.
Lemma mass_quote_ok dark fuel b l cid r b' :
  (forall q, q ∈ l -> q_qty q <= INT32_MAX) -> mass_quote fuel b l cid = Some (r, b') -> book_ok dark b -> book_ok dark b'.
Proof.
  intros Hl E O. unfold mass_quote in E. destruct (_ <? _); [injection E as _ <-; by apply (refuse_ok dark)|].
  destruct (first_fault b l) as [f|]; [injection E as _ <-; by apply (refuse_ok dark)|].
  destruct (place_quotes fuel b l cid) as [[ids b1]|] eqn:Ep; [|done]. cbn in E. injection E as _ <-.
  eapply ok_frame; [apply frame_count_stat|]. exact (place_quotes_ok dark fuel l b cid (ids, b1) Hl Ep O).
Qed.
Lemma link_oco_ok dark b x y : book_ok dark b -> book_ok dark (link_oco b x y).2.
Proof. apply ok_frame, link_oco_frame. Qed.
Lemma unlink_oco_ok dark b x : book_ok dark b -> book_ok dark (unlink_oco b x).2.
Proof. apply ok_frame, unlink_oco_frame. Qed.
Lemma new_book_ok dark : book_ok dark new_book.
Proof.
  assert (Q : forall p, level_at new_book p = empty_level) by done.
  assert (A : forall s, order_at new_book s = reset_order) by done. split; [apply good_empty; constructor|]; try done.
  - intros p s Hs. unfold queued in Hs. rewrite Q in Hs. by apply elem_of_nil in Hs.
  - intros p. rewrite Q. constructor.
  - intros s Hs. split_and!; [by apply slots_elem|apply not_elem_of_nil|]. intros p. unfold queued. rewrite Q. apply not_elem_of_nil.
  - apply slots_nodup.
  - intros s Hs. by apply elem_of_nil in Hs.
  - constructor.
  - intros s Hs. by left; apply slots_elem.
  - cbn. rewrite slots_length; [done|]. destruct ok; lia.
  - by left.
  - by left.
  - split_and!; [|intros m Hm; by apply elem_of_nil in Hm..]. intros s [[id H]|H]; [|by apply elem_of_nil in H].
    change (bracket_specs_ (linked new_book)) with (∅ : gmap Z BracketSpec) in H. by rewrite lookup_empty in H.
Qed.
End step.
