(* ===== verification/LadderReach.v ===== *)
(** * LadderReach: the books that can be reached, and what holds of them

    [Op] are the public operations of [FullOrderBook] that change it, [run]
    performs one, [allowed] is what a caller has to respect.  Every book
    reached from a new one is well formed and passes its own integrity audit;
    a refused order changes nothing but counters; without hidden orders every
    submission returns; with one it may not. *)
From S2P Require Import Prelude Double Common LadderTypes LadderTrades LadderSamples Ladder LadderOps LadderViews LadderInv LadderKeep LadderMatch LadderSubmit LadderStep.

Section reach.
Context {env : BookEnv}.
Implicit Types b : Book.

Inductive Op :=
| Submit (n : NewOrder) | Cancel (id : Z) | MassCancel (client : Z) | Modify (id price qty : Z)
| SubmitStop (side : Side) (trigger limit qty id client : Z) | SubmitTrailingStop (side : Side) (trail limit qty id client : Z) | CheckStops
| SubmitPeg (side : Side) (offset qty id client cap : Z) | SubmitPegMid (side : Side) (offset qty id client cap : Z) | RepricePegs
| ExpireGtd (now : Z) | LinkOco (x y : Z) | UnlinkOco (x : Z)
| SubmitBracket (side : Side) (price qty tp sl client : Z) | SubmitShort (price qty id client : Z)
| SubmitReduceOnly (side : Side) (price qty client : Z) | MassQuote (l : list Quote) (client : Z)
| RunAuction | TryRunAuction (max_surplus : Z) | ResumeWithAuction | OpenMarket
| SubmitMoc (side : Side) (qty client : Z) | SubmitLoc (side : Side) (price qty client : Z) | CancelMoc (id : Z) | CancelLoc (id : Z)
| CloseMarket | Configure (f : Config -> Config).
Definition run (fuel : nat) b (o : Op) : option Book :=
  match o with
  | Submit n => snd <$> submit fuel b n
  | Cancel id => Some (cancel b id).2
  | MassCancel c => Some (mass_cancel b c).2
  | Modify id p q => snd <$> modify fuel b id p q
  | SubmitStop s t l q id c => Some (submit_stop b s t l q id c).2
  | SubmitTrailingStop s t l q id c => Some (submit_trailing_stop b s t l q id c).2
  | CheckStops => check_stop_triggers fuel b
  | SubmitPeg s o q id c cap => Some (submit_peg b s o q id c cap).2
  | SubmitPegMid s o q id c cap => Some (submit_peg_mid b s o q id c cap).2
  | RepricePegs => Some (reprice_pegs b)
  | ExpireGtd now => Some (expire_gtd b now).2
  | LinkOco x y => Some (link_oco b x y).2
  | UnlinkOco x => Some (unlink_oco b x).2
  | SubmitBracket s p q tp sl c => snd <$> submit_bracket fuel b s p q tp sl c
  | SubmitShort p q id c => snd <$> submit_short fuel b p q id c
  | SubmitReduceOnly s p q c => snd <$> submit_reduce_only fuel b s p q c
  | MassQuote l c => snd <$> mass_quote fuel b l c
  | RunAuction => snd <$> run_auction fuel b
  | TryRunAuction m => snd <$> try_run_auction fuel b m
  | ResumeWithAuction => snd <$> resume_with_auction fuel b
  | OpenMarket => snd <$> open_market fuel b
  | SubmitMoc s q c => Some (submit_moc b s q c).2
  | SubmitLoc s p q c => Some (submit_loc b s p q c).2
  | CancelMoc id => Some (cancel_moc b id).2
  | CancelLoc id => Some (cancel_loc b id).2
  | CloseMarket => snd <$> close_market fuel b
  | Configure f => Some (on_cfg f b)
  end.
(** Sizes are 32-bit numbers; [modify] is not called for a pending stop, and
    its price is on the grid, like that of a market order that may rest. *)
Definition allowed (dark : bool) b (o : Op) : Prop :=
  match o with
  | Submit n => fits dark n
  | Modify id p q => modifiable b id p q
  | SubmitStop _ _ _ q _ _ | SubmitTrailingStop _ _ _ q _ _ | SubmitPeg _ _ q _ _ _ | SubmitPegMid _ _ q _ _ _
  | SubmitBracket _ _ q _ _ _ | SubmitShort _ q _ _ | SubmitMoc _ q _ | SubmitLoc _ _ q _ => q <= INT32_MAX
  | MassQuote l _ => forall q, q ∈ l -> q_qty q <= INT32_MAX
  | _ => True
  end.
Inductive reach (dark : bool) : Book -> Prop :=
| reach_new : reach dark new_book
| reach_step b o fuel b' : reach dark b -> allowed dark b o -> run fuel b o = Some b' -> reach dark b'.

Context {ok : EnvOk}.
Lemma run_ok dark fuel b o b' : allowed dark b o -> run fuel b o = Some b' -> book_ok dark b -> book_ok dark b'.
Proof.
  intros A E O. destruct o; cbn [run allowed] in A, E; try (apply (inj Some) in E; subst b'); try apply fmap_Some in E as (r & E & ->).
  - destruct r as [[i rr] x]. by eapply book_submit_ok.
  - by apply book_cancel_ok.
  - by apply mass_cancel_ok.
  - destruct r as [[i rr] x]. by eapply modify_ok.
  - by apply submit_stop_ok.
  - by apply trailing_stop_ok.
  - by eapply check_stops_ok.
  - by apply submit_peg_ok.
  - by apply submit_peg_mid_ok.
  - by apply reprice_pegs_ok.
  - by apply expire_gtd_ok.
  - by apply link_oco_ok.
  - by apply unlink_oco_ok.
  - destruct r. by eapply submit_bracket_ok.
  - destruct r. by eapply submit_short_ok.
  - destruct r. by eapply reduce_only_ok.
  - destruct r. by eapply mass_quote_ok.
  - destruct r. by eapply run_auction_ok.
  - destruct r. by eapply try_run_auction_ok.
  - destruct r. by eapply resume_with_auction_ok.
  - destruct r. by eapply open_market_ok.
  - by apply submit_moc_ok.
  - by apply submit_loc_ok.
  - by apply cancel_moc_ok.
  - by apply cancel_loc_ok.
  - destruct r. by eapply close_market_ok.
  - by apply on_cfg_ok.
Qed.
Lemma reach_ok dark b : reach dark b -> book_ok dark b.
Proof. induction 1 as [|b o fuel b' H IH A E]; [apply new_book_ok|by eapply run_ok]. Qed.
End reach.

(** ** Playing a list of operations *)

Section play.
Context {env : BookEnv} {ok : EnvOk}.
Implicit Types b : Book.

Fixpoint play (fuel : nat) b (l : list Op) : option Book :=
  match l with
  | [] => Some b
  | o :: l => match run fuel b o with Some b => play fuel b l | None => None end
  end.
(** Operations that are allowed in any book, as a test. *)
Definition easy (dark : bool) (o : Op) : bool :=
  match o with
  | Submit n => (n_qty n <=? INT32_MAX) && (dark || negb (bool_decide (n_type n = T_HIDDEN))) && negb (bool_decide (n_type n = T_MARKET))
  | SubmitStop _ _ _ q _ _ | SubmitPeg _ _ q _ _ _ | SubmitBracket _ _ q _ _ _ => q <=? INT32_MAX
  | Cancel _ | MassCancel _ | CheckStops | RepricePegs | LinkOco _ _ | RunAuction | Configure _ => true
  | _ => false
  end.
Lemma easy_allowed dark b o : easy dark o = true -> allowed dark b o.
Proof.
  destruct o; cbn [easy allowed]; try done; try by intros ?%Z.leb_le.
  intros [[H1%Z.leb_le H2]%andb_prop H3]%andb_prop. apply negb_true_iff, bool_decide_eq_false in H3. constructor; [done| |done].
  intros T. destruct dark; [done|]. cbn in H2. by rewrite bool_decide_eq_true_2 in H2.
Qed.
Lemma reach_play dark fuel l b b' :
  reach dark b -> forallb (easy dark) l = true -> play fuel b l = Some b' -> reach dark b'.
Proof.
  revert b. induction l as [|o l IH]; intros b R; cbn; [by intros _ [= <-]|]. intros [Ho Hl]%andb_prop.
  destruct (run fuel b o) as [b1|] eqn:E; [|done]. apply IH; [|done]. eapply reach_step; [exact R|by apply easy_allowed|exact E].
Qed.
End play.
(** A grid of 16 prices and a pool of 8 orders, for examples. *)
Definition small_env : BookEnv := {| LEVELS := 16; MAX_ORDERS := 8; clock := fun n => Z.of_nat n + 1; env_hash := map_order |}.
#[export] Instance small_ok : @EnvOk small_env.
Proof. by constructor. Qed.
Definition played (l : list Op) : Book := default (@new_book small_env) (@play small_env 100 (@new_book small_env) l).
Definition lim (side : Side) (price qty id client : Z) : Op := Submit (limit_order side price qty TIF_DAY id client).
Definition sized (t : OrderType) (side : Side) (price qty id client shown : Z) : Op := Submit (mkNew side price qty t TIF_DAY id client shown 0).
Definition ex_ops : list Op := [lim SELL 8 10 1 1; sized T_ICEBERG SELL 8 30 2 2 10; lim BUY 8 15 3 3; SubmitStop BUY 9 0 5 4 3; lim BUY 3 7 9 2; lim BUY 2 4 10 2; Cancel 10].
Lemma played_reach dark l : forallb (easy dark) l = true -> is_Some (@play small_env 100 (@new_book small_env) l) -> @reach small_env dark (played l).
Proof. intros H [b E]. unfold played. rewrite E. by eapply reach_play; [constructor| |]. Qed.
