(* ===== verification/LadderFifo.v ===== *)
(** * LadderFifo: price-time priority at a level

    The walk of [match_at_level] over a queue of plain orders is the greedy
    allocation of the taker's shares in the order of the queue. *)
From S2P Require Import Prelude Double Common LadderTypes LadderTrades LadderSamples Ladder LadderInv LadderKeep LadderMatch.

(** What each of the orders with [opens] shares gets of [q]. *)
Fixpoint fifo (opens : list Z) (q : Z) : list Z :=
  match opens with
  | [] => []
  | a :: l => Z.min a q :: fifo l (q - Z.min a q)
  end.

Section fifo.
Context {env : BookEnv} {ok : EnvOk}.
Implicit Types b : Book.

(** What self-trade prevention looks at. *)
Definition stp_view b := (stp_policy_ (cfg b), client_to_firm_ (cfg b)).
Lemma stp_emit b ev oid mid px q st rr cid : stp_view (emit b ev oid mid px q st rr cid) = stp_view b.
Proof. unfold emit. by destruct (_ && _). Qed.
Lemma stp_mmp b cid : stp_view (mmp_on_maker_fill b cid) = stp_view b.
Proof.
  unfold mmp_on_maker_fill. destruct (_ || _); [done|]. destruct (_ !! _) as [m|]; [|done]. destruct (tripped m); [done|]. cbn.
  by destruct (_ <? _).
Qed.
Lemma stp_trade b mk tk px q sd ts : stp_view (record_trade b mk tk px q sd ts) = stp_view b.
Proof. unfold record_trade. by destruct (_ && _). Qed.
Lemma stp_stamp ts b s : stp_view (stamp_slot ts b s) = stp_view b.
Proof. unfold stamp_slot. by destruct (_ =? _). Qed.
Lemma stp_accts f b : stp_view (on_accts f b) = stp_view b.
Proof. done. Qed.
Lemma stp_count f b : stp_view (count_order f b) = stp_view b.
Proof. done. Qed.
Lemma stp_fill_pair b m t n ts : stp_view (fill_pair b m t n ts) = stp_view b.
Proof.
  rewrite fill_pair_unfold. cbv zeta. transitivity (stp_view (stamp_slot ts (stamp_slot ts (set_order (set_order b m (plus_filled n)) t (plus_filled n)) m) t)).
  - set (b1 := stamp_slot _ _ _). clearbody b1. unfold fill_told. cbv zeta. rewrite stp_emit, stp_trade, !stp_accts.
    destruct (0 <? _); rewrite ?stp_count, stp_mmp, !stp_accts; done.
  - by rewrite !stp_stamp.
Qed.
Lemma stp_oco b id : stp_view (oco_on_complete b id) = stp_view b.
Proof. unfold oco_on_complete. by destruct (_ !! _). Qed.
Lemma stp_bracket b id : stp_view (bracket_on_full_fill b id) = stp_view b.
Proof. unfold bracket_on_full_fill. by destruct (_ !! _). Qed.
Lemma stp_lifecycle b ts : stp_view (record_lifecycle_age b ts) = stp_view b.
Proof. done. Qed.
Lemma stp_free b s : stp_view (free_order b s) = stp_view b.
Proof. done. Qed.
Lemma stp_forget b id : stp_view (forget_id id b) = stp_view b.
Proof. done. Qed.
Lemma stp_set_level b p f : stp_view (set_level b p f) = stp_view b.
Proof. done. Qed.
Lemma stp_set_order b s f : stp_view (set_order b s f) = stp_view b.
Proof. done. Qed.
Lemma stp_complete b p m t n : stp_view (complete_maker b p m t n) = stp_view b.
Proof.
  unfold complete_maker, done_told. cbv zeta. by rewrite stp_free, stp_bracket, stp_oco, stp_count, stp_lifecycle, stp_forget, stp_set_level, stp_emit, stp_set_order.
Qed.
Lemma stp_trade_end b p t m n qty : stp_view (trade_end b p t m n qty).1.1 = stp_view b.
Proof.
  unfold trade_end. destruct (_ && _); [|destruct (_ <=? _); [apply stp_complete|done]]. cbn [fst]. unfold iceberg_refresh.
  assert (E : stp_view (b <| cfg := (ice_show (cfg b) (order_at b m)).2 |>) = stp_view b) by (unfold ice_show; by destruct (_ <=? 0)).
  destruct (ice_show _ _) as [show c]. cbn [snd] in E. by rewrite stp_set_level, stp_count, stp_set_order.
Qed.
Lemma stp_trade_one b p t m qty ts : stp_view (trade_one b p t m qty ts).1.1 = stp_view b.
Proof.
  unfold trade_one. cbv zeta. by rewrite stp_trade_end, stp_set_order, stp_set_level, stp_fill_pair.
Qed.

(** ** One turn against a plain order *)

Definition plain (o : Order) : Prop := o_type o <> T_ICEBERG /\ o_type o <> T_HIDDEN.
(** What a turn leaves of orders: all but the two as they were. *)
Lemma complete_maker_effect b p m t n :
  (forall x, x <> m -> order_at (complete_maker b p m t n) x = order_at b x) /\
  o_filled_qty (order_at (complete_maker b p m t n) m) = o_filled_qty (order_at b m) /\
  level_at (complete_maker b p m t n) p = level_at b p <| queue ::= remove_slot m |> <| order_count ::= drop_count |>.
Proof.
  unfold complete_maker. cbv zeta. rewrite order_at_set_eq. set (b1 := set_order b m _). set (b2 := emit b1 _ _ _ _ _ _ _ _).
  assert (F2 : frame b1 b2) by apply frame_emit. clearbody b2. set (o' := order_at b m <| o_status := S_FILLED |>).
  set (b3 := set_level b2 p _). set (b4 := done_told _ _). assert (F4 : frame (forget_id (o_id o') b3) b4) by apply done_told_frame. clearbody b4.
  pose proof (ceq_frame _ _ F2) as C2. pose proof (ceq_frame _ _ F4) as C4.
  assert (Or : forall x, order_at (free_order b4 m) x = if decide (x = m) then o' else order_at b x).
  { intros x. rewrite obs_order_free_order, (ceq_order _ _ C4), obs_order_forget_id. unfold b3.
    rewrite obs_order_set_level, (ceq_order _ _ C2). unfold b1. rewrite order_at_set. by destruct (decide (x = m)). }
  split_and!.
  - intros x N. by rewrite Or, decide_False.
  - by rewrite Or, decide_True.
  - rewrite obs_level_free_order, (ceq_level _ _ C4), obs_level_forget_id. unfold b3. rewrite level_at_set_eq, (ceq_level _ _ C2).
    unfold b1. by rewrite obs_level_set_order.
Qed.
Lemma plain_turn dark X b p t m qty ts :
  good dark X b -> t ∈ X -> queued b p m -> 0 < qty <= open_qty (order_at b t) -> 0 <= o_filled_qty (order_at b t) ->
  o_total_qty (order_at b t) <= INT32_MAX -> plain (order_at b m) ->
  let n := Z.min (open_qty (order_at b m)) qty in let r := trade_one b p t m qty ts in
  r.2 = qty - n /\ (forall x, x <> m -> x <> t -> order_at r.1.1 x = order_at b x) /\
  o_filled_qty (order_at r.1.1 m) = o_filled_qty (order_at b m) + n /\ o_client_id (order_at r.1.1 t) = o_client_id (order_at b t) /\
  (open_qty (order_at b m) <= qty -> queue (level_at r.1.1 p) = remove_slot m (queue (level_at b p)) /\ r.1.2 = after m (queue (level_at b p))).
Proof.
  intros G Ht Hm Hq Hf Hx [P1 P2] n r. pose proof (one_ne dark X b p t m qty (proj1 G) Ht Hm) as Nmt.
  destruct (one_maker dark X b p m (proj1 G) Hm) as (_ & _ & _ & Ro & _). pose proof (ro_plain _ _ Ro P1 P2) as Ed. destruct Ro as [R1 R2 R3 _ _].
  destruct (one_n dark X b p t m qty (proj1 G) Hm Hq Hf Hx) as (Hn & _ & E1 & E2 & _ & _ & E4).
  destruct (trade_one_shape dark X b p t m qty ts (proj1 G) Ht Hm Hq Hf Hx) as (b3 & C3 & Er). rewrite Ed in *.
  replace (Z.min qty (open_qty (order_at b m))) with n in * by (unfold n; lia). unfold r. rewrite Er. clear r Er.
  assert (O3 : forall x, order_at b3 x = if decide (x = m) then sold (order_at b m) n ts else if decide (x = t) then fill_order n ts (order_at b t) else order_at b x).
  { intros x. by rewrite (ceq_order _ _ C3), mid_order. }
  assert (Q3 : queue (level_at b3 p) = queue (level_at b p)) by by rewrite (ceq_level _ _ C3), mid_level, decide_True.
  assert (Fm : o_filled_qty (order_at b3 m) = o_filled_qty (order_at b m) + n) by (rewrite O3, decide_True by done; exact E1).
  assert (Tm : o_total_qty (order_at b3 m) = o_total_qty (order_at b m)) by by rewrite O3, decide_True.
  assert (Ct : o_client_id (order_at b3 t) = o_client_id (order_at b t)) by by rewrite O3, decide_False, decide_True by congruence.
  unfold trade_end. rewrite Fm, Tm. assert (bool_decide (o_type (order_at b3 m) = T_ICEBERG) = false) as ->.
  { apply bool_decide_eq_false_2. by rewrite O3, decide_True. }
  rewrite andb_false_r. unfold next_of. rewrite Q3. unfold open_qty in *.
  destruct (Z.leb_spec (o_total_qty (order_at b m)) (o_filled_qty (order_at b m) + n)); cbn [fst snd].
  - destruct (complete_maker_effect b3 p m t n) as (X1 & X2 & X3). split_and!; [done| |by rewrite X2|by rewrite X1 by congruence|].
    + intros x N1 N2. by rewrite X1, O3, !decide_False.
    + intros _. rewrite X3. cbn. by rewrite Q3.
  - split_and!; [done| |by rewrite order_at_set_eq|by rewrite order_at_set_ne by congruence|unfold n in *; lia].
    intros x N1 N2. by rewrite order_at_set_ne, O3, !decide_False.
Qed.

(** ** The walk *)

Lemma self_trade_same b b' m t :
  stp_view b' = stp_view b -> order_at b' m = order_at b m -> o_client_id (order_at b' t) = o_client_id (order_at b t) ->
  self_trade b' m t = self_trade b m t.
Proof. unfold stp_view. intros [= E1 E2] E3 E4. unfold self_trade, same_trading_entity. by rewrite E1, E2, E3, E4. Qed.
Lemma fifo_zero l : (forall a, a ∈ l -> 0 < a) -> fifo l 0 = map (fun _ => 0) l.
Proof.
  induction l as [|a l IH]; intros H; [done|]. cbn. specialize (H a ltac:(left)) as Ha. rewrite Z.min_r by lia. f_equal.
  apply IH. intros x Hx. apply H. by right.
Qed.
Lemma sum_zeros {A} (l : list A) : sumf (fun x => x) (map (fun _ => 0) l) = 0.
Proof. induction l as [|x l IH]; [done|]. cbn [map]. rewrite sumf_cons. lia. Qed.
Definition fills b b' (q : list Z) : list Z := map (fun s => o_filled_qty (order_at b' s) - o_filled_qty (order_at b s)) q.
Lemma fills_ext b1 b2 b' q : (forall s, s ∈ q -> order_at b1 s = order_at b2 s) -> fills b1 b' q = fills b2 b' q.
Proof. intros H. apply map_ext_in. intros s Hs%list_elem_of_In. by rewrite H. Qed.
Lemma fills_same b b' q : (forall s, s ∈ q -> order_at b' s = order_at b s) -> fills b b' q = map (fun _ => 0) q.
Proof. intros H. apply map_ext_in. intros s Hs%list_elem_of_In. rewrite H by done. lia. Qed.
(** Every order of the queue is plain and of another account. *)
Definition open_book b (p t : Z) : Prop := forall s, queued b p s -> plain (order_at b s) /\ self_trade b s t = false.
Definition opens b (q : list Z) : list Z := map (fun s => open_qty (order_at b s)) q.
Lemma walk_fifo dark X p t ts l : forall fuel b qty b' qty',
  queue (level_at b p) = l -> good dark X b -> taking X b t qty -> open_book b p t ->
  match_at_level fuel b p t (head l) qty ts = Some (b', qty') ->
  fills b b' l = fifo (opens b l) qty /\ qty' = qty - sumf (fun x => x) (fifo (opens b l) qty) /\
  (forall x, x ∉ l -> x <> t -> order_at b' x = order_at b x).
Proof.
  induction l as [|m l IH]; intros fuel b qty b' qty' El G T Ob E.
  { assert (b' = b /\ qty' = qty) as [-> ->] by (destruct fuel; cbn in E; by simplify_eq). split_and!; [done|cbn; lia|done]. }
  assert (Hop : forall s, s ∈ m :: l -> 0 < open_qty (order_at b s)).
  { intros s Hs. destruct (wf_queue _ _ _ (proj1 G) p s) as (_ & _ & _ & [? _ _ _ _] & _); [unfold queued; by rewrite El|]. unfold open_qty. lia. }
  assert (Hz : forall a, a ∈ opens b (m :: l) -> 0 < a) by (intros a (s & -> & Hs)%list_elem_of_fmap; by apply Hop).
  pose proof T as (Ht & Hf & Hx & Hq).
  assert (Hm : queued b p m) by (unfold queued; rewrite El; by left). destruct (Ob m Hm) as [Pm Sm].
  destruct (decide (qty = 0)) as [->|Nq].
  { assert (b' = b /\ qty' = 0) as [-> ->] by (destruct fuel; cbn in E; by simplify_eq).
    rewrite fifo_zero, sum_zeros by done. unfold opens. rewrite fills_same by done. split_and!; [|lia|done]. by rewrite map_map. }
  destruct fuel as [|fuel]; cbn [match_at_level head] in E; destruct (Z.leb_spec qty 0); try lia; [done|].
  unfold match_one in E. rewrite Sm in E.
  destruct (plain_turn dark X b p t m qty ts G Ht Hm ltac:(lia) Hf Hx Pm) as (Eq & Or & Fm & Ct & Qd).
  pose proof (trade_one_turn dark X b p t m qty ts (proj1 G) (proj2 G) Ht Hm ltac:(lia) Hf Hx) as Tu.
  pose proof (stp_trade_one b p t m qty ts) as Sv. pose proof (one_ne dark X b p t m qty (proj1 G) Ht Hm) as Nmt.
  destruct (trade_one b p t m qty ts) as [[b1 next] q1]. cbn [fst snd] in *. set (n := Z.min _ qty) in *.
  apply turn_walked in Tu as (W1 & _ & _); [|done]. destruct W1 as (G1 & _ & _ & T1 & _ & _).
  pose proof (wf_nodup _ _ _ (proj1 G) p) as Nd. rewrite El in Nd. apply NoDup_cons in Nd as [Nm Nd].
  assert (Nt : forall s, s ∈ l -> s <> t).
  { intros s Hs ->. destruct (wf_held _ _ _ (proj1 G) t Ht) as (_ & _ & _ & Nq'). apply (Nq' p). unfold queued. rewrite El. by right. }
  assert (Nl : forall s, s ∈ l -> s <> m) by (intros s Hs ->; done).
  unfold opens in *. cbn [map fifo]. fold n. rewrite sumf_cons. unfold fills at 1. cbn [map].
  destruct (Z.le_gt_cases (open_qty (order_at b m)) qty) as [Hd|Hd].
  - destruct (Qd Hd) as [Q1 N1]. rewrite El in Q1, N1. cbn [after] in N1. rewrite Z.eqb_refl in N1. subst next.
    assert (El1 : queue (level_at b1 p) = l).
    { rewrite Q1. unfold remove_slot. rewrite filter_cons_False by tauto. fold (remove_slot m l). by apply remove_slot_absent. }
    assert (Ol : forall s, s ∈ l -> order_at b1 s = order_at b s) by (intros s Hs; apply Or; [by apply Nl|by apply Nt]).
    destruct (IH fuel b1 q1 b' qty' El1 G1 T1) as (I1 & I2 & I3); [|done|].
    + intros s Hs. unfold queued in Hs. rewrite El1 in Hs. rewrite (self_trade_same b b1 s t Sv (Ol s Hs) Ct), (Ol s Hs).
      apply Ob. unfold queued. rewrite El. by right.
    + assert (Eo : map (fun s => open_qty (order_at b1 s)) l = map (fun s => open_qty (order_at b s)) l).
      { apply map_ext_in. intros s Hs%list_elem_of_In. by rewrite Ol. }
      unfold opens in I1, I2. rewrite Eo, Eq in I1, I2. rewrite (I3 m Nm) by congruence.
      split_and!.
      * rewrite Fm. f_equal; [lia|]. etrans; [|exact I1]. apply (fills_ext b b1 b' l). intros s Hs. by rewrite Ol.
      * rewrite I2. lia.
      * intros x Nx Nxt. apply not_elem_of_cons in Nx as [Nx1 Nx2]. rewrite I3 by done. by apply Or.
  - assert (q1 = 0) as -> by (unfold n in *; lia). assert (b' = b1 /\ qty' = 0) as [-> ->].
    { destruct fuel, next; cbn in E; by simplify_eq. }
    replace (qty - n) with 0 by lia. rewrite fifo_zero by (intros a (s & -> & Hs)%list_elem_of_fmap; apply Hop; by right).
    split_and!.
    + rewrite Fm. f_equal; [lia|]. rewrite map_map. apply (fills_same b b1 l). intros s Hs. apply Or; [by apply Nl|by apply Nt].
    + rewrite sum_zeros. lia.
    + intros x Nx Nxt. apply not_elem_of_cons in Nx as [Nx1 Nx2]. by apply Or.
Qed.
End fifo.
