(* ===== verification/LadderHidden.v ===== *)
(** * LadderHidden: an order book that waits for ever

    A hidden order shows nothing, so a turn of the match against it trades
    nothing and leaves it in its place: when nothing else rests at the best
    price, [match_against] repeats that turn without end. *)
From S2P Require Import Prelude Double Common LadderTypes LadderTrades LadderSamples Ladder LadderInv LadderKeep LadderMatch LadderSubmit LadderFifo.

Section hidden.
Context {env : BookEnv} {ok : EnvOk}.
Implicit Types b : Book.

(** The taker [t] wants [qty] shares and reaches the level [p], where only the
    hidden order [m] rests. *)
Record stuck (X : gset Z) b (p t m qty : Z) : Prop := {
  st_good : good true X b;
  st_taking : taking X b t qty;
  st_qty : 0 < qty;
  st_side : o_side (order_at b t) = BUY;
  st_reach : best_ask_ticks_ b = p /\ p <> NO_ASK_TICKS /\ p <= o_price_ticks (order_at b t);
  st_queue : queue (level_at b p) = [m];
  st_hidden : o_type (order_at b m) = T_HIDDEN /\ o_displayed_qty (order_at b m) = 0;
  st_free : o_client_id (order_at b t) = 0 }.
Lemma no_client_trades b m t : o_client_id (order_at b t) = 0 -> self_trade b m t = false.
Proof. intros E. unfold self_trade, same_trading_entity. rewrite E, orb_true_r. apply andb_false_r. Qed.
Lemma stuck_turn X b p t m qty ts : stuck X b p t m qty ->
  exists b', match_one b p t m qty ts = (b', None, qty) /\ stuck X b' p t m qty.
Proof.
  intros [G T Hq Sd (Ba & Na & Rp) Qu (Hh & Hd) Fr]. unfold match_one. rewrite no_client_trades by done.
  pose proof T as (Ht & Hf & Hx & Ho). assert (Hm : queued b p m) by (unfold queued; rewrite Qu; by left).
  pose proof (one_ne true X b p t m qty (proj1 G) Ht Hm) as Nmt.
  pose proof (trade_one_turn true X b p t m qty ts (proj1 G) (proj2 G) Ht Hm ltac:(lia) Hf Hx) as Tu.
  destruct (one_maker true X b p m (proj1 G) Hm) as (_ & _ & _ & [R1 R2 _ _ _] & _).
  destruct (trade_one_shape true X b p t m qty ts (proj1 G) Ht Hm ltac:(lia) Hf Hx) as (b3 & C3 & Er). rewrite Hd in *.
  rewrite Z.min_r, Z.sub_0_r in * by lia. rewrite Er in *. clear Er.
  assert (O3 : order_at b3 m = sold (order_at b m) 0 ts) by by rewrite (ceq_order _ _ C3), mid_order, decide_True.
  assert (Q3 : queue (level_at b3 p) = [m]) by by rewrite (ceq_level _ _ C3), mid_level, decide_True.
  assert (A3 : best_ask_ticks_ b3 = p) by (rewrite (ceq_ask _ _ C3); exact Ba).
  assert (T3 : order_at b3 t = fill_order 0 ts (order_at b t)) by by rewrite (ceq_order _ _ C3), mid_order, decide_False, decide_True by congruence.
  assert (E : trade_end b3 p t m 0 qty = (set_order b3 m (fun o => o <| o_status := S_PARTIALLY_FILLED |>), None, qty)).
  { unfold trade_end. rewrite O3. assert (bool_decide (o_type (sold (order_at b m) 0 ts) = T_ICEBERG) = false) as -> by (apply bool_decide_eq_false_2; cbn; by rewrite Hh).
    rewrite andb_false_r. unfold next_of. rewrite Q3. cbn [after head]. rewrite Z.eqb_refl.
    assert (F : o_filled_qty (sold (order_at b m) 0 ts) = o_filled_qty (order_at b m)) by (cbn; rewrite Z.add_0_r; unfold INT32_MAX in *; rewrite i32_small by lia; done).
    rewrite F. change (o_total_qty (sold (order_at b m) 0 ts)) with (o_total_qty (order_at b m)).
    destruct (Z.leb_spec (o_total_qty (order_at b m)) (o_filled_qty (order_at b m))); [lia|done]. }
  rewrite E in *. eexists. split; [reflexivity|]. apply turn_walked in Tu as (W & _ & _); [|done]. destruct W as (G' & S' & _ & T' & _ & _).
  destruct (same_taker t X _ _ Ht S') as (_ & _ & Sd' & Pr'). constructor; try done.
  - by rewrite Sd'.
  - split_and!; [exact A3|done|]. by rewrite Pr'.
  - rewrite order_at_set_eq, O3. cbn. rewrite Hd. by split.
  - rewrite order_at_set_ne, T3 by congruence. exact Fr.
Qed.
Lemma stuck_levels X p t m qty ts : forall fuel b levels, stuck X b p t m qty -> match_levels fuel b t qty ts levels = None.
Proof.
  induction fuel as [|fuel IH]; intros b levels St; rewrite match_levels_unfold; cbv zeta; pose proof St as [G T Hq Sd (Ba & Na & Rp) Qu (Hh & Hd) Fr].
  all: rewrite Sd; cbn [is_buy]; unfold other_best, reaches, has_ask; rewrite Ba; destruct (Z.leb_spec qty 0); [lia|];
       destruct (Z.eqb_spec p NO_ASK_TICKS); [done|]; destruct (Z.leb_spec p (o_price_ticks (order_at b t))); [|lia]; cbn [orb andb negb]. 1: done.
  rewrite Qu. cbn [head]. destruct fuel as [|fuel']; cbn [match_at_level]; destruct (Z.leb_spec qty 0); try lia; [done|].
  destruct (stuck_turn X b p t m qty ts St) as (b' & -> & St'). assert (match_at_level fuel' b' p t None qty ts = Some (b', qty)) as -> by by destruct fuel'.
  unfold level_done. cbn [fst snd]. unfold level_empty. rewrite (st_queue _ _ _ _ _ _ St'). by apply IH.
Qed.
Lemma stuck_frame X b b' p t m qty : frame b b' -> stuck X b p t m qty -> stuck X b' p t m qty.
Proof.
  intros F [G T Hq Sd Rp Qu Hh Fr]. pose proof (ceq_frame _ _ F) as C. constructor; try done.
  - by eapply good_frame.
  - unfold taking in *. by rewrite (ceq_order _ _ C).
  - by rewrite (ceq_order _ _ C).
  - rewrite (ceq_ask _ _ C), (ceq_order _ _ C). done.
  - by rewrite (ceq_level _ _ C).
  - by rewrite (ceq_order _ _ C).
  - by rewrite (ceq_order _ _ C).
Qed.
Lemma stuck_match X fuel b p t m : stuck X b p t m (open_qty (order_at b t)) -> match_against fuel b t = None.
Proof.
  intros St. unfold match_against. pose proof (mono_frame b) as F. destruct (mono_ns_now b) as [ts b1]. cbn [snd] in F.
  pose proof (st_taking _ _ _ _ _ _ St) as (Ht & Hf & Hx & Ho). pose proof (ceq_frame _ _ F) as C.
  rewrite (ceq_order _ _ C), remaining_open by (unfold open_qty in *; lia).
  by rewrite (stuck_levels X p t m _ ts fuel b1 0 (stuck_frame X b b1 p t m _ F St)).
Qed.

(** From the entry of the order to its match. *)
Lemma cfg_emit b ev oid mid px q st rr cid : cfg (emit b ev oid mid px q st rr cid) = cfg b.
Proof. unfold emit. by destruct (_ && _). Qed.
Lemma cfg_audit b ev oid sd px q st : cfg (push_audit b ev oid sd px q st) = cfg b.
Proof. unfold push_audit. by destruct (negb _). Qed.
Lemma cfg_token b c : cfg (consume_rate_token b c).2 = cfg b.
Proof. unfold consume_rate_token. destruct (_ !! _); [|done]. cbn. by destruct (dlt _ _). Qed.
Lemma cfg_admission b n b1 : admission b n = (None, b1) -> cfg b1 = cfg b.
Proof.
  unfold admission. destruct (admit_session b n); [done|]. assert (A : cfg (admit_account b n).2 = cfg b).
  { unfold admit_account. cbv zeta. set (c := _ && _) at 1.
    assert (F : cfg (if c then consume_rate_token b (n_client_id n) else (true, b)).2 = cfg b) by (destruct c; [apply cfg_token|done]).
    destruct (if c then _ else _) as [r b2]. cbn [snd] in F. destruct (negb r); [exact F|]. clear c; case_match; exact F. }
  destruct (admit_account b n) as [[r|] b2]; [done|]. cbn [snd] in A. unfold admit_price. cbv zeta. rewrite <- A.
  intros E. repeat case_match; by simplify_eq.
Qed.
Lemma cfg_alloc b s b' : alloc_order b = Some (s, b') -> cfg b' = cfg b.
Proof. unfold alloc_order. destruct (free_list_ b); [done|]. by destruct (_ <? _); intros [= _ <-]. Qed.
Lemma cfg_accts f b : cfg (on_accts f b) = cfg b.
Proof. done. Qed.
Lemma cfg_tally t tif b : cfg (tally_accept t tif b) = cfg b.
Proof. done. Qed.
Lemma cfg_open_order b n s : cfg (open_order b n s) = cfg b.
Proof.
  unfold open_order. assert (F0 : cfg (assign_id b (n_order_id n)).2 = cfg b) by (unfold assign_id; by destruct (_ =? 0)).
  destruct (assign_id b (n_order_id n)) as [id b0]. destruct (entry_display n) as [ice shown]. cbn [snd] in *.
  assert (F1 : cfg (mono_ns_now b0).2 = cfg b0) by done. destruct (mono_ns_now b0) as [now b1]. cbn [snd] in *. cbv zeta.
  rewrite cfg_accts, cfg_audit, cfg_emit, cfg_tally. rewrite <- F0, <- F1. reflexivity.
Qed.
Lemma open_order_client b n s : o_client_id (order_at (open_order b n s) s) = n_client_id n /\ o_side (order_at (open_order b n s) s) = n_side n.
Proof.
  destruct (open_order_shape b n s) as (id & now & mid & b1 & F1 & F2). by rewrite !(ceq_order _ _ (ceq_frame _ _ F2)), order_at_set_eq.
Qed.
Lemma open_order_ceq b n s : (forall p, level_at (open_order b n s) p = level_at b p) /\ best_ask_ticks_ (open_order b n s) = best_ask_ticks_ b.
Proof.
  destruct (open_order_shape b n s) as (id & now & mid & b1 & F1 & F2). pose proof (ceq_frame _ _ F1) as C1. pose proof (ceq_frame _ _ F2) as C2.
  split; [intros p; rewrite (ceq_level _ _ C2), obs_level_set_order; apply (ceq_level _ _ C1)|].
  rewrite (ceq_ask _ _ C2), obs_ask_set_order. apply (ceq_ask _ _ C1).
Qed.
Lemma alloc_ceq b s b' : alloc_order b = Some (s, b') -> (forall p, level_at b' p = level_at b p) /\ best_ask_ticks_ b' = best_ask_ticks_ b.
Proof. unfold alloc_order. destruct (free_list_ b); [done|]. by destruct (_ <? _); intros [= _ <-]. Qed.
(** The best ask shows only a hidden order. *)
Definition dark_ask b (p m : Z) : Prop :=
  best_ask_ticks_ b = p /\ p <> NO_ASK_TICKS /\ queue (level_at b p) = [m] /\ o_type (order_at b m) = T_HIDDEN /\ o_displayed_qty (order_at b m) = 0.
Lemma submit_stuck fuel b n b1 p m :
  good true ∅ b -> admission b n = (None, b1) -> takes n = true -> in_auction_mode_ (cfg b) = false -> n_side n = BUY -> n_client_id n = 0 ->
  n_qty n <= INT32_MAX -> p <= n_price n -> dark_ask b p m -> free_list_ b <> [] -> submit fuel b n = None.
Proof.
  intros G Ea Tk Au Sd Cl Fq Hp (Ba & Na & Qu & Hh & Hd) Fr. destruct fuel as [|fuel]; [done|]. rewrite submit_S, Ea.
  pose proof (admission_frame b n) as F. rewrite Ea in F. cbn [snd] in F. pose proof (ceq_frame _ _ F) as C.
  destruct (alloc_order b1) as [[s b2]|] eqn:El.
  2: { exfalso. unfold alloc_order in El. rewrite (ceq_free _ _ C) in El. by destruct (free_list_ b). }
  destruct (opened_good true ∅ b n b1 s b2 G Ea El) as (G3 & NX & En & Hq & _ & _ & _). cbv zeta. destruct (open_order_client b2 n s) as [Ec Es].
  destruct (open_order_ceq b2 n s) as [L3 A3]. destruct (alloc_ceq b1 s b2 El) as [L2 A2].
  destruct (alloc_good true ∅ b1 s b2 El (good_frame _ _ _ _ F G)) as (G2 & _). destruct (wf_alloc true ∅ b1 s b2 El (proj1 (good_frame _ _ _ _ F G))) as (_ & _ & _ & _ & O2 & _).
  destruct (open_order_kept true ({[s]} ∪ ∅) b2 n s G2) as (_ & _ & O3 & _); [set_solver|done|].
  assert (Cf : cfg (open_order b2 n s) = cfg b) by (rewrite cfg_open_order, (cfg_alloc _ _ _ El); by apply cfg_admission in Ea).
  assert (Nm : m <> s).
  { intros ->. destruct (wf_held _ _ _ (proj1 G3) s) as (_ & _ & _ & Nq); [set_solver|]. apply (Nq p). unfold queued. rewrite L3, L2, (ceq_level _ _ C), Qu. by left. }
  unfold entry_match. rewrite Tk, Cf, Au. cbn [andb negb]. rewrite (stuck_match ({[s]} ∪ ∅) fuel (open_order b2 n s) p s m); [done|].
  pose proof (entered_takes ({[s]} ∪ ∅) (open_order b2 n s) n s ltac:(set_solver) En Fq) as (T1 & T2 & T3). constructor.
  - done.
  - unfold taking, open_qty. split_and!; try done; lia.
  - unfold open_qty. rewrite (en_total _ _ En). destruct (open_order_shape b2 n s) as (id & now & mid & bx & Fx1 & Fx2).
    rewrite (ceq_order _ _ (ceq_frame _ _ Fx2)), order_at_set_eq. cbn. lia.
  - by rewrite Es.
  - rewrite A3, A2, (ceq_ask _ _ C). split_and!; [done|done|]. by rewrite (en_price _ _ En).
  - by rewrite L3, L2, (ceq_level _ _ C).
  - rewrite O3, O2, (ceq_order _ _ C) by done. done.
  - by rewrite Ec.
Qed.
End hidden.
