(* ===== verification/LadderProps.v ===== *)
(** * LadderProps: what the full order book promises

    Integrity of reachable books, refusals, the end of submissions and where it
    fails, self-trade prevention, price-time priority. *)
From S2P Require Import Prelude Double Common LadderTypes LadderTrades LadderSamples Ladder LadderOps LadderViews LadderInv LadderKeep LadderMatch LadderSubmit LadderStep LadderReach LadderFifo LadderHidden.

Section props.
Context {env : BookEnv} {ok : EnvOk}.
Implicit Types b : Book.

(** ** Integrity *)

Definition overflows (x : Z) : Z := if x <=? INT32_MAX then 0 else 1.
Lemma overflow_flag x : 0 <= x <= 9223372036854775807 -> (if i32 x =? i64 x then 0 else 1) = overflows x.
Proof.
  intros H. unfold overflows, INT32_MAX. rewrite (i64_small x) by lia. destruct (Z.leb_spec x 2147483647).
  - rewrite i32_small by lia. by rewrite Z.eqb_refl.
  - pose proof (i32_range x). destruct (Z.eqb_spec (i32 x) x); lia.
Qed.
Lemma count_if_none {A} (p : A -> bool) l : (forall x, x ∈ l -> p x = false) -> count_if p l = 0.
Proof. intros H. apply sumf_zero. intros x Hx. by rewrite H. Qed.
Lemma sum_range b (f : Z -> Z) q : NoDup q -> (forall s, s ∈ q -> is_slot s /\ 0 <= f s <= INT32_MAX) -> 0 <= sumf f q <= 9223372036854775807.
Proof.
  intros Hn H. pose proof (slots_bound q Hn (fun s Hs => proj1 (H s Hs))) as B. destruct ok as [_ Ho].
  pose proof (sumf_bounds f q 0 INT32_MAX (fun s Hs => proj2 (H s Hs))) as R. pose proof (alen_nonneg q). unfold INT32_MAX in *. lia.
Qed.
Lemma level_violations_spec dark b p : wf dark ∅ b ->
  level_violations b p = overflows (shown_sum b (queue (level_at b p))) + overflows (reserve_sum b (queue (level_at b p))).
Proof.
  intros W. unfold level_violations. cbv zeta. set (q := queue (level_at b p)).
  assert (Hq : forall s, s ∈ q -> is_slot s /\ o_price_ticks (order_at b s) = p /\ restable dark (order_at b s)).
  { intros s Hs. by destruct (wf_queue _ _ _ W p s Hs) as (? & ? & _ & ? & _). }
  rewrite count_if_none.
  2: { intros o (s & -> & Hs)%list_elem_of_fmap. destruct (Hq s Hs) as (_ & -> & _). by rewrite Z.eqb_refl. }
  rewrite (wf_count _ _ _ W p), (wf_total _ _ _ W p), (wf_hidden _ _ _ W p), !sum64_sumf. fold q. unfold alen. rewrite length_map.
  change (map (order_at b) q) with (order_at b <$> q). rewrite !sumf_fmap.
  pose proof (wf_nodup _ _ _ W p) as Hn. fold q in Hn.
  assert (Hb : alen q <= MAX_ORDERS) by (apply slots_bound; [done|]; intros s Hs; by apply Hq). destruct ok as [_ Ho]. unfold alen, INT32_MAX in *.
  rewrite (i32_small (Z.of_nat (length q))) by lia. rewrite Z.eqb_refl, !Z.add_0_l.
  rewrite (sumf_ext (fun x => hidden_qty (order_at b x)) (fun x => reserve (order_at b x)) q).
  2: { intros s Hs. destruct (Hq s Hs) as (_ & _ & [R1 R2 R3 _ _]). unfold hidden_qty, reserve, open_qty, INT32_MAX in *. rewrite i32_small by lia. lia. }
  rewrite <- !overflow_flag; [done| |].
  - apply (sum_range b); [done|]. intros s Hs. destruct (Hq s Hs) as (? & _ & [R1 R2 R3 _ _]). unfold reserve, open_qty in *. split; [done|lia].
  - apply (sum_range b); [done|]. intros s Hs. destruct (Hq s Hs) as (? & _ & [R1 R2 R3 _ _]). unfold open_qty in *. split; [done|lia].
Qed.
Lemma overflows_range x : 0 <= overflows x <= 1.
Proof. unfold overflows. destruct (_ <=? _); lia. Qed.



(** ** Ends of a submission *)


(** ** Refusals *)

(** C5: an order that [submit] refuses changes no order, level, queue, index,
    best price or pool slot: only counters, the clock, what is announced and
    what the gates themselves record. *)
Theorem ladder_refusal_changes_nothing fuel b n r b' : submit fuel b n = Some (0, Some r, b') -> core b' = core b.
Proof.
  destruct fuel as [|fuel]; [done|]. rewrite submit_S. pose proof (admission_frame b n) as F.
  destruct (admission b n) as [[rr|] b1]; cbn [snd] in F.
  { intros [= _ <-]. pose proof (reject_frame b1 n rr) as F2. symmetry. etrans; [apply F|apply F2]. }
  destruct (alloc_order b1) as [[s b2]|].
  - cbv zeta. by destruct (entry_match _ _ _ _).
  - intros [= _ <-]. pose proof (reject_frame b1 n R_POOL_EXHAUSTED) as F2. symmetry. etrans; [apply F|apply F2].
Qed.

(** ** Hidden orders *)


(** ** Self-trade prevention *)

Lemma cancel_fills b s e x : o_filled_qty (order_at (cancel_internal b s e) x) = o_filled_qty (order_at b x).
Proof.
  destruct (is_active (order_at b s)) eqn:A; [|by unfold cancel_internal; rewrite A].
  destruct (cancel_internal_retires b s e A) as (E & _ & _). apply beq_base in E. rewrite <- (beq_order _ _ E).
  unfold retire. autorewrite with obs. rewrite order_at_set. autorewrite with obs. by destruct (decide (x = s)) as [->|].
Qed.
(** under a policy that cancels, a taker never trades with an order of its
    own account or firm: the turn fills nobody; the newest policy ends the
    taker's match, the oldest cancels the resting order and goes on with the
    next one, both do both. *)
Lemma ladder_stp_no_fill b p t m qty ts :
  self_trade b m t = true -> stp_policy_ (cfg b) <> STP_DECREMENT_AND_CXL ->
  let '(b', next, qty') := match_one b p t m qty ts in
  (forall x, o_filled_qty (order_at b' x) = o_filled_qty (order_at b x)) /\
  (qty' = 0 <-> qty = 0 \/ stp_policy_ (cfg b) <> STP_CANCEL_OLDEST) /\ (qty' = 0 \/ qty' = qty /\ next = next_of b p m) /\
  (is_active (order_at b m) = true -> o_status (order_at b' m) = if decide (stp_policy_ (cfg b) = STP_CANCEL_NEWEST) then o_status (order_at b m) else S_CANCELLED).
Proof.
  intros Hs Hd. unfold match_one. rewrite Hs. cbv zeta. pose proof (count_self_trade_frame b t m) as F. pose proof (ceq_frame _ _ F) as C.
  assert (Ep : stp_policy_ (cfg (count_self_trade b m t)) = stp_policy_ (cfg b)) by (unfold count_self_trade; by destruct (negb _)).
  rewrite Ep. generalize dependent (count_self_trade b m t). intros b1 F C Ep.
  assert (Fl : forall x, o_filled_qty (order_at (cancel_internal b1 m true) x) = o_filled_qty (order_at b x)) by (intros x; by rewrite cancel_fills, (ceq_order _ _ C)).
  assert (St : is_active (order_at b m) = true -> o_status (order_at (cancel_internal b1 m true) m) = S_CANCELLED).
  { intros A. rewrite <- (ceq_order _ _ C) in A. destruct (cancel_internal_retires b1 m true A) as (E & _ & _). apply beq_base in E.
    rewrite <- (beq_order _ _ E). unfold retire. autorewrite with obs. by rewrite order_at_set_eq. }
  assert (Nx : next_of b1 p m = next_of b p m) by (unfold next_of; by rewrite (ceq_level _ _ C)).
  assert (Hn : stp_policy_ (cfg b) <> STP_NONE) by (intros E; unfold self_trade in Hs; rewrite E in Hs; done).
  generalize dependent (cancel_internal b1 m true). intros bc Fl St. rewrite Nx. generalize (next_of b p m). intros next.
  generalize dependent (trade_one b1 p t m qty ts). intros r. clear Nx Ep Hs.
  destruct (stp_policy_ (cfg b)) eqn:Ep; [done| | | |done].
  - split_and!; [intros x; by rewrite (ceq_order _ _ C)|split; [by right|done]|by left|intros _; by rewrite (ceq_order _ _ C)].
  - split_and!; [done|split; [by left|intros [?|?]; done]|by right|done].
  - split_and!; [done|split; [by right|done]|by left|done].
Qed.

(** ** Price-time priority *)


(** ** modify of a pending stop *)

(** [modify] to a smaller size at the same limit price does not notice that
    an order is a stop that is still pending: the level of that price loses
    shares that it never held, while no order of its queue changes. *)
Lemma ladder_modify_stop_corrupts dark fuel b id s q :
  reach dark b -> id_index_ b !! id = Some s -> s ∈ stop_orders_ b ->
  let o := order_at b s in let p := o_price_ticks o in
  o_filled_qty o < q < o_total_qty o ->
  exists b', modify fuel b id p q = Some (o_id o, None, b') /\ queue (level_at b' p) = queue (level_at b p) /\
    (forall x, x ∈ queue (level_at b p) -> order_at b' x = order_at b x) /\
    total_qty (level_at b' p) = i32 (total_qty (level_at b p) - Z.min (i32 (o_total_qty o - q)) (o_displayed_qty o)).
Proof.
  intros [[W _] _]%reach_ok Hi Hs o p Hq. unfold modify. rewrite Hi. cbv zeta. fold o p. rewrite Z.eqb_refl.
  destruct (Z.ltb_spec q (o_total_qty o)), (Z.ltb_spec (o_filled_qty o) q); try lia. cbn [andb]. eexists. split; [reflexivity|].
  unfold shrink_order. cbv zeta. fold o p. set (vis := Z.min _ _). match goal with |- context[set_order b s ?g] => set (f := g) end.
  set (b1 := set_level (set_order b s f) p _). match goal with |- context[emit ?x _ _ _ _ _ _ _ _] => set (b2 := x) end.
  assert (C2 : ceq b1 b2) by (apply ceq_core; unfold b2; by autorewrite with obs). clearbody b2.
  pose proof (ceq_trans _ _ _ C2 (ceq_frame _ _ (frame_emit b2 E_REPLACE (o_id o) 0 p q (o_status o) R_NONE (o_client_id o)))) as C.
  generalize dependent (emit b2 E_REPLACE (o_id o) 0 p q (o_status o) R_NONE (o_client_id o)). intros b3 C. rewrite (ceq_level _ _ C). unfold b1. rewrite level_at_set_eq.
  split_and!; [done| |done]. intros x Hx. rewrite (ceq_order _ _ C). unfold b1. rewrite obs_order_set_level. apply order_at_set_ne. intros ->.
  destruct (wf_queue _ _ _ W p s Hx) as (_ & _ & A & _). destruct (wf_stop _ _ _ W s Hs) as [_ [E _]]. unfold is_pending_stop, is_active in *.
  bsplit. repeat case_bool_decide; simplify_eq/=; congruence.
Qed.
End props.

(** ** Examples *)

#[local] Existing Instance small_env.
Definition ex_book : Book := played ex_ops.
Lemma ex_reach : reach false ex_book.
Proof. apply played_reach; [reflexivity|]. vm_compute. by eexists. Qed.
(** The next buy takes the rest of the iceberg and rests. *)
Definition ex_next : NewOrder := limit_order BUY 9 40 TIF_GTC 11 4.
Definition ex_bad : NewOrder := limit_order BUY 99 1 TIF_DAY 12 1.
Definition ex_refused : Book := default ex_book (snd <$> submit 5 ex_book ex_bad).
Lemma ladder_refusal_changes_nothing_witness :
  submit 5 ex_book ex_bad = Some (0, Some R_PRICE_OUT_OF_RANGE, ex_refused) /\ core ex_refused = core ex_book.
Proof.
  assert (E : submit 5 ex_book ex_bad = Some (0, Some R_PRICE_OUT_OF_RANGE, ex_refused)).
  { assert (A : fst <$> submit 5 ex_book ex_bad = Some (0, Some R_PRICE_OUT_OF_RANGE)) by (vm_compute; done).
    unfold ex_refused. destruct (submit 5 ex_book ex_bad) as [[[i r] b']|]; [|done]. cbn in *. by injection A as -> ->. }
  split; [exact E|]. by apply (ladder_refusal_changes_nothing 5 ex_book ex_bad R_PRICE_OUT_OF_RANGE).
Defined.
(** A hidden order and a visible one at a price; the visible one is cancelled,
    the best ask stays. *)
Definition hidden_book : Book := played [sized T_HIDDEN SELL 8 10 1 1 0; lim SELL 8 5 2 2; Cancel 2].
Definition hidden_taker : NewOrder := limit_order BUY 8 3 TIF_DAY 3 0.
Definition stp_book : Book := played [Configure (fun c => c <| stp_policy_ := STP_CANCEL_OLDEST |>); lim SELL 8 10 1 7; lim SELL 8 5 2 2].
Definition stp_taker : Book := open_order stp_book (limit_order BUY 8 12 TIF_DAY 3 7) 2.
Lemma ladder_stp_no_fill_witness : self_trade stp_taker 0 2 = true /\
  (match_one stp_taker 8 2 0 12 99).2 = 12 /\ (forall x, o_filled_qty (order_at (match_one stp_taker 8 2 0 12 99).1.1 x) = o_filled_qty (order_at stp_taker x)).
Proof.
  assert (H : self_trade stp_taker 0 2 = true) by (vm_compute; done). assert (D : stp_policy_ (cfg stp_taker) <> STP_DECREMENT_AND_CXL) by (vm_compute; done).
  pose proof (ladder_stp_no_fill stp_taker 8 2 0 12 99 H D) as T.
  assert (E : (match_one stp_taker 8 2 0 12 99).2 = 12) by (vm_compute; done).
  destruct (match_one stp_taker 8 2 0 12 99) as [[b' next] q]. split; [exact H|]. split; [exact E|]. apply T.
Defined.

(** An order on entry, before its match. *)
Definition enter (b : Book) (n : NewOrder) : option (Z * Book) :=
  match admission b n with
  | (None, b1) => (fun '(s, b2) => (s, open_order b2 n s)) <$> alloc_order b1
  | _ => None
  end.
Lemma enter_good dark (b : Book) n s b3 : reach dark b -> enter b n = Some (s, b3) -> good dark ({[s]} ∪ ∅) b3.
Proof.
  intros R%reach_ok E. unfold enter in E. destruct (admission b n) as [[r|] b1] eqn:Ea; [done|].
  destruct (alloc_order b1) as [[s2 b2]|] eqn:El; [|done]. injection E as <- <-.
  by destruct (opened_good dark ∅ b n b1 s2 b2 (proj1 R) Ea El).
Qed.
Definition queue_book : Book := played [lim SELL 8 10 1 1; lim SELL 8 20 2 2; lim SELL 8 5 3 3].
Definition queue_taker : Book := default queue_book (snd <$> enter queue_book (limit_order BUY 8 25 TIF_DAY 4 4)).
Lemma queue_good : good false ({[3]} ∪ ∅) queue_taker.
Proof.
  apply (enter_good false queue_book (limit_order BUY 8 25 TIF_DAY 4 4)); [apply played_reach; [reflexivity|]; vm_compute; by eexists|].
  unfold queue_taker. assert (A : fst <$> enter queue_book (limit_order BUY 8 25 TIF_DAY 4 4) = Some 3) by (vm_compute; reflexivity).
  destruct (enter _ _) as [[s b3]|]; [|done]. cbn in A |- *. by injection A as ->.
Qed.
Lemma queue_open : open_book queue_taker 8 3.
Proof.
  intros s Hs. unfold queued in Hs. assert (Q : queue (level_at queue_taker 8) = [0; 1; 2]) by (vm_compute; reflexivity). rewrite Q in Hs.
  apply elem_of_cons in Hs as [->|Hs]; [vm_compute; by split_and!|]. apply elem_of_cons in Hs as [->|Hs]; [vm_compute; by split_and!|].
  apply list_elem_of_singleton in Hs as ->. vm_compute. by split_and!.
Qed.
Definition queue_after : Book * Z := default (queue_book, 0) (match_at_level 9 queue_taker 8 3 (head (queue (level_at queue_taker 8))) 25 99).
Lemma ladder_modify_stop_corrupts_witness : exists b', modify 5 ex_book 4 0 3 = Some (4, None, b') /\
  total_qty (level_at b' 0) = i32 (total_qty (level_at ex_book 0) - 2).
Proof.
  destruct (ladder_modify_stop_corrupts false 5 ex_book 4 2 3 ex_reach) as (b' & E & _ & _ & T); [vm_compute; reflexivity|vm_compute; by left|vm_compute; by split|].
  exists b'. split; [exact E|exact T].
Defined.

(** ** Behaviours worth knowing

    With the policy that cancels the newest order, what is left of the taker
    still rests, and locks the book. *)
Example stp_newest_rests :
  let b := played [Configure (fun c => c <| stp_policy_ := STP_CANCEL_NEWEST |>); lim SELL 8 10 1 7; lim BUY 8 5 2 7] in
  (is_locked b, queue (level_at b 8)) = (true, [0; 1]).
Proof. vm_compute. reflexivity. Qed.
(** The policy that should decrement both orders lets them trade. *)
Example stp_decrement_trades :
  let b := played [Configure (fun c => c <| stp_policy_ := STP_DECREMENT_AND_CXL |>); lim SELL 8 10 1 7; lim BUY 8 5 2 7] in
  (total_fills (stats_ b), total_volume (stats_ b)) = (1, 5).
Proof. vm_compute. reflexivity. Qed.
(** An id given by the book may be one that a caller chose: the index then
    leads to the second order only. *)
Example automatic_id_collides :
  let b := played [lim BUY 3 5 1 1; lim BUY 2 5 0 1] in (active_orders_ b, (entries (id_index_ b)).*1, id_index_ b !! 1) = (2, [1], Some 1).
Proof. vm_compute. reflexivity. Qed.
(** A market order without liquidity rests at its price, which may lie outside
    of the grid. *)
Example market_rests_off_the_grid :
  let b := played [sized T_MARKET BUY 99 5 1 1 0] in (queue (level_at b 99), in_range 99, best_bid_ticks_ b) = ([0], false, 99).
Proof. vm_compute. reflexivity. Qed.
(** Moving an iceberg shows all of it. *)
Example modify_shows_the_iceberg :
  let b := played [sized T_ICEBERG SELL 8 30 2 2 10; Modify 2 7 30] in
  (total_qty (level_at b 7), total_hidden (level_at b 7)) = (30, 0).
Proof. vm_compute. reflexivity. Qed.
(** A pegged order that is gone leaves its slot in the list of pegs: the plain
    order that gets the slot is moved to the best bid. *)
Example stale_peg_moves_another :
  let b := played [lim BUY 5 1 1 1; SubmitPeg BUY (-1) 5 2 1 0; Cancel 2; lim BUY 2 7 3 3; RepricePegs] in
  o_price_ticks <$> find_order b 3 = Some 5.
Proof. vm_compute. reflexivity. Qed.
(** [submit] has no way to give an order its expiry, so none is ever due. *)
Example expiry_is_never_set :
  let b := played [Submit (limit_order BUY 5 1 TIF_GTD 1 1)] in (o_expire_ts_ns <$> find_order b 1, (expire_gtd b 18446744073709551615).1) = (Some 0, 0).
Proof. vm_compute. reflexivity. Qed.
