(* ===== verification/LadderWire.v ===== *)
(** * LadderWire: formats and the cross of the full order book

    A delta and a snapshot record read back as what was written; the auction
    price is the one that trades most. *)
From S2P Require Import Prelude Double Common Bytes LadderTypes LadderTrades LadderSamples Ladder LadderOps LadderReach.

(** ** Little-endian numbers *)

Lemma length_le_bytes n v : length (le_bytes n v) = n.
Proof. unfold le_bytes. by rewrite length_reverse, length_be_bytes. Qed.
Lemma le_value_bytes n v : le_value (le_bytes n v) = v mod 256 ^ Z.of_nat n.
Proof. unfold le_value, le_bytes. by rewrite reverse_involutive, be_value_bytes. Qed.
Lemma le_value_small n v : 0 <= v < 256 ^ Z.of_nat n -> le_value (le_bytes n v) = v.
Proof. intros H. rewrite le_value_bytes. by apply Z.mod_small. Qed.
Lemma le_value_i32 v : -2147483648 <= v <= 2147483647 -> i32 (le_value (le_bytes 4 (u32 v))) = v.
Proof.
  intros H. rewrite le_value_small; [|exact (u32_range v)]. etrans; [|by apply i32_small]. apply wraps_eqm; [lia|].
  unfold u32, wrapu. apply Z.mod_mod. lia.
Qed.
Definition fits32 (v : Z) : Prop := -2147483648 <= v <= 2147483647.
Definition fits64 (v : Z) : Prop := 0 <= v < 18446744073709551616.

(** ** Deltas *)

Record delta_ok (d : DeltaMessage) : Prop := {
  do_type : 0 <= dm_type d < 256; do_side : 0 <= dm_side d < 256; do_price : fits32 (dm_price_ticks d);
  do_qty : fits32 (dm_new_qty d); do_seq : fits64 (dm_sequence_no d) }.
Lemma delta_roundtrip d rest : delta_ok d -> deserialize_delta (serialize_delta d ++ rest) = Some d.
Proof.
  intros [T S P Q N]. unfold deserialize_delta, DELTA_WIRE_SIZE. destruct (Z.ltb_spec (alen (serialize_delta d ++ rest)) 18) as [L|_].
  { exfalso. unfold alen, serialize_delta in L. rewrite !length_app, !length_le_bytes in L. cbn in L. lia. }
  unfold serialize_delta. rewrite <- !app_assoc. set (a := le_bytes 4 (u32 (dm_price_ticks d))). set (q := le_bytes 4 _). set (s := le_bytes 8 _).
  assert (La : length a = 4%nat) by apply length_le_bytes. assert (Lq : length q = 4%nat) by apply length_le_bytes. assert (Ls : length s = 8%nat) by apply length_le_bytes.
  unfold byte_at at 1 2. cbn [app lookup list_lookup].
  assert (E1 : slice 2 4 (u8 (dm_type d) :: u8 (dm_side d) :: a ++ q ++ s ++ rest) = Some a).
  { change (u8 (dm_type d) :: u8 (dm_side d) :: a ++ q ++ s ++ rest) with ([u8 (dm_type d); u8 (dm_side d)] ++ a ++ q ++ s ++ rest).
    rewrite (slice_skip_n 2 4 _ _ 2 0) by done. by apply slice_here. }
  assert (E2 : slice 6 4 (u8 (dm_type d) :: u8 (dm_side d) :: a ++ q ++ s ++ rest) = Some q).
  { change (u8 (dm_type d) :: u8 (dm_side d) :: a ++ q ++ s ++ rest) with ([u8 (dm_type d); u8 (dm_side d)] ++ a ++ q ++ s ++ rest).
    rewrite (slice_skip_n 6 4 _ _ 2 4), (slice_skip_n 4 4 a _ 4 0) by done. by apply slice_here. }
  assert (E3 : slice 10 8 (u8 (dm_type d) :: u8 (dm_side d) :: a ++ q ++ s ++ rest) = Some s).
  { change (u8 (dm_type d) :: u8 (dm_side d) :: a ++ q ++ s ++ rest) with ([u8 (dm_type d); u8 (dm_side d)] ++ a ++ q ++ s ++ rest).
    rewrite (slice_skip_n 10 8 _ _ 2 8), (slice_skip_n 8 8 a _ 4 4), (slice_skip_n 4 8 q _ 4 0) by done. by apply slice_here. }
  cbn [mbind option_bind]. rewrite E1, E2, E3. cbn [mbind option_bind]. unfold a, q, s. rewrite !le_value_i32, le_value_small by done.
  rewrite !u8_small by lia. by destruct d.
Qed.

(** ** Snapshot records *)

(** What a record keeps of an order: not the cap of a peg, the mid at entry and
    the time of the first fill. *)
Definition recorded (o : Order) : Order := o <| o_peg_cap_ticks := 0 |> <| o_decision_mid_ticks := -1 |> <| o_first_fill_ts_ns := 0 |>.
Record record_ok (o : Order) : Prop := {
  rc_id : fits64 (o_id o); rc_client : fits64 (o_client_id o); rc_price : fits32 (o_price_ticks o); rc_total : fits32 (o_total_qty o);
  rc_filled : fits32 (o_filled_qty o); rc_shown : fits32 (o_displayed_qty o); rc_submit : fits64 (o_submit_ts_ns o);
  rc_expire : fits64 (o_expire_ts_ns o); rc_stop : fits32 (o_stop_trigger_ticks o); rc_peg : fits32 (o_peg_offset_ticks o);
  rc_ice : fits32 (o_iceberg_display_size o) }.
Lemma decode_side s : decode [BUY; SELL] (side_code s) = Some s.
Proof. by destruct s. Qed.
Lemma decode_type t : decode all_types (type_code t) = Some t.
Proof. by destruct t. Qed.
Lemma decode_tif t : decode all_tifs (tif_code t) = Some t.
Proof. by destruct t. Qed.
Lemma decode_status s : decode all_statuses (status_code s) = Some s.
Proof. by destruct s. Qed.
Lemma slice_after pre off n l : slice (length pre + off) n (pre ++ l) = slice off n l.
Proof. apply (slice_skip_n _ n pre l (length pre) off); done. Qed.
Lemma byte_after pre off l : byte_at (length pre + off) (pre ++ l) = byte_at off l.
Proof. apply (byte_at_skip_n _ pre l (length pre) off); done. Qed.
(** Walks over the fields in front of an offset. *)
Ltac fields := repeat first
  [ rewrite slice_here by apply length_le_bytes
  | match goal with |- context[slice ?o ?n (?x ++ ?l)] =>
      let k := match x with le_bytes ?k _ => k | _ => constr:(4%nat) end in
      let o' := eval cbv in (o - k)%nat in rewrite (slice_skip_n o n x l k o') by (first [apply length_le_bytes|reflexivity]) end
  | match goal with |- context[byte_at ?o (?x ++ ?l)] =>
      let k := match x with le_bytes ?k _ => k end in
      let o' := eval cbv in (o - k)%nat in rewrite (byte_at_skip_n o x l k o') by (first [apply length_le_bytes|reflexivity]) end ].
Lemma record_roundtrip pre o rest : record_ok o -> read_record (pre ++ record_bytes o ++ rest) (length pre) = Some (recorded o).
Proof.
  intros []. unfold read_record. rewrite !slice_after, !byte_after. unfold record_bytes. rewrite <- !app_assoc. fields.
  unfold byte_at. cbn [app lookup list_lookup mbind option_bind fmap option_fmap option_map].
  rewrite decode_side, decode_type, decode_tif, decode_status. cbn [mbind option_bind]. rewrite !le_value_i32, !le_value_small by done. by destruct o.
Qed.
Lemma length_record_bytes o : length (record_bytes o) = RECORD_SIZE.
Proof. unfold record_bytes. rewrite !length_app, !length_le_bytes. reflexivity. Qed.
(** every record of a snapshot reads back, at its place, as the order that
    was written, but for the three fields that a record leaves out. *)
Lemma ladder_records_roundtrip pre os i o rest : Forall record_ok os -> os !! i = Some o ->
  read_record (pre ++ concat (map record_bytes os) ++ rest) (length pre + i * RECORD_SIZE) = Some (recorded o).
Proof.
  intros H E. pose proof (take_drop_middle os i o E) as S. rewrite Forall_forall in H. specialize (H o ltac:(by eapply list_elem_of_lookup_2)).
  rewrite <- S, map_app, concat_app. cbn [map concat]. rewrite <- !app_assoc, (app_assoc pre).
  assert (L : (length pre + i * RECORD_SIZE)%nat = length (pre ++ concat (map record_bytes (take i os)))).
  { rewrite length_app. f_equal. apply lookup_lt_Some in E. assert (G : forall l, length (concat (map record_bytes l)) = (length l * RECORD_SIZE)%nat).
    { clear. induction l as [|x l IH]; [done|]. cbn [map concat]. rewrite length_app, length_record_bytes, IH. cbn [length]. lia. }
    rewrite G, length_take. f_equal. lia. }
  rewrite L. by apply record_roundtrip.
Qed.

(** ** The cross *)

Section auction.
Context {env : BookEnv}.
Implicit Types b : Book.

(** What a price would trade, and what it would leave over. *)
Definition crossable b (p : Z) : Z := Z.min (cum_bid b (auction_hi b) p) (cum_ask b (auction_lo b) p).
Definition unbalance b (p : Z) : Z := Z.abs (i32 (cum_bid b (auction_hi b) p - cum_ask b (auction_lo b) p)).
Definition best_of b (seen : list Z) (acc : Z * Z * Z * AuctionResult) : Prop :=
  let '(p, m, im, r) := acc in
  (forall q, q ∈ seen -> crossable b q <= m /\ (crossable b q = m -> im <= unbalance b q)) /\
  (m = -1 \/ p ∈ seen /\ m = crossable b p /\ im = unbalance b p /\
     surplus_bid_qty r = i32 (cum_bid b (auction_hi b) p - m) /\ surplus_ask_qty r = i32 (cum_ask b (auction_lo b) p - m)) /\ executed r = false.
Lemma auction_step_best b seen acc p : best_of b seen acc -> best_of b (seen ++ [p]) (auction_step b (auction_lo b) (auction_hi b) acc p).
Proof.
  destruct acc as [[[p0 m] im] r]. intros (H & A & X). unfold auction_step. fold (crossable b p). fold (unbalance b p). cbv zeta.
  destruct (_ || _) eqn:C; bsplit.
  - split_and!.
    + intros q [Hq| ->%list_elem_of_singleton]%elem_of_app; [|by split]. destruct (H q Hq) as [H1 H2].
      destruct (Z.ltb_spec m (crossable b p)); [split; [lia|lia]|]. cbn in C. bsplit. assert (crossable b p = m) by lia. split; [lia|]. intros E. specialize (H2 ltac:(lia)). lia.
    + right. split_and!; try done. apply elem_of_app. right. by left.
    + exact X.
  - split_and!; [|destruct A as [?|[? ?]]; [by left|right; split; [apply elem_of_app; by left|done]]|exact X].
    intros q [Hq| ->%list_elem_of_singleton]%elem_of_app; [by apply H|]. split; [lia|]. intros E.
    match goal with Hx : (_ =? m) && _ = false |- _ => rewrite E, Z.eqb_refl in Hx; cbn in Hx end. lia.
Qed.
Lemma auction_fold_best b l seen acc : best_of b seen acc -> best_of b (seen ++ l) (foldl (auction_step b (auction_lo b) (auction_hi b)) acc l).
Proof.
  revert seen acc. induction l as [|p l IH]; intros seen acc H; [by rewrite app_nil_r|]. cbn [foldl].
  rewrite (cons_middle p seen l). rewrite app_assoc. by apply IH, auction_step_best.
Qed.
Lemma price_span_elem lo hi p : p ∈ price_span lo hi <-> lo <= p <= hi.
Proof.
  unfold price_span. change (map ?f) with (fmap (M:=list) f). rewrite list_elem_of_fmap. split.
  - intros (i & -> & Hi%elem_of_seq). lia.
  - intros H. exists (Z.to_nat (p - lo)). rewrite elem_of_seq. lia.
Qed.
End auction.

(** ** Examples *)

#[local] Existing Instance small_env.
Definition cross_book : Book := played [Configure (fun c => c <| in_auction_mode_ := true |>); lim BUY 9 10 1 1; lim SELL 7 6 2 2; lim SELL 8 3 3 3].
Lemma ladder_records_roundtrip_witness : Forall record_ok [order_at cross_book 0; order_at cross_book 1] /\
  read_record ([] ++ concat (map record_bytes [order_at cross_book 0; order_at cross_book 1]) ++ []) (length (@nil Z) + 1 * RECORD_SIZE) = Some (recorded (order_at cross_book 1)).
Proof.
  assert (F : Forall record_ok [order_at cross_book 0; order_at cross_book 1]).
  { apply Forall_cons. split; [constructor; vm_compute; split; try discriminate; reflexivity|].
    apply Forall_cons. split; [constructor; vm_compute; split; try discriminate; reflexivity|by apply Forall_nil]. }
  split; [exact F|]. by apply (ladder_records_roundtrip [] _ 1 (order_at cross_book 1) [] F).
Defined.
