(* ===== verification/Mpmc.v ===== *)
(** * Mpmc: the multi-producer queues

    [lockfree/mpmc_queue.hpp] and [lockfree/mpsc_queue.hpp].  Both keep a
    sequence number per cell that says whose turn the cell is: position [n] of
    the queue is pushed while the cell of [n mod SIZE] holds [n], popped while
    it holds [n + 1], and the pop leaves [n + SIZE].  [push] and [pop] are
    given as the programs a thread runs, one atomic access (or one plain access
    of a cell's data) per step: [produce] and [consume] take the shared queue
    and the thread's local state to the queue and what the thread does next.
    Any number of threads interleave their steps, sequentially consistently;
    a compare-and-swap may fail spuriously, as the code's weak one does.
    [consume_single] is the [pop] of the single-consumer class, which shares
    [push] with the other.

    Positions are 64-bit words.  The theorems about reachable states ask that
    fewer than 2^63 pushes were made: a thread that sleeps while the counters
    go once around would not notice. *)
From stdpp Require Import functions.
From S2P Require Import Prelude.

Section mpmc.
Context {T : Type} (zero : T) (k : nat).

Definition SIZE : Z := 2 ^ Z.of_nat k.

Record Cell := mkCell { seq : Z; data : T }.
#[local] Instance eta_cell : Settable Cell := fun c => mkCell (seq c) (data c).
Record Queue := mkQueue { buffer_ : list Cell; head_ : Z; tail_ : Z }.
#[local] Instance eta_queue : Settable Queue := fun q => mkQueue (buffer_ q) (head_ q) (tail_ q).

(** [buffer_[pos & MASK]] *)
Definition index (pos : Z) : nat := Z.to_nat (Z.land pos (SIZE - 1)).
Definition cell (q : Queue) (pos : Z) : Cell := default (mkCell 0 zero) (buffer_ q !! index pos).
Definition put_data (q : Queue) (pos : Z) (x : T) : Queue :=
  q <| buffer_ ::= alter (fun c => c <| data := x |>) (index pos) |>.
Definition put_seq (q : Queue) (pos s : Z) : Queue :=
  q <| buffer_ ::= alter (fun c => c <| seq := s |>) (index pos) |>.

(** The constructor: every cell's number is its index, its data value-initialised. *)
Definition new_queue : Queue := mkQueue ((fun i => mkCell i zero) <$> seqZ 0 SIZE) 0 0.

(** The local state of a thread inside [push]: about to load [head_]; at the
    top of the loop; the cell's number loaded; the position claimed; the item
    written. *)
Inductive producer :=
| P_load (item : T)
| P_top (item : T) (pos : Z)
| P_check (item : T) (pos s : Z)
| P_write (item : T) (pos : Z)
| P_publish (item : T) (pos : Z).

(** One step of [push]: the queue and the next local state, or the returned
    value.  [weak] makes a compare-and-swap fail spuriously; a failed one loads
    [head_] into [pos]. *)
Definition produce (weak : bool) (q : Queue) (p : producer) : Queue * (producer + bool) :=
  match p with
  | P_load item => (q, inl (P_top item (head_ q)))
  | P_top item pos => (q, inl (P_check item pos (seq (cell q pos))))
  | P_check item pos s =>
      let diff := i64 (i64 s - i64 pos) in
      if diff =? 0 then
        if (head_ q =? pos) && negb weak then (q <| head_ := u64 (pos + 1) |>, inl (P_write item pos))
        else (q, inl (P_top item (head_ q)))
      else if diff <? 0 then (q, inr false)
      else (q, inl (P_load item))
  | P_write item pos => (put_data q pos item, inl (P_publish item pos))
  | P_publish item pos => (put_seq q pos (u64 (pos + 1)), inr true)
  end.

(** The same for [pop]: the item is copied out of the claimed cell, then the
    cell is released. *)
Inductive consumer :=
| C_load
| C_top (pos : Z)
| C_check (pos s : Z)
| C_copy (pos : Z)
| C_free (pos : Z) (v : T).

Definition consume (weak : bool) (q : Queue) (c : consumer) : Queue * (consumer + option T) :=
  match c with
  | C_load => (q, inl (C_top (tail_ q)))
  | C_top pos => (q, inl (C_check pos (seq (cell q pos))))
  | C_check pos s =>
      let diff := i64 (i64 s - i64 (u64 (pos + 1))) in
      if diff =? 0 then
        if (tail_ q =? pos) && negb weak then (q <| tail_ := u64 (pos + 1) |>, inl (C_copy pos))
        else (q, inl (C_top (tail_ q)))
      else if diff <? 0 then (q, inr None)
      else (q, inl C_load)
  | C_copy pos => (q, inl (C_free pos (data (cell q pos))))
  | C_free pos v => (put_seq q pos (u64 (pos + SIZE)), inr (Some v))
  end.

(** [pop] of the single-consumer class: [tail_] is stored last. *)
Inductive single :=
| S_load
| S_top (pos : Z)
| S_check (pos s : Z)
| S_copy (pos : Z)
| S_free (pos : Z) (v : T)
| S_tail (pos : Z) (v : T).

Definition consume_single (q : Queue) (c : single) : Queue * (single + option T) :=
  match c with
  | S_load => (q, inl (S_top (tail_ q)))
  | S_top pos => (q, inl (S_check pos (seq (cell q pos))))
  | S_check pos s =>
      let diff := i64 (i64 s - i64 (u64 (pos + 1))) in
      if diff =? 0 then (q, inl (S_copy pos)) else (q, inr None)
  | S_copy pos => (q, inl (S_free pos (data (cell q pos))))
  | S_free pos v => (put_seq q pos (u64 (pos + SIZE)), inl (S_tail pos v))
  | S_tail pos v => (q <| tail_ := u64 (pos + 1) |>, inr (Some v))
  end.

Definition empty (q : Queue) : bool := negb (seq (cell q (tail_ q)) =? u64 (tail_ q + 1)).
Definition capacity : Z := SIZE.

(** A call that runs alone: steps until the program returns. *)
Fixpoint run {P R} (next : Queue -> P -> Queue * (P + R)) (fuel : nat) (q : Queue) (p : P) : option (Queue * R) :=
  match fuel with
  | O => None
  | S fuel =>
      match next q p with
      | (q', inl p') => run next fuel q' p'
      | (q', inr r) => Some (q', r)
      end
  end.
Definition push (fuel : nat) (q : Queue) (item : T) : option (Queue * bool) := run (produce false) fuel q (P_load item).
Definition pop (fuel : nat) (q : Queue) : option (Queue * option T) := run (consume false) fuel q C_load.
(** The single-consumer class has the same [push] and [empty]. *)
Definition push_single (fuel : nat) (q : Queue) (item : T) : option (Queue * bool) := push fuel q item.
Definition empty_single (q : Queue) : bool := empty q.
Definition pop_single (fuel : nat) (q : Queue) : option (Queue * option T) := run consume_single fuel q S_load.

(** ** Threads

    [prods i] is thread [i]'s call of [push], if it is in one.  Three logs are
    kept: [claimed], the items in the order their positions were claimed;
    [taken], the number of positions consumers claimed; [recv], position and
    item of the pops that returned one. *)
Record config := mkConfig {
  ring : Queue; prods : nat -> option producer; conss : nat -> option consumer;
  claimed : list T; taken : Z; recv : list (Z * T)
}.

Definition claims (r : producer + bool) : list T :=
  match r with inl (P_write item _) => [item] | _ => [] end.
Definition takes (r : consumer + option T) : Z :=
  match r with inl (C_copy _) => 1 | _ => 0 end.
Definition returns (c : consumer) : list (Z * T) :=
  match c with C_free pos v => [(pos, v)] | _ => [] end.
Definition going {P R} (r : P + R) : option P := match r with inl p => Some p | inr _ => None end.

Inductive step : config -> config -> Prop :=
| call_push i item q P C cl t r :
    P i = None -> step (mkConfig q P C cl t r) (mkConfig q (<[i := Some (P_load item)]> P) C cl t r)
| step_push i weak p q P C cl t r q' o :
    P i = Some p -> produce weak q p = (q', o) ->
    step (mkConfig q P C cl t r) (mkConfig q' (<[i := going o]> P) C (cl ++ claims o) t r)
| call_pop i q P C cl t r :
    C i = None -> step (mkConfig q P C cl t r) (mkConfig q P (<[i := Some C_load]> C) cl t r)
| step_pop i weak c q P C cl t r q' o :
    C i = Some c -> consume weak q c = (q', o) ->
    step (mkConfig q P C cl t r) (mkConfig q' P (<[i := going o]> C) cl (t + takes o) (r ++ returns c)).

Definition initial : config := mkConfig new_queue (fun _ => None) (fun _ => None) [] 0 [].

(** ** Slots *)

Context (two : (1 <= k)%nat).

Lemma SIZE_two : 2 <= SIZE.
Proof. unfold SIZE. change 2 with (2 ^ 1) at 1. apply Z.pow_le_mono_r; lia. Qed.
#[local] Ltac size := pose proof SIZE_two.
#[local] Ltac fields := unfold set_field; cbn.
Lemma mpmc_index_mod n : index n = Z.to_nat (n mod SIZE).
Proof. unfold index, SIZE. by rewrite land_ones_mod by lia. Qed.
Lemma index_same n m : index n = index m <-> n mod SIZE = m mod SIZE.
Proof.
  size. rewrite !mpmc_index_mod. pose proof (Z.mod_pos_bound n SIZE). pose proof (Z.mod_pos_bound m SIZE). lia.
Qed.
(** Two positions closer than [SIZE] share a cell only when they are equal. *)
Lemma near n m : n mod SIZE = m mod SIZE -> - SIZE < n - m < SIZE -> n = m.
Proof.
  size. intros E L. pose proof (Z.div_mod n SIZE ltac:(lia)). pose proof (Z.div_mod m SIZE ltac:(lia)).
  assert (n / SIZE = m / SIZE) by nia. congruence.
Qed.
Lemma shifted n : (n + SIZE) mod SIZE = n mod SIZE.
Proof. size. rewrite <- (Z.mul_1_l SIZE) at 1. apply Z_mod_plus_full. Qed.
(** A position at or past [n] that shares its cell is [n] or a lap later. *)
Lemma laps n m : n mod SIZE = m mod SIZE -> n = m \/ n + SIZE <= m \/ m + SIZE <= n.
Proof. intros E. destruct (decide (- SIZE < n - m < SIZE)); [left; by apply near|lia]. Qed.

Lemma cell_mod q n m : n mod SIZE = m mod SIZE -> cell q n = cell q m.
Proof. intros E%index_same. unfold cell. by rewrite E. Qed.

(** ** The invariant *)

(** A cell awaits the push of its next position [n], or holds the item of [n].
    The position a lap before was popped, the position a lap later is not
    claimed yet. *)
Definition cell_ok (q : Queue) (cl : list T) (t n : Z) : Prop :=
  0 <= n /\ n - SIZE < t /\ alen cl <= n + SIZE /\
  (seq (cell q n) = n \/ seq (cell q n) = n + 1 /\ n < alen cl /\ cl !! Z.to_nat n = Some (data (cell q n))).

Record ring_ok (q : Queue) (cl : list T) (t : Z) : Prop := {
  ring_len : alen (buffer_ q) = SIZE;
  ring_head : head_ q = alen cl;
  ring_tail : tail_ q = t;
  ring_order : 0 <= t <= alen cl;
  ring_cells : forall x, exists n, n mod SIZE = x mod SIZE /\ cell_ok q cl t n
}.

(** What a thread knows at its program counter. *)
Definition producer_ok (q : Queue) (cl : list T) (p : producer) : Prop :=
  match p with
  | P_load _ => True
  | P_top _ pos => 0 <= pos <= alen cl
  | P_check _ pos s => 0 <= pos <= alen cl /\ 0 <= s <= seq (cell q pos)
  | P_write item pos => 0 <= pos /\ cl !! Z.to_nat pos = Some item /\ seq (cell q pos) = pos
  | P_publish item pos => 0 <= pos /\ cl !! Z.to_nat pos = Some item /\ seq (cell q pos) = pos /\ data (cell q pos) = item
  end.
Definition consumer_ok (q : Queue) (cl : list T) (t : Z) (c : consumer) : Prop :=
  match c with
  | C_load => True
  | C_top pos => 0 <= pos <= t
  | C_check pos s => 0 <= pos <= t /\ 0 <= s <= seq (cell q pos)
  | C_copy pos => 0 <= pos < t /\ seq (cell q pos) = pos + 1
  | C_free pos v => 0 <= pos < t /\ seq (cell q pos) = pos + 1 /\ cl !! Z.to_nat pos = Some v
  end.
(** The position whose cell a thread owns. *)
Definition pushing (p : producer) : option Z :=
  match p with P_write _ pos | P_publish _ pos => Some pos | _ => None end.
Definition popping (c : consumer) : option Z :=
  match c with C_copy pos | C_free pos _ => Some pos | _ => None end.

Record config_ok (c : config) : Prop := {
  ok_ring : ring_ok (ring c) (claimed c) (taken c);
  ok_prods : forall i p, prods c i = Some p -> producer_ok (ring c) (claimed c) p;
  ok_conss : forall i p, conss c i = Some p -> consumer_ok (ring c) (claimed c) (taken c) p;
  ok_push_one : forall i j n, prods c i ≫= pushing = Some n -> prods c j ≫= pushing = Some n -> i = j;
  ok_pop_one : forall i j n, conss c i ≫= popping = Some n -> conss c j ≫= popping = Some n -> i = j;
  ok_pushed : forall n, 0 <= n < alen (claimed c) -> n < seq (cell (ring c) n) \/ exists i, prods c i ≫= pushing = Some n;
  ok_recv : forall n v, (n, v) ∈ recv c -> 0 <= n < taken c /\ claimed c !! Z.to_nat n = Some v /\ n + SIZE <= seq (cell (ring c) n);
  ok_once : NoDup (recv c).*1;
  ok_popped : forall n, 0 <= n < taken c -> n ∈ (recv c).*1 \/ exists i, conss c i ≫= popping = Some n
}.

(** ** Cells after a write *)

Lemma cell_alter q f n pos : alen (buffer_ q) = SIZE ->
  cell (q <| buffer_ ::= alter f (index pos) |>) n = if decide (n mod SIZE = pos mod SIZE) then f (cell q n) else cell q n.
Proof.
  intros L. size. unfold cell. fields. destruct (decide (n mod SIZE = pos mod SIZE)) as [E|N].
  - apply index_same in E. rewrite E, list_lookup_alter_eq. destruct (buffer_ q !! index pos) eqn:X; [done|].
    apply lookup_ge_None in X. unfold alen in L. rewrite mpmc_index_mod in X. pose proof (Z.mod_pos_bound pos SIZE). lia.
  - rewrite list_lookup_alter_ne; [done|]. intros E. by apply N, index_same.
Qed.
Lemma cell_put_data q n pos x : alen (buffer_ q) = SIZE ->
  cell (put_data q pos x) n = if decide (n mod SIZE = pos mod SIZE) then cell q n <| data := x |> else cell q n.
Proof. apply cell_alter. Qed.
Lemma cell_put_seq q n pos s : alen (buffer_ q) = SIZE ->
  cell (put_seq q pos s) n = if decide (n mod SIZE = pos mod SIZE) then cell q n <| seq := s |> else cell q n.
Proof. apply cell_alter. Qed.
Lemma seq_put_data q n pos x : alen (buffer_ q) = SIZE -> seq (cell (put_data q pos x) n) = seq (cell q n).
Proof. intros L. rewrite cell_put_data by done. by destruct (decide _). Qed.

Lemma alen_snoc (l : list T) x : alen (l ++ [x]) = alen l + 1.
Proof. by rewrite alen_app. Qed.

(** ** The moves of the ring *)

(** At the head a number that is not behind is the head's own. *)
Lemma claim_free q cl t : ring_ok q cl t -> alen cl <= seq (cell q (alen cl)) -> seq (cell q (alen cl)) = alen cl.
Proof.
  intros R G. size. destruct (ring_order _ _ _ R). destruct (ring_cells _ _ _ R (alen cl)) as (n & E & ? & ? & ? & C).
  rewrite (cell_mod q (alen cl) n) in * by done. destruct (laps n (alen cl) E); lia.
Qed.
(** At the tail one that is not behind says that the item is there. *)
Lemma take_full q cl t : ring_ok q cl t -> t + 1 <= seq (cell q t) ->
  seq (cell q t) = t + 1 /\ t < alen cl /\ cl !! Z.to_nat t = Some (data (cell q t)).
Proof.
  intros R G. size. destruct (ring_order _ _ _ R). destruct (ring_cells _ _ _ R t) as (n & E & ? & ? & ? & C).
  destruct (laps n t E) as [->|?]; [destruct C as [?|?]; [lia|tauto]|]. rewrite (cell_mod q t n) in * by done. lia.
Qed.
(** Nothing is ahead of the head by a lap, or of the tail by an item. *)
Lemma seq_bounds q cl t n : ring_ok q cl t -> 0 <= seq (cell q n) < alen cl + SIZE + 1.
Proof.
  intros R. size. destruct (ring_order _ _ _ R). destruct (ring_cells _ _ _ R n) as (m & E & ? & ? & ? & C).
  rewrite (cell_mod q n m) by done. lia.
Qed.
Lemma tail_seq q cl t : ring_ok q cl t -> seq (cell q t) <= t + 1.
Proof. intros R. destruct (Z.leb_spec (seq (cell q t)) t); [lia|]. destruct (take_full q cl t R); lia. Qed.

(** No more than [SIZE] items are in the queue. *)
Lemma ring_room q cl t : ring_ok q cl t -> alen cl - t <= SIZE.
Proof. intros R. size. destruct (ring_cells _ _ _ R t) as (n & E & ? & ? & ? & _). destruct (laps n t E); lia. Qed.

Lemma ring_claim q cl t item : ring_ok q cl t -> seq (cell q (alen cl)) = alen cl ->
  ring_ok (q <| head_ := alen cl + 1 |>) (cl ++ [item]) t.
Proof.
  intros R G. size. destruct R as [L Hd Tl O C]. split; fields; [done|by rewrite alen_snoc|done|rewrite alen_snoc; lia|].
  intros x. destruct (C x) as (n & E & ? & ? & ? & D). exists n. split; [done|]. unfold cell_ok. rewrite alen_snoc.
  change (cell (mkQueue _ _ _) n) with (cell q n). split_and!; [done|done| |].
  - destruct (decide (alen cl = n + SIZE)) as [e|]; [|lia]. exfalso.
    rewrite (cell_mod q (alen cl) n) in G by (rewrite e; apply shifted). lia.
  - destruct D as [?|(? & ? & D)]; [by left|]. right. split_and!; [done|lia|]. rewrite lookup_app_l; [done|]. by eapply lookup_lt_Some.
Qed.
Lemma ring_take q cl t : ring_ok q cl t -> t < alen cl -> ring_ok (q <| tail_ := t + 1 |>) cl (t + 1).
Proof.
  intros [L Hd Tl O C] G. split; fields; [done|done|done|lia|]. intros x. destruct (C x) as (n & E & ? & ? & ? & D).
  exists n. split; [done|]. split_and!; [done|lia|lia|]. exact D.
Qed.
(** An owned cell's number is that of its position. *)
Lemma owned q cl t pos n d : ring_ok q cl t -> 0 <= d <= 1 -> seq (cell q pos) = pos + d -> n mod SIZE = pos mod SIZE ->
  cell_ok q cl t n -> n = pos.
Proof.
  intros R D S E (_ & _ & _ & C). size. apply near; [done|]. rewrite (cell_mod q n pos) in C by done. lia.
Qed.
Lemma ring_write q cl t pos x : ring_ok q cl t -> seq (cell q pos) = pos -> ring_ok (put_data q pos x) cl t.
Proof.
  intros R S. pose proof R as [L Hd Tl O C]. split; [|done|done|done|].
  - unfold put_data, alen. fields. by rewrite length_alter.
  - intros y. destruct (C y) as (n & E & K). exists n. split; [done|].
    destruct (decide (n mod SIZE = pos mod SIZE)) as [M|M].
    + assert (n = pos) as -> by (eapply (owned q cl t pos n 0); [done|lia|lia|done|done]).
      destruct K as (? & ? & ? & _). unfold cell_ok. split_and!; [done|done|done|]. left. by rewrite seq_put_data.
    + destruct K as (? & ? & ? & K). unfold cell_ok. split_and!; [done|done|done|]. rewrite cell_put_data, decide_False by done. exact K.
Qed.
(** Renumbering an owned cell: to its item, or to the next lap. *)
Lemma ring_renumber q cl t pos d s : ring_ok q cl t -> 0 <= d <= 1 -> seq (cell q pos) = pos + d ->
  (exists n, n mod SIZE = pos mod SIZE /\ cell_ok (put_seq q pos s) cl t n) -> ring_ok (put_seq q pos s) cl t.
Proof.
  intros R D S (m & Em & Km). pose proof R as [L Hd Tl O C]. split; [|done|done|done|].
  - unfold put_seq, alen. fields. by rewrite length_alter.
  - intros y. destruct (decide (y mod SIZE = pos mod SIZE)) as [M|M]; [exists m; split; [congruence|done]|].
    destruct (C y) as (n & E & ? & ? & ? & K). exists n. split; [done|]. unfold cell_ok. split_and!; [done|done|done|].
    rewrite cell_put_seq, decide_False by (done || congruence). exact K.
Qed.
Lemma ring_publish q cl t pos : ring_ok q cl t -> 0 <= pos -> seq (cell q pos) = pos -> cl !! Z.to_nat pos = Some (data (cell q pos)) ->
  ring_ok (put_seq q pos (pos + 1)) cl t.
Proof.
  intros R P S D. size. pose proof (ring_len _ _ _ R) as L. apply ring_renumber with (d := 0); [done|lia|lia|]. exists pos. split; [done|].
  destruct (ring_cells _ _ _ R pos) as (n & E & K). assert (n = pos) as -> by (eapply (owned q cl t pos n 0); [done|lia|lia|done|done]).
  destruct K as (? & ? & ? & _). unfold cell_ok. split_and!; [done|done|done|]. right. rewrite cell_put_seq, decide_True by done. fields.
  split_and!; [done| |done]. apply lookup_lt_Some in D. unfold alen. lia.
Qed.
Lemma ring_free q cl t pos : ring_ok q cl t -> 0 <= pos < t -> seq (cell q pos) = pos + 1 -> ring_ok (put_seq q pos (pos + SIZE)) cl t.
Proof.
  intros R P S. size. pose proof (ring_len _ _ _ R) as L. apply ring_renumber with (d := 1); [done|lia|lia|].
  exists (pos + SIZE). split; [apply shifted|].
  destruct (ring_cells _ _ _ R pos) as (n & E & K). assert (n = pos) as -> by (eapply (owned q cl t pos n 1); [done|lia|lia|done|done]).
  destruct K as (? & ? & ? & _). unfold cell_ok. split_and!; [lia|lia|lia|]. left.
  rewrite cell_put_seq, decide_True by (done || apply shifted). done.
Qed.

(** ** The moves of a thread *)

Lemma pushing_at q cl p n : producer_ok q cl p -> pushing p = Some n -> 0 <= n < alen cl /\ seq (cell q n) = n.
Proof. destruct p; cbn; intros K [= ->]; destruct K as (? & L & K); apply lookup_lt_Some in L; unfold alen; (split; [lia|tauto]). Qed.
Lemma popping_at q cl t c n : consumer_ok q cl t c -> popping c = Some n -> 0 <= n < t /\ seq (cell q n) = n + 1.
Proof. destruct c; cbn; intros K [= ->]; tauto. Qed.
Lemma producer_mono q q' cl cl' p :
  producer_ok q cl p -> cl `prefix_of` cl' -> (forall n, seq (cell q n) <= seq (cell q' n)) ->
  (forall n, pushing p = Some n -> cell q' n = cell q n) -> producer_ok q' cl' p.
Proof.
  intros K Pr M E. assert (A : alen cl <= alen cl') by (apply prefix_length in Pr; unfold alen; lia).
  destruct p as [|? pos|? pos s|? pos|? pos]; cbn in *; try done; try lia; try (pose proof (M pos); lia);
    rewrite (E pos) by done; destruct K as (? & K & ?); (split_and!; [done|by eapply prefix_lookup_Some|tauto..]).
Qed.
Lemma consumer_mono q q' cl cl' t t' c :
  consumer_ok q cl t c -> cl `prefix_of` cl' -> t <= t' -> (forall n, seq (cell q n) <= seq (cell q' n)) ->
  (forall n, popping c = Some n -> cell q' n = cell q n) -> consumer_ok q' cl' t' c.
Proof.
  intros K Pr Ht M E. destruct c as [|pos|pos s|pos|pos v]; cbn in *; try done; try lia; try (pose proof (M pos); lia);
    rewrite (E pos) by done; [lia|]. destruct K as (? & ? & K). split_and!; [lia|lia|done|by eapply prefix_lookup_Some].
Qed.

(** At most the cell of [pos] differs. *)
Definition touches (own : option Z) (q q' : Queue) : Prop :=
  (forall n, cell q' n = cell q n) \/ exists pos, own = Some pos /\ forall n, n mod SIZE <> pos mod SIZE -> cell q' n = cell q n.

Lemma touches_other own q q' d e n : touches own q q' ->
  (forall pos, own = Some pos -> seq (cell q pos) = pos + d) -> seq (cell q n) = n + e -> 0 <= d <= 1 -> 0 <= e <= 1 ->
  own <> Some n -> cell q' n = cell q n.
Proof.
  intros [A|(pos & -> & A)] D S Hd He N; [done|]. apply A. intros E. specialize (D pos eq_refl). size.
  rewrite (cell_mod q n pos) in S by done. apply N. f_equal. symmetry. apply near; [done|lia].
Qed.

Lemma bind_insert {A} (P : nat -> option A) i j x (f : A -> option Z) n :
  <[i := x]> P j ≫= f = Some n <-> (j = i /\ x ≫= f = Some n) \/ (j <> i /\ P j ≫= f = Some n).
Proof. destruct (decide (j = i)) as [->|N]; [rewrite fn_lookup_insert|rewrite fn_lookup_insert_ne by done]; naive_solver. Qed.
Lemma bind_owner {A} (P : nat -> option A) i (f : A -> option Z) n : P i ≫= f = Some n -> exists p, P i = Some p /\ f p = Some n.
Proof. destruct (P i) as [p|]; [|done]. intros. by exists p. Qed.

(** A producer's step, from what it does to the ring. *)
Lemma prod_move q q' P C cl cl' t r i (own : option Z) (o : option producer) :
  config_ok (mkConfig q P C cl t r) -> P i ≫= pushing = own -> ring_ok q' cl' t -> cl `prefix_of` cl' ->
  (forall n, seq (cell q n) <= seq (cell q' n)) -> touches (own) q q' ->
  (forall p', o = Some p' -> producer_ok q' cl' p') ->
  (forall n, o ≫= pushing = Some n -> own = Some n \/ n = alen cl) ->
  (forall n, 0 <= n < alen cl' -> n < alen cl \/ o ≫= pushing = Some n) ->
  (forall n, own = Some n -> o ≫= pushing = Some n \/ n < seq (cell q' n)) ->
  config_ok (mkConfig q' (<[i := o]> P) C cl' t r).
Proof.
  intros [R OP OC U1 U2 Pd Rc On Po] Hi R' Pr M Tc Ho New All Rel. cbn in *.
  assert (Ow : forall pos, own = Some pos -> seq (cell q pos) = pos + 0).
  { intros pos E'. rewrite <- Hi in E'. apply bind_owner in E' as (p & Hp & E). destruct (pushing_at _ _ _ _ (OP i p Hp) E). lia. }
  assert (Oth : forall j n, j <> i -> P j ≫= pushing = Some n -> cell q' n = cell q n /\ n <> alen cl /\ own <> Some n).
  { intros j n Nj E. pose proof E as (pj & Hj & Ej)%bind_owner. destruct (pushing_at _ _ _ _ (OP j pj Hj) Ej).
    assert (own <> Some n) by (intros X; apply Nj, (U1 j i n); [done|by rewrite Hi]).
    split_and!; [|lia|done]. eapply (touches_other _ q q' 0 0); [done|done|lia|lia|lia|done]. }
  split; cbn.
  - done.
  - intros j pj. destruct (decide (j = i)) as [->|N]; [rewrite fn_lookup_insert; apply Ho|].
    rewrite fn_lookup_insert_ne by done. intros Hj. eapply producer_mono; [by apply (OP j)|done|done|].
    intros n E. apply (Oth j n N). by rewrite Hj.
  - intros j c Hj. eapply consumer_mono; [by apply (OC j)|done|lia|done|]. intros n E.
    destruct (popping_at _ _ _ _ _ (OC j c Hj) E). eapply (touches_other _ q q' 0 1); [done|done|lia|lia|lia|].
    intros X. specialize (Ow n X). lia.
  - intros a b n [(-> & A)|(Na & A)]%bind_insert [(-> & B)|(Nb & B)]%bind_insert; [done| | |by eapply U1].
    + destruct (Oth b n Nb B) as (_ & ? & ?). by destruct (New n A).
    + destruct (Oth a n Na A) as (_ & ? & ?). by destruct (New n B).
  - done.
  - intros n Hn. destruct (All n Hn) as [Hl|Hl]; [|right; exists i; apply bind_insert; by left].
    destruct (Pd n ltac:(lia)) as [L|[j Hj]]; [left; pose proof (M n); lia|].
    destruct (decide (j = i)) as [->|Nj]; [|right; exists j; apply bind_insert; by right].
    destruct (Rel n ltac:(by rewrite <- Hi)) as [E|?]; [|by left]. right. exists i. apply bind_insert. by left.
  - intros n v H. destruct (Rc n v H) as (? & L & ?). pose proof (M n). split_and!; [lia|lia|by eapply prefix_lookup_Some|lia].
  - done.
  - done.
Qed.

(** A consumer's step. *)
Lemma cons_move q q' P C cl t t' r r' i (own : option Z) (o : option consumer) :
  config_ok (mkConfig q P C cl t r) -> C i ≫= popping = own -> ring_ok q' cl t' -> t <= t' ->
  (forall n, seq (cell q n) <= seq (cell q' n)) -> touches (own) q q' ->
  (forall c', o = Some c' -> consumer_ok q' cl t' c') ->
  (forall n, o ≫= popping = Some n -> own = Some n \/ n = t) ->
  (forall n, 0 <= n < t' -> n < t \/ o ≫= popping = Some n) ->
  (forall n, own = Some n -> o ≫= popping = Some n \/ n ∈ r'.*1) ->
  (r' = r \/ exists n v, r' = r ++ [(n, v)] /\ own = Some n /\ cl !! Z.to_nat n = Some v /\ n + SIZE <= seq (cell q' n)) ->
  config_ok (mkConfig q' P (<[i := o]> C) cl t' r').
Proof.
  intros [R OP OC U1 U2 Pd Rc On Po] Hi R' Ht M Tc Ho New All Rel Rr. cbn in *.
  assert (Ow : forall pos, own = Some pos -> seq (cell q pos) = pos + 1).
  { intros pos E'. rewrite <- Hi in E'. apply bind_owner in E' as (c & Hc & E). destruct (popping_at _ _ _ _ _ (OC i c Hc) E). lia. }
  assert (Oth : forall j n, j <> i -> C j ≫= popping = Some n -> cell q' n = cell q n /\ n <> t /\ own <> Some n).
  { intros j n Nj E. pose proof E as (pj & Hj & Ej)%bind_owner. destruct (popping_at _ _ _ _ _ (OC j pj Hj) Ej).
    assert (own <> Some n) by (intros X; apply Nj, (U2 j i n); [done|by rewrite Hi]).
    split_and!; [|lia|done]. eapply (touches_other _ q q' 1 1); [done|done|lia|lia|lia|done]. }
  assert (Sub : forall n, n ∈ r.*1 -> n ∈ r'.*1).
  { destruct Rr as [->|(n & v & -> & _)]; [done|]. intros m. rewrite fmap_app. set_solver. }
  size. split; cbn.
  - done.
  - intros j p Hj. eapply producer_mono; [by apply (OP j)|done|done|]. intros n E.
    destruct (pushing_at _ _ _ _ (OP j p Hj) E). eapply (touches_other _ q q' 1 0); [done|done|lia|lia|lia|].
    intros X. specialize (Ow n X). lia.
  - intros j cj. destruct (decide (j = i)) as [->|N]; [rewrite fn_lookup_insert; apply Ho|].
    rewrite fn_lookup_insert_ne by done. intros Hj. eapply consumer_mono; [by apply (OC j)|done|lia|done|].
    intros n E. apply (Oth j n N). by rewrite Hj.
  - done.
  - intros a b n [(-> & A)|(Na & A)]%bind_insert [(-> & B)|(Nb & B)]%bind_insert; [done| | |by eapply U2].
    + destruct (Oth b n Nb B) as (_ & ? & ?). by destruct (New n A).
    + destruct (Oth a n Na A) as (_ & ? & ?). by destruct (New n B).
  - intros n Hn. destruct (Pd n Hn) as [L|?]; [left; pose proof (M n); lia|by right].
  - assert (Old : forall n v, (n, v) ∈ r -> 0 <= n < t' /\ cl !! Z.to_nat n = Some v /\ n + SIZE <= seq (cell q' n)).
    { intros n v Hr. destruct (Rc n v Hr) as (? & L & ?). pose proof (M n). split_and!; [lia|lia|done|lia]. }
    destruct Rr as [->|(n & v & -> & Hp & L & G)]; [done|]. intros m w [Hr|[= -> ->]%list_elem_of_singleton]%elem_of_app; [by apply Old|].
    rewrite <- Hi in Hp. apply bind_owner in Hp as (c & Hc & E). destruct (popping_at _ _ _ _ _ (OC i c Hc) E). split_and!; [lia|lia|done|lia].
  - destruct Rr as [->|(n & v & -> & Hp & _)]; [done|]. rewrite fmap_app. apply NoDup_app. split_and!; [done| |apply NoDup_singleton].
    intros m ([m' w] & -> & Hw)%list_elem_of_fmap E%list_elem_of_singleton. cbn in *. subst m'.
    destruct (Rc _ _ Hw) as (_ & _ & ?). specialize (Ow n Hp). lia.
  - intros n Hn. destruct (All n Hn) as [Hl|Hl]; [|right; exists i; apply bind_insert; by left].
    destruct (Po n ltac:(lia)) as [L|[j Hj]]; [left; by apply Sub|].
    destruct (decide (j = i)) as [->|Nj]; [|right; exists j; apply bind_insert; by right].
    destruct (Rel n ltac:(by rewrite <- Hi)) as [E|?]; [|by left]. right. exists i. apply bind_insert. by left.
Qed.

(** Every number in play fits 63 bits. *)
Definition small (cl : list T) : Prop := alen cl + SIZE + 1 <= 9223372036854775807.

#[local] Ltac left_ := intros; left; solve [done | lia].
Lemma prod_quiet q P C cl t r i (o : option producer) :
  config_ok (mkConfig q P C cl t r) -> P i ≫= pushing = None -> o ≫= pushing = None ->
  (forall p', o = Some p' -> producer_ok q cl p') -> config_ok (mkConfig q (<[i := o]> P) C cl t r).
Proof.
  intros K Hi Ho Hp. eapply prod_move; [exact K|exact Hi|apply K|done|done|left_|done| |left_|done].
  intros n. by rewrite Ho.
Qed.
Lemma cons_quiet q P C cl t r i (o : option consumer) :
  config_ok (mkConfig q P C cl t r) -> C i ≫= popping = None -> o ≫= popping = None ->
  (forall c', o = Some c' -> consumer_ok q cl t c') -> config_ok (mkConfig q P (<[i := o]> C) cl t r).
Proof.
  intros K Hi Ho Hp. eapply cons_move; [exact K|exact Hi|apply K|done|done|left_|done| |left_|done|left_].
  intros n. by rewrite Ho.
Qed.
(** The comparison at the top of the loop, without wrap-around. *)
Lemma diff_small a b : 0 <= a <= 9223372036854775807 -> 0 <= b <= 9223372036854775807 -> i64 (i64 a - i64 b) = a - b.
Proof. intros. rewrite (i64_small a), (i64_small b) by lia. apply i64_small. lia. Qed.

Lemma prod_step q P C cl t r i weak p q' o :
  config_ok (mkConfig q P C cl t r) -> P i = Some p -> produce weak q p = (q', o) -> small (cl ++ claims o) ->
  config_ok (mkConfig q' (<[i := going o]> P) C (cl ++ claims o) t r).
Proof.
  intros K Hi E Sm. pose proof (ok_prods _ K i p Hi) as Kp. pose proof (ok_ring _ K) as R. cbn in Kp, R.
  assert (Own : P i ≫= pushing = pushing p) by (by rewrite Hi). pose proof (ring_order _ _ _ R). pose proof (ring_head _ _ _ R) as Hh.
  size. unfold small in Sm. rewrite alen_app in Sm. pose proof (alen_nonneg (claims o)).
  destruct p as [item|item pos|item pos s|item pos|item pos]; cbn in E, Kp, Own.
  - injection E as <- <-. rewrite app_nil_r. apply prod_quiet; [done|done|done|]. intros ? [= <-]. cbn. lia.
  - injection E as <- <-. rewrite app_nil_r. apply prod_quiet; [done|done|done|]. intros ? [= <-]. cbn.
    pose proof (seq_bounds q cl t pos R). lia.
  - pose proof (seq_bounds q cl t pos R). rewrite diff_small in E by lia. destruct (Z.eqb_spec (s - pos) 0) as [Es|Ns].
    + destruct ((head_ q =? pos) && negb weak)%bool eqn:W.
      * injection E as <- <-. apply andb_true_iff in W as [W%Z.eqb_eq _]. assert (pos = alen cl) as -> by congruence.
        assert (F : seq (cell q (alen cl)) = alen cl) by (apply (claim_free q cl t); [done|lia]).
        rewrite u64_small by lia. cbn [claims going]. eapply prod_move; [exact K|exact Own| |by apply prefix_app_r|done|left_| | | |done].
        -- by apply ring_claim.
        -- intros ? [= <-]. cbn. split_and!; [lia| |done]. unfold alen. by rewrite Nat2Z.id, lookup_app_r, Nat.sub_diag by lia.
        -- intros n [= <-]. by right.
        -- intros n Hn. rewrite alen_snoc in Hn. destruct (decide (n = alen cl)) as [->|]; [by right|left; lia].
      * injection E as <- <-. rewrite app_nil_r. apply prod_quiet; [done|done|done|]. intros ? [= <-]. cbn. lia.
    + destruct (s - pos <? 0); injection E as <- <-; rewrite app_nil_r; apply prod_quiet; try done; by intros ? [= <-].
  - injection E as <- <-. rewrite app_nil_r. destruct Kp as (? & L & S). pose proof (ring_len _ _ _ R) as Ln.
    eapply prod_move; [exact K|exact Own|by apply ring_write|done| | | | |left_|left_].
    + intros n. by rewrite seq_put_data.
    + right. exists pos. split; [done|]. intros n N. by rewrite cell_put_data, decide_False.
    + intros ? [= <-]. cbn. rewrite cell_put_data, decide_True by done. done.
    + intros n [= <-]. left_.
  - injection E as <- <-. rewrite app_nil_r. destruct Kp as (? & L & S & D). pose proof (ring_len _ _ _ R) as Ln.
    pose proof (lookup_lt_Some _ _ _ L) as Lt. unfold alen in *. rewrite u64_small by lia.
    eapply prod_move; [exact K|exact Own|apply ring_publish; [done|done|done|by rewrite D]|done| | |done|done|left_|].
    + intros n. rewrite cell_put_seq by done. destruct (decide _) as [M|]; [|done]. fields. rewrite (cell_mod q n pos) by done. lia.
    + right. exists pos. split; [done|]. intros n N. by rewrite cell_put_seq, decide_False.
    + intros n [= <-]. right. rewrite cell_put_seq, decide_True by done. fields. lia.
Qed.

Lemma cons_step q P C cl t r i weak c q' o :
  config_ok (mkConfig q P C cl t r) -> C i = Some c -> consume weak q c = (q', o) -> small cl ->
  config_ok (mkConfig q' P (<[i := going o]> C) cl (t + takes o) (r ++ returns c)).
Proof.
  intros K Hi E Sm. pose proof (ok_conss _ K i c Hi) as Kc. pose proof (ok_ring _ K) as R. cbn in Kc, R.
  assert (Own : C i ≫= popping = popping c) by (by rewrite Hi). pose proof (ring_order _ _ _ R). pose proof (ring_tail _ _ _ R) as Ht.
  size. unfold small in Sm.
  destruct c as [|pos|pos s|pos|pos v]; cbn in E, Kc, Own; cbn [returns]; rewrite ?app_nil_r.
  - injection E as <- <-. cbn. rewrite Z.add_0_r. apply cons_quiet; [done|done|done|]. intros ? [= <-]. cbn. lia.
  - injection E as <- <-. cbn. rewrite Z.add_0_r. apply cons_quiet; [done|done|done|]. intros ? [= <-]. cbn.
    pose proof (seq_bounds q cl t pos R). lia.
  - pose proof (seq_bounds q cl t pos R). rewrite u64_small, diff_small in E by lia. destruct (Z.eqb_spec (s - (pos + 1)) 0) as [Es|Ns].
    + destruct ((tail_ q =? pos) && negb weak)%bool eqn:W.
      * injection E as <- <-. apply andb_true_iff in W as [W%Z.eqb_eq _]. assert (pos = t) as -> by congruence. cbn [takes going].
        destruct (take_full q cl t R ltac:(lia)) as (F & Lt & D).
        eapply cons_move; [exact K|exact Own| |lia|done|left_| | | |done|left_].
        -- by apply ring_take.
        -- intros ? [= <-]. cbn. split; [lia|exact F].
        -- intros n [= <-]. by right.
        -- intros n Hn. destruct (decide (n = t)) as [->|]; [by right|left; lia].
      * injection E as <- <-. cbn. rewrite Z.add_0_r. apply cons_quiet; [done|done|done|]. intros ? [= <-]. cbn. lia.
    + destruct (s - (pos + 1) <? 0); injection E as <- <-; cbn; rewrite Z.add_0_r; apply cons_quiet; try done; by intros ? [= <-].
  - injection E as <- <-. cbn [takes going]. rewrite Z.add_0_r. destruct Kc as (? & S).
    eapply cons_move; [exact K|exact Own|done|lia|done|left_| | |left_|left_|left_].
    + intros ? [= <-]. cbn. split_and!; [lia|lia|done|]. destruct (ring_cells _ _ _ R pos) as (n & M & Kn).
      assert (n = pos) as -> by (eapply (owned q cl t pos n 1); [done|lia|lia|done|done]). destruct Kn as (_ & _ & _ & [?|(_ & _ & D)]); [lia|exact D].
    + intros n [= <-]. left_.
  - injection E as <- <-. cbn [takes going]. rewrite Z.add_0_r. destruct Kc as (? & S & L). pose proof (ring_len _ _ _ R) as Ln.
    rewrite u64_small by lia. eapply cons_move; [exact K|exact Own|by apply ring_free|lia| | |done|done|left_| |].
    + intros n. rewrite cell_put_seq by done. destruct (decide _) as [M|]; [|done]. fields. rewrite (cell_mod q n pos) by done. lia.
    + right. exists pos. split; [done|]. intros n N. by rewrite cell_put_seq, decide_False.
    + intros n [= <-]. right. rewrite fmap_app. set_solver.
    + right. exists pos, v. split_and!; [done|done|done|]. rewrite cell_put_seq, decide_True by done. done.
Qed.

(** ** Reachable states *)

Lemma small_prefix cl cl' : cl `prefix_of` cl' -> small cl' -> small cl.
Proof. intros P%prefix_length. unfold small, alen. lia. Qed.
Lemma step_claimed c c' : step c c' -> claimed c `prefix_of` claimed c'.
Proof. destruct 1; cbn; try done. by apply prefix_app_r. Qed.

Lemma mpmc_step_ok c c' : step c c' -> small (claimed c') -> config_ok c -> config_ok c'.
Proof.
  destruct 1; cbn; intros Sm K.
  - apply prod_quiet; [done|by rewrite H|done|]. by intros ? [= <-].
  - by eapply prod_step.
  - apply cons_quiet; [done|by rewrite H|done|]. by intros ? [= <-].
  - by eapply cons_step.
Qed.

Lemma cell_new n : cell new_queue n = mkCell (n mod SIZE) zero.
Proof.
  size. unfold cell, new_queue. cbn. rewrite mpmc_index_mod, list_lookup_fmap. pose proof (Z.mod_pos_bound n SIZE ltac:(lia)).
  rewrite lookup_seqZ_lt by lia. cbn. f_equal. lia.
Qed.
Lemma mpmc_initial_ok : config_ok initial.
Proof.
  size. split; cbn; try done.
  - split; cbn; [|done|done|done|].
    + unfold alen. rewrite length_fmap, length_seqZ. lia.
    + intros x. pose proof (Z.mod_pos_bound x SIZE ltac:(lia)). exists (x mod SIZE). split; [apply Z.mod_mod; lia|].
      unfold cell_ok. rewrite cell_new, Z.mod_mod by lia. unfold alen. cbn. split_and!; [lia|lia|lia|by left].
  - intros n Hn. unfold alen in Hn. cbn in Hn. lia.
  - intros n v []%not_elem_of_nil.
  - apply NoDup_nil_2.
  - lia.
Qed.
Lemma mpmc_reachable_ok c : rtc step initial c -> small (claimed c) -> config_ok c.
Proof.
  intros Rc. revert c Rc. apply (rtc_ind_r (fun c => small (claimed c) -> config_ok c)); [intros _; apply mpmc_initial_ok|].
  intros c c' Rc St IH Sm. eapply mpmc_step_ok; [done|done|]. apply IH. eapply small_prefix; [by apply step_claimed|done].
Qed.

(** C30: whatever the number of threads and however their steps interleave,
    every item comes out at most once and as it went in: each returned item is
    the one whose push claimed the position the pop claimed, no position is
    returned twice, and positions are claimed in order on both sides (first in,
    first out).  When all calls have returned, what came out is exactly the
    first [taken] items that went in: nothing is lost. *)
Theorem mpmc_exactly_once c :
  rtc step initial c -> small (claimed c) ->
  (forall n v, (n, v) ∈ recv c -> 0 <= n < taken c /\ claimed c !! Z.to_nat n = Some v) /\ NoDup (recv c).*1 /\
  0 <= taken c <= alen (claimed c) /\
  ((forall i, prods c i = None) -> (forall i, conss c i = None) ->
   (recv c).*1 ≡ₚ seqZ 0 (taken c) /\ (recv c).*2 ≡ₚ take (Z.to_nat (taken c)) (claimed c)).
Proof.
  intros Rc Sm. destruct (mpmc_reachable_ok c Rc Sm) as [R OP OC U1 U2 Pd Rv On Po]. pose proof (ring_order _ _ _ R) as O.
  split_and!; [intros n v H; destruct (Rv n v H); tauto|done|lia|lia|]. intros NP NC.
  assert (E : (recv c).*1 ≡ₚ seqZ 0 (taken c)).
  { apply NoDup_Permutation; [done|apply NoDup_seqZ|]. intros n. rewrite elem_of_seqZ. split.
    - intros ([m v] & -> & H)%list_elem_of_fmap. destruct (Rv m v H). cbn. lia.
    - intros Hn. destruct (Po n ltac:(lia)) as [?|[i Hi]]; [done|]. by rewrite NC in Hi. }
  split; [done|]. assert (F : (recv c).*2 = (fun n => default zero (claimed c !! Z.to_nat n)) <$> (recv c).*1).
  { rewrite <- list_fmap_compose. apply list_fmap_ext. intros i [n v] H%list_elem_of_lookup_2. cbn. destruct (Rv n v H) as (_ & -> & _). done. }
  rewrite F, E. apply reflexive_eq. apply list_eq. intros i. rewrite list_lookup_fmap.
  destruct (decide (Z.of_nat i < taken c)) as [L|G].
  - rewrite lookup_seqZ_lt, lookup_take_lt by lia. cbn [fmap option_fmap option_map]. rewrite Z.add_0_l, Nat2Z.id. unfold alen in O.
    by destruct (lookup_lt_is_Some_2 (claimed c) i ltac:(lia)) as [x ->].
  - rewrite lookup_seqZ_ge, lookup_take_ge by lia. done.
Qed.

(** The position whose cell's data a thread is about to write, or to copy. *)
Definition writing (p : producer) : option Z := match p with P_write _ pos => Some pos | _ => None end.
Definition copying (c : consumer) : option Z := match c with C_copy pos => Some pos | _ => None end.

(** the plain accesses to the cells' data never race: no two threads are
    about to access the data of one cell, whether both write, both copy or one
    of each; and a consumer about to copy finds the item of its position. *)
Lemma mpmc_race_free c :
  rtc step initial c -> small (claimed c) ->
  (forall i j n m, i <> j -> prods c i ≫= writing = Some n -> prods c j ≫= writing = Some m -> index n <> index m) /\
  (forall i j n m, i <> j -> conss c i ≫= copying = Some n -> conss c j ≫= copying = Some m -> index n <> index m) /\
  (forall i j n m, prods c i ≫= writing = Some n -> conss c j ≫= copying = Some m -> index n <> index m) /\
  (forall j m, conss c j ≫= copying = Some m -> claimed c !! Z.to_nat m = Some (data (cell (ring c) m))).
Proof.
  intros Rc Sm. destruct (mpmc_reachable_ok c Rc Sm) as [R OP OC U1 U2 Pd Rv On Po]. size.
  assert (A : forall i n, prods c i ≫= writing = Some n -> prods c i ≫= pushing = Some n /\ seq (cell (ring c) n) = n).
  { intros i n (p & Hp & E)%bind_owner. destruct p; simplify_eq/=. rewrite Hp. cbn. split; [done|]. by destruct (OP i _ Hp) as (_ & _ & ?). }
  assert (B : forall j n, conss c j ≫= copying = Some n -> conss c j ≫= popping = Some n /\ seq (cell (ring c) n) = n + 1).
  { intros i n (p & Hp & E)%bind_owner. destruct p; simplify_eq/=. rewrite Hp. cbn. split; [done|]. by destruct (OC i _ Hp) as (_ & ?). }
  split_and!.
  - intros i j n m N [Hn Sn]%A [Hm Sm']%A E%index_same. rewrite (cell_mod _ n m) in Sn by done. apply N, (U1 i j n); [done|congruence].
  - intros i j n m N [Hn Sn]%B [Hm Sm']%B E%index_same. rewrite (cell_mod _ n m) in Sn by done. apply N, (U2 i j n); [done|].
    by replace n with m by lia.
  - intros i j n m [_ Sn]%A [_ Sm']%B E%index_same. rewrite (cell_mod _ n m) in Sn by done. pose proof (near n m E ltac:(lia)). lia.
  - intros j m [_ Sm']%B. destruct (ring_cells _ _ _ R m) as (n & E & K).
    assert (n = m) as -> by (eapply (owned (ring c) _ _ m n 1); [done|lia|lia|done|done]). destruct K as (_ & _ & _ & [?|(_ & _ & D)]); [lia|done].
Qed.

(** ** Calls that run alone *)

(** No call is under way. *)
Definition quiet (c : config) : Prop := (forall i, prods c i = None) /\ (forall i, conss c i = None).
(** The items pushed and not yet popped, oldest first. *)
Definition pending (c : config) : list T := drop (Z.to_nat (taken c)) (claimed c).

Lemma pending_length c : 0 <= taken c <= alen (claimed c) -> alen (pending c) = alen (claimed c) - taken c.
Proof. intros. unfold pending, alen in *. rewrite length_drop. lia. Qed.

(** In a quiet state a cell at the head is free unless the queue is full. *)
Lemma quiet_head c : config_ok c -> quiet c -> let h := alen (claimed c) in
  if h - taken c =? SIZE then seq (cell (ring c) h) = taken c + 1 else seq (cell (ring c) h) = h.
Proof.
  intros K [NP NC]. cbv zeta. destruct K as [R _ _ _ _ Pd Rv _ Po]. size.
  pose proof (ring_order _ _ _ R) as O. destruct (ring_cells _ _ _ R (alen (claimed c))) as (n & E & ? & ? & ? & D).
  rewrite (cell_mod _ (alen (claimed c)) n) by done.
  assert (Full : forall m, 0 <= m < alen (claimed c) -> m < seq (cell (ring c) m)).
  { intros m Hm. destruct (Pd m Hm) as [?|[i Hi]]; [done|]. by rewrite NP in Hi. }
  assert (Gone : forall m, 0 <= m < taken c -> m + SIZE <= seq (cell (ring c) m)).
  { intros m Hm. destruct (Po m Hm) as [([m' v] & -> & Hr)%list_elem_of_fmap|[i Hi]]; [|by rewrite NC in Hi]. cbn in *. by destruct (Rv _ _ Hr) as (_ & _ & ?). }
  destruct (laps n (alen (claimed c)) E) as [En|L].
  { zcase; lia. }
  assert (n + SIZE = alen (claimed c)) as Eh by (apply near; [by rewrite shifted|lia]). pose proof (ring_room _ _ _ R). zcase.
  - specialize (Full n ltac:(lia)). lia.
  - specialize (Gone n ltac:(lia)). lia.
Qed.
Lemma quiet_tail c : config_ok c -> quiet c -> let t := taken c in
  if t =? alen (claimed c) then seq (cell (ring c) t) <= t
  else seq (cell (ring c) t) = t + 1 /\ claimed c !! Z.to_nat t = Some (data (cell (ring c) t)).
Proof.
  intros K [NP NC]. cbv zeta. destruct K as [R _ _ _ _ Pd Rv _ Po]. pose proof (ring_order _ _ _ R) as O. zcase.
  - pose proof (tail_seq _ _ _ R). destruct (decide (seq (cell (ring c) (taken c)) = taken c + 1)); [|lia].
    destruct (take_full _ _ _ R); lia.
  - destruct (Pd (taken c) ltac:(lia)) as [L|[i Hi]]; [|by rewrite NP in Hi]. destruct (take_full _ _ _ R ltac:(lia)) as (? & _ & ?). done.
Qed.

(** One more step of thread 0's call. *)
Lemma push_more q P C cl t r p q' o c : P 0%nat = Some p -> produce false q p = (q', o) ->
  rtc step (mkConfig q' (<[0%nat := going o]> P) C (cl ++ claims o) t r) c -> rtc step (mkConfig q P C cl t r) c.
Proof. intros Hp E. apply rtc_l. by eapply step_push. Qed.
Lemma pop_more q P C cl t r p q' o c : C 0%nat = Some p -> consume false q p = (q', o) ->
  rtc step (mkConfig q' P (<[0%nat := going o]> C) cl (t + takes o) (r ++ returns p)) c -> rtc step (mkConfig q P C cl t r) c.
Proof. intros Hp E. apply rtc_l. by eapply step_pop. Qed.

Lemma run_S {P R} (next : Queue -> P -> Queue * (P + R)) n q p :
  run next (S n) q p = match next q p with (q', inl p') => run next n q' p' | (q', inr r) => Some (q', r) end.
Proof. done. Qed.
Lemma fn_insert_at {A} (P : nat -> A) i x j : <[i := x]> P j = if decide (j = i) then x else P j.
Proof. case_decide as E; [subst; apply fn_lookup_insert|by apply fn_lookup_insert_ne]. Qed.
Lemma push_alone c item : config_ok c -> small (claimed c ++ [item]) -> quiet c ->
  let h := alen (claimed c) in
  if h - taken c =? SIZE then push 5 (ring c) item = Some (ring c, false)
  else exists c', rtc step c c' /\ quiet c' /\ push 5 (ring c) item = Some (ring c', true) /\
       taken c' = taken c /\ claimed c' = claimed c ++ [item].
Proof.
  intros K Sm Q. cbv zeta. pose proof (quiet_head c K Q) as S. cbv zeta in S. pose proof (ok_ring _ K) as R. destruct Q as [NP NC].
  destruct c as [q P C cl t r]. cbn [ring prods conss claimed taken recv] in *. size. pose proof (ring_order _ _ _ R). pose proof (ring_head _ _ _ R) as Hh.
  unfold small in Sm. rewrite alen_snoc in Sm. unfold push. destruct (Z.eqb_spec (alen cl - t) SIZE) as [F|F].
  - do 3 (rewrite run_S; cbn [produce]; rewrite ?Hh). rewrite S, diff_small by lia. by repeat (zcase; try lia).
  - assert (E : forall b, produce b q (P_check item (alen cl) (alen cl)) =
      if b then (q, inl (P_top item (alen cl))) else (q <| head_ := alen cl + 1 |>, inl (P_write item (alen cl)))).
    { intros b. cbn. rewrite diff_small, Z.sub_diag, Hh, !Z.eqb_refl, u64_small by lia. by destruct b. }
    set (q1 := q <| head_ := alen cl + 1 |>) in *. set (q2 := put_data q1 (alen cl) item). set (q3 := put_seq q2 (alen cl) (alen cl + 1)).
    eexists (mkConfig q3 _ C (cl ++ [item]) t r). split_and!.
    + eapply rtc_l; [apply (call_push 0 item); apply NP|].
      eapply push_more; [by rewrite fn_lookup_insert|cbn; by rewrite Hh|].
      eapply push_more; [by rewrite fn_lookup_insert|cbn; by rewrite S|].
      eapply push_more; [by rewrite fn_lookup_insert|exact (E false)|].
      eapply push_more; [by rewrite fn_lookup_insert|done|].
      eapply push_more; [by rewrite fn_lookup_insert|done|]. cbn [going claims]. rewrite u64_small, !app_nil_r by lia. apply rtc_refl.
    + split; cbn; [|done]. intros i. rewrite !fn_insert_at. by repeat case_decide.
    + rewrite run_S. cbn [produce]. rewrite Hh, run_S. cbn [produce]. rewrite S, run_S, E, run_S. cbn [produce]. rewrite run_S. cbn [produce].
      by rewrite u64_small by lia.
    + done.
    + done.
Qed.

Lemma pop_alone c : config_ok c -> small (claimed c) -> quiet c ->
  match claimed c !! Z.to_nat (taken c) with
  | None => pop 5 (ring c) = Some (ring c, None)
  | Some v => exists c', rtc step c c' /\ quiet c' /\ pop 5 (ring c) = Some (ring c', Some v) /\
              taken c' = taken c + 1 /\ claimed c' = claimed c
  end.
Proof.
  intros K Sm Q. pose proof (quiet_tail c K Q) as S. cbv zeta in S. pose proof (ok_ring _ K) as R. destruct Q as [NP NC].
  destruct c as [q P C cl t r]. cbn [ring prods conss claimed taken recv] in *. size. pose proof (ring_order _ _ _ R). pose proof (ring_tail _ _ _ R) as Hh.
  unfold small in Sm. unfold pop. pose proof (seq_bounds q cl t t R). destruct (Z.eqb_spec t (alen cl)) as [F|F].
  - rewrite lookup_ge_None_2 by (unfold alen in *; lia). do 3 (rewrite run_S; cbn [consume]; rewrite ?Hh).
    rewrite u64_small, diff_small by lia. by repeat (zcase; try lia).
  - destruct S as [S D]. rewrite D.
    assert (E : consume false q (C_check t (t + 1)) = (q <| tail_ := t + 1 |>, inl (C_copy t))).
    { cbn. rewrite u64_small, diff_small, Z.sub_diag, Hh, !Z.eqb_refl by lia. done. }
    set (v := data (cell q t)) in *. set (q1 := q <| tail_ := t + 1 |>) in *. set (q2 := put_seq q1 t (t + SIZE)).
    eexists (mkConfig q2 P _ cl (t + 1) (r ++ [(t, v)])). split_and!.
    + eapply rtc_l; [apply (call_pop 0); apply NC|].
      eapply pop_more; [by rewrite fn_lookup_insert|cbn; by rewrite Hh|].
      eapply pop_more; [by rewrite fn_lookup_insert|cbn; by rewrite S|].
      eapply pop_more; [by rewrite fn_lookup_insert|exact E|].
      eapply pop_more; [by rewrite fn_lookup_insert|done|].
      eapply pop_more; [by rewrite fn_lookup_insert|done|]. cbn [going takes returns].
      rewrite !Z.add_0_r, !app_nil_r, u64_small by lia. apply rtc_refl.
    + split; cbn; [done|]. intros i. rewrite !fn_insert_at. by repeat case_decide.
    + rewrite run_S. cbn [consume]. rewrite Hh, run_S. cbn [consume]. rewrite S, run_S, E, run_S. cbn [consume]. rewrite run_S. cbn [consume].
      by rewrite u64_small by lia.
    + done.
    + done.
Qed.

(** a call that runs while no other is under way behaves as on a queue of
    [SIZE] places, and returns within five steps: [push] appends, unless [SIZE]
    items are pending; [pop] takes the oldest pending item, unless none is;
    [empty] tells which.  The state it leaves is again a quiet reachable one. *)
Lemma mpmc_sequential_queue c item :
  rtc step initial c -> quiet c -> small (claimed c ++ [item]) ->
  (if alen (pending c) =? capacity then push 5 (ring c) item = Some (ring c, false)
   else exists c', rtc step c c' /\ quiet c' /\ push 5 (ring c) item = Some (ring c', true) /\ pending c' = pending c ++ [item]) /\
  match pending c with
  | [] => pop 5 (ring c) = Some (ring c, None) /\ empty (ring c) = true
  | v :: l => empty (ring c) = false /\ exists c', rtc step c c' /\ quiet c' /\ pop 5 (ring c) = Some (ring c', Some v) /\ pending c' = l
  end.
Proof.
  intros Rc Q Sm. assert (Sm' : small (claimed c)) by (eapply small_prefix; [by apply prefix_app_r|done]).
  pose proof (mpmc_reachable_ok c Rc Sm') as K. pose proof (ring_order _ _ _ (ok_ring _ K)) as O.
  pose proof (push_alone c item K Sm Q) as A. cbv zeta in A. rewrite pending_length by done. unfold capacity. split.
  - destruct (_ =? _); [done|]. destruct A as (c' & ? & ? & ? & Et & Ec). exists c'. split_and!; [done|done|done|].
    unfold pending. rewrite Et, Ec. apply drop_app_le. unfold alen in O. lia.
  - pose proof (pop_alone c K Sm' Q) as B. pose proof (quiet_tail c K Q) as S. cbv zeta in S.
    assert (Em : empty (ring c) = (taken c =? alen (claimed c))).
    { unfold empty. rewrite (ring_tail _ _ _ (ok_ring _ K)). unfold small in Sm'. size. rewrite u64_small by lia.
      destruct (taken c =? alen (claimed c)); zcase; cbn; lia || done. }
    rewrite Em. destruct (pending c) as [|v l] eqn:E.
    + assert (L : alen (pending c) = 0) by (by rewrite E). rewrite pending_length in L by done.
      rewrite lookup_ge_None_2 in B by (unfold alen in *; lia). split; [done|]. apply Z.eqb_eq. lia.
    + assert (L : alen (pending c) = 1 + alen l) by (rewrite E; unfold alen; cbn; lia). rewrite pending_length in L by done. pose proof (alen_nonneg l).
      assert (Hv : claimed c !! Z.to_nat (taken c) = Some v).
      { rewrite <- (Nat.add_0_r (Z.to_nat (taken c))), <- lookup_drop. fold (pending c). by rewrite E. }
      rewrite Hv in B. destruct B as (c' & ? & ? & ? & Et & Ec). split; [apply Z.eqb_neq; lia|]. exists c'. split_and!; [done|done|done|].
      unfold pending. rewrite Et, Ec, Z2Nat.inj_add by lia. rewrite <- drop_drop. fold (pending c). by rewrite E.
Qed.

(** ** The single-consumer queue *)

(** Any number of producers, one consumer. *)
Record config1 := mkConfig1 {
  ring1 : Queue; prods1 : nat -> option producer; cons1 : option single;
  claimed1 : list T; recv1 : list (Z * T)
}.
Definition returns1 (c : single) : list (Z * T) :=
  match c with S_tail pos v => [(pos, v)] | _ => [] end.

Inductive step1 : config1 -> config1 -> Prop :=
| call_push1 i item q P c cl r :
    P i = None -> step1 (mkConfig1 q P c cl r) (mkConfig1 q (<[i := Some (P_load item)]> P) c cl r)
| step_push1 i weak p q P c cl r q' o :
    P i = Some p -> produce weak q p = (q', o) ->
    step1 (mkConfig1 q P c cl r) (mkConfig1 q' (<[i := going o]> P) c (cl ++ claims o) r)
| call_pop1 q P cl r : step1 (mkConfig1 q P None cl r) (mkConfig1 q P (Some S_load) cl r)
| step_pop1 c q P cl r q' o :
    consume_single q c = (q', o) -> step1 (mkConfig1 q P (Some c) cl r) (mkConfig1 q' P (going o) cl (r ++ returns1 c)).
Definition initial1 : config1 := mkConfig1 new_queue (fun _ => None) None [] [].

(** The multi-consumer queue it simulates has one consumer, which moves the
    tail when this one has seen its item, not at the end. *)
Definition as_consumer (c : single) : option consumer :=
  match c with
  | S_load => Some C_load
  | S_top pos => Some (C_top pos)
  | S_check pos s => Some (C_check pos s)
  | S_copy pos => Some (C_copy pos)
  | S_free pos v => Some (C_free pos v)
  | S_tail pos v => None
  end.
Definition ahead (c : option single) (tail : Z) : Z :=
  match c with Some (S_copy pos | S_free pos _ | S_tail pos _) => u64 (pos + 1) | _ => tail end.
Definition late (c : option single) : list (Z * T) :=
  match c with Some (S_tail pos v) => [(pos, v)] | _ => [] end.
Definition at_tail (c : option single) (tail : Z) : Prop :=
  match c with
  | Some (S_top pos | S_check pos _ | S_copy pos | S_free pos _ | S_tail pos _) => pos = tail
  | _ => True
  end.

Record simulates (c1 : config1) (c : config) : Prop := {
  sim_ring : ring c = ring1 c1 <| tail_ := ahead (cons1 c1) (tail_ (ring1 c1)) |>;
  sim_prods : prods c = prods1 c1;
  sim_cons : forall j, conss c j = if decide (j = 0%nat) then cons1 c1 ≫= as_consumer else None;
  sim_claimed : claimed c = claimed1 c1;
  sim_recv : recv c = recv1 c1 ++ late (cons1 c1);
  sim_pos : at_tail (cons1 c1) (tail_ (ring1 c1));
  sim_order : (recv1 c1).*1 = seqZ 0 (tail_ (ring1 c1)) /\ 0 <= tail_ (ring1 c1) <= alen (claimed1 c1)
}.

(** A producer does not look at the tail. *)
Lemma produce_tail weak q p x :
  produce weak (q <| tail_ := x |>) p = let '(q', o) := produce weak q p in (q' <| tail_ := x |>, o).
Proof.
  destruct p as [item|item pos|item pos s|item pos|item pos]; cbn; try done.
  destruct (_ =? 0); [|by destruct (_ <? 0)]. by destruct (_ && _)%bool.
Qed.
Lemma produce_keeps_tail weak q p : tail_ (fst (produce weak q p)) = tail_ q.
Proof. destruct p; cbn; try done. destruct (_ =? 0); [|by destruct (_ <? 0)]. by destruct (_ && _)%bool. Qed.
Lemma tail_eta (q : Queue) : q <| tail_ := tail_ q |> = q.
Proof. by destruct q. Qed.
Lemma step1_claimed c c' : step1 c c' -> claimed1 c `prefix_of` claimed1 c'.
Proof. destruct 1; cbn; try done. by apply prefix_app_r. Qed.

#[local] Ltac proj := cbn [ring prods conss claimed taken recv ring1 prods1 cons1 claimed1 recv1 ahead late at_tail as_consumer returns1 going mbind option_bind] in *.
Lemma simulate c1 c1' c : step1 c1 c1' -> small (claimed1 c1') -> rtc step initial c -> simulates c1 c ->
  exists c', rtc step initial c' /\ simulates c1' c'.
Proof.
  intros St Sm Rc Si. assert (K : config_ok c).
  { apply mpmc_reachable_ok; [done|]. rewrite (sim_claimed _ _ Si). eapply small_prefix; [by apply step1_claimed|done]. }
  assert (Sm' : small (claimed c)).
  { rewrite (sim_claimed _ _ Si). eapply small_prefix; [by apply step1_claimed|done]. }
  assert (Mid : forall c', step c c' -> rtc step initial c') by (intros c' X; eapply rtc_r; done).
  destruct c as [q P C cl t r]. destruct Si as [Eq EP EC Ecl Er At [Or Op]]. proj. subst P cl r.
  pose proof (ok_ring _ K) as R. pose proof (ring_tail _ _ _ R) as Et. pose proof (ring_order _ _ _ R) as Ro. proj.
  destruct St as [i item q1 P c cl r Hi|i weak p q1 P c cl r q1' o Hi E|q1 P cl r|c q1 P cl r q1' o E]; proj.
  - eexists. split; [eapply Mid, call_push, Hi|]. split; done.
  - assert (Ep : produce weak q p = (q1' <| tail_ := ahead c (tail_ q1) |>, o)) by (by rewrite Eq, produce_tail, E).
    eexists. split; [eapply Mid, step_push; [exact Hi|exact Ep]|].
    pose proof (produce_keeps_tail weak q1 p) as Tl. rewrite E in Tl. cbn in Tl. split; proj; rewrite ?Tl; try done. rewrite alen_app. pose proof (alen_nonneg (claims o)). split; [done|lia].
  - rewrite tail_eta in Eq. subst q1. eexists. split; [apply Mid, (call_pop 0); by rewrite EC|].
    split; proj; rewrite ?tail_eta; try done. intros j. rewrite fn_insert_at, EC. by case_decide.
  - assert (Go : forall o' q' o'', as_consumer c = Some o' -> consume false q o' = (q', o'') ->
      rtc step initial (mkConfig q' P (<[0%nat := going o'']> C) cl (t + takes o'') ((r ++ late (Some c)) ++ returns o'))).
    { intros o' q' o'' Ha Ec. eapply Mid, step_pop; [|exact Ec]. by rewrite EC, decide_True. }
    assert (Ins : forall x, (forall j, <[0%nat := x]> C j = if decide (j = 0%nat) then x else None)).
    { intros x j. rewrite fn_insert_at, EC. by case_decide. }
    assert (Oc : forall o', as_consumer c = Some o' -> consumer_ok q cl t o').
    { intros o' Ho. apply (ok_conss _ K 0%nat). cbn. by rewrite EC, decide_True. }
    pose proof (seq_bounds q cl t) as Sb. unfold small in Sm'. size.
    destruct c as [|pos|pos s|pos|pos v|pos v]; proj; cbn [consume_single] in E.
    + rewrite tail_eta in Eq. subst q1. injection E as <- <-. eexists. split; [by eapply Go|]. split; proj; rewrite ?tail_eta, ?app_nil_r; done.
    + rewrite tail_eta in Eq. subst q1 pos. injection E as <- <-. eexists. split; [by eapply Go|]. split; proj; rewrite ?tail_eta, ?app_nil_r; done.
    + rewrite tail_eta in Eq. subst q1. specialize (Oc _ eq_refl). cbn in Oc. pose proof (Sb pos R). pose proof (tail_seq q cl t R) as Ts.
      assert (pos = t) as -> by congruence. rewrite u64_small, diff_small in E by lia. specialize (Go (C_check t s)).
      cbn [consume] in Go. rewrite u64_small, diff_small in Go by lia. destruct (Z.eqb_spec (s - (t + 1)) 0).
      * injection E as <- <-. rewrite Et, Z.eqb_refl in Go. cbn [andb negb] in Go. eexists. split; [by eapply Go|].
        split; proj; rewrite ?app_nil_r; try done. by rewrite u64_small by lia.
      * injection E as <- <-. destruct (Z.ltb_spec (s - (t + 1)) 0); [|lia]. eexists. split; [by eapply Go|].
        split; proj; rewrite ?tail_eta, ?app_nil_r; done.
    + injection E as <- <-. eexists. split; [by eapply Go|]. split; proj; rewrite ?app_nil_r; try done. intros j. rewrite Ins. by subst q.
    + injection E as <- <-. eexists. split; [by eapply Go|]. split; proj; rewrite ?app_nil_r; try done. by subst q.
    + injection E as <- <-. eexists. split; [exact Rc|]. specialize (Sb pos R).
      assert (t = u64 (pos + 1)) as Tp by (rewrite <- Et, Eq; done).
      rewrite u64_small in * by lia.
      split; proj; rewrite ?app_nil_r; try done. rewrite fmap_app, Or. subst pos. split; [|fields; lia]. fields. by rewrite seqZ_app by lia.
Qed.
Lemma initial_simulates : simulates initial1 initial.
Proof. split; cbn; try done. intros j. by case_decide. Qed.

Lemma mpsc_simulated c1 :
  rtc step1 initial1 c1 -> small (claimed1 c1) -> exists c, rtc step initial c /\ simulates c1 c.
Proof.
  intros Rc. revert c1 Rc. apply (rtc_ind_r (fun c1 => small (claimed1 c1) -> exists c, rtc step initial c /\ simulates c1 c)).
  - intros _. exists initial. split; [done|apply initial_simulates].
  - intros c1 c1' Rc St IH Sm. destruct IH as (c & R & Si); [eapply small_prefix; [by apply step1_claimed|done]|]. by eapply simulate.
Qed.

(** every execution of the single-consumer queue is one of the
    multi-consumer queue with one consumer: same cells and head, same producers
    and claimed items, the tail and the log ahead of its own exactly between
    the moment it has seen its item and the final store.  So what the consumer
    has received is, in this order, a prefix of the items claimed. *)
Lemma mpsc_refines_mpmc c1 :
  rtc step1 initial1 c1 -> small (claimed1 c1) ->
  (exists c, rtc step initial c /\ simulates c1 c) /\ (recv1 c1).*2 `prefix_of` claimed1 c1.
Proof.
  intros Rc Sm. destruct (mpsc_simulated c1 Rc Sm) as (c & R & Si). split; [by exists c|].
  pose proof (mpmc_reachable_ok c R ltac:(by rewrite (sim_claimed _ _ Si))) as K. destruct (sim_order _ _ Si) as [Or Le].
  exists (drop (Z.to_nat (tail_ (ring1 c1))) (claimed1 c1)). rewrite <- (take_drop (Z.to_nat (tail_ (ring1 c1))) (claimed1 c1)) at 1. f_equal.
  apply list_eq. intros i. rewrite list_lookup_fmap. assert (Ln : length (recv1 c1) = Z.to_nat (tail_ (ring1 c1))).
  { rewrite <- (length_fmap fst), Or, length_seqZ. lia. }
  destruct (recv1 c1 !! i) as [[n v]|] eqn:E; cbn.
  - assert (Hn : (recv1 c1).*1 !! i = Some n) by (by rewrite list_lookup_fmap, E).
    rewrite Or in Hn. apply lookup_seqZ in Hn as [-> Hi]. rewrite lookup_take_lt by lia.
    destruct (ok_recv _ K (0 + Z.of_nat i) v) as (_ & L & _).
    { rewrite (sim_recv _ _ Si). apply elem_of_app. left. by eapply list_elem_of_lookup_2. }
    rewrite (sim_claimed _ _ Si), Z.add_0_l, Nat2Z.id in L. done.
  - apply lookup_ge_None in E. rewrite lookup_take_ge by lia. done.
Qed.

(** ** Scripts: executions that run *)

Inductive move := CallPush (i : nat) (item : T) | GoPush (i : nat) (weak : bool) | CallPop (i : nat) | GoPop (i : nat) (weak : bool).
Definition exec (c : config) (m : move) : option config :=
  let 'mkConfig q P C cl t r := c in
  match m with
  | CallPush i item => match P i with None => Some (mkConfig q (<[i := Some (P_load item)]> P) C cl t r) | Some _ => None end
  | GoPush i weak =>
      match P i with
      | None => None
      | Some p => let '(q', o) := produce weak q p in Some (mkConfig q' (<[i := going o]> P) C (cl ++ claims o) t r)
      end
  | CallPop i => match C i with None => Some (mkConfig q P (<[i := Some C_load]> C) cl t r) | Some _ => None end
  | GoPop i weak =>
      match C i with
      | None => None
      | Some p => let '(q', o) := consume weak q p in Some (mkConfig q' P (<[i := going o]> C) cl (t + takes o) (r ++ returns p))
      end
  end.
Definition play (ms : list move) : option config := foldl (fun c m => c ≫= fun c => exec c m) (Some initial) ms.

Lemma exec_step c m c' : exec c m = Some c' -> step c c'.
Proof.
  destruct c as [q P C cl t r]. destruct m as [i x|i w|i|i w]; cbn.
  - destruct (P i) eqn:E; [done|]. intros [= <-]. by apply call_push.
  - destruct (P i) as [p|] eqn:E; [|done]. destruct (produce w q p) as [q' o] eqn:Eo. intros [= <-]. by eapply step_push.
  - destruct (C i) eqn:E; [done|]. intros [= <-]. by apply call_pop.
  - destruct (C i) as [p|] eqn:E; [|done]. destruct (consume w q p) as [q' o] eqn:Eo. intros [= <-]. by eapply step_pop.
Qed.
Lemma play_reachable ms c : play ms = Some c -> rtc step initial c.
Proof.
  unfold play. revert c. induction ms as [|m ms IH] using rev_ind; cbn; intros c E; [by injection E as <-|].
  rewrite foldl_snoc in E. destruct (foldl _ _ ms) as [c0|]; [|done]. cbn in E. eapply rtc_r; [by apply IH|by eapply exec_step].
Qed.
End mpmc.

(** ** Concrete executions: a queue of two cells *)

Definition demo (ms : list (move (T := Z))) : config := default (initial 0 1) (play 0 1 ms).
Lemma demo_reachable ms : bool_decide (is_Some (play 0 1 ms)) = true -> rtc (step 0 1) (initial 0 1) (demo ms).
Proof. intros [c E]%bool_decide_eq_true. unfold demo. rewrite E. by eapply play_reachable. Qed.

Definition go_push (n i : nat) : list (move (T := Z)) := replicate n (GoPush i false).
Definition go_pop (n i : nat) : list (move (T := Z)) := replicate n (GoPop i false).
(** Both producers see position 0 free; the second wins it, the first takes
    position 1 and finishes first.  A pop then finds nothing, since position 0
    is not published; once it is, the next pop gets its item. *)
Definition duel_start : list (move (T := Z)) :=
  [CallPush 0 10; CallPush 1 20] ++ go_push 2 0 ++ go_push 3 1 ++ go_push 3 0.
Definition duel : list (move (T := Z)) :=
  duel_start ++ go_push 2 0 ++ [CallPop 5] ++ go_pop 3 5 ++ go_push 2 1 ++ [CallPop 5] ++ go_pop 5 5.
Example duel_result : (claimed (demo duel), taken (demo duel), recv (demo duel)) = ([20; 10], 1, [(0, 20)]).
Proof. vm_compute. reflexivity. Qed.
Lemma duel_quiet : quiet (demo duel).
Proof. split; intros [|[|[|[|[|[|i]]]]]]; vm_compute; reflexivity. Qed.

Lemma mpmc_exactly_once_witness :
  (recv (demo duel)).*1 ≡ₚ seqZ 0 1 /\ (recv (demo duel)).*2 ≡ₚ [20].
Proof.
  apply (mpmc_exactly_once 0 1 ltac:(lia) (demo duel)); [by apply demo_reachable|by unfold small|apply duel_quiet..].
Defined.

(** Producer 1 is about to write the cell of position 2 while the consumer is
    about to copy position 1. *)
Definition busy : config :=
  demo (duel ++ [CallPush 1 30; CallPop 5] ++ go_push 3 1 ++ go_pop 3 5).
Lemma mpmc_race_free_witness : index 1 2 <> index 1 1 /\ claimed busy !! 1%nat = Some (data (cell 0 1 (ring busy) 1)).
Proof.
  assert (R : rtc (step 0 1) (initial 0 1) busy) by (by apply demo_reachable).
  destruct (mpmc_race_free 0 1 ltac:(lia) busy R ltac:(by unfold small)) as (_ & _ & A & B).
  split; [by apply (A 1%nat 5%nat)|by apply (B 5%nat 1)].
Defined.

Lemma mpmc_sequential_queue_witness :
  (exists c', quiet c' /\ push 0 1 5 (ring (demo duel)) 40 = Some (ring c', true) /\ pending c' = [10; 40]) /\
  (exists c', quiet c' /\ pop 0 1 5 (ring (demo duel)) = Some (ring c', Some 10) /\ pending c' = []).
Proof.
  destruct (mpmc_sequential_queue 0 1 ltac:(lia) (demo duel) 40) as [A B];
    [by apply demo_reachable|apply duel_quiet|by unfold small|].
  assert (E : pending (demo duel) = [10]) by (vm_compute; reflexivity). rewrite E in A, B. split.
  - destruct A as (c' & _ & ? & ? & ?). by exists c'.
  - destruct B as (_ & c' & _ & ? & ? & ?). by exists c'.
Defined.

(** One item through the single-consumer queue. *)
Definition single_done : config1 := mkConfig1 (mkQueue [mkCell 2 10; mkCell 1 0] 1 1) (fun _ => None) None [10] [(0, 10)].
Lemma single_reachable : exists P, rtc (step1 0 1) (initial1 0 1) (mkConfig1 (ring1 single_done) P None [10] [(0, 10)]).
Proof.
  eexists. eapply rtc_l; [apply (call_push1 0 1 0 10); reflexivity|].
  do 5 (eapply rtc_l; [eapply (step_push1 0 1 0 false); [by rewrite fn_lookup_insert|vm_compute; reflexivity]|]; cbn [going claims app]).
  eapply rtc_l; [apply call_pop1|].
  do 6 (eapply rtc_l; [apply step_pop1; vm_compute; reflexivity|]; cbn [going returns1 app]).
  apply rtc_refl.
Qed.
Lemma mpsc_refines_mpmc_witness : exists c1, recv1 c1 = [(0, 10)] /\ (recv1 c1).*2 `prefix_of` claimed1 c1.
Proof.
  destruct single_reachable as [P R]. eexists. split; [|apply (mpsc_refines_mpmc 0 1 ltac:(lia) _ R); by unfold small]. done.
Defined.

(** ** One cell

    The class accepts [SIZE] 1, but then the number that publishes a position
    is the number that frees the next one: a second push overwrites the first
    item, and after it a pop of the multi-consumer queue never returns, one of
    the single-consumer queue always finds nothing. *)
Definition one_cell : option (Queue (T := Z)) :=
  q ← fst <$> push 0 0 5 (new_queue 0 0) 10; fst <$> push 0 0 5 q 20.
Example one_cell_full : one_cell = Some (mkQueue [mkCell 2 20] 2 0).
Proof. vm_compute. reflexivity. Qed.
Example one_cell_single : push_single 0 0 5 (mkQueue [mkCell 1 10] 1 0) 20 = Some (mkQueue [mkCell 2 20] 2 0, true) /\ pop_single 0 0 5 (mkQueue [mkCell 2 20] 2 0) = Some (mkQueue [mkCell 2 20] 2 0, None).
Proof. split; vm_compute; reflexivity. Qed.
Lemma one_cell_hangs fuel : pop 0 0 fuel (mkQueue [mkCell 2 20] 2 0) = None.
Proof. unfold pop. induction fuel as [fuel IH] using lt_wf_ind. destruct fuel as [|[|[|fuel]]]; [done..|]. apply (IH fuel). lia. Qed.
