(* ===== verification/Sequencer.v ===== *)
(** * Sequencer: the broadcast ring

    [lockfree/sequencer.hpp].  One producer claims a sequence number, writes its
    slot in place and publishes it; any number of consumers read what is
    published, each at its own pace, and whoever gathers their positions reports
    the slowest with [mark_consumed].  The class's functions are given as they
    are; the threads that follow its protocol interleave their calls, and the
    producer's three phases, as a step relation.  A published number is read
    with an acquire load, so a consumer that sees it sees the slot. *)
From stdpp Require Import functions.
From S2P Require Import Prelude.

Section sequencer.
Context {T : Type} (zero : T) (k : nat).

Definition SIZE : Z := 2 ^ Z.of_nat k.
Record Sequencer := mkSequencer { buffer_ : list T; cursor_ : Z; gating_ : Z; next_seq_ : Z }.
#[local] Instance eta_sequencer : Settable Sequencer := fun s => mkSequencer (buffer_ s) (cursor_ s) (gating_ s) (next_seq_ s).
Definition new_sequencer : Sequencer := mkSequencer (replicate (Z.to_nat SIZE) zero) (-1) (-1) 0.

Definition try_claim (s : Sequencer) : Sequencer * Z :=
  let seq := next_seq_ s in
  let wrap_min := i64 (seq - SIZE) in
  if gating_ s <? wrap_min then (s, -1) else (s <| next_seq_ := i64 (seq + 1) |>, seq).
(** [seq & MASK] *)
Definition index (seq : Z) : nat := Z.to_nat (Z.land seq (SIZE - 1)).
(** [slot(seq) = x] *)
Definition put_slot (s : Sequencer) (seq : Z) (x : T) : Sequencer := s <| buffer_ ::= <[index seq := x]> |>.
Definition publish (s : Sequencer) (seq : Z) : Sequencer := s <| cursor_ := seq |>.
Definition available (s : Sequencer) : Z := cursor_ s.
Definition read (s : Sequencer) (seq : Z) : T := default zero (buffer_ s !! index seq).
Definition mark_consumed (s : Sequencer) (seq : Z) : Sequencer := s <| gating_ := seq |>.
Definition capacity : Z := SIZE.

(** ** The protocol *)

Inductive producer := P_idle | P_claimed (seq : Z) | P_written (seq : Z) (x : T).
(** A consumer reads numbers from [next] up to the last [available] it saw. *)
Record reader := mkReader { next : Z; hi : Z; seen : list T }.
Record config := mkConfig { ring : Sequencer; prod : producer; readers : nat -> reader; published : list T }.

(** Consumers [0 .. n - 1]. *)
Context (n : nat).
Inductive step : config -> config -> Prop :=
| claim s s' seq rs l : try_claim s = (s', seq) -> 0 <= seq -> step (mkConfig s P_idle rs l) (mkConfig s' (P_claimed seq) rs l)
| claim_full s s' rs l : try_claim s = (s', -1) -> step (mkConfig s P_idle rs l) (mkConfig s' P_idle rs l)
| write s seq x rs l : step (mkConfig s (P_claimed seq) rs l) (mkConfig (put_slot s seq x) (P_written seq x) rs l)
| publish_it s seq x rs l : step (mkConfig s (P_written seq x) rs l) (mkConfig (publish s seq) P_idle rs (l ++ [x]))
| look i s p rs l : (i < n)%nat ->
    step (mkConfig s p rs l) (mkConfig s p (<[i := mkReader (next (rs i)) (available s) (seen (rs i))]> rs) l)
| take i s p rs l : (i < n)%nat -> next (rs i) <= hi (rs i) ->
    step (mkConfig s p rs l) (mkConfig s p (<[i := mkReader (next (rs i) + 1) (hi (rs i)) (seen (rs i) ++ [read s (next (rs i))])]> rs) l)
| mark m s p rs l : gating_ s <= m -> (forall i, (i < n)%nat -> m < next (rs i)) ->
    step (mkConfig s p rs l) (mkConfig (mark_consumed s m) p rs l).
Definition initial : config := mkConfig new_sequencer P_idle (fun _ => mkReader 0 (-1) []) [].

(** ** Slots *)

Lemma seq_SIZE_pos : 0 < SIZE.
Proof. unfold SIZE. lia. Qed.
Lemma seq_index_mod i : index i = Z.to_nat (i mod SIZE).
Proof. unfold index, SIZE. by rewrite land_ones_mod by lia. Qed.
Lemma index_inj i j : index i = index j -> - SIZE < i - j < SIZE -> i = j.
Proof.
  pose proof seq_SIZE_pos. rewrite !seq_index_mod. intros E L. pose proof (Z.mod_pos_bound i SIZE ltac:(lia)). pose proof (Z.mod_pos_bound j SIZE ltac:(lia)).
  pose proof (Z.div_mod i SIZE ltac:(lia)). pose proof (Z.div_mod j SIZE ltac:(lia)). assert (i / SIZE = j / SIZE) by nia. lia.
Qed.
Lemma index_range i : (index i < Z.to_nat SIZE)%nat.
Proof. pose proof seq_SIZE_pos. rewrite seq_index_mod. pose proof (Z.mod_pos_bound i SIZE ltac:(lia)). lia. Qed.
Lemma read_put s i j x : length (buffer_ s) = Z.to_nat SIZE -> read (put_slot s i x) j = if decide (index i = index j) then x else read s j.
Proof.
  intros L. unfold read, put_slot, set_field. cbn. case_decide as E.
  - rewrite E, list_lookup_insert_eq; [done|]. rewrite L. apply index_range.
  - by rewrite list_lookup_insert_ne.
Qed.

(** ** The invariant *)

Definition writer_ok (s : Sequencer) (p : producer) : Prop :=
  match p with
  | P_idle => next_seq_ s = cursor_ s + 1
  | P_claimed seq => seq = cursor_ s + 1 /\ next_seq_ s = seq + 1 /\ seq - SIZE <= gating_ s
  | P_written seq x => seq = cursor_ s + 1 /\ next_seq_ s = seq + 1 /\ seq - SIZE <= gating_ s /\ read s seq = x
  end.
Record config_ok (c : config) : Prop := {
  ok_len : length (buffer_ (ring c)) = Z.to_nat SIZE;
  ok_writer : writer_ok (ring c) (prod c);
  ok_cursor : cursor_ (ring c) + 1 = alen (published c);
  ok_gate : -1 <= gating_ (ring c);
  ok_window : cursor_ (ring c) - SIZE <= gating_ (ring c);
  ok_slots : forall i, gating_ (ring c) < i <= cursor_ (ring c) -> published c !! Z.to_nat i = Some (read (ring c) i);
  ok_reader : forall i, (i < n)%nat -> let r := readers c i in
    gating_ (ring c) < next r /\ hi r <= cursor_ (ring c) /\ 0 <= next r <= cursor_ (ring c) + 1 /\
    seen r = list.take (Z.to_nat (next r)) (published c)
}.
Definition small (l : list T) : Prop := alen l + SIZE + 2 <= 9223372036854775807.


Lemma claim_spec s : 0 <= next_seq_ s -> next_seq_ s + SIZE + 1 <= 9223372036854775807 ->
  try_claim s = if gating_ s <? next_seq_ s - SIZE then (s, -1) else (s <| next_seq_ := next_seq_ s + 1 |>, next_seq_ s).
Proof. pose proof seq_SIZE_pos. intros. unfold try_claim. by rewrite !i64_small by lia. Qed.

Lemma seq_step_ok c c' : step c c' -> small (published c') -> config_ok c -> config_ok c'.
Proof.
  intros St Sm [L W Cu G Wi Sl Rd]. pose proof seq_SIZE_pos. unfold small in Sm.
  destruct St as [s s' seq rs l E Q|s s' rs l E|s seq x rs l|s seq x rs l|i s p rs l Hi|i s p rs l Hi Le|m s p rs l Gm Hm]; cbn in *.
  - pose proof (alen_nonneg l). rewrite claim_spec in E by lia. destruct (Z.ltb_spec (gating_ s) (next_seq_ s - SIZE)); injection E as <- <-; [lia|].
    split; cbn; try done.
  - pose proof (alen_nonneg l). rewrite claim_spec in E by lia. destruct (Z.ltb_spec (gating_ s) (next_seq_ s - SIZE)); injection E as <-; [done|lia].
  - destruct W as (-> & ? & ?). split; cbn; try done.
    + by rewrite length_insert.
    + split_and!; [done|done|done|]. rewrite read_put by done. by rewrite decide_True.
    + intros i Hi. rewrite read_put, decide_False by (done || (intros E%index_inj; lia)). by apply Sl.
  - destruct W as (-> & ? & ? & ?). split; cbn; try done; try lia.
    + rewrite alen_app. cbn. unfold alen in *. cbn. lia.
    + intros i Hi. change (read (publish s (cursor_ s + 1)) i) with (read s i). destruct (decide (i = cursor_ s + 1)) as [->|].
      * rewrite Cu. unfold alen. rewrite Nat2Z.id, lookup_app_r, Nat.sub_diag by lia. cbn. f_equal. unfold alen in Cu. by rewrite <- Cu.
      * rewrite lookup_app_l by (unfold alen in Cu; lia). apply Sl. lia.
    + intros i Hi. destruct (Rd i Hi) as (? & ? & ? & E). split_and!; [done|lia|lia|lia|]. rewrite E. symmetry. apply take_app_le. unfold alen in Cu. lia.
  - split; cbn; try done. intros j Hj. destruct (Rd i Hi) as (? & ? & ? & ?).
    destruct (decide (j = i)) as [->|N]; [rewrite fn_lookup_insert|rewrite fn_lookup_insert_ne by done; by apply Rd]. cbn. unfold available. split_and!; done || lia.
  - split; cbn; try done. intros j Hj. destruct (Rd i Hi) as (? & ? & ? & Es).
    destruct (decide (j = i)) as [->|N]; [rewrite fn_lookup_insert|rewrite fn_lookup_insert_ne by done; by apply Rd]. cbn. split_and!; try lia.
    rewrite Es, Z2Nat.inj_add by lia. rewrite Nat.add_1_r. symmetry. apply take_S_r. apply Sl. lia.
  - split; cbn; try done; try lia.
    + destruct p; cbn in *; lia || (split_and!; try lia; tauto).
    + intros i Hi. apply (Sl i). lia.
    + intros i Hi. destruct (Rd i Hi) as (? & ? & ? & ?). specialize (Hm i Hi). split_and!; done || lia.
Qed.

Lemma seq_initial_ok : config_ok initial.
Proof.
  pose proof seq_SIZE_pos. split; cbn; try done; try lia.
  - by rewrite length_replicate.
Qed.
Lemma step_published c c' : step c c' -> published c `prefix_of` published c'.
Proof. destruct 1; cbn; try done. by apply prefix_app_r. Qed.
Lemma seq_reachable_ok c : rtc step initial c -> small (published c) -> config_ok c.
Proof.
  intros Rc. revert c Rc. apply (rtc_ind_r (fun c => small (published c) -> config_ok c)); [intros _; apply seq_initial_ok|].
  intros c c' Rc St IH Sm. eapply seq_step_ok; [done|done|]. apply IH. pose proof (prefix_length _ _ (step_published _ _ St)). unfold small, alen in *. lia.
Qed.

(** C31: every consumer sees every published item, once, in the order of
    publication, whatever its pace: what consumer [i] has seen is the first
    [next] published items.  The slot it is about to read still holds its item,
    and is not the one the producer has claimed and is writing.  The producer is
    refused exactly when the reported position is a whole ring behind. *)
Theorem sequencer_broadcast c :
  rtc step initial c -> small (published c) ->
  (forall i, (i < n)%nat -> let r := readers c i in
     seen r = list.take (Z.to_nat (next r)) (published c) /\ 0 <= next r <= alen (published c) /\
     (next r <= hi r -> published c !! Z.to_nat (next r) = Some (read (ring c) (next r)) /\
        forall seq, prod c = P_claimed seq -> index seq <> index (next r))) /\
  (prod c = P_idle -> snd (try_claim (ring c)) = if gating_ (ring c) <? alen (published c) - SIZE then -1 else alen (published c)).
Proof.
  intros Rc Sm. destruct (seq_reachable_ok c Rc Sm) as [L W Cu G Wi Sl Rd]. pose proof seq_SIZE_pos. unfold small in Sm. split.
  - intros i Hi. cbv zeta. destruct (Rd i Hi) as (? & ? & ? & ?). split_and!; [done|lia|lia|].
    intros Le. split; [apply Sl; lia|]. intros seq Ep. rewrite Ep in W. cbn in W. intros E%index_inj; lia.
  - intros Ep. rewrite Ep in W. cbn in W. pose proof (alen_nonneg (published c)). rewrite claim_spec by lia.
    replace (next_seq_ (ring c)) with (alen (published c)) by lia. by destruct (_ <? _).
Qed.
End sequencer.

(** ** A run: two slots, two consumers *)

Lemma sequencer_broadcast_witness : exists rs,
  let c := mkConfig (mkSequencer [30; 20] 1 0 3) (P_written 2 30) rs [10; 20] in
  seen (rs 1%nat) = [10] /\ seen (rs 0%nat) = list.take 2 (published c).
Proof.
  assert (R : exists rs, rtc (step 0 1 2) (initial 0 1) (mkConfig (mkSequencer [30; 20] 1 0 3) (P_written 2 30) rs [10; 20]) /\
    next (rs 0%nat) = 2 /\ next (rs 1%nat) = 1).
  { eexists. split.
    - do 2 (eapply rtc_l; [eapply claim; [reflexivity|done]|]; eapply rtc_l; [apply write|]; eapply rtc_l; [apply publish_it|]).
      do 2 (eapply rtc_l; [apply (look 0 1 2 0%nat); lia|]; eapply rtc_l; [apply (take 0 1 2 0%nat); [lia|vm_compute; done]|]).
      eapply rtc_l; [apply (look 0 1 2 1%nat); lia|]. eapply rtc_l; [apply (take 0 1 2 1%nat); [lia|vm_compute; done]|].
      eapply rtc_l; [apply (mark 0 1 2 0); [vm_compute; done|intros [|[|i]]; [vm_compute; done..|lia]]|].
      eapply rtc_l; [eapply claim; [reflexivity|done]|]. eapply rtc_l; [apply (write 0 1 2 _ _ 30)|]. apply rtc_refl.
    - split; vm_compute; done. }
  destruct R as (rs & R & N0 & N1). exists rs. destruct (sequencer_broadcast 0 1 2 _ R) as [A _]; [unfold small; vm_compute; done|].
  pose proof (A 0%nat ltac:(lia)) as (A0 & _). pose proof (A 1%nat ltac:(lia)) as (A1 & _). cbn in A0, A1. rewrite N0 in A0. rewrite N1 in A1. done.
Defined.
