(* ===== verification/Waitable.v ===== *)
(** * Waitable: the queue whose consumer can sleep

    [lockfree/waitable_mpsc.hpp] on top of the single-consumer queue of [Mpmc]:
    the same step functions run inside [push], [try_pop] and [pop_wait], with
    the mutex, the condition variable and the flag [has_waiter_] around them.
    [wait_for] is the loop the standard prescribes: test the predicate; if it
    fails, release the mutex and sleep in one step; on a notification, a
    spurious wake-up or the timeout, take the mutex and test again, a last time
    after a timeout.

    The consumer's store to [has_waiter_] is a release store.  On hardware such
    a store may become visible after later loads of the same thread; [lazy]
    tells whether it does.  Taking or releasing the mutex makes it visible. *)
From stdpp Require Import functions.
From S2P Require Import Prelude Mpmc.

Section waitable.
Context {T : Type} (zero : T) (k : nat) (lazy : bool).

(** [has_waiter_] as the producers see it; [unseen] is the consumer's store that
    is not visible yet. *)
Record WaitableMPSCQueue := mkWaitable { q_ : Queue (T := T); mtx_ : bool; has_waiter_ : bool; unseen : option bool }.
#[local] Instance eta_waitable : Settable WaitableMPSCQueue := fun w => mkWaitable (q_ w) (mtx_ w) (has_waiter_ w) (unseen w).
Definition new_waitable : WaitableMPSCQueue := mkWaitable (new_queue zero k) false false None.

Definition drain (w : WaitableMPSCQueue) : WaitableMPSCQueue :=
  match unseen w with Some b => w <| has_waiter_ := b |> <| unseen := None |> | None => w end.
Definition store_flag (w : WaitableMPSCQueue) (b : bool) : WaitableMPSCQueue :=
  if lazy then w <| unseen := Some b |> else w <| has_waiter_ := b |>.
(** [None] while another thread holds the mutex. *)
Definition lock (w : WaitableMPSCQueue) : option WaitableMPSCQueue :=
  if mtx_ w then None else Some (w <| mtx_ := true |>).
Definition unlock (w : WaitableMPSCQueue) : WaitableMPSCQueue := w <| mtx_ := false |>.

(** [push]: inside [q_.push]; about to load the flag; about to take the mutex,
    to notify, to release it. *)
Inductive pusher := W_push (p : producer (T := T)) | W_flag | W_lock | W_notify | W_unlock.
(** The flag of the result says whether the step was [notify_one]. *)
Definition push_step (weak : bool) (w : WaitableMPSCQueue) (p : pusher) : option (WaitableMPSCQueue * (pusher + bool) * bool) :=
  match p with
  | W_push p =>
      match produce zero k weak (q_ w) p with
      | (q', inl p') => Some (w <| q_ := q' |>, inl (W_push p'), false)
      | (q', inr ok) => Some (w <| q_ := q' |>, if (ok : bool) then inl W_flag else inr false, false)
      end
  | W_flag => Some (w, if has_waiter_ w then inl W_lock else inr true, false)
  | W_lock => w' ← lock w; Some (w', inl W_notify, false)
  | W_notify => Some (w, inl W_unlock, true)
  | W_unlock => Some (unlock w, inr true, false)
  end.

(** [pop_wait]; [last] says that the time is up. *)
Inductive popper :=
| X_try (s : single (T := T))            (* the first [q_.pop] *)
| X_lock | X_raise                       (* take the mutex, raise the flag *)
| X_tail (last : bool)                   (* the predicate: load [tail_] *)
| X_test (last : bool) (pos : Z)         (* then the cell's number *)
| X_wait                                 (* release the mutex and sleep *)
| X_asleep
| X_relock (last : bool)
| X_lower (woke : bool) | X_unlock (woke : bool)
| X_pop (s : single (T := T)).           (* the second [q_.pop] *)
(** Why a sleeping consumer wakes up without a notification. *)
Inductive cause := Spurious | Timeout.

Definition pop_step (why : cause) (w : WaitableMPSCQueue) (c : popper) : option (WaitableMPSCQueue * (popper + option T)) :=
  match c with
  | X_try s =>
      match consume_single zero k (q_ w) s with
      | (q', inl s') => Some (w <| q_ := q' |>, inl (X_try s'))
      | (q', inr None) => Some (w <| q_ := q' |>, inl X_lock)
      | (q', inr (Some v)) => Some (w <| q_ := q' |>, inr (Some v))
      end
  | X_lock => w' ← lock (drain w); Some (w', inl X_raise)
  | X_raise => Some (store_flag w true, inl (X_tail false))
  | X_tail last => Some (w, inl (X_test last (tail_ (q_ w))))
  | X_test last pos =>
      Some (w, inl (if seq (cell zero k (q_ w) pos) =? u64 (pos + 1) then X_lower true else if last then X_lower false else X_wait))
  | X_wait => Some (unlock (drain w), inl X_asleep)
  | X_asleep => Some (w, inl (X_relock (match why with Spurious => false | Timeout => true end)))
  | X_relock last => w' ← lock w; Some (w', inl (X_tail last))
  | X_lower woke => Some (store_flag w false, inl (X_unlock woke))
  | X_unlock woke => Some (unlock (drain w), if woke then inl (X_pop S_load) else inr None)
  | X_pop s =>
      match consume_single zero k (q_ w) s with
      | (q', inl s') => Some (w <| q_ := q' |>, inl (X_pop s'))
      | (q', inr r) => Some (w <| q_ := q' |>, inr r)
      end
  end.
Definition notified (c : option popper) : option popper :=
  match c with Some X_asleep => Some (X_relock false) | _ => c end.

(** Any number of producers and one consumer; its stored flag may become
    visible at any time. *)
Record state := mkState { queue : WaitableMPSCQueue; pushers : nat -> option pusher; waiter : option popper }.
Inductive move := Push (i : nat) (item : T) | GoPush (i : nat) (weak : bool) | PopWait | GoPop (why : cause) | Drain.
Definition exec (s : state) (m : move) : option state :=
  let 'mkState w P c := s in
  match m with
  | Push i item => match P i with None => Some (mkState w (<[i := Some (W_push (P_load item))]> P) c) | Some _ => None end
  | GoPush i weak =>
      p ← P i; '(w', o, notify) ← push_step weak w p;
      Some (mkState w' (<[i := going o]> P) (if (notify : bool) then notified c else c))
  | PopWait => match c with None => Some (mkState w P (Some (X_try S_load))) | Some _ => None end
  | GoPop why => c ← c; '(w', o) ← pop_step why w c; Some (mkState w' P (going o))
  | Drain => Some (mkState (drain w) P c)
  end.
Definition start : state := mkState new_waitable (fun _ => None) None.
Definition reach (s : state) : Prop := rtc (fun s s' => exists m, exec s m = Some s') start s.

Definition is_empty (w : WaitableMPSCQueue) : bool := empty zero k (q_ w).
(** The consumer sleeps, or is about to, and nothing has woken it. *)
Definition sleeping (c : option popper) : bool := match c with Some (X_wait | X_asleep) => true | _ => false end.
(** A producer that will notify. *)
Definition notifier (w : WaitableMPSCQueue) (p : pusher) : Prop :=
  match p with W_flag => has_waiter_ w = true | W_lock | W_notify => True | _ => False end.

(** ** Emptiness *)

(** Only publishing an item can end the emptiness of the queue. *)
Lemma put_data_empty q pos x : empty zero k (put_data k q pos x) = empty zero k q.
Proof.
  unfold empty, cell, put_data, set_field. cbn. do 2 f_equal.
  destruct (decide (index k pos = index k (tail_ q))) as [->|N]; [rewrite list_lookup_alter_eq; by destruct (_ !! _)|].
  by rewrite list_lookup_alter_ne.
Qed.
Lemma produce_empty weak q p q' p' : produce zero k weak q p = (q', inl p') -> empty zero k q' = empty zero k q /\ tail_ q' = tail_ q.
Proof.
  destruct p as [item|item pos|item pos n|item pos|item pos]; cbn; try (by intros [= <- <-]).
  - destruct (_ =? 0); [|by destruct (_ <? 0); intros [= <- <-]]. destruct (_ && _)%bool; by intros [= <- <-].
  - intros [= <- <-]. split; [apply put_data_empty|done].
Qed.
Lemma produce_refuse weak q p q' : produce zero k weak q p = (q', inr false) -> q' = q.
Proof.
  destruct p as [item|item pos|item pos n|item pos|item pos]; cbn; try done.
  destruct (_ =? 0); [by destruct (_ && _)%bool|]. destruct (_ <? 0); by intros [= <-].
Qed.
Lemma produce_tail_kept weak q p q' o : produce zero k weak q p = (q', o) -> tail_ q' = tail_ q.
Proof. intros E. pose proof (produce_keeps_tail zero k weak q p) as F. by rewrite E in F. Qed.

(** ** The invariant, when stores are visible at once *)

Definition raised (c : popper) : bool :=
  match c with X_tail _ | X_test _ _ | X_wait | X_asleep | X_relock _ | X_lower _ => true | _ => false end.
Definition waiter_holds (c : popper) : bool :=
  match c with X_raise | X_tail _ | X_test _ _ | X_wait | X_lower _ | X_unlock _ => true | _ => false end.
Definition pusher_holds (p : pusher) : bool := match p with W_notify | W_unlock => true | _ => false end.
Definition tested (w : WaitableMPSCQueue) (c : popper) : Prop := match c with X_test _ pos => pos = tail_ (q_ w) | _ => True end.

Record state_ok (s : state) : Prop := {
  ok_seen : unseen (queue s) = None;
  ok_flag : forall c, waiter s = Some c -> raised c = true -> has_waiter_ (queue s) = true;
  ok_waiter : forall c, waiter s = Some c -> waiter_holds c = true -> mtx_ (queue s) = true;
  ok_pusher : forall i p, pushers s i = Some p -> pusher_holds p = true ->
    mtx_ (queue s) = true /\ (forall c, waiter s = Some c -> waiter_holds c = false) /\
    (forall j p', pushers s j = Some p' -> pusher_holds p' = true -> i = j);
  ok_tested : forall c, waiter s = Some c -> tested (queue s) c;
  ok_wake : sleeping (waiter s) = true -> is_empty (queue s) = false -> exists i p, pushers s i = Some p /\ notifier (queue s) p
}.

#[local] Ltac proj := cbn [queue pushers waiter q_ mtx_ has_waiter_ unseen] in *.
Lemma sleeping_raised c : sleeping c = true -> exists x, c = Some x /\ raised x = true /\ waiter_holds x = (if x is X_asleep then false else true).
Proof. destruct c as [[]|]; try done; intros _; eexists; done. Qed.

(** A producer's step that leaves the mutex and the flag alone. *)
Lemma pusher_moves w q' P c i p (o : option pusher) :
  state_ok (mkState w P c) -> P i = Some p -> pusher_holds p = false -> (forall p', o = Some p' -> pusher_holds p' = false) ->
  tail_ q' = tail_ (q_ w) ->
  (is_empty (w <| q_ := q' |>) = is_empty w /\ (notifier w p -> exists p', o = Some p' /\ notifier w p') \/ o = Some W_flag) ->
  state_ok (mkState (w <| q_ := q' |>) (<[i := o]> P) c).
Proof.
  intros [S F Wh Ph Te Wk] Hi Hp Ho Tl Hw. split; proj; try done.
  - intros j p' Hj Hh. rewrite fn_insert_at in Hj. case_decide as N; [by rewrite (Ho _ Hj) in Hh|].
    destruct (Ph j p' Hj Hh) as (? & ? & U). split_and!; [done|done|]. intros m pm Hm Hmh. rewrite fn_insert_at in Hm.
    case_decide; [by rewrite (Ho _ Hm) in Hmh|by eapply U].
  - intros x Hx. specialize (Te x Hx). destruct x; cbn in *; congruence.
  - intros Sl Em. destruct Hw as [[Ee Nt]| ->].
    + rewrite Ee in Em. destruct (Wk Sl Em) as (j & pj & Hj & Nj). destruct (decide (j = i)) as [->|N].
      * rewrite Hi in Hj. injection Hj as <-. destruct (Nt Nj) as (p' & -> & ?). exists i, p'. by rewrite fn_lookup_insert.
      * exists j, pj. by rewrite fn_lookup_insert_ne.
    + exists i, W_flag. rewrite fn_lookup_insert. split; [done|]. destruct (sleeping_raised _ Sl) as (x & Hx & ? & _). by apply (F x).
Qed.
Lemma q_eta (w : WaitableMPSCQueue) : w <| q_ := q_ w |> = w.
Proof. by destruct w. Qed.

Lemma push_ok w P c i weak p w' o nt : state_ok (mkState w P c) -> P i = Some p -> push_step weak w p = Some (w', o, nt) ->
  state_ok (mkState w' (<[i := going o]> P) (if (nt : bool) then notified c else c)).
Proof.
  intros K Hi E. destruct p as [p| | | |]; cbn [push_step] in E.
  - destruct (produce zero k weak (q_ w) p) as [q' [p'|ok]] eqn:Ep.
    + injection E as <- <- <-. destruct (produce_empty _ _ _ _ _ Ep). eapply pusher_moves; [done|done|done|by intros ? [= <-]|done|]. by left.
    + pose proof (produce_tail_kept _ _ _ _ _ Ep). destruct ok; injection E as <- <- <-.
      * eapply pusher_moves; [done|done|done|by intros ? [= <-]|done|by right].
      * apply produce_refuse in Ep as ->. eapply pusher_moves; [done|done|done|done|done|]. by left.
  - injection E as <- <- <-. rewrite <- (q_eta w) at 1. eapply pusher_moves; [done|done|done|by destruct (has_waiter_ w); intros ? [= <-]|done|].
    left. split; [by rewrite q_eta|]. cbn. intros ->. by eexists.
  - unfold lock in E. destruct (mtx_ w) eqn:M; [done|]. injection E as <- <- <-. destruct K as [S F Wh Ph Te Wk]. proj. split; proj; try done.
    + intros j p' Hj Hh. rewrite fn_insert_at in Hj. case_decide as N.
      * injection Hj as <-. split_and!; [done| |].
        -- intros x Hx. destruct (waiter_holds x) eqn:Hw; [|done]. specialize (Wh x Hx Hw). congruence.
        -- intros m pm Hm Hmh. rewrite fn_insert_at in Hm. case_decide; [congruence|]. destruct (Ph m pm Hm Hmh). congruence.
      * destruct (Ph j p' Hj Hh). congruence.
    + intros Sl Em. exists i, W_notify. by rewrite fn_lookup_insert.
  - injection E as <- <- <-. destruct K as [S F Wh Ph Te Wk]. proj. destruct (Ph i _ Hi eq_refl) as (M & Nw & U).
    assert (Hc : forall x, notified c = Some x -> exists y, c = Some y /\ raised x = raised y /\ waiter_holds x = waiter_holds y /\ (tested w y -> tested w x)).
    { intros x. destruct c as [[]|]; intros [= <-]; by eexists. }
    split; proj; try done.
    + intros x Hx. destruct (Hc x Hx) as (y & Hy & -> & _). by apply F.
    + intros j p' Hj Hh. rewrite fn_insert_at in Hj. assert (j = i) as ->.
      { case_decide; [done|]. symmetry. by eapply (U j p'). }
      split_and!; [done| |].
      * intros x Hx. destruct (Hc x Hx) as (y & Hy & _ & -> & _). by apply Nw.
      * intros m pm Hm Hmh. rewrite fn_insert_at in Hm. case_decide; [done|]. by eapply (U m pm).
    + intros x Hx. destruct (Hc x Hx) as (y & Hy & _ & _ & Ht). apply Ht, Te, Hy.
    + intros Sl _. destruct c as [[]|]; try done. by specialize (Nw _ eq_refl).
  - injection E as <- <- <-. destruct K as [S F Wh Ph Te Wk]. proj. destruct (Ph i _ Hi eq_refl) as (M & Nw & U).
    split; proj; try done.
    + intros x Hx Hw. by rewrite (Nw x Hx) in Hw.
    + intros j p' Hj Hh. rewrite fn_insert_at in Hj. case_decide as N; [done|]. exfalso. apply N. symmetry. by eapply (U j p').
    + intros Sl Em. destruct (Wk Sl Em) as (j & pj & Hj & Nj). exists j, pj. rewrite fn_insert_at. case_decide; [|done]. subst. by rewrite Hi in Hj; injection Hj as <-.
Qed.

(** The consumer's steps, by what they do to the mutex and the flag. *)
Lemma waiter_moves w w' P c (o : option popper) :
  state_ok (mkState w P (Some c)) -> unseen w' = None ->
  (forall x, o = Some x -> raised x = true -> has_waiter_ w' = true) ->
  (forall x, o = Some x -> waiter_holds x = true -> mtx_ w' = true /\ (mtx_ w = false \/ waiter_holds c = true)) ->
  (mtx_ w' = mtx_ w \/ mtx_ w = false \/ waiter_holds c = true) ->
  (forall x, o = Some x -> tested w' x) ->
  (sleeping o = true -> is_empty w' = true \/ sleeping (Some c) = true /\ is_empty w' = is_empty w /\ has_waiter_ w' = has_waiter_ w) ->
  state_ok (mkState w' P o).
Proof.
  intros [S F Wh Ph Te Wk] Un Fl Ho Mx Ts Sl. proj. split; proj; try done.
  - intros x Hx Hw. by apply (Ho x).
  - intros i p Hi Hp. destruct (Ph i p Hi Hp) as (M & Nw & U). specialize (Nw c eq_refl).
    assert (Mw : mtx_ w' = true) by (destruct Mx as [->|[?|?]]; congruence). split_and!; [done| |done].
    intros x Hx. destruct (waiter_holds x) eqn:Hw; [|done]. destruct (Ho x Hx Hw) as (_ & [?|?]); congruence.
  - intros Hs Em. destruct (Sl Hs) as [?|(Hc & Ee & Ef)]; [congruence|]. rewrite Ee in Em. destruct (Wk Hc Em) as (i & p & Hi & Ni).
    exists i, p. split; [done|]. destruct p; cbn in *; congruence.
Qed.
Lemma drain_none (w : WaitableMPSCQueue) : unseen w = None -> drain w = w.
Proof. unfold drain. by intros ->. Qed.
Context (prompt : lazy = false).
#[local] Ltac moves := eapply waiter_moves; [done|try done..]; try (intros ? [= <-]); cbn; try done; try (by intuition); try (by left); intros; try done.
Lemma pop_ok w P c why w' o : state_ok (mkState w P (Some c)) -> pop_step why w c = Some (w', o) -> state_ok (mkState w' P (going o)).
Proof.
  intros K E. pose proof K as [S F Wh Ph Te _]. proj. specialize (F c eq_refl). specialize (Wh c eq_refl). specialize (Te c eq_refl).
  destruct c as [s| | |last|last pos| | |last|woke|woke|s]; cbn [pop_step] in E; unfold store_flag, lock, unlock in E; rewrite ?prompt, ?drain_none in E by done;
    cbn in F, Wh, Te; try specialize (F eq_refl); try specialize (Wh eq_refl).
  - destruct (consume_single zero k (q_ w) s) as [q' [s'|[v|]]]; injection E as <- <-; moves.
  - destruct (mtx_ w) eqn:M; [done|]. injection E as <- <-. moves.
  - injection E as <- <-. moves.
  - injection E as <- <-. moves.
  - injection E as <- <-. subst pos.
    destruct (seq (cell zero k (q_ w) (tail_ (q_ w))) =? u64 (tail_ (q_ w) + 1)) eqn:X; [|destruct last]; moves.
    left. unfold is_empty, empty. by rewrite X.
  - injection E as <- <-. moves.
  - injection E as <- <-. moves.
  - destruct (mtx_ w) eqn:M; [done|]. injection E as <- <-. moves.
  - injection E as <- <-. moves.
  - destruct woke; injection E as <- <-; moves.
  - destruct (consume_single zero k (q_ w) s) as [q' [s'|r]]; injection E as <- <-; moves.
Qed.

Lemma exec_ok s m s' : exec s m = Some s' -> state_ok s -> state_ok s'.
Proof.
  destruct s as [w P c]. destruct m as [i item|i weak| |why|]; cbn [exec]; cbv [mbind option_bind]; intros E K.
  - destruct (P i) eqn:Hi; [done|]. injection E as <-. destruct K as [S F Wh Ph Te Wk]. proj.
    assert (Old : forall j p, <[i := Some (W_push (P_load item))]> P j = Some p -> pusher_holds p = true -> P j = Some p).
    { intros j p Hj Hh. rewrite fn_insert_at in Hj. case_decide; [by injection Hj as <-|done]. }
    split; proj; try done.
    + intros j p Hj Hh. destruct (Ph j p (Old _ _ Hj Hh) Hh) as (? & ? & U). split_and!; [done|done|]. intros m pm Hm Hmh. by eapply U; [apply Old|].
    + intros Sl Em. destruct (Wk Sl Em) as (j & p & Hj & Nj). exists j, p. rewrite fn_insert_at. case_decide; [congruence|done].
  - destruct (P i) as [p|] eqn:Hi; [|done]. destruct (push_step weak w p) as [[[w' o] nt]|] eqn:Ep; [|done]. injection E as <-. by eapply push_ok.
  - destruct c as [c|]; [done|]. injection E as <-. destruct K as [S F Wh Ph Te Wk]. proj.
    split; proj; try done; try (by intros ? [= <-]). intros i p Hi Hh. destruct (Ph i p Hi Hh) as (? & _ & ?).
    split_and!; [done|by intros ? [= <-]|done].
  - destruct c as [c|]; [|done]. destruct (pop_step why w c) as [[w' o]|] eqn:Ep; [|done]. injection E as <-. by eapply pop_ok.
  - injection E as <-. rewrite drain_none; [done|]. apply K.
Qed.
Lemma wait_reach_ok s : reach s -> state_ok s.
Proof.
  revert s. apply rtc_ind_r.
  - split; cbn; done.
  - intros s s' _ [m E]. by eapply exec_ok.
Qed.

End waitable.

(** ** Scripts *)

Definition play (lazy : bool) (ms : list move) : option (state (T := Z)) :=
  foldl (fun s m => s ≫= fun s => exec 0 1 lazy s m) (Some (start 0 1)) ms.
Lemma play_reach lazy ms s : play lazy ms = Some s -> reach 0 1 lazy s.
Proof.
  unfold play, reach. revert s. induction ms as [|m ms IH] using rev_ind; cbn; intros s E; [by injection E as <-|].
  rewrite foldl_snoc in E. destruct (foldl _ _ ms) as [s0|]; [|done]. cbn in E. eapply rtc_r; [by apply IH|by exists m].
Qed.
Definition demo (lazy : bool) (ms : list move) : state := default (start 0 1) (play lazy ms).
Lemma demo_reach lazy ms : bool_decide (is_Some (play lazy ms)) = true -> reach 0 1 lazy (demo lazy ms).
Proof. intros [s E]%bool_decide_eq_true. unfold demo. rewrite E. by eapply play_reach. Qed.

(** The consumer finds nothing, takes the mutex, raises the flag and tests the
    predicate; then a producer pushes and reads the flag; then the consumer
    releases the mutex and sleeps. *)
Definition crossing : list (move (T := Z)) :=
  PopWait :: replicate 7 (GoPop Spurious) ++ Push 0 42 :: replicate 6 (GoPush 0 false) ++ [GoPop Spurious].


(** a release store does not give that: if the raised flag may become
    visible only when the mutex is released, the producer reads it lowered and
    returns without notifying.  The consumer sleeps on a queue that is not
    empty, no producer is in a call, and only a spurious wake-up, another push or
    the timeout gets it going. *)
Lemma waitable_lazy_lost_wakeup :
  exists s, reach 0 1 true s /\ waiter s = Some X_asleep /\ is_empty 0 1 (queue s) = false /\
    (forall i, pushers s i = None) /\ mtx_ (queue s) = false /\
    forall m s', exec 0 1 true s m = Some s' -> (exists i x, m = Push i x) \/ m = Drain \/ exists why, m = GoPop why.
Proof.
  exists (demo true crossing). assert (N : forall i, pushers (demo true crossing) i = None) by (intros [|i]; vm_compute; reflexivity).
  assert (A : waiter (demo true crossing) = Some X_asleep) by (vm_compute; reflexivity).
  split_and!; [by apply demo_reach|done|vm_compute; reflexivity|done|vm_compute; reflexivity|].
  intros [i x|i weak| |why|] s' E; [left; by exists i, x| | |right; right; by exists why|by right; left].
  - exfalso. revert E N. generalize (demo true crossing). intros [w P c] E N. cbn in E, N. by rewrite N in E.
  - exfalso. revert E A. generalize (demo true crossing). intros [w P c] E A. cbn in E, A. by subst c.
Qed.
