(* ===== verification/Strategy.v ===== *)
(** * Strategy: the market maker and the mean-reversion strategy

    [strategy/market_maker.hpp] (two-sided quotes skewed by the inventory) and
    [strategy/mean_reversion.hpp] (a moving average per symbol and the signals
    it gives).  Ticks and shares are 32-bit, cash is 64-bit; averages and
    deviations are [double]s.  The clock readings of the latency counters are
    arguments. *)
From S2P Require Import Prelude Double Common.

(** [static_cast<int32_t>] of a [double], out of range the value of the x86-64
    instruction. *)
Definition dbl_to_i32 (x : double) : Z :=
  match x with
  | S754_nan | S754_infinity _ => INT32_MIN
  | _ => let t := dbl_trunc x in if (INT32_MIN <=? t) && (t <=? INT32_MAX) then t else INT32_MIN
  end.
Definition is_finite (x : double) : bool := match x with S754_nan | S754_infinity _ => false | _ => true end.

(** ** The market maker *)

Record MMConfig := mkMMConfig { quote_size : Z; half_spread_ticks : Z; max_inventory : Z; risk_aversion_ticks : double }.
(** The defaults of the class. *)
Definition default_mm_config : MMConfig := mkMMConfig 10 2 1000 (dratio 5 100).
Record Quote := mkQuote { q_bid_price : Z; q_ask_price : Z; q_bid_size : Z; q_ask_size : Z }.
Record MarketMaker := mkMaker {
  cfg_ : MMConfig; symbol_ : cstr; position_ : Z; cash_ticks_ : Z; last_bid_ : Z; last_ask_ : Z;
  quotes_placed_ : Z; quotes_cancelled_ : Z; fills_received_ : Z;
  last_fill_side_ : Side; last_fill_price_ticks_ : Z; adverse_total_ticks_ : Z }.
#[export] Instance eta_maker : Settable MarketMaker := fun m =>
  mkMaker (cfg_ m) (symbol_ m) (position_ m) (cash_ticks_ m) (last_bid_ m) (last_ask_ m) (quotes_placed_ m)
    (quotes_cancelled_ m) (fills_received_ m) (last_fill_side_ m) (last_fill_price_ticks_ m) (adverse_total_ticks_ m).
Definition new_maker (c : MMConfig) (sym : cstr) : MarketMaker := mkMaker c (copy_sym sym) 0 0 0 0 0 0 0 BUY 0 0.

Definition skew (m : MarketMaker) : Z :=
  dbl_to_i32 (dmul (dneg (dbl_of_Z (position_ m))) (risk_aversion_ticks (cfg_ m))).
Definition no_quote : Quote := mkQuote 0 0 0 0.
(** The prices of the two sides; a side at its inventory limit is off. *)
Definition target (m : MarketMaker) (best_bid best_ask : Z) : Quote :=
  let mid := Z.quot (i32 (best_bid + best_ask)) 2 in
  let bid_target := i32 (i32 (mid - half_spread_ticks (cfg_ m)) + skew m) in
  let ask_target := i32 (i32 (mid + half_spread_ticks (cfg_ m)) + skew m) in
  let bid_on := position_ m <? max_inventory (cfg_ m) in
  let ask_on := - max_inventory (cfg_ m) <? position_ m in
  mkQuote (if bid_on then bid_target else 0) (if ask_on then ask_target else 0)
    (if bid_on then quote_size (cfg_ m) else 0) (if ask_on then quote_size (cfg_ m) else 0).
Definition quote (m : MarketMaker) (best_bid best_ask : Z) : MarketMaker * Quote :=
  if (best_bid <=? 0) || (best_ask <=? 0) || (best_ask <=? best_bid) then (m, no_quote) else
  let q := target m best_bid best_ask in
  let changed := negb (q_bid_price q =? last_bid_ m) || negb (q_ask_price q =? last_ask_ m) in
  let had := negb (last_bid_ m =? 0) || negb (last_ask_ m =? 0) in
  (m <| quotes_cancelled_ ::= fun n => if changed && had then u64 (n + 1) else n |>
     <| quotes_placed_ ::= fun n => if changed then u64 (n + 1) else n |>
     <| last_bid_ := q_bid_price q |> <| last_ask_ := q_ask_price q |>, q).

Definition apply_fill (m : MarketMaker) (side : Side) (qty price_ticks : Z) : MarketMaker :=
  if qty <=? 0 then m else
  let m := m <| fills_received_ ::= fun n => u64 (n + 1) |> <| last_fill_side_ := side |>
             <| last_fill_price_ticks_ := price_ticks |> in
  match side with
  | BUY => m <| position_ ::= fun p => i32 (p + qty) |> <| cash_ticks_ ::= fun c => i64 (c - qty * price_ticks) |>
  | SELL => m <| position_ ::= fun p => i32 (p - qty) |> <| cash_ticks_ ::= fun c => i64 (c + qty * price_ticks) |>
  end.
Definition mark_post_fill_move (m : MarketMaker) (new_mid_ticks : Z) : MarketMaker :=
  if last_fill_price_ticks_ m <=? 0 then m else
  let delta := i32 (new_mid_ticks - last_fill_price_ticks_ m) in
  let adverse := match last_fill_side_ m with BUY => i32 (- delta) | SELL => delta end in
  m <| adverse_total_ticks_ ::= fun t => i64 (t + adverse) |> <| last_fill_price_ticks_ := 0 |>.
Definition avg_adverse_ticks_per_fill (m : MarketMaker) : double :=
  if 0 <? fills_received_ m then ddiv (dbl_of_Z (adverse_total_ticks_ m)) (dbl_of_Z (fills_received_ m)) else d_zero.
Definition pnl_ticks (m : MarketMaker) (mid_ticks : Z) : Z := i64 (cash_ticks_ m + i64 (position_ m * mid_ticks)).
Definition pnl (m : MarketMaker) (mid_ticks : Z) : double := ddiv (dbl_of_Z (pnl_ticks m mid_ticks)) (dbl_of_Z 100).

(** One turn of a runner: a quote, then at most one fill on each of its sides,
    of no more than the side's size. *)
Record turn := mkTurn { t_bid : Z; t_ask : Z; t_bought : Z; t_sold : Z }.
Definition play_turn (m : MarketMaker) (t : turn) : MarketMaker :=
  let '(m, q) := quote m (t_bid t) (t_ask t) in
  let m := apply_fill m BUY (Z.min (t_bought t) (q_bid_size q)) (q_bid_price q) in
  apply_fill m SELL (Z.min (t_sold t) (q_ask_size q)) (q_ask_price q).

(** Shares and cash of a turn's fills. *)
Definition turn_net (m : MarketMaker) (t : turn) : Z :=
  let q := (quote m (t_bid t) (t_ask t)).2 in
  Z.max 0 (Z.min (t_bought t) (q_bid_size q)) - Z.max 0 (Z.min (t_sold t) (q_ask_size q)).
Definition turn_cash (m : MarketMaker) (t : turn) : Z :=
  let q := (quote m (t_bid t) (t_ask t)).2 in
  Z.max 0 (Z.min (t_sold t) (q_ask_size q)) * q_ask_price q - Z.max 0 (Z.min (t_bought t) (q_bid_size q)) * q_bid_price q.

Record mm_ok (c : MMConfig) : Prop := {
  ok_size : 0 <= quote_size c; ok_cap : 0 < max_inventory c; ok_room : max_inventory c + quote_size c <= INT32_MAX }.
Definition within_cap (m : MarketMaker) : Prop :=
  - (max_inventory (cfg_ m) + quote_size (cfg_ m)) < position_ m < max_inventory (cfg_ m) + quote_size (cfg_ m).

Lemma quote_keeps m b a : let m' := (quote m b a).1 in
  cfg_ m' = cfg_ m /\ position_ m' = position_ m /\ cash_ticks_ m' = cash_ticks_ m.
Proof. unfold quote. by destruct (_ || _)%bool. Qed.
Lemma quote_sides m b a : let q := (quote m b a).2 in 0 <= quote_size (cfg_ m) ->
  (0 <= q_bid_size q <= quote_size (cfg_ m)) /\ (0 <= q_ask_size q <= quote_size (cfg_ m)) /\
  (0 < q_bid_size q -> position_ m < max_inventory (cfg_ m)) /\ (0 < q_ask_size q -> - max_inventory (cfg_ m) < position_ m).
Proof.
  cbv zeta. unfold quote. intros H. destruct (_ || _)%bool; cbn [snd]; [cbn; lia|]. unfold target. cbn [q_bid_size q_ask_size].
  repeat zcase; lia.
Qed.
Lemma apply_fill_buy m n px : let m' := apply_fill m BUY n px in
  cfg_ m' = cfg_ m /\ position_ m' = (if n <=? 0 then position_ m else i32 (position_ m + n)) /\
  cash_ticks_ m' = (if n <=? 0 then cash_ticks_ m else i64 (cash_ticks_ m - n * px)).
Proof. cbv zeta. unfold apply_fill. by destruct (n <=? 0). Qed.
Lemma apply_fill_sell m n px : let m' := apply_fill m SELL n px in
  cfg_ m' = cfg_ m /\ position_ m' = (if n <=? 0 then position_ m else i32 (position_ m - n)) /\
  cash_ticks_ m' = (if n <=? 0 then cash_ticks_ m else i64 (cash_ticks_ m + n * px)).
Proof. cbv zeta. unfold apply_fill. by destruct (n <=? 0). Qed.

Lemma play_turn_ok m t : mm_ok (cfg_ m) -> within_cap m -> let m' := play_turn m t in
  cfg_ m' = cfg_ m /\ within_cap m' /\ position_ m' = position_ m + turn_net m t /\
  i64 (cash_ticks_ m') = i64 (cash_ticks_ m + turn_cash m t).
Proof.
  intros [Hs Hc Hr] W. cbv zeta. unfold play_turn, turn_net, turn_cash, within_cap in *.
  pose proof (quote_keeps m (t_bid t) (t_ask t)) as K. pose proof (quote_sides m (t_bid t) (t_ask t) Hs) as Sd.
  destruct (quote m (t_bid t) (t_ask t)) as [m1 q]. cbn [fst snd] in *. destruct K as (Kc & Kp & Kk). destruct Sd as (S1 & S2 & S3 & S4).
  set (n1 := Z.min (t_bought t) (q_bid_size q)). set (n2 := Z.min (t_sold t) (q_ask_size q)).
  assert (N1 : n1 <= q_bid_size q) by (unfold n1; lia). assert (N2 : n2 <= q_ask_size q) by (unfold n2; lia). clearbody n1 n2.
  pose proof (apply_fill_buy m1 n1 (q_bid_price q)) as A. cbv zeta in A.
  pose proof (apply_fill_sell (apply_fill m1 BUY n1 (q_bid_price q)) n2 (q_ask_price q)) as B. cbv zeta in B.
  generalize dependent (apply_fill (apply_fill m1 BUY n1 (q_bid_price q)) SELL n2 (q_ask_price q)). intros m3 (Bc & Bp & Bk).
  destruct A as (Ac & Ap & Ak). rewrite Bc, Ac, Kc, Bp, Bk, Ap, Ak, Kp, Kk. unfold INT32_MAX in *.
  assert (Up : position_ m + Z.max 0 n1 < max_inventory (cfg_ m) + quote_size (cfg_ m)).
  { destruct (decide (0 < n1)); [|lia]. specialize (S3 ltac:(lia)). lia. }
  assert (Dn : - (max_inventory (cfg_ m) + quote_size (cfg_ m)) < position_ m + Z.max 0 n1 - Z.max 0 n2).
  { destruct (decide (0 < n2)); [|lia]. specialize (S4 ltac:(lia)). lia. }
  assert (P1 : (if n1 <=? 0 then position_ m else i32 (position_ m + n1)) = position_ m + Z.max 0 n1).
  { zcase; [lia|]. rewrite i32_small; lia. }
  rewrite P1. assert (P2 : (if n2 <=? 0 then position_ m + Z.max 0 n1 else i32 (position_ m + Z.max 0 n1 - n2)) = position_ m + Z.max 0 n1 - Z.max 0 n2).
  { zcase; [lia|]. rewrite i32_small; lia. }
  rewrite P2. split_and!; [done|lia|lia|lia|].
  destruct (Z.leb_spec n1 0), (Z.leb_spec n2 0);
    rewrite ?(Z.max_l 0 n1), ?(Z.max_l 0 n2), ?(Z.max_r 0 n1), ?(Z.max_r 0 n2) by lia; wrap_norm; f_equal; ring.
Qed.

Definition play_turns (m : MarketMaker) (l : list turn) : MarketMaker := foldl play_turn m l.
Fixpoint turns_sum (f : MarketMaker -> turn -> Z) (m : MarketMaker) (l : list turn) : Z :=
  match l with [] => 0 | t :: l => f m t + turns_sum f (play_turn m t) l end.

Lemma play_turns_ok l : forall m, mm_ok (cfg_ m) -> within_cap m -> let m' := play_turns m l in
  cfg_ m' = cfg_ m /\ within_cap m' /\ position_ m' = position_ m + turns_sum turn_net m l /\
  i64 (cash_ticks_ m') = i64 (cash_ticks_ m + turns_sum turn_cash m l).
Proof.
  induction l as [|t l IH]; intros m Ok W; cbn [play_turns foldl turns_sum].
  - rewrite !Z.add_0_r. done.
  - destruct (play_turn_ok m t Ok W) as (E & W' & P & C). destruct (IH (play_turn m t)) as (E' & W'' & P' & C'); [by rewrite E|done|].
    fold (play_turns (play_turn m t) l). split_and!; [congruence|done|lia|]. rewrite C'.
    rewrite <- wraps_add_l, C, wraps_add_l by lia. f_equal. lia.
Qed.

Definition demo_turns : list turn := [mkTurn 9999 10001 7 0; mkTurn 9990 9992 10 0; mkTurn 9980 9984 10 3].

(** ** Mean reversion *)

Definition MAX_STOCKS : Z := 64.
Definition MAX_WINDOW : Z := 128.
Record Signal := mkSignal {
  sig_timestamp_ns : Z; sig_stock : cstr; sig_side : Side; sig_price : double; sig_quantity : Z;
  sig_sma : double; sig_deviation_pct : double; sig_valid : bool }.
Definition no_signal : Signal := mkSignal 0 [] BUY d_zero 0 d_zero d_zero false.
Record StrategyStats := mkStrategyStats {
  signals_generated : Z; buys : Z; sells : Z; holds : Z; s_total_latency_ns : Z }.
#[export] Instance eta_strategy_stats : Settable StrategyStats := fun s =>
  mkStrategyStats (signals_generated s) (buys s) (sells s) (holds s) (s_total_latency_ns s).
Definition avg_latency_ns (s : StrategyStats) : double := ratio (s_total_latency_ns s) (u64 (signals_generated s + holds s)).

Record PriceWindow := mkWindow {
  w_symbol : cstr; prices : list double; running_sum : double; w_count : Z; w_head : Z; w_size : Z; w_active : bool }.
#[export] Instance eta_window : Settable PriceWindow := fun w =>
  mkWindow (w_symbol w) (prices w) (running_sum w) (w_count w) (w_head w) (w_size w) (w_active w).
Definition price_at (w : PriceWindow) (i : Z) : double := default d_zero (prices w !! Z.to_nat i).
Definition add (w : PriceWindow) (price : double) : PriceWindow :=
  let s := if w_count w =? w_size w then dsub (running_sum w) (price_at w (w_head w)) else running_sum w in
  w <| prices ::= <[Z.to_nat (w_head w) := price]> |>
    <| running_sum := dadd s price |>
    <| w_head := if i32 (w_head w + 1) =? w_size w then 0 else i32 (w_head w + 1) |>
    <| w_count := if w_count w <? w_size w then i32 (w_count w + 1) else w_count w |>.
Definition sma (w : PriceWindow) : double :=
  if w_count w =? 0 then d_zero else ddiv (running_sum w) (dbl_of_Z (w_count w)).
Definition full (w : PriceWindow) : bool := w_size w <=? w_count w.

Record MeanReversionStrategy := mkStrategy {
  windows_ : list PriceWindow; window_size_ : Z; threshold_ : double; order_size_ : Z;
  s_stats_ : StrategyStats; overflow_warned_ : bool }.
#[export] Instance eta_strategy : Settable MeanReversionStrategy := fun m =>
  mkStrategy (windows_ m) (window_size_ m) (threshold_ m) (order_size_ m) (s_stats_ m) (overflow_warned_ m).
Definition new_strategy (window : Z) (threshold_pct : double) (order_size : Z) : MeanReversionStrategy :=
  mkStrategy [] (Z.max 1 (Z.min window MAX_WINDOW)) (ddiv threshold_pct (dbl_of_Z 100)) order_size (mkStrategyStats 0 0 0 0 0) false.
Definition stock_count (m : MeanReversionStrategy) : Z := alen (windows_ m).

(** A slot that was never used holds zeros. *)
Definition new_window (m : MeanReversionStrategy) (stock : cstr) : PriceWindow :=
  mkWindow (copy_sym stock) (replicate (Z.to_nat MAX_WINDOW) d_zero) d_zero 0 0 (window_size_ m) true.
(** The slot of a symbol, made when there is room. *)
Definition find_or_create (m : MeanReversionStrategy) (stock : cstr) : MeanReversionStrategy * option nat :=
  match list_find (fun w => w_symbol w = stock) (windows_ m) with
  | Some (i, _) => (m, Some i)
  | None =>
      if MAX_STOCKS <=? stock_count m then (m <| overflow_warned_ := true |>, None)
      else (m <| windows_ ::= fun l => l ++ [new_window m stock] |>, Some (length (windows_ m)))
  end.
Definition hold (m : MeanReversionStrategy) (t0 t1 : Z) : MeanReversionStrategy :=
  m <| s_stats_ ::= fun s => s <| holds ::= fun n => u64 (n + 1) |> <| s_total_latency_ns ::= fun n => u64 (n + i64 (t1 - t0)) |> |>.
Definition emit_signal (m : MeanReversionStrategy) (stock : cstr) (side : Side) (price sma deviation : double) (ts : Z) : Signal :=
  mkSignal ts (copy_sym stock) side price (order_size_ m) sma (dmul deviation (dbl_of_Z 100)) true.
(** What a window, after the price was added, says. *)
Definition decide_signal (m : MeanReversionStrategy) (w : PriceWindow) (stock : cstr) (price : double) (ts : Z) : Signal :=
  if negb (full w) then no_signal else
  let a := sma w in
  if dle a d_zero then no_signal else
  let deviation := ddiv (dsub price a) a in
  if dgt deviation (threshold_ m) then emit_signal m stock SELL price a deviation ts
  else if dlt deviation (dneg (threshold_ m)) then emit_signal m stock BUY price a deviation ts
  else no_signal.
Definition count_signal (m : MeanReversionStrategy) (s : Signal) (t0 t1 : Z) : MeanReversionStrategy :=
  if sig_valid s then
    m <| s_stats_ ::= fun st =>
      match sig_side s with BUY => st <| buys ::= fun n => u64 (n + 1) |> | SELL => st <| sells ::= fun n => u64 (n + 1) |> end
      <| signals_generated ::= fun n => u64 (n + 1) |> <| s_total_latency_ns ::= fun n => u64 (n + i64 (t1 - t0)) |> |>
  else hold m t0 t1.
Definition on_market_data (m : MeanReversionStrategy) (stock : cstr) (price : double) (ts t0 t1 : Z) : MeanReversionStrategy * Signal :=
  if negb (is_finite price && dgt price d_zero) then (hold m t0 t1, no_signal) else
  let '(m, slot) := find_or_create m stock in
  match slot with
  | None => (hold m t0 t1, no_signal)
  | Some i =>
      let m := m <| windows_ ::= alter (fun w => add w price) i |> in
      let s := decide_signal m (default (new_window m stock) (windows_ m !! i)) stock price ts in
      (count_signal m s t0 t1, s)
  end.

(** *** The ring of prices *)

Record window_ok (W : Z) (sym : cstr) (w : PriceWindow) (ps : list double) : Prop := {
  wk_len : length (prices w) = Z.to_nat MAX_WINDOW;
  wk_size : w_size w = W;
  wk_sym : w_symbol w = sym;
  wk_count : w_count w = Z.min (alen ps) W;
  wk_head : w_head w = alen ps mod W;
  wk_prices : forall i, alen ps - W <= i < alen ps -> 0 <= i -> ps !! Z.to_nat i = Some (price_at w (i mod W))
}.
Lemma add_ok W sym w ps p : 1 <= W <= MAX_WINDOW -> window_ok W sym w ps -> window_ok W sym (add w p) (ps ++ [p]).
Proof.
  intros HW [L S Y C H P]. unfold MAX_WINDOW in *. pose proof (alen_nonneg ps). pose proof (Z.mod_pos_bound (alen ps) W ltac:(lia)) as B.
  assert (N : alen (ps ++ [p]) = alen ps + 1) by (by rewrite alen_app).
  assert (Hd : (alen ps + 1) mod W = if alen ps mod W + 1 =? W then 0 else alen ps mod W + 1).
  { rewrite <- Zplus_mod_idemp_l. zcase; [|apply Z.mod_small; lia]. replace (alen ps mod W + 1) with W by lia. apply Z.mod_same. lia. }
  split; unfold add, set_field; cbn; rewrite ?N.
  - by rewrite length_insert.
  - done.
  - done.
  - rewrite C, S. zcase; [rewrite i32_small; lia|lia].
  - rewrite H, S, i32_small, Hd by lia. done.
  - intros i Hi Hi0. unfold price_at, add, set_field. cbn. rewrite H. destruct (decide (i = alen ps)) as [->|Ne].
    + rewrite list_lookup_insert_eq by lia. unfold alen. by rewrite Nat2Z.id, lookup_app_r, Nat.sub_diag by lia.
    + rewrite lookup_app_l by (unfold alen in *; lia). rewrite list_lookup_insert_ne; [unfold price_at in P; apply P; lia|].
      pose proof (Z.mod_pos_bound i W ltac:(lia)). intros E. assert (E' : alen ps mod W = i mod W) by lia.
      pose proof (Z.div_mod (alen ps) W ltac:(lia)). pose proof (Z.div_mod i W ltac:(lia)).
      assert (W * (alen ps / W) - W * (i / W) = alen ps - i) by lia. assert (i / W < alen ps / W \/ alen ps / W <= i / W) as [?|?] by lia; nia.
Qed.
Definition empty_window (W : Z) (sym : cstr) : PriceWindow :=
  mkWindow sym (replicate (Z.to_nat MAX_WINDOW) d_zero) d_zero 0 0 W true.
Definition window_after (W : Z) (sym : cstr) (ps : list double) : PriceWindow := foldl add (empty_window W sym) ps.
Lemma window_after_ok W sym ps : 1 <= W <= MAX_WINDOW -> window_ok W sym (window_after W sym ps) ps.
Proof.
  intros HW. unfold window_after. induction ps as [|p ps IH] using rev_ind.
  - split; unfold alen; cbn; try done; intros; lia.
  - rewrite foldl_snoc. by apply add_ok.
Qed.
Lemma window_after_snoc W sym ps p : window_after W sym (ps ++ [p]) = add (window_after W sym ps) p.
Proof. unfold window_after. by rewrite foldl_snoc. Qed.

(** *** Runs *)

Record tick := mkTick { tk_stock : cstr; tk_price : double; tk_ts : Z; tk_t0 : Z; tk_t1 : Z }.
Definition good_price (p : double) : bool := is_finite p && dgt p d_zero.
Definition on_tick (m : MeanReversionStrategy) (t : tick) := on_market_data m (tk_stock t) (tk_price t) (tk_ts t) (tk_t0 t) (tk_t1 t).
Definition run_ticks (m : MeanReversionStrategy) (l : list tick) : MeanReversionStrategy := foldl (fun m t => (on_tick m t).1) m l.
(** The prices the strategy accepted for a symbol. *)
Definition history (s : cstr) (l : list tick) : list double :=
  tk_price <$> base.filter (fun t => tk_stock t = s /\ good_price (tk_price t) = true) l.
Lemma history_snoc s l t : history s (l ++ [t]) =
  history s l ++ (if decide (tk_stock t = s /\ good_price (tk_price t) = true) then [tk_price t] else []).
Proof. unfold history. rewrite filter_app, fmap_app. f_equal. cbn. rewrite decide_bool_decide. by case_bool_decide; case_decide. Qed.

Section isolation.
Context (window : Z) (threshold_pct : double) (order_size : Z).
Let m0 := new_strategy window threshold_pct order_size.
Let W := window_size_ m0.
Lemma W_range : 1 <= W <= MAX_WINDOW.
Proof. unfold W, m0. cbn. unfold MAX_WINDOW. lia. Qed.

Record strategy_ok (m : MeanReversionStrategy) (l : list tick) : Prop := {
  so_params : window_size_ m = W /\ threshold_ m = threshold_ m0 /\ order_size_ m = order_size;
  so_nodup : NoDup (w_symbol <$> windows_ m);
  so_windows : forall i w, windows_ m !! i = Some w -> w = window_after W (w_symbol w) (history (w_symbol w) l);
  so_seen : forall s, (exists w, w ∈ windows_ m /\ w_symbol w = s) <-> history s l <> []
}.

Lemma decide_params m w s p ts : threshold_ m = threshold_ m0 -> order_size_ m = order_size ->
  decide_signal m w s p ts = decide_signal m0 w s p ts.
Proof. intros E1 E2. unfold decide_signal, emit_signal. rewrite E1, E2. done. Qed.
Lemma counted m s t0 t1 : let m' := count_signal m s t0 t1 in
  windows_ m' = windows_ m /\ window_size_ m' = window_size_ m /\ threshold_ m' = threshold_ m /\ order_size_ m' = order_size_ m.
Proof. cbv zeta. unfold count_signal. destruct (sig_valid s); [by destruct (sig_side s)|done]. Qed.
Lemma strategy_ok_windows m m' l : windows_ m' = windows_ m -> window_size_ m' = window_size_ m ->
  threshold_ m' = threshold_ m -> order_size_ m' = order_size_ m -> strategy_ok m l -> strategy_ok m' l.
Proof. intros E1 E2 E3 E4 [P N Wi S]. split; rewrite ?E1, ?E2, ?E3, ?E4; done. Qed.
Lemma strategy_ok_skip m l t : good_price (tk_price t) = false -> strategy_ok m l -> strategy_ok m (l ++ [t]).
Proof.
  intros G [P N Wi S]. assert (E : forall s, history s (l ++ [t]) = history s l).
  { intros s. rewrite history_snoc. rewrite decide_False, app_nil_r; [done|]. intros [_ X]. congruence. }
  split; [done|done| |].
  - intros i w Hi. rewrite E. by eapply Wi.
  - intros s. by rewrite E.
Qed.

(** The symbols of the ticks are few enough for the slots, and fit them. *)
Context (U : list cstr) (few : alen U <= MAX_STOCKS) (short : forall s, s ∈ U -> (length s <= 8)%nat).
Definition known (l : list tick) : Prop := forall t, t ∈ l -> tk_stock t ∈ U.

Lemma history_stock s l : history s l <> [] -> exists t, t ∈ l /\ tk_stock t = s.
Proof.
  intros H. destruct (history s l) as [|p ps] eqn:E; [done|]. assert (X : p ∈ history s l) by (rewrite E; left).
  unfold history in X. apply list_elem_of_fmap in X as (t & -> & [[? _] ?]%list_elem_of_filter). by exists t.
Qed.
Lemma room m l s : strategy_ok m l -> known l -> s ∈ U -> s ∉ w_symbol <$> windows_ m -> stock_count m < MAX_STOCKS.
Proof.
  intros [_ N _ S] K Hs Ns. assert (L : (length (s :: (w_symbol <$> windows_ m)) <= length U)%nat).
  { apply submseteq_length, NoDup_submseteq; [by constructor|]. intros x [->|Hx]%elem_of_cons; [done|].
    apply list_elem_of_fmap in Hx as (w & -> & Hw). destruct (history_stock (w_symbol w) l) as (t & Ht & <-); [apply S; by exists w|].
    by apply K. }
  cbn in L. rewrite length_fmap in L. unfold stock_count, alen in *. lia.
Qed.

(** The slot of a symbol holds the window over its history. *)
Lemma slot_ok m l s : strategy_ok m l -> known l -> s ∈ U -> exists m1 i, find_or_create m s = (m1, Some i) /\
  windows_ m1 !! i = Some (window_after W s (history s l)) /\ NoDup (w_symbol <$> windows_ m1) /\
  (forall j w, windows_ m1 !! j = Some w -> w = window_after W (w_symbol w) (history (w_symbol w) l)) /\
  (forall x, (exists w, w ∈ windows_ m1 /\ w_symbol w = x) <-> x = s \/ history x l <> []) /\
  window_size_ m1 = W /\ threshold_ m1 = threshold_ m0 /\ order_size_ m1 = order_size.
Proof.
  intros Ok K Hs. pose proof Ok as [(P1 & P2 & P3) N Wi S]. unfold find_or_create.
  destruct (list_find (fun w => w_symbol w = s) (windows_ m)) as [[i w]|] eqn:F.
  - apply list_find_Some in F as (Hi & Hw & _). exists m, i. split_and!; try done.
    + rewrite Hi. f_equal. rewrite (Wi i w Hi), Hw. done.
    + intros x. rewrite S. split; [by right|]. intros [->|?]; [|done]. apply S. exists w. split; [by eapply list_elem_of_lookup_2|done].
  - apply list_find_None in F. rewrite Forall_forall in F.
    assert (Ns : s ∉ w_symbol <$> windows_ m).
    { intros (w & -> & Hw)%list_elem_of_fmap. by apply (F w Hw). }
    pose proof (room m l s Ok K Hs Ns). zcase; [lia|].
    assert (Hn : history s l = []).
    { destruct (decide (history s l = [])) as [|X]; [done|]. apply S in X as (w & Hw & Ew). exfalso. apply Ns. apply list_elem_of_fmap. by exists w. }
    assert (Nw : new_window m s = window_after W s (history s l)).
    { rewrite Hn. unfold new_window, window_after, empty_window, copy_sym. cbn. rewrite P1, take_ge; [done|]. by apply short. }
    eexists _, _. split_and!; [reflexivity| | | | |done..]; unfold set_field; cbn.
    + rewrite lookup_app_r, Nat.sub_diag, Nw by lia. done.
    + rewrite fmap_app. apply NoDup_app. split_and!; [done| |apply NoDup_singleton]. intros x Hx. rewrite Nw. cbn [fmap list_fmap].
      rewrite list_elem_of_singleton, (wk_sym _ _ _ _ (window_after_ok W s (history s l) W_range)). by intros ->.
    + intros j w. rewrite lookup_app_Some. intros [Hj|[_ Hj]]; [by eapply Wi|]. apply list_lookup_singleton_Some in Hj as [_ <-].
      rewrite Nw. by rewrite (wk_sym _ _ _ _ (window_after_ok W s (history s l) W_range)).
    + intros x. split.
      * intros (w & [Hw|Hw%list_elem_of_singleton]%elem_of_app & <-); [right; apply S; by exists w|left]. subst w. rewrite Nw.
        apply window_after_ok, W_range.
      * intros [->|(w & Hw & Ew)%S]; [|exists w; split; [apply elem_of_app; by left|done]].
        exists (new_window m s). split; [apply elem_of_app; right; by apply list_elem_of_singleton|]. rewrite Nw. apply window_after_ok, W_range.
Qed.

(** What the reference says: the signal of a tick from the window over the
    prices of its own symbol. *)
Definition reference_signal (l : list tick) (t : tick) : Signal :=
  if good_price (tk_price t)
  then decide_signal m0 (window_after W (tk_stock t) (history (tk_stock t) (l ++ [t]))) (tk_stock t) (tk_price t) (tk_ts t)
  else no_signal.

Lemma tick_ok m l t : strategy_ok m l -> known (l ++ [t]) ->
  strategy_ok (on_tick m t).1 (l ++ [t]) /\ (on_tick m t).2 = reference_signal l t.
Proof.
  intros Ok K. unfold on_tick, on_market_data, reference_signal. fold (good_price (tk_price t)). set (s := tk_stock t). set (p := tk_price t).
  destruct (good_price p) eqn:G; cbn [negb].
  2: { split; [|done]. apply strategy_ok_skip; [done|]. by apply (strategy_ok_windows m). }
  assert (Kl : known l) by (intros x Hx; apply K, elem_of_app; by left).
  assert (Hs : s ∈ U) by (apply K, elem_of_app; right; by apply list_elem_of_singleton).
  destruct (slot_ok m l s Ok Kl Hs) as (m1 & i & -> & Hi & N & Wi & S & P1 & P2 & P3).
  assert (Hh : forall x, history x (l ++ [t]) = history x l ++ (if decide (s = x) then [p] else [])).
  { intros x. rewrite history_snoc. f_equal. fold s p. destruct (decide (s = x)) as [E|E]; [by rewrite decide_True|].
    rewrite decide_False; [done|]. by intros [? _]. }
  set (m2 := m1 <| windows_ ::= alter (fun w => add w p) i |>).
  assert (Hw : windows_ m2 !! i = Some (window_after W s (history s (l ++ [t])))).
  { unfold m2, set_field. cbn. rewrite list_lookup_alter_eq, Hi, Hh, decide_True by done. cbn. by rewrite window_after_snoc. }
  assert (Ok2 : strategy_ok m2 (l ++ [t])).
  { assert (Sy : w_symbol <$> windows_ m2 = w_symbol <$> windows_ m1).
    { apply list_eq. intros j. unfold m2, set_field. cbn. rewrite !list_lookup_fmap. destruct (decide (j = i)) as [->|Nj].
      - rewrite list_lookup_alter_eq. by destruct (_ !! _).
      - by rewrite list_lookup_alter_ne. }
    split; [done|by rewrite Sy| |].
    - intros j w Hj. destruct (decide (j = i)) as [->|Nj].
      + rewrite Hw in Hj. injection Hj as <-. by rewrite (wk_sym _ _ _ _ (window_after_ok W s (history s (l ++ [t])) W_range)).
      + unfold m2, set_field in Hj. cbn in Hj. rewrite list_lookup_alter_ne in Hj by done. rewrite Hh, decide_False, app_nil_r; [by eapply Wi|].
        intros E. apply Nj. eapply (NoDup_lookup _ _ _ s N); rewrite list_lookup_fmap; [by rewrite Hj, E|].
        rewrite Hi. cbn. f_equal. apply window_after_ok, W_range.
    - intros x. transitivity (x ∈ w_symbol <$> windows_ m2).
      { rewrite list_elem_of_fmap. split; intros (w & A & B); exists w; done. }
      rewrite Sy, list_elem_of_fmap. transitivity (exists w, w ∈ windows_ m1 /\ w_symbol w = x).
      { split; intros (w & A & B); exists w; done. }
      rewrite S, Hh. case_decide as E; [subst x|rewrite app_nil_r].
      + split; [intros _ A; by apply app_eq_nil in A as [_ ?]|by left].
      + split; [intros [?|?]; [congruence|done]|by right]. }
  cbn [windows_] in *. fold m2. rewrite Hw. cbn [default from_option id fst snd].
  pose proof (decide_params m2 (window_after W s (history s (l ++ [t]))) s p (tk_ts t)) as Dp. destruct (so_params _ _ Ok2) as (Q1 & Q2 & Q3).
  rewrite Dp by done. split; [|done]. destruct (counted m2 (decide_signal m0 (window_after W s (history s (l ++ [t]))) s p (tk_ts t)) (tk_t0 t) (tk_t1 t)) as (C1 & C2 & C3 & C4).
  by apply (strategy_ok_windows m2).
Qed.
Lemma run_ticks_ok l : known l -> strategy_ok (run_ticks m0 l) l.
Proof.
  induction l as [|t l IH] using rev_ind; intros K.
  - split; cbn; [done|apply NoDup_nil_2|done|]. intros s. split; [by intros (w & ?%elem_of_nil & _)|done].
  - unfold run_ticks. rewrite foldl_snoc. apply tick_ok; [|done]. apply IH. intros x Hx. apply K, elem_of_app. by left.
Qed.
End isolation.

(** as long as no more than 64 symbols are traded, the signal of a tick
    depends on the prices of its own symbol only: it is the decision of a fresh
    window fed with them, in which the last [window] prices are those that came
    last; ticks of other symbols, and prices that are not finite or not
    positive, change nothing. *)
Lemma mr_signal_of_own_history window threshold_pct order_size U l t :
  alen U <= MAX_STOCKS -> (forall s, s ∈ U -> (length s <= 8)%nat) -> known U (l ++ [t]) ->
  let m0 := new_strategy window threshold_pct order_size in let W := window_size_ m0 in
  let h := history (tk_stock t) (l ++ [t]) in let w := window_after W (tk_stock t) h in
  (on_tick (run_ticks m0 l) t).2 = (if good_price (tk_price t) then decide_signal m0 w (tk_stock t) (tk_price t) (tk_ts t) else no_signal) /\
  full w = (W <=? alen h) /\
  forall i, alen h - W <= i < alen h -> 0 <= i -> h !! Z.to_nat i = Some (price_at w (i mod W)).
Proof.
  intros Hf Hs K. cbv zeta. pose proof (W_range window threshold_pct order_size) as HW.
  pose proof (window_after_ok _ (tk_stock t) (history (tk_stock t) (l ++ [t])) HW) as Wk. split_and!.
  - apply (tick_ok window threshold_pct order_size U Hf Hs); [|done]. apply (run_ticks_ok window threshold_pct order_size U Hf Hs).
    intros x Hx. apply K, elem_of_app. by left.
  - unfold full. rewrite (wk_size _ _ _ _ Wk), (wk_count _ _ _ _ Wk). destruct (Z.leb_spec (window_size_ (new_strategy window threshold_pct order_size)) (alen (history (tk_stock t) (l ++ [t])))); zcase; lia || done.
  - apply Wk.
Qed.
Definition demo_ticks : list tick :=
  (fun x : cstr * Z => mkTick x.1 (dbl_of_Z x.2) 0 0 0) <$> [([65], 100); ([66], 7); ([65], 100); ([66], 7); ([65], 100)].
Definition demo_jump : tick := mkTick [65] (dbl_of_Z 130) 9 0 0.
Lemma mr_signal_of_own_history_witness :
  sig_side (on_tick (run_ticks (new_strategy 3 d_one 100) demo_ticks) demo_jump).2 = SELL /\
  (on_tick (run_ticks (new_strategy 3 d_one 100) demo_ticks) demo_jump).2 =
    decide_signal (new_strategy 3 d_one 100) (window_after 3 [65] (dbl_of_Z <$> [100; 100; 100; 130])) [65] (dbl_of_Z 130) 9.
Proof.
  split; [vm_compute; reflexivity|].
  assert (K : known [[65]; [66]] (demo_ticks ++ [demo_jump])).
  { intros t Ht. cbn in Ht. repeat (apply elem_of_cons in Ht as [->|Ht]; [set_solver|]). by apply elem_of_nil in Ht. }
  destruct (mr_signal_of_own_history 3 d_one 100 [[65]; [66]] demo_ticks demo_jump) as [E _];
    [done|intros s Hs; set_unfold; destruct Hs as [->|[->|[]]]; cbn; lia|exact K|]. rewrite E. vm_compute. reflexivity.
Defined.
