(* ===== verification/MatchEngine.v ===== *)
(** * MatchEngine: orders matched in the full order book

    [BookMatchEngine] of [simulator/market_sim.hpp]: an order is matched
    against a ladder of counter-orders placed around the middle of the grid,
    as an immediate-or-cancel order in the book of [Ladder]; what the book's
    event callback reports of it gives the quantity and the average price, and
    the rest of the ladder is cancelled. *)
From S2P Require Import Prelude Double Common LadderTypes LadderTrades LadderSamples Ladder LadderOps LadderInv LadderKeep LadderMatch LadderSubmit LadderStep.

Definition MID_TICK : Z := 8192.
Definition MAX_LADDER : Z := 250.
Definition TICK_USD : double := dratio 1 100.

Section engine.
Context {env : BookEnv}.

(** What the callback has seen of the current taker. *)
Record Capture := mkCapture { taker_id : Z; cap_qty : Z; notional_ticks : Z }.
Definition on_event (c : Capture) (e : BookEvent) : Capture :=
  if bool_decide (ev_type e = E_FILL) && (ev_order_id e =? taker_id c)
  then mkCapture (taker_id c) (i64 (cap_qty c + ev_qty e)) (i64 (notional_ticks c + ev_price_ticks e * ev_qty e))
  else c.

Record BookMatchEngine := mkEngine { book_ : Book; level_liq_ : Z; next_id_ : Z; cap_ : Capture }.
#[local] Instance eta_engine : Settable BookMatchEngine := fun e => mkEngine (book_ e) (level_liq_ e) (next_id_ e) (cap_ e).
Definition new_engine (level_liq : Z) : BookMatchEngine :=
  mkEngine (set_event_callback new_book true) (if 0 <? level_liq then level_liq else 100) 1 (mkCapture 0 0 0).

(** The book after a call, the callback run on the events it gave. *)
Definition called (e : BookMatchEngine) (b : Book) : BookMatchEngine :=
  e <| book_ := b |> <| cap_ := foldl on_event (cap_ e) (drop (length (events (wire (book_ e)))) (events (wire b))) |>.
Definition send (fuel : nat) (e : BookMatchEngine) (n : NewOrder) : option BookMatchEngine :=
  '(_, _, b) ← submit fuel (book_ e) n; Some (called e b).
Definition revoke (e : BookMatchEngine) (id : Z) : BookMatchEngine := called e (cancel (book_ e) id).2.

(** The ladder's orders from level [k] on, and their ids. *)
Fixpoint place_ladder (fuel : nat) (e : BookMatchEngine) (is_buy : bool) (k : Z) (levels : nat) : option (BookMatchEngine * list Z) :=
  match levels with
  | O => Some (e, [])
  | S levels =>
      let px := if is_buy then MID_TICK + k else MID_TICK - k in
      let id := next_id_ e in
      e ← send fuel (e <| next_id_ := u64 (id + 1) |>) (limit_order (if is_buy then SELL else BUY) px (level_liq_ e) TIF_DAY id 0);
      '(e, ids) ← place_ladder fuel e is_buy (k + 1) levels;
      Some (e, id :: ids)
  end.
Definition ladder_levels (e : BookMatchEngine) (qty : Z) : Z := Z.min MAX_LADDER (i32 (Z.quot qty (level_liq_ e) + 2)).

(** The engine, the quantity filled and its average price. *)
Definition match_order (fuel : nat) (e : BookMatchEngine) (side : Side) (ref_price : double) (qty : Z) : option (BookMatchEngine * Z * double) :=
  if (qty <=? 0) || dle ref_price d_zero then Some (e, 0, ref_price) else
  let levels := ladder_levels e qty in
  let is_buy := bool_decide (side = BUY) in
  '(e, ladder_ids) ← place_ladder fuel e is_buy 0 (Z.to_nat levels);
  let id := next_id_ e in
  let e := e <| next_id_ := u64 (id + 1) |> <| cap_ := mkCapture id 0 0 |> in
  let taker_px := if is_buy then MID_TICK + levels else MID_TICK - levels in
  e ← send fuel e (mkNew side taker_px qty T_IOC TIF_IOC id 0 0 0);
  let e := foldl revoke e ladder_ids in
  if cap_qty (cap_ e) <=? 0 then Some (e, 0, ref_price) else
  let vwap_ticks := ddiv (dbl_of_Z (notional_ticks (cap_ e))) (dbl_of_Z (cap_qty (cap_ e))) in
  Some (e, i32 (cap_qty (cap_ e)), dadd ref_price (dmul (dsub vwap_ticks (dbl_of_Z MID_TICK)) TICK_USD)).

(** ** Every match returns *)

Context {ok : EnvOk}.
(** The engine's book is well formed and has no brackets to arm. *)
Definition engine_ok (e : BookMatchEngine) : Prop :=
  book_ok false (book_ e) /\ brk (book_ e) = 0%nat /\ level_liq_ e <= INT32_MAX.
Definition engine_fuel : nat := Z.to_nat (match_fuel + 1).

Lemma new_engine_ok level_liq : level_liq <= INT32_MAX -> engine_ok (new_engine level_liq).
Proof.
  intros H. split_and!; cbn; [|done|].
  - apply (ok_frame false new_book); [|apply new_book_ok]. split; [done|]. by apply lean_linked.
  - unfold INT32_MAX in *. zcase; lia.
Qed.
Lemma send_ends fuel e n : (engine_fuel <= fuel)%nat -> engine_ok e -> fits false n ->
  exists e', send fuel e n = Some e' /\ engine_ok e' /\ level_liq_ e' = level_liq_ e /\ next_id_ e' = next_id_ e.
Proof.
  intros Hf (O & B & L) Fn. unfold send. assert (M : 0 <= match_fuel) by (unfold match_fuel; destruct ok; unfold INT32_MAX in *; nia).
  destruct (submit_ends fuel 1 ∅ ltac:(unfold engine_fuel in Hf; lia) (book_ e) n (proj1 O) (proj2 O) Fn ltac:(lia)) as [[[id r] b'] E].
  rewrite E. cbn. eexists. split; [reflexivity|]. split_and!; [|done..]. split_and!; cbn; [|destruct n; cbn in *|done].
  - by eapply book_submit_ok.
  - destruct (submit_kept false fuel ∅ (book_ e) _ _ (proj1 O) (proj2 O) Fn E) as (_ & _ & Hl & _). cbn in Hl. lia.
Qed.
Lemma revoke_ok e id : engine_ok e -> engine_ok (revoke e id).
Proof.
  intros (O & B & L). split_and!; cbn; [by apply book_cancel_ok| |done].
  pose proof (cancel_keeps false ∅ (book_ e) id) as K. apply keeps_kept in K; [|apply O]. destruct K as (_ & _ & Hl & _). lia.
Qed.

Lemma place_ends fuel is_buy levels : (engine_fuel <= fuel)%nat -> forall e k, engine_ok e ->
  exists e' ids, place_ladder fuel e is_buy k levels = Some (e', ids) /\ engine_ok e' /\ level_liq_ e' = level_liq_ e.
Proof.
  intros Hf. induction levels as [|levels IH]; intros e k K; cbn [place_ladder]; [by exists e, []|].
  pose proof K as (_ & _ & L).
  match goal with |- context [send fuel ?x ?n] => destruct (send_ends fuel x n Hf) as (e1 & -> & K1 & L1 & _) end; [exact K|by apply fits_limit|].
  cbv [mbind option_bind].
  destruct (IH e1 (k + 1) K1) as (e2 & ids & -> & K2 & L2). eexists _, _. split_and!; [reflexivity|done|]. by rewrite L2, L1.
Qed.

(** Every match returns within the fuel, whatever came before it, and leaves an
    engine for which that is so again. *)
Lemma match_ends fuel e side ref_price qty : (engine_fuel <= fuel)%nat -> engine_ok e -> qty <= INT32_MAX ->
  exists e' n px, match_order fuel e side ref_price qty = Some (e', n, px) /\ engine_ok e'.
Proof.
  intros Hf K Hq. unfold match_order. destruct (_ || _)%bool; [by eexists _, _, _|]. cbv zeta.
  destruct (place_ends fuel (bool_decide (side = BUY)) (Z.to_nat (ladder_levels e qty)) Hf e 0 K) as (e1 & ids & -> & K1 & _). cbv [mbind option_bind].
  set (e2 := e1 <| next_id_ := _ |> <| cap_ := _ |>). set (n := mkNew side _ qty T_IOC TIF_IOC _ 0 0 0).
  assert (K2 : engine_ok e2) by done.
  destruct (send_ends fuel e2 n Hf K2) as (e3 & -> & K3 & _); [by constructor|]. clear K2 K1 K. clearbody e2.
  assert (K4 : engine_ok (foldl revoke e3 ids)).
  { clear -K3 ok. revert e3 K3. induction ids as [|i ids IH]; intros e3 K3; [done|]. cbn. by apply IH, revoke_ok. }
  destruct (_ <=? 0); by eexists _, _, _.
Qed.
End engine.

(** The class as the simulator instantiates it. *)
Definition sim_env (clk : nat -> Z) (h : HashOrder) : BookEnv := {| LEVELS := 16384; MAX_ORDERS := 65536; clock := clk; env_hash := h |}.
#[export] Instance sim_env_ok clk h : @EnvOk (sim_env clk h).
Proof. by constructor. Qed.
