(* ===== verification/Generator.v ===== *)
(** * Generator: the synthetic market data

    [FastRNG] and [MarketDataGenerator] of [simulator/market_sim.hpp]: ITCH
    messages from a linear congruential generator, and the orders it has
    announced and may execute or cancel.  The table of active orders keeps the
    fields that are read again. *)
From S2P Require Import Prelude Double Common Bytes Itch Strategy.

(** [std::round]: to the nearest integer, halves away from zero. *)
Definition dround (x : double) : double :=
  match x with
  | S754_finite s m e =>
      if 0 <=? e then x else
      let n := (2 * Z.pos m + 2 ^ (- e)) / (2 * 2 ^ (- e)) in
      if n =? 0 then S754_zero s else dbl_of_Z (if s then - n else n)
  | _ => x
  end.

(** ** The random numbers *)

Definition rng_next (state : Z) : Z * Z :=
  let state := u64 (state * 6364136223846793005 + 1442695040888963407) in (state, Z.shiftr state 16).
(** [static_cast<int>(next() % max)] *)
Definition rand_int (state max : Z) : Z * Z := let '(state, x) := rng_next state in (state, i32 (x mod u64 max)).
Definition rand_double (state : Z) : Z * double :=
  let '(state, x) := rng_next state in (state, ddiv (dbl_of_Z (Z.land x 4294967295)) (dbl_of_Z 4294967296)).
Definition rand_range (state : Z) (lo hi : double) : Z * double :=
  let '(state, x) := rand_double state in (state, dadd lo (dmul x (dsub hi lo))).

Lemma rng_range state : 0 <= (rng_next state).2.
Proof. cbn. apply Z.shiftr_nonneg. pose proof (u64_range (state * 6364136223846793005 + 1442695040888963407)). lia. Qed.
Lemma rand_int_range state max : 0 < max <= INT32_MAX -> 0 <= (rand_int state max).2 < max.
Proof.
  unfold INT32_MAX. intros H. pose proof (rng_range state) as R. unfold rand_int. destruct (rng_next state) as [s x]. cbn [snd] in *.
  rewrite u64_small by lia. pose proof (Z.mod_pos_bound x max ltac:(lia)). rewrite i32_small; lia.
Qed.

(** ** The generator *)

Record StockInfo := mkStock { st_symbol : cstr; base_price : double }.
(** AAPL, MSFT, GOOGL, AMZN, TSLA, META, NVDA, JPM. *)
Definition STOCKS : list StockInfo :=
  (fun x : cstr * Z => mkStock x.1 (dbl_of_Z x.2)) <$>
  [([65; 65; 80; 76], 175); ([77; 83; 70; 84], 410); ([71; 79; 79; 71; 76], 155); ([65; 77; 90; 78], 185);
   ([84; 83; 76; 65], 245); ([77; 69; 84; 65], 500); ([78; 86; 68; 65], 880); ([74; 80; 77], 195)].
Definition SHARE_SIZES : list Z := [10; 25; 50; 100; 200; 500].
Definition NUM_SHARE_SIZES : Z := 6.
Definition MAX_ACTIVE_ORDERS : Z := 8192.

Record ActiveOrder := mkActive { ao_order_ref : Z; ao_stock : cstr; ao_side : Z; ao_price : double; ao_shares : Z; ao_active : bool }.
#[export] Instance eta_active : Settable ActiveOrder := fun o =>
  mkActive (ao_order_ref o) (ao_stock o) (ao_side o) (ao_price o) (ao_shares o) (ao_active o).
Record Generator := mkGen {
  rng_ : Z; seq_ : Z; order_ref_ : Z; active_ : list ActiveOrder; active_count_ : Z; stocks_ : list StockInfo }.
#[export] Instance eta_gen : Settable Generator := fun g =>
  mkGen (rng_ g) (seq_ g) (order_ref_ g) (active_ g) (active_count_ g) (stocks_ g).
Definition new_generator (seed : Z) : Generator :=
  mkGen seed 0 1000 (replicate (Z.to_nat MAX_ACTIVE_ORDERS) (mkActive 0 [] 0 d_zero 0 false)) 0 STOCKS.
Definition set_stocks (g : Generator) (l : list StockInfo) : Generator :=
  match l with [] => g | _ => g <| stocks_ := l |> end.

(** [rng_.rand_int] and the others inside the generator. *)
Definition draw {A} (f : Z -> Z * A) (g : Generator) : Generator * A := let '(s, x) := f (rng_ g) in (g <| rng_ := s |>, x).
Definition next_ts (g : Generator) : Generator * Z :=
  let s := i64 (seq_ g + 1) in (g <| seq_ := s |>, i64 (34200000000000 + s * 1000000)).
Definition stock_at (g : Generator) (i : Z) : StockInfo := default (mkStock [] d_zero) (stocks_ g !! Z.to_nat i).

(** The slots of the active orders, in order, up to [active_count_] of them. *)
Definition active_indices (g : Generator) : list nat :=
  take (Z.to_nat (active_count_ g)) (base.filter (fun i => default false (ao_active <$> active_ g !! i) = true) (seq 0 (length (active_ g)))).
Definition random_active_order (g : Generator) : Generator * option nat :=
  if active_count_ g =? 0 then (g, None) else
  match active_indices g with
  | [] => (g, None)
  | l => let '(g, i) := draw (fun s => rand_int s (alen l)) g in (g, l !! Z.to_nat i)
  end.

(** Eight bytes, padded with blanks. *)
Definition pad_stock (sym : cstr) : list Z := sym ++ replicate (8 - length sym) 32.
Definition pack_price (price : double) : list Z := be_bytes 4 (u32 (dbl_to_i32 (dmul price (dbl_of_Z 10000)))).

Definition add_active (g : Generator) (o : ActiveOrder) : Generator :=
  match list_find (fun x => ao_active x = false) (active_ g) with
  | Some (i, _) => g <| active_ ::= <[i := o]> |> <| active_count_ ::= fun n => i32 (n + 1) |>
  | None => g
  end.
Definition generate_add_order (g : Generator) : Generator * list Z :=
  let '(g, i) := draw (fun s => rand_int s (alen (stocks_ g))) g in
  let stock := stock_at g i in
  let '(g, off) := draw (fun s => rand_range s (dbl_of_Z (-2)) (dbl_of_Z 2)) g in
  let price := ddiv (dround (dmul (dadd (base_price stock) off) (dbl_of_Z 100))) (dbl_of_Z 100) in
  let '(g, coin) := draw (fun s => rand_int s 2) g in
  let side := if coin =? 0 then 66 else 83 in
  let '(g, k) := draw (fun s => rand_int s NUM_SHARE_SIZES) g in
  let shares := aget SHARE_SIZES k in
  let g := g <| order_ref_ ::= fun r => i64 (r + 1) |> in
  let g := add_active g (mkActive (order_ref_ g) (take 8 (st_symbol stock)) side price shares true) in
  let '(g, ts) := next_ts g in
  (g, [65] ++ be_bytes 8 ts ++ be_bytes 8 (order_ref_ g) ++ [side] ++ be_bytes 4 shares ++ pad_stock (st_symbol stock) ++ pack_price price).

Definition deactivate (g : Generator) (i : nat) : Generator :=
  g <| active_ ::= alter (fun o => o <| ao_active := false |>) i |> <| active_count_ ::= fun n => i32 (n - 1) |>.
Definition generate_execute (g : Generator) : Generator * list Z :=
  match random_active_order g with
  | (g, None) => generate_add_order g
  | (g, Some i) =>
      let order := default (mkActive 0 [] 0 d_zero 0 false) (active_ g !! i) in
      let '(g, k) := draw (fun s => rand_int s 3) g in
      let exec_shares := Z.min (ao_shares order) (aget SHARE_SIZES k) in
      let '(g, x) := draw (fun s => rand_int s 90000) g in
      let match_num := x + 10000 in
      let left := i32 (ao_shares order - exec_shares) in
      let g := g <| active_ ::= alter (fun o => o <| ao_shares := left |>) i |> in
      let g := if left <=? 0 then deactivate g i else g in
      let '(g, ts) := next_ts g in
      (g, [69] ++ be_bytes 8 ts ++ be_bytes 8 (ao_order_ref order) ++ be_bytes 4 (u32 exec_shares) ++ be_bytes 8 match_num)
  end.
Definition generate_cancel (g : Generator) : Generator * list Z :=
  match random_active_order g with
  | (g, None) => generate_add_order g
  | (g, Some i) =>
      let order := default (mkActive 0 [] 0 d_zero 0 false) (active_ g !! i) in
      let g := deactivate g i in
      let '(g, ts) := next_ts g in
      (g, [67] ++ be_bytes 8 ts ++ be_bytes 8 (ao_order_ref order) ++ be_bytes 4 (u32 (ao_shares order)))
  end.
Definition generate_trade (g : Generator) : Generator * list Z :=
  let '(g, i) := draw (fun s => rand_int s (alen (stocks_ g))) g in
  let stock := stock_at g i in
  let '(g, off) := draw (fun s => rand_range s (dbl_of_Z (-1)) (dbl_of_Z 1)) g in
  let price := ddiv (dround (dmul (dadd (base_price stock) off) (dbl_of_Z 100))) (dbl_of_Z 100) in
  let '(g, k) := draw (fun s => rand_int s 3) g in
  let shares := aget SHARE_SIZES (k + 3) in
  let '(g, coin) := draw (fun s => rand_int s 2) g in
  let side := if coin =? 0 then 66 else 83 in
  let '(g, x) := draw (fun s => rand_int s 90000) g in
  let match_num := x + 10000 in
  let '(g, ts) := next_ts g in
  (g, [80] ++ be_bytes 8 ts ++ be_bytes 8 0 ++ [side] ++ be_bytes 4 shares ++ pad_stock (st_symbol stock) ++ pack_price price ++ be_bytes 8 match_num).
Definition generate_system_event (g : Generator) (event_code : Z) : Generator * list Z :=
  let '(g, ts) := next_ts g in (g, [83] ++ be_bytes 8 ts ++ [event_code]).
Definition generate_random_message (g : Generator) : Generator * list Z :=
  let '(g, roll) := draw rand_double g in
  if dlt roll (dratio 45 100) then generate_add_order g
  else if dlt roll (dratio 70 100) then generate_execute g
  else if dlt roll (dratio 85 100) then generate_trade g
  else generate_cancel g.

(** A day of the simulator: three opening events, [n] random messages, three
    closing events ('O', 'S', 'Q' and 'M', 'E', 'C'). *)
Fixpoint system_events (codes : list Z) (g : Generator) : Generator * list (list Z) :=
  match codes with
  | [] => (g, [])
  | c :: codes =>
      let '(g, m) := generate_system_event g c in
      let '(g, l) := system_events codes g in (g, m :: l)
  end.
Fixpoint random_messages (n : nat) (g : Generator) : Generator * list (list Z) :=
  match n with
  | O => (g, [])
  | S n =>
      let '(g, m) := generate_random_message g in
      let '(g, l) := random_messages n g in (g, m :: l)
  end.
Definition day (num_messages : Z) (g : Generator) : list (list Z) :=
  let '(g, opening) := system_events [79; 83; 81] g in
  let '(g, messages) := random_messages (Z.to_nat num_messages) g in
  let '(_, closing) := system_events [77; 69; 67] g in
  opening ++ messages ++ closing.

(** ** What is generated parses *)

(** A symbol of at most eight characters, in the array of the nine bytes of it. *)
Definition symbol_ok (s : cstr) : Prop := (length s <= 8)%nat.
Record gen_ok (g : Generator) : Prop := {
  go_ref : i64_ok (order_ref_ g);
  go_stocks : 0 < alen (stocks_ g) <= INT32_MAX;
  go_symbols : forall s, s ∈ stocks_ g -> symbol_ok (st_symbol s);
  go_active : forall o, o ∈ active_ g -> i64_ok (ao_order_ref o)
}.
(** What a generated order announces: a side, one of the sizes, and a stock of the universe, padded with blanks. *)
Definition announces (l : list StockInfo) (m : AddOrderMsg) : Prop :=
  (add_side m = 66 \/ add_side m = 83) /\ add_shares m ∈ SHARE_SIZES /\
  exists s, s ∈ l /\ add_stock m = pad_stock (st_symbol s).
Definition generated_ok (l : list StockInfo) (m : ParsedMessage) : Prop :=
  match m with
  | ADD_ORDER m => announces l m
  | TRADE m => announces l (trade_order m) /\ add_order_ref (trade_order m) = 0
  | ORDER_EXECUTED _ | ORDER_CANCELLED _ | SYSTEM_EVENT _ => True
  | _ => False
  end.
(** A generator that goes on, and the bytes it gave. *)
Definition emits (g : Generator) (r : Generator * list Z) : Prop :=
  gen_ok r.1 /\ stocks_ r.1 = stocks_ g /\
  exists w, r.2 = wire_bytes w [] /\ wire_ok w /\ generated_ok (stocks_ g) (meaning w).


Lemma i64_is_ok z : i64_ok (i64 z).
Proof. exact (i64_range z). Qed.
Lemma u32_is_ok z : u32_ok (u32 z).
Proof. exact (u32_range z). Qed.
Lemma aget_sizes k : 0 <= k < 6 -> aget SHARE_SIZES k ∈ SHARE_SIZES.
Proof.
  intros H. unfold aget. destruct (lookup_lt_is_Some_2 SHARE_SIZES (Z.to_nat k)) as [x E]; [unfold SHARE_SIZES; cbn [length]; lia|].
  rewrite E. by apply list_elem_of_lookup_2 with (Z.to_nat k).
Qed.
Lemma size_ok n : n ∈ SHARE_SIZES -> 0 < n <= 500.
Proof. intros H. repeat (apply elem_of_cons in H as [->|H]; [lia|]). by apply not_elem_of_nil in H. Qed.
Lemma pad_length s : symbol_ok s -> length (pad_stock s) = 8%nat.
Proof. unfold symbol_ok, pad_stock. rewrite length_app, length_replicate. lia. Qed.
Lemma stock_in g l i : stocks_ g = l -> 0 <= i < alen l -> stock_at g i ∈ l.
Proof.
  intros <- H. unfold stock_at. unfold alen in H. destruct (lookup_lt_is_Some_2 (stocks_ g) (Z.to_nat i) ltac:(lia)) as [s E].
  rewrite E. cbn. by apply list_elem_of_lookup_2 with (Z.to_nat i).
Qed.

(** The draws and the clock leave everything but themselves. *)
Lemma draw_ok {A} (f : Z -> Z * A) g : gen_ok g -> gen_ok (draw f g).1 /\ stocks_ (draw f g).1 = stocks_ g.
Proof. intros [? ? ? ?]. unfold draw. destruct (f _). by split. Qed.
Lemma draw_int_range max g : 0 < max <= INT32_MAX -> 0 <= (draw (fun s => rand_int s max) g).2 < max.
Proof. intros H. unfold draw. pose proof (rand_int_range (rng_ g) max H). by destruct (rand_int _ _). Qed.
Lemma next_ts_ok g : gen_ok g -> gen_ok (next_ts g).1 /\ stocks_ (next_ts g).1 = stocks_ g /\ i64_ok (next_ts g).2 /\ order_ref_ (next_ts g).1 = order_ref_ g.
Proof. intros [? ? ? ?]. split_and!; try done. apply i64_is_ok. Qed.

(** Stepping through the draws of an operation. *)
Ltac draw_step :=
  match goal with
  | K : gen_ok ?g |- context [draw ?f ?g] =>
      let K' := fresh "K" in let E := fresh "E" in
      destruct (draw_ok f g K) as [K' E];
      match f with
      | (fun s => rand_int s ?max) => let R := fresh "R" in
          assert (R : 0 < max <= INT32_MAX) by (first [apply (go_stocks g K)|unfold INT32_MAX, NUM_SHARE_SIZES; lia]);
          apply (fun H => draw_int_range max g H) in R
      | _ => idtac
      end;
      let g' := fresh "g" in let x := fresh "x" in
      destruct (draw f g) as [g' x]; cbn [fst snd] in *; clear K; rename K' into K
  end.

Lemma add_active_ok g o : gen_ok g -> i64_ok (ao_order_ref o) -> gen_ok (add_active g o) /\ stocks_ (add_active g o) = stocks_ g /\ order_ref_ (add_active g o) = order_ref_ g.
Proof.
  intros [? ? ? K] H. unfold add_active. destruct (list_find _ _) as [[i x]|]; [|done]. split_and!; try done.
  constructor; cbn; try done. intros o' Ho'. apply list_elem_of_lookup in Ho' as [j Hj].
  destruct (decide (i = j)) as [->|Hne].
  - apply list_lookup_insert_Some in Hj as [(_ & -> & _)|(? & _)]; done.
  - rewrite list_lookup_insert_ne in Hj by done. apply K. by apply list_elem_of_lookup_2 with j.
Qed.
Lemma bump_ref_ok g : gen_ok g -> gen_ok (g <| order_ref_ ::= fun r => i64 (r + 1) |>).
Proof. intros [? ? ? ?]. constructor; cbn; [apply i64_is_ok|done..]. Qed.
Lemma coin_side x : (if x =? 0 then 66 else 83) = 66 \/ (if x =? 0 then 66 else 83) = 83.
Proof. destruct (x =? 0); auto. Qed.
Lemma pack_is_bytes price : exists v, u32_ok v /\ pack_price price = be_bytes 4 v.
Proof. eexists. split; [|reflexivity]. apply u32_is_ok. Qed.

(** The bytes of a message are those of its fields. *)
Ltac wire_eq := unfold wire_bytes; cbn [type_byte wire_fields]; unfold order_bytes; by rewrite app_nil_r.

Lemma generate_add_order_ok g : gen_ok g -> emits g (generate_add_order g).
Proof.
  intros K. pose proof (go_symbols g K) as Sy. unfold generate_add_order. draw_step. cbv zeta. do 3 draw_step. cbv zeta.
  match goal with |- context [add_active ?x ?o] => destruct (add_active_ok x o (bump_ref_ok _ K) (i64_is_ok _)) as (K4 & E4 & _); set (g4 := add_active x o) in *; clearbody g4 end.
  destruct (next_ts_ok g4 K4) as (K5 & E5 & Ht & _). destruct (next_ts g4) as [g5 ts]. cbn in E4. unfold emits. cbn [fst snd] in *.
  pose proof (stock_in g0 (stocks_ g) x E R) as Hs. destruct (pack_is_bytes (ddiv (dround (dmul (dadd (base_price (stock_at g0 x)) x0) (dbl_of_Z 100))) (dbl_of_Z 100))) as (v & Hv & ->).
  split_and!; [done|by rewrite E5, E4, E2, E1, E0, E|].
  pose proof (aget_sizes x2 R1) as Hz.
  exists (WAdd ts (order_ref_ g5) (if x1 =? 0 then 66 else 83) (aget SHARE_SIZES x2) (pad_stock (st_symbol (stock_at g0 x))) v). split_and!.
  - wire_eq.
  - split_and!; [by apply pad_length, Sy|done|done|apply K5|..]; [|exact Hv]. pose proof (size_ok _ Hz). unfold u32_ok. lia.
  - cbn. split_and!; [apply coin_side|done|by eexists].
Qed.

Lemma generate_trade_ok g : gen_ok g -> emits g (generate_trade g).
Proof.
  intros K. pose proof (go_symbols g K) as Sy. unfold generate_trade. draw_step. cbv zeta. do 4 draw_step. cbv zeta.
  destruct (next_ts_ok g4 K) as (K5 & E5 & Ht & _). destruct (next_ts g4) as [g5 ts]. unfold emits. cbn [fst snd] in *.
  pose proof (stock_in g0 (stocks_ g) x E R) as Hs. destruct (pack_is_bytes (ddiv (dround (dmul (dadd (base_price (stock_at g0 x)) x0) (dbl_of_Z 100))) (dbl_of_Z 100))) as (v & Hv & ->).
  split_and!; [done|congruence|].
  pose proof (aget_sizes (x1 + 3) ltac:(lia)) as Hz.
  exists (WTrade ts 0 (if x2 =? 0 then 66 else 83) (aget SHARE_SIZES (x1 + 3)) (pad_stock (st_symbol (stock_at g0 x))) v (x3 + 10000)). split_and!.
  - wire_eq.
  - split_and!; [by apply pad_length, Sy|done|done|done|..]; [|exact Hv|unfold i64_ok, INT64_MIN, INT64_MAX; lia]. pose proof (size_ok _ Hz). unfold u32_ok. lia.
  - cbn. split_and!; [split_and!; [apply coin_side|done|by eexists]|done].
Qed.

Lemma random_active_ok g : gen_ok g -> let r := random_active_order g in gen_ok r.1 /\ stocks_ r.1 = stocks_ g.
Proof.
  intros K. cbv zeta. unfold random_active_order. destruct (_ =? 0); [done|]. destruct (active_indices g) as [|i l]; [done|].
  match goal with |- context [draw ?f g] => destruct (draw_ok f g K); destruct (draw f g) end. done.
Qed.
Lemma alter_active_ok g i f : (forall o, ao_order_ref (f o) = ao_order_ref o) -> gen_ok g -> gen_ok (g <| active_ ::= alter f i |>).
Proof.
  intros Hf [? ? ? K]. constructor; cbn; try done. intros o Ho. apply list_elem_of_lookup in Ho as [j Hj].
  destruct (decide (i = j)) as [->|Hne].
  - rewrite list_lookup_alter_eq in Hj. destruct (active_ g !! j) as [o'|] eqn:E; [|done]. cbn in Hj. injection Hj as <-.
    rewrite Hf. apply K. by apply list_elem_of_lookup_2 with j.
  - rewrite list_lookup_alter_ne in Hj by done. apply K. by apply list_elem_of_lookup_2 with j.
Qed.
Lemma deactivate_ok g i : gen_ok g -> gen_ok (deactivate g i).
Proof. intros K. apply (alter_active_ok g i (fun o => o <| ao_active := false |>)) in K as [? ? ? ?]; [by constructor|done]. Qed.
Lemma active_ref_ok g i : gen_ok g -> i64_ok (ao_order_ref (default (mkActive 0 [] 0 d_zero 0 false) (active_ g !! i))).
Proof.
  intros K. destruct (active_ g !! i) as [o|] eqn:E; [|done]. cbn. apply (go_active g K). by apply list_elem_of_lookup_2 with i.
Qed.

Lemma generate_cancel_ok g : gen_ok g -> emits g (generate_cancel g).
Proof.
  intros K. unfold generate_cancel. pose proof (random_active_ok g K) as [K1 E1]. destruct (random_active_order g) as [g1 [i|]]; cbn [fst] in *.
  - cbv zeta. destruct (next_ts_ok _ (deactivate_ok g1 i K1)) as (K2 & E2 & Ht & _). pose proof (active_ref_ok g1 i K1) as Hr.
    destruct (next_ts _) as [g2 ts]. unfold emits; cbn [fst snd] in *. split_and!; [done|by rewrite E2|].
    eexists (WCancelled ts _ _). split_and!; [wire_eq|split_and!; try done; apply u32_is_ok|done].
  - destruct (generate_add_order_ok g1 K1) as (? & E2 & w & ?). split_and!; [done|by rewrite E2|]. exists w. by rewrite <- E1.
Qed.
Lemma generate_execute_ok g : gen_ok g -> emits g (generate_execute g).
Proof.
  intros K. unfold generate_execute. pose proof (random_active_ok g K) as [K1 E1]. destruct (random_active_order g) as [g1 [i|]]; cbn [fst] in *.
  - cbv zeta. pose proof (active_ref_ok g1 i K1) as Hr. set (order := default _ _) in *. clearbody order. do 2 draw_step. cbv zeta.
    set (left := i32 _). set (f := fun o : ActiveOrder => o <| ao_shares := left |>).
    assert (K4 : gen_ok (g2 <| active_ ::= alter f i |>)) by (by apply alter_active_ok).
    set (g4 := if left <=? 0 then _ else _). assert (gen_ok g4 /\ stocks_ g4 = stocks_ g2) as [K5 E5].
    { unfold g4. destruct (_ <=? 0); [|done]. split; [by apply deactivate_ok|done]. }
    clearbody g4. destruct (next_ts_ok g4 K5) as (K6 & E6 & Ht & _). destruct (next_ts g4) as [g5 ts]. unfold emits; cbn [fst snd] in *.
    split_and!; [done|by rewrite E6, E5, E0, E, E1|].
    eexists (WExecuted ts _ _ _). split_and!; [wire_eq|split_and!; try done|done]; [apply u32_is_ok|unfold i64_ok, INT64_MIN, INT64_MAX; lia].
  - destruct (generate_add_order_ok g1 K1) as (? & E2 & w & ?). split_and!; [done|by rewrite E2|]. exists w. by rewrite <- E1.
Qed.

Lemma generate_random_ok g : gen_ok g -> emits g (generate_random_message g).
Proof.
  intros K. unfold generate_random_message. destruct (draw_ok rand_double g K) as [K1 E1]. destruct (draw rand_double g) as [g1 roll]. cbn [fst] in *.
  unfold emits. rewrite <- E1. repeat case_match; [by apply generate_add_order_ok|by apply generate_execute_ok|by apply generate_trade_ok|by apply generate_cancel_ok].
Qed.
Lemma generate_system_event_ok g code : gen_ok g -> emits g (generate_system_event g code).
Proof.
  intros K. unfold generate_system_event. destruct (next_ts_ok g K) as (K1 & E1 & Ht & _). destruct (next_ts g) as [g1 ts]. unfold emits; cbn [fst snd] in *.
  split_and!; [done..|]. exists (WEvent ts code). by split_and!.
Qed.
Lemma new_generator_ok seed l : alen l <= INT32_MAX -> (forall s, s ∈ l -> symbol_ok (st_symbol s)) -> gen_ok (set_stocks (new_generator seed) l).
Proof.
  intros Hl Hs. assert (A : forall o, o ∈ active_ (new_generator seed) -> i64_ok (ao_order_ref o)).
  { intros o Ho. cbn [active_ new_generator] in Ho. by apply elem_of_replicate in Ho as [-> _]. }
  destruct l as [|s l]; constructor; cbn [stocks_ set_stocks]; try done.
  intros s Hin. unfold symbol_ok. repeat (apply elem_of_cons in Hin as [->|Hin]; [cbn; lia|]). by apply not_elem_of_nil in Hin.
Qed.
Lemma stocks_of_set seed l : stocks_ (set_stocks (new_generator seed) l) = match l with [] => STOCKS | _ => l end.
Proof. by destruct l. Qed.

Lemma emits_parses g r : emits g r -> gen_ok r.1 /\ stocks_ r.1 = stocks_ g /\
  forall st, exists st' m, parse st r.2 = Some (st', m) /\ generated_ok (stocks_ g) m.
Proof.
  intros (K & E & w & -> & W & G). split_and!; try done. intros st.
  destruct (itch_parse_wire st w [] W) as [st' Hp]. by exists st', (meaning w).
Qed.
Definition parses (l : list StockInfo) (d : list Z) : Prop :=
  forall st, exists st' m, parse st d = Some (st', m) /\ generated_ok l m.
Lemma system_events_parse codes : forall g, gen_ok g -> let r := system_events codes g in
  gen_ok r.1 /\ stocks_ r.1 = stocks_ g /\ Forall (parses (stocks_ g)) r.2.
Proof.
  induction codes as [|c codes IH]; intros g K; cbn [system_events]; [done|].
  destruct (emits_parses g _ (generate_system_event_ok g c K)) as (K1 & E1 & P). destruct (generate_system_event g c) as [g1 m]. cbn [fst snd] in *.
  destruct (IH g1 K1) as (K2 & E2 & F). destruct (system_events codes g1) as [g2 l]. cbn [fst snd] in *.
  split_and!; [done|congruence|]. rewrite E1 in F. by constructor.
Qed.
Lemma random_messages_parse n : forall g, gen_ok g -> let r := random_messages n g in
  gen_ok r.1 /\ stocks_ r.1 = stocks_ g /\ Forall (parses (stocks_ g)) r.2.
Proof.
  induction n as [|n IH]; intros g K; cbn [random_messages]; [done|].
  destruct (emits_parses g _ (generate_random_ok g K)) as (K1 & E1 & P). destruct (generate_random_message g) as [g1 m]. cbn [fst snd] in *.
  destruct (IH g1 K1) as (K2 & E2 & F). destruct (random_messages n g1) as [g2 l]. cbn [fst snd] in *.
  split_and!; [done|congruence|]. rewrite E1 in F. by constructor.
Qed.
Lemma day_parses n g : gen_ok g -> Forall (parses (stocks_ g)) (day n g).
Proof.
  intros K. unfold day. destruct (system_events_parse [79; 83; 81] g K) as (K1 & E1 & F1). destruct (system_events _ g) as [g1 l1]. cbn [fst snd] in *.
  destruct (random_messages_parse (Z.to_nat n) g1 K1) as (K2 & E2 & F2). destruct (random_messages _ g1) as [g2 l2]. cbn [fst snd] in *.
  destruct (system_events_parse [77; 69; 67] g2 K2) as (_ & _ & F3). destruct (system_events _ g2) as [g3 l3]. cbn [fst snd] in *.
  rewrite E1 in *. rewrite E2 in F3. rewrite !Forall_app. done.
Qed.

(** every message of the synthetic feed is one the parser accepts: whatever
    the seed, the number of messages and the universe of symbols (of at most
    eight characters, as [StockInfo] holds them; the built-in table when the
    universe is empty), each message of the simulated day parses to an event, an
    add, an execution, a trade or a cancel, and an add or a trade carries a side
    of 'B' or 'S', one of the six share sizes, and a symbol of the universe
    padded with blanks to eight bytes. *)
Lemma generator_feed_parses seed l n :
  alen l <= INT32_MAX -> (forall s, s ∈ l -> symbol_ok (st_symbol s)) ->
  Forall (fun d => forall st, exists st' m, parse st d = Some (st', m) /\
    generated_ok (match l with [] => STOCKS | _ => l end) m) (day n (set_stocks (new_generator seed) l)).
Proof.
  intros Hl Hs. rewrite <- (stocks_of_set seed l). by apply day_parses, new_generator_ok.
Qed.
Lemma generator_feed_parses_witness :
  Forall (fun d => forall st, exists st' m, parse st d = Some (st', m) /\
    generated_ok [mkStock [65; 66] (dbl_of_Z 5)] m) (day 4 (set_stocks (new_generator 42) [mkStock [65; 66] (dbl_of_Z 5)])).
Proof.
  apply (generator_feed_parses 42 [mkStock [65; 66] (dbl_of_Z 5)] 4); [done|].
  intros s Hs. apply list_elem_of_singleton in Hs. subst. unfold symbol_ok. cbn. lia.
Defined.
