(* ===== verification/Pipeline.v ===== *)
(** * Pipeline: the simulator from the feed to the positions

    [run_pipeline] of [simulator/market_sim.hpp], everything on one thread: the
    messages of the synthetic day are parsed; each add and trade is a tick of a
    market maker, or of the strategy and the router, whose orders pass the risk
    manager, are booked in the OMS, perhaps matched in the ladder book, and
    filled at once or some messages later.

    A turn's clock readings are a record per message and, for the time of a
    fill, a function of the order.  The matching engine's loops carry fuel. *)
From S2P Require Import Prelude Double Common Bytes Ouch Ladder LadderInv MatchEngine Itch Router Oms Risk Strategy Generator.

(** ** Configuration *)

Record VenueConfig := mkVenueConfig { vc_name : cstr; vc_latency_ns : Z; vc_fee_per_share : double }.
Record RiskConfig := mkRiskConfig {
  rc_max_position_per_symbol : Z; rc_max_portfolio_exposure : Z; rc_max_daily_loss : double; rc_max_order_value : double;
  rc_max_drawdown_pct : double; rc_max_price_band_pct : double; rc_max_shares_per_order : Z; rc_max_short_per_symbol : Z;
  rc_max_consecutive_losses : Z; rc_max_daily_traded_notional : double }.
(** The sections of [HFTConfig] that the simulator reads. *)
Record HFTConfig := mkConfig {
  cfg_window : Z; cfg_threshold_pct : double; cfg_order_size : Z;
  cfg_max_position : Z; cfg_max_order_value : double;
  cfg_default_strategy : cstr; cfg_split_threshold : Z; cfg_venues : list VenueConfig;
  cfg_risk : RiskConfig; cfg_stocks : list StockInfo }.
Record Mode := mkMode {
  use_strategy : bool; use_router : bool; use_risk : bool; use_book : bool; use_mm : bool; fill_latency_iters : Z }.

Definition BEST_PRICE_NAME : cstr := [66; 69; 83; 84; 95; 80; 82; 73; 67; 69].
Definition LOWEST_LATENCY_NAME : cstr := [76; 79; 87; 69; 83; 84; 95; 76; 65; 84; 69; 78; 67; 89].
Definition SPLIT_NAME : cstr := [83; 80; 76; 73; 84].
Definition NYSE : cstr := [78; 89; 83; 69].
Definition NASDAQ : cstr := [78; 65; 83; 68; 65; 81].
Definition BATS : cstr := [66; 65; 84; 83].
Definition routing_strategy (c : option HFTConfig) : RoutingStrategy :=
  match c with
  | Some c => if bool_decide (cfg_default_strategy c = LOWEST_LATENCY_NAME) then LOWEST_LATENCY
              else if bool_decide (cfg_default_strategy c = SPLIT_NAME) then SPLIT else BEST_PRICE
  | None => BEST_PRICE
  end.
Definition sim_venues (c : option HFTConfig) : list Venue :=
  let from_config := match c with Some c => cfg_venues c | None => [] end in
  match from_config with
  | [] => [new_venue NYSE 500 (dratio 3 1000); new_venue NASDAQ 350 (dratio 2 1000); new_venue BATS 250 (dratio 1 1000)]
  | l => (fun v => new_venue (vc_name v) (vc_latency_ns v) (vc_fee_per_share v)) <$> l
  end.
Definition sim_router (md : Mode) (c : option HFTConfig) : SmartOrderRouter :=
  let r := new_router (routing_strategy c) (match c with Some c => cfg_split_threshold c | None => 500 end) in
  if use_router md then foldl add_venue r (sim_venues c) else r.
(** The limits of the configuration, where it has them. *)
Definition config_limits (c : option HFTConfig) : RiskLimits :=
  match c with
  | Some c =>
      let k := cfg_risk c in
      mkLimits (rc_max_position_per_symbol k) (rc_max_portfolio_exposure k) (dbl_to_i64 (rc_max_daily_loss k))
        (max_orders_per_second default_limits) (dbl_to_i64 (rc_max_order_value k)) (rc_max_drawdown_pct k)
        (rc_max_price_band_pct k) (rc_max_shares_per_order k) (rc_max_short_per_symbol k) (rc_max_consecutive_losses k)
        (rc_max_daily_traded_notional k) (min_price default_limits) (max_symbol_notional default_limits)
  | None => default_limits
  end.
(** The rate limit is relaxed to the number of messages. *)
Definition sim_limits (c : option HFTConfig) (num_messages : Z) : RiskLimits :=
  let l := config_limits c in
  mkLimits (max_position_per_symbol l) (max_portfolio_exposure l) (max_daily_loss l)
    (if 0 <? num_messages then i32 (num_messages + 16) else 1024) (Risk.max_order_value l) (max_drawdown_pct l)
    (max_price_band_pct l) (max_shares_per_order l) (max_short_per_symbol l) (max_consecutive_losses l)
    (max_daily_traded_notional l) (min_price l) (max_symbol_notional l).
Definition sim_stocks (c : option HFTConfig) : list StockInfo :=
  match c with
  | Some c => (fun s => mkStock (copy_sym (st_symbol s)) (base_price s)) <$> cfg_stocks c
  | None => []
  end.
Definition active_stocks (c : option HFTConfig) : list StockInfo := match sim_stocks c with [] => STOCKS | l => l end.
Definition sim_mm_config : MMConfig := mkMMConfig 10 2 200 (dratio 5 100).

(** ** The state of a run *)

Record PendingFill := mkPending { pf_order_id : Z; pf_shares : Z; pf_price : double; due_iter : Z }.
Record PipelineStats := mkPipelineStats {
  messages_generated : Z; messages_parsed : Z; n_adds : Z; n_executes : Z; n_trades : Z; n_cancels : Z; n_events : Z;
  orders_submitted : Z; orders_filled : Z; orders_rejected : Z; orders_risk_rejected : Z; risk_kill_tripped : bool;
  orders_book_partial : Z; book_slippage_usd : double; mm_fills : Z; max_in_flight_orders : Z;
  mm_quotes_placed : Z; mm_pnl : double; mm_abs_inventory : Z; stats_total_pnl : double }.
#[export] Instance eta_pipeline_stats : Settable PipelineStats := fun s =>
  mkPipelineStats (messages_generated s) (messages_parsed s) (n_adds s) (n_executes s) (n_trades s) (n_cancels s) (n_events s)
    (orders_submitted s) (orders_filled s) (orders_rejected s) (orders_risk_rejected s) (risk_kill_tripped s)
    (orders_book_partial s) (book_slippage_usd s) (mm_fills s) (max_in_flight_orders s)
    (mm_quotes_placed s) (mm_pnl s) (mm_abs_inventory s) (stats_total_pnl s).
Definition no_stats : PipelineStats := mkPipelineStats 0 0 0 0 0 0 0 0 0 0 0 false 0 d_zero 0 0 0 d_zero 0 d_zero.
Definition inc (n : Z) : Z := i32 (n + 1).
Definition allows (rc : RiskCheckResult) : bool := match action rc with ALLOW => true | _ => false end.

(** The readings of the clock in one turn: around the risk check, of the order's
    times, of the quotes, and around the strategy's and the router's decisions. *)
Record Readings := mkReadings {
  rd_check0 : Z; rd_rate : Z; rd_check1 : Z; rd_created : Z; rd_sent : Z; rd_quote : Z;
  rd_strategy0 : Z; rd_strategy1 : Z; rd_route0 : Z; rd_route1 : Z }.

Section pipeline.
Context (md : Mode) (clk : nat -> Readings) (fill_clk : Z -> Z) {env : BookEnv}.

Record Pipe := mkPipe {
  oms : OMS; risk : RiskManager; strategy : MeanReversionStrategy; router : SmartOrderRouter; engine : BookMatchEngine;
  makers : list MarketMaker; maker_last_mid : list Z; maker_idx : gmap Z nat;
  pending_fills : list PendingFill; stats : PipelineStats }.
#[export] Instance eta_pipe : Settable Pipe := fun p =>
  mkPipe (oms p) (risk p) (strategy p) (router p) (engine p) (makers p) (maker_last_mid p) (maker_idx p) (pending_fills p) (stats p).

(** The objects as [run_pipeline] makes them. *)
Definition new_pipe (c : option HFTConfig) (num_messages : Z) (s : PipelineStats) : Pipe :=
  mkPipe (new_oms (match c with Some c => cfg_max_position c | None => 1000 end)
            (match c with Some c => cfg_max_order_value c | None => dbl_of_Z 100000 end) d_zero)
    (new_risk (sim_limits c num_messages))
    (match c with Some c => new_strategy (cfg_window c) (cfg_threshold_pct c) (cfg_order_size c)
                | None => new_strategy 20 (dratio 1 10) 100 end)
    (sim_router md c) (new_engine 200) [] [] ∅ [] s.

(** ** Orders and fills *)

Definition pnl_at (o : OMS) (sym : cstr) : Z := match Oms.get_position o sym with Some p => realized_pnl p | None => 0 end.
Definition tripped (r : RiskManager) (s : PipelineStats) : PipelineStats :=
  s <| risk_kill_tripped ::= fun k => k || kill_switch_active_ r |>.

Definition do_fill (p : Pipe) (oid sh : Z) (px : double) : Pipe :=
  let o := get_order (oms p) oid in
  let sym := match o with Some o => Oms.symbol o | None => [] end in
  let fside := match o with Some o => Oms.side o | None => BUY end in
  let pnl_pre := match o with Some _ => pnl_at (oms p) sym | None => 0 end in
  let '(oms1, applied) := fill_order (oms p) oid (u32 sh) px (fill_clk oid) in
  let p := p <| oms := oms1 |> <| stats ::= fun s => s <| orders_filled ::= inc |> |> in
  if use_risk md && bool_decide (is_Some o) && (0 <? applied) then
    let risk1 := update_position (risk p) sym fside (i32 applied) in
    let pnl_post := pnl_at (oms p) sym in
    let risk2 := if pnl_post =? pnl_pre then risk1 else update_pnl risk1 (to_float (i64 (pnl_post - pnl_pre))) in
    p <| risk := risk2 |> <| stats ::= tripped risk2 |>
  else p.

(** The check before the OMS; without the risk manager nothing is checked. *)
Definition gate (p : Pipe) (i : nat) (stock : cstr) (s : Side) (px : double) (qty : Z) : Pipe * bool :=
  if negb (use_risk md) then (p, true) else
  let t := clk i in
  let '(r, rc) := check_order (risk p) stock s px qty (rd_check0 t) (rd_rate t) (rd_check1 t) in
  let p := p <| risk := r |> in
  if allows rc then (p, true)
  else (p <| stats ::= fun st => tripped r (st <| orders_risk_rejected ::= inc |>) |>, false).
(** The order in the OMS, and its reservation in the risk manager. *)
Definition send_order (p : Pipe) (i : nat) (stock : cstr) (s : Side) (px : double) (qty : Z) : Pipe * option Z :=
  let '(o, oid) := submit_order (oms p) (Some stock) s px (u32 qty) 0 (rd_created (clk i)) (rd_sent (clk i)) in
  let p := p <| oms := o |> in
  match oid with
  | Some _ =>
      (p <| stats ::= fun st => st <| orders_submitted ::= inc |> |>
         <| risk ::= fun r => if use_risk md then on_order_sent r stock s qty else r |>, oid)
  | None => (p <| stats ::= fun st => st <| orders_rejected ::= inc |> |>, None)
  end.

(** ** A tick *)

Record Tape := mkTape { m_stock : cstr; m_price : double; m_side : Side; m_shares : Z }.
(** The stock is read as a C string; 'B' is 66. *)
Definition tape_of (m : AddOrderMsg) : Tape :=
  mkTape (c_str (add_stock m)) (add_price m) (if add_side m =? 66 then BUY else SELL) (i32 (add_shares m)).
Definition tradable (m : ParsedMessage) : option Tape :=
  match m with
  | ADD_ORDER m => Some (tape_of m)
  | TRADE m => Some (tape_of (trade_order m))
  | _ => None
  end.

(** The maker of a symbol, made the first time. *)
Definition maker_of (p : Pipe) (stock : cstr) : Pipe * nat :=
  let key := sym_to_key stock in
  match maker_idx p !! key with
  | Some n => (p, n)
  | None =>
      (p <| maker_idx ::= <[key := length (makers p)]> |> <| makers ::= fun l => l ++ [new_maker sim_mm_config stock] |>
         <| maker_last_mid ::= fun l => l ++ [0] |>, length (makers p))
  end.
Definition no_maker : MarketMaker := new_maker sim_mm_config [].
Definition mid_of (price : double) : Z := dbl_to_i32 (dadd (dmul price (dbl_of_Z 100)) (dratio 1 2)).
(** What an aggressor of the given side takes of a quote: the maker's side, quantity and price. *)
Definition crossed (aggressor : Side) (q : Strategy.Quote) : Side * Z * Z :=
  match aggressor with
  | BUY => if 0 <? q_ask_size q then (SELL, q_ask_size q, q_ask_price q) else (BUY, 0, 0)
  | SELL => if 0 <? q_bid_size q then (BUY, q_bid_size q, q_bid_price q) else (BUY, 0, 0)
  end.
Definition mm_tick (p : Pipe) (i : nat) (m : Tape) : Pipe :=
  let '(p, n) := maker_of p (m_stock m) in
  let mid_ticks := mid_of (m_price m) in
  let p := p <| maker_last_mid ::= <[n := mid_ticks]> |> in
  let '(mk, q) := Strategy.quote (default no_maker (makers p !! n)) (i32 (mid_ticks - 1)) (i32 (mid_ticks + 1)) in
  let p := p <| makers ::= <[n := mk]> |> in
  let '(mm_side, mm_qty, mm_px_ticks) := crossed (m_side m) q in
  if (0 <? mm_qty) && (0 <? mm_px_ticks) then
    let mm_px := ddiv (dbl_of_Z mm_px_ticks) (dbl_of_Z 100) in
    let '(p, allowed) := gate p i (m_stock m) mm_side mm_px mm_qty in
    if negb allowed then p else
    match send_order p i (m_stock m) mm_side mm_px mm_qty with
    | (p, Some oid) =>
        do_fill (p <| makers ::= <[n := apply_fill mk mm_side mm_qty mm_px_ticks]> |>
                   <| stats ::= fun st => st <| mm_fills ::= fun x => u64 (x + 1) |> |>) oid mm_qty mm_px
    | (p, None) => p
    end
  else p.

(** The three venues' quotes around the price. *)
Definition quote_venues (p : Pipe) (i : nat) (price : double) : Pipe :=
  let spread := dmul price (dratio 2 10000) in
  let upd r venue := update_quote r venue (dsub price spread) (dadd price spread) 300 300 0 (rd_quote (clk i)) in
  p <| router ::= fun r => foldl upd r [NYSE; NASDAQ; BATS] |>.
Definition side_name (s : Side) : cstr := match s with BUY => [66; 85; 89] | SELL => [83; 69; 76; 76] end.
Definition route (p : Pipe) (i : nat) (s : Side) (shares : Z) (px : double) : Pipe * double :=
  let '(d, r) := route_order_default (router p) (side_name s) shares (rd_route0 (clk i)) (rd_route1 (clk i)) in
  (p <| router := r |>, if rd_valid d then rd_price d else px).
(** The order a tick leads to: side, shares and price. *)
Definition choose_order (p : Pipe) (i : nat) (m : Tape) : Pipe * option (Side * Z * double) :=
  let p := if use_router md then quote_venues p i (m_price m) else p in
  let routed p s shares px :=
    if use_router md then let '(p, px) := route p i s shares px in (p, Some (s, shares, px)) else (p, Some (s, shares, px)) in
  if use_strategy md then
    let '(st, sig) := on_market_data (strategy p) (m_stock m) (m_price m) 0 (rd_strategy0 (clk i)) (rd_strategy1 (clk i)) in
    let p := p <| strategy := st |> in
    if negb (sig_valid sig) then (p, None) else routed p (sig_side sig) (sig_quantity sig) (sig_price sig)
  else routed p (m_side m) (m_shares m) (m_price m).

(** What the matching engine makes of the order; without it, all of it at its price. *)
Definition match_in_book (fuel : nat) (p : Pipe) (s : Side) (px : double) (shares : Z) : option (Pipe * Z * double) :=
  if negb (use_book md) then Some (p, shares, px) else
  '(e, matched, vwap) ← match_order fuel (engine p) s px shares;
  let slippage := dmul (match s with BUY => dsub vwap px | SELL => dsub px vwap end) (dbl_of_Z matched) in
  Some (p <| engine := e |>
          <| stats ::= fun st =>
               let st := if matched <? shares then st <| orders_book_partial ::= inc |> else st in
               if 0 <? matched then st <| book_slippage_usd ::= fun x => dadd x slippage |> else st |>, matched, vwap).
Definition settle (p : Pipe) (i : nat) (oid fill_sh : Z) (fill_px : double) : Pipe :=
  if fill_sh <=? 0 then p
  else if fill_latency_iters md <=? 0 then do_fill p oid fill_sh fill_px
  else
    let p := p <| pending_fills ::= fun l => l ++ [mkPending oid fill_sh fill_px (i32 (Z.of_nat i + fill_latency_iters md))] |> in
    let in_flight := alen (pending_fills p) in
    p <| stats ::= fun st => st <| max_in_flight_orders ::= fun n => if n <? in_flight then in_flight else n |> |>.
Definition execute (fuel : nat) (p : Pipe) (i : nat) (stock : cstr) (s : Side) (shares : Z) (px : double) : option Pipe :=
  let '(p, allowed) := gate p i stock s px shares in
  if negb allowed then Some p else
  match send_order p i stock s px shares with
  | (p, None) => Some p
  | (p, Some oid) =>
      '(p, fill_sh, fill_px) ← match_in_book fuel p s px shares;
      Some (settle p i oid fill_sh fill_px)
  end.

(** ** The loop *)

(** The fills whose time has come, from the front of the queue. *)
Fixpoint drain (i : nat) (l : list PendingFill) (p : Pipe) : Pipe :=
  match l with
  | pf :: l =>
      if due_iter pf <=? Z.of_nat i
      then drain i l (do_fill p (pf_order_id pf) (pf_shares pf) (pf_price pf) <| pending_fills := l |>)
      else p
  | [] => p
  end.
Definition turn (fuel : nat) (i : nat) (m : ParsedMessage) (p : Pipe) : option Pipe :=
  let p := drain i (pending_fills p) p in
  match tradable m with
  | None => Some p
  | Some k =>
      if dle (m_price k) d_zero then Some p else
      let p := p <| risk ::= fun r => if use_risk md then update_reference_price r (m_stock k) (m_price k) else r |> in
      if use_mm md then Some (mm_tick p i k) else
      match choose_order p i k with
      | (p, None) => Some p
      | (p, Some (s, shares, px)) => execute fuel p i (m_stock k) s shares px
      end
  end.
Fixpoint run (fuel : nat) (i : nat) (l : list ParsedMessage) (p : Pipe) : option Pipe :=
  match l with
  | [] => Some p
  | m :: l => p ← turn fuel i m p; run fuel (S i) l p
  end.
(** The orders still in flight at the end. *)
Definition final_drain (p : Pipe) : Pipe :=
  foldl (fun p pf => do_fill p (pf_order_id pf) (pf_shares pf) (pf_price pf)) p (pending_fills p) <| pending_fills := [] |>.

Definition total_pnl_of (o : OMS) (stocks : list StockInfo) : double :=
  foldl (fun x s => match Oms.get_position o (st_symbol s) with Some pos => dadd x (to_float (realized_pnl pos)) | None => x end)
    d_zero stocks.
Definition totals (stocks : list StockInfo) (p : Pipe) : Pipe :=
  let pairs := zip (makers p) (maker_last_mid p) in
  p <| stats ::= fun st =>
    let st := st <| stats_total_pnl := total_pnl_of (oms p) stocks |> in
    if use_mm md then
      st <| mm_quotes_placed := foldl (fun n x => u64 (n + quotes_placed_ x.1)) 0 pairs |>
         <| mm_pnl := foldl (fun n x => dadd n (pnl x.1 x.2)) d_zero pairs |>
         <| mm_abs_inventory := foldl (fun n x => i32 (n + i32 (Z.abs (position_ x.1)))) 0 pairs |>
    else st |>.

(** ** The feed *)

Definition count_message (m : ParsedMessage) (s : PipelineStats) : PipelineStats :=
  match m with
  | ADD_ORDER _ | ADD_ORDER_MPID _ => s <| n_adds ::= inc |>
  | ORDER_EXECUTED _ => s <| n_executes ::= inc |>
  | TRADE _ => s <| n_trades ::= inc |>
  | ORDER_CANCELLED _ => s <| n_cancels ::= inc |>
  | SYSTEM_EVENT _ => s <| n_events ::= inc |>
  | _ => s
  end.
Fixpoint parse_all (st : Stats) (l : list (list Z)) : option (list ParsedMessage) :=
  match l with
  | [] => Some []
  | d :: l => '(st, m) ← parse st d; ms ← parse_all st l; Some (m :: ms)
  end.
Definition run_feed (fuel : nat) (c : option HFTConfig) (num_messages : Z) (feed : list (list Z)) : option Pipe :=
  ms ← parse_all reset_stats feed;
  let s := foldl (fun s m => count_message m s) no_stats ms in
  let s := s <| messages_generated := alen feed |> <| messages_parsed := alen feed |> in
  p ← run fuel 0 ms (new_pipe c num_messages s);
  Some (totals (active_stocks c) (final_drain p)).
Definition run_pipeline (fuel : nat) (c : option HFTConfig) (num_messages : Z) (seed : Z) : option Pipe :=
  run_feed fuel c num_messages (day num_messages (set_stocks (new_generator seed) (active_stocks c))).

(** ** What the turns do to the OMS and the risk manager *)

(** Changes of the risk manager that leave its quantities and its limits. *)
Definition calm (r r' : RiskManager) : Prop :=
  same_books r r' /\ limits_ r' = limits_ r /\ symbol_pos_limit_ r' = symbol_pos_limit_ r.
Lemma calm_refl r : calm r r.
Proof. done. Qed.
Lemma calm_trans r1 r2 r3 : calm r1 r2 -> calm r2 r3 -> calm r1 r3.
Proof. intros (B1 & L1 & S1) (B2 & L2 & S2). split_and!; [by eapply same_books_trans|congruence|congruence]. Qed.
Lemma latch_calm r why : calm r (latch_kill_switch r why).
Proof. split; [apply latch_books|]. unfold latch_kill_switch. by destruct (kill_switch_active_ r). Qed.
Lemma breakers_calm r : calm r (check_pnl_breakers r).1.
Proof. unfold check_pnl_breakers. destruct (dlt _ _); [apply latch_calm|]. by destruct (_ && _); [apply latch_calm|]. Qed.
Lemma rate_calm r now : calm r (check_rate_limit r now).1.
Proof. split; [apply rate_books|]. unfold check_rate_limit. cbv zeta. by destruct (_ <=? _). Qed.
Lemma check_order_calm r symbol s px q t0 now t1 : calm r (check_order r symbol s px q t0 now t1).1.
Proof.
  unfold check_order. set (r0 := r <| total_checks_ ::= _ |>). assert (B0 : calm r r0) by done.
  destruct (static_failure _ _ _ _ _); [done|].
  pose proof (calm_trans _ _ _ B0 (breakers_calm r0)) as B1. destruct (check_pnl_breakers r0) as [r1 [why|]]; [done|]. cbn [fst] in B1.
  pose proof (calm_trans _ _ _ B1 (rate_calm r1 now)) as B2. destruct (check_rate_limit r1 now) as [r2 b]. cbn [fst] in B2. by destruct b.
Qed.
Lemma record_drawdown_calm r : calm r (record_drawdown r).
Proof. split; [apply record_drawdown_books|]. unfold record_drawdown. cbv zeta. by destruct (dlt _ _). Qed.
Lemma record_win_calm r x : calm r (record_win r x).
Proof. done. Qed.
Lemma record_loss_calm r x : calm r (record_loss r x).
Proof.
  unfold record_loss. cbv zeta. set (r1 := set_field max_consec_losses_ _ _). assert (B : calm r r1) by done. clearbody r1.
  destruct (_ && _); [|done]. eapply calm_trans; [exact B|apply latch_calm].
Qed.
Lemma update_pnl_calm r x : calm r (update_pnl r x).
Proof.
  unfold update_pnl. cbv zeta. set (r1 := set_field peak_pnl_ _ _). assert (B : calm r r1) by done. clearbody r1.
  pose proof (calm_trans _ _ _ B (record_drawdown_calm r1)) as B2. clear B. generalize dependent (record_drawdown r1). intros r2 B2.
  destruct (dlt _ _); [eapply calm_trans; [exact B2|apply record_loss_calm]|]. destruct (dgt _ _); [|done]. eapply calm_trans; [exact B2|apply record_win_calm].
Qed.
Lemma update_reference_price_calm r symbol x : calm r (update_reference_price r symbol x).
Proof. unfold update_reference_price. by destruct (dgt _ _). Qed.

Section actions.
Context (checked : bool) (St : cstr -> Prop) (Q : Z -> Prop).

(** The risk manager after an order passed it. *)
Definition passed (r r1 : RiskManager) (stock : cstr) (s : Side) (px : double) (qty : Z) : Prop :=
  if checked then exists t0 now t1, r1 = (check_order r stock s px qty t0 now t1).1 /\
    action (check_order r stock s px qty t0 now t1).2 = ALLOW
  else r1 = r.
(** Everything a turn may do to the two: nothing that counts, an order that
    passed, an order the OMS refused, a fill. *)
Inductive act : OMS * RiskManager -> OMS * RiskManager -> Prop :=
  | act_calm o r r' : calm r r' -> act (o, r) (o, r')
  | act_refused o r stock s px qty t0 t1 o' :
      submit_order o (Some stock) s px (u32 qty) 0 t0 t1 = (o', None) -> act (o, r) (o', r)
  | act_order o r r1 stock s px qty t0 t1 o' id : St stock -> Q qty -> passed r r1 stock s px qty ->
      submit_order o (Some stock) s px (u32 qty) 0 t0 t1 = (o', Some id) ->
      act (o, r) (o', if checked then on_order_sent r1 stock s qty else r1)
  | act_fill o r id x sh px t o' n : get_order o id = Some x -> fill_order o id (u32 sh) px t = (o', n) -> 0 < n ->
      act (o, r) (o', if checked then update_position r (Oms.symbol x) (Oms.side x) (i32 n) else r).

(** *** The two agree *)

Definition agree (x : OMS * RiskManager) : Prop := forall k,
  net_of (Oms.positions_ x.1 !! k) = lookup_qty (Risk.positions_ x.2) k /\
  pend_of (Oms.positions_ x.1 !! k) = lookup_qty (pending_ x.2) k.
End actions.

(** What an accepted order, and a fill, do to the positions. *)
Lemma submitted o stock s px q t0 t1 o' id :
  submit_order o (Some stock) s px q 0 t0 t1 = (o', Some id) ->
  let key := sym_to_key stock in
  id = next_id_ o /\ q <> 0 /\
  (exists x, orders_ o' = <[id := x]> (orders_ o) /\ Oms.symbol x = copy_sym stock /\ Oms.side x = s /\
     quantity x = q /\ filled_qty x = 0 /\ working x = true) /\
  exists p, Oms.positions_ o' = <[key := p]> (Oms.positions_ o) /\
    net_qty p = net_of (Oms.positions_ o !! key) /\
    pending_qty p = i32 (pend_of (Oms.positions_ o !! key) + Oms.signed_qty s q).
Proof.
  unfold submit_order. destruct (bad_submit _ _ _) eqn:B; [done|]. destruct (_ <? _); [done|]. destruct (_ <? _); [done|].
  intros [= <- <-]. cbv zeta. split_and!; [done| | |].
  - intros ->. unfold bad_submit in B. rewrite Z.eqb_refl, !orb_true_r in B. done.
  - eexists. split; [reflexivity|]. done.
  - eexists. split; [reflexivity|]. unfold position_or_new. by destruct (Oms.positions_ o !! _).
Qed.
Lemma refused o stock s px q t0 t1 o' : submit_order o (Some stock) s px q 0 t0 t1 = (o', None) ->
  Oms.positions_ o' = Oms.positions_ o /\ orders_ o' = orders_ o.
Proof.
  unfold submit_order. destruct (bad_submit _ _ _); [by intros [= <-]|]. destruct (_ <? _); [by intros [= <-]|].
  destruct (_ <? _); [by intros [= <-]|done].
Qed.
Lemma filled_positions o id q px t : 0 <= q ->
  fill_order o id q px t = (o, 0) \/ exists o' x n, get_order o id = Some x /\ fill_order o id q px t = (o', n) /\
    0 < n <= q /\ n = Z.min q (remaining x) /\
    (exists x', orders_ o' = <[id := x']> (orders_ o) /\ Oms.symbol x' = Oms.symbol x) /\
    let key := sym_to_key (Oms.symbol x) in
    exists p, Oms.positions_ o' = <[key := p]> (Oms.positions_ o) /\
      net_qty p = i32 (net_of (Oms.positions_ o !! key) + Oms.signed_qty (Oms.side x) n) /\
      pending_qty p = i32 (pend_of (Oms.positions_ o !! key) - Oms.signed_qty (Oms.side x) n).
Proof.
  intros Hq. unfold fill_order, get_order. destruct (_ =? 0); [by left|]. destruct (orders_ o !! id) as [x|]; [|by left].
  destruct (negb _); [by left|]. set (n := Z.min q (Oms.remaining x)). destruct (Z.eqb_spec n 0); [by left|]. right.
  assert (0 <= Oms.remaining x). { unfold Oms.remaining. destruct (_ <? _); [|lia]. pose proof (u32_range (quantity x - filled_qty x)). lia. }
  exists (record_fill o id x n px t), x, n. split_and!; try done; try lia.
  - eexists. split; [reflexivity|]. done.
  - unfold record_fill. set (key := sym_to_key _). set (pos1 := (position_or_new _ _) <| pending_qty ::= _ |>).
    pose proof (apply_fill_fields pos1 (Oms.signed_qty (Oms.side x) n) n (to_fixed px)) as (F1 & F2 & _).
    set (pos2 := apply_fill_to_position _ _ _ _) in *. eexists. split; [reflexivity|].
    assert (E : net_qty pos1 = net_of (Oms.positions_ o !! key) /\ pending_qty pos1 = i32 (pend_of (Oms.positions_ o !! key) - Oms.signed_qty (Oms.side x) n)).
    { unfold pos1, position_or_new. by destruct (Oms.positions_ o !! key). }
    destruct E as [<- <-]. rewrite <- F1, <- F2. clearbody pos1 pos2. split; repeat case_match; done.
Qed.

Lemma net_insert o k (p : Position) j : net_of (<[k := p]> (Oms.positions_ o) !! j) = if j =? k then net_qty p else net_of (Oms.positions_ o !! j).
Proof. destruct (Z.eqb_spec j k) as [->|]; [by rewrite lookup_insert_eq|by rewrite lookup_insert_ne]. Qed.
Lemma pend_insert o k (p : Position) j : pend_of (<[k := p]> (Oms.positions_ o) !! j) = if j =? k then pending_qty p else pend_of (Oms.positions_ o !! j).
Proof. destruct (Z.eqb_spec j k) as [->|]; [by rewrite lookup_insert_eq|by rewrite lookup_insert_ne]. Qed.
Lemma i32_of_u32 z : i32 (u32 z) = i32 z.
Proof. apply wraps_eqm; [lia|]. unfold wrapu. by rewrite Zmod_mod. Qed.
(** The two sign conventions: [uint32_t] in the OMS, [int32_t] in the risk manager. *)
Lemma signed_same s q : i32 q = q -> Oms.signed_qty s (u32 q) = Risk.signed_qty s q.
Proof. intros H. destruct s; cbn [Oms.signed_qty Risk.signed_qty]; by rewrite i32_of_u32, H. Qed.
Lemma signed_applied s q : Risk.signed_qty s (i32 q) = Oms.signed_qty s q.
Proof. by destruct s. Qed.

Lemma agree_calm o r r' : calm r r' -> agree (o, r) -> agree (o, r').
Proof. intros ((E1 & E2 & _) & _) A k. destruct (A k) as [A1 A2]. cbn in *. unfold lookup_qty in *. by rewrite E1, E2. Qed.
Lemma act_agree St Q x y : (forall q, Q q -> i32 q = q) -> act true St Q x y -> agree x -> agree y.
Proof.
  intros HQ. intros [o r r' C|o r stock s px qty t0 t1 o' E|o r r1 stock s px qty t0 t1 o' id HS Hq P E|o r id x0 sh px t o' n G E Hn] A.
  - by eapply agree_calm.
  - apply refused in E as [Ep _]. intros k. cbn. rewrite Ep. apply A.
  - destruct P as (c0 & c1 & c2 & -> & _). apply submitted in E as (_ & _ & _ & p & Ep & En & Ed).
    pose proof (agree_calm _ _ _ (check_order_calm r stock s px qty c0 c1 c2) A) as A1. generalize dependent (check_order r stock s px qty c0 c1 c2).1. intros r1 A1.
    intros k. cbn. rewrite Ep, net_insert, pend_insert. rewrite (lookup_qty_insert (pending_ r1)). destruct (A1 k) as [B1 B2]. cbn in B1, B2.
    destruct (Z.eqb_spec k (sym_to_key stock)) as [->|]; [|done]. rewrite En, Ed, signed_same, B1, B2 by auto. done.
  - destruct (filled_positions o id (u32 sh) px t) as [F|(o1 & x1 & n1 & G1 & F & _ & _ & _ & p & Ep & En & Ed)]; [pose proof (u32_range sh); lia|rewrite F in E; simplify_eq; lia|].
    rewrite F in E. rewrite G in G1. simplify_eq. intros k. cbn. rewrite Ep, net_insert, pend_insert, (lookup_qty_insert (Risk.positions_ r)), (lookup_qty_insert (pending_ r)).
    destruct (A k) as [B1 B2]. cbn in B1, B2. destruct (Z.eqb_spec k (sym_to_key (Oms.symbol x1))) as [->|]; [|done].
    by rewrite En, Ed, signed_applied, B1, B2.
Qed.

(** *** The limits hold in the OMS *)

Section limits.
Context (L : RiskLimits).
Definition lcap : Z := max_position_per_symbol L.
Definition scap : Z := if 0 <? max_short_per_symbol L then max_short_per_symbol L else lcap.
(** Limits that leave room for one more order in 32 bits. *)
Record limits_fit : Prop := {
  lf_cap : 0 <= lcap; lf_shares : 0 < max_shares_per_order L;
  lf_long : lcap + max_shares_per_order L <= INT32_MAX; lf_short : scap + max_shares_per_order L <= INT32_MAX;
  lf_total : 0 <= max_portfolio_exposure L <= INT32_MAX }.
Definition nonneg_qty (q : Z) : Prop := 0 <= q <= INT32_MAX.
Definition covering (r : RiskManager) (ks : list Z) : Prop := NoDup ks /\ forall k, k ∉ ks -> exposure_at r k = 0.
Definition abs_exposure (r : RiskManager) (ks : list Z) : Z := sumf (fun k => Z.abs (exposure_at r k)) ks.
Record limited (r : RiskManager) : Prop := {
  lm_limits : limits_ r = L; lm_custom : symbol_pos_limit_ r = ∅;
  lm_symbol : forall k, - scap <= exposure_at r k <= lcap;
  lm_total : forall ks, covering r ks -> total_abs_exposure_ r = abs_exposure r ks;
  lm_portfolio : 0 <= total_abs_exposure_ r <= max_portfolio_exposure L }.

Lemma limited_calm r r' : calm r r' -> limited r -> limited r'.
Proof.
  intros ((E1 & E2 & E3) & El & Es) [H1 H2 H3 H4 H5].
  assert (X : forall k, exposure_at r' k = exposure_at r k) by (intros k; unfold exposure_at; by rewrite E1, E2).
  split; [congruence|congruence|intros k; by rewrite X| |congruence].
  intros ks [N C]. rewrite E3, (H4 ks) by (split; [done|intros k Hk; rewrite <- X; by apply C]).
  apply sumf_ext. intros k _. by rewrite X.
Qed.

(** Moving one symbol's exposure moves the total with it. *)
Lemma total_moves r r' key : limited r -> (forall k, k <> key -> exposure_at r' k = exposure_at r k) ->
  total_abs_exposure_ r' = total_abs_exposure_ r + (Z.abs (exposure_at r' key) - Z.abs (exposure_at r key)) ->
  forall ks, covering r' ks -> total_abs_exposure_ r' = abs_exposure r' ks.
Proof.
  intros [_ _ _ He _] Hne Ht ks [Hn Hc]. rewrite Ht. unfold abs_exposure.
  rewrite (sumf_update (fun k => Z.abs (exposure_at r k)) (fun k => Z.abs (exposure_at r' k)) ks key Hn) by (intros k N; cbv beta; by rewrite Hne).
  destruct (decide (key ∈ ks)) as [Hin|Hout].
  - rewrite (He ks); [done|]. split; [done|]. intros k Hk. rewrite <- Hne by congruence. by apply Hc.
  - rewrite (He (key :: ks)).
    + unfold abs_exposure. rewrite sumf_cons, (Hc key Hout). lia.
    + split; [by constructor|]. intros k Hk. rewrite <- Hne; [apply Hc|]; intros ?; apply Hk; [by right|subst; by left].
Qed.

Lemma covering_known r : covering r (elements (dom (positions_ r) ∪ dom (pending_ r))).
Proof.
  split; [apply NoDup_elements|]. intros k Hk. rewrite elem_of_elements, elem_of_union, !elem_of_dom in Hk.
  unfold exposure_at, lookup_qty. destruct (positions_ r !! k) eqn:E1; [destruct Hk; left; eauto|]. destruct (pending_ r !! k) eqn:E2; [destruct Hk; right; eauto|done].
Qed.
Lemma exposure_le_total r k : limited r -> Z.abs (exposure_at r k) <= total_abs_exposure_ r.
Proof.
  intros [_ _ _ He _]. pose proof (covering_known r) as [Hn Hc]. rewrite (He _ (covering_known r)). unfold abs_exposure.
  set (ks := elements _) in *. clearbody ks. clear He.
  assert (N : forall l : list Z, 0 <= sumf (fun k => Z.abs (exposure_at r k)) l) by (intros l; apply sumf_nonneg; intros; lia).
  destruct (decide (k ∈ ks)) as [Hin|Hout]; [|rewrite (Hc k Hout); apply N].
  apply elem_of_Permutation in Hin as [l' P]. rewrite (sumf_perm _ _ _ P), sumf_cons. pose proof (N l'). lia.
Qed.
(** An order of a fitting quantity that the checks allow. *)
Lemma order_limited r r1 stock s px q c0 c1 c2 : limits_fit -> nonneg_qty q -> limited r ->
  action (check_order r stock s px q c0 c1 c2).2 = ALLOW -> r1 = (check_order r stock s px q c0 c1 c2).1 ->
  limited (on_order_sent r1 stock s q).
Proof.
  intros [F1 F2 F3 F4 F5] [Hq1 Hq2] Hr Ha ->. destruct (allow_passes _ _ _ _ _ _ _ _ Ha) as (S & _ & _).
  pose proof (limited_calm _ _ (check_order_calm r stock s px q c0 c1 c2) Hr) as Hr1.
  pose proof (check_order_books r stock s px q c0 c1 c2) as (B1 & B2 & B3).
  generalize dependent (check_order r stock s px q c0 c1 c2).1. intros r1 Hr1 B1 B2 B3. clear Ha.
  set (key := sym_to_key stock) in *. set (d := Risk.signed_qty s q).
  assert (E : forall k, exposure_at r1 k = exposure_at r k) by (intros k; unfold exposure_at; by rewrite B1, B2).
  pose proof (lm_symbol r Hr key) as He. pose proof Hr as [Hl Hs _ _ Hp]. unfold INT32_MAX in *.
  unfold static_failure in S. fold key in S. cbv zeta in S. unfold long_cap, short_cap in S. rewrite Hl, Hs, lookup_empty in S. cbn [default] in S.
  unfold long_cap in S. rewrite Hl, Hs, lookup_empty in S. cbn [default] in S.
  repeat match type of S with (if ?c then _ else _) = _ => let C := fresh "C" in destruct c eqn:C; [done|] end. clear S.
  assert (Q : q <= max_shares_per_order L) by (clear -C2 F2; bsplit; destruct (0 <? max_shares_per_order L) eqn:X; simpl in *; bsplit; lia).
  assert (D : - max_shares_per_order L <= d <= max_shares_per_order L).
  { unfold d, Risk.signed_qty. destruct s; [lia|]. rewrite i32_small; lia. }
  assert (P : projected_at r key s q = exposure_at r key + d) by (unfold projected_at; fold d; apply i32_small; lia).
  rewrite P in *. set (e := exposure_at r key) in *. fold lcap in C6. fold lcap in C7. fold scap in C7.
  assert (Up : e + d <= lcap) by (clear -C6 F1; destruct (0 <=? e + d) eqn:X; simpl in *; bsplit; lia).
  assert (Lo : - scap <= e + d) by (clear -C7 He F3 F4 F2 F1 D; destruct (e + d <? 0) eqn:X; simpl in *; [rewrite i32_small in C7 by lia; bsplit; lia|bsplit; unfold scap in *; case_match; bsplit; lia]).
  rewrite !i32_small in C9 by lia. rewrite i64_small in C9 by lia. bsplit.
  assert (X : forall k, exposure_at (on_order_sent r1 stock s q) k = if k =? key then e + d else exposure_at r k).
  { intros k. unfold exposure_at at 1, on_order_sent, adjust_pending. fold key d. cbn. rewrite lookup_qty_insert. destruct (Z.eqb_spec k key) as [->|].
    - rewrite <- P. unfold projected_at, exposure_at. fold d. rewrite B1, B2. wrap_norm. f_equal. lia.
    - rewrite <- (E k). done. }
  assert (T : total_abs_exposure_ (on_order_sent r1 stock s q) = total_abs_exposure_ r1 + (Z.abs (e + d) - Z.abs e)).
  { transitivity (i64 (total_abs_exposure_ r1 + i32 (i32 (Z.abs (exposure_at (on_order_sent r1 stock s q) key)) - i32 (Z.abs (exposure_at r1 key))))).
    - unfold exposure_at, on_order_sent, adjust_pending. cbn. fold key. by rewrite lookup_qty_insert, Z.eqb_refl.
    - rewrite X, Z.eqb_refl, E. fold e. rewrite (i32_small (Z.abs (e + d))), (i32_small (Z.abs e)), (i32_small (_ - _)), i64_small by lia. done. }
  assert (Mv : forall ks, covering (on_order_sent r1 stock s q) ks -> total_abs_exposure_ (on_order_sent r1 stock s q) = abs_exposure (on_order_sent r1 stock s q) ks).
  { apply (total_moves r1 _ key Hr1); [intros k Hk; rewrite X, (proj2 (Z.eqb_neq k key)), E by done; done|]. rewrite (X key), Z.eqb_refl, E. exact T. }
  split; [apply Hr1|apply Hr1| |exact Mv|].
  - intros k. rewrite X. destruct (Z.eqb_spec k key); [lia|]. apply Hr.
  - pose proof (exposure_le_total r key Hr) as Le. fold e in Le. rewrite T, B3. lia.
Qed.
Lemma fill_limited r symbol s n : limited r -> limited (update_position r symbol s n).
Proof.
  intros Hr. assert (X : forall k, exposure_at (update_position r symbol s n) k = exposure_at r k).
  { intros k. unfold exposure_at, update_position. cbn. rewrite !lookup_qty_insert. destruct (Z.eqb_spec k (sym_to_key symbol)) as [->|]; [|done].
    wrap_norm. f_equal. lia. }
  pose proof Hr as [H1 H2 H3 H4 H5]. split; [done|done|intros k; by rewrite X| |done].
  intros ks [N C]. change (total_abs_exposure_ (update_position r symbol s n)) with (total_abs_exposure_ r).
  rewrite (H4 ks) by (split; [done|intros k Hk; rewrite <- X; by apply C]). apply sumf_ext. intros k _. by rewrite X.
Qed.
Lemma act_limited St x y : limits_fit -> act true St nonneg_qty x y -> limited x.2 -> limited y.2.
Proof.
  intros F [o r r' C|o r stock s px qty t0 t1 o' E|o r r1 stock s px qty t0 t1 o' id HS Hq P E|o r id x0 sh px t o' n G E Hn] Hl; cbn [snd] in *.
  - by eapply limited_calm.
  - done.
  - destruct P as (c0 & c1 & c2 & P1 & P2). by eapply order_limited.
  - by apply fill_limited.
Qed.
End limits.
Arguments act_calm {checked St Q}.

(** *** Every turn is a sequence of such actions *)

Section turns.
Context (St : cstr -> Prop) (Q : Z -> Prop) (osz : Z) {ok : EnvOk}.
Context (Q_maker : forall q, 0 < q <= 10 -> Q q) (Q_order : Q osz) (Q_range : forall q, Q q -> q <= INT32_MAX).
(** What the turns keep: an engine whose matches end, the size of the
    strategy's orders, the makers' configuration. *)
Definition fine (p : Pipe) : Prop :=
  engine_ok (engine p) /\ order_size_ (strategy p) = osz /\ forall mk, mk ∈ makers p -> cfg_ mk = sim_mm_config.
Definition reaches (p p' : Pipe) : Prop := rtc (act (use_risk md) St Q) (oms p, risk p) (oms p', risk p').
(** The parts that orders and fills leave alone. *)
Definition framed (p p' : Pipe) : Prop :=
  engine p' = engine p /\ strategy p' = strategy p /\ makers p' = makers p /\ maker_idx p' = maker_idx p /\ pending_fills p' = pending_fills p.

Lemma fine_frame p p' : framed p p' -> fine p -> fine p'.
Proof. unfold fine. by intros (-> & -> & -> & _). Qed.
Lemma reaches_calm p p' : oms p' = oms p -> calm (risk p) (risk p') -> reaches p p'.
Proof. intros E C. unfold reaches. rewrite E. apply rtc_once. by constructor. Qed.

Lemma do_fill_acts p oid sh px : reaches p (do_fill p oid sh px) /\ framed p (do_fill p oid sh px).
Proof.
  unfold do_fill. destruct (filled_positions (oms p) oid (u32 sh) px (fill_clk oid)) as [F|(o1 & x & n & G & F & Hn & _)]; [pose proof (u32_range sh); lia| |].
  - rewrite F. rewrite andb_false_r. by split; [apply rtc_refl|].
  - rewrite F, G. cbn [is_Some]. assert (A : act (use_risk md) St Q (oms p, risk p) (o1, if use_risk md then update_position (risk p) (Oms.symbol x) (Oms.side x) (i32 n) else risk p)).
    { apply (act_fill _ _ _ (oms p) (risk p) oid x sh px (fill_clk oid) o1 n); [done|done|lia]. }
    rewrite bool_decide_true by eauto. replace (0 <? n) with true by lia. rewrite !andb_true_r.
    revert A. unfold reaches. destruct (use_risk md); cbn [andb negb]; intros A; [|by split; [apply rtc_once|]].
    split; [|done]. eapply rtc_l; [exact A|]. apply rtc_once, act_calm. cbn. case_match; [apply calm_refl|apply update_pnl_calm].
Qed.
Lemma gate_acts p i stock s px q : let r := gate p i stock s px q in
  framed p r.1 /\ oms r.1 = oms p /\ calm (risk p) (risk r.1) /\ (r.2 = true -> passed (use_risk md) (risk p) (risk r.1) stock s px q).
Proof.
  cbv zeta. unfold gate, passed. destruct (use_risk md); cbn [negb]; [|by split_and!].
  match goal with |- context [check_order ?r ?a ?b ?c ?d ?e ?f ?g] => pose proof (check_order_calm r a b c d e f g) as C;
    assert (P : exists t0 now t1, (check_order r a b c d e f g).1 = (check_order r stock s px q t0 now t1).1 /\ (check_order r a b c d e f g).2 = (check_order r stock s px q t0 now t1).2) by (eexists _, _, _; split; reflexivity);
    destruct (check_order r a b c d e f g) as [r1 rc] end.
  cbn [fst snd] in *. unfold allows. destruct P as (t0 & now & t1 & P1 & P2). destruct (action rc) eqn:A; split_and!; try done.
  intros _. exists t0, now, t1. by rewrite <- P2.
Qed.
(** An order, checked and sent. *)
Lemma order_acts p i stock s px q : St stock -> Q q -> let g := gate p i stock s px q in g.2 = true ->
  let r := send_order g.1 i stock s px q in reaches p r.1 /\ framed p r.1.
Proof.
  cbv zeta. intros HS HQ Hg. destruct (gate_acts p i stock s px q) as (Fr & Eo & C & P). specialize (P Hg).
  destruct (gate p i stock s px q) as [p1 b]. cbn [fst snd] in *. unfold send_order.
  destruct (submit_order _ _ _ _ _ _ _ _) as [o1 [oid|]] eqn:E; rewrite Eo in E; (split; [|exact Fr]); unfold reaches; cbn [fst oms risk].
  - apply rtc_once. by eapply (act_order _ _ _ (oms p) (risk p) (risk p1) stock s px q).
  - eapply rtc_l; [by eapply act_refused|]. by apply rtc_once, act_calm.
Qed.
Lemma gate_reaches p i stock s px q : reaches p (gate p i stock s px q).1 /\ framed p (gate p i stock s px q).1.
Proof. destruct (gate_acts p i stock s px q) as (Fr & Eo & C & _). split; [by apply reaches_calm|done]. Qed.

Lemma reaches_trans p1 p2 p3 : reaches p1 p2 -> reaches p2 p3 -> reaches p1 p3.
Proof. unfold reaches. intros. by etrans. Qed.
Lemma reaches_same p p' : oms p' = oms p -> risk p' = risk p -> reaches p p'.
Proof. intros E1 E2. unfold reaches. by rewrite E1, E2. Qed.

Lemma maker_of_fine p stock : fine p -> let r := maker_of p stock in
  fine r.1 /\ oms r.1 = oms p /\ risk r.1 = risk p.
Proof.
  intros (H1 & H2 & H3). cbv zeta. unfold maker_of. destruct (maker_idx p !! _); [by split_and!|]. split_and!; try done.
  split_and!; try done. cbn. intros mk [Hm| ->%list_elem_of_singleton]%elem_of_app; [by apply H3|done].
Qed.
Lemma makers_fine p n mk : fine p -> cfg_ mk = sim_mm_config -> fine (p <| makers ::= <[n := mk]> |>).
Proof.
  intros (H1 & H2 & H3) E. split_and!; try done. cbn. intros x Hx. apply list_elem_of_lookup in Hx as [j Hj].
  apply list_lookup_insert_Some in Hj as [(_ & -> & _)|(_ & Hj)]; [done|]. apply H3. by apply list_elem_of_lookup_2 with j.
Qed.
Lemma crossed_qty a q s n px : crossed a q = (s, n, px) -> 0 < n -> n = q_bid_size q \/ n = q_ask_size q.
Proof. unfold crossed. destruct a; case_match; intros [= <- <- <-]; lia || auto. Qed.
Lemma maker_cfg p n : fine p -> cfg_ (default no_maker (makers p !! n)) = sim_mm_config.
Proof. intros (_ & _ & H). destruct (makers p !! n) as [mk|] eqn:E; [|done]. cbn. apply H. by apply list_elem_of_lookup_2 with n. Qed.
Lemma apply_fill_cfg m s n px : cfg_ (apply_fill m s n px) = cfg_ m.
Proof. unfold apply_fill. destruct (_ <=? _); [done|]. by destruct s. Qed.

Lemma mm_tick_acts p i m : fine p -> St (m_stock m) -> fine (mm_tick p i m) /\ reaches p (mm_tick p i m).
Proof.
  intros F HS. unfold mm_tick. destruct (maker_of_fine p (m_stock m) F) as (F1 & Eo & Er). destruct (maker_of p (m_stock m)) as [p1 n]. cbn [fst] in *.
  set (mid := mid_of _). set (mk0 := default no_maker (makers (set_field _ _ p1) !! n)).
  assert (C0 : cfg_ mk0 = sim_mm_config) by (by apply maker_cfg).
  pose proof (quote_keeps mk0 (i32 (mid - 1)) (i32 (mid + 1))) as (K1 & _). pose proof (quote_sides mk0 (i32 (mid - 1)) (i32 (mid + 1))) as Sd.
  destruct (Strategy.quote mk0 _ _) as [mk q]. cbn [fst snd] in *. rewrite C0 in *. specialize (Sd ltac:(done)). cbn [quote_size sim_mm_config] in Sd.
  set (p2 := p1 <| maker_last_mid ::= _ |> <| makers ::= <[n := mk]> |>).
  assert (F2 : fine p2) by (by apply (makers_fine (p1 <| maker_last_mid ::= <[n := mid]> |>))).
  assert (R2 : reaches p p2) by (by apply reaches_same).
  destruct (crossed (m_side m) q) as [[s qty] px] eqn:X. destruct ((0 <? qty) && (0 <? px)) eqn:B; [|done].
  assert (HQ : Q qty) by (apply Q_maker; bsplit; apply crossed_qty in X; lia).
  set (d := ddiv _ _). destruct (gate_reaches p2 i (m_stock m) s d qty) as [Gr Gf]. pose proof (order_acts p2 i (m_stock m) s d qty HS HQ) as O. cbv zeta in O.
  destruct (gate p2 i (m_stock m) s d qty) as [p3 allowed]. cbn [fst snd] in *. destruct allowed; cbn [negb].
  2: { split; [by apply (fine_frame p2)|]. by eapply reaches_trans. }
  destruct (O eq_refl) as [Or Of]. destruct (send_order p3 i (m_stock m) s d qty) as [p4 [oid|]]; cbn [fst] in *.
  2: { split; [by apply (fine_frame p2)|]. by eapply reaches_trans. }
  set (p5 := p4 <| makers ::= _ |> <| stats ::= _ |>). destruct (do_fill_acts p5 oid qty d) as [Dr Df].
  assert (F4 : fine p4) by (by apply (fine_frame p2)).
  split; [apply (fine_frame p5); [done|]; apply (makers_fine p4); [done|by rewrite apply_fill_cfg, K1]|].
  eapply reaches_trans; [exact R2|]. eapply reaches_trans; [exact Or|]. eapply reaches_trans; [|exact Dr]. by apply reaches_same.
Qed.

Lemma signal_size m stock px ts t0 t1 : let r := on_market_data m stock px ts t0 t1 in
  order_size_ r.1 = order_size_ m /\ (sig_valid r.2 = true -> sig_quantity r.2 = order_size_ m).
Proof.
  cbv zeta. unfold on_market_data. destruct (negb _); [done|].
  assert (E : order_size_ (find_or_create m stock).1 = order_size_ m) by (unfold find_or_create; repeat case_match; done).
  destruct (find_or_create m stock) as [m1 [i|]]; cbn [fst snd] in *; [|done]. set (m2 := m1 <| windows_ ::= _ |>).
  assert (E2 : order_size_ m2 = order_size_ m1) by done. clearbody m2. set (sig := decide_signal _ _ _ _ _).
  destruct (counted m2 sig t0 t1) as (_ & _ & _ & ->). split; [congruence|]. intros V. rewrite <- E, <- E2.
  unfold sig, decide_signal in *. clear sig. repeat (case_match; try done).
Qed.
(** A tick's order, whatever chose it, has the size of the tick or of the strategy. *)
Lemma choose_order_acts p i m : fine p -> Q (m_shares m) -> let r := choose_order p i m in
  fine r.1 /\ oms r.1 = oms p /\ risk r.1 = risk p /\ match r.2 with Some (_, q, _) => Q q | None => True end.
Proof.
  intros F HQ. cbv zeta. unfold choose_order. set (p1 := if use_router md then _ else _).
  assert (E1 : fine p1 /\ oms p1 = oms p /\ risk p1 = risk p) by (unfold p1; by destruct (use_router md)). clearbody p1. destruct E1 as (F1 & O1 & R1).
  assert (Rt : forall p s q px, let r := route p i s q px in (fine p -> fine r.1) /\ oms r.1 = oms p /\ risk r.1 = risk p).
  { intros. unfold r, route. by destruct (route_order_default _ _ _ _ _). }
  destruct (use_strategy md).
  - pose proof (signal_size (strategy p1) (m_stock m) (m_price m) 0 (rd_strategy0 (clk i)) (rd_strategy1 (clk i))) as [Z1 Z2].
    destruct (on_market_data _ _ _ _ _ _) as [st sig]. cbn [fst snd] in *.
    assert (F2 : fine (p1 <| strategy := st |>)) by (destruct F1 as (? & ? & ?); split_and!; try done; cbn; congruence).
    assert (Osz : order_size_ (strategy p1) = osz) by apply F1.
    destruct (sig_valid sig); cbn [negb]; [|by split_and!]. specialize (Z2 eq_refl). destruct (use_router md).
    + destruct (Rt (p1 <| strategy := st |>) (sig_side sig) (sig_quantity sig) (sig_price sig)) as (G1 & G2 & G3). destruct (route _ _ _ _ _) as [p2 px]. cbn [fst snd] in *.
      split_and!; [auto|by rewrite G2|by rewrite G3|by rewrite Z2, Osz].
    + cbn. split_and!; try done. by rewrite Z2, Osz.
  - destruct (use_router md); [|by split_and!]. destruct (Rt p1 (m_side m) (m_shares m) (m_price m)) as (G1 & G2 & G3). destruct (route _ _ _ _ _) as [p2 px]. cbn [fst snd] in *.
    split_and!; [auto|congruence|congruence|done].
Qed.

Lemma match_in_book_ends fuel p s px q : (engine_fuel <= fuel)%nat -> fine p -> q <= INT32_MAX ->
  exists p' n v, match_in_book fuel p s px q = Some (p', n, v) /\ fine p' /\ oms p' = oms p /\ risk p' = risk p.
Proof.
  intros Hf (K & O & M) Hq. unfold match_in_book. destruct (use_book md); cbn [negb]; [|by eexists _, _, _].
  destruct (match_ends fuel (engine p) s px q Hf K Hq) as (e & n & v & -> & Ke). cbn. eexists _, _, _. split; [reflexivity|]. done.
Qed.
Lemma settle_acts p i oid n px : fine p -> fine (settle p i oid n px) /\ reaches p (settle p i oid n px).
Proof.
  intros F. unfold settle. destruct (_ <=? 0); [by split; [|apply reaches_same]|]. destruct (_ <=? 0).
  - destruct (do_fill_acts p oid n px) as [R Fr]. split; [by apply (fine_frame p)|done].
  - split; [done|by apply reaches_same].
Qed.
Lemma execute_ends fuel p i stock s q px : (engine_fuel <= fuel)%nat -> fine p -> St stock -> Q q ->
  exists p', execute fuel p i stock s q px = Some p' /\ fine p' /\ reaches p p'.
Proof.
  intros Hf F HS HQ. unfold execute. destruct (gate_reaches p i stock s px q) as [Gr Gf]. pose proof (order_acts p i stock s px q HS HQ) as O. cbv zeta in O.
  destruct (gate p i stock s px q) as [p1 allowed]. cbn [fst snd] in *. destruct allowed; cbn [negb]; [|eexists; split_and!; [done|by apply (fine_frame p)|done]].
  destruct (O eq_refl) as [Or Of]. destruct (send_order p1 i stock s px q) as [p2 [oid|]]; cbn [fst] in *; [|eexists; split_and!; [done|by apply (fine_frame p)|done]].
  destruct (match_in_book_ends fuel p2 s px q Hf) as (p3 & n & v & -> & F3 & O3 & R3); [by apply (fine_frame p)|by apply Q_range|].
  cbn. destruct (settle_acts p3 i oid n v F3) as [F4 R4]. eexists. split_and!; [reflexivity|done|].
  eapply reaches_trans; [exact Or|]. eapply reaches_trans; [|exact R4]. by apply reaches_same.
Qed.
Lemma drain_acts i l : forall p, fine p -> fine (drain i l p) /\ reaches p (drain i l p).
Proof.
  induction l as [|pf l IH]; intros p F; cbn [drain]; [by split; [|apply reaches_same]|]. destruct (_ <=? _); [|by split; [|apply reaches_same]].
  destruct (do_fill_acts p (pf_order_id pf) (pf_shares pf) (pf_price pf)) as [R Fr].
  destruct (IH (do_fill p (pf_order_id pf) (pf_shares pf) (pf_price pf) <| pending_fills := l |>)) as [F2 R2]; [exact (fine_frame p _ Fr F)|].
  split; [done|]. eapply reaches_trans; [exact R|exact R2].
Qed.
(** A message that is fit to trade on. *)
Definition fit_message (m : ParsedMessage) : Prop :=
  match tradable m with Some k => St (m_stock k) /\ Q (m_shares k) | None => True end.
Lemma turn_ends fuel i m p : (engine_fuel <= fuel)%nat -> fine p -> fit_message m ->
  exists p', turn fuel i m p = Some p' /\ fine p' /\ reaches p p'.
Proof.
  intros Hf F Fm. unfold turn, fit_message in *. destruct (drain_acts i (pending_fills p) p F) as [F1 R1]. generalize dependent (drain i (pending_fills p) p). intros p1 F1 R1.
  destruct (tradable m) as [k|]; [|by exists p1]. destruct Fm as [HS HQ]. destruct (dle _ _); [by exists p1|].
  set (p2 := p1 <| risk ::= _ |>). assert (F2 : fine p2) by done.
  assert (R2 : reaches p p2).
  { eapply reaches_trans; [exact R1|]. apply reaches_calm; [done|]. cbn. destruct (use_risk md); [apply update_reference_price_calm|done]. }
  clearbody p2. destruct (use_mm md).
  - destruct (mm_tick_acts p2 i k F2 HS) as [F3 R3]. eexists. split_and!; [done|done|by eapply reaches_trans].
  - destruct (choose_order_acts p2 i k F2 HQ) as (F3 & O3 & K3 & D). destruct (choose_order p2 i k) as [p3 [[[s q] px]|]]; cbn [fst snd] in *.
    + destruct (execute_ends fuel p3 i (m_stock k) s q px Hf F3 HS D) as (p4 & E & F4 & R4). exists p4. split_and!; [done|done|].
      eapply reaches_trans; [exact R2|]. eapply reaches_trans; [|exact R4]. by apply reaches_same.
    + exists p3. split_and!; [done|done|]. eapply reaches_trans; [exact R2|]. by apply reaches_same.
Qed.
Lemma run_ends fuel l : (engine_fuel <= fuel)%nat -> Forall fit_message l -> forall i p, fine p ->
  exists p', run fuel i l p = Some p' /\ fine p' /\ reaches p p'.
Proof.
  intros Hf. induction 1 as [|m l Hm Hl IH]; intros i p F; cbn [run]; [by exists p; split_and!; [| |apply reaches_same]|].
  destruct (turn_ends fuel i m p Hf F Hm) as (p1 & -> & F1 & R1). cbn. destruct (IH (S i) p1 F1) as (p2 & E & F2 & R2).
  exists p2. split_and!; [done|done|by eapply reaches_trans].
Qed.
Lemma fills_acts l : forall p, fine p -> let p' := foldl (fun p pf => do_fill p (pf_order_id pf) (pf_shares pf) (pf_price pf)) p l in
  fine p' /\ reaches p p'.
Proof.
  induction l as [|pf l IH]; intros p F; cbn [foldl]; [by split; [|apply reaches_same]|].
  destruct (do_fill_acts p (pf_order_id pf) (pf_shares pf) (pf_price pf)) as [R Fr].
  destruct (IH (do_fill p (pf_order_id pf) (pf_shares pf) (pf_price pf))) as [F2 R2]; [by apply (fine_frame p)|].
  split; [done|by eapply reaches_trans].
Qed.

Lemma parse_all_some l : forall st, exists ms, parse_all st l = Some ms.
Proof.
  induction l as [|d l IH]; intros st; cbn [parse_all]; [by eexists|]. destruct (itch_parse_safe st d) as (st1 & m & -> & _). cbn.
  destruct (IH st1) as [ms ->]. by eexists.
Qed.
Definition order_size_of (c : option HFTConfig) : Z := match c with Some c => cfg_order_size c | None => 100 end.
Lemma new_pipe_fine c n s : order_size_of c = osz -> fine (new_pipe c n s).
Proof. intros E. split_and!; [by apply new_engine_ok|by destruct c|]. by intros mk ?%elem_of_nil. Qed.
Lemma run_feed_ends fuel c n feed ms : (engine_fuel <= fuel)%nat -> order_size_of c = osz ->
  parse_all reset_stats feed = Some ms -> Forall fit_message ms ->
  exists p, run_feed fuel c n feed = Some p /\ reaches (new_pipe c n no_stats) p /\
    stats_total_pnl (stats p) = total_pnl_of (oms p) (active_stocks c).
Proof.
  intros Hf Ho E Fm. unfold run_feed. rewrite E. cbn [mbind option_bind].
  match goal with |- context [new_pipe c n ?s] => destruct (run_ends fuel ms Hf Fm 0 (new_pipe c n s) (new_pipe_fine c n s Ho)) as (p1 & -> & F1 & R1) end.
  cbn [mbind option_bind]. destruct (fills_acts (pending_fills p1) p1 F1) as [F2 R2]. eexists. split_and!; [reflexivity| |].
  - eapply reaches_trans; [exact R1|exact R2].
  - unfold totals. cbn. by destruct (use_mm md).
Qed.
End turns.
End pipeline.
