(* ===== verification/PipelineProps.v ===== *)
(** * PipelineProps: what the simulator keeps

    Over the actions of [Pipeline] on the OMS and the risk manager: the two
    agree, the limits hold in the OMS, and the keys of the positions are padded
    symbols, so that the simulator's total is always zero.  Over its turns: the
    market makers' inventories are what the OMS holds. *)
From S2P Require Import Prelude Double Common Bytes Ouch Ladder LadderInv MatchEngine Itch Router Oms Risk Strategy Generator Pipeline.

(** ** A small run *)

Definition demo_env : BookEnv := {| LEVELS := 64; MAX_ORDERS := 64; clock := fun _ => 0; env_hash := map_order |}.
#[export] Instance demo_env_ok : @EnvOk demo_env.
Proof. by constructor. Qed.
Definition demo_clock (i : nat) : Readings := mkReadings 0 (Z.of_nat i) 1 2 3 4 5 6 7 8.
(** AAPL bought at 150 and sold at 151. *)
Definition demo_feed : list (list Z) :=
  [wire_bytes (WTrade 1 0 66 100 (pad_stock [65; 65; 80; 76]) 1500000 7) [];
   wire_bytes (WTrade 2 0 83 100 (pad_stock [65; 65; 80; 76]) 1510000 8) []].
Definition demo_run (md : Mode) : option Pipe := run_feed (env := demo_env) md demo_clock (fun _ => 9) 0 None 2 demo_feed.
Definition risk_mode : Mode := mkMode false false true false false 0.
(** The profit of 100 dollars that is booked, and the total that is reported. *)
Example demo_profit : (fun p => (pnl_at (oms p) (pad_stock [65; 65; 80; 76]), stats_total_pnl (stats p))) <$> demo_run risk_mode = Some (1000000, d_zero).
Proof. vm_compute. reflexivity. Qed.

(** ** Agreement and limits *)

(** C9: the risk manager and the OMS never disagree.  Whatever the feed (any
    bytes), the configuration and the mode (strategy, router, matching in the
    book, market maker, delayed fills), the simulation with the risk manager
    returns, and at its end both have the same net and pending quantity for
    every symbol; the end of a prefix of the feed is no different from the end
    of the feed. *)
Theorem pipeline_books_agree `{EnvOk} md clk fill_clk fuel c num_messages feed :
  use_risk md = true -> (engine_fuel <= fuel)%nat -> INT32_MIN <= order_size_of c <= INT32_MAX ->
  exists p, run_feed md clk fill_clk fuel c num_messages feed = Some p /\
    forall sym, net_of (Oms.get_position (oms p) sym) = Risk.get_position (risk p) sym /\
                pend_of (Oms.get_position (oms p) sym) = get_pending (risk p) sym.
Proof.
  intros Hr Hf Ho. destruct (parse_all_some feed reset_stats) as [ms Em].
  set (Q := fun q => INT32_MIN <= q <= INT32_MAX).
  destruct (run_feed_ends md clk fill_clk (fun _ => True) Q (order_size_of c)) with (fuel := fuel) (c := c) (n := num_messages) (feed := feed) (ms := ms) as (p & E & R & _); try done.
  - intros q Hq. unfold Q, INT32_MIN, INT32_MAX. lia.
  - intros q Hq. apply Hq.
  - apply Forall_true. intros m. unfold fit_message. destruct (tradable m) as [k|] eqn:T; [|done]. split; [done|].
    unfold tradable in T. destruct m; simplify_eq; unfold Q, tape_of; cbn [m_shares]; apply i32_range.
  - exists p. split; [done|]. intros sym. unfold reaches in R. rewrite Hr in R.
    assert (A : agree (oms p, risk p)); [|apply A].
    revert R. generalize (oms p, risk p). apply (rtc_ind_r (fun y => agree y)).
    + intros k. cbn. unfold lookup_qty. by rewrite !lookup_empty.
    + intros x y _ A1 A2. eapply act_agree; [|exact A1|exact A2]. intros q Hq. apply i32_small. exact Hq.
Qed.

(** The limits of the risk manager leave room for one more order in 32 bits. *)
Definition sim_limits_fit (c : option HFTConfig) (num_messages : Z) : Prop := limits_fit (sim_limits c num_messages).
(** What the OMS holds of a symbol: net plus pending. *)
Definition oms_exposure (o : OMS) (key : Z) : Z := i32 (net_of (Oms.positions_ o !! key) + pend_of (Oms.positions_ o !! key)).

Lemma new_risk_limited l : limits_fit l -> limited l (new_risk l).
Proof.
  intros [F1 F2 F3 F4 F5]. assert (X : forall k, exposure_at (new_risk l) k = 0) by (intros k; unfold exposure_at, lookup_qty; cbn; by rewrite !lookup_empty).
  split; [done|done| |intros ks _|cbn; lia].
  - intros k. rewrite X. unfold scap in *. case_match; bsplit; lia.
  - cbn. unfold abs_exposure. symmetry. apply sumf_zero. intros k _. by rewrite X.
Qed.


(** ** The total of the profits *)

(** A symbol that fills its eight bytes. *)
Definition eight_bytes (s : cstr) : Prop := c_string s /\ length s = 8%nat.
Definition eight_keys (o : OMS) : Prop :=
  (forall k p, Oms.positions_ o !! k = Some p -> exists s, eight_bytes s /\ k = sym_to_key s) /\
  (forall id x, orders_ o !! id = Some x -> exists s, eight_bytes s /\ sym_to_key (Oms.symbol x) = sym_to_key s).
Lemma act_eight b Q x y : act b eight_bytes Q x y -> eight_keys x.1 -> eight_keys y.1.
Proof.
  intros [o r r' C|o r stock s px qty t0 t1 o' E|o r r1 stock s px qty t0 t1 o' id HS Hq P E|o r id x0 sh px t o' n G E Hn] [A B]; cbn [fst] in *.
  - done.
  - apply refused in E as [E1 E2]. split; [by rewrite E1|by rewrite E2].
  - apply submitted in E as (_ & _ & (x1 & Eo & Sx & _) & p & Ep & _). split.
    + intros k p' Hk. rewrite Ep in Hk. apply lookup_insert_Some in Hk as [[<- _]|[_ Hk]]; [by exists stock|by eapply A].
    + intros i x' Hi. rewrite Eo in Hi. apply lookup_insert_Some in Hi as [[_ <-]|[_ Hi]]; [exists stock; by rewrite Sx, sym_to_key_copy|by eapply B].
  - destruct (filled_positions o id (u32 sh) px t) as [F|(o1 & x1 & n1 & G1 & F & _ & _ & (x2 & Eo & Sx) & p & Ep & _)]; [pose proof (u32_range sh); lia|rewrite F in E; simplify_eq; lia|].
    rewrite F in E. rewrite G in G1. simplify_eq. destruct (B id x1 G) as (s & Hs & Ks). split.
    + intros k p' Hk. rewrite Ep in Hk. apply lookup_insert_Some in Hk as [[<- _]|[_ Hk]]; [by exists s|by eapply A].
    + intros i x' Hi. rewrite Eo in Hi. apply lookup_insert_Some in Hi as [[_ <-]|[_ Hi]]; [exists s; by rewrite Sx|by eapply B].
Qed.
(** Short symbols are not among them. *)
Lemma eight_keys_miss o sym : eight_keys o -> c_string sym -> (length sym < 8)%nat -> Oms.get_position o sym = None.
Proof.
  intros [A _] Hs Hl. unfold Oms.get_position. destruct (Oms.positions_ o !! sym_to_key sym) as [p|] eqn:E; [|done]. exfalso.
  destruct (A _ _ E) as (s & [Hc H8] & K). assert (X : copy_sym sym = copy_sym s) by (apply symbol_key_roundtrip; done).
  apply (f_equal length) in X. unfold copy_sym in X. rewrite !length_take in X. lia.
Qed.
Lemma total_pnl_nothing o stocks : eight_keys o ->
  (forall s, s ∈ stocks -> c_string (st_symbol s) /\ (length (st_symbol s) < 8)%nat) -> total_pnl_of o stocks = d_zero.
Proof.
  intros K. unfold total_pnl_of. induction stocks as [|s l IH] using rev_ind; intros H; [done|]. rewrite foldl_snoc.
  rewrite IH by (intros x Hx; apply H, elem_of_app; by left). destruct (H s) as [H1 H2]; [apply elem_of_app; right; by apply list_elem_of_singleton|].
  by rewrite eight_keys_miss.
Qed.
Lemma padded_eight s : c_string s -> (length s < 8)%nat -> eight_bytes (pad_stock s) /\ c_str (pad_stock s) = pad_stock s.
Proof.
  intros Hs Hl. assert (C : c_string (pad_stock s)) by (apply Forall_app; split; [done|by apply Forall_replicate]).
  split; [split; [done|by apply pad_length; unfold symbol_ok; lia]|by apply c_str_id].
Qed.

(** What is parsed from messages that all parse. *)
Lemma parse_all_generated stocks feed : Forall (parses stocks) feed -> forall st ms, parse_all st feed = Some ms -> Forall (generated_ok stocks) ms.
Proof.
  induction 1 as [|d l Hd Hl IH]; intros st ms E; cbn [parse_all] in E; [by injection E as <-|].
  destruct (Hd st) as (st1 & m & P & G). rewrite P in E. cbn in E. destruct (parse_all st1 l) as [ms'|] eqn:E'; [|done].
  injection E as <-. constructor; [done|by eapply IH].
Qed.

(** the simulator's total profit and loss is always zero.  The feed pads a
    symbol with blanks to eight bytes and the parser keeps the blanks, so every
    position of the OMS is under a padded symbol; the final sum looks the
    positions up under the symbols of the universe, which are shorter, and finds
    none, whatever was traded and in whatever mode. *)
Lemma pipeline_total_pnl_zero `{EnvOk} md clk fill_clk fuel c num_messages seed :
  (engine_fuel <= fuel)%nat -> order_size_of c <= INT32_MAX -> alen (active_stocks c) <= INT32_MAX ->
  (forall s, s ∈ active_stocks c -> c_string (st_symbol s) /\ (length (st_symbol s) < 8)%nat) ->
  exists p, run_pipeline md clk fill_clk fuel c num_messages seed = Some p /\
    (forall s, s ∈ active_stocks c -> Oms.get_position (oms p) (st_symbol s) = None) /\
    stats_total_pnl (stats p) = d_zero.
Proof.
  intros Hf Ho Hl Hs. set (stocks := active_stocks c) in *. set (g := set_stocks (new_generator seed) stocks).
  assert (Eg : stocks_ g = stocks) by (unfold g; rewrite stocks_of_set; unfold stocks, active_stocks; by destruct (sim_stocks c)).
  assert (K : gen_ok g) by (apply new_generator_ok; [done|intros s Hin; destruct (Hs s Hin); unfold symbol_ok; lia]).
  pose proof (day_parses num_messages g K) as D. rewrite Eg in D.
  destruct (parse_all_some (day num_messages g) reset_stats) as [ms Em]. pose proof (parse_all_generated stocks _ D _ _ Em) as G.
  destruct (run_feed_ends md clk fill_clk eight_bytes (fun q => q <= INT32_MAX) (order_size_of c)) with
    (fuel := fuel) (c := c) (n := num_messages) (feed := day num_messages g) (ms := ms) as (p & E & R & T); try done.
  - intros q Hq. unfold INT32_MAX. lia.
  - apply Forall_forall. intros m Hin. rewrite Forall_forall in G. specialize (G m Hin). unfold fit_message.
    assert (X : forall o, announces stocks o -> eight_bytes (m_stock (tape_of o)) /\ m_shares (tape_of o) <= INT32_MAX).
    { intros o (_ & _ & s & Hs1 & Hs2). unfold tape_of. cbn [m_stock m_shares]. rewrite Hs2. destruct (Hs s Hs1) as [C L].
      destruct (padded_eight (st_symbol s) C L) as [P ->]. split; [done|apply i32_range]. }
    destruct m; cbn [tradable generated_ok] in *; try done; [by apply X|by apply X, G].
  - exists p. split; [done|]. assert (EK : eight_keys (oms p)).
    { unfold reaches in R. revert R. change (oms p) with (oms p, risk p).1 at 2. generalize (oms p, risk p).
      apply (rtc_ind_r (fun y => eight_keys y.1)); [|intros; by eapply act_eight].
      split; [intros k x Hx|intros k x Hx]; cbn in Hx; by rewrite lookup_empty in Hx. }
    split; [intros s Hin; destruct (Hs s Hin); by apply eight_keys_miss|]. rewrite T. by apply total_pnl_nothing.
Qed.

(** ** The market makers' inventories *)

Section makers.
Context (md : Mode) (clk : nat -> Readings) (fill_clk : Z -> Z) {env : BookEnv}.
Implicit Types p : Pipe.
Definition pos_of p (key : Z) : option Position := Oms.positions_ (oms p) !! key.
(** The position of the maker of a symbol, nothing without a maker. *)
Definition maker_pos p (key : Z) : Z :=
  match maker_idx p !! key with Some n => position_ (default no_maker (makers p !! n)) | None => 0 end.
(** Every symbol has its own maker, whose position is what the OMS holds, with
    nothing pending. *)
Record makers_ok p : Prop := {
  mo_queue : pending_fills p = [];
  mo_index : forall key n, maker_idx p !! key = Some n -> (n < length (makers p))%nat;
  mo_own : forall k1 k2 n, maker_idx p !! k1 = Some n -> maker_idx p !! k2 = Some n -> k1 = k2;
  mo_config : forall mk, mk ∈ makers p -> cfg_ mk = sim_mm_config;
  mo_position : forall key, net_of (pos_of p key) = maker_pos p key /\ pend_of (pos_of p key) = 0;
  mo_cap : forall key, -210 < maker_pos p key < 210 }.

Lemma do_fill_oms p oid sh px : oms (do_fill md fill_clk p oid sh px) = (fill_order (oms p) oid (u32 sh) px (fill_clk oid)).1.
Proof. unfold do_fill. destruct (fill_order _ _ _ _ _) as [o n]. by destruct (_ && _). Qed.

(** An order that is sent and filled at once. *)
Lemma sent_and_filled o stock s px q t0 t1 o1 oid px' t : 0 < q <= INT32_MAX ->
  submit_order o (Some stock) s px (u32 q) 0 t0 t1 = (o1, Some oid) ->
  let o2 := (fill_order o1 oid (u32 q) px' t).1 in let key := sym_to_key stock in
  forall k, pend_of (Oms.positions_ o !! key) = 0 ->
    net_of (Oms.positions_ o2 !! k) = (if k =? key then i32 (net_of (Oms.positions_ o !! key) + Risk.signed_qty s q) else net_of (Oms.positions_ o !! k)) /\
    pend_of (Oms.positions_ o2 !! k) = (if k =? key then 0 else pend_of (Oms.positions_ o !! k)).
Proof.
  unfold INT32_MAX. intros Hq E. cbv zeta. intros k Hp. apply submitted in E as (-> & _ & (x & Eo & Sx & Dx & Qx & Fx & Wx) & p & Ep & En & Ed).
  assert (G : get_order o1 (next_id_ o) = Some x) by (unfold get_order; by rewrite Eo, lookup_insert_eq).
  assert (R : Oms.remaining x = q).
  { unfold Oms.remaining. rewrite Qx, Fx, (u32_small q) by lia. replace (0 <? q) with true by lia. rewrite u32_small; lia. }
  destruct (filled_positions o1 (next_id_ o) (u32 q) px' t) as [F|(o2 & x1 & n & G1 & F & Hn & Nn & _ & p2 & Ep2 & En2 & Ed2)]; [pose proof (u32_range q); lia| |].
  - exfalso. unfold fill_order in F. unfold get_order in G. rewrite G, Wx, R, (u32_small q) in F by lia. cbn [negb] in F.
    rewrite Z.min_id in F. replace (q =? 0) with false in F by lia. injection F as _ F. lia.
  - rewrite F. cbn [fst]. rewrite G in G1. injection G1 as <-. rewrite Sx, sym_to_key_copy, Dx in *. rewrite R, (u32_small q), Z.min_id in Nn by lia. subst n.
    rewrite Ep2, net_insert, pend_insert, Ep, net_insert, pend_insert. rewrite Ep, net_insert, Z.eqb_refl in En2. rewrite Ep, pend_insert, Z.eqb_refl in Ed2.
    destruct (Z.eqb_spec k (sym_to_key stock)); [|done]. rewrite En2, Ed2, En, Ed, Hp, (signed_same s q) by (apply i32_small; lia).
    rewrite <- (signed_applied s q), (i32_small q) by lia. split; [done|]. wrap_norm. by replace (0 + Risk.signed_qty s q - Risk.signed_qty s q) with 0 by lia.
Qed.

Lemma makers_frame p p' : framed p p' -> Oms.positions_ (oms p') = Oms.positions_ (oms p) -> makers_ok p -> makers_ok p'.
Proof.
  intros (_ & _ & E1 & E2 & E3) E [H1 H2 H3 H4 H5 H6]. unfold maker_pos, pos_of in *. split; try (by rewrite ?E1, ?E2, ?E3, ?E).
  - intros key. unfold maker_pos, pos_of. rewrite E1, E2, E. apply H5.
  - intros key. unfold maker_pos. rewrite E1, E2. apply H6.
Qed.
Lemma maker_pos_set p n mk key : makers_ok p -> maker_idx p !! key = Some n ->
  forall k, maker_pos (p <| makers ::= <[n := mk]> |>) k = if k =? key then position_ mk else maker_pos p k.
Proof.
  intros Ok Hn k. unfold maker_pos. cbn. destruct (Z.eqb_spec k key) as [->|Hk].
  - rewrite Hn, list_lookup_insert_eq by (by eapply mo_index). done.
  - destruct (maker_idx p !! k) as [n'|] eqn:E; [|done]. rewrite list_lookup_insert_ne; [done|]. intros <-. apply Hk. by eapply mo_own.
Qed.
Lemma makers_set p p' n mk key : makers_ok p -> maker_idx p !! key = Some n -> cfg_ mk = sim_mm_config ->
  makers p' = <[n := mk]> (makers p) -> maker_idx p' = maker_idx p -> pending_fills p' = pending_fills p ->
  -210 < position_ mk < 210 ->
  (forall k, net_of (pos_of p' k) = (if k =? key then position_ mk else net_of (pos_of p k)) /\ pend_of (pos_of p' k) = (if k =? key then 0 else pend_of (pos_of p k))) ->
  makers_ok p'.
Proof.
  intros Ok Hn Hc E1 E2 E3 Hcap Hpos. pose proof (maker_pos_set p n mk key Ok Hn) as X.
  assert (X' : forall k, maker_pos p' k = if k =? key then position_ mk else maker_pos p k) by (intros k; rewrite <- X; unfold maker_pos; cbn; by rewrite E1, E2).
  destruct Ok as [H1 H2 H3 H4 H5 H6]. split; [congruence|rewrite E1, E2; intros k m; rewrite length_insert; apply H2|rewrite E2; exact H3| | |].
  - rewrite E1. intros x Hx. apply list_elem_of_lookup in Hx as [j Hj]. apply list_lookup_insert_Some in Hj as [(_ & -> & _)|(_ & Hj)]; [done|].
    apply H4. by apply list_elem_of_lookup_2 with j.
  - intros k. destruct (Hpos k) as [-> ->]. rewrite X'. destruct (k =? key); [done|apply H5].
  - intros k. rewrite X'. by destruct (k =? key).
Qed.
Lemma maker_of_ok p stock : makers_ok p -> let r := maker_of p stock in
  makers_ok r.1 /\ maker_idx r.1 !! sym_to_key stock = Some r.2 /\ oms r.1 = oms p.
Proof.
  intros [H1 H2 H3 H4 H5 H6]. cbv zeta. unfold maker_of. set (key := sym_to_key stock). destruct (maker_idx p !! key) as [n|] eqn:E; [by split_and!|].
  cbn [fst snd maker_idx oms]. split_and!; [|cbn; by rewrite lookup_insert_eq|done].
  set (p' := p <| maker_idx ::= _ |> <| makers ::= _ |> <| maker_last_mid ::= _ |>).
  assert (X : forall k, maker_pos p' k = maker_pos p k).
  { intros k. unfold maker_pos, p'. cbn. destruct (decide (k = key)) as [->|Hk].
    - rewrite lookup_insert_eq, E, lookup_app_r, Nat.sub_diag by lia. done.
    - rewrite lookup_insert_ne by done. destruct (maker_idx p !! k) as [n|] eqn:En; [|done]. rewrite lookup_app_l by (by eapply H2). done. }
  split; [done| | | |intros k; rewrite X; apply H5|intros k; rewrite X; apply H6].
  - intros k n Hk. cbn in Hk |- *. rewrite length_app. cbn. apply lookup_insert_Some in Hk as [[_ <-]|[_ Hk]]; [lia|]. apply H2 in Hk. lia.
  - intros k1 k2 n A B. cbn in A, B. apply lookup_insert_Some in A as [[<- <-]|[N1 A]], B as [[<- ?]|[N2 B]]; try done; [apply H2 in B; lia|subst; apply H2 in A; lia|by eapply H3].
  - cbn. intros mk [Hm| ->%list_elem_of_singleton]%elem_of_app; [by apply H4|done].
Qed.

(** What the maker does with the fill. *)
Lemma maker_filled m s q px : cfg_ m = sim_mm_config -> -210 < position_ m < 210 -> 0 < q <= 10 ->
  (s = BUY -> position_ m < 200) -> (s = SELL -> -200 < position_ m) ->
  position_ (apply_fill m s q px) = i32 (position_ m + Risk.signed_qty s q) /\ -210 < position_ (apply_fill m s q px) < 210.
Proof.
  intros Hc Hp Hq Hb Hs. destruct s; cbn [Risk.signed_qty].
  - destruct (apply_fill_buy m q px) as (_ & -> & _). replace (q <=? 0) with false by lia. specialize (Hb eq_refl). split; [done|]. rewrite i32_small; lia.
  - destruct (apply_fill_sell m q px) as (_ & -> & _). replace (q <=? 0) with false by lia. specialize (Hs eq_refl). rewrite (i32_small (- q)) by lia.
    split; [by rewrite Z.add_opp_r|]. rewrite i32_small; lia.
Qed.

(** The quantities of a quote in the state of its maker. *)
Lemma crossed_ok m b a aggressor mk q s n px : cfg_ m = sim_mm_config -> Strategy.quote m b a = (mk, q) ->
  crossed aggressor q = (s, n, px) -> 0 < n ->
  cfg_ mk = sim_mm_config /\ position_ mk = position_ m /\ 0 < n <= 10 /\ (s = BUY -> position_ m < 200) /\ (s = SELL -> -200 < position_ m).
Proof.
  intros Hc E X Hn. pose proof (quote_keeps m b a) as (K1 & K2 & _). pose proof (quote_sides m b a) as Sd. rewrite E, Hc in *. cbn [fst snd] in *.
  specialize (Sd ltac:(done)). cbn [quote_size max_inventory sim_mm_config] in Sd. destruct Sd as (S1 & S2 & S3 & S4).
  unfold crossed in X. destruct aggressor; case_match; simplify_eq; bsplit; split_and!; try done; lia.
Qed.
Lemma mm_tick_ok p i m : makers_ok p -> makers_ok (mm_tick md clk fill_clk p i m).
Proof.
  intros Ok. unfold mm_tick. destruct (maker_of_ok p (m_stock m) Ok) as (Ok1 & Hn & _). destruct (maker_of p (m_stock m)) as [p1 n]. cbn [fst snd] in *.
  set (key := sym_to_key (m_stock m)) in *. set (mid := mid_of _). set (mk0 := default no_maker (makers (set_field _ _ p1) !! n)).
  assert (P0 : position_ mk0 = maker_pos p1 key) by (unfold maker_pos; by rewrite Hn).
  assert (C0 : cfg_ mk0 = sim_mm_config).
  { unfold mk0. cbn. destruct (makers p1 !! n) as [x|] eqn:E; [|done]. apply (mo_config _ Ok1). by apply list_elem_of_lookup_2 with n. }
  destruct (Strategy.quote mk0 _ _) as [mk q] eqn:Eq. pose proof (quote_keeps mk0 (i32 (mid - 1)) (i32 (mid + 1))) as (K1 & K2 & _). rewrite Eq in K1, K2. cbn [fst] in K1, K2.
  set (p2 := p1 <| maker_last_mid ::= _ |> <| makers ::= <[n := mk]> |>).
  assert (Ok2 : makers_ok p2).
  { apply (makers_set p1 p2 n mk key); try done; [congruence|rewrite K2, P0; apply Ok1|]. intros k. change (pos_of p2 k) with (pos_of p1 k).
    destruct (mo_position _ Ok1 k) as [A B]. destruct (Z.eqb_spec k key) as [->|]; [|done]. by rewrite A, B, K2, P0. }
  destruct (crossed (m_side m) q) as [[s qty] px] eqn:X. destruct ((0 <? qty) && (0 <? px)) eqn:B; [|done]. bsplit.
  destruct (crossed_ok mk0 _ _ _ _ _ _ _ _ C0 Eq X ltac:(lia)) as (C1 & P1 & Q1 & Q2 & Q3). set (d := ddiv _ _).
  destruct (gate_acts md clk p2 i (m_stock m) s d qty) as (Fr & Eo & _). destruct (gate md clk p2 i (m_stock m) s d qty) as [p3 allowed]. cbn [fst snd] in *.
  assert (Ok3 : makers_ok p3) by (apply (makers_frame p2); [done|by rewrite Eo|done]). destruct allowed; cbn [negb]; [|done].
  assert (Hn3 : maker_idx p3 !! key = Some n) by (destruct Fr as (_ & _ & _ & -> & _); done).
  assert (Pk : maker_pos p3 key = position_ mk0).
  { unfold maker_pos. rewrite Hn3. destruct Fr as (_ & _ & -> & _). cbn. rewrite list_lookup_insert_eq by (by eapply mo_index). done. }
  unfold send_order. destruct (submit_order _ _ _ _ _ _ _ _) as [o1 [oid|]] eqn:E.
  2: { apply (makers_frame p3); [done| |done]. by apply refused in E as [E _]. }
  set (p5 := _ <| makers ::= _ |> <| stats ::= _ |>). pose proof (do_fill_acts md fill_clk (fun _ => True) (fun _ => True) p5 oid qty d) as [_ Ff].
  destruct (mo_position _ Ok3 key) as [A3 B3]. rewrite Pk in A3.
  destruct (maker_filled mk s qty px C1) as [M1 M2]; [rewrite P1, <- Pk; apply Ok3|done|by rewrite P1..|].
  destruct Ff as (_ & _ & F1 & F2 & F3).
  apply (makers_set p3 _ n (apply_fill mk s qty px) key Ok3 Hn3); [by rewrite apply_fill_cfg|by rewrite F1|by rewrite F2|by rewrite F3|done|].
  intros k. unfold pos_of. rewrite do_fill_oms. change (oms p5) with o1.
  pose proof (sent_and_filled (oms p3) (m_stock m) s d qty _ _ o1 oid d (fill_clk oid) ltac:(unfold INT32_MAX; lia) E k) as (S1 & S2); [apply Ok3|].
  fold key in S1, S2. rewrite S1, S2. unfold pos_of in A3. by rewrite A3, M1, P1.
Qed.

Lemma mm_run_ok fuel l : use_mm md = true -> forall i p, makers_ok p ->
  exists p', run md clk fill_clk fuel i l p = Some p' /\ makers_ok p'.
Proof.
  intros Hm. induction l as [|m l IH]; intros i p Ok; cbn [run]; [by exists p|]. unfold turn at 1. rewrite (mo_queue _ Ok). cbn [drain].
  destruct (tradable m) as [k|]; [|by apply IH]. destruct (dle _ _); [by apply IH|]. rewrite Hm. cbn [mbind option_bind].
  apply IH, mm_tick_ok. apply (makers_frame p); done.
Qed.
End makers.

(** C10: the market makers know their inventory.  In market-maker mode, with or
    without the risk manager, the simulation returns for every feed, no fill is
    outstanding, and every symbol's maker has exactly the position the OMS holds
    for it, with nothing pending; a symbol without a maker has none; and no
    inventory reaches 210 shares, the limit of 200 and one quote. *)
Theorem pipeline_makers_match_oms `{BookEnv} md clk fill_clk fuel c num_messages feed :
  use_mm md = true ->
  exists p, run_feed md clk fill_clk fuel c num_messages feed = Some p /\ pending_fills p = [] /\
    forall sym, let pos := Oms.get_position (oms p) sym in
      net_of pos = maker_pos p (sym_to_key sym) /\ pend_of pos = 0 /\ -210 < net_of pos < 210.
Proof.
  intros Hm. unfold run_feed. destruct (parse_all_some feed reset_stats) as [ms ->]. cbn [mbind option_bind].
  match goal with |- context [new_pipe md c num_messages ?s] => destruct (mm_run_ok md clk fill_clk fuel ms Hm 0 (new_pipe md c num_messages s)) as (p & -> & Ok) end.
  - assert (E : forall key, (∅ : gmap Z nat) !! key = None) by (intros; apply lookup_empty).
    assert (E' : forall key, (∅ : gmap Z Position) !! key = None) by (intros; apply lookup_empty).
    split; unfold maker_pos, pos_of; cbn; [done|intros key n; by rewrite E|intros k1 k2 n; by rewrite E|by intros mk ?%elem_of_nil|intros key; by rewrite E, E'|intros key; by rewrite E].
  - cbn [mbind option_bind]. eexists. split; [reflexivity|]. unfold totals, final_drain. rewrite (mo_queue _ Ok). cbn [foldl]. split; [done|].
    intros sym. cbv zeta. destruct (mo_position _ Ok (sym_to_key sym)) as [A B]. pose proof (mo_cap _ Ok (sym_to_key sym)) as Cp.
    unfold Oms.get_position. unfold pos_of in A, B. cbn [oms]. split_and!; [exact A|exact B| |]; cbn; rewrite A; lia.
Qed.

(** ** Witnesses *)

(** Strategy, router, risk manager and book together, fills three messages late. *)
Definition full_mode : Mode := mkMode true true true true false 3.
Definition mm_mode : Mode := mkMode false false true false true 0.
Definition demo_messages : list ParsedMessage := default [] (parse_all reset_stats demo_feed).

Lemma pipeline_books_agree_witness :
  exists p, run_feed (env := demo_env) full_mode demo_clock (fun _ => 9) (@engine_fuel demo_env) None 2 demo_feed = Some p /\
    forall sym, net_of (Oms.get_position (oms p) sym) = Risk.get_position (risk p) sym /\
                pend_of (Oms.get_position (oms p) sym) = get_pending (risk p) sym.
Proof. apply (pipeline_books_agree full_mode demo_clock (fun _ => 9)); [done|done|by vm_compute]. Defined.
Lemma pipeline_total_pnl_zero_witness :
  exists p, run_pipeline (env := demo_env) full_mode demo_clock (fun _ => 9) (@engine_fuel demo_env) None 1000 42 = Some p /\
    (forall s, s ∈ active_stocks None -> Oms.get_position (oms p) (st_symbol s) = None) /\
    stats_total_pnl (stats p) = d_zero.
Proof.
  apply (pipeline_total_pnl_zero full_mode demo_clock (fun _ => 9) (@engine_fuel demo_env) None 1000 42); [done|by vm_compute|by vm_compute|].
  intros s Hs. apply Forall_forall with (P := fun s => c_string (st_symbol s) /\ (length (st_symbol s) < 8)%nat) (x := s) in Hs; [exact Hs|].
  repeat constructor; cbn; lia.
Defined.
Lemma pipeline_makers_match_oms_witness :
  exists p, run_feed (env := demo_env) mm_mode demo_clock (fun _ => 9) 0 None 2 demo_feed = Some p /\ pending_fills p = [] /\
    forall sym, let pos := Oms.get_position (oms p) sym in
      net_of pos = maker_pos p (sym_to_key sym) /\ pend_of pos = 0 /\ -210 < net_of pos < 210.
Proof. exact (pipeline_makers_match_oms mm_mode demo_clock (fun _ => 9) 0 None 2 demo_feed eq_refl). Defined.
