(* ===== verification/ExecAlgo.v ===== *)
(** * ExecAlgo: slicing a parent order

    [strategy/exec_algo.hpp]: [TWAPExecutor] (equal pieces at equal intervals),
    [VWAPExecutor] (pieces after a profile of volumes), the realised and the
    market's volume-weighted price.  Times are seconds and quantities shares,
    both [int32_t]. *)
From S2P Require Import Prelude Double Common Strategy.

Record ParentOrder := mkParent {
  po_symbol : cstr; po_side : Side; total_qty : Z; start_ts_sec : Z; duration_sec : Z; num_slices : Z }.
Record ChildOrder := mkChild { co_qty : Z; co_price_ticks : Z; co_valid : bool }.
Definition no_child : ChildOrder := mkChild 0 0 false.
Record ExecStats := mkExecStats {
  x_filled_qty : Z; x_cash_ticks : Z; x_num_fills : Z; slices_emitted : Z; slices_skipped : Z }.
#[export] Instance eta_exec_stats : Settable ExecStats := fun s =>
  mkExecStats (x_filled_qty s) (x_cash_ticks s) (x_num_fills s) (slices_emitted s) (slices_skipped s).
Definition no_exec : ExecStats := mkExecStats 0 0 0 0 0.
Definition realized_vwap_ticks (s : ExecStats) : Z :=
  if 0 <? x_filled_qty s then i32 (Z.quot (x_cash_ticks s) (x_filled_qty s)) else 0.
(** Positive: worse than the benchmark. *)
Definition slippage_bps (s : Side) (realized_ticks benchmark_ticks : Z) : double :=
  if benchmark_ticks <=? 0 then d_zero else
  let diff := dbl_of_Z (i32 (realized_ticks - benchmark_ticks)) in
  let bps := dmul (ddiv diff (dbl_of_Z benchmark_ticks)) (dbl_of_Z 10000) in
  match s with BUY => bps | SELL => dneg bps end.

(** What both executors do with a fill. *)
Definition count_fill (s : ExecStats) (qty price_ticks : Z) : ExecStats :=
  if (qty <=? 0) || (price_ticks <=? 0) then s else
  s <| x_filled_qty ::= fun x => i64 (x + qty) |> <| x_cash_ticks ::= fun x => i64 (x + qty * price_ticks) |>
    <| x_num_fills ::= fun n => i32 (n + 1) |>.
Definition slice_seconds (p : ParentOrder) : Z :=
  if 0 <? num_slices p then Z.max 1 (Z.quot (duration_sec p) (num_slices p)) else 1.

(** ** Equal pieces *)

Record TWAPExecutor := mkTwap { tw_parent : ParentOrder; tw_seconds_per_slice : Z; slice_size : Z; tw_stats : ExecStats }.
#[export] Instance eta_twap : Settable TWAPExecutor := fun t =>
  mkTwap (tw_parent t) (tw_seconds_per_slice t) (slice_size t) (tw_stats t).
Definition new_twap (p : ParentOrder) : TWAPExecutor :=
  mkTwap p (slice_seconds p) (if 0 <? num_slices p then Z.quot (total_qty p) (num_slices p) else 0) no_exec.
(** The base, or in the last slot what the division left. *)
Definition slot_qty (t : TWAPExecutor) (slot : Z) : Z :=
  let p := tw_parent t in
  if slot =? num_slices p - 1 then i32 (total_qty p - i32 (slice_size t * (num_slices p - 1))) else slice_size t.
Definition twap_on_tick (t : TWAPExecutor) (now_sec : Z) : TWAPExecutor * ChildOrder :=
  let p := tw_parent t in
  if (num_slices p <=? 0) || (total_qty p <=? x_filled_qty (tw_stats t)) then (t, no_child) else
  if now_sec <? start_ts_sec p then (t, no_child) else
  let slot := Z.quot (i32 (now_sec - start_ts_sec p)) (tw_seconds_per_slice t) in
  if slot <? slices_emitted (tw_stats t) then (t, no_child) else
  if num_slices p <=? slot then (t, no_child) else
  let qty := Z.min (slot_qty t slot) (i32 (total_qty p - i32 (x_filled_qty (tw_stats t)))) in
  if qty <=? 0 then (t, no_child) else
  (t <| tw_stats ::= fun s => s <| slices_emitted ::= fun n => i32 (n + 1) |> |>, mkChild qty 0 true).
Definition twap_apply_fill (t : TWAPExecutor) (qty price_ticks : Z) : TWAPExecutor :=
  t <| tw_stats ::= fun s => count_fill s qty price_ticks |>.
Definition twap_done (t : TWAPExecutor) : bool := total_qty (tw_parent t) <=? x_filled_qty (tw_stats t).

(** ** Pieces after a profile *)

Record VWAPExecutor := mkVwap {
  vw_parent : ParentOrder; profile_ : list double; target_cumulative : list Z; vw_seconds_per_slice : Z;
  next_slot : Z; total_emitted_qty : Z; vw_stats : ExecStats }.
#[export] Instance eta_vwap : Settable VWAPExecutor := fun v =>
  mkVwap (vw_parent v) (profile_ v) (target_cumulative v) (vw_seconds_per_slice v) (next_slot v) (total_emitted_qty v) (vw_stats v).
Definition normalized (profile : list double) : list double :=
  let sum := foldl dadd d_zero profile in
  if dgt sum d_zero then (fun v => ddiv v sum) <$> profile else profile.
(** The targets of [n] slots from slot [i] on. *)
Fixpoint targets (profile : list double) (total slices : Z) (n : nat) (i : Z) (cum : double) : list Z :=
  match n with
  | O => []
  | S n =>
      let cum := dadd cum (default d_zero (profile !! Z.to_nat i)) in
      let target := if i =? slices - 1 then total
                    else dbl_to_i32 (dadd (dmul cum (dbl_of_Z total)) (dratio 1 2)) in
      target :: targets profile total slices n (i + 1) cum
  end.
Definition new_vwap (p : ParentOrder) (volume_profile : list double) : VWAPExecutor :=
  let profile := normalized volume_profile in
  mkVwap p profile (targets profile (total_qty p) (num_slices p) (Z.to_nat (num_slices p)) 0 d_zero) (slice_seconds p) 0 0 no_exec.
Definition vwap_on_tick (v : VWAPExecutor) (now_sec : Z) : VWAPExecutor * ChildOrder :=
  let p := vw_parent v in
  if (num_slices p <=? 0) || (total_qty p <=? x_filled_qty (vw_stats v)) then (v, no_child) else
  if now_sec <? start_ts_sec p then (v, no_child) else
  let slot := Z.quot (i32 (now_sec - start_ts_sec p)) (vw_seconds_per_slice v) in
  if slot <? next_slot v then (v, no_child) else
  if num_slices p <=? slot then (v, no_child) else
  let qty := i32 (aget (target_cumulative v) slot - total_emitted_qty v) in
  let v := v <| next_slot := i32 (slot + 1) |> in
  if qty <=? 0 then (v <| vw_stats ::= fun s => s <| slices_skipped ::= fun n => i32 (n + 1) |> |>, no_child) else
  (v <| total_emitted_qty ::= fun n => i32 (n + qty) |>
     <| vw_stats ::= fun s => s <| slices_emitted ::= fun n => i32 (n + 1) |> |>, mkChild qty 0 true).
Definition vwap_apply_fill (v : VWAPExecutor) (qty price_ticks : Z) : VWAPExecutor :=
  v <| vw_stats ::= fun s => count_fill s qty price_ticks |>.
Definition vwap_done (v : VWAPExecutor) : bool := total_qty (vw_parent v) <=? x_filled_qty (vw_stats v).

(** ** The market's own price, and the standard profile *)

Record MarketVWAPTracker := mkMarket { mk_cash_ticks : Z; mk_volume : Z }.
Definition new_market : MarketVWAPTracker := mkMarket 0 0.
Definition on_trade (m : MarketVWAPTracker) (price_ticks qty : Z) : MarketVWAPTracker :=
  if (price_ticks <=? 0) || (qty <=? 0) then m
  else mkMarket (i64 (mk_cash_ticks m + price_ticks * qty)) (i64 (mk_volume m + qty)).
Definition vwap_ticks (m : MarketVWAPTracker) : Z :=
  if 0 <? mk_volume m then i32 (Z.quot (mk_cash_ticks m) (mk_volume m)) else 0.

Definition u_shape_profile (n : Z) : list double :=
  if n <=? 0 then [] else
  let open_slots := Z.max 1 (Z.quot n 5) in
  let close_slots := Z.max 1 (Z.quot n 5) in
  let middle_slots := Z.max 1 (n - open_slots - close_slots) in
  replicate (Z.to_nat open_slots) (ddiv (dratio 30 100) (dbl_of_Z open_slots)) ++
  replicate (Z.to_nat middle_slots) (ddiv (dratio 40 100) (dbl_of_Z middle_slots)) ++
  replicate (Z.to_nat close_slots) (ddiv (dratio 30 100) (dbl_of_Z close_slots)).

(** ** Runs

    The executor's owner calls it on every tick of the clock and reports the
    fills of its children. *)

Inductive exec_event := Tick (now_sec : Z) | Filled (qty price_ticks : Z).
Definition twap_step (t : TWAPExecutor) (e : exec_event) : TWAPExecutor * Z :=
  match e with
  | Tick now => let '(t, c) := twap_on_tick t now in (t, co_qty c)
  | Filled q px => (twap_apply_fill t q px, 0)
  end.
Definition vwap_step (v : VWAPExecutor) (e : exec_event) : VWAPExecutor * Z :=
  match e with
  | Tick now => let '(v, c) := vwap_on_tick v now in (v, co_qty c)
  | Filled q px => (vwap_apply_fill v q px, 0)
  end.
(** The final executor and the quantities of the children, in order. *)
Fixpoint exec_run {X} (step : X -> exec_event -> X * Z) (x : X) (l : list exec_event) : X * list Z :=
  match l with
  | [] => (x, [])
  | e :: l =>
      let '(x, q) := step x e in
      let '(x, qs) := exec_run step x l in (x, if 0 <? q then q :: qs else qs)
  end.
Definition sumZ (l : list Z) : Z := sumf id l.

(** A parent order whose arithmetic stays within 32 bits. *)
Record parent_ok (p : ParentOrder) : Prop := {
  pk_qty : 0 < total_qty p <= INT32_MAX; pk_start : 0 <= start_ts_sec p;
  pk_slices : 0 < num_slices p < INT32_MAX; pk_duration : 0 <= duration_sec p <= INT32_MAX }.
Definition slot_of (p : ParentOrder) (now : Z) : Z := (now - start_ts_sec p) / slice_seconds p.
Lemma slice_seconds_pos p : parent_ok p -> 1 <= slice_seconds p <= INT32_MAX.
Proof.
  intros [? ? ? ?]. unfold slice_seconds. replace (0 <? num_slices p) with true by lia.
  rewrite Z.quot_div_nonneg by lia. pose proof (Z.div_le_upper_bound (duration_sec p) (num_slices p) INT32_MAX). unfold INT32_MAX in *. nia.
Qed.
Lemma slot_exact p now : parent_ok p -> start_ts_sec p <= now <= INT32_MAX ->
  Z.quot (i32 (now - start_ts_sec p)) (slice_seconds p) = slot_of p now /\ 0 <= slot_of p now <= INT32_MAX.
Proof.
  intros K H. pose proof (slice_seconds_pos p K) as S. destruct K. unfold slot_of, INT32_MAX in *. rewrite i32_small by lia.
  rewrite Z.quot_div_nonneg by lia. split; [done|]. split; [apply Z.div_pos; lia|]. apply Z.div_le_upper_bound; nia.
Qed.

(** *** Equal pieces, on schedule *)

(** What is due after [k] slots. *)
Definition due (p : ParentOrder) (k : Z) : Z :=
  if k =? num_slices p then total_qty p else Z.quot (total_qty p) (num_slices p) * k.
(** Ticks from the start on that skip no slot, and fills of no more than what
    was sent: [k] slots have been visited and [f] shares filled.  Returns the
    slots visited in the end. *)
Fixpoint on_schedule (p : ParentOrder) (k f : Z) (l : list exec_event) (k' : Z) : Prop :=
  match l with
  | [] => k' = k
  | Tick now :: l =>
      start_ts_sec p <= now <= INT32_MAX /\ slot_of p now <= k /\
      on_schedule p (if (slot_of p now =? k) && (k <? num_slices p) then k + 1 else k) f l k'
  | Filled q px :: l => 0 < q /\ 0 < px /\ f + q <= due p k /\ on_schedule p k (f + q) l k'
  end.

Section twap.
Context (p : ParentOrder) (ok : parent_ok p) (enough : num_slices p <= total_qty p).
Let n := num_slices p.
Let base := Z.quot (total_qty p) n.
Lemma base_bounds : 1 <= base /\ base * n <= total_qty p < base * n + n.
Proof.
  pose proof ok as [? ? ? ?]. unfold base, n in *. rewrite Z.quot_div_nonneg by lia.
  pose proof (Z.div_mod (total_qty p) (num_slices p) ltac:(lia)). pose proof (Z.mod_pos_bound (total_qty p) (num_slices p) ltac:(lia)).
  split; [apply Z.div_le_lower_bound; lia|]. lia.
Qed.
Lemma due_mono k : 0 <= k < n -> due p k + (if k =? n - 1 then total_qty p - base * (n - 1) else base) = due p (k + 1) /\ due p k < total_qty p /\ 0 <= due p k.
Proof.
  pose proof base_bounds as (B1 & B2). pose proof ok as [? ? ? ?]. intros H. unfold due. fold n base.
  replace (k =? n) with false by lia. destruct (Z.eqb_spec k (n - 1)) as [->|].
  - replace (n - 1 + 1 =? n) with true by lia. split_and!; nia.
  - replace (k + 1 =? n) with false by lia. split_and!; nia.
Qed.
Record twap_at (t : TWAPExecutor) (k f : Z) : Prop := {
  ta_parent : tw_parent t = p; ta_seconds : tw_seconds_per_slice t = slice_seconds p; ta_size : slice_size t = base;
  ta_emitted : slices_emitted (tw_stats t) = k; ta_filled : x_filled_qty (tw_stats t) = f; ta_range : 0 <= k <= n /\ 0 <= f <= due p k }.
Lemma due_total k : 0 <= k <= n -> 0 <= due p k <= total_qty p.
Proof. intros H. destruct (decide (k = n)) as [->|]; [unfold due; fold n; rewrite Z.eqb_refl; pose proof (pk_qty p ok); lia|]. pose proof (due_mono k). lia. Qed.

(** A tick in a slot already served sends nothing, one in the next slot its piece. *)
Lemma twap_tick t k f now : twap_at t k f -> start_ts_sec p <= now <= INT32_MAX -> slot_of p now <= k ->
  let k' := if (slot_of p now =? k) && (k <? n) then k + 1 else k in
  twap_at (twap_on_tick t now).1 k' f /\ co_qty (twap_on_tick t now).2 = due p k' - due p k.
Proof.
  intros A Hn Hs. pose proof A as [T1 T2 T3 T4 T5 [T6 T7]]. pose proof ok as [? ? ? ?]. destruct (slot_exact p now ok Hn) as [S1 S2]. pose proof (due_total k T6) as Dk.
  cbv zeta. unfold twap_on_tick. rewrite T1, T2, T4, T5, S1. fold n.
  replace (n <=? 0) with false by (unfold n; lia). replace (now <? start_ts_sec p) with false by lia. cbn [orb].
  destruct ((slot_of p now =? k) && (k <? n)) eqn:E; bsplit.
  - assert (Ek : slot_of p now = k) by lia. rewrite Ek in *. pose proof (due_mono k ltac:(lia)) as (D1 & D2 & D3). pose proof base_bounds as (B1 & B2).
    pose proof (due_total (k + 1) ltac:(lia)) as Dk1.
    replace (total_qty p <=? f) with false by lia. rewrite Z.ltb_irrefl. replace (n <=? k) with false by lia.
    assert (Q : slot_qty t k = due p (k + 1) - due p k).
    { unfold slot_qty. rewrite T1, T3. fold n. unfold INT32_MAX in *. rewrite <- D1. destruct (_ =? _); [|lia]. rewrite (i32_small (base * _)) by nia. rewrite i32_small by nia. lia. }
    rewrite Q, (i32_small f), (i32_small (total_qty p - f)) by (unfold INT32_MAX in *; lia). rewrite Z.min_l by lia.
    replace (_ <=? 0) with false by (symmetry; apply Z.leb_gt; destruct (_ =? n - 1); nia).
    split; [|done]. split; cbn; try done; [rewrite T4, i32_small; unfold INT32_MAX, n in *; lia|]. split; [lia|]. destruct (_ =? n - 1); nia.
  - assert (X : twap_at t k f /\ 0 = due p k - due p k) by (split; [done|lia]).
    destruct (total_qty p <=? f); [done|]. destruct (Z.ltb_spec (slot_of p now) k); [done|]. destruct (Z.leb_spec n (slot_of p now)); [done|]. lia.
Qed.
Lemma twap_fill t k f q px : twap_at t k f -> 0 < q -> 0 < px -> f + q <= due p k -> twap_at (twap_apply_fill t q px) k (f + q).
Proof.
  intros [T1 T2 T3 T4 T5 [T6 T7]] Hq Hp Hf. pose proof (due_total k T6). pose proof (pk_qty p ok). unfold INT32_MAX in *.
  unfold twap_apply_fill, count_fill. replace (q <=? 0) with false by lia. replace (px <=? 0) with false by lia. cbn [orb].
  split; cbn; try done; [rewrite T5, i64_small; lia|lia].
Qed.
Lemma twap_runs l : forall t k f k', twap_at t k f -> on_schedule p k f l k' ->
  0 <= k' <= n /\ sumZ (exec_run twap_step t l).2 = due p k' - due p k /\ slices_emitted (tw_stats (exec_run twap_step t l).1) = k'.
Proof.
  induction l as [|[now|q px] l IH]; intros t k f k' A S; cbn [on_schedule exec_run twap_step] in *.
  - subst. split_and!; [apply A|apply A|cbn; lia|apply A].
  - destruct S as (Hn & Hs & S). destruct (twap_tick t k f now A Hn Hs) as [A1 Q]. fold n in S. destruct (twap_on_tick t now) as [t1 c]. cbn [fst snd] in *.
    destruct (IH t1 _ f k' A1 S) as (I1 & I2 & I3). destruct (exec_run twap_step t1 l) as [t2 qs]. cbn [fst snd] in *. rewrite Q. set (k1 := if (slot_of p now =? k) && (k <? n) then k + 1 else k) in *.
    assert (D : 0 <= due p k1 - due p k).
    { pose proof (ta_range _ _ _ A) as [T6 _]. unfold k1. destruct (_ && _) eqn:E; [|lia]. bsplit. pose proof (due_mono k ltac:(lia)) as (D1 & _).
      pose proof base_bounds as [B1 B2]. destruct (_ =? _); nia. }
    destruct (0 <? _) eqn:E; split_and!; try done; unfold sumZ in *; rewrite ?sumf_cons; unfold id in *; bsplit; lia.
  - destruct S as (Hq & Hp & Hf & S). pose proof (twap_fill t k f q px A Hq Hp Hf) as A1. destruct (IH _ k (f + q) k' A1 S) as (I1 & I2 & I3).
    destruct (exec_run twap_step (twap_apply_fill t q px) l) as [t2 qs]. done.
Qed.
End twap.

(** *** After a profile, on any ticks *)

(** Fills of no more than what was sent; [f] shares filled, [e] sent. *)
Fixpoint fills_within {X} (step : X -> exec_event -> X * Z) (x : X) (f e : Z) (l : list exec_event) : Prop :=
  match l with
  | [] => True
  | ev :: l =>
      match ev with Filled q px => 0 < q /\ 0 < px /\ f + q <= e | Tick now => 0 <= now <= INT32_MAX end /\
      fills_within step (step x ev).1 (match ev with Filled q _ => f + q | _ => f end) (e + Z.max 0 (step x ev).2) l
  end.

Section vwap.
Context (p : ParentOrder) (ok : parent_ok p).
Let n := num_slices p.
Record vwap_at (v : VWAPExecutor) (f e : Z) (last : bool) : Prop := {
  va_parent : vw_parent v = p; va_seconds : vw_seconds_per_slice v = slice_seconds p;
  va_targets : forall i, 0 <= i < n -> 0 <= aget (target_cumulative v) i <= total_qty p;
  va_exact : aget (target_cumulative v) (n - 1) = total_qty p;
  va_filled : x_filled_qty (vw_stats v) = f; va_sent : total_emitted_qty v = e; va_range : 0 <= f <= e /\ e <= total_qty p;
  va_next : 0 <= next_slot v <= n; va_count : 0 <= slices_emitted (vw_stats v) <= next_slot v;
  va_last : last = true -> e = total_qty p; va_served : n <= next_slot v -> e = total_qty p }.
(** A tick of the last slot. *)
Definition in_last (e : exec_event) : bool :=
  match e with Tick now => (start_ts_sec p <=? now) && (slot_of p now =? n - 1) | _ => false end.

Lemma vwap_tick v f e last now : vwap_at v f e last -> 0 <= now <= INT32_MAX ->
  let r := vwap_on_tick v now in 0 <= co_qty r.2 /\ vwap_at r.1 f (e + co_qty r.2) (last || in_last (Tick now)).
Proof.
  intros A Hnow. pose proof A as [V1 V2 V3 V4 V5 V6 [V7 V8] V9 V10 V11 V12]. pose proof ok as [K1 K2 K3 K4]. cbv zeta. unfold vwap_on_tick, in_last. rewrite V1, V2, V5, V6. fold n.
  replace (n <=? 0) with false by (unfold n; lia). cbn [orb].
  assert (Keep : forall b, (b = true -> e = total_qty p) -> 0 <= 0 /\ vwap_at v f (e + 0) (last || b)).
  { intros b Hb. split; [done|]. rewrite Z.add_0_r. split; try done. destruct last; [done|exact Hb]. }
  destruct (Z.leb_spec (total_qty p) f); [apply Keep; intros _; lia|].
  destruct (Z.ltb_spec now (start_ts_sec p)); [apply Keep; intros E; bsplit; lia|].
  destruct (slot_exact p now ok ltac:(lia)) as [S1 S2]. rewrite S1.
  destruct (Z.ltb_spec (slot_of p now) (next_slot v)); [apply Keep; intros E; bsplit; apply V12; lia|].
  destruct (Z.leb_spec n (slot_of p now)); [apply Keep; intros E; bsplit; lia|].
  set (sl := slot_of p now) in *. pose proof (V3 sl ltac:(lia)) as Tb. unfold INT32_MAX in *.
  rewrite (i32_small (_ - _)) by lia. rewrite (i32_small (sl + 1)) by lia. set (q := aget (target_cumulative v) sl - e) in *.
  assert (Last : sl = n - 1 -> e + q = total_qty p) by (intros ->; unfold q; lia).
  destruct (Z.leb_spec q 0) as [Hq|Hq]; cbn [fst snd co_qty no_child].
  - assert (L : sl = n - 1 -> e = total_qty p) by (intros E; specialize (Last E); lia).
    split; [done|]. rewrite Z.add_0_r. split; cbn; try done; [lia|lia| |intros; apply L; lia].
    intros E. apply orb_true_iff in E as [E|E]; [by apply V11|]. bsplit. by apply L.
  - split; [lia|]. split; cbn; try done; [rewrite V6, i32_small; lia|unfold q; lia|lia|rewrite i32_small; lia| |intros; apply Last; lia].
    intros E. apply orb_true_iff in E as [E|E]; [specialize (V11 E); unfold q in *; lia|]. bsplit. by apply Last.
Qed.
Lemma vwap_fill v f e last q px : vwap_at v f e last -> 0 < q -> 0 < px -> f + q <= e -> vwap_at (vwap_apply_fill v q px) (f + q) e last.
Proof.
  intros [V1 V2 V3 V4 V5 V6 [V7 V8] V9 V10 V11 V12] Hq Hp Hf. pose proof (pk_qty p ok). unfold INT32_MAX in *.
  unfold vwap_apply_fill, count_fill. replace (q <=? 0) with false by lia. replace (px <=? 0) with false by lia. cbn [orb].
  split; cbn; try done; [rewrite V5, i64_small; lia|lia].
Qed.
Lemma vwap_runs l : forall v f e last, vwap_at v f e last -> fills_within vwap_step v f e l ->
  let r := exec_run vwap_step v l in
  exists f', vwap_at r.1 f' (e + sumZ r.2) (last || existsb in_last l).
Proof.
  induction l as [|ev l IH]; intros v f e last A F; cbn [exec_run existsb]; cbv zeta.
  - exists f. cbn. rewrite orb_false_r, Z.add_0_r. exact A.
  - destruct F as [Fe F]. destruct ev as [now|q px]; cbn [vwap_step] in *.
    + destruct (vwap_tick v f e last now A Fe) as [Q A1]. destruct (vwap_on_tick v now) as [v1 c]. cbn [fst snd] in *. rewrite Z.max_r in F by lia.
      destruct (IH v1 f _ _ A1 F) as [f' A2]. destruct (exec_run vwap_step v1 l) as [v2 qs]. cbn [fst snd] in *. exists f'. rewrite orb_assoc.
      destruct (Z.ltb_spec 0 (co_qty c)); cbn [fst snd]; unfold sumZ in *; rewrite ?sumf_cons; unfold id at 1;
        [by rewrite Z.add_assoc|replace (co_qty c) with 0 in A2 by lia; by rewrite Z.add_0_r in A2].
    + destruct Fe as (Hq & Hp & Hf). pose proof (vwap_fill v f e last q px A Hq Hp Hf) as A1. cbn [fst snd] in F. rewrite Z.max_l, Z.add_0_r in F by lia.
      destruct (IH _ (f + q) e last A1 F) as [f' A2]. destruct (exec_run vwap_step (vwap_apply_fill v q px) l) as [v2 qs]. exists f'. exact A2.
Qed.
End vwap.

(** *** The targets *)

Lemma targets_length profile total slices n : forall i cum, length (targets profile total slices n i cum) = n.
Proof. induction n as [|n IH]; intros i cum; cbn; [done|]. by rewrite IH. Qed.
Lemma targets_last profile total n : forall i cum, targets profile total (i + Z.of_nat (S n)) (S n) i cum !! n = Some total.
Proof.
  induction n as [|n IH]; intros i cum.
  - cbn [targets lookup list_lookup]. by replace (i =? i + Z.of_nat 1 - 1) with true by (symmetry; apply Z.eqb_eq; lia).
  - cbn [targets]. cbn [lookup list_lookup]. replace (i + Z.of_nat (S (S n))) with (i + 1 + Z.of_nat (S n)) by lia. apply IH.
Qed.
Lemma new_vwap_at p profile : parent_ok p -> Forall (fun t => 0 <= t <= total_qty p) (target_cumulative (new_vwap p profile)) ->
  vwap_at p (new_vwap p profile) 0 0 false.
Proof.
  intros K T. pose proof K as [K1 K2 K3 K4]. pose proof (targets_last (normalized profile) (total_qty p) (Z.to_nat (num_slices p - 1)) 0 d_zero) as L.
  replace (0 + Z.of_nat (S (Z.to_nat (num_slices p - 1)))) with (num_slices p) in L by lia.
  replace (S (Z.to_nat (num_slices p - 1))) with (Z.to_nat (num_slices p)) in L by lia.
  pose proof (targets_length (normalized profile) (total_qty p) (num_slices p) (Z.to_nat (num_slices p)) 0 d_zero) as Len.
  unfold new_vwap in *. cbn [target_cumulative] in T. set (ts := targets _ _ _ _ _ _) in *. clearbody ts.
  split; cbn; try done; try lia; unfold aget; [|by rewrite L].
  intros i Hi. destruct (lookup_lt_is_Some_2 ts (Z.to_nat i)) as [x E]; [lia|]. rewrite E. exact (Forall_lookup_1 _ _ _ _ T E).
Qed.
Lemma run_positive {X} (step : X -> exec_event -> X * Z) l : forall x, Forall (fun q => 0 < q) (exec_run step x l).2.
Proof.
  induction l as [|e l IH]; intros x; cbn [exec_run]; [constructor|]. destruct (step x e) as [x1 q]. specialize (IH x1). destruct (exec_run step x1 l) as [x2 qs].
  cbn in *. destruct (Z.ltb_spec 0 q); [by constructor|done].
Qed.

(** ** Properties *)

(** On schedule, equal slicing sends exactly one child per slot and in the
    end the whole parent order: if there is at least one share per slot, ticks
    come from the start on and skip no slot, and no more is filled than was
    sent, then after [k] slots [k] children have been sent, of [k] times the
    base quantity in all, and of the total after the last. *)
Lemma exec_twap_on_schedule p l k :
  parent_ok p -> num_slices p <= total_qty p -> on_schedule p 0 0 l k ->
  let r := exec_run twap_step (new_twap p) l in
  0 <= k <= num_slices p /\ slices_emitted (tw_stats r.1) = k /\
  sumZ r.2 = (if k =? num_slices p then total_qty p else Z.quot (total_qty p) (num_slices p) * k).
Proof.
  intros K E S. pose proof K as [K1 K2 K3 K4]. assert (D0 : due p 0 = 0) by (unfold due; replace (0 =? num_slices p) with false by lia; lia).
  assert (A : twap_at p (new_twap p) 0 0).
  { split; try done; [unfold new_twap; cbn; by replace (0 <? num_slices p) with true by lia|rewrite D0; lia]. }
  destruct (twap_runs p K E l (new_twap p) 0 0 k A S) as (R1 & R2 & R3). split_and!; try lia. rewrite R2, D0. unfold due. lia.
Qed.
Definition demo_parent : ParentOrder := mkParent [65] BUY 103 0 30 10.
Definition demo_events : list exec_event := (fun t => Tick (Z.of_nat t)) <$> seq 0 31.
Lemma exec_twap_on_schedule_witness :
  (exec_run twap_step (new_twap demo_parent) demo_events).2 = replicate 9 10 ++ [13] /\
  sumZ (exec_run twap_step (new_twap demo_parent) demo_events).2 = 103.
Proof.
  split; [vm_compute; reflexivity|]. apply (exec_twap_on_schedule demo_parent demo_events 10); [by split|by vm_compute|].
  vm_compute. repeat first [split | discriminate | reflexivity].
Defined.

(** Off schedule it may send more than the order: with less than one share per
    slot the last slot sends the total on every tick until a fill comes, and
    after missed slots the last slot sends its piece once for each of them. *)
Example twap_few_shares :
  (exec_run twap_step (new_twap (mkParent [65] BUY 5 0 10 10)) [Tick 9; Tick 9; Tick 9]).2 = [5; 5; 5].
Proof. reflexivity. Qed.
Example twap_missed_slots :
  (exec_run twap_step (new_twap (mkParent [65] BUY 19 0 100 10)) [Tick 90; Tick 91; Tick 92]).2 = [10; 10; 10].
Proof. reflexivity. Qed.

(** slicing after a profile never sends more than the parent order, whatever
    ticks come or do not come, at most one child per slot, and once a tick of
    the last slot has come it has sent all of it; for targets within the order
    and fills of no more than was sent. *)
Lemma exec_vwap_completes p profile l :
  parent_ok p -> Forall (fun t => 0 <= t <= total_qty p) (target_cumulative (new_vwap p profile)) ->
  fills_within vwap_step (new_vwap p profile) 0 0 l ->
  let r := exec_run vwap_step (new_vwap p profile) l in
  Forall (fun q => 0 < q) r.2 /\ sumZ r.2 <= total_qty p /\ slices_emitted (vw_stats r.1) <= num_slices p /\
  (existsb (in_last p) l = true -> sumZ r.2 = total_qty p).
Proof.
  intros K T F. cbv zeta. destruct (vwap_runs p K l _ 0 0 false (new_vwap_at p profile K T) F) as [f A]. cbn [orb] in A.
  destruct A as [_ _ _ _ _ _ A7 A8 A9 A10 _]. split_and!; [apply run_positive|lia|lia|]. intros E. specialize (A10 E). lia.
Qed.
Definition demo_ticks : list exec_event := [Tick 0; Tick 7; Filled 30 9; Tick 8; Tick 27].
Lemma exec_vwap_completes_witness :
  (exec_run vwap_step (new_vwap demo_parent (u_shape_profile 10)) demo_ticks).2 = [15; 23; 65] /\
  sumZ (exec_run vwap_step (new_vwap demo_parent (u_shape_profile 10)) demo_ticks).2 = 103.
Proof.
  split; [vm_compute; reflexivity|]. apply (exec_vwap_completes demo_parent (u_shape_profile 10) demo_ticks); [by split| |vm_compute; repeat first [split | discriminate | reflexivity]|vm_compute; reflexivity].
  apply Forall_forall. intros t Ht. assert (L : Forall (fun t => (0 <=? t) && (t <=? 103) = true) (target_cumulative (new_vwap demo_parent (u_shape_profile 10)))) by (vm_compute; repeat constructor).
  rewrite Forall_forall in L. specialize (L t Ht). bsplit. cbn. lia.
Defined.
(** Without a profile everything is left to the last slot. *)
Example vwap_empty_profile : target_cumulative (new_vwap demo_parent []) = replicate 9 0 ++ [103].
Proof. vm_compute. reflexivity. Qed.
