(* ===== verification/WebSocket.v ===== *)
(** * WebSocket: the plain WebSocket client of the feed

    [feed/ws_client.hpp]: the upgrade handshake, masked frames out, frames of
    every opcode and length in, and the replies to pings and closes.  The socket
    is the list of the pieces in which the kernel will hand out what the peer
    sent, and the bytes that went out; what a [send] accepts and what
    [random_bytes] draws are arguments. *)
From S2P Require Import Prelude Common Bytes Text.

Inductive WsOpcode := CONTINUATION | TEXT | BINARY | CLOSE | PING | PONG.
#[export] Instance opcode_eq_dec : EqDecision WsOpcode.
Proof. solve_decision. Defined.
Definition opcode_code (o : WsOpcode) : Z :=
  match o with CONTINUATION => 0 | TEXT => 1 | BINARY => 2 | CLOSE => 8 | PING => 9 | PONG => 10 end.
(** [None]: a reserved code, for which no case of the switch is taken. *)
Definition opcode_of (code : Z) : option WsOpcode :=
  list_find (fun o => opcode_code o = code) [CONTINUATION; TEXT; BINARY; CLOSE; PING; PONG] ≫= fun '(_, o) => Some o.

(** ** The key of a connection *)

Definition alphabet : cstr := lit "ABCDEFGHIJKLMNOPQRSTUVWXYZabcdefghijklmnopqrstuvwxyz0123456789+/".
Definition sextet (v shift : Z) : Z := aget alphabet (Z.land (Z.shiftr v shift) 63).
Definition triple (raw : list Z) (i : Z) : Z :=
  Z.lor (Z.lor (Z.shiftl (aget raw i) 16) (Z.shiftl (aget raw (i + 1)) 8)) (aget raw (i + 2)).
Definition gen_sec_websocket_key (raw : list Z) : cstr :=
  concat (map (fun i => map (sextet (triple raw i)) [18; 12; 6; 0]) [0; 3; 6; 9; 12]) ++
  (let v := Z.shiftl (aget raw 15) 16 in [sextet v 18; sextet v 12; 61; 61]).

(** ** The socket *)

Record WsClient := mkWs { fd_ : Z; incoming : list (list Z); outgoing : list Z; sends : nat; draws : nat }.
#[export] Instance eta_ws : Settable WsClient := fun c => mkWs (fd_ c) (incoming c) (outgoing c) (sends c) (draws c).
Definition is_open (c : WsClient) : bool := 0 <=? fd_ c.
Definition close (c : WsClient) : WsClient := if 0 <=? fd_ c then c <| fd_ := -1 |> else c.

(** [recv]: at most [n] bytes of the next piece; nothing at the end of the
    stream or on an error, which an empty piece stands for. *)
Definition recv (n : nat) (c : WsClient) : list Z * WsClient :=
  match incoming c with
  | [] => ([], c)
  | p :: l =>
      (take n p, c <| incoming := match p, drop n p with [], _ => p :: l | _, [] => l | _, q => q :: l end |>)
  end.
(** Whether all came, and what came; every turn reads a byte, so [n] turns are enough. *)
Fixpoint recv_all_loop (fuel n : nat) (c : WsClient) : bool * list Z * WsClient :=
  match n, fuel with
  | O, _ => (true, [], c)
  | _, O => (false, [], c)
  | S _, S fuel =>
      let '(bs, c) := recv n c in
      match bs with
      | [] => (false, [], c)
      | _ => let '(ok, bs', c) := recv_all_loop fuel (n - length bs) c in (ok, bs ++ bs', c)
      end
  end.
Definition recv_all (n : nat) (c : WsClient) : bool * list Z * WsClient := recv_all_loop n n c.

(** [b ^ mask_key[i & 3]] from the index [i] on. *)
Fixpoint mask_from (key : list Z) (i : Z) (l : list Z) : list Z :=
  match l with [] => [] | b :: l => Z.lxor b (aget key (Z.land i 3)) :: mask_from key (i + 1) l end.

Section ws.
(** What the [k]-th [send], of [n] bytes, returns; what the [k]-th drawing of [n] bytes wrote. *)
Context (os_send : nat -> nat -> Z) (random_bytes : nat -> nat -> list Z).

Definition send (bs : list Z) (c : WsClient) : bool * WsClient :=
  let r := os_send (sends c) (length bs) in
  (r =? alen bs, c <| outgoing ::= fun l => l ++ take (Z.to_nat r) bs |> <| sends ::= S |>).
Definition draw (n : nat) (c : WsClient) : list Z * WsClient := (random_bytes (draws c) n, c <| draws ::= S |>).

(** *** Frames out *)

Definition CHUNK : nat := 1024.
Fixpoint send_chunks (fuel sent : nat) (key payload : list Z) (c : WsClient) : bool * WsClient :=
  match fuel with
  | O => (true, c)
  | S fuel =>
      if decide (sent < length payload)%nat then
        let n := Nat.min (length payload - sent) CHUNK in
        let '(ok, c) := send (mask_from key (Z.of_nat sent) (take n (drop sent payload))) c in
        if ok then send_chunks fuel (sent + n) key payload c else (false, c)
      else (true, c)
  end.
Definition frame_length (len : Z) : list Z :=
  if len <? 126 then [Z.lor 128 (u8 len)]
  else if len <=? 65535 then [Z.lor 128 126; Z.land (Z.shiftr len 8) 255; Z.land len 255]
  else Z.lor 128 127 :: map (fun i => Z.land (Z.shiftr len (8 * (7 - i))) 255) [0; 1; 2; 3; 4; 5; 6; 7].
Definition send_frame (opcode : WsOpcode) (payload : list Z) (c : WsClient) : bool * WsClient :=
  let len := alen payload in
  let '(mask_key, c) := draw 4 c in
  let '(ok, c) := send (Z.lor 128 (opcode_code opcode) :: frame_length len ++ mask_key) c in
  if negb ok then (false, c) else
  if 0 <? len then send_chunks (length payload) 0 mask_key payload c else (true, c).
Definition send_text (msg : list Z) (c : WsClient) : bool * WsClient := send_frame TEXT msg c.
Definition send_ping (payload : list Z) (c : WsClient) : bool * WsClient := send_frame PING payload c.

(** *** Frames in *)

Definition recv_length (len : Z) (c : WsClient) : option Z * WsClient :=
  if (len =? 126) || (len =? 127) then
    let '(ok, ext, c) := recv_all (if len =? 126 then 2 else 8) c in
    (if ok then Some (foldl (fun len b => Z.lor (u64 (Z.shiftl len 8)) b) 0 ext) else None, c)
  else (Some len, c).
(** Writing at the start of the caller's buffer. *)
Definition write_front (out bs : list Z) : list Z := bs ++ drop (length bs) out.
(** What the switch does with a frame: a result to return, or [None] to go on. *)
Definition dispatch (opcode : option WsOpcode) (payload : list Z) (c : WsClient) : option Z * WsClient :=
  match opcode with
  | Some TEXT | Some BINARY => (Some (i32 (alen payload)), c)
  | Some PING => (None, (send_frame PONG payload c).2)
  | Some CLOSE => (Some 0, (send_frame CLOSE payload c).2)
  | Some PONG | Some CONTINUATION | None => (None, c)
  end.
(** One frame, into the buffer [out] of [max_len] bytes. *)
Definition recv_turn (max_len : Z) (out : list Z) (c : WsClient) : option Z * list Z * WsClient :=
  let '(ok, h, c) := recv_all 2 c in
  if negb ok then (Some (-1), out, c) else
  let opcode := opcode_of (Z.land (aget h 0) 15) in
  let masked := negb (Z.land (aget h 1) 128 =? 0) in
  let '(len, c) := recv_length (Z.land (aget h 1) 127) c in
  match len with
  | None => (Some (-1), out, c)
  | Some len =>
      let '(ok, key, c) := if masked then recv_all 4 c else (true, [0; 0; 0; 0], c) in
      if negb ok then (Some (-1), out, c) else
      if max_len <? len then (Some (-1), out, c) else
      let '(ok, bs, c) := recv_all (Z.to_nat len) c in
      if negb ok then (Some (-1), write_front out bs, c) else
      let bs := if masked then mask_from key 0 bs else bs in
      let '(r, c) := dispatch opcode bs c in (r, write_front out bs, c)
  end.
Fixpoint recv_text_loop (fuel : nat) (max_len : Z) (out : list Z) (c : WsClient) : option (Z * list Z * WsClient) :=
  match fuel with
  | O => None
  | S fuel =>
      match recv_turn max_len out c with
      | (Some r, out, c) => Some (r, out, c)
      | (None, out, c) => recv_text_loop fuel max_len out c
      end
  end.
(** Every turn that goes on has read two bytes or more. *)
Definition left_to_read (c : WsClient) : nat := length (concat (incoming c)).
Definition recv_text (max_len : Z) (out : list Z) (c : WsClient) : option (Z * list Z * WsClient) :=
  recv_text_loop (S (left_to_read c)) max_len out c.

(** *** The handshake *)

Definition crlf : cstr := [13; 10].
Definition upgrade_request (host : cstr) (port : Z) (path key : cstr) : cstr :=
  lit "GET " ++ path ++ lit " HTTP/1.1" ++ crlf ++ lit "Host: " ++ host ++ [58] ++ dec_i port ++ crlf ++
  lit "Upgrade: websocket" ++ crlf ++ lit "Connection: Upgrade" ++ crlf ++ lit "Sec-WebSocket-Key: " ++ key ++ crlf ++
  lit "Sec-WebSocket-Version: 13" ++ crlf ++ crlf.
Definition REQ_SIZE : Z := 512.
Definition RESP_SIZE : nat := 1024.
Definition headers_end (got : list Z) : bool := bool_decide (drop (length got - 4) got = crlf ++ crlf) && (4 <=? alen got).
(** The response, byte by byte, until the blank line or the end of the buffer. *)
Fixpoint recv_headers (room : nat) (got : list Z) (c : WsClient) : option (list Z) * WsClient :=
  match room with
  | O => (Some got, c)
  | S room =>
      match recv 1 c with
      | (b :: _, c) => let got := got ++ [b] in if headers_end got then (Some got, c) else recv_headers room got c
      | ([], c) => (None, c)
      end
  end.
Definition switching : cstr := lit "HTTP/1.1 101".
(** With what [socket], the resolution of the name and [connect] returned;
    [None]: the request does not fit its buffer, and [send] reads behind it. *)
Definition connect (fd : Z) (resolved connected : bool) (host : cstr) (port : Z) (path : cstr) (c : WsClient) : option (bool * WsClient) :=
  let c := c <| fd_ := fd |> in
  if fd <? 0 then Some (false, c) else
  if negb resolved || negb connected then Some (false, close c) else
  let '(raw, c) := draw 16 c in
  let req := upgrade_request host port path (gen_sec_websocket_key raw) in
  if REQ_SIZE <? alen req then None else
  let req := if REQ_SIZE =? alen req then take 511 req ++ [0] else req in
  let '(ok, c) := send req c in
  if negb ok then Some (false, close c) else
  match recv_headers (RESP_SIZE - 1) [] c with
  | (None, c) => Some (false, close c)
  | (Some resp, c) => if bool_decide (take 12 resp = switching) then Some (true, c) else Some (false, close c)
  end.
End ws.

(** ** Reading a stream that comes in pieces *)

(** The pieces still to come make up [s], and the stream does not end inside. *)
Definition reads (c : WsClient) (s : list Z) : Prop := Forall (fun p => p <> []) (incoming c) /\ concat (incoming c) = s.
Definition same_but_input (c c' : WsClient) : Prop := exists l, c' = c <| incoming := l |>.
#[local] Instance same_refl : Reflexive same_but_input.
Proof. intros c. exists (incoming c). by destruct c. Qed.
#[local] Instance same_trans : Transitive same_but_input.
Proof. intros a b c [l ->] [k ->]. by exists k. Qed.
Lemma recv_reads n c s : reads c s -> s <> [] -> (0 < n)%nat ->
  exists bs c', recv n c = (bs, c') /\ bs <> [] /\ (length bs <= n)%nat /\ same_but_input c c' /\ exists s', s = bs ++ s' /\ reads c' s'.
Proof.
  intros [F E] Hs Hn. unfold recv. destruct (incoming c) as [|p l] eqn:I; [by rewrite <- E in Hs|].
  apply Forall_cons in F as [Fp Fl]. destruct p as [|b p]; [done|]. destruct n as [|n]; [lia|].
  eexists _, _. split; [reflexivity|]. cbn [take]. split; [done|]. split; [cbn [length]; rewrite length_take; lia|]. split; [by eexists|].
  cbn [drop]. exists (drop n p ++ concat l). cbn [concat] in E. rewrite <- E. cbn [app]. split; [by rewrite app_assoc, take_drop|].
  split; cbn; [|by destruct (drop n p)]. destruct (drop n p); [done|]. by constructor.
Qed.
Lemma recv_all_reads n bs c s : reads c (bs ++ s) -> length bs = n ->
  exists c', recv_all n c = (true, bs, c') /\ reads c' s /\ same_but_input c c'.
Proof.
  unfold recv_all. intros R L. assert (G : forall fuel n bs c, reads c (bs ++ s) -> length bs = n -> (n <= fuel)%nat ->
    exists c', recv_all_loop fuel n c = (true, bs, c') /\ reads c' s /\ same_but_input c c'); [|by apply G].
  clear. induction fuel as [|fuel IH]; intros n bs c R L F.
  - destruct bs; [|cbn in L; lia]. subst. by exists c.
  - destruct n as [|n]; [destruct bs; [|done]; by exists c|]. cbn [recv_all_loop].
    destruct (recv_reads (S n) c _ R) as (x & c1 & E & Hx & Lx & S1 & s1 & Es & R1); [by destruct bs|lia|]. rewrite E.
    destruct x as [|b x]; [done|]. set (y := b :: x) in *. assert (Y : (1 <= length y)%nat) by (cbn; lia).
    assert (P : bs = y ++ drop (length y) bs).
    { rewrite <- (take_drop (length y) bs) at 1. f_equal. rewrite <- (take_app_le bs s) by lia. rewrite Es. apply take_app_length. }
    rewrite P in Es. rewrite <- app_assoc in Es. apply app_inv_head in Es.
    destruct (IH (S n - length y)%nat (drop (length y) bs) c1) as (c2 & E2 & R2 & S2); [by rewrite Es|rewrite length_drop; lia|lia|].
    rewrite E2. exists c2. split; [by rewrite <- P|]. split; [done|]. by etrans.
Qed.

(** ** Frames *)

(** A frame as the protocol has it: the byte of the flags and the opcode, the
    masking key if there is one, the payload. *)
Record Frame := mkFrame { fr_head : Z; fr_key : option (list Z); fr_payload : list Z }.
Definition fr_opcode (f : Frame) : option WsOpcode := opcode_of (Z.land (fr_head f) 15).
Definition length_field (m len : Z) : list Z :=
  if len <? 126 then [m + len] else if len <? 65536 then (m + 126) :: be_bytes 2 len else (m + 127) :: be_bytes 8 len.
Definition mask_bit (k : option (list Z)) : Z := match k with Some _ => 128 | None => 0 end.
Definition frame_bytes (f : Frame) : list Z :=
  fr_head f :: length_field (mask_bit (fr_key f)) (alen (fr_payload f)) ++
  match fr_key f with Some k => k ++ mask_from k 0 (fr_payload f) | None => fr_payload f end.
Record frame_ok (max_len : Z) (f : Frame) : Prop := {
  fk_key : match fr_key f with Some k => length k = 4%nat | None => True end;
  fk_len : alen (fr_payload f) <= max_len }.

Lemma length_mask_from key l : forall i, length (mask_from key i l) = length l.
Proof. induction l as [|b l IH]; intros i; cbn; [done|]. by rewrite IH. Qed.
Lemma mask_twice key l : forall i, mask_from key i (mask_from key i l) = l.
Proof. induction l as [|b l IH]; intros i; cbn [mask_from]; [done|]. by rewrite IH, Z.lxor_assoc, Z.lxor_nilpotent, Z.lxor_0_r. Qed.
Lemma be_fold n : forall v, (n <= 8)%nat -> 0 <= v < 256 ^ Z.of_nat n -> foldl (fun len b => Z.lor (u64 (Z.shiftl len 8)) b) 0 (be_bytes n v) = v.
Proof.
  induction n as [|n IH]; intros v L H; [change (256 ^ Z.of_nat 0) with 1 in H; cbn; lia|].
  rewrite Nat2Z.inj_succ, Z.pow_succ_r in H by lia. pose proof (Z.div_mod v 256 ltac:(lia)) as D. pose proof (Z.mod_pos_bound v 256 ltac:(lia)) as M.
  assert (B : 0 <= v / 256 < 256 ^ Z.of_nat n) by (split; [apply Z.div_pos; lia|apply Z.div_lt_upper_bound; lia]).
  cbn [be_bytes]. rewrite foldl_app, (IH (v / 256)) by (lia || done). cbn [foldl].
  assert (P : 256 ^ Z.of_nat n <= 256 ^ 7) by (apply Z.pow_le_mono_r; lia). change (256 ^ 7) with 72057594037927936 in P.
  rewrite Z.shiftl_mul_pow2 by lia. change (2 ^ 8) with 256. rewrite u64_small by lia.
  rewrite Z.lor_comm. change (v / 256 * 256) with (v / 256 * 2 ^ 8). rewrite <- Z.shiftl_mul_pow2, lor_shiftl_add by (change (2 ^ 8) with 256; lia). change (2 ^ 8) with 256. lia.
Qed.
Lemma second_byte x : 0 <= x < 128 ->
  Z.land (128 + x) 127 = x /\ Z.land x 127 = x /\ Z.land (128 + x) 128 = 128 /\ Z.land x 128 = 0.
Proof.
  intros H. assert (A : forallb (fun n => let x := Z.of_nat n in (Z.land (128 + x) 127 =? x) && (Z.land x 127 =? x) && (Z.land (128 + x) 128 =? 128) && (Z.land x 128 =? 0)) (seq 0 128) = true) by reflexivity.
  rewrite forallb_forall in A. specialize (A (Z.to_nat x)). rewrite Z2Nat.id in A by lia. cbv zeta in A.
  assert (I : In (Z.to_nat x) (seq 0 128)) by (apply in_seq; lia). specialize (A I). bsplit. by split_and!.
Qed.
Lemma masked_bit k x : 0 <= x < 128 -> Z.land (mask_bit k + x) 127 = x /\ negb (Z.land (mask_bit k + x) 128 =? 0) = bool_decide (is_Some k).
Proof. intros H. destruct (second_byte x H) as (A & B & C & D). destruct k; cbn [mask_bit]; [by rewrite A, C|]. by rewrite Z.add_0_l, B, D. Qed.
(** The length field as the two bytes' rest and the extension. *)
Lemma recv_length_field k len c s : 0 <= len < 2 ^ 64 ->
  exists x ext, length_field (mask_bit k) len = (mask_bit k + x) :: ext /\ 0 <= x < 128 /\
    (reads c (ext ++ s) -> exists c', recv_length x c = (Some len, c') /\ reads c' s /\ same_but_input c c').
Proof.
  intros H. unfold length_field. destruct (Z.ltb_spec len 126); [|destruct (Z.ltb_spec len 65536)].
  - exists len, []. split_and!; try done; try lia. intros R. unfold recv_length. replace (len =? 126) with false by lia. replace (len =? 127) with false by lia. by exists c.
  - exists 126, (be_bytes 2 len). split_and!; try done. intros R. unfold recv_length.
    destruct (recv_all_reads 2 _ c s R (length_be_bytes 2 len)) as (c' & E & R' & S'). exists c'. split; [|done].
    change ((126 =? 126) || (126 =? 127)) with true. change (126 =? 126) with true. cbv iota. rewrite E. rewrite be_fold; [done|lia|]. change (256 ^ Z.of_nat 2) with 65536. lia.
  - exists 127, (be_bytes 8 len). split_and!; try done. intros R. unfold recv_length.
    destruct (recv_all_reads 8 _ c s R (length_be_bytes 8 len)) as (c' & E & R' & S'). exists c'. split; [|done].
    change ((127 =? 126) || (127 =? 127)) with true. change (127 =? 126) with false. cbv iota. rewrite E. rewrite be_fold; [done|lia|].
    change (256 ^ Z.of_nat 8) with (2 ^ 64). lia.
Qed.

Section ws_proofs.
Context (os_send : nat -> nat -> Z) (random_bytes : nat -> nat -> list Z).

Lemma recv_turn_frame max_len f s out c :
  frame_ok max_len f -> max_len <= INT32_MAX -> reads c (frame_bytes f ++ s) ->
  exists c1, reads c1 s /\ same_but_input c c1 /\
    recv_turn os_send random_bytes max_len out c =
    (let '(r, c2) := dispatch os_send random_bytes (fr_opcode f) (fr_payload f) c1 in (r, write_front out (fr_payload f), c2)).
Proof.
  intros [K L] M R. unfold frame_bytes in R. unfold INT32_MAX in M.
  destruct (recv_length_field (fr_key f) (alen (fr_payload f)) c ((match fr_key f with Some k => k ++ mask_from k 0 (fr_payload f) | None => fr_payload f end) ++ s))
    as (x & ext & E & Hx & _); [split; [apply alen_nonneg|lia]|].
  rewrite E in R. unfold recv_turn.
  match type of R with reads _ ?l => assert (R' : reads c ([fr_head f; mask_bit (fr_key f) + x] ++ (ext ++ match fr_key f with Some k => k ++ mask_from k 0 (fr_payload f) | None => fr_payload f end ++ s)))
    by (cbn [app] in *; rewrite <- ?app_assoc in R; exact R) end.
  destruct (recv_all_reads 2 _ c _ R' eq_refl) as (c1 & E1 & R1 & S1). rewrite E1. cbn [negb]. cbv iota.
  destruct (masked_bit (fr_key f) x Hx) as [B1 B2].
  change (aget [fr_head f; mask_bit (fr_key f) + x] 0) with (fr_head f). change (aget [fr_head f; mask_bit (fr_key f) + x] 1) with (mask_bit (fr_key f) + x).
  rewrite B1, B2. clear E1 R R'.
  destruct (recv_length_field (fr_key f) (alen (fr_payload f)) c1 ((match fr_key f with Some k => k ++ mask_from k 0 (fr_payload f) | None => fr_payload f end) ++ s))
    as (x' & ext' & E' & Hx' & Hr); [split; [apply alen_nonneg|lia]|].
  rewrite E in E'. assert (x' = x) by (injection E'; lia). assert (ext' = ext) by congruence. subst x' ext'.
  destruct (Hr R1) as (c2 & E2 & R2 & S2). rewrite E2. clear Hr E E'.
  replace (max_len <? alen (fr_payload f)) with false by lia.
  assert (T : Z.to_nat (alen (fr_payload f)) = length (fr_payload f)) by (unfold alen; lia). rewrite T.
  destruct (fr_key f) as [k|] eqn:Ek.
  - rewrite bool_decide_eq_true_2 by done. rewrite <- app_assoc in R2.
    destruct (recv_all_reads 4 k c2 _ R2 K) as (c3 & E3 & R3 & S3). rewrite E3. cbn [negb].
    destruct (recv_all_reads (length (fr_payload f)) _ c3 _ R3 (length_mask_from _ _ _)) as (c4 & E4 & R4 & S4). rewrite E4, mask_twice. cbn [negb].
    exists c4. split_and!; [done| |done]. etrans; [exact S1|]. etrans; [exact S2|]. by etrans.
  - rewrite bool_decide_eq_false_2 by (intros [? ?]; done). cbn [negb].
    destruct (recv_all_reads (length (fr_payload f)) _ c2 _ R2 eq_refl) as (c4 & E4 & R4 & S4). rewrite E4. cbn [negb].
    exists c4. split_and!; [done| |done]. etrans; [exact S1|]. by etrans.
Qed.

(** *** What goes out *)

Context (complete : forall k n, os_send k n = Z.of_nat n).
(** Only the output grew, by [l], and [n] keys were drawn. *)
Record emitted (n : nat) (l : list Z) (c c' : WsClient) : Prop := {
  em_out : outgoing c' = outgoing c ++ l; em_in : incoming c' = incoming c; em_fd : fd_ c' = fd_ c; em_draws : draws c' = (n + draws c)%nat }.
Lemma emitted_trans n m l k a b c : emitted n l a b -> emitted m k b c -> emitted (m + n) (l ++ k) a c.
Proof. intros [A B C D] [E F G H]. split; [by rewrite E, A, app_assoc|congruence|congruence|lia]. Qed.
Lemma send_emitted bs c : exists c', send os_send bs c = (true, c') /\ emitted 0 bs c c'.
Proof.
  unfold send. rewrite complete. eexists. split; [f_equal; unfold alen; lia|]. split; cbn; try done. by rewrite Nat2Z.id, firstn_all.
Qed.
Lemma mask_from_app key l k : forall i, mask_from key i (l ++ k) = mask_from key i l ++ mask_from key (i + alen l) k.
Proof.
  induction l as [|b l IH]; intros i; cbn [app mask_from]; [by rewrite Z.add_0_r|]. rewrite IH. do 3 f_equal. unfold alen. cbn [length]. lia.
Qed.
Lemma send_chunks_emitted key payload fuel : forall sent c, (length payload <= sent + fuel)%nat -> (sent <= length payload)%nat ->
  exists c', send_chunks os_send fuel sent key payload c = (true, c') /\ emitted 0 (mask_from key (Z.of_nat sent) (drop sent payload)) c c'.
Proof.
  induction fuel as [|fuel IH]; intros sent c F L; cbn [send_chunks].
  - rewrite drop_ge by lia. exists c. split; [done|]. split; try done. by rewrite app_nil_r.
  - destruct (decide (sent < length payload)%nat) as [H|H].
    + set (n := Nat.min (length payload - sent) CHUNK). assert (N : (1 <= n <= length payload - sent)%nat) by (unfold n, CHUNK; lia).
      destruct (send_emitted (mask_from key (Z.of_nat sent) (take n (drop sent payload))) c) as (c1 & -> & E1).
      destruct (IH (sent + n)%nat c1) as (c2 & -> & E2); [lia|lia|]. exists c2. split; [done|].
      pose proof (emitted_trans _ _ _ _ _ _ _ E1 E2) as E. replace (mask_from key (Z.of_nat sent) (drop sent payload)) with
        (mask_from key (Z.of_nat sent) (take n (drop sent payload)) ++ mask_from key (Z.of_nat (sent + n)) (drop (sent + n) payload)); [done|].
      rewrite <- (take_drop n (drop sent payload)) at 2. rewrite mask_from_app, drop_drop. do 2 f_equal. unfold alen. rewrite length_take, length_drop. lia.
    + rewrite drop_ge by lia. exists c. split; [done|]. split; try done. by rewrite app_nil_r.
Qed.
Lemma land_low_byte z : Z.land z 255 = z mod 256.
Proof. exact (land_ones_mod z 8 ltac:(lia)). Qed.
Lemma frame_length_field len : 0 <= len < 2 ^ 64 -> frame_length len = length_field 128 len.
Proof.
  intros H. unfold frame_length, length_field. destruct (Z.ltb_spec len 126).
  { rewrite u8_small by lia. f_equal. rewrite Z.lor_comm.
    change 128 with (Z.shiftl 1 7) at 1. rewrite lor_shiftl_add by (change (2 ^ 7) with 128; lia). change (2 ^ 7) with 128. lia. }
  destruct (Z.leb_spec len 65535); destruct (Z.ltb_spec len 65536); try lia.
  - cbn [be_bytes app]. rewrite !land_low_byte. by rewrite Z.shiftr_div_pow2 by lia.
  - cbn [be_bytes app map]. rewrite !land_low_byte, !Z.shiftr_div_pow2 by lia. rewrite !Z.div_div by lia. rewrite Z.div_1_r. reflexivity.
Qed.
Definition client_frame (d : nat) (opcode : WsOpcode) (payload : list Z) : Frame := mkFrame (128 + opcode_code opcode) (Some (random_bytes d 4)) payload.
Lemma send_frame_emitted opcode payload c : alen payload < 2 ^ 64 ->
  exists c', send_frame os_send random_bytes opcode payload c = (true, c') /\ emitted 1 (frame_bytes (client_frame (draws c) opcode payload)) c c'.
Proof.
  intros H. unfold send_frame, draw. set (key := random_bytes (draws c) 4). set (c0 := c <| draws ::= S |>).
  assert (E0 : emitted 1 [] c c0) by (split; try done; by rewrite app_nil_r).
  destruct (send_emitted (Z.lor 128 (opcode_code opcode) :: frame_length (alen payload) ++ key) c0) as (c1 & -> & E1). cbn [negb].
  pose proof (emitted_trans _ _ _ _ _ _ _ E0 E1) as E01. unfold frame_bytes. cbn [fr_head fr_key fr_payload client_frame mask_bit].
  fold key. rewrite <- frame_length_field by (split; [apply alen_nonneg|done]). replace (128 + opcode_code opcode) with (Z.lor 128 (opcode_code opcode)) by (by destruct opcode).
  destruct (Z.ltb_spec 0 (alen payload)).
  - destruct (send_chunks_emitted key payload (length payload) 0 c1) as (c2 & -> & E2); [lia|lia|]. exists c2. split; [done|].
    pose proof (emitted_trans _ _ _ _ _ _ _ E01 E2) as E. rewrite drop_0 in E. cbn [app] in E. by rewrite <- app_assoc in E.
  - destruct payload; [|unfold alen in *; cbn in *; lia]. exists c1. split; [done|]. cbn [mask_from]. by rewrite app_nil_r.
Qed.

(** *** What comes in *)

Definition final (f : Frame) : bool := match fr_opcode f with Some (TEXT | BINARY | CLOSE) => true | _ => false end.
(** The answer to a frame: a ping's payload in a pong, a close's in a close. *)
Definition reply (d : nat) (f : Frame) : list Z :=
  match fr_opcode f with
  | Some PING => frame_bytes (client_frame d PONG (fr_payload f))
  | Some CLOSE => frame_bytes (client_frame d CLOSE (fr_payload f))
  | _ => []
  end.
Definition drawn (f : Frame) : nat := match fr_opcode f with Some (PING | CLOSE) => 1 | _ => 0 end.
Fixpoint replies (d : nat) (fs : list Frame) : list Z :=
  match fs with [] => [] | f :: fs => reply d f ++ replies (drawn f + d) fs end.
Definition result_of (f : Frame) : option Z :=
  match fr_opcode f with Some (TEXT | BINARY) => Some (alen (fr_payload f)) | Some CLOSE => Some 0 | _ => None end.
Lemma emitted_reads n l c c' s : emitted n l c c' -> reads c s -> reads c' s.
Proof. intros [_ E _ _] [R1 R2]. split; by rewrite E. Qed.
Lemma dispatch_reply max_len f c s : frame_ok max_len f -> max_len <= INT32_MAX -> reads c s ->
  exists c', dispatch os_send random_bytes (fr_opcode f) (fr_payload f) c = (result_of f, c') /\ reads c' s /\
    outgoing c' = outgoing c ++ reply (draws c) f /\ draws c' = (drawn f + draws c)%nat.
Proof.
  intros [_ L] M R. unfold INT32_MAX in M. pose proof (alen_nonneg (fr_payload f)) as P. unfold dispatch, result_of, reply, drawn.
  assert (Quiet : exists c', c = c' /\ reads c' s /\ outgoing c' = outgoing c ++ [] /\ draws c' = (0 + draws c)%nat)
    by (exists c; split_and!; try done; by rewrite app_nil_r).
  destruct (fr_opcode f) as [[]|]; rewrite ?i32_small by lia;
    try (destruct Quiet as (c' & E & Q); exists c'; rewrite <- E in *; split; [reflexivity|exact Q]).
  all: destruct (send_frame_emitted CLOSE (fr_payload f) c ltac:(lia)) as (cc & Ec & Xc);
    destruct (send_frame_emitted PONG (fr_payload f) c ltac:(lia)) as (cp & Ep & Xp); rewrite ?Ec, ?Ep; cbn [snd];
    eexists; split; [reflexivity|]; split; [by eapply emitted_reads|]; split; by (apply Xc || apply Xp).
Qed.
Lemma frame_bytes_two f : alen (fr_payload f) < 2 ^ 64 -> (2 <= length (frame_bytes f))%nat.
Proof.
  intros H. destruct (recv_length_field (fr_key f) (alen (fr_payload f)) (mkWs 0 [] [] 0 0) []) as (x & ext & E & _); [split; [apply alen_nonneg|done]|].
  unfold frame_bytes. rewrite E. cbn. lia.
Qed.
Lemma recv_loop_frames max_len fs f rest : max_len <= INT32_MAX -> frame_ok max_len f -> final f = true ->
  forall out c fuel, Forall (frame_ok max_len) fs -> Forall (fun g => final g = false) fs -> (length fs < fuel)%nat ->
  reads c (concat (map frame_bytes fs) ++ frame_bytes f ++ rest) ->
  exists r out' c', recv_text_loop os_send random_bytes fuel max_len out c = Some (r, out', c') /\ Some r = result_of f /\
    take (length (fr_payload f)) out' = fr_payload f /\ reads c' rest /\ outgoing c' = outgoing c ++ replies (draws c) (fs ++ [f]).
Proof.
  intros M Kf Ff. induction fs as [|g fs IH]; intros out c fuel K F L R; (destruct fuel as [|fuel]; [cbn in L; lia|]); cbn [recv_text_loop].
  - cbn [map concat app] in R. destruct (recv_turn_frame max_len f rest out c Kf M R) as (c1 & R1 & [i ->] & ->).
    destruct (dispatch_reply max_len f _ rest Kf M R1) as (c2 & -> & R2 & O2 & D2). assert (G : exists r, result_of f = Some r) by (unfold result_of, final in *; destruct (fr_opcode f) as [[]|]; by eauto).
    destruct G as [r G]. rewrite G. exists r, (write_front out (fr_payload f)), c2. split_and!; try done.
    + unfold write_front. by rewrite take_app_length.
    + rewrite O2. cbn. by rewrite app_nil_r.
  - apply Forall_cons in K as [Kg K], F as [Fg F]. cbn [map concat] in R. rewrite <- app_assoc in R.
    destruct (recv_turn_frame max_len g _ out c Kg M R) as (c1 & R1 & [i ->] & ->).
    destruct (dispatch_reply max_len g _ _ Kg M R1) as (c2 & -> & R2 & O2 & D2).
    replace (result_of g) with (@None Z) by (unfold result_of, final in *; by destruct (fr_opcode g) as [[]|]).
    destruct (IH (write_front out (fr_payload g)) c2 fuel K F ltac:(cbn in L; lia) R2) as (r & out' & c' & E & Er & T & R' & O).
    exists r, out', c'. split_and!; try done. rewrite O, O2, D2. cbn. by rewrite app_assoc.
Qed.
Lemma frames_fuel max_len fs c s : max_len <= INT32_MAX -> Forall (frame_ok max_len) fs -> reads c (concat (map frame_bytes fs) ++ s) -> (length fs <= left_to_read c)%nat.
Proof.
  intros M F [_ R]. unfold left_to_read. rewrite R, length_app. unfold INT32_MAX in M. clear R. induction F as [|f fs [_ K] F IH]; cbn; [lia|].
  pose proof (frame_bytes_two f ltac:(lia)). rewrite length_app. lia.
Qed.
End ws_proofs.

(** *** Every call returns *)

Lemma recv_left n c : let r := recv n c in left_to_read c = (length r.1 + left_to_read r.2)%nat.
Proof.
  unfold recv, left_to_read. destruct (incoming c) as [|p l] eqn:I; cbn; [by rewrite I|].
  rewrite length_app. destruct p as [|b p]; cbn [fst snd].
  - rewrite firstn_nil. by cbn.
  - pose proof (length_drop (b :: p) n) as D. pose proof (length_take (b :: p) n) as T.
    destruct (drop n (b :: p)) as [|x q] eqn:Q; cbn in *; rewrite ?length_app; rewrite T; cbn [length] in *; lia.
Qed.
Lemma recv_all_left n c : let '(ok, bs, c') := recv_all n c in
  left_to_read c = (length bs + left_to_read c')%nat /\ (ok = true -> length bs = n).
Proof.
  unfold recv_all. assert (G : forall fuel n c, (n <= fuel)%nat -> let '(ok, bs, c') := recv_all_loop fuel n c in
    left_to_read c = (length bs + left_to_read c')%nat /\ (ok = true -> length bs = n)); [|by apply G].
  clear. induction fuel as [|fuel IH]; intros n c L; [destruct n; [done|lia]|]. destruct n as [|n]; [done|]. cbn [recv_all_loop].
  pose proof (recv_left (S n) c) as E. destruct (recv (S n) c) as [bs c1] eqn:R. cbn [fst snd] in E.
  assert (B : (length bs <= S n)%nat).
  { unfold recv in R. destruct (incoming c); injection R as <- <-; [cbn; lia|rewrite length_take; lia]. }
  destruct bs as [|b bs]; [cbn in *; split; [done|done]|]. specialize (IH (S n - length (b :: bs))%nat c1). cbn [length] in *.
  destruct (recv_all_loop fuel _ c1) as [[ok bs'] c2]. destruct IH as [I1 I2]; [lia|]. cbn [app length]. rewrite length_app. split; [lia|]. intros O. specialize (I2 O). lia.
Qed.
Lemma send_left os_send bs c : left_to_read (send os_send bs c).2 = left_to_read c.
Proof. done. Qed.
Lemma send_chunks_left os_send key payload fuel : forall sent c, left_to_read (send_chunks os_send fuel sent key payload c).2 = left_to_read c.
Proof.
  induction fuel as [|fuel IH]; intros sent c; cbn [send_chunks]; [done|]. case_decide; [|done]. cbv zeta.
  match goal with |- context[send os_send ?b c] => pose proof (send_left os_send b c) as E; destruct (send os_send b c) as [ok c1] end.
  cbn [snd] in E. destruct ok; [by rewrite IH|done].
Qed.
Lemma send_frame_left os_send random_bytes o payload c : left_to_read (send_frame os_send random_bytes o payload c).2 = left_to_read c.
Proof.
  unfold send_frame, draw. match goal with |- context[send os_send ?b ?c0] => pose proof (send_left os_send b c0) as E; destruct (send os_send b c0) as [ok c1] end.
  cbn [snd] in E. destruct ok; cbn [negb]; [|done]. destruct (0 <? _); [|done]. by rewrite send_chunks_left.
Qed.
Lemma dispatch_left os_send random_bytes o payload c : left_to_read (dispatch os_send random_bytes o payload c).2 = left_to_read c.
Proof. unfold dispatch. destruct o as [[]|]; try done; cbn [snd]; by rewrite send_frame_left. Qed.
Lemma recv_length_left len c : (left_to_read (recv_length len c).2 <= left_to_read c)%nat.
Proof.
  unfold recv_length. destruct (_ || _); [|done]. match goal with |- context[recv_all ?n c] => pose proof (recv_all_left n c) as E; destruct (recv_all n c) as [[ok bs] c1] end.
  cbn [snd]. lia.
Qed.
Lemma recv_turn_left os_send random_bytes max_len out c : let '(r, _, c') := recv_turn os_send random_bytes max_len out c in
  r = None -> (left_to_read c' < left_to_read c)%nat.
Proof.
  unfold recv_turn. pose proof (recv_all_left 2 c) as E1. destruct (recv_all 2 c) as [[ok h] c1]. destruct E1 as [E1 L1]. destruct ok; cbn [negb]; [|done].
  specialize (L1 eq_refl). match goal with |- context[recv_length ?l c1] => pose proof (recv_length_left l c1) as E2; destruct (recv_length l c1) as [[len|] c2] end; [|done].
  cbn [snd] in E2. cbv zeta.
  assert (E3 : let '(ok, key, c3) := if negb (Z.land (aget h 1) 128 =? 0) then recv_all 4 c2 else (true, [0; 0; 0; 0], c2) in (left_to_read c3 <= left_to_read c2)%nat).
  { destruct (negb _); [|done]. pose proof (recv_all_left 4 c2) as E. destruct (recv_all 4 c2) as [[? ?] ?]. lia. }
  destruct (if negb (Z.land (aget h 1) 128 =? 0) then recv_all 4 c2 else (true, [0; 0; 0; 0], c2)) as [[ok key] c3]. destruct ok; cbn [negb]; [|done].
  destruct (max_len <? len); [done|]. pose proof (recv_all_left (Z.to_nat len) c3) as E4. destruct (recv_all (Z.to_nat len) c3) as [[ok bs] c4]. destruct ok; cbn [negb]; [|done].
  match goal with |- context[dispatch ?a ?b ?o ?p c4] => pose proof (dispatch_left a b o p c4) as E5; destruct (dispatch a b o p c4) as [r c5] end.
  cbn [snd] in E5. intros _. lia.
Qed.
(** [recv_text] returns, whatever the peer sends and the kernel answers. *)
Lemma recv_text_returns os_send random_bytes max_len out c : exists r, recv_text os_send random_bytes max_len out c = Some r.
Proof.
  unfold recv_text. assert (G : forall fuel out c, (left_to_read c < fuel)%nat -> exists r, recv_text_loop os_send random_bytes fuel max_len out c = Some r); [|apply G; lia].
  clear. induction fuel as [|fuel IH]; intros out c L; [lia|]. cbn [recv_text_loop]. pose proof (recv_turn_left os_send random_bytes max_len out c) as T.
  destruct (recv_turn _ _ max_len out c) as [[[r|] out1] c1]; [by eexists|]. apply IH. specialize (T eq_refl). lia.
Qed.

(** *** Two clients *)

Section pair.
Context (os_send : nat -> nat -> Z) (random_bytes random_bytes' : nat -> nat -> list Z).
(** The messages that one client sends, one after the other. *)
Definition send_texts (msgs : list (list Z)) (c : WsClient) : WsClient := foldl (fun c m => (send_text os_send random_bytes m c).2) c msgs.
Fixpoint text_frames (d : nat) (msgs : list (list Z)) : list Frame :=
  match msgs with [] => [] | m :: msgs => client_frame random_bytes d TEXT m :: text_frames (S d) msgs end.
(** What the other reads with one call after the other. *)
Fixpoint recv_texts (n : nat) (max_len : Z) (out : list Z) (c : WsClient) : option (list (list Z) * WsClient) :=
  match n with
  | O => Some ([], c)
  | S n =>
      '(r, out, c) ← recv_text os_send random_bytes' max_len out c;
      if r <? 0 then None else '(ms, c) ← recv_texts n max_len out c; Some (take (Z.to_nat r) out :: ms, c)
  end.
Context (complete : forall k n, os_send k n = Z.of_nat n) (four : forall k, length (random_bytes k 4) = 4%nat).
Lemma send_texts_frames max_len msgs : max_len <= INT32_MAX -> Forall (fun m => alen m <= max_len) msgs -> forall c,
  outgoing (send_texts msgs c) = outgoing c ++ concat (map frame_bytes (text_frames (draws c) msgs)).
Proof.
  intros M F. unfold INT32_MAX in M. induction F as [|m msgs L F IH]; intros c; cbn [send_texts foldl text_frames map concat]; [by rewrite app_nil_r|].
  destruct (send_frame_emitted os_send random_bytes complete TEXT m c ltac:(lia)) as (c1 & E & [O _ _ D]). unfold send_text at 2. rewrite E. cbn [snd].
  unfold send_texts in IH. rewrite IH, O, D, <- app_assoc. done.
Qed.
Lemma recv_texts_frames max_len msgs : max_len <= INT32_MAX -> Forall (fun m => alen m <= max_len) msgs -> forall d out c,
  reads c (concat (map frame_bytes (text_frames d msgs))) -> exists c', recv_texts (length msgs) max_len out c = Some (msgs, c') /\ reads c' [].
Proof.
  intros M F. induction F as [|m msgs L F IH]; intros d out c R; [by exists c|]. cbn [text_frames map concat] in R.
  assert (K : frame_ok max_len (client_frame random_bytes d TEXT m)) by (split; [apply four|done]).
  destruct (recv_loop_frames os_send random_bytes' complete max_len [] _ _ M K eq_refl out c (S (left_to_read c)) ltac:(constructor) ltac:(constructor) ltac:(cbn; lia) R)
    as (r & out' & c' & E & Er & T & R' & _).
  destruct (IH (S d) out' c' R') as (c2 & E2 & R2). exists c2. split; [|done]. cbn [length recv_texts]. unfold recv_text. rewrite E. cbn [mbind option_bind].
  cbn in Er. injection Er as ->. pose proof (alen_nonneg m). replace (alen m <? 0) with false by lia. rewrite E2. cbn [mbind option_bind].
  unfold alen. rewrite Nat2Z.id. cbn in T. by rewrite T.
Qed.
End pair.

(** *** The handshake *)

Lemma recv_headers_stops hs rest room : forall got c, reads c (hs ++ rest) -> (length hs <= room)%nat ->
  (forall k, (0 < k < length hs)%nat -> headers_end (got ++ take k hs) = false) -> headers_end (got ++ hs) = true -> hs <> [] ->
  exists c', recv_headers room got c = (Some (got ++ hs), c') /\ reads c' rest /\ same_but_input c c'.
Proof.
  revert room. induction hs as [|b hs IH]; intros room got c R L N E Ne; [done|]. destruct room as [|room]; [cbn in L; lia|].
  cbn [recv_headers]. destruct (recv_reads 1 c _ R) as (bs & c1 & -> & Hb & Lb & S1 & s' & Es & R1); [done|lia|].
  destruct bs as [|b' [|]]; [done| |cbn in Lb; lia]. injection Es as <- Es. subst s'. destruct hs as [|b2 hs].
  - cbn [app] in *. rewrite E. by exists c1.
  - pose proof (N 1%nat ltac:(cbn; lia)) as N1. cbn [take] in N1. rewrite N1.
    destruct (IH room (got ++ [b]) c1 R1) as (c2 & E2 & R2 & S2); [cbn in *; lia| | |done|].
    + intros k Hk. specialize (N (S k) ltac:(cbn in *; lia)). by rewrite <- app_assoc.
    + by rewrite <- app_assoc.
    + rewrite <- app_assoc in E2. exists c2. split; [exact E2|]. split; [done|]. by etrans.
Qed.

(** ** Properties *)

(** C34: [recv_text] over the frames a peer sends, in whatever pieces they
    arrive: pings, pongs, continuations and unknown frames are passed over, the
    payload of the first text or binary frame, unmasked if it was masked, is in
    the caller's buffer and its length returned, 0 for a close; every ping has
    been answered by a pong and the close by a close, with the same payload;
    the stream is left exactly behind the frame. *)
Theorem ws_recv_text_frames os_send random_bytes fs f rest max_len out c :
  (forall k n, os_send k n = Z.of_nat n) -> max_len <= INT32_MAX ->
  Forall (frame_ok max_len) fs -> frame_ok max_len f -> Forall (fun g => final g = false) fs -> final f = true ->
  reads c (concat (map frame_bytes fs) ++ frame_bytes f ++ rest) ->
  exists r out' c', recv_text os_send random_bytes max_len out c = Some (r, out', c') /\ Some r = result_of f /\
    take (length (fr_payload f)) out' = fr_payload f /\ reads c' rest /\
    outgoing c' = outgoing c ++ replies random_bytes (draws c) (fs ++ [f]).
Proof.
  intros Comp M K Kf F Ff R. unfold recv_text. apply recv_loop_frames; try done. pose proof (frames_fuel max_len fs c _ M K R). lia.
Qed.
(** C35: texts sent by one client come out of another, one per call, in order
    and unchanged, however the kernel cuts the stream into pieces. *)
Theorem ws_texts_roundtrip os_send random_bytes random_bytes' msgs max_len out a b :
  (forall k n, os_send k n = Z.of_nat n) -> (forall k, length (random_bytes k 4%nat) = 4%nat) ->
  max_len <= INT32_MAX -> Forall (fun m => alen m <= max_len) msgs -> outgoing a = [] ->
  reads b (outgoing (send_texts os_send random_bytes msgs a)) ->
  exists b', recv_texts os_send random_bytes' (length msgs) max_len out b = Some (msgs, b') /\ reads b' [].
Proof.
  intros Comp Four M F E R. rewrite (send_texts_frames os_send random_bytes Comp max_len) in R by done. rewrite E in R. by eapply recv_texts_frames.
Qed.

(** the handshake takes from the stream the response up to its blank line
    and not a byte more, so that frames sent right behind it are kept: for a
    response of no more than 1023 bytes, and a request that fits its buffer. *)
Lemma ws_connect_keeps_frames os_send random_bytes fd host port path c hs rest :
  (forall k n, os_send k n = Z.of_nat n) -> 0 <= fd ->
  alen (upgrade_request host port path (gen_sec_websocket_key (random_bytes (draws c) 16%nat))) < REQ_SIZE ->
  reads c (hs ++ rest) -> (length hs <= 1023)%nat ->
  (forall k, (0 < k < length hs)%nat -> headers_end (take k hs) = false) -> headers_end hs = true ->
  exists c', connect os_send random_bytes fd true true host port path c = Some (bool_decide (take 12 hs = switching), c') /\
    reads c' rest /\ is_open c' = bool_decide (take 12 hs = switching) /\
    outgoing c' = outgoing c ++ upgrade_request host port path (gen_sec_websocket_key (random_bytes (draws c) 16%nat)).
Proof.
  intros Comp Hfd Hreq R L N E. unfold connect. replace (fd <? 0) with false by lia. cbn [negb orb]. unfold draw. cbn [draws].
  set (req := upgrade_request _ _ _ _) in *. set (c0 := c <| fd_ := fd |> <| draws ::= S |>).
  replace (REQ_SIZE <? alen req) with false by lia. replace (REQ_SIZE =? alen req) with false by lia.
  destruct (send_emitted os_send Comp req c0) as (c1 & -> & [O1 I1 F1 _]). cbn [negb].
  assert (Ne : hs <> []) by (intros ->; by vm_compute in E).
  destruct (recv_headers_stops hs rest (RESP_SIZE - 1) [] c1) as (c2 & -> & R2 & [i ->]); try done; [by split; rewrite I1; apply R|].
  cbn [app]. case_bool_decide.
  - eexists. split; [reflexivity|]. split; [done|]. split; [|done]. unfold is_open. cbn. rewrite F1. cbn. lia.
  - eexists. split; [reflexivity|]. unfold close. cbn. rewrite F1. cbn. replace (0 <=? fd) with true by lia. done.
Qed.

(** ** Concrete connections *)

Definition all_sent (k n : nat) : Z := Z.of_nat n.
Definition fixed_bytes (k n : nat) : list Z := (fun i => (17 * Z.of_nat (k + i) + 201) mod 256) <$> seq 0 n.
Definition fed (pieces : list (list Z)) : WsClient := mkWs 3 pieces [] 0 0.
Definition ping_frame : Frame := mkFrame 137 None (lit "hb").
Definition text_frame : Frame := mkFrame 129 (Some [1; 2; 3; 4]) (lit "tick 42").
(** A stream cut into pieces of three bytes. *)
Fixpoint cut (fuel : nat) (s : list Z) : list (list Z) :=
  match fuel, s with S fuel, _ :: _ => take 3 s :: cut fuel (drop 3 s) | _, _ => [] end.
Definition demo_stream : list Z := frame_bytes ping_frame ++ frame_bytes text_frame ++ [129; 5].
Lemma ws_recv_text_frames_witness :
  fst <$> recv_text all_sent fixed_bytes 64 [] (fed (cut 40 demo_stream)) = Some (7, lit "tick 42") /\
  exists r out' c', recv_text all_sent fixed_bytes 64 [] (fed (cut 40 demo_stream)) = Some (r, out', c') /\ Some r = result_of text_frame /\
    take 7 out' = lit "tick 42" /\ reads c' [129; 5] /\ outgoing c' = [] ++ replies fixed_bytes 0 ([ping_frame] ++ [text_frame]).
Proof.
  split; [vm_compute; reflexivity|].
  apply (ws_recv_text_frames all_sent fixed_bytes [ping_frame] text_frame [129; 5] 64 [] (fed (cut 40 demo_stream)));
    [done|done|repeat constructor; done|by constructor|by repeat constructor|done|split; [|reflexivity]]. vm_compute. repeat constructor; discriminate.
Defined.
Definition demo_msgs : list (list Z) := [lit "first"; []; lit "third"].
Lemma ws_texts_roundtrip_witness : exists b', recv_texts all_sent fixed_bytes 3 100 [] (fed (cut 40 (outgoing (send_texts all_sent fixed_bytes demo_msgs (fed []))))) = Some (demo_msgs, b') /\ reads b' [].
Proof.
  apply (ws_texts_roundtrip all_sent fixed_bytes fixed_bytes demo_msgs 100 [] (fed [])); [done|by intros k|done|repeat constructor; done|done|].
  split; [vm_compute; repeat constructor; discriminate|by vm_compute].
Defined.
Definition demo_response : list Z := switching ++ lit " Switching Protocols" ++ crlf ++ crlf.
Lemma ws_connect_keeps_frames_witness : exists c',
  connect all_sent fixed_bytes 3 true true (lit "127.0.0.1") 9001 (lit "/ws") (fed [demo_response ++ [129; 1]; [65]]) = Some (true, c') /\ reads c' [129; 1; 65].
Proof.
  destruct (ws_connect_keeps_frames all_sent fixed_bytes 3 (lit "127.0.0.1") 9001 (lit "/ws") (fed [demo_response ++ [129; 1]; [65]]) demo_response [129; 1; 65])
    as (c' & E & R & _); [done|lia|by vm_compute| |vm_compute; lia| |by vm_compute|].
  - split; [|reflexivity]. vm_compute. repeat constructor; discriminate.
  - assert (A : forallb (fun k => negb (headers_end (take k demo_response))) (seq 1 35) = true) by (vm_compute; reflexivity).
    rewrite forallb_forall in A. change (length demo_response) with 36%nat. intros k Hk. specialize (A k ltac:(apply in_seq; lia)). by apply negb_true_iff in A.
  - exists c'. split; [|done]. by rewrite E.
Defined.

(** A response longer than the buffer is cut in the middle of its headers,
    and the handshake succeeds all the same: the first byte left is a header's. *)
Definition long_response : list Z := switching ++ crlf ++ replicate 1100 88 ++ crlf ++ crlf.
Example ws_long_response :
  (fun r => (r.1, take 3 (concat (incoming r.2)))) <$> connect all_sent fixed_bytes 3 true true (lit "127.0.0.1") 9001 (lit "/ws") (fed [long_response]) = Some (true, [88; 88; 88]).
Proof. vm_compute. reflexivity. Qed.
(** A request longer than its buffer is sent from behind the buffer. *)
Example ws_long_path : connect all_sent fixed_bytes 3 true true (lit "127.0.0.1") 9001 (replicate 500 97) (fed [demo_response]) = None.
Proof. vm_compute. reflexivity. Qed.
(** An empty text is returned as a close is. *)
Example ws_empty_text :
  (fun r => r.1.1) <$> recv_text all_sent fixed_bytes 64 [] (fed [frame_bytes (mkFrame 129 None [])]) =
  (fun r => r.1.1) <$> recv_text all_sent fixed_bytes 64 [] (fed [frame_bytes (mkFrame 136 None [])]).
Proof. reflexivity. Qed.
(** The end of the stream is an error. *)
Example ws_end_of_stream : (fun r => r.1.1) <$> recv_text all_sent fixed_bytes 64 [] (fed []) = Some (-1).
Proof. reflexivity. Qed.
