(* ===== verification/Cluster.v ===== *)
(** * Cluster: many symbols, a full order book each

    [orderbook/orderbook_pro_cluster.hpp]: [BookCluster], the table of symbols
    and books, the sums over it, its snapshot and the search for crossed pairs
    of symbols.  The three arrays are one list of slots. *)
From S2P Require Import Prelude Double Common Bytes LadderTypes LadderTrades LadderSamples Ladder LadderOps LadderViews LadderReach LadderWire.

Section cluster.
Context {env : BookEnv}.

Record Slot := mkSlot { sl_book : Book; sl_symbol : cstr; sl_used : bool }.
#[export] Instance eta_slot : Settable Slot := fun s => mkSlot (sl_book s) (sl_symbol s) (sl_used s).
Record BookCluster := mkCluster { slots_ : list Slot; active_count_ : Z }.
#[export] Instance eta_cluster : Settable BookCluster := fun c => mkCluster (slots_ c) (active_count_ c).
Definition new_cluster (N_SYMBOLS : nat) : BookCluster := mkCluster (replicate N_SYMBOLS (mkSlot new_book [] false)) 0.

(** [pack]: the characters before the terminator, 8 at most, from the lowest byte. *)
Fixpoint pack_loop (i : Z) (sym : cstr) (k : Z) : Z :=
  match sym with [] => k | ch :: sym => pack_loop (i + 1) sym (Z.lor k (Z.shiftl ch (i * 8))) end.
Definition pack (sym : cstr) : Z := pack_loop 0 (take 8 sym) 0.
(** The first slot that satisfies a test. *)
Fixpoint first_slot (test : Slot -> bool) (l : list Slot) (i : nat) : option nat :=
  match l with [] => None | s :: l => if test s then Some i else first_slot test l (S i) end.
Definition find_slot (c : BookCluster) (sym : cstr) : option nat :=
  let key := pack sym in first_slot (fun s => sl_used s && (pack (sl_symbol s) =? key)) (slots_ c) 0.
Definition register_symbol (c : BookCluster) (sym : cstr) : bool * BookCluster :=
  match find_slot c sym with
  | Some _ => (false, c)
  | None =>
      match first_slot (fun s => negb (sl_used s)) (slots_ c) 0 with
      | None => (false, c)
      | Some i => (true, c <| slots_ ::= alter (fun s => s <| sl_used := true |> <| sl_symbol := take 8 sym |>) i |> <| active_count_ ::= inc |>)
      end
  end.
Definition book (c : BookCluster) (sym : cstr) : option Book := i ← find_slot c sym; sl_book <$> slots_ c !! i.
(** What a caller does with the pointer that [book] returns. *)
Definition on_book (f : Book -> Book) (c : BookCluster) (sym : cstr) : BookCluster :=
  match find_slot c sym with
  | Some i => c <| slots_ ::= alter (fun s => s <| sl_book ::= f |>) i |>
  | None => c
  end.

(** ** Sums over the symbols *)

Definition used (c : BookCluster) : list Slot := filter sl_used (slots_ c).
Definition books (c : BookCluster) : list Book := sl_book <$> used c.
Definition sum_u64 (f : Book -> Z) (c : BookCluster) : Z := foldl (fun t b => add64 t (f b)) 0 (books c).
Definition total_volume_across_all : BookCluster -> Z := sum_u64 (fun b => total_volume (stats_ b)).
Definition total_active_orders : BookCluster -> Z := sum_u64 active_orders_.
Definition cluster_total_fills : BookCluster -> Z := sum_u64 (fun b => total_fills (stats_ b)).
Definition cluster_total_volume : BookCluster -> Z := sum_u64 (fun b => total_volume (stats_ b)).
Definition cluster_total_orders_added : BookCluster -> Z := sum_u64 (fun b => total_orders_added (stats_ b)).
Definition avg_spread_ticks (c : BookCluster) : Z :=
  let '(sum, cnt) := foldl (fun '(sum, cnt) b => let s := spread_ticks b in if 0 <=? s then (i64 (sum + s), i32 (cnt + 1)) else (sum, cnt)) (0, 0) (books c) in
  if 0 <? cnt then i32 (sum ÷ cnt) else -1.
Definition volume_weighted_avg_spread_ticks (c : BookCluster) : double :=
  let '(weighted, volume) := foldl (fun '(weighted, volume) b =>
      let s := spread_ticks b in let v := total_volume (stats_ b) in
      if (s <? 0) || (v =? 0) then (weighted, volume)
      else (i64 (u64 (u64 weighted + u64 (u64 s * v))), add64 volume v)) (0, 0) (books c) in
  if volume =? 0 then d_zero else ddiv (dbl_of_Z weighted) (dbl_of_Z volume).
Definition taker_buy_volume b : Z := taker_buy_volume_ (tm_flow (meters b)).
Definition taker_sell_volume b : Z := taker_sell_volume_ (tm_flow (meters b)).
Definition cluster_flow_imbalance_bps (c : BookCluster) : Z :=
  let buy := foldl (fun t b => i64 (t + i64 (taker_buy_volume b))) 0 (books c) in
  let sell := foldl (fun t b => i64 (t + i64 (taker_sell_volume b))) 0 (books c) in
  let total := i64 (buy + sell) in
  if total =? 0 then 0 else i32 (i64 (i64 (buy - sell) * 10000) ÷ total).
(** The first symbol of the largest value above [floor]. *)
Definition largest (f : Book -> Z) (floor : Z) (c : BookCluster) : option cstr :=
  (foldl (fun '(best, top) s => if top <? f (sl_book s) then (Some (sl_symbol s), f (sl_book s)) else (best, top)) (None, floor) (used c)).1.
Definition busiest_symbol : BookCluster -> option cstr := largest active_orders_ 0.
Definition most_imbalanced_symbol : BookCluster -> option cstr := largest (fun b => i32 (Z.abs (flow_imbalance_bps (tm_flow (meters b))))) (-1).

(** ** The snapshot of the cluster *)

Definition CLUSTER_SNAPSHOT_MAGIC : Z := 1279476303.
Definition CLUSTER_SNAPSHOT_VERSION : Z := 1.
Definition cluster_size_estimate (c : BookCluster) : Z := foldl (fun t b => u64 (t + 17 + snapshot_size_estimate b)) 16 (books c).
(** A symbol in its nine bytes. *)
Definition symbol_field (sym : cstr) : list Z := sym ++ replicate (9 - length sym) 0.
(** [None]: a book did not fit. *)
Fixpoint serialize_slots (l : list Slot) (off cap : Z) : option (list Z) :=
  match l with
  | [] => Some []
  | s :: l =>
      let snap := serialize_snapshot (sl_book s) (cap - (off + 9) - 8) in
      match snap with
      | [] => None
      | _ => tail ← serialize_slots l (off + 9 + 8 + alen snap) cap;
             Some (symbol_field (sl_symbol s) ++ le_bytes 8 (alen snap) ++ snap ++ tail)
      end
  end.
Definition serialize_cluster (c : BookCluster) (cap : Z) : list Z :=
  if cap <? cluster_size_estimate c then [] else
  match serialize_slots (used c) 16 cap with
  | None => []
  | Some l => le_bytes 4 CLUSTER_SNAPSHOT_MAGIC ++ le_bytes 4 CLUSTER_SNAPSHOT_VERSION ++ le_bytes 8 (active_count_ c) ++ l
  end.
Definition reset_cluster (c : BookCluster) : BookCluster :=
  mkCluster ((fun s => if sl_used s then s <| sl_book ::= clear |> <| sl_used := false |> else s) <$> slots_ c) 0.
(** The bytes of a [char[9]] up to its terminator. *)
Fixpoint c_str_of (l : list Z) : cstr := match l with [] => [] | b :: l => if b =? 0 then [] else b :: c_str_of l end.
(** Loading [n] symbols from the offset [off].  [None]: the check of a length
    has wrapped and the book is read from behind the buffer. *)
Fixpoint load_symbols (n : nat) (c : BookCluster) (buf : list Z) (off : Z) : option (bool * BookCluster) :=
  match n with
  | O => Some (true, c)
  | S n =>
      if alen buf <? off + 17 then Some (false, c) else
      field ← slice (Z.to_nat off) 8 buf; blen ← le_value <$> slice (Z.to_nat off + 9) 8 buf;
      let sym := c_str_of field in let off := off + 17 in
      if alen buf <? u64 (off + blen) then Some (false, c) else
      match register_symbol c sym with
      | (false, c) => Some (false, c)
      | (true, c) =>
          i ← find_slot c sym; s ← slots_ c !! i; snap ← (if alen buf <? off + blen then None else slice (Z.to_nat off) (Z.to_nat blen) buf);
          '(ok, b) ← load_snapshot (sl_book s) snap;
          let c := c <| slots_ ::= alter (fun s => s <| sl_book := b |>) i |> in
          if negb ok then Some (false, c) else load_symbols n c buf (u64 (off + blen))
      end
  end.
Definition load_cluster (c : BookCluster) (buf : list Z) : option (bool * BookCluster) :=
  if alen buf <? 16 then Some (false, c) else
  magic ← le_value <$> slice 0 4 buf; version ← le_value <$> slice 4 4 buf; count ← le_value <$> slice 8 8 buf;
  if negb (magic =? CLUSTER_SNAPSHOT_MAGIC) || negb (version =? CLUSTER_SNAPSHOT_VERSION) || (alen (slots_ c) <? count) then Some (false, c) else
  load_symbols (Z.to_nat count) (reset_cluster c) buf 16.

(** ** Crossed pairs *)

Record ArbOpportunity := mkArb {
  long_symbol : cstr; short_symbol : cstr; buy_price_ticks : Z; sell_price_ticks : Z; arb_spread_ticks : Z; max_qty : Z }.
Definition arb_of (si sj : Slot) : ArbOpportunity :=
  let bid_i := best_bid_ticks_ (sl_book si) in let ask_j := best_ask_ticks_ (sl_book sj) in
  mkArb (sl_symbol sj) (sl_symbol si) ask_j bid_i (i32 (bid_i - ask_j))
    (Z.min (tob_ask_qty (top_of_book (sl_book sj))) (tob_bid_qty (top_of_book (sl_book si)))).
(** The loop over [j], with [room] left in the caller's array. *)
Fixpoint arb_row (room : nat) (i : nat) (si : Slot) (l : list Slot) (j : nat) : list ArbOpportunity :=
  match room, l with
  | O, _ | _, [] => []
  | S room', sj :: l =>
      if (i =? j)%nat || negb (sl_used sj) || negb (has_ask (sl_book sj)) then arb_row room i si l (S j) else
      if best_ask_ticks_ (sl_book sj) <? best_bid_ticks_ (sl_book si) then arb_of si sj :: arb_row room' i si l (S j)
      else arb_row room i si l (S j)
  end.
Fixpoint arb_rows (room : nat) (all : list Slot) (l : list Slot) (i : nat) : list ArbOpportunity :=
  match room, l with
  | O, _ | _, [] => []
  | _, si :: l =>
      if negb (sl_used si) || negb (has_bid (sl_book si)) then arb_rows room all l (S i) else
      let row := arb_row room i si all 0 in row ++ arb_rows (room - length row) all l (S i)
  end.
Definition detect_cross_arb (c : BookCluster) (max_n : nat) : list ArbOpportunity := arb_rows max_n (slots_ c) (slots_ c) 0.
Definition count_cross_arb (c : BookCluster) : Z :=
  foldl (fun cnt '(i, si) =>
    if negb (sl_used si) || negb (has_bid (sl_book si)) then cnt else
    foldl (fun cnt '(j, sj) =>
      if (i =? j)%nat || negb (sl_used sj) || negb (has_ask (sl_book sj)) then cnt
      else if best_ask_ticks_ (sl_book sj) <? best_bid_ticks_ (sl_book si) then inc cnt else cnt)
      cnt (imap pair (slots_ c))) 0 (imap pair (slots_ c)).
(** ** The table of symbols *)

Lemma pack_key sym : pack sym = sym_to_key sym.
Proof.
  unfold pack, sym_to_key. assert (G : forall l i k, pack_loop i l k = sym_key_loop i l k); [|apply G].
  induction l as [|x l IH]; intros i k; cbn; [done|apply IH].
Qed.
Lemma pack_inj a b : c_string a -> c_string b -> (pack a =? pack b) = bool_decide (take 8 a = take 8 b).
Proof.
  intros A B. rewrite !pack_key. destruct (symbol_key_roundtrip a b A B) as (_ & E & _). unfold copy_sym in E.
  case_bool_decide as H; [apply Z.eqb_eq|apply Z.eqb_neq]; tauto.
Qed.
Lemma first_slot_some test l : forall k i, first_slot test l k = Some i ->
  exists j s, i = (k + j)%nat /\ l !! j = Some s /\ test s = true /\ (forall j' s', (j' < j)%nat -> l !! j' = Some s' -> test s' = false).
Proof.
  induction l as [|s l IH]; intros k i H; [done|]. cbn in H. destruct (test s) eqn:T.
  - injection H as <-. exists 0%nat, s. split; [lia|]. split; [done|]. split; [done|]. intros j' s' Hj. lia.
  - destruct (IH _ _ H) as (j & s' & -> & L & T' & F). exists (S j), s'. split; [lia|]. split; [done|]. split; [done|].
    intros [|j'] s2 Hj L2; [by injection L2 as <-|]. apply (F j'); [lia|done].
Qed.
Lemma first_slot_none test l : forall k, first_slot test l k = None <-> forall j s, l !! j = Some s -> test s = false.
Proof.
  induction l as [|s l IH]; intros k; cbn; [by split|]. destruct (test s) eqn:T.
  - split; [done|]. intros H. specialize (H 0%nat s eq_refl). congruence.
  - rewrite IH. split; intros H; [|intros j s' L; by apply (H (S j))]. intros [|j] s' L; [by injection L as <-|by apply (H j)].
Qed.
(** Distinct symbols of one to eight characters, and the count of them. *)
Record cluster_wf (c : BookCluster) : Prop := {
  cw_names : forall i s, slots_ c !! i = Some s -> sl_used s = true -> c_string (sl_symbol s) /\ (length (sl_symbol s) <= 8)%nat;
  cw_keys : forall i j s t, slots_ c !! i = Some s -> slots_ c !! j = Some t -> sl_used s = true -> sl_used t = true ->
    sl_symbol s = sl_symbol t -> i = j;
  cw_count : active_count_ c = alen (used c);
  cw_size : alen (slots_ c) < 2 ^ 64 }.
(** The slot [i] holds the symbol, as far as eight characters tell. *)
Definition holds (c : BookCluster) (i : nat) (sym : cstr) (b : Book) : Prop :=
  exists s, slots_ c !! i = Some s /\ sl_used s = true /\ sl_symbol s = take 8 sym /\ sl_book s = b.
Lemma find_slot_test c s sym i : cluster_wf c -> c_string sym -> slots_ c !! i = Some s ->
  (sl_used s && (pack (sl_symbol s) =? pack sym)) = true <-> sl_used s = true /\ sl_symbol s = take 8 sym.
Proof.
  intros W K L. destruct (sl_used s) eqn:U; [|by cbn; split; [done|intros [? ?]]]. destruct (cw_names c W i s L U) as [N1 N2]. cbn [andb].
  rewrite pack_inj by done. rewrite bool_decide_eq_true, (take_ge (sl_symbol s)) by done. tauto.
Qed.
Lemma find_slot_holds c sym i : cluster_wf c -> c_string sym -> find_slot c sym = Some i <-> exists b, holds c i sym b.
Proof.
  intros W K. unfold find_slot. cbv zeta. split.
  - intros H. destruct (first_slot_some _ _ _ _ H) as (j & s & -> & L & T & _). apply (find_slot_test c s sym j W K L) in T as [U E].
    exists (sl_book s), s. by split_and!.
  - intros (b & s & L & U & E & _). destruct (first_slot _ (slots_ c) 0) as [k|] eqn:H.
    + destruct (first_slot_some _ _ _ _ H) as (j & t & -> & L' & T & _). apply (find_slot_test c t sym j W K L') in T as [U' E'].
      f_equal. cbn. apply (cw_keys c W j i t s L' L U' U). congruence.
    + rewrite first_slot_none in H. specialize (H i s L). cbv beta in H. assert (T : sl_used s = true /\ sl_symbol s = take 8 sym) by done.
      apply (find_slot_test c s sym i W K L) in T. congruence.
Qed.
Lemma book_holds c sym b : cluster_wf c -> c_string sym -> book c sym = Some b <-> exists i, holds c i sym b.
Proof.
  intros W K. unfold book. split.
  - destruct (find_slot c sym) as [i|] eqn:F; [|done]. cbn. apply find_slot_holds in F as (b' & s & L & U & E & B); [|done|done].
    rewrite L. cbn. intros [= <-]. exists i, s. by split_and!.
  - intros (i & H). assert (F : find_slot c sym = Some i) by (apply find_slot_holds; [done|done|by exists b]). rewrite F.
    destruct H as (s & L & U & E & B). cbn. rewrite L. cbn. by rewrite B.
Qed.
Lemma used_alter f i l s : l !! i = Some s -> sl_used s = false -> sl_used (f s) = true -> length (filter sl_used (alter f i l)) = S (length (filter sl_used l)).
Proof.
  intros L U U'. revert i L. induction l as [|t l IH]; intros [|i] L; [done|done| |].
  - injection L as ->. change (alter f 0%nat (s :: l)) with (f s :: l). rewrite !filter_cons. rewrite U, U'. done.
  - change (alter f (S i) (t :: l)) with (t :: alter f i l). rewrite !filter_cons. specialize (IH i L). destruct (decide (sl_used t)); cbn [length]; by rewrite IH.
Qed.
Lemma used_same_length l l' : sl_used <$> l = sl_used <$> l' -> length (filter sl_used l) = length (filter sl_used l').
Proof.
  revert l'. induction l as [|s l IH]; intros [|t l'] E; try done. cbn in E. injection E as E1 E2. rewrite !filter_cons, E1.
  destruct (decide (sl_used t)); cbn [length]; by rewrite (IH _ E2).
Qed.
Lemma lookup_alter_slot f (l : list Slot) i j s : alter f i l !! j = Some s -> exists t, l !! j = Some t /\ (i = j /\ s = f t \/ i <> j /\ s = t).
Proof.
  destruct (decide (i = j)) as [<-|N]; [|rewrite list_lookup_alter_ne by done; intros; exists s; tauto].
  rewrite list_lookup_alter_eq. intros E. apply fmap_Some in E as (t & E & ->). exists t. tauto.
Qed.
Definition with_slots (c : BookCluster) (f : Slot -> Slot) (i : nat) : BookCluster := c <| slots_ ::= alter f i |>.
Lemma wf_alter_book c f i : cluster_wf c -> cluster_wf (with_slots c (fun s => s <| sl_book ::= f |>) i).
Proof.
  intros [W1 W2 W3 W4]. split; cbn.
  - intros j s L U. destruct (lookup_alter_slot _ _ _ _ _ L) as (t & L' & [[-> ->]|[N ->]]); exact (W1 _ _ L' U).
  - intros j k s t L L' U U' E. destruct (lookup_alter_slot _ _ _ _ _ L) as (s1 & L1 & H1), (lookup_alter_slot _ _ _ _ _ L') as (t1 & L2 & H2).
    apply (W2 j k s1 t1 L1 L2); destruct H1 as [[_ ->]|[_ ->]], H2 as [[_ ->]|[_ ->]]; done.
  - rewrite W3. unfold used, alen. cbn. f_equal. apply used_same_length. symmetry. apply list_eq. intros j. rewrite !list_lookup_fmap.
    destruct (decide (i = j)) as [<-|N]; [|by rewrite list_lookup_alter_ne]. rewrite list_lookup_alter_eq. by destruct (slots_ c !! i).
  - unfold alen in *. by rewrite length_alter.
Qed.
Lemma holds_alter_book c f i j sym b : holds (with_slots c (fun s => s <| sl_book ::= f |>) i) j sym b <->
  if decide (i = j) then exists b0, holds c j sym b0 /\ b = f b0 else holds c j sym b.
Proof.
  unfold holds, with_slots. cbn. destruct (decide (i = j)) as [<-|N]; [|by rewrite list_lookup_alter_ne]. rewrite list_lookup_alter_eq. split.
  - intros (s & L & U & E & B). apply fmap_Some in L as (t & L & ->). exists (sl_book t). cbn in *. split; [by exists t|done].
  - intros (b0 & (s & L & U & E & B) & ->). rewrite L. eexists. split; [reflexivity|]. cbn. by rewrite B.
Qed.
Lemma book_unique c i j sym b b' : cluster_wf c -> holds c i sym b -> holds c j sym b' -> i = j /\ b = b'.
Proof.
  intros W (s & L & U & E & B) (t & L' & U' & E' & B'). assert (i = j) as <- by (apply (cw_keys c W i j s t L L' U U'); congruence). split; [done|]. congruence.
Qed.
Lemma book_spec c sym x : cluster_wf c -> c_string sym -> (forall b, x = Some b <-> exists i, holds c i sym b) -> book c sym = x.
Proof.
  intros W K H. destruct x as [b|]; [apply book_holds; [done|done|by apply H]|].
  destruct (book c sym) as [b|] eqn:E; [|done]. apply book_holds in E; [|done|done]. by apply H in E.
Qed.
(** Changing one symbol's book changes that book. *)
Lemma on_book_wf f c sym : cluster_wf c -> cluster_wf (on_book f c sym).
Proof. intros W. unfold on_book. destruct (find_slot c sym); [by apply wf_alter_book|done]. Qed.
Lemma book_on_book f c sym sym' : cluster_wf c -> c_string sym -> c_string sym' ->
  book (on_book f c sym) sym' = if decide (take 8 sym' = take 8 sym) then f <$> book c sym else book c sym'.
Proof.
  intros W K K'. apply book_spec; [by apply on_book_wf|done|]. unfold on_book. destruct (find_slot c sym) as [i|] eqn:F.
  - pose proof F as F'. apply find_slot_holds in F as [b0 H0]; [|done|done]. intros b. fold (with_slots c (fun s => s <| sl_book ::= f |>) i).
    setoid_rewrite holds_alter_book. assert (S : take 8 sym' = take 8 sym -> forall j x, holds c j sym' x <-> holds c j sym x) by (intros E j x; unfold holds; by rewrite E).
    destruct (decide (take 8 sym' = take 8 sym)) as [E|N].
    + assert (Bk : book c sym = Some b0) by (apply book_holds; [done|done|by exists i]). rewrite Bk. cbn. specialize (S E). split.
      * intros [= <-]. exists i. rewrite decide_True by done. exists b0. by split; [apply S|].
      * intros (j & Hj). destruct (decide (i = j)) as [<-|Nj]; [destruct Hj as (b1 & H1%S & ->); destruct (book_unique c _ _ _ _ _ W H0 H1) as [_ ->]; done|].
        apply S in Hj. by destruct (book_unique c _ _ _ _ _ W H0 Hj).
    + rewrite book_holds by done. split; intros (j & Hj).
      * exists j. destruct (decide (i = j)) as [<-|Nj]; [|done]. exfalso. destruct H0 as (s & L & _ & E0 & _), Hj as (t & L' & _ & E1 & _). congruence.
      * exists j. destruct (decide (i = j)) as [<-|Nj]; [|done]. destruct Hj as (b1 & Hb & _). exfalso. destruct H0 as (s & L & _ & E0 & _), Hb as (t & L' & _ & E1 & _). congruence.
  - intros b. assert (N : book c sym = None) by (unfold book; by rewrite F). destruct (decide (take 8 sym' = take 8 sym)) as [E|].
    + rewrite N. split; [done|]. intros (j & Hj). assert (Bk : book c sym = Some b) by (apply book_holds; [done|done|exists j; unfold holds in *; by rewrite <- E]). congruence.
    + by rewrite book_holds.
Qed.
Lemma used_lt c i s : slots_ c !! i = Some s -> sl_used s = false -> (length (used c) < length (slots_ c))%nat.
Proof. intros L U. apply (length_filter_lt _ _ s); [by eapply list_elem_of_lookup_2|rewrite U; by intros []]. Qed.
Lemma used_full c : (forall j s, slots_ c !! j = Some s -> negb (sl_used s) = false) -> length (used c) = length (slots_ c).
Proof.
  unfold used. induction (slots_ c) as [|s l IH]; intros H; [done|]. pose proof (H 0%nat s eq_refl) as U. apply negb_false_iff in U.
  rewrite filter_cons_True by (by rewrite U). cbn. f_equal. apply IH. intros j t L. by apply (H (S j)).
Qed.
Lemma take_8_string sym : c_string sym -> c_string (take 8 sym) /\ (length (take 8 sym) <= 8)%nat.
Proof. intros K. split; [by apply c_string_take|rewrite length_take; lia]. Qed.
(** A new symbol goes into a free slot, if there is one, and disturbs no other. *)
Lemma register_spec c sym : cluster_wf c -> c_string sym -> let '(r, c') := register_symbol c sym in
  r = bool_decide (book c sym = None /\ active_count_ c < alen (slots_ c)) /\
  (if r then cluster_wf c' /\ active_count_ c' = active_count_ c + 1 /\ alen (slots_ c') = alen (slots_ c) /\ (exists b, book c' sym = Some b) /\
     forall sym', c_string sym' -> take 8 sym' <> take 8 sym -> book c' sym' = book c sym'
   else c' = c).
Proof.
  intros W K. unfold register_symbol. destruct (find_slot c sym) as [i|] eqn:F.
  { split; [|done]. symmetry. apply bool_decide_eq_false. intros [N _]. apply find_slot_holds in F as [b H]; [|done|done].
    assert (book c sym = Some b) by (apply book_holds; [done|done|by exists i]). congruence. }
  assert (N : book c sym = None) by (unfold book; by rewrite F). pose proof (cw_count c W) as Cn. pose proof (cw_size c W) as Sz. unfold alen in *.
  assert (New : forall s j, slots_ c !! j = Some s -> sl_used s = true -> sl_symbol s = take 8 sym -> False).
  { intros s j L U E. assert (H : find_slot c sym = Some j) by (apply find_slot_holds; [done|done|exists (sl_book s), s; by split_and!]). congruence. }
  destruct (first_slot _ (slots_ c) 0) as [i|] eqn:G.
  2: { rewrite first_slot_none in G. pose proof (used_full c G). split; [|done]. symmetry. apply bool_decide_eq_false. lia. }
  destruct (first_slot_some _ _ _ _ G) as (j & s & -> & L & U%negb_true_iff & _). cbn [Nat.add] in *. pose proof (used_lt c j s L U) as Lt.
  split; [symmetry; apply bool_decide_eq_true; split; [done|lia]|]. destruct (take_8_string sym K) as [T1 T2].
  set (f := fun s => s <| sl_used := true |> <| sl_symbol := take 8 sym |>).
  assert (W' : cluster_wf (c <| slots_ ::= alter f j |> <| active_count_ ::= inc |>)).
  { destruct W as [W1 W2 W3 W4]. split; cbn.
    - intros k t Lk Uk. destruct (lookup_alter_slot _ _ _ _ _ Lk) as (t0 & L0 & [[-> ->]|[? ->]]); [done|exact (W1 _ _ L0 Uk)].
    - intros k m t u Lk Lm Uk Um E. destruct (lookup_alter_slot _ _ _ _ _ Lk) as (t0 & L1 & H1), (lookup_alter_slot _ _ _ _ _ Lm) as (u0 & L2 & H2).
      destruct H1 as [[<- ->]|[N1 ->]], H2 as [[<- ->]|[N2 ->]]; [done| | |by apply (W2 k m t0 u0)]; exfalso; cbn in E.
      + by apply (New u0 m).
      + by apply (New t0 k).
    - unfold used, alen. cbn. rewrite (used_alter f j (slots_ c) s L U eq_refl). unfold inc. rewrite W3. fold (used c). unfold alen. rewrite u64_small by lia. lia.
    - unfold alen. by rewrite length_alter. }
  assert (Hold : forall k y b, holds (c <| slots_ ::= alter f j |> <| active_count_ ::= inc |>) k y b <-> (k = j /\ take 8 y = take 8 sym /\ b = sl_book s) \/ (k <> j /\ holds c k y b)).
  { intros k y b. unfold holds. cbn. split.
    - intros (t & Lk & Uk & Ek & Bk). destruct (lookup_alter_slot _ _ _ _ _ Lk) as (t0 & L0 & [[<- ->]|[Nk ->]]); [left|right; split; [done|by exists t0]].
      cbn in *. rewrite L in L0. injection L0 as <-. done.
    - intros [(-> & E & ->)|[Nk (t & Lk & R)]]; [exists (f s)|exists t].
      + rewrite list_lookup_alter_eq, L. by split_and!.
      + by rewrite list_lookup_alter_ne. }
  split_and!; [exact W'|cbn; unfold inc; rewrite u64_small; lia|by cbn; rewrite length_alter| |].
  - exists (sl_book s). apply book_holds; [done|done|]. exists j. apply Hold. by left.
  - intros y Ky Ny. apply book_spec; [done|done|]. intros b. rewrite book_holds by done. split; intros (k & Hk).
    + exists k. apply Hold. right. split; [|done]. intros ->. destruct Hk as (t & Lt' & Ut & _). congruence.
    + apply Hold in Hk as [(_ & E & _)|[_ Hk]]; [done|by exists k].
Qed.

(** *** The clusters that can be reached *)

Inductive ClusterOp := Register (sym : cstr) | UseBook (sym : cstr) (f : Book -> Book) | LoadCluster (buf : list Z).
Definition op_ok (o : ClusterOp) : Prop := match o with Register sym | UseBook sym _ => c_string sym | LoadCluster buf => bytes_ok buf end.
Definition run_op (c : BookCluster) (o : ClusterOp) : option BookCluster :=
  match o with
  | Register sym => Some (register_symbol c sym).2
  | UseBook sym f => Some (on_book f c sym)
  | LoadCluster buf => snd <$> load_cluster c buf
  end.
Inductive reached (n : nat) : BookCluster -> Prop :=
| reached_new : reached n (new_cluster n)
| reached_op c o c' : reached n c -> op_ok o -> run_op c o = Some c' -> reached n c'.

Lemma c_str_of_string l : bytes_ok l -> c_string (c_str_of l).
Proof. induction 1 as [|b l B L IH]; cbn; [constructor|]. unfold is_byte in B. destruct (Z.eqb_spec b 0); constructor; [lia|exact IH]. Qed.
Lemma load_symbols_wf n : forall c buf off ok c', bytes_ok buf -> cluster_wf c -> load_symbols n c buf off = Some (ok, c') -> cluster_wf c'.
Proof.
  induction n as [|n IH]; intros c buf off ok c' B W E; cbn [load_symbols] in E; [congruence|].
  destruct (alen buf <? off + 17); [congruence|]. destruct (slice (Z.to_nat off) 8 buf) as [field|] eqn:Sf; [|done]. cbn [mbind option_bind] in E.
  destruct (le_value <$> _) as [blen|]; [|done]. cbn [mbind option_bind] in E. destruct (alen buf <? u64 _); [congruence|].
  assert (Kf : c_string (c_str_of field)).
  { apply c_str_of_string. unfold slice in Sf. case_decide; [|done]. injection Sf as <-. by apply Forall_take, Forall_drop. }
  pose proof (register_spec c (c_str_of field) W Kf) as R. destruct (register_symbol c (c_str_of field)) as [[] c1]; [|destruct R as [_ ->]; congruence].
  destruct R as (_ & W1 & _). destruct (find_slot c1 _) as [i|]; [|done]. cbn [mbind option_bind] in E. destruct (slots_ c1 !! i) as [s|]; [|done].
  cbn [mbind option_bind] in E. destruct (if alen buf <? _ then None else _) as [snap|]; [|done]. cbn [mbind option_bind] in E.
  destruct (load_snapshot _ snap) as [[ok1 b]|]; [|done]. cbn [mbind option_bind] in E. pose proof (wf_alter_book c1 (fun _ => b) i W1) as W2.
  destruct ok1; cbn [negb] in E; [by eapply IH|]. injection E as _ <-. exact W2.
Qed.
Lemma unused_wf l : Forall (fun s => sl_used s = false) l -> alen l < 2 ^ 64 -> cluster_wf (mkCluster l 0).
Proof.
  intros F S. rewrite Forall_lookup in F. split; cbn; try done.
  - intros i s L U. specialize (F i s L). congruence.
  - intros i j s t L _ U. specialize (F i s L). congruence.
  - unfold used. cbn. assert (E : filter sl_used l = []); [|by rewrite E].
    clear S. induction l as [|s l IH]; [done|]. rewrite filter_cons_False; [|rewrite (F 0%nat s eq_refl); by intros []]. apply IH. intros i t L. by apply (F (S i)).
Qed.
Lemma reset_wf c : alen (slots_ c) < 2 ^ 64 -> cluster_wf (reset_cluster c).
Proof.
  intros S. apply unused_wf; [|unfold alen in *; by rewrite length_fmap]. apply Forall_fmap, Forall_forall. intros s _. cbn. by destruct (sl_used s) eqn:U.
Qed.
Lemma reached_wf n c : Z.of_nat n < 2 ^ 64 -> reached n c -> cluster_wf c.
Proof.
  intros N. induction 1 as [|c o c' R W K E].
  - apply unused_wf; [by apply Forall_replicate|unfold alen; by rewrite length_replicate].
  - destruct o as [sym|sym f|buf]; cbn in *.
    + injection E as <-. pose proof (register_spec c sym W K) as S. destruct (register_symbol c sym) as [[] c1]; [apply S|]. destruct S as [_ ->]. done.
    + injection E as <-. by apply on_book_wf.
    + apply fmap_Some in E as ([ok c1] & E & ->). unfold load_cluster in E. destruct (alen buf <? 16); [by injection E as _ <-|].
      apply bind_Some in E as (magic & _ & E). apply bind_Some in E as (version & _ & E). apply bind_Some in E as (count & _ & E).
      destruct (_ || _); [by injection E as _ <-|].
      eapply load_symbols_wf; [done| |exact E]. apply reset_wf. apply W.
Qed.

(** ** Crossed pairs *)

(** What the search is for: a bid of one symbol above the ask of another. *)
Definition crosses (i : nat) (si : Slot) (j : nat) (sj : Slot) : bool :=
  negb (i =? j)%nat && sl_used si && has_bid (sl_book si) && sl_used sj && has_ask (sl_book sj) &&
  (best_ask_ticks_ (sl_book sj) <? best_bid_ticks_ (sl_book si)).
Definition pairs_of (all : list Slot) (i : nat) (si : Slot) : list ArbOpportunity :=
  concat (imap (fun j sj => if crosses i si j sj then [arb_of si sj] else []) all).
Definition cross_pairs (c : BookCluster) : list ArbOpportunity := concat (imap (pairs_of (slots_ c)) (slots_ c)).

Lemma arb_row_pairs i si l : sl_used si = true -> has_bid (sl_book si) = true -> forall room j,
  arb_row room i si l j = take room (concat (imap (fun k sj => if crosses i si (j + k) sj then [arb_of si sj] else []) l)).
Proof.
  intros U B. induction l as [|sj l IH]; intros room j; [by destruct room|]. destruct room as [|room]; [by rewrite take_0|].
  rewrite imap_cons. cbn [concat arb_row]. rewrite Nat.add_0_r. unfold crosses at 1. rewrite U, B.
  assert (Sh : forall room, arb_row room i si l (S j) = take room (concat (imap ((fun k sj => if crosses i si (j + k) sj then [arb_of si sj] else []) ∘ S) l))).
  { intros m. rewrite IH. do 2 f_equal. apply imap_ext. intros k x _. cbn. by rewrite Nat.add_succ_r. }
  rewrite !Sh. destruct (i =? j)%nat, (sl_used sj), (has_ask (sl_book sj)); cbn [negb andb orb app]; try done. by destruct (_ <? _).
Qed.
Lemma pairs_of_dark all i si : sl_used si && has_bid (sl_book si) = false -> pairs_of all i si = [].
Proof.
  intros H. unfold pairs_of. assert (E : forall l (f : nat -> nat), concat (imap (fun k sj => if crosses i si (f k) sj then [arb_of si sj] else []) l) = []); [|apply (E all id)].
  induction l as [|x l IH]; intros f; [done|]. rewrite imap_cons. cbn [concat].
  replace (crosses i si (f 0%nat) x) with false; [exact (IH (f ∘ S))|]. unfold crosses. destruct (negb _); [|done]. cbn [andb]. by rewrite H.
Qed.
Lemma arb_rows_pairs all l : forall room i, arb_rows room all l i = take room (concat (imap (fun k si => pairs_of all (i + k) si) l)).
Proof.
  induction l as [|si l IH]; intros room i; [by destruct room|]. destruct room as [|room]; [by rewrite take_0|].
  rewrite imap_cons. cbn [concat arb_rows]. rewrite Nat.add_0_r. set (m := S room).
  assert (Sh : forall room, arb_rows room all l (S i) = take room (concat (imap ((fun k si => pairs_of all (i + k) si) ∘ S) l))).
  { intros r. rewrite IH. do 2 f_equal. apply imap_ext. intros k x _. cbn. by rewrite Nat.add_succ_r. }
  rewrite !Sh. destruct (negb (sl_used si) || negb (has_bid (sl_book si))) eqn:D.
  - rewrite pairs_of_dark; [done|]. by destruct (sl_used si), (has_bid (sl_book si)).
  - bsplit. rewrite arb_row_pairs by done. cbn [Nat.add]. fold (pairs_of all i si). rewrite take_app. f_equal. f_equal. rewrite length_take. lia.
Qed.
Definition count_row (i : nat) (si : Slot) (l : list (nat * Slot)) (cnt : Z) : Z :=
  foldl (fun cnt '(j, sj) =>
    if (i =? j)%nat || negb (sl_used sj) || negb (has_ask (sl_book sj)) then cnt
    else if best_ask_ticks_ (sl_book sj) <? best_bid_ticks_ (sl_book si) then inc cnt else cnt) cnt l.
Lemma inc_u64 x : inc (u64 x) = u64 (x + 1).
Proof. unfold inc. exact (wrapu_add_l 64 x 1). Qed.
Lemma count_row_pairs i si l : sl_used si = true -> has_bid (sl_book si) = true -> forall (f : nat -> nat) x,
  count_row i si (imap (fun k s => (f k, s)) l) (u64 x) = u64 (x + alen (concat (imap (fun k sj => if crosses i si (f k) sj then [arb_of si sj] else []) l))).
Proof.
  intros U B. induction l as [|sj l IH]; intros f x; [cbn; by rewrite Z.add_0_r|]. rewrite !imap_cons. cbn [concat]. unfold count_row. cbn [foldl]. fold (count_row i si).
  unfold crosses at 1. rewrite U, B, alen_app.
  destruct (i =? f 0)%nat, (sl_used sj), (has_ask (sl_book sj)); cbn [negb andb orb]; try exact (IH (f ∘ S) x).
  destruct (_ <? _); [|exact (IH (f ∘ S) x)]. rewrite inc_u64. change (alen [arb_of si sj]) with 1. rewrite Z.add_assoc. exact (IH (f ∘ S) (x + 1)).
Qed.
Lemma count_rows_pairs all l : forall (f : nat -> nat) x,
  foldl (fun cnt '(i, si) => if negb (sl_used si) || negb (has_bid (sl_book si)) then cnt else count_row i si (imap pair all) cnt) (u64 x) (imap (fun k s => (f k, s)) l) =
  u64 (x + alen (concat (imap (fun k si => pairs_of all (f k) si) l))).
Proof.
  induction l as [|si l IH]; intros f x; [cbn; by rewrite Z.add_0_r|]. rewrite !imap_cons. cbn [concat foldl]. rewrite alen_app.
  destruct (negb (sl_used si) || negb (has_bid (sl_book si))) eqn:D.
  - rewrite pairs_of_dark; [|by destruct (sl_used si), (has_bid (sl_book si))]. exact (IH (f ∘ S) x).
  - bsplit. pose proof (count_row_pairs (f 0%nat) si all ltac:(done) ltac:(done) id x) as R. change (imap (fun k s => (id k, s)) all) with (imap pair all) in R.
    rewrite R, Z.add_assoc. exact (IH (f ∘ S) _).
Qed.

(** ** The frame of the snapshot *)

Definition snapshot_of b : list Z := serialize_snapshot b (snapshot_size_estimate b).
Definition entry (s : Slot) : list Z := symbol_field (sl_symbol s) ++ le_bytes 8 (alen (snapshot_of (sl_book s))) ++ snapshot_of (sl_book s).
Lemma serialize_once b cap : serialize_snapshot b cap = [] \/ serialize_snapshot b cap = snapshot_of b.
Proof.
  unfold snapshot_of, serialize_snapshot. destruct (cap <? _); [by left|]. right. by rewrite Z.ltb_irrefl.
Qed.
Lemma serialize_slots_entries cap l : forall off bytes, serialize_slots l off cap = Some bytes -> bytes = concat (map entry l).
Proof.
  induction l as [|s l IH]; intros off bytes E; cbn [serialize_slots] in E; [by injection E as <-|].
  destruct (serialize_once (sl_book s) (cap - (off + 9) - 8)) as [N|N]; rewrite N in E; [done|]. destruct (snapshot_of (sl_book s)) as [|x snap] eqn:Sn; [done|].
  apply bind_Some in E as (tail & T & [= <-]). apply IH in T as ->. cbn [map concat]. unfold entry. rewrite Sn, <- !app_assoc. done.
Qed.
(** Registering each symbol and loading its book's snapshot, in turn. *)
Fixpoint load_each (l : list (cstr * list Z)) (c : BookCluster) : option (bool * BookCluster) :=
  match l with
  | [] => Some (true, c)
  | (sym, snap) :: l =>
      match register_symbol c sym with
      | (false, c) => Some (false, c)
      | (true, c) =>
          i ← find_slot c sym; s ← slots_ c !! i;
          '(ok, b) ← load_snapshot (sl_book s) snap;
          let c := c <| slots_ ::= alter (fun s => s <| sl_book := b |>) i |> in
          if negb ok then Some (false, c) else load_each l c
      end
  end.
Lemma c_str_field sym rest : c_string sym -> (length sym <= 8)%nat -> c_str_of (take 8 (symbol_field sym ++ rest)) = sym.
Proof.
  intros K L. unfold symbol_field. assert (Z9 : exists z, replicate (9 - length sym) 0 = 0 :: z) by (destruct (9 - length sym)%nat eqn:E; [lia|by eexists]). destruct Z9 as [z ->].
  revert L. generalize 8%nat. induction K as [|b s B K IH]; intros n L; cbn [app].
  - destruct n; [done|]. cbn. done.
  - destruct n; [cbn in L; lia|]. cbn [take c_str_of]. destruct (Z.eqb_spec b 0); [lia|]. f_equal. apply IH. cbn in L. lia.
Qed.
Lemma length_symbol_field sym : (length sym <= 8)%nat -> length (symbol_field sym) = 9%nat.
Proof. intros L. unfold symbol_field. rewrite length_app, length_replicate. lia. Qed.
Lemma load_symbols_entries rest l : Forall (fun s => c_string (sl_symbol s) /\ (length (sl_symbol s) <= 8)%nat) l -> forall pre c,
  alen (pre ++ concat (map entry l) ++ rest) < 2 ^ 64 ->
  load_symbols (length l) c (pre ++ concat (map entry l) ++ rest) (alen pre) = load_each (map (fun s => (sl_symbol s, snapshot_of (sl_book s))) l) c.
Proof.
  induction 1 as [|s l [K L] F IH]; intros pre c B; [done|]. cbn [map concat length load_symbols load_each].
  set (snap := snapshot_of (sl_book s)) in *. unfold entry in *. fold snap in B |- *. cbn [map concat] in B. fold snap in B.
  set (tail := concat (map _ l)) in *. set (f := symbol_field (sl_symbol s)) in *. assert (Lf : length f = 9%nat) by (by apply length_symbol_field).
  set (lb := le_bytes 8 (alen snap)) in *. assert (Ll : length lb = 8%nat) by apply length_le_bytes.
  set (buf := pre ++ ((f ++ lb ++ snap) ++ tail) ++ rest) in *.
  assert (Eb : buf = pre ++ f ++ lb ++ snap ++ tail ++ rest) by (unfold buf; by rewrite <- !app_assoc).
  assert (Al : alen buf = alen pre + 17 + alen snap + alen tail + alen rest).
  { rewrite Eb. unfold alen. rewrite !length_app, Lf, Ll. lia. }
  pose proof (alen_nonneg pre); pose proof (alen_nonneg snap); pose proof (alen_nonneg tail); pose proof (alen_nonneg rest).
  replace (alen buf <? alen pre + 17) with false by lia.
  assert (Tp : Z.to_nat (alen pre) = length pre) by (unfold alen; lia).
  assert (S1 : slice (Z.to_nat (alen pre)) 8 buf = Some (take 8 (f ++ lb ++ snap ++ tail ++ rest))).
  { rewrite Tp, Eb. rewrite slice_some by (rewrite !length_app, Lf; lia). by rewrite drop_app_length. }
  assert (S2 : slice (Z.to_nat (alen pre) + 9) 8 buf = Some lb).
  { rewrite Tp, Eb, slice_after. rewrite (slice_skip_n 9 8 f _ 9 0) by done. by apply slice_here. }
  rewrite S1. cbn [mbind option_bind]. rewrite S2. cbn [fmap option_fmap option_map mbind option_bind].
  unfold f. rewrite c_str_field by done. unfold lb. rewrite le_value_small by (change (256 ^ Z.of_nat 8) with (2 ^ 64); lia).
  rewrite u64_small by lia. replace (alen buf <? alen pre + 17 + alen snap) with false by lia.
  assert (S3 : slice (Z.to_nat (alen pre + 17)) (Z.to_nat (alen snap)) buf = Some snap).
  { replace (Z.to_nat (alen pre + 17)) with (length pre + 17)%nat by lia. rewrite Eb, slice_after. rewrite (slice_skip_n 17 _ f _ 9 8), (slice_skip_n 8 _ lb _ 8 0) by done.
    apply slice_here. unfold alen. lia. }
  rewrite S3. destruct (register_symbol c (sl_symbol s)) as [[] c1]; [|done]. destruct (find_slot c1 (sl_symbol s)) as [i|]; [|done]. cbn [mbind option_bind].
  destruct (slots_ c1 !! i) as [t|]; [|done]. cbn [mbind option_bind]. destruct (load_snapshot (sl_book t) snap) as [[[] b]|]; [|done|done]. cbn [mbind option_bind negb].
  assert (Ep : buf = (pre ++ f ++ lb ++ snap) ++ tail ++ rest) by (rewrite Eb; by rewrite <- !app_assoc).
  rewrite Ep in B |- *. rewrite <- (IH (pre ++ f ++ lb ++ snap)) by exact B. f_equal. unfold alen. rewrite !length_app, Lf, Ll. lia.
Qed.
End cluster.

(** ** Properties *)

(** C36: in every cluster reached by registering symbols, working on their books
    and loading snapshots, [register_symbol] succeeds exactly for a symbol that
    is not there while a slot is free, a symbol being its first eight
    characters; it then has a book and every other symbol keeps its own; work on
    one symbol's book changes that book and no other; the count is exact. *)
Theorem cluster_symbols_isolated `{env : BookEnv} n c sym f :
  Z.of_nat n < 2 ^ 64 -> reached n c -> c_string sym ->
  let '(r, c') := register_symbol c sym in
  active_count_ c = alen (used c) /\
  r = bool_decide (book c sym = None /\ active_count_ c < alen (slots_ c)) /\
  (if r then active_count_ c' = active_count_ c + 1 /\ is_Some (book c' sym) /\
     forall other, c_string other -> take 8 other <> take 8 sym -> book c' other = book c other
   else c' = c) /\
  forall other, c_string other -> book (on_book f c sym) other = if decide (take 8 other = take 8 sym) then f <$> book c sym else book c other.
Proof.
  intros N R K. pose proof (reached_wf n c N R) as W. pose proof (register_spec c sym W K) as S. destruct (register_symbol c sym) as [r c'].
  destruct S as [S1 S2]. split; [apply W|]. split; [done|]. split; [|intros other Ko; by apply book_on_book].
  destruct r; [|done]. destruct S2 as (_ & S3 & _ & [b Hb] & S4). split_and!; [done|by exists b|done].
Qed.

(** the search for crossed pairs fills the caller's array with the first of
    all pairs of different registered symbols of which one's bid is above the
    other's ask, in the order of the slots; the count is the number of them all. *)
Lemma cluster_arb_exact `{env : BookEnv} c max_n :
  detect_cross_arb c max_n = take max_n (cross_pairs c) /\ count_cross_arb c = u64 (alen (cross_pairs c)).
Proof.
  split.
  - unfold detect_cross_arb. by rewrite arb_rows_pairs.
  - pose proof (count_rows_pairs (slots_ c) (slots_ c) id 0) as R. exact R.
Qed.

(** A cluster's snapshot, whatever follows it in the buffer, is loaded into
    any cluster of enough slots as its symbols registered in turn and their
    books loaded from their own snapshots: the frame around the books reads
    back exactly. *)
Lemma cluster_snapshot_frame `{env : BookEnv} c c0 cap rest :
  cluster_wf c -> serialize_cluster c cap <> [] -> alen (serialize_cluster c cap ++ rest) < 2 ^ 64 -> alen (used c) <= alen (slots_ c0) ->
  load_cluster c0 (serialize_cluster c cap ++ rest) = load_each (map (fun s => (sl_symbol s, snapshot_of (sl_book s))) (used c)) (reset_cluster c0).
Proof.
  intros W N B Fit. pose proof (cw_count c W) as Cn. pose proof (cw_size c W) as Sz. assert (Us : alen (used c) <= alen (slots_ c)) by (unfold alen, used; pose proof (length_filter sl_used (slots_ c)); lia).
  pose proof (alen_nonneg (used c)). unfold serialize_cluster in *. destruct (cap <? _); [done|]. destruct (serialize_slots (used c) 16 cap) as [bytes|] eqn:E; [|done].
  apply serialize_slots_entries in E as ->. unfold load_cluster.
  set (m := le_bytes 4 CLUSTER_SNAPSHOT_MAGIC) in *. set (v := le_bytes 4 CLUSTER_SNAPSHOT_VERSION) in *. set (k := le_bytes 8 (active_count_ c)) in *.
  assert (Lm : length m = 4%nat) by apply length_le_bytes. assert (Lv : length v = 4%nat) by apply length_le_bytes. assert (Lk : length k = 8%nat) by apply length_le_bytes.
  rewrite <- !app_assoc in *. set (l := concat (map entry (used c)) ++ rest) in *.
  destruct (Z.ltb_spec (alen (m ++ v ++ k ++ l)) 16); [unfold alen in *; rewrite !length_app in *; lia|].
  rewrite (slice_here 4 m) by done. rewrite (slice_skip_n 4 4 m _ 4 0), (slice_here 4 v) by done.
  rewrite (slice_skip_n 8 8 m _ 4 4), (slice_skip_n 4 8 v _ 4 0), (slice_here 8 k) by done. cbn [fmap option_fmap option_map mbind option_bind].
  unfold m at 1, v at 1, k at 1 2. rewrite !le_value_small by (cbn; unfold CLUSTER_SNAPSHOT_MAGIC, CLUSTER_SNAPSHOT_VERSION; lia).
  rewrite !Z.eqb_refl. cbn [negb orb]. replace (alen (slots_ c0) <? active_count_ c) with false by lia.
  assert (T : Z.to_nat (active_count_ c) = length (used c)) by (rewrite Cn; unfold alen; lia). rewrite T.
  assert (F : Forall (fun s => c_string (sl_symbol s) /\ (length (sl_symbol s) <= 8)%nat) (used c)).
  { apply Forall_forall. intros s Hs. apply list_elem_of_filter in Hs as [U Hs]. apply list_elem_of_lookup_1 in Hs as [i L]. apply (cw_names c W i s L). by destruct (sl_used s). }
  pose proof (load_symbols_entries rest (used c) F (m ++ v ++ k) (reset_cluster c0)) as G. rewrite <- !app_assoc in G. specialize (G B).
  replace (alen (m ++ v ++ k)) with 16 in G by (unfold alen; rewrite !length_app, Lm, Lv, Lk; done). exact G.
Qed.

(** ** Two symbols *)

#[local] Existing Instance small_env.
Definition aapl : cstr := [65; 65; 80; 76].
Definition msft : cstr := [77; 83; 70; 84].
Definition demo_ops : list ClusterOp :=
  [Register aapl; UseBook aapl (fun _ => played [lim BUY 9 5 1 1; lim BUY 8 2 2 1]); Register msft; UseBook msft (fun _ => played [lim SELL 7 3 1 2; lim BUY 4 6 2 2])].
Fixpoint run_ops (c : BookCluster) (l : list ClusterOp) : option BookCluster :=
  match l with [] => Some c | o :: l => c ← run_op c o; run_ops c l end.
Lemma run_ops_reached n l : forall c c', reached n c -> Forall op_ok l -> run_ops c l = Some c' -> reached n c'.
Proof.
  induction l as [|o l IH]; intros c c' R K E; cbn in E; [by injection E as <-|]. apply bind_Some in E as (c1 & E1 & E).
  apply Forall_cons in K as [Ko K]. eapply IH; [|exact K|exact E]. by eapply reached_op.
Qed.
Definition demo_cluster : BookCluster := default (new_cluster 4) (run_ops (new_cluster 4) demo_ops).
Lemma demo_reached : reached 4 demo_cluster.
Proof. apply (run_ops_reached 4 demo_ops (new_cluster 4)); [constructor|repeat constructor; lia|reflexivity]. Qed.
Lemma cluster_symbols_isolated_witness :
  (register_symbol demo_cluster [73; 66; 77]).1 = true /\ (register_symbol demo_cluster aapl).1 = false /\
  (let '(r, c') := register_symbol demo_cluster [73; 66; 77] in
  active_count_ demo_cluster = alen (used demo_cluster) /\
  r = bool_decide (book demo_cluster [73; 66; 77] = None /\ active_count_ demo_cluster < alen (slots_ demo_cluster)) /\
  (if r then active_count_ c' = active_count_ demo_cluster + 1 /\ is_Some (book c' [73; 66; 77]) /\
     forall other, c_string other -> take 8 other <> take 8 [73; 66; 77] -> book c' other = book demo_cluster other
   else c' = demo_cluster) /\
  forall other, c_string other -> book (on_book clear demo_cluster [73; 66; 77]) other =
    if decide (take 8 other = take 8 [73; 66; 77]) then clear <$> book demo_cluster [73; 66; 77] else book demo_cluster other).
Proof.
  split; [reflexivity|]. split; [reflexivity|]. apply (cluster_symbols_isolated 4 demo_cluster [73; 66; 77] clear); [done|exact demo_reached|repeat constructor; lia].
Defined.
(** Buy MSFT at 7, sell AAPL at 9. *)
Example demo_arb : detect_cross_arb demo_cluster 10 = [mkArb msft aapl 7 9 2 3] /\ count_cross_arb demo_cluster = 1.
Proof. vm_compute. done. Qed.
Lemma cluster_snapshot_frame_witness :
  (fun r => (r.1, best_bid_ticks_ <$> book r.2 aapl, best_ask_ticks_ <$> book r.2 msft)) <$>
    load_cluster (new_cluster 2) (serialize_cluster demo_cluster 1000 ++ [7]) = Some (true, Some 9, Some 7) /\
  load_cluster (new_cluster 2) (serialize_cluster demo_cluster 1000 ++ [7]) =
    load_each (map (fun s => (sl_symbol s, snapshot_of (sl_book s))) (used demo_cluster)) (reset_cluster (new_cluster 2)).
Proof.
  split; [vm_compute; reflexivity|]. apply (cluster_snapshot_frame demo_cluster (new_cluster 2) 1000 [7]);
    [exact (reached_wf 4 demo_cluster eq_refl demo_reached)|vm_compute; discriminate|by vm_compute|by vm_compute].
Defined.
(** A length that wraps the check of the bounds: the book is read from behind
    the buffer. *)
Example load_wraps :
  load_cluster (new_cluster 2) (le_bytes 4 CLUSTER_SNAPSHOT_MAGIC ++ le_bytes 4 CLUSTER_SNAPSHOT_VERSION ++ le_bytes 8 1 ++
    symbol_field aapl ++ le_bytes 8 (2 ^ 64 - 1)) = None.
Proof. vm_compute. reflexivity. Qed.
