(* ===== verification/Persist.v ===== *)
(** * Persist: state files that outlive the process

    [persist_seq] and [load_persisted_seq] of [fix-protocol/fix_session.hpp],
    [persist_state], [load_persisted_state] and [clear_persisted_state] of
    [risk/risk_manager.hpp]: both write a file beside the old one and rename
    it over the old one.  Files are a map from names to contents; a process may
    stop between any two of its calls, and inside the write. *)
From stdpp Require Import list.
From S2P Require Import Prelude Double Common Text FixSession Risk.

(** ** Files *)

Abbreviation FS := (gmap cstr cstr).
Inductive FsOp := Truncate (name : cstr) | Append (name bytes : cstr) | Rename (from to : cstr) | Remove (name : cstr).
Definition apply_op (fs : FS) (o : FsOp) : FS :=
  match o with
  | Truncate p => <[p := []]> fs
  | Append p b => <[p := default [] (fs !! p) ++ b]> fs
  | Rename a b => match fs !! a with Some c => <[b := c]> (delete a fs) | None => fs end
  | Remove p => delete p fs
  end.
Definition apply_ops (fs : FS) (l : list FsOp) : FS := foldl apply_op fs l.
(** Where the files can be left by a process that runs the calls and may stop on the way. *)
Inductive crash : list FsOp -> FS -> FS -> Prop :=
| crash_here l fs : crash l fs fs
| crash_inside p b k l fs : crash (Append p b :: l) fs (apply_op fs (Append p (take k b)))
| crash_later o l fs fs' : crash l (apply_op fs o) fs' -> crash (o :: l) fs fs'.

(** The temporary file is written, as far as [written] bytes of it could be,
    and renamed.  No result of the write is looked at. *)
Definition tmp_of (path : cstr) : cstr := path ++ lit ".tmp".
Definition replace_file (path content : cstr) (written : nat) : list FsOp :=
  [Truncate (tmp_of path); Append (tmp_of path) (take written content); Rename (tmp_of path) path].

(** ** [fscanf] *)

(** A literal of the format: white space matches any white space. *)
Fixpoint scan_literal (fmt s : cstr) : option cstr :=
  match fmt with
  | [] => Some s
  | c :: fmt =>
      if is_space c then scan_literal fmt (skip_spaces s)
      else match s with x :: s => if x =? c then scan_literal fmt s else None | [] => None end
  end.
(** [%u] and [%d]: [strtoul] and [strtol], cut to 32 bits. *)
Definition scan_number (cut : bool -> Z -> Z) (s : cstr) : option (Z * cstr) :=
  let '(neg, s) := read_sign (skip_spaces s) in
  let '(v, n, s) := digits 10 0 0 s in if n =? 0 then None else Some (cut neg v, s).
Definition cut_u (neg : bool) (v : Z) : Z := u32 (if UINT64_MAX <? v then UINT64_MAX else if neg then - v else v).
Definition cut_d (neg : bool) (v : Z) : Z := i32 (clamp_long (if neg then - v else v)).
(** [%lf] at the end of the format. *)
Definition scan_double (s : cstr) : option double :=
  let '(_, t) := read_sign (skip_spaces s) in
  let '(_, n, _, _) := read_mantissa 10 t in
  if starts_with (lit "inf") t || starts_with (lit "nan") t || negb (n =? 0) then Some (atof s) else None.

(** ** The numbers of a FIX session *)

Record PersistentSession := mkPersistent { session : FIXSession; seq_path_ : cstr }.
#[export] Instance eta_persistent : Settable PersistentSession := fun p => mkPersistent (session p) (seq_path_ p).
Definition set_seq_path (p : PersistentSession) (path : option cstr) : PersistentSession := p <| seq_path_ := default [] path |>.
Definition newline : cstr := [10].
Definition seq_text (s : FIXSession) : cstr :=
  lit "out=" ++ dec (next_out_seq_ s) ++ newline ++ lit "in=" ++ dec (expected_in_seq_ s) ++ newline.
Definition persist_seq (p : PersistentSession) (opened : bool) (written : nat) : list FsOp :=
  match seq_path_ p with
  | [] => []
  | path => if opened then replace_file path (seq_text (session p)) written else []
  end.
(** The fields that [fscanf] reads of the file, in order. *)
Definition scan_seq (file : cstr) : list Z :=
  match scan_literal (lit "out=") file ≫= scan_number cut_u with
  | None => []
  | Some (out, rest) =>
      match scan_literal (newline ++ lit "in=") rest ≫= scan_number cut_u with None => [out] | Some (inn, _) => [out; inn] end
  end.
Definition load_persisted_seq (p : PersistentSession) (fs : FS) : bool * PersistentSession :=
  match seq_path_ p with
  | [] => (false, p)
  | path =>
      match fs !! path with
      | None => (false, p)
      | Some file =>
          match scan_seq file with
          | [out; inn] => (true, p <| session ::= fun s => s <| next_out_seq_ := out |> <| expected_in_seq_ := inn |> |>)
          | _ => (false, p)
          end
      end
  end.

(** ** The kill switch of the risk manager *)

(** [%.6f] *)
Definition fmt6 (x : double) : cstr :=
  let sgn s l := if (s : bool) then 45 :: l else l in
  match x with
  | S754_zero s => sgn s (lit "0.000000")
  | S754_infinity s => sgn s (lit "inf")
  | S754_nan => lit "nan"
  | S754_finite s m e =>
      let n := if 0 <=? e then Z.pos m * 2 ^ e * 1000000 else div_even (Z.pos m * 1000000) (2 ^ (- e)) in
      let d k := 48 + (n / k) mod 10 in
      sgn s (dec (n / 1000000) ++ [46; d 100000; d 10000; d 1000; d 100; d 10; d 1])
  end.
Definition risk_text (r : RiskManager) : cstr :=
  lit "active=" ++ dec (if kill_switch_active_ r then 1 else 0) ++ newline ++ lit "last_pnl=" ++ fmt6 (daily_pnl_ r) ++ newline.
Definition persist_state (r : RiskManager) (opened : bool) (written : nat) : list FsOp :=
  match persist_path_ r with
  | [] => []
  | path => if opened then replace_file path (risk_text r) written else []
  end.
(** What [load_persisted_state] is given of the file. *)
Definition scan_state (file : cstr) : Z * Z * double :=
  match scan_literal (lit "active=") file ≫= scan_number cut_d with
  | None => (0, 0, d_zero)
  | Some (active, rest) =>
      match scan_literal (newline ++ lit "last_pnl=") rest ≫= scan_double with None => (1, active, d_zero) | Some pnl => (2, active, pnl) end
  end.
Definition load_state (r : RiskManager) (fs : FS) : RiskManager * bool := load_persisted_state r (scan_state <$> fs !! persist_path_ r).
Definition clear_persisted_state (r : RiskManager) : list FsOp := match persist_path_ r with [] => [] | path => [Remove path] end.

(** ** The file is the old one or the new one *)

Lemma tmp_ne path : tmp_of path <> path.
Proof. intros E. apply (f_equal length) in E. unfold tmp_of in E. rewrite length_app in E. cbn in E. lia. Qed.
(** Whatever was written is renamed as it is. *)
Lemma replace_file_crash path content k fs fs' : crash (replace_file path content k) fs fs' ->
  (fs' !! path = fs !! path \/ fs' !! path = Some (take k content)) /\ (forall q, q <> path -> q <> tmp_of path -> fs' !! q = fs !! q).
Proof.
  pose proof (tmp_ne path) as N. unfold replace_file. intros C.
  assert (Keep : forall x, (<[tmp_of path := x]> fs !! path = fs !! path) /\ (forall q, q <> path -> q <> tmp_of path -> <[tmp_of path := x]> fs !! q = fs !! q)).
  { intros x. split; [by apply lookup_insert_ne|]. intros q _ Hq. by apply lookup_insert_ne. }
  assert (Twice : forall x y, <[tmp_of path := x]> (<[tmp_of path := y]> fs) = <[tmp_of path := x]> fs) by (intros; apply insert_insert_eq).
  inversion C as [|?|o l f1 f2 C1]; subst; [by split; [left|]|]. cbn in C1. inversion C1 as [|p b j l f1|o l f1 f2 C2]; subst.
  - destruct (Keep []). by split; [left|].
  - cbn. rewrite lookup_insert_eq. cbn. rewrite Twice. destruct (Keep (take j (take k content))). by split; [left|].
  - cbn in C2. rewrite lookup_insert_eq in C2. cbn in C2. rewrite Twice in C2. inversion C2 as [|?|o l f1 f2 C3]; subst.
    + destruct (Keep (take k content)). by split; [left|].
    + cbn in C3. rewrite lookup_insert_eq in C3. inversion C3; subst. split; [right; by rewrite lookup_insert_eq|].
      intros q Q1 Q2. rewrite lookup_insert_ne by done. rewrite lookup_delete_ne by done. by apply lookup_insert_ne.
Qed.

(** ** What is printed is scanned *)

Lemma digits_nums l rest : Forall (fun c => is_num c = true) l -> no_digit rest -> forall acc k,
  digits 10 acc k (l ++ rest) = (read_int acc l, k + alen l, rest).
Proof.
  intros F R. induction F as [|c l Hc F IH]; intros acc k.
  - cbn. unfold alen. cbn. rewrite Z.add_0_r. destruct rest as [|c rest]; [done|]. cbn in R |- *. unfold digit_value. cbn. by rewrite R.
  - cbn [app digits]. unfold digit_value. change (10 =? 16) with false. cbv iota. rewrite Hc. rewrite IH. cbn [read_int]. rewrite Hc. do 2 f_equal. unfold alen. cbn [length]. lia.
Qed.
Lemma scan_dec cut n rest : 0 <= n -> no_digit rest -> scan_number cut (dec n ++ rest) = Some (cut false n, rest).
Proof.
  intros Hn Hr. unfold scan_number. pose proof (dec_nums n) as N. pose proof (dec_nonempty n) as E.
  assert (S : read_sign (skip_spaces (dec n ++ rest)) = (false, dec n ++ rest)).
  { destruct (dec n) as [|c l]; [done|]. apply Forall_cons in N as [Hc _]. cbn [app skip_spaces].
    destruct (num_not_space c Hc) as (-> & S1 & S2). cbn [read_sign]. by rewrite S1, S2. }
  rewrite S, digits_nums by done. pose proof (dec_read n [] Hn I) as D. rewrite app_nil_r in D. rewrite D.
  replace (0 + alen (dec n) =? 0) with false; [done|]. symmetry. apply Z.eqb_neq. unfold alen. destruct (dec n); [done|cbn; lia].
Qed.
Lemma scan_seq_text s : 0 <= next_out_seq_ s < 2 ^ 32 -> 0 <= expected_in_seq_ s < 2 ^ 32 -> scan_seq (seq_text s) = [next_out_seq_ s; expected_in_seq_ s].
Proof.
  intros A B. unfold scan_seq, seq_text.
  assert (L1 : forall x, scan_literal (lit "out=") (lit "out=" ++ x) = Some x) by done.
  assert (L2 : forall x, scan_literal (newline ++ lit "in=") (newline ++ lit "in=" ++ x) = Some x) by done.
  rewrite L1. cbn [mbind option_bind]. rewrite scan_dec by (done || lia). rewrite L2. cbn [mbind option_bind]. rewrite scan_dec by (done || lia).
  unfold cut_u, UINT64_MAX. destruct (Z.ltb_spec 18446744073709551615 (next_out_seq_ s)); [lia|]. destruct (Z.ltb_spec 18446744073709551615 (expected_in_seq_ s)); [lia|].
  by rewrite !u32_small by lia.
Qed.
Lemma scan_state_text r : let '(n, active, _) := scan_state (risk_text r) in 1 <= n /\ negb (active =? 0) = kill_switch_active_ r.
Proof.
  unfold scan_state, risk_text. assert (L1 : forall x, scan_literal (lit "active=") (lit "active=" ++ x) = Some x) by done.
  rewrite L1. cbn [mbind option_bind]. rewrite scan_dec; [|by destruct (kill_switch_active_ r)|done].
  assert (K : negb (cut_d false (if kill_switch_active_ r then 1 else 0) =? 0) = kill_switch_active_ r) by (by destruct (kill_switch_active_ r)).
  destruct (scan_literal _ _ ≫= scan_double); (split; [lia|exact K]).
Qed.

(** ** Properties *)


(** C37: a desk that was halted stays halted over a restart: once [persist_state]
    has run to its end on a file that could be written whole, a risk manager
    that loads it has the same state of the kill switch, and a crash on the way
    leaves that or what was saved before. *)
Theorem kill_switch_survives_crash r r' fs fs' written :
  persist_path_ r <> [] -> persist_path_ r' = persist_path_ r -> (length (risk_text r) <= written)%nat ->
  crash (persist_state r true written) fs fs' ->
  (load_state r' fs' = load_state r' fs \/ (load_state r' fs').2 = true /\ kill_switch_active_ (load_state r' fs').1 = kill_switch_active_ r) /\
  (let done := apply_ops fs (persist_state r true written) in
   (load_state r' done).2 = true /\ kill_switch_active_ (load_state r' done).1 = kill_switch_active_ r).
Proof.
  intros P E W C. unfold persist_state, load_state, load_persisted_state in *. rewrite E in *. destruct (persist_path_ r) as [|c path]; [done|].
  assert (New : forall g : FS, g !! (c :: path) = Some (risk_text r) ->
    let l := match scan_state <$> g !! (c :: path) with None => (r', false) | Some (n, active, pnl) =>
      if n <? 1 then (r', false) else ((if 2 <=? n then r' <| kill_switch_active_ := negb (active =? 0) |> <| daily_pnl_ := pnl |> else r' <| kill_switch_active_ := negb (active =? 0) |>), true) end in
    l.2 = true /\ kill_switch_active_ l.1 = kill_switch_active_ r).
  { intros g ->. cbn [fmap option_fmap option_map]. pose proof (scan_state_text r) as T. destruct (scan_state (risk_text r)) as [[n a] x]. destruct T as [T1 T2].
    replace (n <? 1) with false by lia. by destruct (2 <=? n). }
  split.
  - destruct (replace_file_crash _ _ _ _ _ C) as [[F|F] _]; [left; by rewrite F|right]. rewrite take_ge in F by done. by apply New.
  - apply New. unfold apply_ops, replace_file. cbn [foldl apply_op]. rewrite take_ge by done. rewrite !lookup_insert_eq. done.
Qed.

(** ** Files on a full disk, and whole ones *)

Definition demo_session : PersistentSession := mkPersistent (new_session <| next_out_seq_ := 7 |> <| expected_in_seq_ := 1234 |>) (lit "seq").
Definition demo_restart : PersistentSession := mkPersistent new_session (lit "seq").
(** Stopped behind the write, before the name is changed. *)
Lemma demo_crash : crash (persist_seq demo_session true 100) ∅ (<[lit "seq.tmp" := seq_text (session demo_session)]> ∅).
Proof.
  assert (E : <[lit "seq.tmp" := seq_text (session demo_session)]> ∅ = apply_ops ∅ (take 2 (persist_seq demo_session true 100))) by (vm_compute; reflexivity).
  rewrite E. apply crash_later, crash_later, crash_here.
Qed.
Definition halted : RiskManager := latch_kill_switch (set_persist_path (new_risk default_limits) (Some (lit "risk"))) MANUAL.
Definition fresh_desk : RiskManager := set_persist_path (new_risk default_limits) (Some (lit "risk")).
Lemma kill_switch_survives_crash_witness :
  (load_state fresh_desk (apply_ops ∅ (persist_state halted true 100))).2 = true /\
  kill_switch_active_ (load_state fresh_desk (apply_ops ∅ (persist_state halted true 100))).1 = true.
Proof.
  apply (kill_switch_survives_crash halted fresh_desk ∅ ∅ 100); [done|done|vm_compute; lia|constructor].
Defined.
(** A disk that takes only ten bytes: the numbers read back are not the ones
    saved, and the good file is gone. *)
Example full_disk_seq :
  let fs := apply_ops (apply_ops ∅ (persist_seq demo_session true 100)) (persist_seq (demo_session <| session ::= fun s => s <| next_out_seq_ := 8 |> |>) true 10) in
  let '(ok, p) := load_persisted_seq demo_restart fs in (ok, next_out_seq_ (session p), expected_in_seq_ (session p)) = (true, 8, 1).
Proof. vm_compute. reflexivity. Qed.
(** A disk that takes nothing: the desk that was halted starts again. *)
Example full_disk_halt :
  let fs := apply_ops (apply_ops ∅ (persist_state halted true 100)) (persist_state halted true 0) in
  (load_state fresh_desk (apply_ops ∅ (persist_state halted true 100))).2 = true /\ (load_state fresh_desk fs).2 = false /\
  kill_switch_active_ (load_state fresh_desk fs).1 = false.
Proof. vm_compute. done. Qed.
