(* ===== verification/Indicators.v ===== *)
(** * Indicators: five signal strategies over one table of windows

    [strategy/momentum.hpp], [strategy/bollinger.hpp], [strategy/donchian.hpp],
    [strategy/rsi.hpp] and [strategy/ma_crossover.hpp].  Each keeps a window per symbol, feeds it the
    prices and decides; finding the window, counting and building the signal are
    the same code in all of them, here once, for any [Indicator].  The warning
    that the momentum strategy prints when its slots are full is left out. *)
From S2P Require Import Prelude Double Common Strategy.

(** What a window says of a price: nothing, or a side, an average and a deviation. *)
Abbreviation Verdict := (option (Side * double * double)).
Class Indicator (W : Type) := {
  fresh : cstr -> W;
  name : W -> cstr;
  feed : W -> double -> W * Verdict }.
(** A window keeps its name, and gets that of its symbol. *)
Class IndicatorLaws (W : Type) `{Indicator W} := {
  name_fresh s : name (fresh s) = copy_sym s;
  name_feed w p : name (feed w p).1 = name w }.

(** ** The table *)

Section table.
Context {W : Type} {ind : Indicator W} (order_size : Z).

Record Table := mkTable { wins : list W; t_stats : StrategyStats }.
#[export] Instance eta_table : Settable Table := fun t => mkTable (wins t) (t_stats t).
Definition new_table : Table := mkTable [] (mkStrategyStats 0 0 0 0 0).
Definition table_find (t : Table) (stock : cstr) : Table * option nat :=
  match list_find (fun w => name w = stock) (wins t) with
  | Some (i, _) => (t, Some i)
  | None =>
      if MAX_STOCKS <=? alen (wins t) then (t, None)
      else (t <| wins ::= fun l => l ++ [fresh stock] |>, Some (length (wins t)))
  end.
Definition signal_of (v : Verdict) (stock : cstr) (price : double) (ts : Z) : Signal :=
  match v with None => no_signal | Some (side, sma, dev) => mkSignal ts (copy_sym stock) side price order_size sma dev true end.
Definition table_count (t : Table) (v : Verdict) (t0 t1 : Z) : Table :=
  t <| t_stats ::= fun s =>
    (match v with
     | None => s <| holds ::= fun n => u64 (n + 1) |>
     | Some (BUY, _, _) => s <| buys ::= fun n => u64 (n + 1) |> <| signals_generated ::= fun n => u64 (n + 1) |>
     | Some (SELL, _, _) => s <| sells ::= fun n => u64 (n + 1) |> <| signals_generated ::= fun n => u64 (n + 1) |>
     end) <| s_total_latency_ns ::= fun n => u64 (n + i64 (t1 - t0)) |> |>.
Definition table_tick (t : Table) (k : tick) : Table * Signal :=
  let stock := tk_stock k in let price := tk_price k in
  if negb (good_price price) then (table_count t None (tk_t0 k) (tk_t1 k), no_signal) else
  match table_find t stock with
  | (t, None) => (table_count t None (tk_t0 k) (tk_t1 k), no_signal)
  | (t, Some i) =>
      let '(w, v) := feed (default (fresh stock) (wins t !! i)) price in
      (table_count (t <| wins ::= <[i := w]> |>) v (tk_t0 k) (tk_t1 k), signal_of v stock price (tk_ts k))
  end.
Definition table_run (l : list tick) : Table := foldl (fun t k => (table_tick t k).1) new_table l.
End table.
Arguments Table : clear implicits.

(** ** The five windows *)

(** *** Momentum: the window of the mean-reversion strategy, the other way round *)

Record MomentumStrategy := mkMomentum { mo_window_size_ : Z; mo_threshold_ : double }.
Definition new_momentum (window : Z) (threshold_pct : double) : MomentumStrategy :=
  mkMomentum (Z.max 1 (Z.min window MAX_WINDOW)) (ddiv threshold_pct (dbl_of_Z 100)).
Definition momentum_feed (m : MomentumStrategy) (w : PriceWindow) (price : double) : PriceWindow * Verdict :=
  let w := add w price in
  if negb (full w) then (w, None) else
  let a := sma w in
  if dle a d_zero then (w, None) else
  let deviation := ddiv (dsub price a) a in
  (w, if dgt deviation (mo_threshold_ m) then Some (BUY, a, dmul deviation (dbl_of_Z 100))
      else if dlt deviation (dneg (mo_threshold_ m)) then Some (SELL, a, dmul deviation (dbl_of_Z 100)) else None).
Definition momentum (m : MomentumStrategy) : Indicator PriceWindow :=
  {| fresh s := empty_window (mo_window_size_ m) (copy_sym s); name := w_symbol; feed := momentum_feed m |}.

(** *** Bollinger: bands of [k] standard deviations *)

Record VarWindow := mkVar { v_symbol : cstr; v_prices : list double; v_sum : double; v_sum_sq : double; v_count : Z; v_head : Z; v_size : Z }.
#[export] Instance eta_var : Settable VarWindow := fun w =>
  mkVar (v_symbol w) (v_prices w) (v_sum w) (v_sum_sq w) (v_count w) (v_head w) (v_size w).
Definition no_prices : list double := replicate (Z.to_nat MAX_WINDOW) d_zero.
Definition read_price (l : list double) (i : Z) : double := default d_zero (l !! Z.to_nat i).
Definition next_index (i size : Z) : Z := if i + 1 =? size then 0 else i + 1.
Definition next_count (n size : Z) : Z := if n <? size then n + 1 else n.
Definition var_add (w : VarWindow) (price : double) : VarWindow :=
  let w := if v_count w =? v_size w
           then let old := read_price (v_prices w) (v_head w) in
                w <| v_sum ::= fun s => dsub s old |> <| v_sum_sq ::= fun s => dsub s (dmul old old) |>
           else w in
  w <| v_prices ::= <[Z.to_nat (v_head w) := price]> |> <| v_sum ::= fun s => dadd s price |>
    <| v_sum_sq ::= fun s => dadd s (dmul price price) |> <| v_head ::= fun h => next_index h (v_size w) |>
    <| v_count ::= fun n => next_count n (v_size w) |>.
Record BollingerStrategy := mkBollinger { bo_window_size_ : Z; num_std_ : double }.
Definition new_bollinger (window : Z) (num_std : double) : BollingerStrategy :=
  mkBollinger (Z.max 2 (Z.min window MAX_WINDOW)) (if dgt num_std d_zero then num_std else dbl_of_Z 2).
Definition bollinger_feed (b : BollingerStrategy) (w : VarWindow) (price : double) : VarWindow * Verdict :=
  let w := var_add w price in
  if v_count w <? v_size w then (w, None) else
  let n := dbl_of_Z (v_count w) in
  let mean := ddiv (v_sum w) n in
  let var := dmax d_zero (dsub (ddiv (v_sum_sq w) n) (dmul mean mean)) in
  let sd := dsqrt var in
  let upper := dadd mean (dmul (num_std_ b) sd) in
  let lower := dsub mean (dmul (num_std_ b) sd) in
  let dev := if dgt mean d_zero then ddiv (dsub price mean) mean else d_zero in
  (w, if dgt sd d_zero && dgt price upper then Some (SELL, mean, dmul dev (dbl_of_Z 100))
      else if dgt sd d_zero && dlt price lower then Some (BUY, mean, dmul dev (dbl_of_Z 100)) else None).
Definition bollinger (b : BollingerStrategy) : Indicator VarWindow :=
  {| fresh s := mkVar (copy_sym s) no_prices d_zero d_zero 0 0 (bo_window_size_ b); name := v_symbol; feed := bollinger_feed b |}.

(** *** Donchian: the channel of the last prices *)

Record DonWin := mkDonWin { d_symbol : cstr; d_prices : list double; d_count : Z; d_head : Z; d_size : Z }.
#[export] Instance eta_don : Settable DonWin := fun w => mkDonWin (d_symbol w) (d_prices w) (d_count w) (d_head w) (d_size w).
Record DonchianBreakout := mkDonchian { do_window_size_ : Z }.
Definition new_donchian (window : Z) : DonchianBreakout := mkDonchian (Z.max 1 (Z.min window MAX_WINDOW)).
Definition don_push (w : DonWin) (price : double) : DonWin :=
  w <| d_prices ::= <[Z.to_nat (d_head w) := price]> |> <| d_head ::= fun h => next_index h (d_size w) |>
    <| d_count ::= fun n => next_count n (d_size w) |>.
(** The channel's ends, from far outside. *)
Definition channel (l : list double) : double * double :=
  let far := dbl_of_Z (10 ^ 300) in
  foldl (fun '(hi, lo) p => (if dgt p hi then p else hi, if dlt p lo then p else lo)) (dneg far, far) l.
Definition don_deviation (price ref : double) : double :=
  if dgt ref d_zero then dmul (ddiv (dsub price ref) ref) (dbl_of_Z 100) else d_zero.
Definition donchian_feed (w : DonWin) (price : double) : DonWin * Verdict :=
  let v :=
    if d_size w <=? d_count w then
      let '(hi, lo) := channel (take (Z.to_nat (d_count w)) (d_prices w)) in
      if dgt price hi then Some (BUY, hi, don_deviation price hi)
      else if dlt price lo then Some (SELL, lo, don_deviation price lo) else None
    else None in
  (don_push w price, v).
Definition donchian (d : DonchianBreakout) : Indicator DonWin :=
  {| fresh s := mkDonWin (copy_sym s) no_prices 0 0 (do_window_size_ d); name := d_symbol; feed := donchian_feed |}.

(** *** RSI: the share of the gains *)

Record RsiWin := mkRsiWin {
  r_symbol : cstr; prev_price : double; gains : list double; losses : list double; r_count : Z; r_head : Z; r_size : Z; has_prev : bool }.
#[export] Instance eta_rsi : Settable RsiWin := fun w =>
  mkRsiWin (r_symbol w) (prev_price w) (gains w) (losses w) (r_count w) (r_head w) (r_size w) (has_prev w).
Record RSIStrategy := mkRsi { rs_window_size_ : Z; overbought_ : double; oversold_ : double }.
Definition new_rsi (window : Z) (overbought oversold : double) : RSIStrategy := mkRsi (Z.max 1 (Z.min window MAX_WINDOW)) overbought oversold.
Definition sum_first (l : list double) (n : Z) : double := foldl dadd d_zero (take (Z.to_nat n) l).
Definition rsi_feed (r : RSIStrategy) (w : RsiWin) (price : double) : RsiWin * Verdict :=
  if negb (has_prev w) then (w <| prev_price := price |> <| has_prev := true |>, None) else
  let delta := dsub price (prev_price w) in
  let h := Z.to_nat (r_head w) in
  let w := w <| prev_price := price |> <| gains ::= <[h := if dgt delta d_zero then delta else d_zero]> |>
             <| losses ::= <[h := if dlt delta d_zero then dneg delta else d_zero]> |>
             <| r_head ::= fun h => next_index h (r_size w) |> <| r_count ::= fun n => next_count n (r_size w) |> in
  if r_size w <=? r_count w then
    let avg_g := ddiv (sum_first (gains w) (r_count w)) (dbl_of_Z (r_count w)) in
    let avg_l := ddiv (sum_first (losses w) (r_count w)) (dbl_of_Z (r_count w)) in
    let hundred := dbl_of_Z 100 in
    let rsi := if dle avg_l d_zero then hundred else dsub hundred (ddiv hundred (dadd d_one (ddiv avg_g avg_l))) in
    (w, if dgt rsi (overbought_ r) then Some (SELL, rsi, rsi) else if dlt rsi (oversold_ r) then Some (BUY, rsi, rsi) else None)
  else (w, None).
Definition rsi (r : RSIStrategy) : Indicator RsiWin :=
  {| fresh s := mkRsiWin (copy_sym s) d_zero no_prices no_prices 0 0 (rs_window_size_ r) false; name := r_symbol; feed := rsi_feed r |}.

(** *** Crossing averages *)

Record MaWin := mkMaWin { m_symbol : cstr; m_prices : list double; m_count : Z; m_head : Z; m_has_prev : bool; prev_fast_above : bool }.
#[export] Instance eta_ma : Settable MaWin := fun w =>
  mkMaWin (m_symbol w) (m_prices w) (m_count w) (m_head w) (m_has_prev w) (prev_fast_above w).
Record MACrossover := mkMa { fast_ : Z; slow_ : Z }.
Definition new_ma (fast slow : Z) : MACrossover :=
  let f := Z.max 1 (Z.min fast MAX_WINDOW) in mkMa f (Z.max (f + 1) (Z.min slow MAX_WINDOW)).
(** The walk backwards from the head, [n] prices still to go. *)
Fixpoint walk (m : MACrossover) (l : list double) (n : nat) (i idx : Z) (fast_sum slow_sum : double) : double * double :=
  match n with
  | O => (fast_sum, slow_sum)
  | S n =>
      let idx := if idx =? 0 then slow_ m - 1 else idx - 1 in
      let p := read_price l idx in
      walk m l n (i + 1) idx (if i <? fast_ m then dadd fast_sum p else fast_sum) (dadd slow_sum p)
  end.
Definition ma_feed (m : MACrossover) (w : MaWin) (price : double) : MaWin * Verdict :=
  let w := w <| m_prices ::= <[Z.to_nat (m_head w) := price]> |> <| m_head ::= fun h => next_index h (slow_ m) |>
             <| m_count ::= fun n => next_count n (slow_ m) |> in
  if slow_ m <=? m_count w then
    let '(fast_sum, slow_sum) := walk m (m_prices w) (Z.to_nat (slow_ m)) 0 (m_head w) d_zero d_zero in
    let fast_sma := ddiv fast_sum (dbl_of_Z (fast_ m)) in
    let slow_sma := ddiv slow_sum (dbl_of_Z (slow_ m)) in
    let fast_above := dgt fast_sma slow_sma in
    let dev := if dgt slow_sma d_zero then dmul (ddiv (dsub price slow_sma) slow_sma) (dbl_of_Z 100) else d_zero in
    let v := if m_has_prev w && negb (Bool.eqb fast_above (prev_fast_above w))
             then Some (if fast_above then BUY else SELL, slow_sma, dev) else None in
    (w <| prev_fast_above := fast_above |> <| m_has_prev := true |>, v)
  else (w, None).
Definition ma_crossover (m : MACrossover) : Indicator MaWin :=
  {| fresh s := mkMaWin (copy_sym s) no_prices 0 0 false false; name := m_symbol; feed := ma_feed m |}.
(** With a fast window of 128 the slow one has 129 prices, one more than the
    array; the code then writes behind it. *)
Example ma_window_too_long : slow_ (new_ma 128 20) = MAX_WINDOW + 1.
Proof. reflexivity. Qed.

(** *** They keep their names *)

Lemma momentum_laws m : @IndicatorLaws _ (momentum m).
Proof. split; [done|]. intros w p. cbn. unfold momentum_feed. destruct (negb _); [done|]. by destruct (dle _ _). Qed.
Lemma bollinger_laws b : @IndicatorLaws _ (bollinger b).
Proof. split; [done|]. intros w p. cbn. unfold bollinger_feed, var_add. destruct (v_count w =? v_size w); cbn; by destruct (_ <? _). Qed.
Lemma donchian_laws d : @IndicatorLaws _ (donchian d).
Proof. by split. Qed.
Lemma rsi_laws r : @IndicatorLaws _ (rsi r).
Proof. split; [done|]. intros w p. cbn. unfold rsi_feed. destruct (negb _); [done|]. by destruct (_ <=? _). Qed.
Lemma ma_laws m : @IndicatorLaws _ (ma_crossover m).
Proof. split; [done|]. intros w p. cbn. unfold ma_feed. destruct (_ <=? _); [|done]. by destruct (walk _ _ _ _ _ _ _). Qed.

(** ** Every symbol has its own window *)

Section isolation.
Context {W : Type} {ind : Indicator W} {laws : IndicatorLaws W} (order_size : Z).
(** A fresh window fed with prices. *)
Definition fed_window (s : cstr) (ps : list double) : W := foldl (fun w p => (feed w p).1) (fresh s) ps.
Lemma after_snoc s ps p : fed_window s (ps ++ [p]) = (feed (fed_window s ps) p).1.
Proof. unfold fed_window. by rewrite foldl_snoc. Qed.
Lemma name_after s ps : (length s <= 8)%nat -> name (fed_window s ps) = s.
Proof.
  intros L. induction ps as [|p ps IH] using rev_ind; [cbn; by rewrite name_fresh; unfold copy_sym; rewrite take_ge|]. by rewrite after_snoc, name_feed.
Qed.
(** Every window has heard the prices of its own symbol. *)
Record table_ok (t : Table W) (l : list tick) : Prop := {
  to_names : NoDup (name <$> wins t);
  to_wins : forall i w, wins t !! i = Some w -> w = fed_window (name w) (history (name w) l) /\ (length (name w) <= 8)%nat;
  to_seen : forall s, s ∈ name <$> wins t <-> history s l <> [] }.
Lemma table_ok_wins t t' l : wins t' = wins t -> table_ok t l -> table_ok t' l.
Proof. intros E [A B C]. split; by rewrite E. Qed.
Lemma table_ok_skip t l k : good_price (tk_price k) = false -> table_ok t l -> table_ok t (l ++ [k]).
Proof.
  intros G [N Wi S]. assert (E : forall s, history s (l ++ [k]) = history s l).
  { intros s. rewrite history_snoc, decide_False, app_nil_r; [done|]. intros [_ X]. congruence. }
  split; [done| |intros s; by rewrite E]. intros i w Hi. rewrite E. by apply (Wi i).
Qed.
Context (U : list cstr) (few : alen U <= MAX_STOCKS) (short : forall s, s ∈ U -> (length s <= 8)%nat).
Lemma table_room t l s : table_ok t l -> known U l -> s ∈ U -> s ∉ name <$> wins t -> alen (wins t) < MAX_STOCKS.
Proof.
  intros [N _ S] K Hs Ns. assert (L : (length (s :: (name <$> wins t)) <= length U)%nat).
  { apply submseteq_length, NoDup_submseteq; [by constructor|]. intros x [->|Hx]%elem_of_cons; [done|].
    apply S in Hx. destruct (history_stock x l Hx) as (k & Hk & <-). by apply K. }
  cbn in L. rewrite length_fmap in L. unfold alen in *. lia.
Qed.
(** The window found or made for a symbol. *)
Lemma find_ok t l s : table_ok t l -> known U l -> s ∈ U -> exists t1 i, table_find t s = (t1, Some i) /\
  wins t1 !! i = Some (fed_window s (history s l)) /\ NoDup (name <$> wins t1) /\
  (forall j w, wins t1 !! j = Some w -> w = fed_window (name w) (history (name w) l) /\ (length (name w) <= 8)%nat) /\
  (forall x, x ∈ name <$> wins t1 <-> x = s \/ history x l <> []).
Proof.
  intros Ok K Hs. pose proof Ok as [N Wi S]. pose proof (short s Hs) as Sh. unfold table_find.
  destruct (list_find (fun w => name w = s) (wins t)) as [[i w]|] eqn:F.
  - apply list_find_Some in F as (Hi & Hw & _). exists t, i. split_and!; try done.
    + rewrite Hi. f_equal. destruct (Wi i w Hi) as [E _]. rewrite <- Hw. exact E.
    + intros x. rewrite S. split; [by right|]. intros [->|?]; [|done]. apply S, list_elem_of_fmap. exists w. split; [done|by eapply list_elem_of_lookup_2].
  - apply list_find_None in F. rewrite Forall_forall in F.
    assert (Ns : s ∉ name <$> wins t) by (intros (w & -> & Hw)%list_elem_of_fmap; by apply (F w Hw)).
    pose proof (table_room t l s Ok K Hs Ns). destruct (Z.leb_spec MAX_STOCKS (alen (wins t))); [lia|].
    assert (Hn : history s l = []) by (destruct (decide (history s l = [])) as [|X]; [done|by apply S in X]).
    assert (Nf : name (fresh s) = s) by (rewrite name_fresh; unfold copy_sym; by rewrite take_ge).
    eexists _, _. split_and!; [reflexivity| | | |]; cbn.
    + rewrite lookup_app_r, Nat.sub_diag, Hn by lia. done.
    + rewrite fmap_app. apply NoDup_app. split_and!; [done| |apply NoDup_singleton]. intros x Hx. cbn. rewrite list_elem_of_singleton, Nf. by intros ->.
    + intros j w. rewrite lookup_app_Some. intros [Hj|[_ Hj]]; [by eapply Wi|]. apply list_lookup_singleton_Some in Hj as [_ <-]. by rewrite Nf, Hn.
    + intros x. rewrite fmap_app, elem_of_app, S. cbn. rewrite list_elem_of_singleton, Nf. tauto.
Qed.
Definition reference_of (l : list tick) (k : tick) : Signal :=
  if good_price (tk_price k)
  then signal_of order_size (feed (fed_window (tk_stock k) (history (tk_stock k) l)) (tk_price k)).2 (tk_stock k) (tk_price k) (tk_ts k)
  else no_signal.
Lemma table_tick_ok t l k : table_ok t l -> known U (l ++ [k]) ->
  table_ok (table_tick order_size t k).1 (l ++ [k]) /\ (table_tick order_size t k).2 = reference_of l k.
Proof.
  intros Ok K. unfold table_tick, reference_of. set (s := tk_stock k). set (p := tk_price k). destruct (good_price p) eqn:G; cbn [negb].
  2: { split; [|done]. apply table_ok_skip; [done|]. by apply (table_ok_wins t). }
  assert (Kl : known U l) by (intros x Hx; apply K, elem_of_app; by left).
  assert (Hs : s ∈ U) by (apply K, elem_of_app; right; by apply list_elem_of_singleton).
  destruct (find_ok t l s Ok Kl Hs) as (t1 & i & -> & Hi & N & Wi & S). rewrite Hi. cbn [default from_option id].
  assert (Hh : forall x, history x (l ++ [k]) = history x l ++ (if decide (s = x) then [p] else [])).
  { intros x. rewrite history_snoc. f_equal. fold s p. destruct (decide (s = x)) as [E|E]; [by rewrite decide_True|]. rewrite decide_False; [done|]. by intros [? _]. }
  pose proof (name_after s (history s l) (short s Hs)) as Na. pose proof (name_feed (fed_window s (history s l)) p) as Nf.
  pose proof (after_snoc s (history s l) p) as As. destruct (feed (fed_window s (history s l)) p) as [w v]. cbn [fst snd] in *. split; [|done].
  assert (Nw : name <$> (<[i := w]> (wins t1)) = name <$> wins t1).
  { rewrite list_fmap_insert. apply list_insert_id. rewrite list_lookup_fmap, Hi. cbn. congruence. }
  apply (table_ok_wins (t1 <| wins ::= <[i := w]> |>)); [done|]. split; cbn; rewrite ?Nw; [done| |].
  - intros j x Hj. apply list_lookup_insert_Some in Hj as [(<- & <- & _)|[Nj Hj]].
    + rewrite Nf, Na, Hh, decide_True, As by done. split; [done|by apply short].
    + destruct (Wi j x Hj) as [E L]. split; [|done]. rewrite Hh, decide_False, app_nil_r; [done|]. intros Es. apply Nj.
      eapply (NoDup_lookup _ _ _ s N); rewrite list_lookup_fmap; [rewrite Hi; cbn; by rewrite Na|rewrite Hj; cbn; by rewrite Es].
  - intros x. rewrite S, Hh. destruct (decide (s = x)) as [<-|E]; [|rewrite app_nil_r; split; [intros [?|?]; [congruence|done]|by right]].
    split; [intros _ X; by apply app_eq_nil in X as [_ ?]|by left].
Qed.
Lemma table_run_ok l : known U l -> table_ok (table_run order_size l) l.
Proof.
  induction l as [|k l IH] using rev_ind; intros K.
  - split; cbn; [apply NoDup_nil_2|done|]. intros s. split; [by intros ?%elem_of_nil|done].
  - unfold table_run. rewrite foldl_snoc. apply table_tick_ok; [|done]. apply IH. intros x Hx. apply K, elem_of_app. by left.
Qed.
End isolation.

(** ** Crossing averages against their definition *)

Section ma.
Context (m : MACrossover) (range : 1 <= fast_ m < slow_ m) (fits : slow_ m <= MAX_WINDOW).
Let S := slow_ m.
(** The mean of the last [k] prices, the newest added first. *)
Definition mean_last (k : Z) (ps : list double) : double := ddiv (foldl dadd d_zero (take (Z.to_nat k) (reverse ps))) (dbl_of_Z k).
Definition above (ps : list double) : bool := dgt (mean_last (fast_ m) ps) (mean_last (slow_ m) ps).
Record ring_ok (l : list double) (ps : list double) : Prop := {
  rk_len : length l = Z.to_nat MAX_WINDOW;
  rk_prices : forall i, alen ps - S <= i < alen ps -> 0 <= i -> ps !! Z.to_nat i = Some (read_price l (i mod S)) }.
Lemma ring_push l ps p : ring_ok l ps -> ring_ok (<[Z.to_nat (alen ps mod S) := p]> l) (ps ++ [p]).
Proof.
  intros [L P]. unfold MAX_WINDOW in *. pose proof (alen_nonneg ps). pose proof (Z.mod_pos_bound (alen ps) S ltac:(lia)) as B.
  split; [by rewrite length_insert|]. rewrite alen_app. change (alen [p]) with 1. intros i Hi Hi0. unfold read_price. destruct (decide (i = alen ps)) as [->|Ne].
  - rewrite list_lookup_insert_eq by lia. unfold alen. by rewrite Nat2Z.id, lookup_app_r, Nat.sub_diag by lia.
  - rewrite lookup_app_l by (unfold alen in *; lia). rewrite list_lookup_insert_ne; [unfold read_price in P; apply P; lia|].
    pose proof (Z.mod_pos_bound i S ltac:(lia)). intros E. assert (E' : alen ps mod S = i mod S) by lia.
    pose proof (Z.div_mod (alen ps) S ltac:(lia)). pose proof (Z.div_mod i S ltac:(lia)).
    assert (S * (alen ps / S) - S * (i / S) = alen ps - i) by lia. assert (i / S < alen ps / S \/ alen ps / S <= i / S) as [?|?] by lia; nia.
Qed.
Lemma index_back x : (if x mod S =? 0 then S - 1 else x mod S - 1) = (x - 1) mod S.
Proof.
  pose proof (Z.mod_pos_bound x S ltac:(lia)). rewrite <- Zminus_mod_idemp_l. destruct (Z.eqb_spec (x mod S) 0) as [->|].
  - replace (0 - 1) with (S - 1 + -1 * S) by lia. rewrite Z_mod_plus_full. symmetry. apply Z.mod_small. lia.
  - symmetry. apply Z.mod_small. lia.
Qed.
Lemma index_next x : next_index (x mod S) S = (x + 1) mod S.
Proof.
  pose proof (Z.mod_pos_bound x S ltac:(lia)). unfold next_index. rewrite <- Zplus_mod_idemp_l. destruct (Z.eqb_spec (x mod S + 1) S) as [->|]; [by rewrite Z.mod_same by lia|].
  symmetry. apply Z.mod_small. lia.
Qed.
(** The walk sums the newest prices, newest first. *)
Lemma walk_sums l ps : ring_ok l ps -> S <= alen ps -> forall n i fs ss, 0 <= i -> i + Z.of_nat n = S ->
  walk m l n i ((alen ps - i) mod S) fs ss =
  (foldl dadd fs (take (Z.to_nat (fast_ m - i)) (drop (Z.to_nat i) (reverse ps))), foldl dadd ss (take n (drop (Z.to_nat i) (reverse ps)))).
Proof.
  intros [_ P] L. induction n as [|n IH]; intros i fs ss Hi Hn; cbn [walk].
  - replace (Z.to_nat (fast_ m - i)) with 0%nat by lia. by rewrite !take_0.
  - fold S. rewrite index_back. replace (alen ps - i - 1) with (alen ps - (i + 1)) by lia. rewrite IH by lia.
    assert (R : reverse ps !! Z.to_nat i = Some (read_price l ((alen ps - (i + 1)) mod S))).
    { rewrite reverse_lookup by (unfold alen in *; lia). rewrite <- P by lia. f_equal. unfold alen in *. lia. }
    rewrite (drop_S _ _ _ R). replace (Z.to_nat (i + 1)) with (Datatypes.S (Z.to_nat i)) by lia. cbn [take foldl]. f_equal.
    destruct (Z.ltb_spec i (fast_ m)).
    + replace (Z.to_nat (fast_ m - i)) with (Datatypes.S (Z.to_nat (fast_ m - (i + 1)))) by lia. done.
    + replace (Z.to_nat (fast_ m - i)) with 0%nat by lia. replace (Z.to_nat (fast_ m - (i + 1))) with 0%nat by lia. done.
Qed.
Record ma_ok (w : MaWin) (ps : list double) : Prop := {
  mk_ring : ring_ok (m_prices w) ps; mk_count : m_count w = Z.min (alen ps) S; mk_head : m_head w = alen ps mod S;
  mk_has : m_has_prev w = (S <=? alen ps); mk_prev : S <= alen ps -> prev_fast_above w = above ps }.
(** What a price says of the prices before it. *)
Definition crossing (ps : list double) (p : double) : option Side :=
  if (S <=? alen ps) && negb (Bool.eqb (above (ps ++ [p])) (above ps)) then Some (if above (ps ++ [p]) then BUY else SELL) else None.
Definition side_of (v : Verdict) : option Side := (fun x => x.1.1) <$> v.
Lemma ma_feed_ok w ps p : ma_ok w ps -> ma_ok (ma_feed m w p).1 (ps ++ [p]) /\ side_of (ma_feed m w p).2 = crossing ps p.
Proof.
  intros [R C H B V]. pose proof (alen_nonneg ps). pose proof (ring_push _ _ p R) as R1. rewrite <- H in R1.
  assert (N : alen (ps ++ [p]) = alen ps + 1) by (by rewrite alen_app). unfold ma_feed, crossing.
  set (w1 := w <| m_prices ::= _ |> <| m_head ::= _ |> <| m_count ::= _ |>).
  assert (Q1 : m_prices w1 = <[Z.to_nat (m_head w) := p]> (m_prices w)) by done.
  assert (Q2 : m_head w1 = (alen ps + 1) mod S) by (change (m_head w1) with (next_index (m_head w) S); by rewrite H, index_next).
  assert (Q3 : m_count w1 = Z.min (alen ps + 1) S).
  { change (m_count w1) with (next_count (m_count w) S). rewrite C. unfold next_count. destruct (Z.ltb_spec (Z.min (alen ps) S) S); lia. }
  assert (Q4 : m_has_prev w1 = (S <=? alen ps)) by done. assert (Q5 : prev_fast_above w1 = prev_fast_above w) by done.
  clearbody w1. rewrite Q3. fold S. destruct (Z.leb_spec S (Z.min (alen ps + 1) S)) as [F|F].
  - rewrite Q1, Q2. pose proof (walk_sums _ _ R1 ltac:(lia) (Z.to_nat S) 0 d_zero d_zero ltac:(lia) ltac:(lia)) as Wk. rewrite N, Z.sub_0_r in Wk. rewrite Wk.
    rewrite Z.sub_0_r, drop_0. fold (mean_last (fast_ m) (ps ++ [p])). fold (mean_last S (ps ++ [p])). change (dgt (mean_last (fast_ m) (ps ++ [p])) (mean_last S (ps ++ [p]))) with (above (ps ++ [p])).
    cbn [fst snd]. split.
    + split; cbn; rewrite ?N, ?Q1; try done; lia || (symmetry; apply Z.leb_le; lia).
    + rewrite Q4, Q5. destruct (Z.leb_spec S (alen ps)) as [G|G]; cbn [andb]; [|done]. rewrite V by done. by destruct (negb _).
  - cbn [fst snd]. split; [|replace (S <=? alen ps) with false by lia; done].
    split; rewrite ?N, ?Q1; try done; [rewrite Q4|lia]. replace (S <=? alen ps) with false by lia. symmetry. apply Z.leb_gt. lia.
Qed.
Lemma ma_after_ok s ps : ma_ok (@fed_window _ (ma_crossover m) s ps) ps.
Proof.
  induction ps as [|p ps IH] using rev_ind.
  - split; [split; [done|intros; unfold alen in *; cbn in *; lia]|unfold alen; cbn; lia|unfold alen; cbn; symmetry; apply Z.mod_0_l; lia| |unfold alen; cbn; lia].
    cbn. unfold alen. cbn. symmetry. apply Z.leb_gt. lia.
  - unfold fed_window in *. rewrite foldl_snoc. by apply ma_feed_ok.
Qed.
End ma.

(** ** Properties *)

Definition rising : list tick := (fun x => mkTick [65] (dbl_of_Z x) 0 0 0) <$> [10; 9; 8; 7].
(** The channel is that of the three prices before. *)
Example donchian_breakout :
  (@table_tick _ (donchian (new_donchian 3)) 100 (@table_run _ (donchian (new_donchian 3)) 100 ((fun x => mkTick [65] (dbl_of_Z x) 0 0 0) <$> [99; 10; 11; 12])) (mkTick [65] (dbl_of_Z 13) 7 0 0)).2 =
  mkSignal 7 [65] BUY (dbl_of_Z 13) 100 (dbl_of_Z 12) (dmul (ddiv (dbl_of_Z 1) (dbl_of_Z 12)) (dbl_of_Z 100)) true.
Proof. vm_compute. reflexivity. Qed.
(** A symbol of more than eight characters is stored cut, and found never again:
    every tick of it takes a new slot. *)
Example long_symbol_slots :
  length (wins (@table_run _ (ma_crossover (new_ma 2 3)) 100 ((fun x => mkTick [65; 65; 65; 65; 65; 65; 65; 65; 65] (dbl_of_Z x) 0 0 0) <$> [10; 11; 12]))) = 3%nat.
Proof. vm_compute. reflexivity. Qed.
