(* ===== verification/SignalTools.v ===== *)
(** * SignalTools: what stands between a signal and an order

    [strategy/pov_algo.hpp] (a share of the market's volume),
    [strategy/signal_throttle.hpp] (a cooldown per symbol),
    [strategy/trailing_stop.hpp] (a stop that only tightens) and
    [strategy/ensemble.hpp] (a vote among signals). *)
From S2P Require Import Prelude Double Common Strategy.

(** ** A share of the volume *)

Record POVExecutor := mkPov { remaining_ : Z; total_ : Z; executed_ : Z; rate_ : double; slices_ : Z }.
#[export] Instance eta_pov : Settable POVExecutor := fun p => mkPov (remaining_ p) (total_ p) (executed_ p) (rate_ p) (slices_ p).
Definition new_pov (parent_qty : Z) (participation_rate : double) : POVExecutor :=
  let q := if 0 <? parent_qty then parent_qty else 0 in
  mkPov q q 0 (if dlt participation_rate d_zero then d_zero else if dgt participation_rate d_one then d_one else participation_rate) 0.
Definition on_market_volume (p : POVExecutor) (market_volume : Z) : POVExecutor * Z :=
  if (remaining_ p <=? 0) || (market_volume <=? 0) then (p, 0) else
  let child := dbl_to_i64 (dadd (dmul (rate_ p) (dbl_of_Z market_volume)) d_half) in
  if child <=? 0 then (p, 0) else
  let child := if remaining_ p <? child then remaining_ p else child in
  (p <| remaining_ ::= fun r => i64 (r - child) |> <| executed_ ::= fun e => i64 (e + child) |> <| slices_ ::= fun n => u64 (n + 1) |>, child).
Definition pov_done (p : POVExecutor) : bool := remaining_ p <=? 0.
Definition completion (p : POVExecutor) : double := ratio (executed_ p) (total_ p).

(** ** A cooldown per symbol *)

Record SignalThrottle := mkThrottle { cooldown_ : Z; last_fire_ : gmap Z Z; suppressed_ : Z }.
#[export] Instance eta_throttle : Settable SignalThrottle := fun t => mkThrottle (cooldown_ t) (last_fire_ t) (suppressed_ t).
Definition new_throttle (cooldown : Z) : SignalThrottle := mkThrottle (if 0 <? cooldown then cooldown else 0) ∅ 0.
Definition allow (t : SignalThrottle) (sym : cstr) (seq : Z) : SignalThrottle * bool :=
  let k := sym_to_key sym in
  let fire := match last_fire_ t !! k with None => true | Some s => cooldown_ t <=? i64 (seq - s) end in
  if fire then (t <| last_fire_ ::= <[k := seq]> |>, true) else (t <| suppressed_ ::= fun n => u64 (n + 1) |>, false).
Definition reset_symbol (t : SignalThrottle) (sym : cstr) : SignalThrottle := t <| last_fire_ ::= delete (sym_to_key sym) |>.
Definition throttle_reset (t : SignalThrottle) : SignalThrottle := t <| last_fire_ := ∅ |> <| suppressed_ := 0 |>.

(** ** A stop that only tightens *)

Record TrailingStop := mkStop { is_long_ : bool; trail_ : double; stop_ : double; active_ : bool }.
#[export] Instance eta_trailing : Settable TrailingStop := fun t => mkStop (is_long_ t) (trail_ t) (stop_ t) (active_ t).
Definition new_stop (is_long : bool) (entry_price trail_amount : double) : TrailingStop :=
  mkStop is_long (if dgt trail_amount d_zero then trail_amount else d_zero)
    (if is_long then dsub entry_price trail_amount else dadd entry_price trail_amount) true.
Definition stop_update (t : TrailingStop) (price : double) : TrailingStop * bool :=
  if negb (active_ t) then (t, false) else
  if is_long_ t then
    let cand := dsub price (trail_ t) in
    let t := if dgt cand (stop_ t) then t <| stop_ := cand |> else t in
    if dle price (stop_ t) then (t <| active_ := false |>, true) else (t, false)
  else
    let cand := dadd price (trail_ t) in
    let t := if dlt cand (stop_ t) then t <| stop_ := cand |> else t in
    if dge price (stop_ t) then (t <| active_ := false |>, true) else (t, false).

(** ** A vote *)

Definition on_side (s : Side) (sigs : list Signal) : list Signal := filter (fun g => sig_valid g = true /\ sig_side g = s) sigs.
(** Per side: how many, their shares, the first of them. *)
Definition tally (s : Side) (sigs : list Signal) : Z * Z * option Signal :=
  foldl (fun '(n, q, first) g =>
    if sig_valid g && bool_decide (sig_side g = s)
    then (i32 (n + 1), i32 (q + sig_quantity g), match first with None => Some g | _ => first end) else (n, q, first)) (0, 0, None) sigs.
Definition combine_signals (sigs : list Signal) (min_agree : Z) : Signal :=
  if (alen sigs <=? 0) || (min_agree <=? 0) then no_signal else
  let '(buys, buy_qty, first_buy) := tally BUY sigs in
  let '(sells, sell_qty, first_sell) := tally SELL sigs in
  let pick := if (min_agree <=? buys) && (sells <? buys) then (first_buy, BUY, buy_qty)
              else if (min_agree <=? sells) && (buys <? sells) then (first_sell, SELL, sell_qty) else (None, BUY, 0) in
  match pick with
  | (Some g, side, qty) => mkSignal (sig_timestamp_ns g) (sig_stock g) side (sig_price g) qty (sig_sma g) (sig_deviation_pct g) true
  | (None, _, _) => no_signal
  end.

(** ** What they keep *)

(** Nothing of the parent is lost or sent twice. *)
Definition pov_ok (p : POVExecutor) : Prop := 0 <= remaining_ p <= INT64_MAX /\ 0 <= executed_ p /\ executed_ p + remaining_ p = total_ p /\ total_ p <= INT64_MAX.
Definition pov_run (p : POVExecutor) (l : list Z) : POVExecutor * list Z :=
  foldl (fun '(p, out) v => let '(p, c) := on_market_volume p v in (p, out ++ [c])) (p, []) l.
Lemma pov_step p v : pov_ok p -> let r := on_market_volume p v in
  pov_ok r.1 /\ total_ r.1 = total_ p /\ 0 <= r.2 /\ executed_ r.1 = executed_ p + r.2.
Proof.
  intros (A & B & C & D). unfold INT64_MAX in *. cbv zeta. unfold on_market_volume. destruct (_ || _) eqn:E; [cbn; split; [done|lia]|]. bsplit.
  set (child := dbl_to_i64 _). destruct (Z.leb_spec child 0); [cbn; split; [done|lia]|].
  destruct (Z.ltb_spec (remaining_ p) child); unfold pov_ok; cbn; rewrite !i64_small by lia; unfold INT64_MAX; lia.
Qed.
(** The children add up to what was executed, and never to more than the parent. *)
Lemma pov_children qty rate l : 0 <= qty <= INT64_MAX -> let r := pov_run (new_pov qty rate) l in
  Forall (fun c => 0 <= c) r.2 /\ sumf id r.2 = executed_ r.1 /\ executed_ r.1 + remaining_ r.1 = qty /\ 0 <= remaining_ r.1.
Proof.
  intros Q. cbv zeta. assert (G : pov_ok (pov_run (new_pov qty rate) l).1 /\ total_ (pov_run (new_pov qty rate) l).1 = qty /\
    Forall (fun c => 0 <= c) (pov_run (new_pov qty rate) l).2 /\ sumf id (pov_run (new_pov qty rate) l).2 = executed_ (pov_run (new_pov qty rate) l).1).
  { induction l as [|v l IH] using rev_ind.
    - cbn. unfold new_pov, pov_ok. cbn. unfold INT64_MAX in *. destruct (Z.ltb_spec 0 qty); split_and!; try lia; done.
    - unfold pov_run in *. rewrite foldl_snoc. destruct (foldl _ _ l) as [p out]. destruct IH as (I1 & I2 & I3 & I4). pose proof (pov_step p v I1) as (S1 & S2 & S3 & S4).
      destruct (on_market_volume p v) as [p1 c]. cbn [fst snd] in *. split_and!; [done|congruence|apply Forall_app; split; [done|by repeat constructor]|].
      rewrite sumf_app, sumf_cons. cbn. unfold id in *. lia. }
  destruct G as ((A & B & C & D) & E & F & H). split_and!; try done; lia.
Qed.

(** Two signals of one symbol let through are a cooldown apart. *)
Fixpoint allowed (t : SignalThrottle) (l : list (cstr * Z)) : list (Z * Z) :=
  match l with
  | [] => []
  | (sym, seq) :: l => let '(t, ok) := allow t sym seq in if ok then (sym_to_key sym, seq) :: allowed t l else allowed t l
  end.
Lemma throttle_gap l : forall t k s, last_fire_ t !! k = Some s -> Forall (fun x => INT64_MIN <= x.2 - s <= INT64_MAX) l -> forall s',
  head (base.filter (fun x => x.1 = k) (allowed t l)) = Some (k, s') -> cooldown_ t <= s' - s.
Proof.
  induction l as [|[sym seq] l IH]; intros t k s L F s' H; [done|]. apply Forall_cons in F as [Fs F]. cbn [allowed] in H. unfold allow in H.
  destruct (decide (sym_to_key sym = k)) as [E|E].
  - rewrite E, L in H. destruct (Z.leb_spec (cooldown_ t) (i64 (seq - s))) as [C|C]; cbn in H.
    + rewrite decide_True in H by done. injection H as <-. cbn in Fs. unfold INT64_MIN, INT64_MAX in *. rewrite i64_small in C by lia. lia.
    + exact (IH (mkThrottle (cooldown_ t) (last_fire_ t) (u64 (suppressed_ t + 1))) k s L F s' H).
  - destruct (match last_fire_ t !! sym_to_key sym with None => _ | Some _ => _ end); cbn in H.
    + rewrite decide_False in H by done. refine (IH (mkThrottle (cooldown_ t) (<[sym_to_key sym := seq]> (last_fire_ t)) (suppressed_ t)) k s _ F s' H). cbn. by rewrite lookup_insert_ne.
    + exact (IH (mkThrottle (cooldown_ t) (last_fire_ t) (u64 (suppressed_ t + 1))) k s L F s' H).
Qed.

(** The stop of a long position never falls, that of a short one never rises,
    and the position is closed at or beyond it. *)
Lemma stop_tightens t price : let r := stop_update t price in
  (if is_long_ t then dlt (stop_ r.1) (stop_ t) = false else dgt (stop_ r.1) (stop_ t) = false) /\
  (r.2 = true -> active_ t = true /\ active_ r.1 = false /\ (if is_long_ t then dle price (stop_ r.1) else dge price (stop_ r.1)) = true) /\
  (active_ t = false -> r = (t, false)).
Proof.
  assert (Asym : forall x y, dlt x y = true -> dlt y x = false).
  { intros x y H. destruct (dlt y x) eqn:E; [|done]. pose proof (dlt_trans x y x H E) as X. by rewrite dlt_irrefl in X. }
  cbv zeta. unfold stop_update. destruct (active_ t); cbn [negb]; [|by destruct (is_long_ t); cbn; rewrite dlt_irrefl || (unfold dgt; rewrite dlt_irrefl)].
  destruct (is_long_ t).
  - destruct (dgt (dsub price (trail_ t)) (stop_ t)) eqn:G; cbn [stop_].
    + change (stop_ (t <| stop_ := dsub price (trail_ t) |>)) with (dsub price (trail_ t)). destruct (dle price _) eqn:E; cbn; split_and!; try done; apply Asym; exact G.
    + destruct (dle price (stop_ t)) eqn:E; cbn; split_and!; try done; apply dlt_irrefl.
  - destruct (dlt (dadd price (trail_ t)) (stop_ t)) eqn:G.
    + change (stop_ (t <| stop_ := dadd price (trail_ t) |>)) with (dadd price (trail_ t)). destruct (dge price _) eqn:E; cbn; split_and!; try done; apply Asym; exact G.
    + destruct (dge price (stop_ t)) eqn:E; cbn; split_and!; try done; apply dlt_irrefl.
Qed.
(** A negative trail is replaced by zero, but the first stop is set with it: a
    long position is then stopped out at its entry price. *)
Example negative_trail : (stop_update (new_stop true (dbl_of_Z 100) (dbl_of_Z (-5))) (dbl_of_Z 102)).2 = true.
Proof. vm_compute. reflexivity. Qed.

(** A combined signal is the side of the strict majority, of at least
    [min_agree] signals. *)
Lemma tally_spec s sigs : alen sigs <= INT32_MAX -> let '(n, _, first) := tally s sigs in n = alen (on_side s sigs) /\ first = head (on_side s sigs).
Proof.
  intros B. unfold tally. induction sigs as [|g l IH] using rev_ind; [done|]. rewrite alen_app in B. change (alen [g]) with 1 in B. specialize (IH ltac:(lia)).
  rewrite foldl_snoc. destruct (foldl _ _ l) as [[n q] first]. destruct IH as [-> ->]. unfold on_side. rewrite filter_app. fold (on_side s l).
  assert (Le : alen (on_side s l) <= alen l) by (unfold alen, on_side; pose proof (length_filter (fun g => sig_valid g = true /\ sig_side g = s) l); lia).
  pose proof (alen_nonneg (on_side s l)). unfold INT32_MAX in *.
  destruct (sig_valid g && bool_decide (sig_side g = s)) eqn:E.
  - rewrite filter_cons_True by (bsplit; split; [done|by apply (bool_decide_eq_true_1 _)]). rewrite filter_nil, alen_app. change (alen [g]) with 1. rewrite i32_small by lia.
    split; [done|]. by destruct (on_side s l).
  - rewrite filter_cons_False, filter_nil, app_nil_r; [done|]. intros [V S]. rewrite V in E. cbn in E. by apply bool_decide_eq_false in E.
Qed.
Lemma combine_majority sigs min_agree : alen sigs <= INT32_MAX -> sig_valid (combine_signals sigs min_agree) = true ->
  let s := sig_side (combine_signals sigs min_agree) in let other := match s with BUY => SELL | SELL => BUY end in
  0 < min_agree <= alen (on_side s sigs) /\ alen (on_side other sigs) < alen (on_side s sigs) /\
  exists g, head (on_side s sigs) = Some g /\ sig_stock (combine_signals sigs min_agree) = sig_stock g /\ sig_price (combine_signals sigs min_agree) = sig_price g.
Proof.
  intros B. unfold combine_signals. destruct (_ || _) eqn:E; [done|]. bsplit. pose proof (tally_spec BUY sigs B) as Tb. pose proof (tally_spec SELL sigs B) as Ts.
  destruct (tally BUY sigs) as [[n q] f]. destruct (tally SELL sigs) as [[n' q'] f']. destruct Tb as [-> ->], Ts as [-> ->].
  destruct ((min_agree <=? alen (on_side BUY sigs)) && _) eqn:E1; [|destruct ((min_agree <=? alen (on_side SELL sigs)) && _) eqn:E2; [|by cbn]]; bsplit.
  - destruct (head (on_side BUY sigs)) as [g|] eqn:Hd; [|done]. intros _. cbn. split_and!; try lia. by exists g.
  - destruct (head (on_side SELL sigs)) as [g|] eqn:Hd; [|done]. intros _. cbn. split_and!; try lia. by exists g.
Qed.
