(* ===== verification/Config.v ===== *)
(** * Config: the configuration file

    [config/config_loader.hpp]: reading [config.yaml] line by line into an
    [HFTConfig], and the overrides from the environment.  The sections that the
    simulator reads are the [HFTConfig] of [Pipeline]; the fields it does not
    read stand beside it.  Files and the environment are arguments. *)
From S2P Require Import Prelude Double Common Text Generator Pipeline.

#[export] Instance eta_risk_config : Settable RiskConfig := fun r =>
  mkRiskConfig (rc_max_position_per_symbol r) (rc_max_portfolio_exposure r) (rc_max_daily_loss r) (rc_max_order_value r)
    (rc_max_drawdown_pct r) (rc_max_price_band_pct r) (rc_max_shares_per_order r) (rc_max_short_per_symbol r)
    (rc_max_consecutive_losses r) (rc_max_daily_traded_notional r).
#[export] Instance eta_hft_config : Settable HFTConfig := fun c =>
  mkConfig (cfg_window c) (cfg_threshold_pct c) (cfg_order_size c) (cfg_max_position c) (cfg_max_order_value c)
    (cfg_default_strategy c) (cfg_split_threshold c) (cfg_venues c) (cfg_risk c) (cfg_stocks c).
#[export] Instance eta_venue_config : Settable VenueConfig := fun v => mkVenueConfig (vc_name v) (vc_latency_ns v) (vc_fee_per_share v).
#[export] Instance eta_stock_config : Settable StockInfo := fun s => mkStock (st_symbol s) (base_price s).
(** The configuration as a file fills it. *)
Record FileConfig := mkFileConfig {
  fc_main : HFTConfig; fc_max_orders_per_second : Z; fc_num_messages : Z; fc_seed : Z; fc_level : cstr; fc_loaded : bool; fc_source : cstr }.
#[export] Instance eta_file_config : Settable FileConfig := fun c =>
  mkFileConfig (fc_main c) (fc_max_orders_per_second c) (fc_num_messages c) (fc_seed c) (fc_level c) (fc_loaded c) (fc_source c).
Definition default_venue_config : VenueConfig := mkVenueConfig [] 500 (dratio 3 1000).
Definition default_stock_config : StockInfo := mkStock [] (dbl_of_Z 100).
Definition default_config : FileConfig :=
  mkFileConfig
    (mkConfig 20 (dratio 1 10) 100 10000 (dbl_of_Z 1000000) BEST_PRICE_NAME 500 []
      (mkRiskConfig 5000 50000 (dbl_of_Z 100000) (dbl_of_Z 500000) (dbl_of_Z 5) (dbl_of_Z 20) 100000 0 0 d_zero) [])
    1000 10000 42 (lit "INFO") false [].

(** ** Lines *)

Fixpoint indent_of (line : cstr) : nat := match line with c :: l => if c =? 32 then S (indent_of l) else 0 | [] => 0 end.
Definition is_ws (c : Z) : bool := (c =? 32) || (c =? 9) || (c =? 13) || (c =? 10).
Fixpoint drop_ws (s : cstr) : cstr := match s with c :: s' => if is_ws c then drop_ws s' else s | [] => [] end.
Definition trim (s : cstr) : cstr := reverse (drop_ws (reverse (drop_ws s))).
(** What stands before a character and, if it is there, behind it. *)
Fixpoint cut_at (c : Z) (s : cstr) : cstr * option cstr :=
  match s with
  | [] => ([], None)
  | x :: s => if x =? c then ([], Some s) else let '(a, b) := cut_at c s in (x :: a, b)
  end.
Definition strip_comment (s : cstr) : cstr := match cut_at 35 s with (a, Some _) => trim a | (_, None) => s end.
(** The key and the value of a line; [None] without a colon or a key. *)
Definition kv (line : cstr) : option (cstr * cstr) :=
  match cut_at 58 line with
  | (_, None) => None
  | (a, Some b) => let key := trim a in let val := strip_comment (trim b) in match key with [] => None | _ => Some (key, val) end
  end.
(** [fgets] into a buffer of 512 bytes. *)
Fixpoint fgets (room : nat) (s : cstr) : cstr * cstr :=
  match room, s with
  | O, _ | _, [] => ([], s)
  | S room, c :: s => if c =? 10 then ([c], s) else let '(a, b) := fgets room s in (c :: a, b)
  end.
Fixpoint read_lines (fuel : nat) (s : cstr) : list cstr :=
  match fuel, s with
  | O, _ | _, [] => []
  | S fuel, _ => let '(l, rest) := fgets 511 s in l :: read_lines fuel rest
  end.
(** Every line has a byte at least. *)
Definition lines_of (s : cstr) : list cstr := read_lines (length s) s.
(** The string of a buffer: up to the first zero. *)
Definition string_of (line : cstr) : cstr := (cut_at 0 line).1.

(** ** Fields *)

Inductive SectionTag := NONE | RISK | OMS | STRATEGY | ROUTER | SIMULATOR | LOGGING.
#[export] Instance section_eq_dec : EqDecision SectionTag.
Proof. solve_decision. Defined.
Definition on_main (f : HFTConfig -> HFTConfig) (c : FileConfig) : FileConfig := c <| fc_main ::= f |>.
Definition on_risk (f : RiskConfig -> RiskConfig) : FileConfig -> FileConfig := on_main (fun m => m <| cfg_risk ::= f |>).
Definition safe_copy (n : nat) (v : cstr) : cstr := take (n - 1) v.
(** The chains of [else if], a row each. *)
Definition fields : list (SectionTag * cstr * (cstr -> FileConfig -> FileConfig)) :=
  [ (RISK, lit "max_position_per_symbol", fun v => on_risk (fun r => r <| rc_max_position_per_symbol := atoi v |>));
    (RISK, lit "max_portfolio_exposure", fun v => on_risk (fun r => r <| rc_max_portfolio_exposure := atoi v |>));
    (RISK, lit "max_daily_loss", fun v => on_risk (fun r => r <| rc_max_daily_loss := atof v |>));
    (RISK, lit "max_orders_per_second", fun v c => c <| fc_max_orders_per_second := atoi v |>);
    (RISK, lit "max_order_value", fun v => on_risk (fun r => r <| rc_max_order_value := atof v |>));
    (RISK, lit "max_drawdown_pct", fun v => on_risk (fun r => r <| rc_max_drawdown_pct := atof v |>));
    (RISK, lit "max_price_band_pct", fun v => on_risk (fun r => r <| rc_max_price_band_pct := atof v |>));
    (RISK, lit "max_shares_per_order", fun v => on_risk (fun r => r <| rc_max_shares_per_order := atoi v |>));
    (RISK, lit "max_short_per_symbol", fun v => on_risk (fun r => r <| rc_max_short_per_symbol := atoi v |>));
    (RISK, lit "max_consecutive_losses", fun v => on_risk (fun r => r <| rc_max_consecutive_losses := atoi v |>));
    (RISK, lit "max_daily_traded_notional", fun v => on_risk (fun r => r <| rc_max_daily_traded_notional := atof v |>));
    (OMS, lit "max_position", fun v => on_main (fun m => m <| cfg_max_position := atoi v |>));
    (OMS, lit "max_order_value", fun v => on_main (fun m => m <| cfg_max_order_value := atof v |>));
    (STRATEGY, lit "window", fun v => on_main (fun m => m <| cfg_window := atoi v |>));
    (STRATEGY, lit "threshold_pct", fun v => on_main (fun m => m <| cfg_threshold_pct := atof v |>));
    (STRATEGY, lit "order_size", fun v => on_main (fun m => m <| cfg_order_size := atoi v |>));
    (ROUTER, lit "default_strategy", fun v => on_main (fun m => m <| cfg_default_strategy := safe_copy 16 v |>));
    (ROUTER, lit "split_threshold", fun v => on_main (fun m => m <| cfg_split_threshold := atoi v |>));
    (SIMULATOR, lit "num_messages", fun v c => c <| fc_num_messages := atoi v |>);
    (SIMULATOR, lit "seed", fun v c => c <| fc_seed := atoi v |>);
    (LOGGING, lit "level", fun v c => c <| fc_level := safe_copy 16 v |>) ].
Definition set_field (sec : SectionTag) (k v : cstr) (c : FileConfig) : FileConfig :=
  match list_find (fun x => x.1 = (sec, k)) fields with Some (_, (_, f)) => f v c | None => c end.
Definition set_venue (k v : cstr) (x : VenueConfig) : VenueConfig :=
  if bool_decide (k = lit "name") then x <| vc_name := safe_copy 16 v |>
  else if bool_decide (k = lit "latency_ns") then x <| vc_latency_ns := atoi v |>
  else if bool_decide (k = lit "fee_per_share") then x <| vc_fee_per_share := atof v |> else x.
Definition set_stock (k v : cstr) (x : StockInfo) : StockInfo :=
  if bool_decide (k = lit "symbol") then x <| st_symbol := safe_copy 9 v |>
  else if bool_decide (k = lit "base_price") then x <| base_price := atof v |> else x.
(** An item of a list: a dash starts a new element, the key goes to the last one. *)
Definition item_line {A} (dflt : A) (set : cstr -> cstr -> A -> A) (line : cstr) (l : list A) : list A :=
  let is_new := bool_decide (take 2 line = [45; 32]) in
  let l := if is_new then l ++ [dflt] else l in
  let item := if is_new then trim (drop 2 line) else line in
  let l := match l with [] => [dflt] | _ => l end in
  match kv item with None => l | Some (k, v) => alter (set k v) (length l - 1)%nat l end.

(** ** The loop *)

Record Parser := mkParser { pa_cfg : FileConfig; sec : SectionTag; in_venues : bool; in_stocks : bool }.
#[export] Instance eta_parser : Settable Parser := fun p => mkParser (pa_cfg p) (sec p) (in_venues p) (in_stocks p).
Definition headers : list (cstr * SectionTag) :=
  [(lit "risk:", RISK); (lit "oms:", OMS); (lit "strategy:", STRATEGY); (lit "router:", ROUTER); (lit "simulator:", SIMULATOR); (lit "logging:", LOGGING)].
(** A line without the spaces around it, by its indentation. *)
Definition parse_text (p : Parser) (ind : nat) (line : cstr) : Parser :=
  match line with
  | [] | 35 :: _ => p
  | _ =>
      if (ind =? 0)%nat then
        let p := p <| in_venues := false |> <| in_stocks := false |> in
        match list_find (fun x => x.1 = line) headers with Some (_, (_, s)) => p <| sec := s |> | None => p end
      else if (ind =? 2)%nat then
        match kv line with
        | None => p
        | Some (k, v) =>
            if bool_decide (k = lit "venues") && bool_decide (sec p = ROUTER) then p <| in_venues := true |> <| in_stocks := false |>
            else if bool_decide (k = lit "stocks") && bool_decide (sec p = SIMULATOR) then p <| in_stocks := true |> <| in_venues := false |>
            else p <| in_venues := false |> <| in_stocks := false |> <| pa_cfg ::= set_field (sec p) k v |>
        end
      else if (4 <=? ind)%nat && in_venues p && bool_decide (sec p = ROUTER) then
        p <| pa_cfg ::= on_main (fun m => m <| cfg_venues ::= item_line default_venue_config set_venue line |>) |>
      else if (4 <=? ind)%nat && in_stocks p && bool_decide (sec p = SIMULATOR) then
        p <| pa_cfg ::= on_main (fun m => m <| cfg_stocks ::= item_line default_stock_config set_stock line |>) |>
      else p
  end.
Definition parse_line (p : Parser) (buffer : cstr) : Parser :=
  let raw := string_of buffer in parse_text p (indent_of raw) (trim raw).
Definition env_overrides : list (cstr * (cstr -> FileConfig -> FileConfig)) :=
  [ (lit "HFT_RISK_MAX_POSITION_PER_SYMBOL", set_field RISK (lit "max_position_per_symbol"));
    (lit "HFT_RISK_MAX_PORTFOLIO_EXPOSURE", set_field RISK (lit "max_portfolio_exposure"));
    (lit "HFT_RISK_MAX_DAILY_LOSS", set_field RISK (lit "max_daily_loss"));
    (lit "HFT_RISK_MAX_ORDERS_PER_SECOND", set_field RISK (lit "max_orders_per_second"));
    (lit "HFT_RISK_MAX_ORDER_VALUE", set_field RISK (lit "max_order_value"));
    (lit "HFT_RISK_MAX_DRAWDOWN_PCT", set_field RISK (lit "max_drawdown_pct"));
    (lit "HFT_RISK_MAX_PRICE_BAND_PCT", set_field RISK (lit "max_price_band_pct"));
    (lit "HFT_RISK_MAX_SHARES_PER_ORDER", set_field RISK (lit "max_shares_per_order"));
    (lit "HFT_RISK_MAX_SHORT_PER_SYMBOL", set_field RISK (lit "max_short_per_symbol"));
    (lit "HFT_RISK_MAX_CONSECUTIVE_LOSSES", set_field RISK (lit "max_consecutive_losses"));
    (lit "HFT_RISK_MAX_DAILY_TRADED_NOTIONAL", set_field RISK (lit "max_daily_traded_notional"));
    (lit "HFT_OMS_MAX_POSITION", set_field OMS (lit "max_position"));
    (lit "HFT_OMS_MAX_ORDER_VALUE", set_field OMS (lit "max_order_value"));
    (lit "HFT_STRATEGY_WINDOW", set_field STRATEGY (lit "window"));
    (lit "HFT_STRATEGY_THRESHOLD_PCT", set_field STRATEGY (lit "threshold_pct"));
    (lit "HFT_STRATEGY_ORDER_SIZE", set_field STRATEGY (lit "order_size"));
    (lit "HFT_SIMULATOR_NUM_MESSAGES", set_field SIMULATOR (lit "num_messages"));
    (lit "HFT_SIMULATOR_SEED", set_field SIMULATOR (lit "seed")) ].
Definition apply_env (getenv : cstr -> option cstr) (c : FileConfig) : FileConfig :=
  foldl (fun c '(name, f) => match getenv name with Some v => f v c | None => c end) c env_overrides.
Definition load_config (open : cstr -> option cstr) (getenv : cstr -> option cstr) (filepath : cstr) : FileConfig :=
  let file := match open filepath with Some t => Some t | None => open (take 511 (lit "../" ++ filepath)) end in
  match file with
  | None => default_config
  | Some text =>
      let p := foldl parse_line (mkParser (default_config <| fc_source := safe_copy 256 filepath |>) NONE false false) (lines_of text) in
      apply_env getenv (pa_cfg p) <| fc_loaded := true |>
  end.

(** ** A configuration as a document *)

(** A section: its fields, each with what stands behind the value, and the
    elements of its list ([venues:] or [stocks:]), which comes last. *)
Definition Entry : Type := cstr * cstr.
Record Block := mkBlock { bk_sec : SectionTag; bk_fields : list (Entry * option cstr); bk_items : list (list Entry) }.
Definition text_line (ind : nat) (s : cstr) : cstr := replicate ind 32 ++ s ++ [10].
Definition note_text (note : option cstr) : cstr := match note with Some n => [32; 32; 35] ++ n | None => [] end.
Definition entry_text (e : Entry) (note : option cstr) : cstr := e.1 ++ [58; 32] ++ e.2 ++ note_text note.
Definition header_text (s : SectionTag) : cstr := match list_find (fun x => x.2 = s) headers with Some (_, (t, _)) => t | None => [] end.
Definition list_text (s : SectionTag) : cstr := match s with ROUTER => lit "venues:" | _ => lit "stocks:" end.
Definition item_lines (it : list Entry) : list cstr :=
  match it with
  | [] => []
  | e :: it => text_line 4 ([45; 32] ++ entry_text e None) :: map (fun e => text_line 6 (entry_text e None)) it
  end.
Definition block_lines (b : Block) : list cstr :=
  text_line 0 (header_text (bk_sec b)) :: map (fun '(e, note) => text_line 2 (entry_text e note)) (bk_fields b) ++
  match bk_items b with [] => [] | items => text_line 2 (list_text (bk_sec b)) :: concat (map item_lines items) end.
Definition render (doc : list Block) : cstr := concat (concat (map block_lines doc)).

(** What the document says. *)
Definition say_items {A} (dflt : A) (set : cstr -> cstr -> A -> A) (items : list (list Entry)) : list A :=
  map (foldl (fun x e => set e.1 e.2 x) dflt) items.
Definition say_block (c : FileConfig) (b : Block) : FileConfig :=
  let c := foldl (fun c f => set_field (bk_sec b) f.1.1 f.1.2 c) c (bk_fields b) in
  match bk_sec b with
  | ROUTER => on_main (fun m => m <| cfg_venues ::= fun l => l ++ say_items default_venue_config set_venue (bk_items b) |>) c
  | SIMULATOR => on_main (fun m => m <| cfg_stocks ::= fun l => l ++ say_items default_stock_config set_stock (bk_items b) |>) c
  | _ => c
  end.

(** A text that starts and ends with something. *)
Definition tight (s : cstr) : bool := negb (is_ws (hd 32 s)) && negb (is_ws (List.last s 32)).
Definition clean (c : Z) : bool := negb (c =? 0) && negb (c =? 10).
Definition key_ok (k : cstr) : bool :=
  negb (bool_decide (k = [])) && forallb (fun c => negb (c =? 0) && negb (is_ws c) && negb (c =? 35) && negb (c =? 58)) k.
Definition val_ok (v : cstr) : bool := tight v && forallb (fun c => clean c && negb (c =? 35)) v.
Definition note_ok (note : option cstr) : bool := match note with Some n => tight (35 :: n) && forallb clean n | None => true end.
Definition entry_ok (e : Entry) (note : option cstr) : bool :=
  key_ok e.1 && val_ok e.2 && note_ok note && (length (entry_text e note) <=? 500)%nat.
(** A field has not the name of the section's list. *)
Definition field_ok (s : SectionTag) (f : Entry * option cstr) : bool :=
  entry_ok f.1 f.2 && negb (bool_decide (s = ROUTER /\ f.1.1 = lit "venues")) && negb (bool_decide (s = SIMULATOR /\ f.1.1 = lit "stocks")).
Definition item_ok (it : list Entry) : bool := negb (bool_decide (it = [])) && forallb (fun e => entry_ok e None) it.
Definition block_ok (b : Block) : bool :=
  negb (bool_decide (bk_sec b = NONE)) && forallb (field_ok (bk_sec b)) (bk_fields b) && forallb item_ok (bk_items b) &&
  (bool_decide (bk_items b = []) || bool_decide (bk_sec b = ROUTER \/ bk_sec b = SIMULATOR)).

(** ** Lines are read as they were written *)

Lemma fgets_line s rest : Forall (fun c => clean c = true) s -> forall room, (length s < room)%nat -> fgets room (s ++ [10] ++ rest) = (s ++ [10], rest).
Proof.
  induction 1 as [|c s Hc _ IH]; intros [|room] Hl; simpl in *; try lia; [done|].
  assert ((c =? 10) = false) as -> by (unfold clean in Hc; lia). by rewrite IH by lia.
Qed.
Definition line_ok (l : cstr) : Prop := exists s, l = s ++ [10] /\ Forall (fun c => clean c = true) s /\ (length s < 511)%nat.
Lemma read_lines_lines ls : Forall line_ok ls -> forall fuel, (length (concat ls) <= fuel)%nat -> read_lines fuel (concat ls) = ls.
Proof.
  induction 1 as [|l ls (s & -> & Hs & Hl) _ IH]; intros fuel Hf; [by destruct fuel|].
  change (concat ((s ++ [10]) :: ls)) with ((s ++ [10]) ++ concat ls) in *. rewrite <- app_assoc in *.
  rewrite !length_app in Hf. simpl in Hf. destruct fuel as [|fuel]; [lia|].
  assert (read_lines (S fuel) (s ++ [10] ++ concat ls) =
    let '(l, rest) := fgets 511 (s ++ [10] ++ concat ls) in l :: read_lines fuel rest) as -> by by destruct s.
  rewrite fgets_line by done. by rewrite IH by lia.
Qed.
Lemma lines_of_lines ls : Forall line_ok ls -> lines_of (concat ls) = ls.
Proof. intros H. by apply read_lines_lines. Qed.

(** ** Trimming and cutting *)

Lemma drop_ws_pad a s : Forall (fun c => is_ws c = true) a -> drop_ws (a ++ s) = drop_ws s.
Proof. induction 1 as [|c a Hc _ IH]; [done|]. simpl. by rewrite Hc. Qed.
Lemma drop_ws_stop s : is_ws (hd 32 s) = false -> drop_ws s = s.
Proof. destruct s; [done|]. simpl. by intros ->. Qed.
Lemma hd_reverse (s : cstr) : hd 32 (reverse s) = List.last s 32.
Proof.
  induction s as [|c s _] using rev_ind; [done|]. by rewrite reverse_snoc, List.last_last.
Qed.
Lemma tight_hd s : tight s = true -> is_ws (hd 32 s) = false.
Proof. unfold tight. by destruct (is_ws (hd 32 s)). Qed.
Lemma tight_last s : tight s = true -> is_ws (List.last s 32) = false.
Proof. unfold tight. destruct (is_ws (List.last s 32)); [by rewrite andb_comm|done]. Qed.
Lemma tight_nonempty s : tight s = true -> s <> [].
Proof. by destruct s. Qed.
Lemma trim_tight a s b : tight s = true -> Forall (fun c => is_ws c = true) a -> Forall (fun c => is_ws c = true) b -> trim (a ++ s ++ b) = s.
Proof.
  intros Hs Ha Hb. unfold trim. rewrite drop_ws_pad by done.
  rewrite (drop_ws_stop (s ++ b)).
  - rewrite reverse_app, drop_ws_pad by (by apply Forall_reverse). rewrite drop_ws_stop, reverse_involutive; [done|].
    rewrite hd_reverse. by apply tight_last.
  - destruct s; [done|]. by apply (tight_hd (z :: s)).
Qed.
Lemma tight_app s t : tight s = true -> tight t = true -> forall m, tight (s ++ m ++ t) = true.
Proof.
  intros Hs Ht m. pose proof (tight_hd _ Hs) as H1. pose proof (tight_last _ Ht) as H2.
  destruct s as [|c s]; [done|]. destruct t as [|d t _] using rev_ind; [done|].
  unfold tight. rewrite !app_assoc, List.last_last. rewrite List.last_last in H2. simpl in *. by rewrite H1, H2.
Qed.
Lemma cut_at_here c a b : Forall (fun x => x <> c) a -> cut_at c (a ++ c :: b) = (a, Some b).
Proof. induction 1 as [|x a Hx _ IH]; simpl; [by rewrite Z.eqb_refl|]. rewrite (proj2 (Z.eqb_neq x c)) by done. by rewrite IH. Qed.
Lemma cut_at_nowhere c a : Forall (fun x => x <> c) a -> cut_at c a = (a, None).
Proof. induction 1 as [|x a Hx _ IH]; simpl; [done|]. rewrite (proj2 (Z.eqb_neq x c)) by done. by rewrite IH. Qed.

Lemma string_of_clean s : Forall (fun c => clean c = true) s -> forall t, Forall (fun x => x <> 0) t -> string_of (s ++ t) = s ++ t.
Proof.
  intros Hs t Ht. unfold string_of. rewrite cut_at_nowhere; [done|]. apply Forall_app. split; [|done].
  eapply Forall_impl; [exact Hs|]. intros c Hc ->. done.
Qed.
Lemma indent_of_line n s : tight s = true -> forall t, indent_of (replicate n 32 ++ s ++ t) = n.
Proof.
  intros Hs t. induction n as [|n IH]; [|simpl; by rewrite IH].
  destruct s as [|c s]; [done|]. apply tight_hd in Hs. simpl in *. unfold is_ws in Hs. by destruct (c =? 32).
Qed.
Lemma spaces_clean n : Forall (fun c => clean c = true) (replicate n 32).
Proof. by apply Forall_replicate. Qed.
Lemma parse_text_line p n s : tight s = true -> Forall (fun c => clean c = true) s -> parse_line p (text_line n s) = parse_text p n s.
Proof.
  intros Ht Hs. unfold parse_line, text_line. rewrite (app_assoc (replicate n 32)), string_of_clean, <- app_assoc.
  - rewrite indent_of_line by done. rewrite trim_tight; [done|done| |by repeat constructor]. by apply Forall_replicate.
  - by apply Forall_app; split; [apply spaces_clean|].
  - by repeat constructor.
Qed.
Lemma text_line_ok n s : Forall (fun c => clean c = true) s -> (n + length s < 511)%nat -> line_ok (text_line n s).
Proof.
  intros Hs Hl. exists (replicate n 32 ++ s). split; [by unfold text_line; rewrite app_assoc|]. split.
  - by apply Forall_app; split; [apply spaces_clean|].
  - rewrite length_app, length_replicate. lia.
Qed.

(** ** Entries *)

Lemma forallb_weaken (P : Z -> Prop) (f : Z -> bool) l :
  forallb f l = true -> (forall c, f c = true -> P c) -> Forall P l.
Proof. rewrite forallb_forall. intros H HP. apply Forall_forall. intros c Hc. apply HP, H. by apply list_elem_of_In. Qed.
Record entry_good (e : Entry) (note : option cstr) : Prop := mkGood {
  g_key : tight e.1 = true; g_key_clean : Forall (fun c => clean c = true) e.1;
  g_key_colon : Forall (fun c => c <> 58) e.1; g_key_plain : Forall (fun c => c <> 32 /\ c <> 35) e.1;
  g_val : tight e.2 = true; g_val_clean : Forall (fun c => clean c = true) e.2; g_val_hash : Forall (fun c => c <> 35) e.2;
  g_note : match note with Some n => tight (35 :: n) = true /\ Forall (fun c => clean c = true) n | None => True end;
  g_len : (length (entry_text e note) <= 500)%nat }.
Lemma entry_good_of e note : entry_ok e note = true -> entry_good e note.
Proof.
  unfold entry_ok, key_ok, val_ok, note_ok. intros H. rewrite !andb_true_iff in H.
  destruct H as [[[[Hk Hks] [Hv Hvs]] Hn] Hl]. 
  assert (Forall (fun c => c <> 0 /\ is_ws c = false /\ c <> 35 /\ c <> 58) e.1) as K.
  { eapply forallb_weaken; [exact Hks|]. intros c. rewrite !andb_true_iff, !negb_true_iff, !Z.eqb_neq. tauto. }
  assert (Forall (fun c => clean c = true /\ c <> 35) e.2) as V.
  { eapply forallb_weaken; [exact Hvs|]. intros c. rewrite !andb_true_iff, !negb_true_iff, !Z.eqb_neq. tauto. }
  split; try (by eapply Forall_impl; [exact K|]; simpl; unfold is_ws, clean; intros; lia);
    try (by eapply Forall_impl; [exact V|]; simpl; intros; tauto); try done; try lia.
  - unfold tight. destruct e.1 as [|c k]; [done|]. destruct (List.exists_last (l := c :: k)) as (k' & d & E); [done|].
    rewrite E, List.last_last. rewrite E in K. apply Forall_app in K as [_ K]. apply Forall_inv in K as K2.
    assert (In (hd 32 (k' ++ [d])) (k' ++ [d])) as Hin by by destruct k'; left.
    rewrite forallb_forall in Hks. rewrite E in Hks. specialize (Hks _ Hin). destruct (is_ws _); [lia|]. destruct K2 as (_ & -> & _). done.
  - destruct note as [n|]; [|done]. rewrite andb_true_iff in Hn. destruct Hn as [Hn1 Hn2]. split; [done|].
    by eapply forallb_weaken.
  - by apply Nat.leb_le.
Qed.
Lemma entry_text_clean e note : entry_good e note -> Forall (fun c => clean c = true) (entry_text e note).
Proof.
  intros G. unfold entry_text, note_text. repeat (apply Forall_app; split); try apply G; try by repeat constructor.
  pose proof (g_note _ _ G) as N. destruct note; [|done]. apply Forall_app; split; [by repeat constructor|tauto].
Qed.
Lemma entry_text_tight e note : entry_good e note -> tight (entry_text e note) = true.
Proof.
  intros G. unfold entry_text, note_text. pose proof (g_note _ _ G) as N. destruct note as [n|].
  - change ([32; 32; 35] ++ n) with ([32; 32] ++ 35 :: n). rewrite !app_assoc, <- !(app_assoc e.1).
    apply tight_app; [apply G|tauto].
  - rewrite app_nil_r. apply tight_app; apply G.
Qed.
Lemma val_note_tight e note : entry_good e note -> tight (e.2 ++ note_text note) = true.
Proof.
  intros G. pose proof (g_note _ _ G) as N. unfold note_text. destruct note as [n|]; [|rewrite app_nil_r; apply G].
  change ([32; 32; 35] ++ n) with ([32; 32] ++ 35 :: n). apply tight_app; [apply G|tauto].
Qed.
Lemma trim_self s : tight s = true -> trim s = s.
Proof. intros H. rewrite <- (app_nil_r s) at 1. by apply (trim_tight [] s []). Qed.
Lemma strip_note e note : entry_good e note -> strip_comment (e.2 ++ note_text note) = e.2.
Proof.
  intros G. unfold strip_comment, note_text. destruct note as [n|].
  - change ([32; 32; 35] ++ n) with ([32; 32] ++ 35 :: n). rewrite app_assoc, cut_at_here.
    + apply (trim_tight [] e.2 [32; 32]); [apply G|done|by repeat constructor].
    + apply Forall_app; split; [apply G|by repeat constructor].
  - rewrite app_nil_r, cut_at_nowhere; [done|apply G].
Qed.
(** A key and a value are read as they were written. *)
Lemma kv_entry e note : entry_good e note -> kv (entry_text e note) = Some e.
Proof.
  intros G. unfold kv, entry_text. change ([58; 32] ++ e.2 ++ note_text note) with (58 :: 32 :: (e.2 ++ note_text note)).
  rewrite cut_at_here by apply G. rewrite trim_self by apply G.
  assert (trim (32 :: (e.2 ++ note_text note)) = e.2 ++ note_text note) as ->.
  { rewrite <- (app_nil_r (e.2 ++ _)) at 1. apply (trim_tight [32] _ []); [by apply val_note_tight|by repeat constructor|done]. }
  rewrite strip_note by done. pose proof (tight_nonempty _ (g_key _ _ G)). destruct e as [[|c k] v]; done.
Qed.

(** ** The lines of a section *)

Section lines.
Context (p : Parser).
Lemma header_line s : s <> NONE -> parse_text p 0 (header_text s) = p <| in_venues := false |> <| in_stocks := false |> <| sec := s |>.
Proof. by destruct s. Qed.
Lemma entry_head e note : entry_good e note -> exists c l, entry_text e note = c :: l /\ c <> 35.
Proof.
  intros G. pose proof (g_key_plain _ _ G) as P. pose proof (tight_nonempty _ (g_key _ _ G)). unfold entry_text.
  destruct e.1 as [|c k]; [done|]. apply Forall_inv in P. exists c. eexists. split; [done|tauto].
Qed.
Lemma field_line e note : entry_good e note -> ~ (sec p = ROUTER /\ e.1 = lit "venues") -> ~ (sec p = SIMULATOR /\ e.1 = lit "stocks") ->
  parse_text p 2 (entry_text e note) = p <| in_venues := false |> <| in_stocks := false |> <| pa_cfg ::= set_field (sec p) e.1 e.2 |>.
Proof.
  intros G H1 H2. destruct (entry_head _ _ G) as (c & l & E & Hc). unfold parse_text. rewrite E.
  assert (forall A (a b : A), match c with 35 => a | _ => b end = b) as Hm by (intros; destruct (Z.eq_dec c 35); [done|]; repeat case_match; done).
  rewrite Hm. simpl. rewrite <- E, kv_entry by done. destruct e as [k v]. simpl in *.
  repeat (case_bool_decide; simpl; try tauto).
Qed.
Lemma list_line s : s = ROUTER \/ s = SIMULATOR -> sec p = s ->
  parse_text p 2 (list_text s) = p <| in_venues := bool_decide (s = ROUTER) |> <| in_stocks := bool_decide (s = SIMULATOR) |>.
Proof. intros [->| ->] E; unfold parse_text; simpl; by rewrite E. Qed.
End lines.

(** ** The elements of a list *)

Lemma alter_at_end {A} (dflt : A) f l x :
  let m := match l ++ [x] with [] => [dflt] | _ => l ++ [x] end in alter f (length m - 1)%nat m = l ++ [f x].
Proof.
  assert (match l ++ [x] with [] => [dflt] | _ => l ++ [x] end = l ++ [x]) as -> by by destruct l.
  simpl. rewrite length_app, Nat.add_sub, <- (Nat.add_0_r (length l)). by rewrite alter_app_r.
Qed.
Lemma item_first {A} (dflt : A) set e l : entry_good e None -> item_line dflt set ([45; 32] ++ entry_text e None) l = l ++ [set e.1 e.2 dflt].
Proof.
  intros G. unfold item_line. simpl take. rewrite bool_decide_true by done.
  change (drop 2 ([45; 32] ++ entry_text e None)) with (entry_text e None).
  rewrite trim_self by by apply entry_text_tight. rewrite kv_entry by done. destruct e as [k v]. apply alter_at_end.
Qed.
Lemma item_next {A} (dflt : A) set e l x : entry_good e None -> item_line dflt set (entry_text e None) (l ++ [x]) = l ++ [set e.1 e.2 x].
Proof.
  intros G. unfold item_line. rewrite bool_decide_false.
  - rewrite kv_entry by done. destruct e as [k v]. apply alter_at_end.
  - pose proof (g_key_plain _ _ G) as P. unfold entry_text. pose proof (tight_nonempty _ (g_key _ _ G)).
    destruct e.1 as [|c [|d k]]; [done|done|]. intros [= -> ->]. apply Forall_inv_tail, Forall_inv in P. tauto.
Qed.
Section items.
Context {A} (dflt : A) (set : cstr -> cstr -> A -> A) (upd : (list A -> list A) -> Parser -> Parser) (here : Parser -> Prop).
Hypothesis upd_here : forall f p, here p -> here (upd f p).
Hypothesis upd_upd : forall f g p, upd f (upd g p) = upd (fun l => f (g l)) p.
Hypothesis upd_ext : forall f g p, (forall l, f l = g l) -> upd f p = upd g p.
Hypothesis upd_id : forall f p, (forall l, f l = l) -> upd f p = p.
Hypothesis read_item : forall p n c s, here p -> (4 <= n)%nat -> c <> 35 -> parse_text p n (c :: s) = upd (item_line dflt set (c :: s)) p.
Lemma item_rest it : Forall (fun e => entry_good e None) it -> forall p x, here p ->
  foldl parse_line (upd (fun l => l ++ [x]) p) (map (fun e => text_line 6 (entry_text e None)) it) =
  upd (fun l => l ++ [foldl (fun x e => set e.1 e.2 x) x it]) p.
Proof.
  induction 1 as [|e it G _ IH]; intros p x Hp; [done|]. simpl.
  rewrite parse_text_line by (by apply entry_text_tight || by apply entry_text_clean).
  destruct (entry_head _ _ G) as (c & s & E & Hc). rewrite E, read_item by (auto; lia). rewrite <- E, upd_upd.
  rewrite <- IH by done. f_equal. apply upd_ext. intros l. by apply item_next.
Qed.
Lemma item_fold it p : it <> [] -> Forall (fun e => entry_good e None) it -> here p ->
  foldl parse_line p (item_lines it) = upd (fun l => l ++ [foldl (fun x e => set e.1 e.2 x) dflt it]) p.
Proof.
  intros Hit Hg Hp. destruct Hg as [|e it G Hg]; [done|]. simpl.
  rewrite parse_text_line.
  - rewrite read_item by (try done; lia). rewrite <- item_rest by done. f_equal. apply upd_ext. intros l. by apply item_first.
  - rewrite <- (app_nil_l (45 :: _)). apply (tight_app [45] (entry_text e None) eq_refl (entry_text_tight _ _ G) [32]).
  - by repeat constructor; apply entry_text_clean.
Qed.
Lemma items_fold items : Forall (fun it => it <> [] /\ Forall (fun e => entry_good e None) it) items -> forall p, here p ->
  foldl parse_line p (concat (map item_lines items)) = upd (fun l => l ++ say_items dflt set items) p.
Proof.
  induction 1 as [|it items [Hit Hg] _ IH]; intros p Hp; simpl.
  - symmetry. apply upd_id. apply app_nil_r.
  - rewrite foldl_app, item_fold by done. rewrite IH by auto. rewrite upd_upd. apply upd_ext. intros l. by rewrite <- app_assoc.
Qed.
End items.
Definition on_venues (f : list VenueConfig -> list VenueConfig) (p : Parser) : Parser := p <| pa_cfg ::= on_main (fun m => m <| cfg_venues ::= f |>) |>.
Definition on_stocks (f : list StockInfo -> list StockInfo) (p : Parser) : Parser := p <| pa_cfg ::= on_main (fun m => m <| cfg_stocks ::= f |>) |>.
Lemma not_comment A (a b : A) c : c <> 35 -> match c with 35 => a | _ => b end = b.
Proof. intros. repeat case_match; done. Qed.
Lemma deep_line p n c s : (4 <= n)%nat -> c <> 35 ->
  parse_text p n (c :: s) =
  if in_venues p && bool_decide (sec p = ROUTER) then on_venues (item_line default_venue_config set_venue (c :: s)) p
  else if in_stocks p && bool_decide (sec p = SIMULATOR) then on_stocks (item_line default_stock_config set_stock (c :: s)) p else p.
Proof.
  intros Hn Hc. destruct n as [|[|[|[|n]]]]; try lia. unfold parse_text. by rewrite not_comment.
Qed.
Lemma upd_id_on_venues f p : (forall l, f l = l) -> on_venues f p = p.
Proof. intros H. destruct p as [[[] ? ? ? ? ? ?] ? ? ?]. unfold on_venues, on_main. cbn. by rewrite H. Qed.
Lemma upd_id_on_stocks f p : (forall l, f l = l) -> on_stocks f p = p.
Proof. intros H. destruct p as [[[] ? ? ? ? ? ?] ? ? ?]. unfold on_stocks, on_main. cbn. by rewrite H. Qed.
Lemma venues_read items p : Forall (fun it => it <> [] /\ Forall (fun e => entry_good e None) it) items -> sec p = ROUTER -> in_venues p = true ->
  foldl parse_line p (concat (map item_lines items)) = on_venues (fun l => l ++ say_items default_venue_config set_venue items) p.
Proof.
  intros Hi Hs Hv. apply (items_fold _ _ on_venues (fun p => sec p = ROUTER /\ in_venues p = true)); try done.
  - intros f g q H. unfold on_venues, on_main. destruct q as [[[] ? ? ? ? ? ?] ? ? ?]. cbn. by rewrite H.
  - apply upd_id_on_venues.
  - intros q n c s [H1 H2] Hn Hc. rewrite deep_line by done. by rewrite H1, H2.
Qed.
Lemma stocks_read items p : Forall (fun it => it <> [] /\ Forall (fun e => entry_good e None) it) items ->
  sec p = SIMULATOR -> in_stocks p = true ->
  foldl parse_line p (concat (map item_lines items)) = on_stocks (fun l => l ++ say_items default_stock_config set_stock items) p.
Proof.
  intros Hi Hs Hv. apply (items_fold _ _ on_stocks (fun p => sec p = SIMULATOR /\ in_stocks p = true)); try done.
  - intros f g q H. unfold on_stocks, on_main. destruct q as [[[] ? ? ? ? ? ?] ? ? ?]. cbn. by rewrite H.
  - apply upd_id_on_stocks.
  - intros q n c s [H1 H2] Hn Hc. rewrite deep_line by done. rewrite H1, H2. by rewrite bool_decide_false, andb_false_r by done.
Qed.

(** ** Sections and documents *)

Record block_good (b : Block) : Prop := mkBlockGood {
  b_sec : bk_sec b <> NONE;
  b_fields : Forall (fun f => entry_good f.1 f.2 /\ ~ (bk_sec b = ROUTER /\ f.1.1 = lit "venues") /\ ~ (bk_sec b = SIMULATOR /\ f.1.1 = lit "stocks")) (bk_fields b);
  b_items : Forall (fun it => it <> [] /\ Forall (fun e => entry_good e None) it) (bk_items b);
  b_list : bk_items b = [] \/ bk_sec b = ROUTER \/ bk_sec b = SIMULATOR }.
Lemma forallb_Forall {A} (f : A -> bool) (P : A -> Prop) l : (forall x, f x = true -> P x) -> forallb f l = true -> Forall P l.
Proof. intros H. induction l; simpl; [done|]. rewrite andb_true_iff. intros []. constructor; auto. Qed.
Lemma block_good_of b : block_ok b = true -> block_good b.
Proof.
  unfold block_ok. rewrite !andb_true_iff, orb_true_iff, !bool_decide_eq_true, negb_true_iff, bool_decide_eq_false.
  intros [[[Hs Hf] Hi] Hl]. split; try done.
  - revert Hf. apply forallb_Forall. intros f. unfold field_ok. rewrite !andb_true_iff, !negb_true_iff, !bool_decide_eq_false.
    intros [[H H1] H2]. split; [by apply entry_good_of|done].
  - revert Hi. apply forallb_Forall. intros it. unfold item_ok. rewrite andb_true_iff, negb_true_iff, bool_decide_eq_false.
    intros [H1 H2]. split; [done|]. revert H2. apply forallb_Forall. intros e. apply entry_good_of.
Qed.
Lemma fields_read b : Forall (fun f => entry_good f.1 f.2 /\ ~ (bk_sec b = ROUTER /\ f.1.1 = lit "venues") /\ ~ (bk_sec b = SIMULATOR /\ f.1.1 = lit "stocks")) (bk_fields b) ->
  forall p, sec p = bk_sec b ->
  let p' := foldl parse_line p (map (fun '(e, note) => text_line 2 (entry_text e note)) (bk_fields b)) in
  sec p' = bk_sec b /\ pa_cfg p' = foldl (fun c f => set_field (bk_sec b) f.1.1 f.1.2 c) (pa_cfg p) (bk_fields b).
Proof.
  induction 1 as [|[e note] l (G & H1 & H2) _ IH]; intros p Hp; [done|]. simpl in *.
  rewrite parse_text_line by (by apply entry_text_tight || by apply entry_text_clean).
  rewrite field_line by (by rewrite ?Hp). edestruct IH as [I1 I2]; [|split; [exact I1|rewrite I2]]; [done|]. simpl. by rewrite Hp.
Qed.
Lemma block_read b p : block_good b -> pa_cfg (foldl parse_line p (block_lines b)) = say_block (pa_cfg p) b.
Proof.
  intros G. unfold block_lines. simpl foldl.
  rewrite parse_text_line, header_line by (try apply G; destruct (bk_sec b) eqn:E; try done; try (by repeat constructor); by destruct (b_sec _ G)).
  rewrite foldl_app. set (q := p <| in_venues := false |> <| in_stocks := false |> <| sec := bk_sec b |>).
  destruct (fields_read b (b_fields _ G) q eq_refl) as [F1 F2]. cbv zeta in F1, F2. change (pa_cfg q) with (pa_cfg p) in F2.
  set (q' := foldl _ q _) in *. unfold say_block. rewrite <- F2.
  destruct (bk_items b) as [|it items] eqn:E.
  - simpl. destruct (bk_sec b); try done.
    + symmetry. apply (f_equal pa_cfg (upd_id_on_venues (fun l => l ++ []) q' (app_nil_r (A := _)))).
    + symmetry. apply (f_equal pa_cfg (upd_id_on_stocks (fun l => l ++ []) q' (app_nil_r (A := _)))).
  - destruct (b_list _ G) as [H|H]; [by rewrite E in H|]. pose proof (b_items _ G) as Hi.
    simpl foldl. change (item_lines it ++ concat (map item_lines items)) with (concat (map item_lines (it :: items))).
    rewrite <- E. clear E. rewrite parse_text_line by (destruct H as [-> | ->]; first [done|by repeat constructor]).
    rewrite (list_line q' (bk_sec b)) by done.
    destruct H as [H|H]; rewrite H.
    + by rewrite venues_read by (try done; simpl; congruence).
    + by rewrite stocks_read by (try done; simpl; congruence).
Qed.
Lemma entry_line_ok e note n : entry_good e note -> (n <= 6)%nat -> line_ok (text_line n (entry_text e note)).
Proof. intros G Hn. apply text_line_ok; [by apply entry_text_clean|]. pose proof (g_len _ _ G). lia. Qed.
Lemma item_lines_ok it : Forall (fun e => entry_good e None) it -> Forall line_ok (item_lines it).
Proof.
  intros [|e l G H]; [constructor|]. constructor.
  - apply text_line_ok; [by repeat constructor; apply entry_text_clean|]. pose proof (g_len _ _ G). simpl. lia.
  - apply Forall_map. eapply Forall_impl; [exact H|]. intros x Hx. apply entry_line_ok; [done|lia].
Qed.
Lemma block_lines_ok b : block_good b -> Forall line_ok (block_lines b).
Proof.
  intros G. constructor.
  { apply text_line_ok; [|by destruct (bk_sec b); simpl; lia]. destruct (bk_sec b); by repeat constructor. }
  apply Forall_app; split.
  - apply Forall_map. eapply Forall_impl; [exact (b_fields _ G)|]. intros [e note] [H _]. apply entry_line_ok; [done|lia].
  - pose proof (b_items _ G) as Hi. destruct (bk_items b) as [|it items]; [done|]. constructor.
    + apply text_line_ok; [destruct (bk_sec b); by repeat constructor|destruct (bk_sec b); simpl; lia].
    + apply Forall_concat, Forall_map. eapply Forall_impl; [exact Hi|]. intros l [_ H]. by apply item_lines_ok.
Qed.
Lemma render_read doc : Forall block_good doc -> forall p,
  pa_cfg (foldl parse_line p (lines_of (render doc))) = foldl say_block (pa_cfg p) doc.
Proof.
  intros H p. unfold render. rewrite lines_of_lines.
  - revert p. induction H as [|b doc Hb _ IH]; intros p; [done|]. simpl. simpl. rewrite foldl_app, IH. f_equal. by apply block_read.
  - apply Forall_concat, Forall_map. eapply Forall_impl; [exact H|]. apply block_lines_ok.
Qed.

(** ** What the configuration promises *)

Definition demo_doc : list Block :=
  [ mkBlock RISK [((lit "max_order_value", lit "250000.5"), Some (lit " per order: $")); ((lit "no_such_limit", lit "1"), None)] [];
    mkBlock ROUTER [((lit "default_strategy", lit "SPLIT"), None)]
      [[(lit "name", lit "NYSE"); (lit "latency_ns", lit "700")]; [(lit "name", lit "A_VENUE_WITH_A_LONG_NAME"); (lit "fee_per_share", lit "-0.001")]];
    mkBlock OMS [((lit "max_position", lit "77"), None)] [] ].
Definition demo_env (name : cstr) : option cstr := if bool_decide (name = lit "HFT_OMS_MAX_POSITION") then Some (lit "88") else None.
Definition demo_open (path : cstr) : option cstr := if bool_decide (path = lit "../config.yaml") then Some (render demo_doc) else None.

(** The file the repository ships: the limits are the defaults of the code,
    three venues and the stocks of the simulator. *)
Definition repository_config : cstr := lit "# HFT Infrastructure Lab — Configuration
#
# All parameters can be overridden via environment variables prefixed with HFT_

# Risk Manager limits
risk:
  max_position_per_symbol: 5000    # Max shares per symbol
  max_portfolio_exposure: 50000    # Max total absolute exposure
  max_daily_loss: 100000.0         # Daily P&L loss limit ($)
  max_orders_per_second: 1000      # Rate limit
  max_order_value: 500000.0        # Max single order notional ($)
  max_drawdown_pct: 5.0            # Max drawdown from peak (%)
  max_price_band_pct: 20.0         # Fat-finger band vs ref price (%, <=0 off)

# OMS parameters
oms:
  max_position: 10000              # Max position per symbol
  max_order_value: 1000000.0       # Max single order value ($)

# Strategy parameters
strategy:
  window: 20                       # SMA lookback period (ticks)
  threshold_pct: 0.1               # Deviation threshold (%)
  order_size: 100                  # Default order quantity

# Smart Order Router
router:
  default_strategy: BEST_PRICE     # BEST_PRICE | LOWEST_LATENCY | SPLIT
  split_threshold: 500             # Min order size for SPLIT
  venues:
    - name: NYSE
      latency_ns: 500
      fee_per_share: 0.003
    - name: NASDAQ
      latency_ns: 200
      fee_per_share: -0.002        # Negative = maker rebate
    - name: BATS
      latency_ns: 150
      fee_per_share: -0.001

# Simulator settings
simulator:
  num_messages: 10000              # Default message count
  seed: 42                         # Random seed for reproducibility
  stocks:                          # Optional symbol universe (falls back to built-in default if omitted)
    - symbol: AAPL
      base_price: 175.00
    - symbol: MSFT
      base_price: 410.00
    - symbol: GOOGL
      base_price: 155.00
    - symbol: AMZN
      base_price: 185.00
    - symbol: TSLA
      base_price: 245.00
    - symbol: META
      base_price: 500.00
    - symbol: NVDA
      base_price: 880.00
    - symbol: JPM
      base_price: 195.00

# Logging configuration
logging:
  level: INFO                      # DEBUG | INFO | WARNING | ERROR
".
Definition no_env (name : cstr) : option cstr := None.
Example repository_config_loads :
  let c := load_config (fun _ => Some repository_config) no_env (lit "config.yaml") in
  cfg_risk (fc_main c) = cfg_risk (fc_main default_config) /\
  (cfg_max_position (fc_main c), cfg_window (fc_main c), cfg_order_size (fc_main c), fc_num_messages c, fc_seed c) = (10000, 20, 100, 10000, 42) /\
  map (fun v => (vc_name v, vc_latency_ns v, vc_fee_per_share v)) (cfg_venues (fc_main c)) =
    [(lit "NYSE", 500, atof (lit "0.003")); (lit "NASDAQ", 200, atof (lit "-0.002")); (lit "BATS", 150, atof (lit "-0.001"))] /\
  map st_symbol (cfg_stocks (fc_main c)) = [lit "AAPL"; lit "MSFT"; lit "GOOGL"; lit "AMZN"; lit "TSLA"; lit "META"; lit "NVDA"; lit "JPM"].
Proof. repeat split; by vm_compute. Qed.

(** The environment is not asked when there is no file. *)
Lemma no_file_no_environment open getenv path :
  open path = None -> open (take 511 (lit "../" ++ path)) = None -> load_config open getenv path = default_config.
Proof. intros H1 H2. unfold load_config. by rewrite H1, H2. Qed.
(** A section the reader does not know, or one with a comment behind its name,
    goes on with the section before it. *)
Example unknown_section_continues :
  let c := load_config (fun _ => Some (lit "risk:
  max_order_value: 250000
oms: # limits
  max_order_value: 999000
")) no_env (lit "config.yaml") in
  rc_max_order_value (cfg_risk (fc_main c)) = dbl_of_Z 999000 /\ cfg_max_order_value (fc_main c) = dbl_of_Z 1000000.
Proof. split; by vm_compute. Qed.
(** [source] is the path asked for, also when the file above was read. *)
Example source_is_not_the_file :
  fc_source (load_config (fun p => if bool_decide (p = lit "../config.yaml") then Some [] else None) no_env (lit "config.yaml")) = lit "config.yaml".
Proof. by vm_compute. Qed.
